(* ===== verification/_CoqProject ===== *)
-Q . S2P
Prelude.v
Uint256.v
Multiply.v
Reciprocal.v
Knuth.v
Arith.v
Effects.v
Types.v
Arena.v
Stack.v
Memory.v
Opcodes.v
Gas.v
StateAccess.v
Frame.v
OpsArith.v
OpsData.v
CallOps.v
Evm.v
FrameLogic.v
OpsSafe.v
StateSafe.v
CallSafe.v
EvmSafe.v
Execution.v
Endless.v
MemState.v
OpsSpec.v
EvmTheorems.v
OpsTheorems.v
Bytes.v
Rlp.v
RlpSpec.v
Account.v
Transaction.v
TxRlp.v
TxSpec.v
CodecTheorems.v
Executor.v
ExecutorSafe.v
ExecTheorems.v
HashTable.v
Nibbles.v
Trie.v
TrieSpec.v
TrieMap.v
TrieTheorems.v
WorldState.v
WorldSpec.v
WorldLaws.v
WorldView.v
WorldExport.v
WorldTheorems.v
Hex.v
HexSpec.v
Json.v
T8nAlloc.v
T8nEnv.v
T8nTxs.v
T8nResult.v
JsonSpec.v
JsonModel.v
FilesSpec.v
T8nCommand.v
ImportSpec.v
ParseSafe.v
CommandSafe.v
T8nTheorems.v
CommandTheorems.v
Keccak.v
ArenaHeap.v
ArenaSafe.v
ArenaTheorems.v
ByteString.v
CrashHandler.v
Cli.v
CliTheorems.v
Pools.v
Secp256k1.v
Conformance.v
