(* ===== verification/Prelude.v ===== *)
(** * div0: an Ethereum execution client in C, verified

    div0 executes Ethereum transactions. Its command (src/cli/t8n) reads a
    state, a block environment and transactions from JSON files (src/t8n,
    src/json, src/util/hex.c), builds the state, recovers the senders and hands
    the block to the block executor (src/executor), which validates each
    transaction against the state, charges its sender, runs it in the
    interpreter (src/evm) and settles fees and refunds; the command then writes
    the result and the state after the block. The interpreter works on 256-bit
    words (src/types/uint256.c), a stack, a linear memory and nested call
    frames, and reaches accounts and storage through a table of functions
    (include/div0/state/state_access.h). The world state (src/state) implements
    that table with one Merkle Patricia trie of accounts and one of storage per
    account (src/trie). Transactions, accounts and trie nodes are encoded in RLP
    (src/rlp, src/ethereum/transaction, src/state/account.c), in byte strings
    that live in an arena (include/div0/mem/arena.h); hashes and senders come
    from wrappers around two libraries (src/crypto). The program (src/cli/main.c)
    installs a crash handler and chooses the command.

    ** Which file models what

    - [Prelude]: machine words with wrap-around ([w64], [+64], ...), loops
      ([for_], [for_down]), byte lists and the lemmas all files share.
    - [Uint256], [Multiply], [Reciprocal], [Knuth], [Arith]: uint256.c, limb
      by limb. [val] is the integer a word stands for, and each routine has a
      lemma [..._spec] that gives its [val].
    - [Types]: addresses and hashes. [Arena]: the block allocator;
      [alloc_succeeds] is the outcome of a request when malloc succeeds.
      [ArenaHeap] is the same code at the level of pointers: blocks in a heap,
      linked by [next], with contents; [ArenaSafe] its invariant and the effect
      of each operation.
    - [Effects]: status codes and the monad of the handlers. A computation
      returns, stops with a status ([Err]) or hits undefined behaviour
      ([Crash]); [triple] is its Hoare triple.
    - [Stack], [Memory], [Opcodes], [Gas], [Frame]: the parts of a call frame
      and the cost tables; [Opcodes] has the jump destination analysis too.
    - [StateAccess]: the table of functions as the class [StateAccess], and
      the laws an implementation has to satisfy as the class [StateLaws].
      [MemState] is an implementation in finite maps; the examples run on it.
    - [OpsArith], [OpsData], [CallOps]: the opcode handlers, one
      definition per C function, with the checks, charges and early returns in
      the order of the code.
    - [Evm]: the dispatch table, one frame ([execute_frame]), the loop over
      nested frames ([main_loop]) and [evm_execute_env].
    - [FrameLogic], [OpsSafe], [StateSafe], [CallSafe], [EvmSafe],
      [Execution]: the safety proof, from single steps to whole executions.
      [Endless]: the memory ranges on which an instruction never ends, decided
      by [endless], and that nothing else of the interpreter runs for ever.
    - [OpsSpec]: exact results of instructions and calls.
    - [Pools]: the frame and memory pools as arrays of slots, and that they
      hold the frames that [Evm] keeps by value.
    - [Bytes], [Rlp], [RlpSpec], [Account]: byte strings, RLP against its
      definition, accounts. [Bytes] has the byte strings in the form the encoders
      use them; [ByteString] is bytes.c with both backings (malloc and arena).
    - [Transaction], [TxRlp], [TxSpec]: the five transaction formats, their
      codec, hashes and sender recovery.
    - [Keccak]: keccak256.c over the sponge of XKCP, the class [Sponge] with
      its laws, and Keccak-f[1600], an instance.
    - [Secp256k1]: secp256k1.c over libsecp256k1, the class [Secp256k1], and
      the curve, an instance.
    - [Executor], [ExecutorSafe]: validation, one transaction,
      a block. The executor's additional laws of the state are the class
      [BlockLaws].
    - [HashTable]: the tables of the STC library as the class [HashTables] with
      its laws, and tables of pairs that satisfy them.
    - [Nibbles], [Trie]: nibble strings, the hex-prefix code, nodes and the
      operations of the trie. [TrieSpec], [TrieMap]: well-formed tries, what
      insertion, deletion and lookup do to their contents ([has]), and that
      the encoding of a well-formed trie is determined by its contents.
    - [WorldState]: world_state.c but its destructor. [WorldSpec]: its invariant
      [world_ok] and the effect of each operation; [WorldLaws]: the world state
      satisfies [StateLaws] and [BlockLaws]; [WorldView]: what it does on plain
      maps ([meaning]), the simulation, the contract that state_access.h
      documents ([documented]) with the calls on which the code keeps it
      ([permitted]), and state roots;
      [WorldExport]: the exported state.
    - [Hex]: hex.c, the parsers of words, addresses and hashes, 32-byte values.
      [HexSpec]: what the decoders accept and the encoders write.
    - [Json]: parse.c and write.c over yyjson, whose functions are the classes
      [Yyjson] and [YyjsonMut]. [JsonSpec]: what is assumed of them ([shows]: a
      value of a parsed document stands for a tree; [holds]: the trees of a
      document under construction) and rules for parsers and builders.
      [JsonModel]: a model of yyjson that satisfies the assumptions.
    - [T8nAlloc], [T8nEnv], [T8nTxs], [T8nResult]: the files of the transition
      tool. [FilesSpec]: what is written is read back; [ParseSafe]:
      what the parsers accept is well formed.
    - [T8nCommand]: t8n_command.c, from the options to the exit code.
      [ImportSpec]: the state that is built from a file; [CommandSafe]: the
      command runs to its end.
    - [CrashHandler]: the crash handler. [Cli]: reading standard input, the
      options, the resources of the command, and main.
    - [EvmTheorems], [OpsTheorems], [CodecTheorems], [ExecTheorems],
      [TrieTheorems], [WorldTheorems], [T8nTheorems], [CommandTheorems],
      [ArenaTheorems], [CliTheorems], [Conformance]: the properties, with their
      witnesses; those of [Pools], [ByteString], [CrashHandler] and of standard
      input are in the files of their components.
    - [Conformance] also evaluates the model on test vectors of the repository:
      hashes, trie roots and the sender of a signed transaction.

    A pointer that may be null is an option, an array with its length a list,
    a C integer the [Z] in its range. State that the C code mutates is passed
    and returned. Out-of-bounds accesses are not given a value: the model
    reports them as the fault [OutOfBounds].

    ** What the theorems show

    - Whole executions ([EvmTheorems]): every execution ends that reaches no
      memory range between 2^63 and 2^64, where a loop of the code runs for ever;
      it can only fault in three situations that are decided on the frame about
      to execute; the last instruction of the root frame fixes the gas, refund,
      logs and output that are reported; static executions change nothing; every reachable machine satisfies the
      invariant; single instructions make progress.
    - Instructions ([OpsTheorems]): arithmetic instructions compute their
      reference functions; SSTORE, SLOAD, copies, memory, jumps and the CALL
      family have their exact effects, and so has the end of a child frame in
      its parent.
    - Lower layers ([OpsTheorems]): division, modular arithmetic and powers
      are exact; memory, stack and arena stay in bounds; the clamped refund
      counter is exact.
    - Encodings ([CodecTheorems]): RLP strings, integers and lists
      are canonical and round-trip; so do accounts and transactions; decoding
      ends except on truncated blob transactions.
    - Blocks ([ExecTheorems]): validation accepts exactly the transactions
      that meet its conditions; a block run whose messages reach no such range
      ends, keeps the state well formed and accounts for all gas.
    - Tries ([TrieTheorems]): a trie is a finite map for every sequence of
      operations, and its root hash is a function of that map.
    - World state ([WorldTheorems]): for every sequence of permitted calls it
      returns what the documentation of the interface says; its first state root
      depends on the accounts and slots only; block runs on it keep it well formed; the export
      lists exactly what is there.
    - Files ([T8nTheorems]): hexadecimal text, states and transactions of all
      formats are read back as they were written.
    - The command ([CommandTheorems]): the import builds exactly the listed accounts; a state carries
      over from one run to the next; the command ends with an exit code, or with
      a fault for which a message of its block is to blame.
    - The program ([CliTheorems], [Cli], [CrashHandler]): every run comes to
      an end unless a message of its block does not; every way out of the command releases what it acquired, once;
      standard input is read exactly; a crash is reported frame by frame and
      the signal raised again.
    - Memory ([ArenaTheorems], [ByteString], [Pools]): buffers of an arena are
      independent, inside its blocks and all freed at the end; byte strings
      behave as lists; reused slots of the pools behave as frames by value, with
      the assertions of a debug build and without.
    - Hashing ([Conformance]): the incremental hasher behaves as a byte buffer,
      and the constants of the code are the hashes they are said to be.
    - Some theorems prove what the code does where that differs from what it
      means to do (memory expansion near 2^64, DUP on a full allocation, long
      call data, truncated blob transactions, overflowing gas prices, snapshots
      that restore nothing, code that cannot be replaced, blocks with more than 170 receipts, a reward that the
      state root leaves out, a reward of -1, decimal block numbers, malformed
      numbers, requests for buffers near 2^64, over-aligned large blocks, the
      arena shared with a trie that is destroyed).

    ** Fuel

    Loops whose end depends on the data take fuel, and running out of it is a
    value of its own ([OutOfFuel], [TxLoops]), never a result. The
    interpreter needs at most [frame_measure] instructions per frame (gas
    times code size: only jumps go back, and each costs 8 gas) and one round
    per instruction that starts or ends a frame; theorem C1 shows that enough
    fuel exists and that the result no longer depends on it. A loop of the code
    that never ends is the fault [Diverges], told apart from fuel that ran out;
    theorems about the end of a run exclude it by hypothesis, with [endless]. The trie
    operations take one unit per nibble of the key and the loop that forgets
    the slots of an account one per slot; neither runs out. Loops with
    a fixed bound (division digits, exponent bits, capacity doubling) carry
    that bound as a constant, with a lemma that it suffices.

    ** Not modelled

    - Keccak-f (XKCP), ECDSA recovery (libsecp256k1), the containers of STC,
      yyjson with the files it reads and writes, argparse, libbacktrace, malloc
      and the C library's streams and signals are parameters; what is assumed of
      them are hypotheses or laws of a class, met by concrete functions in the
      witnesses.
    - The laws of [HashTableLaws] hold while the tables of the STC library get
      their memory, which comes from the 64 KB blocks of the arena.
    - Collisions of Keccak are excluded by hypothesis where the world state is
      compared with maps (addresses and slots have distinct hashes); that it
      is well formed and does not fault needs no such assumption.
    - malloc may fail in [ArenaHeap], [ByteString], [Secp256k1] and [Cli];
      the files above the arena assume that it succeeds within the
      arena's own limits.
    - The wrappers of state_access.h, which only call through the table; the
      destructor of the world state, which drops its containers; progress
      messages and the texts of error codes; headers that only include others;
      the benchmarks. Nothing the theorems speak about depends on them.
    - Writes to standard error are taken to be complete; the code ignores their
      result. *)
From Stdlib Require Import ZArith Lia List Bool.
Import ListNotations.
#[local] Open Scope Z_scope.

(** * Machine words *)

Declare Scope word_scope.
Delimit Scope word_scope with word.

(** Unsigned wrap-around of C integer types: a [w]-bit unsigned integer is the
    [Z] in [0 .. 2^w - 1], and every operation reduces its exact result. *)
Definition w8 (x : Z) : Z := x mod 2 ^ 8.
Definition w16 (x : Z) : Z := x mod 2 ^ 16.
Definition w32 (x : Z) : Z := x mod 2 ^ 32.
Definition w64 (x : Z) : Z := x mod 2 ^ 64.
Definition w128 (x : Z) : Z := x mod 2 ^ 128.

Definition u8 (x : Z) : Prop := 0 <= x < 2 ^ 8.
Definition u64 (x : Z) : Prop := 0 <= x < 2 ^ 64.
Definition UINT64_MAX : Z := 2 ^ 64 - 1.

(** The C operators on [uint64_t]. *)
Definition add64 (a b : Z) : Z := w64 (a + b).
Definition sub64 (a b : Z) : Z := w64 (a - b).
Definition mul64 (a b : Z) : Z := w64 (a * b).
Definition shl64 (a s : Z) : Z := w64 (Z.shiftl a s).
Definition shr64 (a s : Z) : Z := Z.shiftr a s.
Definition not64 (a : Z) : Z := UINT64_MAX - a.

Infix "+64" := add64 (at level 50, left associativity) : word_scope.
Infix "-64" := sub64 (at level 50, left associativity) : word_scope.
Infix "*64" := mul64 (at level 40, left associativity) : word_scope.
Infix "<<64" := shl64 (at level 54, left associativity) : word_scope.
Infix ">>64" := shr64 (at level 54, left associativity) : word_scope.

(** [__builtin_addcll] and [__builtin_subcll]: result and carry/borrow out. *)
Definition addcll (a b c : Z) : Z * Z := (w64 (a + b + c), (a + b + c) / 2 ^ 64).
Definition subcll (a b c : Z) : Z * Z :=
  (w64 (a - b - c), if a - b - c <? 0 then 1 else 0).

(** [__builtin_clzll], defined for non-zero arguments. *)
Definition clz64 (a : Z) : Z := 63 - Z.log2 a.

(** ** Ranges *)

Lemma pow64_pos : 0 < 2 ^ 64.
Proof. reflexivity. Qed.

Lemma w64_range x : u64 (w64 x).
Proof. apply Z.mod_pos_bound; reflexivity. Qed.

Lemma w128_range x : 0 <= w128 x < 2 ^ 128.
Proof. apply Z.mod_pos_bound; reflexivity. Qed.

Lemma w8_range x : u8 (w8 x).
Proof. apply Z.mod_pos_bound; reflexivity. Qed.

Lemma w64_small x : u64 x -> w64 x = x.
Proof. apply Z.mod_small. Qed.

Lemma w128_small x : 0 <= x < 2 ^ 128 -> w128 x = x.
Proof. apply Z.mod_small. Qed.

Lemma w8_small x : u8 x -> w8 x = x.
Proof. apply Z.mod_small. Qed.

Lemma w64_idemp x : w64 (w64 x) = w64 x.
Proof. apply w64_small, w64_range. Qed.

Lemma w64_eq x y k : x = y + k * 2 ^ 64 -> w64 x = w64 y.
Proof. intros ->; apply Z_mod_plus_full. Qed.

Lemma w64_add_l x y : w64 (w64 x + y) = w64 (x + y).
Proof. apply Zplus_mod_idemp_l. Qed.

Lemma w64_add_r x y : w64 (x + w64 y) = w64 (x + y).
Proof. apply Zplus_mod_idemp_r. Qed.

Lemma add64_w x y : add64 (w64 x) (w64 y) = w64 (x + y).
Proof. unfold add64. rewrite w64_add_l, w64_add_r. reflexivity. Qed.

Lemma w64_exists x : exists j, w64 x = x + j * 2 ^ 64.
Proof. exists (- (x / 2 ^ 64)). unfold w64. pose proof (Z.div_mod x (2 ^ 64)). lia. Qed.

(** The exact value of a wrapped result, given the wrap count. *)
Lemma w64_shift x k : 0 <= x - k * 2 ^ 64 < 2 ^ 64 -> w64 x = x - k * 2 ^ 64.
Proof. intros H; rewrite <- (w64_small (x - k * 2 ^ 64)) by exact H; symmetry; apply (w64_eq _ _ (- k)); lia. Qed.

Lemma shr_range x s n : 0 <= s -> 0 <= x < 2 ^ (s + n) -> 0 <= n -> 0 <= Z.shiftr x s < 2 ^ n.
Proof.
  intros Hs Hx Hn; rewrite Z.shiftr_div_pow2 by lia.
  rewrite Z.pow_add_r in Hx by lia.
  assert (0 < 2 ^ s) by (apply Z.pow_pos_nonneg; lia).
  split; [apply Z.div_pos; lia | apply Z.div_lt_upper_bound; lia].
Qed.

Lemma shr_u64 x s : 0 <= s -> u64 x -> u64 (Z.shiftr x s).
Proof.
  intros Hs [H1 H2]; rewrite Z.shiftr_div_pow2 by lia.
  assert (0 < 2 ^ s) by (apply Z.pow_pos_nonneg; lia).
  split; [apply Z.div_pos; lia |].
  apply Z.le_lt_trans with x; [|lia]. apply Z.div_le_upper_bound; nia.
Qed.

(** Below a power of two, all high bits are clear. *)
Lemma testbit_high x n i : 0 <= x < 2 ^ n -> n <= i -> Z.testbit x i = false.
Proof.
  intros [H1 H2] Hi. destruct (Z.lt_ge_cases n 0) as [Hn|Hn].
  - rewrite Z.pow_neg_r in H2 by lia; lia.
  - rewrite <- (Z.mod_small x (2 ^ n)) by lia. apply Z.mod_pow2_bits_high; lia.
Qed.

(** A bitwise [or] of non-overlapping parts is a sum. *)
Lemma lor_add a b k : 0 <= k -> 0 <= b < 2 ^ k -> Z.lor (a * 2 ^ k) b = a * 2 ^ k + b.
Proof.
  intros Hk Hb. rewrite <- (Z.add_lor_land (a * 2 ^ k) b).
  enough (Z.land (a * 2 ^ k) b = 0) by lia.
  apply Z.bits_inj'; intros i Hi. rewrite Z.land_spec, Z.bits_0.
  destruct (Z.lt_ge_cases i k).
  - rewrite Z.mul_pow2_bits_low by lia; reflexivity.
  - rewrite (testbit_high b k i) by lia; apply andb_false_r.
Qed.

(** [x << s] and [x >> (64 - s)] are the low and high words of [x * 2^s]. *)
Lemma shl_lo_hi x s : 0 <= s <= 64 ->
  Z.shiftl x s = w64 (Z.shiftl x s) + 2 ^ 64 * Z.shiftr x (64 - s).
Proof.
  intros Hs. rewrite Z.shiftl_mul_pow2, Z.shiftr_div_pow2 by lia. unfold w64.
  replace (2 ^ 64) with (2 ^ (64 - s) * 2 ^ s) by (rewrite <- Z.pow_add_r by lia; f_equal; lia).
  assert (0 < 2 ^ s) by (apply Z.pow_pos_nonneg; lia).
  assert (0 < 2 ^ (64 - s)) by (apply Z.pow_pos_nonneg; lia).
  rewrite Z.mul_mod_distr_r by lia.
  pose proof (Z.div_mod x (2 ^ (64 - s))). nia.
Qed.

(** The low word [w64 (x << s)] is a multiple of [2^s], so a value below
    [2^s] can be or-ed in. *)
Lemma shl64_lor x s c : 0 <= s <= 64 -> 0 <= c < 2 ^ s ->
  Z.lor (shl64 x s) c = shl64 x s + c.
Proof.
  intros Hs Hc. unfold shl64, w64. rewrite Z.shiftl_mul_pow2 by lia.
  replace (2 ^ 64) with (2 ^ (64 - s) * 2 ^ s) by (rewrite <- Z.pow_add_r by lia; f_equal; lia).
  assert (0 < 2 ^ s) by (apply Z.pow_pos_nonneg; lia).
  assert (0 < 2 ^ (64 - s)) by (apply Z.pow_pos_nonneg; lia).
  rewrite Z.mul_mod_distr_r by lia. apply lor_add; lia.
Qed.

(** A right shift followed by bits of the next limb, as in [(a >> s) | (b << (64 - s))]. *)
Lemma shr64_lor a b s : 0 < s < 64 -> u64 a ->
  Z.lor (shr64 a s) (shl64 b (64 - s)) = (a + 2 ^ 64 * b) / 2 ^ s mod 2 ^ 64.
Proof.
  intros Hs Ha. unfold shr64. rewrite Z.lor_comm, shl64_lor;
    [| lia | apply shr_range; [lia | replace (s + (64 - s)) with 64 by lia; exact Ha | lia]].
  assert (0 < 2 ^ s) by (apply Z.pow_pos_nonneg; lia).
  unfold shl64, w64. rewrite Z.shiftl_mul_pow2, Z.shiftr_div_pow2 by lia.
  assert (0 < 2 ^ (64 - s)) by (apply Z.pow_pos_nonneg; lia).
  assert (E : 2 ^ 64 = 2 ^ (64 - s) * 2 ^ s) by (rewrite <- Z.pow_add_r by lia; f_equal; lia).
  assert (Ha2 : 0 <= a / 2 ^ s < 2 ^ (64 - s)).
  { split; [apply Z.div_pos; [apply Ha | lia] | apply Z.div_lt_upper_bound; [lia|]].
    destruct Ha; rewrite E in *; lia. }
  generalize dependent (2 ^ s); intros S HS E Ha2.
  generalize dependent (2 ^ (64 - s)); intros P HP E Ha2. rewrite E.
  replace (a + P * S * b) with (a + (b * P) * S) by ring.
  rewrite Z.div_add, !Z.rem_mul_r, Z_mod_mult, Z.div_mul, Z_mod_plus_full, Z.div_add by lia.
  rewrite (Z.mod_small (a / _)), (Z.div_small (a / S)), !Z.add_0_l by lia. ring.
Qed.

(** [clz64] normalises: shifting by it sets the top bit and loses nothing. *)
Lemma clz64_spec d : 0 < d < 2 ^ 64 ->
  0 <= clz64 d < 64 /\ 2 ^ 63 <= d * 2 ^ clz64 d < 2 ^ 64.
Proof.
  intros Hd. unfold clz64. pose proof (Z.log2_spec d ltac:(lia)) as [H1 H2].
  assert (0 <= Z.log2 d) by apply Z.log2_nonneg.
  assert (Z.log2 d < 64) by (apply Z.log2_lt_pow2; lia).
  assert (0 < 2 ^ (63 - Z.log2 d)) by (apply Z.pow_pos_nonneg; lia).
  replace (2 ^ 63) with (2 ^ Z.log2 d * 2 ^ (63 - Z.log2 d))
    by (rewrite <- Z.pow_add_r by lia; f_equal; lia).
  replace (2 ^ 64) with (2 ^ Z.succ (Z.log2 d) * 2 ^ (63 - Z.log2 d))
    by (rewrite <- Z.pow_add_r by lia; f_equal; lia).
  split; [lia|]. split; nia.
Qed.

(** * Arrays

    A C array of unsigned integers as a list; reads and writes by index. The
    sources index only inside the declared sizes, which the proofs establish
    where they need it. *)

Definition aget (a : list Z) (i : nat) : Z := nth i a 0.

Fixpoint aset (a : list Z) (i : nat) (x : Z) : list Z :=
  match a, i with
  | [], _ => []
  | _ :: t, O => x :: t
  | h :: t, S i' => h :: aset t i' x
  end.

Lemma length_aset a i x : length (aset a i x) = length a.
Proof. revert i; induction a as [|h t IH]; intros [|i]; simpl; congruence. Qed.

Lemma aget_aset_eq a i x : (i < length a)%nat -> aget (aset a i x) i = x.
Proof.
  unfold aget; revert i; induction a as [|h t IH]; intros [|i]; simpl; intros; try lia.
  apply IH; lia.
Qed.

Lemma aget_aset_ne a i j x : i <> j -> aget (aset a i x) j = aget a j.
Proof.
  unfold aget; revert i j; induction a as [|h t IH]; intros [|i] [|j]; simpl; intros;
    try congruence; try reflexivity. apply IH; lia.
Qed.

Definition u64s (a : list Z) : Prop := forall i, u64 (aget a i).

Lemma u64s_aset a i x : u64s a -> u64 x -> u64s (aset a i x).
Proof.
  intros Ha Hx j. destruct (Nat.eq_dec i j) as [->|N].
  - destruct (Nat.lt_ge_cases j (length a)).
    + rewrite aget_aset_eq; auto.
    + unfold aget; rewrite nth_overflow by (rewrite length_aset; lia); split; reflexivity || lia.
  - rewrite aget_aset_ne; auto.
Qed.

Lemma u64s_Forall a : Forall u64 a -> u64s a.
Proof.
  intros H i. unfold aget. destruct (nth_in_or_default i a 0) as [Hin | ->].
  - rewrite Forall_forall in H; auto.
  - split; reflexivity || lia.
Qed.

(** ** Multi-limb values: [seg B u j k] is the value of the [k] limbs of [u]
    from index [j], least significant first, in base [B]. *)
Fixpoint seg (B : Z) (u : list Z) (j k : nat) : Z :=
  match k with
  | O => 0
  | S k' => aget u j + B * seg B u (S j) k'
  end.

Lemma seg_ext B u u' j k :
  (forall i, (j <= i < j + k)%nat -> aget u i = aget u' i) -> seg B u j k = seg B u' j k.
Proof.
  revert j; induction k as [|k IH]; intros j H; simpl; [reflexivity|].
  rewrite (H j) by lia. f_equal; f_equal. apply IH; intros; apply H; lia.
Qed.

Lemma seg_split B u j a b : seg B u j (a + b) = seg B u j a + B ^ Z.of_nat a * seg B u (j + a) b.
Proof.
  revert j; induction a as [|a IH]; intros j.
  - rewrite Nat.add_0_r; simpl Nat.add; cbn [seg]; rewrite Z.mul_1_l; reflexivity.
  - cbn [Nat.add seg]. rewrite IH, Nat2Z.inj_succ, Z.pow_succ_r by lia.
    replace (S j + a)%nat with (j + S a)%nat by lia. ring.
Qed.

Lemma seg_last B u j k : seg B u j (S k) = seg B u j k + B ^ Z.of_nat k * aget u (j + k).
Proof. replace (S k) with (k + 1)%nat by lia. rewrite seg_split; simpl seg; ring. Qed.

Lemma seg_range B u j k : 0 < B -> (forall i, 0 <= aget u i < B) ->
  0 <= seg B u j k < B ^ Z.of_nat k.
Proof.
  intros HB Hu. revert j; induction k as [|k IH]; intros j.
  - simpl; lia.
  - rewrite Nat2Z.inj_succ, Z.pow_succ_r by lia. cbn [seg].
    specialize (IH (S j)); specialize (Hu j). nia.
Qed.

Lemma seg_aset_out B u i x j k : (i < j \/ j + k <= i)%nat -> seg B (aset u i x) j k = seg B u j k.
Proof. intros H; apply seg_ext; intros; apply aget_aset_ne; lia. Qed.

(** * Loops

    [for_ lo n body s] runs [body] on the indices [lo, lo+1, ..., lo+n-1];
    [for_down n body s] on [n-1, ..., 0]. *)
Definition for_ {S : Type} (lo n : nat) (body : nat -> S -> S) (s : S) : S :=
  fold_left (fun s i => body i s) (seq lo n) s.

Definition for_down {S : Type} (n : nat) (body : nat -> S -> S) (s : S) : S :=
  fold_right body s (seq 0 n).

Lemma for_S {S : Type} lo n (body : nat -> S -> S) s :
  for_ lo (Datatypes.S n) body s = for_ (Datatypes.S lo) n body (body lo s).
Proof. reflexivity. Qed.

Lemma for_0 {S : Type} lo (body : nat -> S -> S) s : for_ lo 0 body s = s.
Proof. reflexivity. Qed.

(** Invariant rule for a counted loop. *)
Lemma for_inv {S : Type} (I : nat -> S -> Prop) lo n body (s : S) :
  I lo s -> (forall i s, (lo <= i < lo + n)%nat -> I i s -> I (Datatypes.S i) (body i s)) ->
  I (lo + n)%nat (for_ lo n body s).
Proof.
  revert lo s; induction n as [|n IH]; intros lo s H0 HS.
  - rewrite Nat.add_0_r; exact H0.
  - rewrite for_S. replace (lo + Datatypes.S n)%nat with (Datatypes.S lo + n)%nat by lia.
    apply IH; [apply HS; [lia|exact H0] | intros; apply HS; [lia|assumption]].
Qed.

(** Invariant rule for the downward loop. *)
Lemma for_down_inv {S : Type} (I : nat -> S -> Prop) n body (s : S) :
  I n s -> (forall i s, (i < n)%nat -> I (Datatypes.S i) s -> I i (body i s)) ->
  I 0%nat (for_down n body s).
Proof.
  unfold for_down. revert s; induction n as [|n IH]; intros s H0 HS; [exact H0|].
  rewrite seq_S, fold_right_app. cbn [fold_right Nat.add]. apply IH; [apply HS; [lia|exact H0]|].
  intros; apply HS; [lia|assumption].
Qed.

(** * Bytes *)

Definition bytes_ok (bs : list Z) : Prop := Forall u8 bs.

Lemma Forall_firstn {A} (P : A -> Prop) n l : Forall P l -> Forall P (firstn n l).
Proof. intros H; revert n; induction H; intros [|n]; simpl; auto. Qed.

Lemma Forall_skipn {A} (P : A -> Prop) n l : Forall P l -> Forall P (skipn n l).
Proof. intros H; revert n; induction H; intros [|n]; simpl; auto. Qed.

Lemma Forall_aset (P : Z -> Prop) a i x : Forall P a -> P x -> Forall P (aset a i x).
Proof. intros H Hx; revert i; induction H; intros [|i]; simpl; auto. Qed.

(** Big-endian value of a byte string. *)
Definition be_val (bs : list Z) : Z := fold_left (fun acc b => acc * 2 ^ 8 + b) bs 0.

Lemma be_fold bs acc :
  fold_left (fun acc b => acc * 2 ^ 8 + b) bs acc = acc * 2 ^ (8 * Z.of_nat (length bs)) + be_val bs.
Proof.
  unfold be_val. revert acc; induction bs as [|b bs IH]; intros acc.
  - simpl; lia.
  - cbn [fold_left length]. rewrite (IH (acc * 2 ^ 8 + b)), (IH (0 * 2 ^ 8 + b)).
    rewrite Nat2Z.inj_succ, Z.mul_succ_r, Z.pow_add_r by lia. ring.
Qed.

Lemma be_val_app a b : be_val (a ++ b) = be_val a * 2 ^ (8 * Z.of_nat (length b)) + be_val b.
Proof. unfold be_val at 1. rewrite fold_left_app. apply be_fold. Qed.

Lemma be_val_cons x b : be_val (x :: b) = x * 2 ^ (8 * Z.of_nat (length b)) + be_val b.
Proof. change (x :: b) with ([x] ++ b). rewrite be_val_app. reflexivity. Qed.

Lemma be_val_range bs : bytes_ok bs -> 0 <= be_val bs < 2 ^ (8 * Z.of_nat (length bs)).
Proof.
  unfold bytes_ok; induction 1 as [|b bs Hb _ IH]; [unfold be_val; simpl; lia|].
  rewrite be_val_cons. cbn [length]. rewrite Nat2Z.inj_succ, Z.mul_succ_r, Z.pow_add_r by lia.
  unfold u8 in Hb. nia.
Qed.

Lemma be_val_zeros n : be_val (repeat 0 n) = 0.
Proof. induction n; [reflexivity|]. cbn [repeat]. rewrite be_val_cons, IHn; lia. Qed.

(** Big-endian encoding of [v] on [n] bytes. *)
Fixpoint be_bytes (n : nat) (v : Z) : list Z :=
  match n with
  | O => []
  | S n' => be_bytes n' (v / 2 ^ 8) ++ [v mod 2 ^ 8]
  end.

Lemma length_be_bytes n v : length (be_bytes n v) = n.
Proof. revert v; induction n; intros; simpl; [reflexivity|]. rewrite length_app, IHn; simpl; lia. Qed.

Lemma be_bytes_ok n v : bytes_ok (be_bytes n v).
Proof.
  revert v; induction n; intros; simpl; [constructor|].
  apply Forall_app; split; [apply IHn|]. repeat constructor; apply Z.mod_pos_bound; reflexivity.
Qed.

Lemma be_val_be_bytes n v : be_val (be_bytes n v) = v mod 2 ^ (8 * Z.of_nat n).
Proof.
  revert v; induction n as [|n IH]; intros v; [simpl; rewrite Z.mod_1_r; reflexivity|].
  cbn [be_bytes]. rewrite be_val_app, IH. cbn [length]. change (be_val [_]) with (0 * 2 ^ 8 + v mod 2 ^ 8).
  replace (8 * Z.of_nat (S n)) with (8 + 8 * Z.of_nat n) by lia.
  rewrite Z.pow_add_r by lia. rewrite Z.rem_mul_r by lia.
  change (8 * Z.of_nat 1) with 8. ring.
Qed.

(** A byte string is determined by its length and value. *)
Lemma be_val_inj a b : bytes_ok a -> bytes_ok b -> length a = length b -> be_val a = be_val b -> a = b.
Proof.
  intros Ha; revert b; induction Ha as [|x a Hx Ha IH]; intros [|y b] Hb Hl Hv; try discriminate Hl.
  - reflexivity.
  - inversion Hb as [|? ? Hy Hb']; subst. injection Hl as Hl.
    rewrite !be_val_cons, <- Hl in Hv.
    pose proof (be_val_range a Ha). pose proof (be_val_range b Hb'). rewrite <- Hl in *.
    unfold u8 in *. assert (x = y) by nia. subst. f_equal. apply IH; auto; lia.
Qed.

Lemma be_bytes_be_val bs : bytes_ok bs -> be_bytes (length bs) (be_val bs) = bs.
Proof.
  intros H. apply be_val_inj; auto using be_bytes_ok, length_be_bytes.
  rewrite be_val_be_bytes. apply Z.mod_small, be_val_range, H.
Qed.

(** Bits of a two-part value. *)
Lemma testbit_cat lo hi k i : 0 <= k -> 0 <= lo < 2 ^ k -> 0 <= i ->
  Z.testbit (lo + 2 ^ k * hi) i = if i <? k then Z.testbit lo i else Z.testbit hi (i - k).
Proof.
  intros Hk Hlo Hi. rewrite Z.add_comm, Z.mul_comm, <- lor_add, Z.lor_spec by lia.
  destruct (Z.ltb_spec i k).
  - rewrite Z.mul_pow2_bits_low by lia; reflexivity.
  - rewrite (testbit_high lo k i) by lia. rewrite orb_false_r.
    rewrite <- Z.shiftl_mul_pow2 by lia. apply Z.shiftl_spec; lia.
Qed.

Lemma testbit_bound x n : 0 <= n -> 0 <= x -> (forall i, n <= i -> Z.testbit x i = false) -> x < 2 ^ n.
Proof.
  intros Hn Hx H. enough (x = x mod 2 ^ n) as -> by (apply Z.mod_pos_bound, Z.pow_pos_nonneg; lia).
  apply Z.bits_inj'; intros i Hi. destruct (Z.lt_ge_cases i n).
  - rewrite Z.mod_pow2_bits_low by lia; reflexivity.
  - rewrite Z.mod_pow2_bits_high, H by lia; reflexivity.
Qed.

Lemma u64_land a b : u64 a -> u64 b -> u64 (Z.land a b).
Proof.
  intros Ha Hb. assert (0 <= Z.land a b) by (apply Z.land_nonneg; left; apply Ha).
  split; [assumption|]. apply testbit_bound; [lia | assumption|]; intros i Hi.
  rewrite Z.land_spec, (testbit_high a 64) by (apply Ha || assumption). reflexivity.
Qed.

Lemma u64_lor a b : u64 a -> u64 b -> u64 (Z.lor a b).
Proof.
  intros Ha Hb. assert (0 <= Z.lor a b) by (apply Z.lor_nonneg; split; [apply Ha | apply Hb]).
  split; [assumption|]. apply testbit_bound; [lia | assumption|]; intros i Hi.
  rewrite Z.lor_spec, (testbit_high a 64), (testbit_high b 64) by (apply Ha || apply Hb || assumption). reflexivity.
Qed.

Lemma u64_lxor a b : u64 a -> u64 b -> u64 (Z.lxor a b).
Proof.
  intros Ha Hb. assert (0 <= Z.lxor a b) by (apply Z.lxor_nonneg; split; intros; [apply Hb | apply Ha]).
  split; [assumption|]. apply testbit_bound; [lia | assumption|]; intros i Hi.
  rewrite Z.lxor_spec, (testbit_high a 64), (testbit_high b 64) by (apply Ha || apply Hb || assumption). reflexivity.
Qed.

Lemma land_255 x : Z.land x 255 = x mod 2 ^ 8.
Proof. change 255 with (Z.ones 8). apply Z.land_ones; lia. Qed.

Lemma be_bytes_app n m v : be_bytes (n + m) v = be_bytes n (v / 2 ^ (8 * Z.of_nat m)) ++ be_bytes m v.
Proof.
  revert v; induction m as [|m IH]; intros v.
  - rewrite Nat.add_0_r, app_nil_r. simpl. rewrite Z.div_1_r. reflexivity.
  - rewrite Nat.add_succ_r. cbn [be_bytes]. rewrite IH, Z.div_div, app_assoc
      by (try apply Z.pow_pos_nonneg; lia).
    rewrite <- Z.pow_add_r by lia. replace (8 + 8 * Z.of_nat m) with (8 * Z.of_nat (S m)) by lia.
    reflexivity.
Qed.

Lemma be_bytes_mod n v : be_bytes n (v mod 2 ^ (8 * Z.of_nat n)) = be_bytes n v.
Proof.
  apply be_val_inj; auto using be_bytes_ok.
  - rewrite !length_be_bytes; reflexivity.
  - rewrite !be_val_be_bytes. apply Z.mod_mod. apply Z.pow_nonzero; lia.
Qed.

Create HintDb words.
#[export] Hint Resolve w64_range w128_range w8_range shr_u64 u64s_aset u64s_Forall be_bytes_ok u64_land u64_lor u64_lxor : words.
Create Rewrite HintDb words.
#[export] Hint Rewrite length_aset length_be_bytes : words.
