(* ===== verification/Uint256.v ===== *)
(** 256-bit unsigned integers: [uint256_t] of include/div0/types/uint256.h and
    the byte conversions and shifts of src/types/uint256.c. Each operation is
    translated limb by limb, and specified by its effect on the represented
    integer [val]. *)
From Stdlib Require Import ZArith Lia List Bool.
From S2P Require Import Prelude.
Import ListNotations.
#[local] Open Scope Z_scope.

(** ** The type *)

Record uint256_t := U256 { limb0 : Z; limb1 : Z; limb2 : Z; limb3 : Z }.

(** The array view of [limbs], for code that indexes it. *)
Definition limbs (a : uint256_t) : list Z := [limb0 a; limb1 a; limb2 a; limb3 a].

Definition of_limbs (l : list Z) : uint256_t := U256 (aget l 0) (aget l 1) (aget l 2) (aget l 3).

Definition wf256 (a : uint256_t) : Prop :=
  u64 (limb0 a) /\ u64 (limb1 a) /\ u64 (limb2 a) /\ u64 (limb3 a).

(** The represented integer. *)
Definition val (a : uint256_t) : Z :=
  limb0 a + 2 ^ 64 * (limb1 a + 2 ^ 64 * (limb2 a + 2 ^ 64 * limb3 a)).

(** The limbs of an integer, and its two's complement reading. *)
Definition of_Z256 (z : Z) : uint256_t :=
  U256 (z mod 2 ^ 64) (z / 2 ^ 64 mod 2 ^ 64) (z / 2 ^ 128 mod 2 ^ 64) (z / 2 ^ 192 mod 2 ^ 64).

Definition sval (a : uint256_t) : Z := if val a <? 2 ^ 255 then val a else val a - 2 ^ 256.

(** ** Operations of uint256.h *)

Definition uint256_zero : uint256_t := U256 0 0 0 0.
Definition uint256_from_u64 (value : Z) : uint256_t := U256 value 0 0 0.
Definition uint256_from_limbs (a b c d : Z) : uint256_t := U256 a b c d.

Definition uint256_is_zero (a : uint256_t) : bool :=
  Z.lor (Z.lor (Z.lor (limb0 a) (limb1 a)) (limb2 a)) (limb3 a) =? 0.

Definition uint256_fits_u64 (a : uint256_t) : bool :=
  Z.lor (Z.lor (limb1 a) (limb2 a)) (limb3 a) =? 0.

Definition uint256_to_u64_unsafe (a : uint256_t) : Z := limb0 a.

Definition uint256_eq (a b : uint256_t) : bool :=
  let diff := Z.lor (Z.lor (Z.lor (Z.lxor (limb0 a) (limb0 b)) (Z.lxor (limb1 a) (limb1 b)))
                           (Z.lxor (limb2 a) (limb2 b))) (Z.lxor (limb3 a) (limb3 b)) in
  diff =? 0.

(** The four chained [__builtin_addcll] with the carry out, as both
    [uint256_add] and [uint256_addmod] use them. *)
Definition add_carry (a b : uint256_t) : uint256_t * Z :=
  let '(r0, carry) := addcll (limb0 a) (limb0 b) 0 in
  let '(r1, carry) := addcll (limb1 a) (limb1 b) carry in
  let '(r2, carry) := addcll (limb2 a) (limb2 b) carry in
  let '(r3, carry) := addcll (limb3 a) (limb3 b) carry in
  (U256 r0 r1 r2 r3, carry).

Definition uint256_add (a b : uint256_t) : uint256_t := fst (add_carry a b).

Definition uint256_sub (a b : uint256_t) : uint256_t :=
  let '(r0, borrow) := subcll (limb0 a) (limb0 b) 0 in
  let '(r1, borrow) := subcll (limb1 a) (limb1 b) borrow in
  let '(r2, borrow) := subcll (limb2 a) (limb2 b) borrow in
  let '(r3, borrow) := subcll (limb3 a) (limb3 b) borrow in
  U256 r0 r1 r2 r3.

Definition uint256_lt (a b : uint256_t) : bool :=
  if negb (limb3 a =? limb3 b) then limb3 a <? limb3 b
  else if negb (limb2 a =? limb2 b) then limb2 a <? limb2 b
  else if negb (limb1 a =? limb1 b) then limb1 a <? limb1 b
  else limb0 a <? limb0 b.

Definition uint256_gt (a b : uint256_t) : bool := uint256_lt b a.

Definition uint256_is_negative (a : uint256_t) : bool := negb (shr64 (limb3 a) 63 =? 0).

Definition uint256_and (a b : uint256_t) : uint256_t :=
  U256 (Z.land (limb0 a) (limb0 b)) (Z.land (limb1 a) (limb1 b))
       (Z.land (limb2 a) (limb2 b)) (Z.land (limb3 a) (limb3 b)).

Definition uint256_or (a b : uint256_t) : uint256_t :=
  U256 (Z.lor (limb0 a) (limb0 b)) (Z.lor (limb1 a) (limb1 b))
       (Z.lor (limb2 a) (limb2 b)) (Z.lor (limb3 a) (limb3 b)).

Definition uint256_xor (a b : uint256_t) : uint256_t :=
  U256 (Z.lxor (limb0 a) (limb0 b)) (Z.lxor (limb1 a) (limb1 b))
       (Z.lxor (limb2 a) (limb2 b)) (Z.lxor (limb3 a) (limb3 b)).

Definition uint256_not (a : uint256_t) : uint256_t :=
  U256 (not64 (limb0 a)) (not64 (limb1 a)) (not64 (limb2 a)) (not64 (limb3 a)).

Definition uint256_byte (index value : uint256_t) : uint256_t :=
  if negb (uint256_fits_u64 index) || (32 <=? limb0 index) then uint256_zero
  else
    let idx := limb0 index in
    let le_byte_idx := 31 - idx in
    let limb_idx := le_byte_idx / 8 in
    let byte_in_limb := le_byte_idx mod 8 in
    let byte_val :=
      w8 (Z.land (shr64 (aget (limbs value) (Z.to_nat limb_idx)) (byte_in_limb * 8)) 255) in
    uint256_from_u64 byte_val.

Definition uint256_slt (a b : uint256_t) : bool :=
  let a_neg := uint256_is_negative a in
  let b_neg := uint256_is_negative b in
  if negb (Bool.eqb a_neg b_neg) then a_neg else uint256_lt a b.

Definition uint256_sgt (a b : uint256_t) : bool := uint256_slt b a.

(** ** Byte conversions of uint256.c *)

Definition UINT256_BYTES : nat := 32.

(** One limb from eight big-endian bytes. *)
Definition limb_of_bytes (p : list Z) : Z :=
  fold_left (fun limb b => Z.lor (shl64 limb 8) b) p 0.

(** [data] with its length; the null pointer is the empty string. *)
Definition uint256_from_bytes_be (data : list Z) : uint256_t :=
  if (length data =? 0)%nat then uint256_zero
  else
    let data :=
      if (UINT256_BYTES <? length data)%nat then skipn (length data - UINT256_BYTES) data
      else data in
    let padded := repeat 0 (UINT256_BYTES - length data) ++ data in
    let limb i := limb_of_bytes (firstn 8 (skipn ((3 - i) * 8) padded)) in
    U256 (limb 0%nat) (limb 1%nat) (limb 2%nat) (limb 3%nat).

(** The inner loop of [uint256_to_bytes_be]: [p[j]] for [j = 7 .. 0]. *)
Fixpoint limb_to_bytes (n : nat) (limb : Z) (p : list Z) : list Z :=
  match n with
  | O => p
  | S n' => limb_to_bytes n' (shr64 limb 8) (w8 (Z.land limb 255) :: p)
  end.

Definition uint256_to_bytes_be (value : uint256_t) : list Z :=
  limb_to_bytes 8 (limb3 value) [] ++ limb_to_bytes 8 (limb2 value) []
  ++ limb_to_bytes 8 (limb1 value) [] ++ limb_to_bytes 8 (limb0 value) [].

(** ** Shifts of uint256.c *)

Definition uint256_shl (shift value : uint256_t) : uint256_t :=
  if negb (uint256_fits_u64 shift) || (256 <=? limb0 shift) then uint256_zero
  else if limb0 shift =? 0 then value
  else
    let s := limb0 shift in
    let limb_shift := Z.to_nat (s / 64) in
    let bit_shift := s mod 64 in
    let inv_bit_shift := 64 - bit_shift in
    let v := limbs value in
    let result := limbs uint256_zero in
    of_limbs
      (if bit_shift =? 0 then
         for_ limb_shift (4 - limb_shift)
           (fun i r => aset r i (aget v (i - limb_shift))) result
       else
         for_ limb_shift (4 - limb_shift)
           (fun i r =>
              let src_idx := (i - limb_shift)%nat in
              let r := aset r i (shl64 (aget v src_idx) bit_shift) in
              if (0 <? src_idx)%nat
              then aset r i (Z.lor (aget r i) (shr64 (aget v (src_idx - 1)) inv_bit_shift))
              else r) result).

Definition uint256_shr (shift value : uint256_t) : uint256_t :=
  if negb (uint256_fits_u64 shift) || (256 <=? limb0 shift) then uint256_zero
  else if limb0 shift =? 0 then value
  else
    let s := limb0 shift in
    let limb_shift := Z.to_nat (s / 64) in
    let bit_shift := s mod 64 in
    let inv_bit_shift := 64 - bit_shift in
    let v := limbs value in
    let result := limbs uint256_zero in
    of_limbs
      (if bit_shift =? 0 then
         for_ 0 (4 - limb_shift) (fun i r => aset r i (aget v (i + limb_shift))) result
       else
         for_ 0 (4 - limb_shift)
           (fun i r =>
              let src_idx := (i + limb_shift)%nat in
              let r := aset r i (shr64 (aget v src_idx) bit_shift) in
              if (src_idx + 1 <? 4)%nat
              then aset r i (Z.lor (aget r i) (shl64 (aget v (src_idx + 1)) inv_bit_shift))
              else r) result).

(** The sign fill of [uint256_sar]: bits [256-s .. 255] of [result] become 1. *)
Definition sar_fill (s : Z) (result : uint256_t) : uint256_t :=
  let first_clear_bit := 255 - s + 1 in
  let first_limb := Z.to_nat (first_clear_bit / 64) in
  let bit_in_limb := first_clear_bit mod 64 in
  let r := limbs result in
  let r :=
    if 0 <? bit_in_limb then
      let mask := not64 (sub64 (shl64 1 bit_in_limb) 1) in
      aset r first_limb (Z.lor (aget r first_limb) mask)
    else r in
  let lo := (first_limb + (if (0 <? bit_in_limb)%Z then 1 else 0))%nat in
  of_limbs (for_ lo (4 - lo) (fun i r => aset r i UINT64_MAX) r).

Definition uint256_sar (shift value : uint256_t) : uint256_t :=
  let is_negative := uint256_is_negative value in
  if negb (uint256_fits_u64 shift) || (256 <=? limb0 shift) then
    if is_negative then uint256_from_limbs UINT64_MAX UINT64_MAX UINT64_MAX UINT64_MAX
    else uint256_zero
  else if limb0 shift =? 0 then value
  else
    let result := uint256_shr shift value in
    if is_negative then
      let s := limb0 shift in
      if (0 <? s) && (s <? 256) then sar_fill s result else result
    else result.

(** * The represented integer *)

Lemma val_range a : wf256 a -> 0 <= val a < 2 ^ 256.
Proof. unfold wf256, u64, val. lia. Qed.

Lemma val_inj a b : wf256 a -> wf256 b -> val a = val b -> a = b.
Proof.
  destruct a, b; unfold wf256, u64, val; cbn [limb0 limb1 limb2 limb3]; intros. f_equal; lia.
Qed.

Lemma wf_of_Z256 z : wf256 (of_Z256 z).
Proof. repeat split; try apply Z.mod_pos_bound; reflexivity. Qed.

Lemma val_of_Z256 z : val (of_Z256 z) = z mod 2 ^ 256.
Proof.
  unfold val, of_Z256; cbn [limb0 limb1 limb2 limb3].
  change (2 ^ 128) with (2 ^ 64 * 2 ^ 64). change (2 ^ 192) with (2 ^ 64 * (2 ^ 64 * 2 ^ 64)).
  change (2 ^ 256) with (2 ^ 64 * (2 ^ 64 * (2 ^ 64 * 2 ^ 64))).
  rewrite <- !Z.div_div by lia.
  rewrite !Z.rem_mul_r by lia. reflexivity.
Qed.

(** Two's complement reading of the value: the representative in [-2^255, 2^255). *)
Lemma of_Z256_mod z : of_Z256 (z mod 2 ^ 256) = of_Z256 z.
Proof.
  apply val_inj; auto using wf_of_Z256. rewrite !val_of_Z256. apply Z.mod_mod. discriminate.
Qed.

Lemma of_Z256_val a : wf256 a -> of_Z256 (val a) = a.
Proof.
  intros H. apply val_inj; auto using wf_of_Z256.
  rewrite val_of_Z256. apply Z.mod_small, val_range, H.
Qed.

Lemma eq_of_Z256 a z : wf256 a -> val a = z mod 2 ^ 256 -> a = of_Z256 z.
Proof. intros H E. apply val_inj; auto using wf_of_Z256. rewrite val_of_Z256. exact E. Qed.

Lemma sval_of_Z256 z : - 2 ^ 255 <= z < 2 ^ 255 -> sval (of_Z256 z) = z.
Proof.
  intros H. unfold sval. rewrite val_of_Z256.
  destruct (Z.lt_ge_cases z 0).
  - rewrite <- (Z_mod_plus_full z 1), Z.mod_small by lia.
    destruct (Z.ltb_spec (z + 1 * 2 ^ 256) (2 ^ 255)); lia.
  - rewrite Z.mod_small by lia. destruct (Z.ltb_spec z (2 ^ 255)); lia.
Qed.

Lemma sval_range a : wf256 a -> - 2 ^ 255 <= sval a < 2 ^ 255.
Proof. intros H%val_range. unfold sval. destruct (Z.ltb_spec (val a) (2 ^ 255)); lia. Qed.

Lemma of_Z256_sval a : wf256 a -> of_Z256 (sval a) = a.
Proof.
  intros H. rewrite <- (of_Z256_val a) at 2 by exact H. unfold sval.
  destruct (_ <? _); [reflexivity|]. rewrite <- of_Z256_mod, <- (of_Z256_mod (val a)).
  f_equal. symmetry. rewrite <- (Z_mod_plus_full (val a - 2 ^ 256) 1). f_equal. lia.
Qed.

(** Limb-wise reading of the array view. *)
Lemma val_seg a : val a = seg (2 ^ 64) (limbs a) 0 4.
Proof. unfold val, limbs; cbn [seg aget nth]; ring. Qed.

Lemma val_of_limbs l : val (of_limbs l) = seg (2 ^ 64) l 0 4.
Proof. unfold val, of_limbs; cbn [seg limb0 limb1 limb2 limb3]; ring. Qed.

Lemma wf_of_limbs l : u64s l -> wf256 (of_limbs l).
Proof. unfold wf256, of_limbs; simpl; auto. Qed.

Lemma wf_limbs a : wf256 a -> u64s (limbs a).
Proof. intros (?&?&?&?). apply u64s_Forall. repeat constructor; auto; apply H || apply H0 || apply H1 || apply H2. Qed.

Lemma u64_0 : u64 0. Proof. split; reflexivity || lia. Qed.
Lemma u64_max : u64 UINT64_MAX. Proof. split; reflexivity || discriminate. Qed.
#[export] Hint Resolve u64_0 u64_max wf_of_Z256 wf_of_limbs wf_limbs : words.

Lemma wf_U256 a b c d : u64 a -> u64 b -> u64 c -> u64 d -> wf256 (U256 a b c d).
Proof. unfold wf256; auto. Qed.

Lemma wf_zero : wf256 uint256_zero.
Proof. repeat split; reflexivity || lia. Qed.

Lemma wf_from_u64 x : u64 x -> wf256 (uint256_from_u64 x).
Proof. intros H; split; [exact H|]. auto using u64_0. Qed.
#[export] Hint Resolve wf_zero wf_from_u64 : words.

Lemma val_from_u64 x : val (uint256_from_u64 x) = x.
Proof. unfold val, uint256_from_u64; cbn [limb0 limb1 limb2 limb3]; lia. Qed.

(** * Tests and comparisons *)

Lemma uint256_is_zero_spec a : wf256 a -> uint256_is_zero a = (val a =? 0).
Proof.
  unfold wf256, u64, uint256_is_zero, val. intros H.
  apply eq_true_iff_eq. rewrite !Z.eqb_eq, !Z.lor_eq_0_iff. lia.
Qed.

Lemma uint256_fits_u64_spec a : wf256 a -> uint256_fits_u64 a = (val a <? 2 ^ 64).
Proof.
  unfold wf256, u64, uint256_fits_u64, val. intros H.
  apply eq_true_iff_eq. rewrite Z.eqb_eq, Z.ltb_lt, !Z.lor_eq_0_iff. lia.
Qed.

Lemma uint256_to_u64_spec a : wf256 a -> uint256_fits_u64 a = true -> uint256_to_u64_unsafe a = val a.
Proof.
  intros H E. rewrite uint256_fits_u64_spec, Z.ltb_lt in E by exact H.
  unfold wf256, u64, uint256_to_u64_unsafe, val in *. lia.
Qed.

Lemma uint256_eq_spec a b : wf256 a -> wf256 b -> uint256_eq a b = (val a =? val b).
Proof.
  unfold wf256, u64, uint256_eq, val. intros Ha Hb.
  apply eq_true_iff_eq. rewrite !Z.eqb_eq, !Z.lor_eq_0_iff, !Z.lxor_eq_0_iff. lia.
Qed.

Lemma uint256_lt_spec a b : wf256 a -> wf256 b -> uint256_lt a b = (val a <? val b).
Proof.
  unfold wf256, u64, uint256_lt, val. intros Ha Hb.
  repeat match goal with |- context [?x =? ?y] => destruct (Z.eqb_spec x y); cbn [negb] end;
    apply eq_true_iff_eq; rewrite !Z.ltb_lt; lia.
Qed.

Lemma uint256_is_negative_spec a : wf256 a -> uint256_is_negative a = (sval a <? 0).
Proof.
  unfold wf256, u64, uint256_is_negative, sval, val, shr64. intros H.
  rewrite Z.shiftr_div_pow2 by lia.
  apply eq_true_iff_eq. rewrite negb_true_iff, Z.eqb_neq.
  destruct (Z.ltb_spec (limb0 a + 2 ^ 64 * (limb1 a + 2 ^ 64 * (limb2 a + 2 ^ 64 * limb3 a))) (2 ^ 255));
    rewrite Z.ltb_lt; Z.div_mod_to_equations; lia.
Qed.

Lemma uint256_slt_spec a b : wf256 a -> wf256 b -> uint256_slt a b = (sval a <? sval b).
Proof.
  intros Ha Hb. unfold uint256_slt.
  rewrite !uint256_is_negative_spec, uint256_lt_spec by assumption.
  pose proof (val_range a Ha). pose proof (val_range b Hb). unfold sval in *.
  destruct (Z.ltb_spec (val a) (2 ^ 255)), (Z.ltb_spec (val b) (2 ^ 255));
    repeat match goal with |- context [?x <? ?y] => destruct (Z.ltb_spec x y) end;
    simpl; try reflexivity; lia.
Qed.

(** * Addition and subtraction *)

Lemma addcll_spec a b c r c' : addcll a b c = (r, c') -> u64 a -> u64 b -> 0 <= c <= 1 ->
  u64 r /\ 0 <= c' <= 1 /\ r + 2 ^ 64 * c' = a + b + c.
Proof.
  unfold addcll, w64, u64. intros [= <- <-] ? ? ?.
  pose proof (Z.div_mod (a + b + c) (2 ^ 64)). Z.div_mod_to_equations. lia.
Qed.

Lemma subcll_spec a b c r c' : subcll a b c = (r, c') -> u64 a -> u64 b -> 0 <= c <= 1 ->
  u64 r /\ 0 <= c' <= 1 /\ r - 2 ^ 64 * c' = a - b - c.
Proof.
  unfold subcll, w64, u64. intros [= <- <-] ? ? ?.
  destruct (Z.ltb_spec (a - b - c) 0); Z.div_mod_to_equations; lia.
Qed.

Lemma add_carry_spec a b : wf256 a -> wf256 b ->
  wf256 (fst (add_carry a b)) /\ 0 <= snd (add_carry a b) <= 1 /\
  val (fst (add_carry a b)) + 2 ^ 256 * snd (add_carry a b) = val a + val b.
Proof.
  unfold wf256, add_carry. intros (?&?&?&?) (?&?&?&?).
  repeat match goal with
  | |- context [addcll ?a ?b ?c] =>
    let E := fresh in destruct (addcll a b c) eqn:E;
    apply addcll_spec in E; [destruct E as (?&?&?) | assumption | assumption | lia]
  end.
  cbn [fst snd]. split; [auto using wf_U256|]. split; [lia|].
  unfold val; cbn [limb0 limb1 limb2 limb3]; lia.
Qed.

Lemma uint256_add_spec a b : wf256 a -> wf256 b -> uint256_add a b = of_Z256 (val a + val b).
Proof.
  intros Ha Hb. destruct (add_carry_spec a b Ha Hb) as (Hw & Hc & E).
  apply eq_of_Z256; [exact Hw|]. unfold uint256_add. rewrite <- E, Z.mul_comm, Z_mod_plus_full.
  symmetry; apply Z.mod_small, val_range, Hw.
Qed.

Lemma uint256_sub_spec a b : wf256 a -> wf256 b -> uint256_sub a b = of_Z256 (val a - val b).
Proof.
  unfold wf256, uint256_sub. intros (?&?&?&?) (?&?&?&?).
  destruct (subcll (limb0 a) (limb0 b) 0) as [r0 b0] eqn:E0.
  destruct (subcll (limb1 a) (limb1 b) b0) as [r1 b1] eqn:E1.
  destruct (subcll (limb2 a) (limb2 b) b1) as [r2 b2] eqn:E2.
  destruct (subcll (limb3 a) (limb3 b) b2) as [r3 b3] eqn:E3.
  apply subcll_spec in E0 as (?&?&?); [|auto|auto|lia].
  apply subcll_spec in E1 as (?&?&?); [|auto|auto|lia].
  apply subcll_spec in E2 as (?&?&?); [|auto|auto|lia].
  apply subcll_spec in E3 as (?&?&?); [|auto|auto|lia].
  assert (W : wf256 (U256 r0 r1 r2 r3)) by auto using wf_U256.
  apply eq_of_Z256; [exact W|].
  rewrite <- (Z_mod_plus_full (val a - val b) b3). symmetry.
  replace (val a - val b + b3 * 2 ^ 256) with (val (U256 r0 r1 r2 r3))
    by (unfold val; cbn [limb0 limb1 limb2 limb3]; lia).
  apply Z.mod_small, val_range, W.
Qed.

(** * Bitwise operations *)

Lemma val_testbit a i : wf256 a -> 0 <= i -> Z.testbit (val a) i =
  if i <? 64 then Z.testbit (limb0 a) i
  else if i - 64 <? 64 then Z.testbit (limb1 a) (i - 64)
  else if i - 64 - 64 <? 64 then Z.testbit (limb2 a) (i - 64 - 64)
  else Z.testbit (limb3 a) (i - 64 - 64 - 64).
Proof.
  intros (?&?&?&?) Hi. unfold val.
  rewrite testbit_cat by (assumption || lia). destruct (Z.ltb_spec i 64); [reflexivity|].
  rewrite testbit_cat by (assumption || lia). destruct (Z.ltb_spec (i - 64) 64); [reflexivity|].
  rewrite testbit_cat by (assumption || lia). reflexivity.
Qed.

Lemma val_testbit_limb a i : wf256 a -> 0 <= i < 256 ->
  Z.testbit (val a) i = Z.testbit (aget (limbs a) (Z.to_nat (i / 64))) (i mod 64).
Proof.
  intros Ha Hi. rewrite val_testbit by (assumption || lia).
  pose proof (Z.div_mod i 64 ltac:(lia)). pose proof (Z.mod_pos_bound i 64 ltac:(lia)).
  assert (C : i / 64 = 0 \/ i / 64 = 1 \/ i / 64 = 2 \/ i / 64 = 3) by lia.
  repeat match goal with |- context [?x <? ?y] => destruct (Z.ltb_spec x y) end; destruct C as [E|[E|[E|E]]];
    try lia; rewrite E; unfold aget; simpl nth; f_equal; lia.
Qed.

Ltac solve_bitwise spec :=
  intros; apply Z.bits_inj'; intros;
  rewrite ?Z.land_spec, ?Z.lor_spec, ?Z.lxor_spec, !val_testbit by auto with words;
  repeat match goal with |- context [?x <? ?y] => destruct (x <? y) end; apply spec.

Lemma wf_and a b : wf256 a -> wf256 b -> wf256 (uint256_and a b).
Proof. intros (?&?&?&?) (?&?&?&?). apply wf_U256; auto with words. Qed.
Lemma wf_or a b : wf256 a -> wf256 b -> wf256 (uint256_or a b).
Proof. intros (?&?&?&?) (?&?&?&?). apply wf_U256; auto with words. Qed.
Lemma wf_xor a b : wf256 a -> wf256 b -> wf256 (uint256_xor a b).
Proof. intros (?&?&?&?) (?&?&?&?). apply wf_U256; auto with words. Qed.
#[export] Hint Resolve wf_and wf_or wf_xor : words.

Lemma uint256_and_spec a b : wf256 a -> wf256 b -> val (uint256_and a b) = Z.land (val a) (val b).
Proof. solve_bitwise Z.land_spec. Qed.
Lemma uint256_or_spec a b : wf256 a -> wf256 b -> val (uint256_or a b) = Z.lor (val a) (val b).
Proof. solve_bitwise Z.lor_spec. Qed.
Lemma uint256_xor_spec a b : wf256 a -> wf256 b -> val (uint256_xor a b) = Z.lxor (val a) (val b).
Proof. solve_bitwise Z.lxor_spec. Qed.

Lemma uint256_not_spec a : wf256 a -> wf256 (uint256_not a) /\ val (uint256_not a) = 2 ^ 256 - 1 - val a.
Proof.
  unfold wf256, u64, val, uint256_not, not64, UINT64_MAX; cbn [limb0 limb1 limb2 limb3]. lia.
Qed.

Lemma uint256_byte_spec i x : wf256 i -> wf256 x ->
  uint256_byte i x =
  uint256_from_u64 (if val i <? 32 then val x / 2 ^ (8 * (31 - val i)) mod 2 ^ 8 else 0).
Proof.
  intros Hi Hx. unfold uint256_byte. rewrite uint256_fits_u64_spec by assumption.
  destruct (Z.ltb_spec (val i) (2 ^ 64)) as [Hf|Hf].
  2:{ destruct (Z.ltb_spec (val i) 32); [lia|reflexivity]. }
  assert (limb0 i = val i) as -> by (unfold wf256, u64, val in *; lia).
  pose proof (val_range i Hi).
  destruct (Z.leb_spec 32 (val i)), (Z.ltb_spec (val i) 32); try lia; cbn [negb orb]; [reflexivity|].
  f_equal. rewrite land_255. unfold w8. rewrite Z.mod_mod by lia.
  set (le := 31 - val i). unfold shr64.
  apply Z.bits_inj'; intros j Hj. destruct (Z.lt_ge_cases j 8).
  - rewrite !Z.mod_pow2_bits_low, Z.shiftr_spec, Z.div_pow2_bits by lia.
    rewrite val_testbit_limb by (assumption || lia).
    pose proof (Z.div_mod le 8 ltac:(lia)). pose proof (Z.mod_pos_bound le 8 ltac:(lia)).
    replace ((j + 8 * le) / 64) with (le / 8); [f_equal|];
      Z.div_mod_to_equations; lia.
  - rewrite !Z.mod_pow2_bits_high by lia. reflexivity.
Qed.

(** * Byte conversions *)

Lemma limb_of_bytes_spec p : bytes_ok p -> (length p <= 8)%nat -> limb_of_bytes p = be_val p.
Proof.
  unfold limb_of_bytes, be_val. induction p as [|b p IH] using rev_ind; [reflexivity|].
  intros H Hl. apply Forall_app in H as [Hp Hb]. rewrite length_app in Hl; simpl in Hl.
  rewrite !fold_left_app, IH by (auto; lia). cbn [fold_left]. fold (be_val p).
  pose proof (be_val_range p Hp). inversion Hb as [|? ? Hb' _]; subst. unfold u8 in Hb'.
  assert (2 ^ (8 * Z.of_nat (length p)) <= 2 ^ 56) by (apply Z.pow_le_mono_r; lia).
  rewrite shl64_lor by lia. f_equal. unfold shl64. rewrite Z.shiftl_mul_pow2, w64_small by (unfold u64; lia).
  reflexivity.
Qed.

(** The four limbs of a 32-byte string are its value. *)
Lemma limbs_of_padded l : length l = 32%nat -> bytes_ok l ->
  val (U256 (limb_of_bytes (firstn 8 (skipn 24 l))) (limb_of_bytes (firstn 8 (skipn 16 l)))
            (limb_of_bytes (firstn 8 (skipn 8 l))) (limb_of_bytes (firstn 8 (skipn 0 l)))) = be_val l.
Proof.
  intros Hl Hb.
  assert (P : forall k, bytes_ok (firstn 8 (skipn k l))).
  { intros k. apply Forall_firstn, Forall_skipn, Hb. }
  rewrite !limb_of_bytes_spec by (rewrite ?length_firstn; auto; lia).
  assert (E : l = firstn 8 (skipn 0 l) ++ firstn 8 (skipn 8 l) ++ firstn 8 (skipn 16 l) ++ firstn 8 (skipn 24 l)).
  { do 32 (destruct l as [|? l]; [discriminate Hl|]). destruct l; [reflexivity|discriminate Hl]. }
  rewrite E at 5. rewrite !be_val_app, !length_app, !length_firstn, !length_skipn, Hl.
  unfold val; cbn [limb0 limb1 limb2 limb3]. simpl Nat.min. simpl Nat.add. simpl Z.of_nat.
  change (8 * 24) with 192; change (8 * 16) with 128; change (8 * 8) with 64. lia.
Qed.

Lemma uint256_from_bytes_be_spec bs : bytes_ok bs -> uint256_from_bytes_be bs = of_Z256 (be_val bs).
Proof.
  intros Hb. unfold uint256_from_bytes_be.
  destruct (Nat.eqb_spec (length bs) 0) as [E|E].
  { destruct bs; [reflexivity|discriminate E]. }
  set (data := if (UINT256_BYTES <? length bs)%nat then _ else _).
  assert (Hd : bytes_ok data) by (unfold data; destruct (_ <? _)%nat; auto; apply Forall_skipn, Hb).
  assert (Hl : (length data <= 32)%nat).
  { unfold data; destruct (Nat.ltb_spec UINT256_BYTES (length bs)); rewrite ?length_skipn; unfold UINT256_BYTES in *; lia. }
  assert (Hv : be_val data = be_val bs mod 2 ^ 256).
  { unfold data; destruct (Nat.ltb_spec UINT256_BYTES (length bs)) as [Hlt|Hge].
    - rewrite <- (firstn_skipn (length bs - UINT256_BYTES) bs) at 3.
      rewrite be_val_app, length_skipn. replace (8 * Z.of_nat _) with 256 by (unfold UINT256_BYTES in *; lia).
      rewrite Z.add_comm, Z_mod_plus_full. symmetry; apply Z.mod_small.
      pose proof (be_val_range (skipn (length bs - UINT256_BYTES) bs) ltac:(apply Forall_skipn, Hb)) as R.
      rewrite length_skipn in R. replace (8 * Z.of_nat _) with 256 in R by (unfold UINT256_BYTES in *; lia). exact R.
    - symmetry; apply Z.mod_small. pose proof (be_val_range bs Hb).
      assert (2 ^ (8 * Z.of_nat (length bs)) <= 2 ^ 256) by (apply Z.pow_le_mono_r; unfold UINT256_BYTES in *; lia). lia. }
  clearbody data. set (padded := repeat 0 _ ++ data). cbv zeta. 
  assert (Lp : length padded = 32%nat) by (unfold padded, UINT256_BYTES; rewrite length_app, repeat_length; lia).
  assert (Bp : bytes_ok padded).
  { apply Forall_app; split; [|exact Hd]. apply Forall_forall; intros x Hx. apply repeat_spec in Hx as ->.
    split; reflexivity || lia. }
  assert (P : forall k, u64 (limb_of_bytes (firstn 8 (skipn k padded)))).
  { intros k. assert (Hk : bytes_ok (firstn 8 (skipn k padded))) by (apply Forall_firstn, Forall_skipn, Bp).
    rewrite limb_of_bytes_spec by (auto; rewrite length_firstn; lia).
    pose proof (be_val_range _ Hk). assert (2 ^ (8 * Z.of_nat (length (firstn 8 (skipn k padded)))) <= 2 ^ 64)
      by (apply Z.pow_le_mono_r; [lia|]; rewrite length_firstn; lia). unfold u64; lia. }
  apply eq_of_Z256; [apply wf_U256; apply P|].
  change (val _) with (val (U256 (limb_of_bytes (firstn 8 (skipn 24 padded))) (limb_of_bytes (firstn 8 (skipn 16 padded)))
    (limb_of_bytes (firstn 8 (skipn 8 padded))) (limb_of_bytes (firstn 8 (skipn 0 padded))))).
  rewrite (limbs_of_padded padded Lp Bp), <- Hv. unfold padded. rewrite be_val_app, be_val_zeros. reflexivity.
Qed.

Lemma limb_to_bytes_spec n limb p : limb_to_bytes n limb p = be_bytes n limb ++ p.
Proof.
  revert limb p; induction n as [|n IH]; intros limb p; [reflexivity|].
  cbn [limb_to_bytes be_bytes]. rewrite IH, <- app_assoc. cbn [app].
  unfold shr64. rewrite Z.shiftr_div_pow2, land_255 by lia. unfold w8. rewrite Z.mod_mod by lia. reflexivity.
Qed.

Lemma uint256_to_bytes_be_spec a : wf256 a -> uint256_to_bytes_be a = be_bytes 32 (val a).
Proof.
  intros H. unfold uint256_to_bytes_be. rewrite !limb_to_bytes_spec, !app_nil_r.
  change 32%nat with (8 + (8 + (8 + 8)))%nat. rewrite !be_bytes_app, !app_assoc.
  change (8 * Z.of_nat 8) with 64. change (8 * Z.of_nat (8 + 8)) with 128.
  change (8 * Z.of_nat (8 + (8 + 8))) with 192.
  assert (E : forall n v w, v mod 2 ^ (8 * Z.of_nat n) = w mod 2 ^ (8 * Z.of_nat n) -> be_bytes n v = be_bytes n w).
  { intros n v w Hvw. rewrite <- be_bytes_mod, Hvw. apply be_bytes_mod. }
  unfold wf256, u64, val in *. f_equal; [f_equal; [f_equal|]|]; apply E; change (8 * Z.of_nat 8) with 64;
    Z.div_mod_to_equations; lia.
Qed.

Lemma from_to_bytes a : wf256 a -> uint256_from_bytes_be (uint256_to_bytes_be a) = a.
Proof.
  intros H. rewrite uint256_to_bytes_be_spec, uint256_from_bytes_be_spec by auto with words.
  rewrite be_val_be_bytes. change (8 * Z.of_nat 32) with 256. rewrite of_Z256_mod. apply of_Z256_val, H.
Qed.

Lemma to_from_bytes bs : bytes_ok bs -> length bs = 32%nat -> uint256_to_bytes_be (uint256_from_bytes_be bs) = bs.
Proof.
  intros H L. rewrite uint256_from_bytes_be_spec, uint256_to_bytes_be_spec, val_of_Z256 by auto with words.
  change 256 with (8 * Z.of_nat 32). rewrite be_bytes_mod, <- L. apply be_bytes_be_val, H.
Qed.

(** * Shifts *)

(** A shift amount below 256 splits into whole limbs and bits. *)
Lemma shift_amount s : 0 <= s < 256 -> exists q b,
  s = 64 * Z.of_nat q + b /\ 0 <= b < 64 /\ (q < 4)%nat /\ Z.to_nat (s / 64) = q /\ s mod 64 = b.
Proof.
  intros H. exists (Z.to_nat (s / 64)), (s mod 64). Z.div_mod_to_equations. lia.
Qed.

Lemma shift_fits shift : wf256 shift -> negb (uint256_fits_u64 shift) || (256 <=? limb0 shift) = (256 <=? val shift).
Proof.
  intros H. rewrite uint256_fits_u64_spec by exact H. pose proof (val_range _ H).
  unfold wf256, u64, val in *. apply eq_true_iff_eq.
  rewrite orb_true_iff, negb_true_iff, Z.ltb_ge, !Z.leb_le. lia.
Qed.

Lemma limb0_small a : wf256 a -> val a < 256 -> limb0 a = val a.
Proof. unfold wf256, u64, val. lia. Qed.

(** Lemmas for one limb moved by [b] bits: its two parts and their or with a neighbour's. *)
Lemma limb_shl x b : u64 x -> 0 < b < 64 ->
  x * 2 ^ b = shl64 x b + 2 ^ 64 * shr64 x (64 - b) /\ u64 (shl64 x b) /\
  0 <= shr64 x (64 - b) < 2 ^ b /\ shl64 x b + 2 ^ b <= 2 ^ 64.
Proof.
  intros Hx Hb. unfold shl64, shr64.
  split; [rewrite <- Z.shiftl_mul_pow2 by lia; apply shl_lo_hi; lia|].
  split; [apply w64_range|].
  split; [apply shr_range; [lia | replace (64 - b + b) with 64 by lia; exact Hx | lia]|].
  assert (0 < 2 ^ b) by (apply Z.pow_pos_nonneg; lia).
  unfold w64. rewrite Z.shiftl_mul_pow2 by lia.
  replace (2 ^ 64) with (2 ^ (64 - b) * 2 ^ b) by (rewrite <- Z.pow_add_r by lia; f_equal; lia).
  assert (0 < 2 ^ (64 - b)) by (apply Z.pow_pos_nonneg; lia).
  rewrite Z.mul_mod_distr_r by lia. pose proof (Z.mod_pos_bound x (2 ^ (64 - b))). nia.
Qed.

Ltac limb_facts L0 L1 L2 L3 b :=
  destruct (limb_shl _ b L0) as (?&?&?&?); [lia|]; destruct (limb_shl _ b L1) as (?&?&?&?); [lia|];
  destruct (limb_shl _ b L2) as (?&?&?&?); [lia|]; destruct (limb_shl _ b L3) as (?&?&?&?); [lia|].

Lemma uint256_shl_spec shift value : wf256 shift -> wf256 value ->
  uint256_shl shift value = of_Z256 (if val shift <? 256 then val value * 2 ^ val shift else 0).
Proof.
  intros Hs Hv. unfold uint256_shl. rewrite shift_fits by exact Hs.
  pose proof (val_range _ Hs).
  destruct (Z.leb_spec 256 (val shift)), (Z.ltb_spec (val shift) 256); try lia; [reflexivity|].
  rewrite limb0_small by assumption.
  destruct (Z.eqb_spec (val shift) 0) as [->|Hnz].
  { rewrite Z.mul_1_r. symmetry; apply of_Z256_val, Hv. }
  destruct (shift_amount (val shift)) as (q & b & E & Hb & Hq & Eq & Eb); [lia|].
  cbv zeta. rewrite Eq, Eb, E. clear Eq Eb. rewrite Z.pow_add_r by lia.
  destruct Hv as (L0&L1&L2&L3).
  destruct (Z.eqb_spec b 0) as [->|Hb0].
  - unfold u64 in *. destruct q as [|[|[|[|q]]]]; try lia; (apply eq_of_Z256; [apply wf_U256; auto with words|]);
      unfold val; cbn -[Z.pow Z.mul Z.add Z.modulo]; Z.div_mod_to_equations; lia.
  - limb_facts L0 L1 L2 L3 b.
    destruct q as [|[|[|[|q]]]]; try lia; (apply eq_of_Z256; [apply wf_U256|]);
      cbn -[Z.pow Z.mul Z.add Z.modulo Z.sub]; rewrite ?shl64_lor by lia; unfold u64 in *; try lia;
      unfold val; cbn -[Z.pow Z.mul Z.add Z.modulo Z.sub].
    all: rewrite ?shl64_lor by lia; generalize dependent (2 ^ b); intros P; intros.
    + apply Z.mod_unique_pos with (q := shr64 (limb3 value) (64 - b)); lia.
    + apply Z.mod_unique_pos with (q := shr64 (limb2 value) (64 - b) + limb3 value * P); lia.
    + apply Z.mod_unique_pos with (q := shr64 (limb1 value) (64 - b) + limb2 value * P + 2 ^ 64 * (limb3 value * P)); lia.
    + apply Z.mod_unique_pos with (q := shr64 (limb0 value) (64 - b) + limb1 value * P
        + 2 ^ 64 * (limb2 value * P) + 2 ^ 128 * (limb3 value * P)); lia.
Qed.

Lemma uint256_shr_spec shift value : wf256 shift -> wf256 value ->
  uint256_shr shift value = of_Z256 (if val shift <? 256 then val value / 2 ^ val shift else 0).
Proof.
  intros Hs Hv. unfold uint256_shr. rewrite shift_fits by exact Hs.
  pose proof (val_range _ Hs). pose proof (val_range _ Hv) as Rv.
  destruct (Z.leb_spec 256 (val shift)), (Z.ltb_spec (val shift) 256); try lia; [reflexivity|].
  rewrite limb0_small by assumption.
  destruct (Z.eqb_spec (val shift) 0) as [->|Hnz].
  { rewrite Z.div_1_r. symmetry; apply of_Z256_val, Hv. }
  destruct (shift_amount (val shift)) as (q & b & E & Hb & Hq & Eq & Eb); [lia|].
  assert (M : (val value / 2 ^ val shift) mod 2 ^ 256 = val value / 2 ^ val shift).
  { apply Z.mod_small. assert (0 < 2 ^ val shift) by (apply Z.pow_pos_nonneg; lia).
    split; [apply Z.div_pos; lia|]. apply Z.div_lt_upper_bound; nia. }
  cbv zeta. rewrite Eq, Eb. rewrite E in M |- *. clear Eq Eb.
  destruct Hv as (L0&L1&L2&L3).
  destruct (Z.eqb_spec b 0) as [->|Hb0].
  - unfold u64 in *. destruct q as [|[|[|[|q]]]]; try lia;
      (apply eq_of_Z256; [apply wf_U256; auto with words | rewrite M; clear M]);
      unfold val; cbn -[Z.pow Z.mul Z.add Z.modulo Z.div]; rewrite ?Z.add_0_r;
      Z.div_mod_to_equations; lia.
  - assert (D : val value / 2 ^ (64 * Z.of_nat q + b) = (val value * 2 ^ (64 - b)) / 2 ^ (64 * Z.of_nat q + 64)).
    { replace (64 * Z.of_nat q + 64) with ((64 * Z.of_nat q + b) + (64 - b)) by lia.
      rewrite (Z.pow_add_r 2 (64 * Z.of_nat q + b) (64 - b)) by lia. symmetry; apply Z.div_mul_cancel_r; apply Z.pow_nonzero; lia. }
    limb_facts L0 L1 L2 L3 (64 - b). replace (64 - (64 - b)) with b in * by lia.
    assert (0 < 2 ^ b) by (apply Z.pow_pos_nonneg; lia).
    destruct q as [|[|[|[|q]]]]; try lia; (apply eq_of_Z256; [apply wf_U256 | rewrite M, D; clear M D]);
      cbn -[Z.pow Z.mul Z.add Z.modulo Z.sub Z.div]; rewrite ?(Z.lor_comm (shr64 _ _)), ?shl64_lor by lia;
      unfold u64 in *; try lia;
      unfold val; cbn -[Z.pow Z.mul Z.add Z.modulo Z.sub Z.div].
    all: rewrite ?(Z.lor_comm (shr64 _ _)), ?shl64_lor by lia; generalize dependent (2 ^ (64 - b)); intros P; intros.
    + apply Z.div_unique_pos with (r := shl64 (limb0 value) (64 - b)); lia.
    + apply Z.div_unique_pos with (r := limb0 value * P + 2 ^ 64 * shl64 (limb1 value) (64 - b)); lia.
    + apply Z.div_unique_pos with (r := limb0 value * P + 2 ^ 64 * (limb1 value * P) + 2 ^ 128 * shl64 (limb2 value) (64 - b)); lia.
    + apply Z.div_unique_pos with (r := limb0 value * P + 2 ^ 64 * (limb1 value * P) + 2 ^ 128 * (limb2 value * P)
        + 2 ^ 192 * shl64 (limb3 value) (64 - b)); lia.
Qed.

(** The mask of [uint256_sar]: bits [b .. 63] of a limb. *)
Lemma high_mask b : 0 < b < 64 -> not64 (sub64 (shl64 1 b) 1) = 2 ^ 64 - 2 ^ b.
Proof.
  intros Hb. assert (2 ^ b < 2 ^ 64) by (apply Z.pow_lt_mono_r; lia).
  assert (0 < 2 ^ b) by (apply Z.pow_pos_nonneg; lia).
  unfold not64, sub64, shl64, UINT64_MAX. rewrite Z.shiftl_1_l.
  rewrite !w64_small; unfold u64; try rewrite w64_small; unfold u64; lia.
Qed.

Lemma lor_high_mask x b : 0 < b < 64 -> 0 <= x < 2 ^ b ->
  Z.lor x (2 ^ 64 - 2 ^ b) = x + (2 ^ 64 - 2 ^ b).
Proof.
  intros Hb Hx. replace (2 ^ 64 - 2 ^ b) with ((2 ^ (64 - b) - 1) * 2 ^ b).
  - rewrite Z.lor_comm, lor_add by lia. ring.
  - rewrite Z.mul_sub_distr_r, <- Z.pow_add_r by lia. replace (64 - b + b) with 64 by lia. ring.
Qed.

Lemma sar_fill_spec s r : 0 < s < 256 -> wf256 r -> val r < 2 ^ (256 - s) ->
  wf256 (sar_fill s r) /\ val (sar_fill s r) = val r + 2 ^ 256 - 2 ^ (256 - s).
Proof.
  intros Hs Hw Hr. unfold sar_fill. replace (255 - s + 1) with (256 - s) by lia.
  destruct (shift_amount (256 - s)) as (q & b & E & Hb & Hq & Eq & Eb); [lia|].
  cbv zeta. rewrite Eq, Eb. rewrite E in Hr |- *. clear Eq Eb.
  rewrite Z.pow_add_r in Hr |- * by lia.
  destruct Hw as (L0&L1&L2&L3). unfold u64 in *.
  assert (0 < 2 ^ b) by (apply Z.pow_pos_nonneg; lia).
  destruct (Z.ltb_spec 0 b) as [Hb0|Hb0].
  - rewrite high_mask by lia. assert (2 ^ b < 2 ^ 64) by (apply Z.pow_lt_mono_r; lia).
    unfold val in *; destruct q as [|[|[|[|q]]]]; try lia; cbn -[Z.pow Z.mul Z.add Z.sub Z.lor] in Hr |- *;
      rewrite lor_high_mask by lia; unfold wf256, u64, UINT64_MAX, of_limbs, aget; cbn [limb0 limb1 limb2 limb3 nth]; lia.
  - assert (b = 0) as -> by lia. rewrite Z.mul_1_r in *.
    unfold val in *; destruct q as [|[|[|[|q]]]]; try lia; cbn -[Z.pow Z.mul Z.add Z.sub Z.lor] in Hr |- *;
      unfold wf256, u64, UINT64_MAX, of_limbs, aget; cbn [limb0 limb1 limb2 limb3 nth]; lia.
Qed.

Lemma uint256_sar_spec shift value : wf256 shift -> wf256 value ->
  uint256_sar shift value = of_Z256 (sval value / 2 ^ val shift).
Proof.
  intros Hs Hv. unfold uint256_sar. rewrite shift_fits, uint256_is_negative_spec by assumption.
  pose proof (val_range _ Hs). pose proof (val_range _ Hv). pose proof (sval_range _ Hv).
  assert (0 < 2 ^ val shift) by (apply Z.pow_pos_nonneg; lia).
  destruct (Z.leb_spec 256 (val shift)).
  { assert (2 ^ 256 <= 2 ^ val shift) by (apply Z.pow_le_mono_r; lia).
    destruct (Z.ltb_spec (sval value) 0).
    - replace (sval value / 2 ^ val shift) with (-1); [reflexivity|].
      apply Z.div_unique_pos with (r := sval value + 2 ^ val shift); lia.
    - rewrite Z.div_small by lia. reflexivity. }
  rewrite limb0_small by assumption.
  destruct (Z.eqb_spec (val shift) 0) as [E0|Hnz].
  { rewrite E0, Z.div_1_r. symmetry; apply of_Z256_sval, Hv. }
  rewrite uint256_shr_spec by assumption.
  destruct (Z.ltb_spec (val shift) 256); [|lia]. unfold sval in *.
  assert (R : val (of_Z256 (val value / 2 ^ val shift)) = val value / 2 ^ val shift).
  { rewrite val_of_Z256. apply Z.mod_small. split; [apply Z.div_pos; lia|]. apply Z.div_lt_upper_bound; nia. }
  destruct (Z.ltb_spec (val value) (2 ^ 255)).
  { destruct (Z.ltb_spec (val value) 0); [lia|reflexivity]. }
  destruct (Z.ltb_spec (val value - 2 ^ 256) 0); [|lia].
  destruct (Z.ltb_spec 0 (val shift)); [|lia]. cbn [andb].
  assert (P : 2 ^ (256 - val shift) * 2 ^ val shift = 2 ^ 256)
    by (rewrite <- Z.pow_add_r by lia; f_equal; lia).
  destruct (sar_fill_spec (val shift) (of_Z256 (val value / 2 ^ val shift))) as [W V];
    [lia | apply wf_of_Z256 | rewrite R; apply Z.div_lt_upper_bound; lia |].
  apply eq_of_Z256; [exact W|]. rewrite V, R.
  replace (val value - 2 ^ 256) with (val value + (- 2 ^ (256 - val shift)) * 2 ^ val shift) by lia.
  rewrite Z.div_add by lia. rewrite <- (Z_mod_plus_full _ 1). symmetry.
  rewrite Z.mod_small; [lia|].
  assert (0 <= val value / 2 ^ val shift < 2 ^ (256 - val shift))
    by (split; [apply Z.div_pos; lia | apply Z.div_lt_upper_bound; lia]).
  assert (2 ^ (256 - val shift) <= 2 ^ 256) by (apply Z.pow_le_mono_r; lia). lia.
Qed.
