(* ===== verification/Multiply.v ===== *)
(** Multiplication of src/types/uint256.c: the truncated product
    [uint256_mul] (schoolbook columns on 128-bit intermediates), the full
    512-bit product [uint256_mul_full], square-and-multiply exponentiation and
    the byte length used by the EXP gas rule. *)
From Stdlib Require Import ZArith Lia List Bool.
From S2P Require Import Prelude Uint256.
Import ListNotations.
#[local] Open Scope Z_scope.
#[local] Open Scope word_scope.

(** ** Truncated product *)

Definition uint256_mul (a b : uint256_t) : uint256_t :=
  let p00 := w128 (limb0 a * limb0 b) in
  let p01 := w128 (limb0 a * limb1 b) in
  let p10 := w128 (limb1 a * limb0 b) in
  let p02 := w128 (limb0 a * limb2 b) in
  let p11 := w128 (limb1 a * limb1 b) in
  let p20 := w128 (limb2 a * limb0 b) in
  let r0 := w64 p00 in
  let col1 := w128 (Z.shiftr p00 64 + w64 p01 + w64 p10) in
  let r1 := w64 col1 in
  let col2 := w128 (Z.shiftr col1 64 + Z.shiftr p01 64 + Z.shiftr p10 64
                    + w64 p02 + w64 p11 + w64 p20) in
  let r2 := w64 col2 in
  let r3 := w64 (Z.shiftr col2 64) +64 w64 (Z.shiftr p02 64) +64 w64 (Z.shiftr p11 64)
            +64 w64 (Z.shiftr p20 64) +64 (limb0 a *64 limb3 b) +64 (limb1 a *64 limb2 b)
            +64 (limb2 a *64 limb1 b) +64 (limb3 a *64 limb0 b) in
  uint256_from_limbs r0 r1 r2 r3.

(** ** Full product: [uint512_t] is an array of eight limbs *)

Definition uint512_t : Type := list Z.

Definition mul_full_inner (a b : uint256_t) (i j : nat) (s : list Z * Z) : list Z * Z :=
  let '(result, carry) := s in
  let prod := w128 (aget (limbs a) i * aget (limbs b) j + aget result (i + j) + carry) in
  (aset result (i + j) (w64 prod), Z.shiftr prod 64).

Definition mul_full_row (a b : uint256_t) (i : nat) (result : list Z) : list Z :=
  let '(result, carry) := for_ 0 4 (mul_full_inner a b i) (result, 0) in
  aset result (i + 4) (w64 carry).

Definition uint256_mul_full (a b : uint256_t) : uint512_t :=
  for_ 0 4 (mul_full_row a b) (repeat 0 8).

(** ** Exponentiation *)

(** The in-place right shift of [exp] by one bit. *)
Definition exp_shift (exp : uint256_t) : uint256_t :=
  U256 (Z.lor (limb0 exp >>64 1) (limb1 exp <<64 63)) (Z.lor (limb1 exp >>64 1) (limb2 exp <<64 63))
       (Z.lor (limb2 exp >>64 1) (limb3 exp <<64 63)) (limb3 exp >>64 1).

(** The square-and-multiply loop; [fuel] bounds the iterations (256 bits). *)
Fixpoint exp_loop (fuel : nat) (result multiplier exp : uint256_t) : uint256_t :=
  match fuel with
  | O => result
  | S fuel' =>
    if uint256_is_zero exp then result
    else
      let result :=
        if negb (Z.land (limb0 exp) 1 =? 0) then uint256_mul result multiplier else result in
      exp_loop fuel' result (uint256_mul multiplier multiplier) (exp_shift exp)
  end.

Definition EXP_FUEL : nat := 257.

Definition uint256_exp (base exponent : uint256_t) : uint256_t :=
  if uint256_is_zero exponent then uint256_from_u64 1
  else if uint256_is_zero base then uint256_zero
  else if uint256_eq base (uint256_from_u64 1) then uint256_from_u64 1
  else if (Z.land (limb0 base) 1 =? 0)
          && ((255 <? limb0 exponent) || negb (limb1 exponent =? 0)
              || negb (limb2 exponent =? 0) || negb (limb3 exponent =? 0))
  then uint256_zero
  else exp_loop EXP_FUEL (uint256_from_u64 1) base exponent.

(** ** Byte length *)

(** The inner [while]: index of the highest non-zero byte of a limb, scanning
    down from [n - 1]; the result is that index plus one. *)
Fixpoint top_byte (n : nat) (limb : Z) : nat :=
  match n with
  | O => 0
  | S n' => if Z.land (limb >>64 (Z.of_nat n' * 8)) 255 =? 0 then top_byte n' limb else n
  end.

Fixpoint byte_length_from (n : nat) (value : uint256_t) : Z :=
  match n with
  | O => 0
  | S i =>
    let limb := aget (limbs value) i in
    if negb (limb =? 0) then Z.of_nat i * 8 + Z.of_nat (top_byte 8 limb)
    else byte_length_from i value
  end.

Definition uint256_byte_length (value : uint256_t) : Z := byte_length_from 4 value.

(** * Truncated product *)

(** A 128-bit value as two words. *)
Lemma split128 p : 0 <= p < 2 ^ 128 ->
  p = w64 p + 2 ^ 64 * Z.shiftr p 64 /\ u64 (w64 p) /\ u64 (Z.shiftr p 64).
Proof.
  intros H. rewrite Z.shiftr_div_pow2 by lia. unfold w64, u64. Z.div_mod_to_equations. lia.
Qed.

Lemma prod_range x y : u64 x -> u64 y -> 0 <= x * y <= (2 ^ 64 - 1) * (2 ^ 64 - 1).
Proof. unfold u64. nia. Qed.

Lemma uint256_mul_spec a b : wf256 a -> wf256 b -> uint256_mul a b = of_Z256 (val a * val b).
Proof.
  intros (A0&A1&A2&A3) (B0&B1&B2&B3). unfold uint256_mul.
  pose proof (prod_range _ _ A0 B0). pose proof (prod_range _ _ A0 B1). pose proof (prod_range _ _ A1 B0).
  pose proof (prod_range _ _ A0 B2). pose proof (prod_range _ _ A1 B1). pose proof (prod_range _ _ A2 B0).
  rewrite (w128_small (limb0 a * limb0 b)), (w128_small (limb0 a * limb1 b)), (w128_small (limb1 a * limb0 b)),
    (w128_small (limb0 a * limb2 b)), (w128_small (limb1 a * limb1 b)), (w128_small (limb2 a * limb0 b)) by lia.
  cbv zeta.
  destruct (split128 (limb0 a * limb0 b)) as (?&?&?); [lia|]. destruct (split128 (limb0 a * limb1 b)) as (?&?&?); [lia|].
  destruct (split128 (limb1 a * limb0 b)) as (?&?&?); [lia|]. destruct (split128 (limb0 a * limb2 b)) as (?&?&?); [lia|].
  destruct (split128 (limb1 a * limb1 b)) as (?&?&?); [lia|]. destruct (split128 (limb2 a * limb0 b)) as (?&?&?); [lia|].
  set (c1 := w128 _). assert (Ec1 : c1 = Z.shiftr (limb0 a * limb0 b) 64 + w64 (limb0 a * limb1 b) + w64 (limb1 a * limb0 b))
    by (apply w128_small; unfold u64 in *; lia).
  destruct (split128 c1) as (?&?&?); [unfold u64 in *; lia|].
  set (c2 := w128 (Z.shiftr c1 64 + _ + _ + _ + _ + _)).
  assert (Ec2 : c2 = Z.shiftr c1 64 + Z.shiftr (limb0 a * limb1 b) 64 + Z.shiftr (limb1 a * limb0 b) 64
    + w64 (limb0 a * limb2 b) + w64 (limb1 a * limb1 b) + w64 (limb2 a * limb0 b))
    by (apply w128_small; unfold u64 in *; lia).
  destruct (split128 c2) as (?&?&?); [unfold u64 in *; lia|]. clearbody c1 c2.
  unfold mul64. rewrite !add64_w. apply eq_of_Z256; [apply wf_U256; auto with words|].
  match goal with |- context [uint256_from_limbs _ _ _ (w64 ?t)] =>
    destruct (w64_exists t) as [k Ek]; pose proof (w64_range t) end.
  unfold val, uint256_from_limbs; cbn [limb0 limb1 limb2 limb3]. unfold u64 in *.
  apply Z.mod_unique_pos with (q := limb1 a * limb3 b + limb2 a * limb2 b + limb3 a * limb1 b - k
    + 2 ^ 64 * (limb2 a * limb3 b + limb3 a * limb2 b) + 2 ^ 128 * (limb3 a * limb3 b)); [lia|].
  rewrite Ek. lia.
Qed.

(** * Full product *)

Lemma mul_full_inner_inv a b i r0 n : wf256 a -> wf256 b -> u64s r0 -> (i + 4 < length r0)%nat -> (n <= 4)%nat ->
  let '(r, carry) := for_ 0 n (mul_full_inner a b i) (r0, 0) in
  length r = length r0 /\ u64s r /\ u64 carry /\
  (forall k, (k < i \/ i + n <= k)%nat -> aget r k = aget r0 k) /\
  seg (2 ^ 64) r i n + (2 ^ 64) ^ Z.of_nat n * carry =
    seg (2 ^ 64) r0 i n + aget (limbs a) i * seg (2 ^ 64) (limbs b) 0 n.
Proof.
  intros Ha Hb Hr Hl Hn.
  pose (I := fun (j : nat) (s : list Z * Z) => let '(r, carry) := s in
    length r = length r0 /\ u64s r /\ u64 carry /\
    (forall k, (k < i \/ i + j <= k)%nat -> aget r k = aget r0 k) /\
    seg (2 ^ 64) r i j + (2 ^ 64) ^ Z.of_nat j * carry =
      seg (2 ^ 64) r0 i j + aget (limbs a) i * seg (2 ^ 64) (limbs b) 0 j).
  apply (for_inv I); [split; [reflexivity|]; split; [assumption|]; split; [auto with words|]; split;
    [reflexivity | simpl; lia]|].
  intros j [r carry] Hj (L & U & C & Out & E). unfold I, mul_full_inner.
  pose proof (wf_limbs a Ha i) as Ai. pose proof (wf_limbs b Hb j) as Bj. pose proof (U (i + j)%nat) as Rj.
  pose proof (prod_range _ _ Ai Bj).
  rewrite w128_small by (unfold u64 in *; lia).
  set (prod := _ + carry). destruct (split128 prod) as (Ep & P1 & P2); [unfold prod, u64 in *; lia|].
  split; [rewrite length_aset; exact L|]. split; [apply u64s_aset; assumption|]. split; [assumption|].
  split; [intros k Hk; rewrite aget_aset_ne by lia; apply Out; lia|].
  rewrite !seg_last, seg_aset_out, aget_aset_eq by lia. rewrite Nat2Z.inj_succ, Z.pow_succ_r by lia.
  rewrite <- (Out (i + j)%nat) by lia. unfold prod in Ep at 1.
  generalize dependent ((2 ^ 64) ^ Z.of_nat j); intros P E. cbn [Nat.add].
  assert (P * (w64 prod + 2 ^ 64 * Z.shiftr prod 64) =
    P * (aget (limbs a) i * aget (limbs b) j + aget r (i + j) + carry)) by (f_equal; lia).
  lia.
Qed.

(** The eight limbs around row [i]: below, the row, its carry limb, above. *)
Lemma seg8 r i : (i < 4)%nat -> seg (2 ^ 64) r 0 8 =
  seg (2 ^ 64) r 0 i + (2 ^ 64) ^ Z.of_nat i *
    (seg (2 ^ 64) r i 4 + 2 ^ 256 * (aget r (i + 4) + 2 ^ 64 * seg (2 ^ 64) r (i + 5) (3 - i))).
Proof.
  intros Hi. replace 8%nat with (i + (4 + S (3 - i)))%nat by lia.
  rewrite seg_split, (seg_split _ r (0 + i) 4 (S (3 - i))). cbn [Nat.add].
  change ((2 ^ 64) ^ Z.of_nat 4) with (2 ^ 256).
  cbn [seg]. replace (S (i + 4)) with (i + 5)%nat by lia. reflexivity.
Qed.

Lemma seg_zero B u j k : (forall i, (j <= i)%nat -> aget u i = 0) -> seg B u j k = 0.
Proof.
  revert j; induction k as [|k IH]; intros j H; cbn [seg]; [reflexivity|].
  rewrite IH, H by (auto; intros; apply H; lia). ring.
Qed.

Lemma mul_full_row_spec a b i r0 : wf256 a -> wf256 b -> u64s r0 -> length r0 = 8%nat -> (i < 4)%nat ->
  (forall k, (i + 4 <= k)%nat -> aget r0 k = 0) ->
  let r := mul_full_row a b i r0 in
  length r = 8%nat /\ u64s r /\ (forall k, (S i + 4 <= k)%nat -> aget r k = 0) /\
  seg (2 ^ 64) r 0 8 = seg (2 ^ 64) r0 0 8 + (2 ^ 64) ^ Z.of_nat i * aget (limbs a) i * val b.
Proof.
  intros Ha Hb Hr Hl Hi Hz. unfold mul_full_row.
  pose proof (mul_full_inner_inv a b i r0 4 Ha Hb Hr ltac:(lia) ltac:(lia)) as I.
  destruct (for_ 0 4 _ _) as [r carry]. destruct I as (L & U & C & Out & E).
  rewrite w64_small by exact C.
  split; [rewrite length_aset; lia|]. split; [apply u64s_aset; assumption|].
  split; [intros k Hk; rewrite aget_aset_ne by lia; rewrite Out by lia; apply Hz; lia|].
  rewrite val_seg, !(seg8 _ i Hi), !seg_aset_out, aget_aset_eq by lia.
  rewrite !(seg_zero _ _ (i + 5)) by (intros; try rewrite Out by lia; apply Hz; lia).
  rewrite (seg_ext _ r r0 0 i) by (intros; apply Out; lia).
  rewrite (Hz (i + 4)%nat) by lia. change ((2 ^ 64) ^ Z.of_nat 4) with (2 ^ 256) in E.
  replace (seg (2 ^ 64) r i 4) with (seg (2 ^ 64) r0 i 4 + aget (limbs a) i * seg (2 ^ 64) (limbs b) 0 4
    - 2 ^ 256 * carry) by lia. ring.
Qed.

Lemma uint256_mul_full_spec a b : wf256 a -> wf256 b ->
  length (uint256_mul_full a b) = 8%nat /\ u64s (uint256_mul_full a b) /\
  seg (2 ^ 64) (uint256_mul_full a b) 0 8 = val a * val b.
Proof.
  intros Ha Hb. unfold uint256_mul_full.
  pose (I := fun (i : nat) (r : list Z) => length r = 8%nat /\ u64s r /\
    (forall k, (i + 4 <= k)%nat -> aget r k = 0) /\
    seg (2 ^ 64) r 0 8 = seg (2 ^ 64) (limbs a) 0 i * val b).
  assert (F : I (0 + 4)%nat (for_ 0 4 (mul_full_row a b) (repeat 0 8))).
  { apply for_inv; [|intros i r Hi (L & U & O & E)].
    - split; [reflexivity|]. split; [apply u64s_Forall; repeat constructor; discriminate|].
      split; [|reflexivity]. intros k _. do 9 (destruct k as [|k]; [reflexivity|]). destruct k; reflexivity.
    - destruct (mul_full_row_spec a b i r Ha Hb U L ltac:(lia) O) as (L' & U' & O' & E').
      repeat split; auto; try apply U'. rewrite E', E, seg_last. cbn [Nat.add]. ring. }
  destruct F as (L & U & _ & E). rewrite val_seg. auto.
Qed.

(** * Exponentiation *)

Lemma exp_shift_spec e : wf256 e -> wf256 (exp_shift e) /\ val (exp_shift e) = val e / 2.
Proof.
  intros (L0&L1&L2&L3). limb_facts L0 L1 L2 L3 63. change (64 - 63) with 1 in *.
  unfold exp_shift. rewrite !(Z.lor_comm (shr64 _ _)), !shl64_lor by lia. unfold wf256, u64, val in *.
  cbn [limb0 limb1 limb2 limb3]. split; [lia|].
  apply Z.div_unique_pos with (r := val e mod 2); [apply Z.mod_pos_bound; lia|].
  unfold val. Z.div_mod_to_equations. lia.
Qed.

Lemma odd_limb0 e : wf256 e -> negb (Z.land (limb0 e) 1 =? 0) = Z.odd (val e).
Proof.
  intros He. change 1 with (Z.ones 1). rewrite Z.land_ones by lia. change (2 ^ 1) with 2.
  rewrite Zmod_odd.
  replace (val e) with (limb0 e + 2 * (2 ^ 63 * (limb1 e + 2 ^ 64 * (limb2 e + 2 ^ 64 * limb3 e))))
    by (unfold val; lia).
  rewrite Z.odd_add_mul_2. destruct (Z.odd (limb0 e)); reflexivity.
Qed.

Lemma pow_mod_step m e : 0 <= e ->
  m ^ e = (if Z.odd e then m else 1) * (m * m) ^ (e / 2).
Proof.
  intros He. rewrite <- Z.pow_2_r, <- Z.pow_mul_r by (try apply Z.div_pos; lia).
  pose proof (Z.div_mod e 2 ltac:(lia)) as D. rewrite Zmod_odd in D.
  destruct (Z.odd e); rewrite D at 1; [|rewrite Z.add_0_r; lia].
  rewrite Z.add_comm, Z.pow_add_r by (try apply Z.mul_nonneg_nonneg; try apply Z.div_pos; lia). lia.
Qed.

Lemma of_Z256_mul_l x y : of_Z256 (val (of_Z256 x) * y) = of_Z256 (x * y).
Proof.
  rewrite val_of_Z256, <- of_Z256_mod, Zmult_mod_idemp_l, of_Z256_mod. reflexivity.
Qed.

Lemma of_Z256_pow_base r x e : 0 <= e -> of_Z256 (r * val (of_Z256 x) ^ e) = of_Z256 (r * x ^ e).
Proof.
  intros He. rewrite val_of_Z256, <- of_Z256_mod, <- (of_Z256_mod (r * x ^ e)). f_equal.
  rewrite <- Zmult_mod_idemp_r, Z.mod_pow_l, Zmult_mod_idemp_r. reflexivity.
Qed.

Lemma exp_loop_spec fuel r m e : wf256 r -> wf256 m -> wf256 e -> val e < 2 ^ Z.of_nat fuel ->
  exp_loop fuel r m e = of_Z256 (val r * val m ^ val e).
Proof.
  revert r m e; induction fuel as [|fuel IH]; intros r m e Hr Hm He Hf; pose proof (val_range e He).
  - assert (val e = 0) as -> by (simpl in Hf; lia). rewrite Z.mul_1_r, of_Z256_val; auto.
  - cbn [exp_loop]. rewrite uint256_is_zero_spec by exact He.
    destruct (Z.eqb_spec (val e) 0) as [->|Hnz]; [rewrite Z.mul_1_r, of_Z256_val; auto|].
    rewrite odd_limb0 by exact He. destruct (exp_shift_spec e He) as [Ws Vs].
    rewrite Nat2Z.inj_succ, Z.pow_succ_r in Hf by lia.
    assert (Hlt : val (exp_shift e) < 2 ^ Z.of_nat fuel) by (rewrite Vs; apply Z.div_lt_upper_bound; lia).
    rewrite (pow_mod_step (val m) (val e)) by lia.
    assert (0 <= val e / 2) by (apply Z.div_pos; lia).
    rewrite !uint256_mul_spec by assumption.
    destruct (Z.odd (val e)); rewrite IH, Vs, of_Z256_pow_base by auto with words;
      [rewrite of_Z256_mul_l|]; f_equal; ring.
Qed.

Lemma even_pow_zero b e : Z.odd b = false -> 256 <= e -> (b ^ e) mod 2 ^ 256 = 0.
Proof.
  intros Hb He.
  assert (exists k, b = 2 * k) as [k ->].
  { exists (b / 2). pose proof (Z.div_mod b 2 ltac:(lia)). rewrite Zmod_odd, Hb in *. lia. }
  rewrite Z.pow_mul_l. replace e with (256 + (e - 256)) at 1 by lia. rewrite Z.pow_add_r by lia.
  rewrite <- Z.mul_assoc, Z.mul_comm. apply Z_mod_mult.
Qed.

Lemma uint256_exp_spec base exponent : wf256 base -> wf256 exponent ->
  uint256_exp base exponent = of_Z256 (val base ^ val exponent).
Proof.
  intros Hb He. unfold uint256_exp. pose proof (val_range _ Hb). pose proof (val_range _ He).
  rewrite !uint256_is_zero_spec, uint256_eq_spec by auto with words. rewrite val_from_u64.
  destruct (Z.eqb_spec (val exponent) 0) as [->|Hnz]; [reflexivity|].
  destruct (Z.eqb_spec (val base) 0) as [->|Hbz]; [rewrite Z.pow_0_l by lia; reflexivity|].
  destruct (Z.eqb_spec (val base) 1) as [->|Hb1]; [rewrite Z.pow_1_l by lia; reflexivity|].
  pose proof (odd_limb0 base Hb) as Hodd.
  destruct (Z.land (limb0 base) 1 =? 0); cbn [negb andb] in *.
  - match goal with |- context [if ?c then _ else _] => destruct c eqn:C end.
    + rewrite <- of_Z256_mod, even_pow_zero; [reflexivity | congruence |].
      rewrite !orb_true_iff, !negb_true_iff, !Z.eqb_neq, Z.ltb_lt in C.
      unfold wf256, u64, val in *. lia.
    + rewrite exp_loop_spec by (auto with words; change (Z.of_nat EXP_FUEL) with 257; lia).
      rewrite val_from_u64, Z.mul_1_l. reflexivity.
  - rewrite exp_loop_spec by (auto with words; change (Z.of_nat EXP_FUEL) with 257; lia).
    rewrite val_from_u64, Z.mul_1_l. reflexivity.
Qed.

(** * Byte length *)

Lemma top_byte_spec n limb : 0 <= limb < 2 ^ (8 * Z.of_nat n) ->
  limb < 2 ^ (8 * Z.of_nat (top_byte n limb)) /\
  ((0 < top_byte n limb)%nat -> 2 ^ (8 * (Z.of_nat (top_byte n limb) - 1)) <= limb) /\ (top_byte n limb <= n)%nat.
Proof.
  revert limb; induction n as [|n IH]; intros limb H; [simpl in *; lia|].
  cbn [top_byte]. unfold shr64. rewrite Z.shiftr_div_pow2, land_255 by lia.
  assert (P : 0 < 2 ^ (Z.of_nat n * 8)) by (apply Z.pow_pos_nonneg; lia).
  replace (8 * Z.of_nat (S n)) with (Z.of_nat n * 8 + 8) in H by lia. rewrite Z.pow_add_r in H by lia.
  assert (D : 0 <= limb / 2 ^ (Z.of_nat n * 8) < 2 ^ 8)
    by (split; [apply Z.div_pos; lia | apply Z.div_lt_upper_bound; lia]).
  rewrite Z.mod_small by exact D.
  destruct (Z.eqb_spec (limb / 2 ^ (Z.of_nat n * 8)) 0) as [E|E].
  - apply Z.div_small_iff in E; [|lia]. rewrite (Z.mul_comm (Z.of_nat n)) in E.
    destruct (IH limb) as (?&?&?); [lia|]. repeat split; auto; lia.
  - replace (8 * Z.of_nat (S n)) with (Z.of_nat n * 8 + 8) by lia. rewrite Z.pow_add_r by lia.
    split; [lia|]. split; [|lia]. intros _.
    replace (8 * (Z.of_nat (S n) - 1)) with (Z.of_nat n * 8) by lia.
    pose proof (Z.div_mod limb (2 ^ (Z.of_nat n * 8)) ltac:(lia)).
    pose proof (Z.mod_pos_bound limb (2 ^ (Z.of_nat n * 8)) P). nia.
Qed.

Lemma byte_length_from_spec n v : wf256 v -> (n <= 4)%nat ->
  let L := byte_length_from n v in
  let x := seg (2 ^ 64) (limbs v) 0 n in
  0 <= L <= 8 * Z.of_nat n /\ x < 2 ^ (8 * L) /\ (0 < L -> 2 ^ (8 * (L - 1)) <= x).
Proof.
  intros Hv. induction n as [|n IH]; intros Hn; [simpl; lia|].
  cbn [byte_length_from]. pose proof (wf_limbs v Hv n) as Hl. rewrite seg_last. cbn [Nat.add].
  pose proof (seg_range (2 ^ 64) (limbs v) 0 n ltac:(lia) (wf_limbs v Hv)) as Hs.
  destruct (Z.eqb_spec (aget (limbs v) n) 0) as [E|E]; cbn [negb].
  - rewrite E, Z.mul_0_r, Z.add_0_r. destruct (IH ltac:(lia)) as (?&?&?). repeat split; auto; lia.
  - destruct (top_byte_spec 8 (aget (limbs v) n)) as (T1 & T2 & T3); [exact Hl|].
    assert (0 < top_byte 8 (aget (limbs v) n))%nat.
    { destruct (top_byte 8 (aget (limbs v) n)); [|lia]. change (2 ^ (8 * Z.of_nat 0)) with 1 in T1. unfold u64 in *. lia. }
    specialize (T2 H). set (t := top_byte 8 _) in *. clearbody t.
    rewrite <- Z.pow_mul_r in * by lia.
    split; [lia|].
    replace (8 * (Z.of_nat n * 8 + Z.of_nat t)) with (64 * Z.of_nat n + 8 * Z.of_nat t) by lia.
    replace (8 * (Z.of_nat n * 8 + Z.of_nat t - 1)) with (64 * Z.of_nat n + 8 * (Z.of_nat t - 1)) by lia.
    rewrite !Z.pow_add_r by lia. split; [|intros _]; nia.
Qed.

(** The byte length is the least number of bytes that holds the value. *)
Lemma uint256_byte_length_spec v : wf256 v ->
  let L := uint256_byte_length v in
  0 <= L <= 32 /\ val v < 2 ^ (8 * L) /\ (0 < L -> 2 ^ (8 * (L - 1)) <= val v).
Proof. intros Hv. rewrite val_seg. apply (byte_length_from_spec 4); [exact Hv|lia]. Qed.
