(* ===== verification/Reciprocal.v ===== *)
(** Division by one limb, of src/types/uint256.c: the table-driven reciprocal
    of a normalised 64-bit divisor (Moeller and Granlund), the 2-by-1 word
    division that uses it, and the single-limb path of [uint256_divmod]. *)
From Stdlib Require Import ZArith Lia List Bool.
From S2P Require Import Prelude Uint256 Multiply.
Import ListNotations.
#[local] Open Scope Z_scope.
#[local] Open Scope word_scope.

Definition RECIPROCAL_TABLE : list Z := [
  2045; 2037; 2029; 2021; 2013; 2005; 1998; 1990; 1983; 1975; 1968; 1960; 1953; 1946; 1938; 1931;
  1924; 1917; 1910; 1903; 1896; 1889; 1883; 1876; 1869; 1863; 1856; 1849; 1843; 1836; 1830; 1824;
  1817; 1811; 1805; 1799; 1792; 1786; 1780; 1774; 1768; 1762; 1756; 1750; 1745; 1739; 1733; 1727;
  1722; 1716; 1710; 1705; 1699; 1694; 1688; 1683; 1677; 1672; 1667; 1661; 1656; 1651; 1646; 1641;
  1636; 1630; 1625; 1620; 1615; 1610; 1605; 1600; 1596; 1591; 1586; 1581; 1576; 1572; 1567; 1562;
  1558; 1553; 1548; 1544; 1539; 1535; 1530; 1526; 1521; 1517; 1513; 1508; 1504; 1500; 1495; 1491;
  1487; 1483; 1478; 1474; 1470; 1466; 1462; 1458; 1454; 1450; 1446; 1442; 1438; 1434; 1430; 1426;
  1422; 1418; 1414; 1411; 1407; 1403; 1399; 1396; 1392; 1388; 1384; 1381; 1377; 1374; 1370; 1366;
  1363; 1359; 1356; 1352; 1349; 1345; 1342; 1338; 1335; 1332; 1328; 1325; 1322; 1318; 1315; 1312;
  1308; 1305; 1302; 1299; 1295; 1292; 1289; 1286; 1283; 1280; 1276; 1273; 1270; 1267; 1264; 1261;
  1258; 1255; 1252; 1249; 1246; 1243; 1240; 1237; 1234; 1231; 1228; 1226; 1223; 1220; 1217; 1214;
  1211; 1209; 1206; 1203; 1200; 1197; 1195; 1192; 1189; 1187; 1184; 1181; 1179; 1176; 1173; 1171;
  1168; 1165; 1163; 1160; 1158; 1155; 1153; 1150; 1148; 1145; 1143; 1140; 1138; 1135; 1133; 1130;
  1128; 1125; 1123; 1121; 1118; 1116; 1113; 1111; 1109; 1106; 1104; 1102; 1099; 1097; 1095; 1092;
  1090; 1088; 1086; 1083; 1081; 1079; 1077; 1074; 1072; 1070; 1068; 1066; 1064; 1061; 1059; 1057;
  1055; 1053; 1051; 1049; 1047; 1044; 1042; 1040; 1038; 1036; 1034; 1032; 1030; 1028; 1026; 1024].

(** [umul128]: low and high words of the product. *)
Definition umul128 (x y : Z) : Z * Z :=
  let p := w128 (x * y) in (w64 p, w64 (Z.shiftr p 64)).

Definition reciprocal_2by1 (d : Z) : Z :=
  let d9 := d >>64 55 in
  let v0 := aget RECIPROCAL_TABLE (Z.to_nat (d9 - 256)) in
  let d40 := (d >>64 24) +64 1 in
  let v1 := (v0 <<64 11) -64 w32 ((w32 (v0 *64 v0) *64 d40) >>64 40) -64 1 in
  let v2 := (v1 <<64 13) +64 ((v1 *64 (2 ^ 60 -64 (v1 *64 d40))) >>64 47) in
  let d0 := Z.land d 1 in
  let d63 := (d >>64 1) +64 d0 in
  let e := Z.land (v2 >>64 1) (0 -64 d0) -64 (v2 *64 d63) in
  let '(e_lo, e_hi) := umul128 v2 e in
  let v3 := (e_hi >>64 1) +64 (v2 <<64 31) in
  let '(p_lo, p_hi) := umul128 v3 d in
  let p_plus_d := w128 (w128 (p_lo + w128 (Z.shiftl p_hi 64)) + d) in
  let v4 := v3 -64 w64 (Z.shiftr p_plus_d 64) -64 d in
  v4.

(** [udivrem_2by1]: quotient and remainder of [u_hi:u_lo] by [d]. *)
Definition udivrem_2by1 (u_lo u_hi d v : Z) : Z * Z :=
  let '(q_lo, q_hi) := umul128 v u_hi in
  let q := w128 (w128 (w128 (q_lo + w128 (Z.shiftl q_hi 64)) + u_lo) + w128 (Z.shiftl u_hi 64)) in
  let q_lo := w64 q in
  let q_hi := w64 (Z.shiftr q 64) in
  let q_hi := q_hi +64 1 in
  let r := u_lo -64 (q_hi *64 d) in
  let '(q_hi, r) := if r >? q_lo then (q_hi -64 1, r +64 d) else (q_hi, r) in
  let '(q_hi, r) := if r >=? d then (q_hi +64 1, r -64 d) else (q_hi, r) in
  (q_hi, r).

(** The shifted dividend: five limbs holding [dividend * 2^shift]. *)
Definition norm_dividend (dividend : list Z) (shift : Z) : list Z :=
  if shift =? 0 then [aget dividend 0; aget dividend 1; aget dividend 2; aget dividend 3; 0]
  else
    let rshift := 64 - shift in
    [aget dividend 0 <<64 shift;
     Z.lor (aget dividend 1 <<64 shift) (aget dividend 0 >>64 rshift);
     Z.lor (aget dividend 2 <<64 shift) (aget dividend 1 >>64 rshift);
     Z.lor (aget dividend 3 <<64 shift) (aget dividend 2 >>64 rshift);
     aget dividend 3 >>64 rshift].

(** [divmod_single_limb]: quotient and remainder. *)
Definition divmod_single_limb (dividend : list Z) (divisor : Z) : uint256_t * uint256_t :=
  let shift := clz64 divisor in
  let d_norm := divisor <<64 shift in
  let u := norm_dividend dividend shift in
  let reciprocal := reciprocal_2by1 d_norm in
  let rem := aget u 4 in
  let '(q3, rem) := udivrem_2by1 (aget u 3) rem d_norm reciprocal in
  let '(q2, rem) := udivrem_2by1 (aget u 2) rem d_norm reciprocal in
  let '(q1, rem) := udivrem_2by1 (aget u 1) rem d_norm reciprocal in
  let '(q0, rem) := udivrem_2by1 (aget u 0) rem d_norm reciprocal in
  let rem := rem >>64 shift in
  (uint256_from_limbs q0 q1 q2 q3, uint256_from_u64 rem).

(** * The reciprocal

    The iterates approximate [2^k / d] ever more closely; each lemma gives the
    exact residual of one Newton step and a bound for it. [e0], [e1], [E2] and
    [K] are the residuals of [v0], [v1], [v2] and [v3]. *)

(** Every table entry against both ends of its interval of divisors. *)
Definition table_entry_ok (i : nat) : bool :=
  let v0 := aget RECIPROCAL_TABLE i in
  let d9 := 256 + Z.of_nat i in
  (0 <? v0) && (v0 <? 2 ^ 11) &&
  ((2 ^ 50 - v0 * (d9 * 2 ^ 31)) ^ 2 + (d9 + 1) * 2 ^ 71 <=? 7 * 2 ^ 80) &&
  ((2 ^ 50 - v0 * ((d9 + 1) * 2 ^ 31)) ^ 2 + (d9 + 1) * 2 ^ 71 <=? 7 * 2 ^ 80).

Lemma table_ok i : (i < 256)%nat -> table_entry_ok i = true.
Proof.
  intros Hi. assert (F : forallb table_entry_ok (seq 0 256) = true) by (vm_compute; reflexivity).
  rewrite forallb_forall in F. apply F, in_seq; lia.
Qed.

Lemma square_between a b x M : a <= x <= b -> a ^ 2 + M <= 7 * 2 ^ 80 -> b ^ 2 + M <= 7 * 2 ^ 80 ->
  x ^ 2 + M <= 7 * 2 ^ 80.
Proof. rewrite !Z.pow_2_r. intros. destruct (Z.le_ge_cases 0 x); nia. Qed.

Lemma recip_step0 d : 2 ^ 63 <= d < 2 ^ 64 ->
  let v0 := aget RECIPROCAL_TABLE (Z.to_nat (d / 2 ^ 55 - 256)) in
  let d40 := d / 2 ^ 24 + 1 in
  0 < v0 < 2 ^ 11 /\ 2 ^ 39 < d40 <= 2 ^ 40 /\
  (2 ^ 50 - v0 * d40) ^ 2 + 2 ^ 40 * d40 <= 7 * 2 ^ 80.
Proof.
  intros Hd v0 d40. set (i := Z.to_nat (d / 2 ^ 55 - 256)) in *.
  assert (Hi : Z.of_nat i = d / 2 ^ 55 - 256 /\ (i < 256)%nat) by (unfold i; Z.div_mod_to_equations; lia).
  assert (Hd40 : (256 + Z.of_nat i) * 2 ^ 31 < d40 <= (256 + Z.of_nat i + 1) * 2 ^ 31)
    by (unfold d40; Z.div_mod_to_equations; lia).
  pose proof (table_ok i (proj2 Hi)) as T. unfold table_entry_ok in T. fold v0 in T.
  rewrite !andb_true_iff, !Z.ltb_lt, !Z.leb_le in T. destruct T as [[[T1 T2] T3] T4].
  split; [lia|]. split; [unfold d40; Z.div_mod_to_equations; lia|].
  apply Z.le_trans with ((2 ^ 50 - v0 * d40) ^ 2 + (256 + Z.of_nat i + 1) * 2 ^ 71); [lia|].
  eapply square_between; [|exact T4|exact T3].
  split; apply Z.sub_le_mono_l, Z.mul_le_mono_nonneg_l; lia.
Qed.

Lemma recip_step1 v0 d40 : 0 < v0 < 2 ^ 11 -> 2 ^ 39 < d40 <= 2 ^ 40 ->
  (2 ^ 50 - v0 * d40) ^ 2 + 2 ^ 40 * d40 <= 7 * 2 ^ 80 ->
  let v1 := 2 ^ 11 * v0 - v0 * v0 * d40 / 2 ^ 40 - 1 in
  0 < v1 < 2 ^ 21 /\ 0 < 2 ^ 60 - v1 * d40 <= 7 * 2 ^ 40.
Proof.
  intros Hv Hd H v1.
  assert (E : 2 ^ 40 * (2 ^ 60 - v1 * d40) =
    (2 ^ 50 - v0 * d40) ^ 2 + (2 ^ 40 - (v0 * v0 * d40) mod 2 ^ 40) * d40).
  { unfold v1. pose proof (Z.div_mod (v0 * v0 * d40) (2 ^ 40) ltac:(lia)) as D.
    set (f := v0 * v0 * d40 / 2 ^ 40) in *. set (r := (v0 * v0 * d40) mod 2 ^ 40) in *. clearbody f r.
    replace r with (v0 * v0 * d40 - 2 ^ 40 * f) by lia. ring. }
  pose proof (Z.mod_pos_bound (v0 * v0 * d40) (2 ^ 40) ltac:(lia)).
  set (r := (v0 * v0 * d40) mod 2 ^ 40) in *. clearbody r.
  assert (P : 0 <= (2 ^ 50 - v0 * d40) ^ 2) by (rewrite Z.pow_2_r; apply Z.square_nonneg).
  assert (0 < (2 ^ 40 - r) * d40 <= 2 ^ 40 * d40) by nia.
  set (e1 := 2 ^ 60 - v1 * d40) in *. assert (0 < e1 <= 7 * 2 ^ 40) by lia.
  split; [|assumption]. assert (v1 * d40 = 2 ^ 60 - e1) by (unfold e1; lia). clearbody v1 e1. nia.
Qed.

Lemma recip_step2 v1 d40 d : 2 ^ 63 <= d < 2 ^ 64 -> d40 = d / 2 ^ 24 + 1 -> 2 ^ 39 < d40 <= 2 ^ 40 ->
  0 < v1 < 2 ^ 21 -> 0 < 2 ^ 60 - v1 * d40 <= 7 * 2 ^ 40 ->
  let v2 := 2 ^ 13 * v1 + v1 * (2 ^ 60 - v1 * d40) / 2 ^ 47 in
  0 < v2 < 2 ^ 34 /\ 0 < 2 ^ 97 - v2 * d <= d + 52 * 2 ^ 57.
Proof.
  intros Hd Ed Hd40 Hv He v2. set (e1 := 2 ^ 60 - v1 * d40) in *.
  assert (Ev : v1 * d40 = 2 ^ 60 - e1) by (unfold e1; lia). clearbody e1.
  pose proof (Z.div_mod (v1 * e1) (2 ^ 47) ltac:(lia)) as D.
  pose proof (Z.mod_pos_bound (v1 * e1) (2 ^ 47) ltac:(lia)) as R.
  unfold v2; clear v2. set (f := v1 * e1 / 2 ^ 47) in *. set (r := (v1 * e1) mod 2 ^ 47) in *. clearbody f r.
  set (v2 := 2 ^ 13 * v1 + f).
  assert (E : 2 ^ 47 * (2 ^ 73 - v2 * d40) = e1 * e1 + r * d40).
  { unfold v2. replace (2 ^ 47 * (2 ^ 73 - (2 ^ 13 * v1 + f) * d40))
      with (2 ^ 120 - 2 ^ 60 * (v1 * d40) - (2 ^ 47 * f) * d40) by ring.
    replace (2 ^ 47 * f) with (v1 * e1 - r) by lia.
    replace ((v1 * e1 - r) * d40) with (v1 * d40 * e1 - r * d40) by ring. rewrite Ev. ring. }
  assert (E1 : 0 < e1 * e1 <= 49 * 2 ^ 80) by nia.
  assert (E2 : 0 <= r * d40 <= (2 ^ 47 - 1) * d40) by nia.
  assert (V : 0 < v2 < 2 ^ 34) by (unfold v2 in *; clearbody v2 || idtac; nia).
  split; [exact V|]. clearbody v2.
  set (del := 2 ^ 24 * d40 - d). assert (Hdel : 0 < del <= 2 ^ 24) by (unfold del; Z.div_mod_to_equations; lia).
  assert (Dd : d = 2 ^ 24 * d40 - del) by (unfold del; lia). clearbody del.
  assert (E3 : 2 ^ 47 * (2 ^ 97 - v2 * d) = 2 ^ 24 * (e1 * e1 + r * d40) + 2 ^ 47 * (v2 * del))
    by (rewrite <- E, Dd; ring).
  assert (0 < v2 * del) by (apply Z.mul_pos_pos; lia).
  assert (v2 * del <= 2 ^ 34 * 2 ^ 24) by (apply Z.mul_le_mono_nonneg; lia). lia.
Qed.

Lemma recip_step3 v2 d : 2 ^ 63 <= d < 2 ^ 64 -> 0 < v2 < 2 ^ 34 ->
  0 < 2 ^ 97 - v2 * d <= d + 52 * 2 ^ 57 ->
  let e := (2 ^ 97 - v2 * d) / 2 in
  let v3 := 2 ^ 31 * v2 + v2 * e / 2 ^ 65 in
  0 < 2 ^ 128 - v3 * d < 2 * d /\ 2 ^ 64 <= v3 < 2 ^ 66.
Proof.
  intros Hd Hv HE e v3. set (E2 := 2 ^ 97 - v2 * d) in *.
  assert (Ev : v2 * d = 2 ^ 97 - E2) by (unfold E2; lia). clearbody E2.
  pose proof (Z.div_mod E2 2 ltac:(lia)) as D1. pose proof (Z.mod_pos_bound E2 2 ltac:(lia)) as R1.
  fold e in D1. set (eps := E2 mod 2) in *. clearbody e eps.
  pose proof (Z.div_mod (v2 * e) (2 ^ 65) ltac:(lia)) as D2.
  pose proof (Z.mod_pos_bound (v2 * e) (2 ^ 65) ltac:(lia)) as R2.
  unfold v3; clear v3. set (f := v2 * e / 2 ^ 65) in *. set (r := (v2 * e) mod 2 ^ 65) in *. clearbody f r.
  set (v3 := 2 ^ 31 * v2 + f). set (K := 2 ^ 128 - v3 * d).
  assert (EK : 2 ^ 66 * K = E2 * E2 + (eps * v2 + 2 * r) * d).
  { unfold K, v3. replace (2 ^ 66 * (2 ^ 128 - (2 ^ 31 * v2 + f) * d))
      with (2 ^ 194 - 2 ^ 97 * (v2 * d) - (2 * (2 ^ 65 * f)) * d) by ring.
    replace (2 * (2 ^ 65 * f)) with (v2 * (E2 - eps) - 2 * r) by lia.
    replace ((v2 * (E2 - eps) - 2 * r) * d) with (v2 * d * E2 - (eps * v2 + 2 * r) * d) by ring.
    rewrite Ev. ring. }
  assert (Q1 : 0 < E2 * E2) by (apply Z.mul_pos_pos; lia).
  assert (Q2 : E2 * E2 <= (d + 52 * 2 ^ 57) * (d + 52 * 2 ^ 57)) by (apply Z.mul_le_mono_nonneg; lia).
  assert (Q3 : (d - 2 ^ 63) * (2 ^ 64 - d) >= 0) by (apply Z.le_ge, Z.mul_nonneg_nonneg; lia).
  assert (Q4 : 0 <= eps * v2 + 2 * r <= 2 ^ 66 + 2 ^ 34) by (assert (C : eps = 0 \/ eps = 1) by lia; destruct C as [->| ->]; lia).
  assert (Q5 : 0 <= (eps * v2 + 2 * r) * d <= (2 ^ 66 + 2 ^ 34) * d)
    by (split; [apply Z.mul_nonneg_nonneg | apply Z.mul_le_mono_nonneg_r]; lia).
  assert (HK : 0 < K < 2 * d /\ K < 2 ^ 65 - 1) by lia.
  assert (KV : v3 * d = 2 ^ 128 - K) by (unfold K; lia). clearbody K v3.
  split; [lia|]. split.
  - apply Z.lt_pred_le. apply (Z.mul_lt_mono_pos_r d); [lia|].
    assert ((2 ^ 64 - 1) * d <= (2 ^ 64 - 1) * (2 ^ 64 - 1)) by (apply Z.mul_le_mono_nonneg_l; lia).
    change (Z.pred (2 ^ 64)) with (2 ^ 64 - 1). lia.
  - apply (Z.mul_lt_mono_pos_r d); [lia|]. lia.
Qed.

(** The last correction: [v3] or [v3 + 1] is the reciprocal. *)
Lemma recip_step4 V3 d : 2 ^ 63 <= d < 2 ^ 64 -> 0 < 2 ^ 128 - V3 * d < 2 * d -> 2 ^ 64 <= V3 ->
  (V3 - 2 ^ 64 - (V3 - 2 ^ 64 + 1) * d / 2 ^ 64 - d) mod 2 ^ 64 = (2 ^ 128 - 1) / d - 2 ^ 64.
Proof.
  intros Hd HK HV. 
  replace ((V3 - 2 ^ 64 + 1) * d / 2 ^ 64) with ((V3 + 1) * d / 2 ^ 64 - d).
  2:{ replace ((V3 - 2 ^ 64 + 1) * d) with ((V3 + 1) * d + (- d) * 2 ^ 64) by ring.
      rewrite Z.div_add by lia. ring. }
  destruct (Z.lt_ge_cases (2 ^ 128 - V3 * d) (d + 1)) as [C|C].
  - assert ((V3 + 1) * d / 2 ^ 64 = 2 ^ 64) as ->.
    { symmetry; apply Z.div_unique_pos with (r := (V3 + 1) * d - 2 ^ 128); lia. }
    assert (Eq : (2 ^ 128 - 1) / d = V3).
    { symmetry; apply Z.div_unique_pos with (r := 2 ^ 128 - 1 - V3 * d); lia. }
    rewrite Eq.
    replace (V3 - 2 ^ 64 - (2 ^ 64 - d) - d) with (V3 - 2 ^ 64 + (-1) * 2 ^ 64) by ring.
    rewrite Z_mod_plus_full. apply Z.mod_small. split; [lia|].
    apply (Z.mul_lt_mono_pos_r d); lia.
  - assert ((V3 + 1) * d / 2 ^ 64 = 2 ^ 64 - 1) as ->.
    { symmetry; apply Z.div_unique_pos with (r := (V3 + 1) * d - 2 ^ 128 + 2 ^ 64); lia. }
    assert (Eq : (2 ^ 128 - 1) / d = V3 + 1).
    { symmetry; apply Z.div_unique_pos with (r := 2 ^ 128 - 1 - (V3 + 1) * d); lia. }
    rewrite Eq.
    replace (V3 - 2 ^ 64 - (2 ^ 64 - 1 - d) - d) with (V3 + 1 - 2 ^ 64 + (-1) * 2 ^ 64) by ring.
    rewrite Z_mod_plus_full. apply Z.mod_small. split; [lia|].
    apply (Z.mul_lt_mono_pos_r d); lia.
Qed.

(** ** The machine computation follows the exact one *)

Lemma umul128_spec x y : u64 x -> u64 y ->
  umul128 x y = ((x * y) mod 2 ^ 64, x * y / 2 ^ 64) /\ u64 (x * y / 2 ^ 64).
Proof.
  intros Hx Hy. unfold umul128. pose proof (prod_range x y Hx Hy).
  rewrite w128_small by lia. destruct (split128 (x * y)) as (_&_&H1); [lia|].
  rewrite (w64_small (Z.shiftr _ _)) by exact H1. rewrite Z.shiftr_div_pow2 in * by lia. auto.
Qed.

Lemma recip_e d v2 : 2 ^ 63 <= d < 2 ^ 64 -> 0 < v2 < 2 ^ 34 -> 0 < 2 ^ 97 - v2 * d <= d + 52 * 2 ^ 57 ->
  Z.land (v2 >>64 1) (0 -64 Z.land d 1) -64 (v2 *64 ((d >>64 1) +64 Z.land d 1)) = (2 ^ 97 - v2 * d) / 2.
Proof.
  intros Hd Hv HE. change 1 with (Z.ones 1) at 2 4. rewrite Z.land_ones by lia.
  unfold shr64, add64, sub64, mul64. rewrite !Z.shiftr_div_pow2 by lia. change (2 ^ 1) with 2.
  pose proof (Z.div_mod d 2 ltac:(lia)) as D. pose proof (Z.mod_pos_bound d 2 ltac:(lia)) as R.
  pose proof (Z.div_mod v2 2 ltac:(lia)) as Dv. pose proof (Z.mod_pos_bound v2 2 ltac:(lia)) as Rv.
  rewrite (w64_small (d / 2 + d mod 2)) by (unfold u64; lia).
  assert (RE : 0 <= (2 ^ 97 - v2 * d) / 2 < 2 ^ 64) by (Z.div_mod_to_equations; lia).
  rewrite <- (Z.mod_small _ _ RE). unfold w64.
  assert (C : d mod 2 = 0 \/ d mod 2 = 1) by lia. destruct C as [C|C]; rewrite C in *.
  - change (Z.land (v2 / 2) ((0 - 0) mod 2 ^ 64)) with (Z.land (v2 / 2) 0). rewrite Z.land_0_r, Z.add_0_r.
    rewrite Zminus_mod_idemp_r. replace ((2 ^ 97 - v2 * d) / 2) with (0 - v2 * (d / 2) + 2 ^ 32 * 2 ^ 64).
    { rewrite Z_mod_plus_full. reflexivity. }
    rewrite D at 2. rewrite Z.add_0_r. apply Z.div_unique_pos with (r := 0); lia.
  - change ((0 - 1) mod 2 ^ 64) with (Z.ones 64). rewrite Z.land_ones, (Z.mod_small (v2 / 2)) by lia.
    rewrite Zminus_mod_idemp_r.
    replace ((2 ^ 97 - v2 * d) / 2) with (v2 / 2 - v2 * (d / 2 + 1) + 2 ^ 32 * 2 ^ 64).
    { rewrite Z_mod_plus_full. reflexivity. }
    rewrite D at 2. apply Z.div_unique_pos with (r := v2 mod 2); [lia|].
    lia.
Qed.

Lemma recip_v1 v0 d40 : 0 < v0 < 2 ^ 11 -> 2 ^ 39 < d40 <= 2 ^ 40 ->
  0 < 2 ^ 11 * v0 - v0 * v0 * d40 / 2 ^ 40 - 1 < 2 ^ 21 ->
  (v0 <<64 11) -64 w32 ((w32 (v0 *64 v0) *64 d40) >>64 40) -64 1
  = 2 ^ 11 * v0 - v0 * v0 * d40 / 2 ^ 40 - 1.
Proof.
  intros Hv Hd H. unfold shl64, shr64, sub64, mul64. rewrite Z.shiftl_mul_pow2, Z.shiftr_div_pow2 by lia.
  assert (0 < v0 * v0 <= 2 ^ 11 * 2 ^ 11) by (split; [apply Z.mul_pos_pos | apply Z.mul_le_mono_nonneg]; lia).
  assert (0 < v0 * v0 * d40 <= 2 ^ 22 * 2 ^ 40) by (split; [apply Z.mul_pos_pos | apply Z.mul_le_mono_nonneg]; lia).
  assert (0 <= v0 * v0 * d40 / 2 ^ 40 <= 2 ^ 22) by (split; [apply Z.div_pos | apply Z.div_le_upper_bound]; lia).
  rewrite (w64_small (v0 * 2 ^ 11)), (w64_small (v0 * v0)) by (unfold u64; lia).
  unfold w32. rewrite (Z.mod_small (v0 * v0)) by lia.
  rewrite (w64_small (v0 * v0 * d40)) by (unfold u64; lia). rewrite (Z.mod_small (_ / _)) by lia.
  rewrite (w64_small (_ - _ / _)) by (unfold u64; lia). rewrite w64_small by (unfold u64; lia). lia.
Qed.

Lemma recip_v2 v1 d40 : 0 < v1 < 2 ^ 21 -> 2 ^ 39 < d40 <= 2 ^ 40 -> 0 < 2 ^ 60 - v1 * d40 <= 7 * 2 ^ 40 ->
  (v1 <<64 13) +64 ((v1 *64 (2 ^ 60 -64 (v1 *64 d40))) >>64 47)
  = 2 ^ 13 * v1 + v1 * (2 ^ 60 - v1 * d40) / 2 ^ 47.
Proof.
  intros Hv Hd He. unfold shl64, shr64, sub64, add64, mul64. rewrite Z.shiftl_mul_pow2, Z.shiftr_div_pow2 by lia.
  assert (0 < v1 * d40) by (apply Z.mul_pos_pos; lia).
  rewrite (w64_small (v1 * 2 ^ 13)), (w64_small (v1 * d40)) by (unfold u64; lia).
  rewrite (w64_small (2 ^ 60 - v1 * d40)) by (unfold u64; lia).
  set (e1 := 2 ^ 60 - v1 * d40) in *. clearbody e1.
  assert (0 < v1 * e1 <= 2 ^ 21 * (7 * 2 ^ 40)) by (split; [apply Z.mul_pos_pos | apply Z.mul_le_mono_nonneg]; lia).
  rewrite (w64_small (v1 * e1)) by (unfold u64; lia).
  assert (0 <= v1 * e1 / 2 ^ 47 <= 2 ^ 17) by (split; [apply Z.div_pos | apply Z.div_le_upper_bound]; lia).
  rewrite w64_small by (unfold u64; lia). lia.
Qed.

Lemma recip_v3 v2 e : 0 < v2 < 2 ^ 34 -> u64 e ->
  ((v2 * e / 2 ^ 64) >>64 1) +64 (v2 <<64 31) = w64 (2 ^ 31 * v2 + v2 * e / 2 ^ 65).
Proof.
  intros Hv He. unfold shl64, shr64, add64. rewrite Z.shiftl_mul_pow2, Z.shiftr_div_pow2 by lia.
  rewrite w64_add_r, Z.div_div by lia. f_equal. change (2 ^ 64 * 2 ^ 1) with (2 ^ 65). lia.
Qed.

Lemma recip_v4 V3 d : 2 ^ 63 <= d < 2 ^ 64 -> 2 ^ 64 <= V3 < 2 ^ 65 ->
  (let '(p_lo, p_hi) := umul128 (w64 V3) d in
   w64 V3 -64 w64 (Z.shiftr (w128 (w128 (p_lo + w128 (Z.shiftl p_hi 64)) + d)) 64) -64 d)
  = (V3 - 2 ^ 64 - (V3 - 2 ^ 64 + 1) * d / 2 ^ 64 - d) mod 2 ^ 64.
Proof.
  intros Hd HV. rewrite (w64_shift V3 1) by lia. rewrite Z.mul_1_l.
  set (v3 := V3 - 2 ^ 64). assert (Hv : u64 v3) by (unfold v3, u64; lia). clearbody v3.
  destruct (umul128_spec v3 d Hv) as [-> U]; [unfold u64; lia|].
  pose proof (prod_range v3 d Hv ltac:(unfold u64; lia)) as P. unfold u64 in *.
  rewrite Z.shiftl_mul_pow2 by lia. rewrite (w128_small (_ * 2 ^ 64)) by lia.
  assert ((v3 * d) mod 2 ^ 64 + v3 * d / 2 ^ 64 * 2 ^ 64 = v3 * d) as -> by (pose proof (Z.div_mod (v3 * d) (2 ^ 64)); lia).
  rewrite (w128_small (v3 * d)) by lia. rewrite w128_small, Z.shiftr_div_pow2 by lia.
  replace (v3 * d + d) with ((v3 + 1) * d) by ring.
  unfold sub64. rewrite w64_small with (x := (v3 + 1) * d / 2 ^ 64)
    by (split; [apply Z.div_pos | apply Z.div_lt_upper_bound]; lia).
  unfold w64. rewrite Zminus_mod_idemp_l. reflexivity.
Qed.

Lemma reciprocal_2by1_correct d : 2 ^ 63 <= d < 2 ^ 64 ->
  reciprocal_2by1 d = (2 ^ 128 - 1) / d - 2 ^ 64.
Proof.
  intros Hd. unfold reciprocal_2by1. cbv zeta.
  replace (d >>64 55) with (d / 2 ^ 55) by (symmetry; apply Z.shiftr_div_pow2; lia).
  replace ((d >>64 24) +64 1) with (d / 2 ^ 24 + 1).
  2:{ unfold add64, shr64. rewrite Z.shiftr_div_pow2, w64_small by (unfold u64; Z.div_mod_to_equations; lia). reflexivity. }
  destruct (recip_step0 d Hd) as (H0 & Hd40 & He0).
  set (v0 := aget RECIPROCAL_TABLE (Z.to_nat (d / 2 ^ 55 - 256))) in *.
  destruct (recip_step1 v0 _ H0 Hd40 He0) as (H1 & He1).
  destruct (recip_step2 _ _ d Hd eq_refl Hd40 H1 He1) as (H2 & He2).
  rewrite (recip_v1 v0), (recip_v2 _ _ H1) by assumption.
  set (v2 := 2 ^ 13 * _ + _) in *. clearbody v2. clear H0 He0 H1 He1 Hd40.
  destruct (recip_step3 v2 d Hd H2 He2) as (HK & HV).
  rewrite (recip_e d v2 Hd H2 He2).
  assert (U : u64 ((2 ^ 97 - v2 * d) / 2)) by (unfold u64; Z.div_mod_to_equations; lia).
  destruct (umul128_spec v2 _ ltac:(unfold u64; lia) U) as [-> _].
  rewrite (recip_v3 v2 _ H2 U). set (V3 := 2 ^ 31 * v2 + _) in *. clearbody V3.
  assert (HV' : 2 ^ 64 <= V3 < 2 ^ 65 + 1).
  { split; [lia|]. apply (Z.mul_lt_mono_pos_r d); lia. }
  rewrite recip_v4 by lia. apply recip_step4; lia.
Qed.

(** * 2-by-1 division *)

(** The exact residual [R] of the candidate quotient [q1 + 1], with the
    bounds that make one correction in each direction enough. *)
Lemma udivrem_residual B d v u0 u1 : 0 < B -> B <= 2 * d -> d < B -> 0 <= u0 < B -> 0 <= u1 < d ->
  v = (B * B - 1) / d - B ->
  let Q := (B + v) * u1 + u0 in
  let R := u1 * B + u0 - (Q / B + 1) * d in
  0 <= Q < B * B /\ - d <= R /\ Q mod B - B < R /\ (R < B - d \/ R < Q mod B).
Proof.
  intros HB Hd Hd' H0 H1 Hv Q R.
  pose proof (Z.div_mod (B * B - 1) d ltac:(lia)) as D.
  pose proof (Z.mod_pos_bound (B * B - 1) d ltac:(lia)) as Rd.
  set (rho := (B * B - 1) mod d) in *. clearbody rho.
  assert (Ev : (B + v) * d = B * B - 1 - rho) by (rewrite Hv; lia). clear Hv D.
  assert (Hbv : 0 <= B + v) by nia.
  assert (HQ : 0 <= Q < B * B).
  { unfold Q. split; [nia|]. assert ((B + v) * u1 <= (B + v) * (d - 1)) by (apply Z.mul_le_mono_nonneg_l; lia).
    assert (B <= B + v) by (assert (B * d <= (B + v) * d) by nia; nia). nia. }
  split; [exact HQ|].
  pose proof (Z.div_mod Q B ltac:(lia)) as DQ. pose proof (Z.mod_pos_bound Q B HB) as RQ.
  set (q1 := Q / B) in *. set (q0 := Q mod B) in *. clearbody q1 q0.
  assert (EB : B * R = u1 * (rho + 1) + u0 * (B - d) - (B - q0) * d).
  { unfold R. replace (B * (u1 * B + u0 - (q1 + 1) * d)) with (B * B * u1 + B * u0 - (B * q1 + B) * d) by ring.
    replace (B * q1) with (Q - q0) by lia. unfold Q.
    replace (B * B) with ((B + v) * d + 1 + rho) by lia. ring. }
  assert (X1 : 0 <= u1 * (rho + 1) <= (d - 1) * d) by (split; [nia | apply Z.mul_le_mono_nonneg; lia]).
  assert (X2 : 0 <= u0 * (B - d) <= (B - 1) * (B - d)) by (split; [nia | apply Z.mul_le_mono_nonneg_r; lia]).
  clearbody R Q. clear DQ HQ Ev.
  split; [nia|]. split; [nia|].
  destruct (Z.lt_ge_cases R (B - d)) as [|C1]; [left; assumption|right].
  apply Z.nle_gt; intros C2. nia.
Qed.

Lemma udivrem_2by1_correct u_lo u_hi d v : 2 ^ 63 <= d < 2 ^ 64 -> u64 u_lo -> 0 <= u_hi < d ->
  v = (2 ^ 128 - 1) / d - 2 ^ 64 ->
  udivrem_2by1 u_lo u_hi d v = ((u_hi * 2 ^ 64 + u_lo) / d, (u_hi * 2 ^ 64 + u_lo) mod d).
Proof.
  intros Hd H0 H1 Hv.
  destruct (udivrem_residual (2 ^ 64) d v u_lo u_hi) as (HQ & R1 & R2 & R3); try (unfold u64 in *; lia); [exact Hv|].
  assert (Uv : u64 v).
  { rewrite Hv. split; [|].
    - apply Z.le_0_sub. apply Z.div_le_lower_bound; lia.
    - apply Z.lt_sub_lt_add_r. apply Z.div_lt_upper_bound; lia. }
  unfold udivrem_2by1. destruct (umul128_spec v u_hi Uv) as [-> U]; [unfold u64 in *; lia|].
  pose proof (prod_range v u_hi Uv ltac:(unfold u64 in *; lia)).
  set (Q := (2 ^ 64 + v) * u_hi + u_lo) in *. unfold u64 in *.
  rewrite !Z.shiftl_mul_pow2 by lia. rewrite (w128_small (v * u_hi / 2 ^ 64 * 2 ^ 64)), (w128_small (u_hi * 2 ^ 64)) by lia.
  assert ((v * u_hi) mod 2 ^ 64 + v * u_hi / 2 ^ 64 * 2 ^ 64 = v * u_hi) as ->
    by (pose proof (Z.div_mod (v * u_hi) (2 ^ 64)); lia).
  rewrite (w128_small (v * u_hi)), (w128_small (v * u_hi + u_lo)) by lia.
  replace (v * u_hi + u_lo + u_hi * 2 ^ 64) with Q by (unfold Q; ring).
  rewrite (w128_small Q) by lia. rewrite Z.shiftr_div_pow2 by lia. clearbody Q.
  set (q1 := Q / 2 ^ 64) in *. change (Q mod 2 ^ 64) with (w64 Q) in *. set (q0 := w64 Q) in *.
  assert (Hq1 : 0 <= q1 < 2 ^ 64) by (unfold q1; split; [apply Z.div_pos | apply Z.div_lt_upper_bound]; lia).
  pose proof (w64_range Q) as Hq0. fold q0 in Hq0. unfold u64 in Hq0.
  clearbody q1 q0. set (u := u_hi * 2 ^ 64 + u_lo) in *. set (R := u - (q1 + 1) * d) in *.
  rewrite (w64_small q1) by exact Hq1. unfold add64, sub64, mul64.
  assert (Er : w64 (u_lo - w64 (w64 (q1 + 1) * d)) = w64 R).
  { unfold w64. rewrite Zminus_mod_idemp_r, <- Zminus_mod_idemp_r, Zmult_mod_idemp_l, Zminus_mod_idemp_r.
    unfold R, u. rewrite <- (Z_mod_plus_full (u_lo - _) u_hi). f_equal. ring. }
  rewrite Er. clear Er.
  assert (Hu : 0 <= u < d * 2 ^ 64) by (unfold u; lia).
  assert (Done : forall q r, u = d * q + r -> 0 <= r < d -> (u / d, u mod d) = (q, r) /\ u64 q).
  { intros q r Eu Hr. split.
    - f_equal; symmetry; [apply Z.div_unique_pos with r | apply Z.mod_unique_pos with q]; assumption.
    - assert (q = u / d) as -> by (apply Z.div_unique_pos with r; assumption).
      split; [apply Z.div_pos | apply Z.div_lt_upper_bound]; lia. }
  assert (Eu : u = d * (q1 + 1) + R) by (unfold R; ring). clearbody R.
  destruct (Z.lt_ge_cases R 0) as [Neg|Pos].
  - rewrite (w64_shift R (-1)) by lia. replace (R - -1 * 2 ^ 64) with (R + 2 ^ 64) by ring.
    rewrite (proj2 (Z.gtb_lt _ _)) by lia.
    rewrite (w64_shift (R + 2 ^ 64 + d) 1) by lia. replace (R + 2 ^ 64 + d - 1 * 2 ^ 64) with (R + d) by ring.
    destruct (Z.geb_spec (R + d) d); [lia|].
    destruct (Done q1 (R + d)) as [-> U1]; [lia|lia|]. f_equal.
    unfold w64. rewrite Zminus_mod_idemp_l. replace (q1 + 1 - 1) with q1 by ring. apply w64_small, U1.
  - assert (R < 2 ^ 64) by lia. rewrite (w64_small R) by (unfold u64; lia).
    destruct (Z.gtb_spec R q0) as [G|G].
    + rewrite (w64_small (R + d)) by (unfold u64; lia). destruct (Z.geb_spec (R + d) d); [|lia].
      destruct (Done (q1 + 1) R) as [-> U1]; [lia|lia|]. unfold w64. rewrite Zminus_mod_idemp_l, Zplus_mod_idemp_l.
      f_equal; [replace (q1 + 1 - 1 + 1) with (q1 + 1) by ring; apply w64_small, U1|].
      replace (R + d - d) with R by ring. apply Z.mod_small; lia.
    + destruct (Z.geb_spec R d).
      * destruct (Done (q1 + 1 + 1) (R - d)) as [-> U1]; [lia|lia|]. unfold w64. rewrite Zplus_mod_idemp_l.
        f_equal; [apply w64_small, U1 | apply Z.mod_small; lia].
      * destruct (Done (q1 + 1) R) as [-> U1]; [lia|lia|]. f_equal. apply w64_small, U1.
Qed.

(** * The single-limb path *)

Lemma norm_dividend_spec a s : wf256 a -> 0 <= s < 64 ->
  exists u0 u1 u2 u3 u4, norm_dividend (limbs a) s = [u0; u1; u2; u3; u4] /\
    u64 u0 /\ u64 u1 /\ u64 u2 /\ u64 u3 /\ 0 <= u4 < 2 ^ s /\
    val (U256 u0 u1 u2 u3) + 2 ^ 256 * u4 = val a * 2 ^ s.
Proof.
  intros (L0&L1&L2&L3) Hs. unfold norm_dividend. destruct (Z.eqb_spec s 0) as [->|Hs0].
  - do 5 eexists; split; [reflexivity|]. unfold val, limbs, aget; cbn [nth limb0 limb1 limb2 limb3].
    repeat (split; [assumption || lia|]). lia.
  - limb_facts L0 L1 L2 L3 s. do 5 eexists; split; [reflexivity|].
    unfold val, limbs, aget; cbn [nth limb0 limb1 limb2 limb3]. rewrite !shl64_lor by lia. unfold u64 in *. lia.
Qed.

Lemma divmod_single_limb_correct a d : wf256 a -> 0 < d < 2 ^ 64 ->
  divmod_single_limb (limbs a) d = (of_Z256 (val a / d), of_Z256 (val a mod d)).
Proof.
  intros Ha Hd. unfold divmod_single_limb. cbv zeta.
  destruct (clz64_spec d Hd) as (Hs & Hn). set (s := clz64 d) in *. clearbody s.
  assert (Hp : 0 < 2 ^ s) by (apply Z.pow_pos_nonneg; lia).
  assert (d <<64 s = d * 2 ^ s) as ->
    by (unfold shl64; rewrite Z.shiftl_mul_pow2, w64_small by (unfold u64; lia); reflexivity).
  set (dn := d * 2 ^ s) in *.
  destruct (norm_dividend_spec a s Ha Hs) as (u0&u1&u2&u3&u4&->&U0&U1&U2&U3&U4&E).
  unfold aget; cbn [nth]. rewrite (reciprocal_2by1_correct dn Hn).
  assert (2 ^ s <= dn) by (unfold dn; nia).
  set (v := (2 ^ 128 - 1) / dn - 2 ^ 64).
  rewrite (udivrem_2by1_correct u3 u4 dn v) by (auto; lia).
  set (n3 := u4 * 2 ^ 64 + u3) in *. pose proof (Z.mod_pos_bound n3 dn ltac:(lia)) as M3.
  rewrite (udivrem_2by1_correct u2 _ dn v) by (auto; lia).
  set (n2 := n3 mod dn * 2 ^ 64 + u2) in *. pose proof (Z.mod_pos_bound n2 dn ltac:(lia)) as M2.
  rewrite (udivrem_2by1_correct u1 _ dn v) by (auto; lia).
  set (n1 := n2 mod dn * 2 ^ 64 + u1) in *. pose proof (Z.mod_pos_bound n1 dn ltac:(lia)) as M1.
  rewrite (udivrem_2by1_correct u0 _ dn v) by (auto; lia).
  set (n0 := n1 mod dn * 2 ^ 64 + u0) in *. pose proof (Z.mod_pos_bound n0 dn ltac:(lia)) as M0.
  assert (Range : forall n m u, n = m * 2 ^ 64 + u -> 0 <= m < dn -> u64 u -> u64 (n / dn)).
  { intros n m w En Hm Hw. unfold u64 in *. split; [apply Z.div_pos | apply Z.div_lt_upper_bound]; lia. }
  assert (Wq : wf256 (U256 (n0 / dn) (n1 / dn) (n2 / dn) (n3 / dn)))
    by (apply wf_U256; eapply Range; try reflexivity; auto; lia).
  assert (EQ : val a * 2 ^ s = dn * val (U256 (n0 / dn) (n1 / dn) (n2 / dn) (n3 / dn)) + n0 mod dn).
  { rewrite <- E. unfold val; cbn [limb0 limb1 limb2 limb3].
    assert (D0 : n1 mod dn * 2 ^ 64 + u0 = dn * (n0 / dn) + n0 mod dn) by (apply Z.div_mod; lia).
    assert (D1 : n2 mod dn * 2 ^ 64 + u1 = dn * (n1 / dn) + n1 mod dn) by (apply Z.div_mod; lia).
    assert (D2 : n3 mod dn * 2 ^ 64 + u2 = dn * (n2 / dn) + n2 mod dn) by (apply Z.div_mod; lia).
    assert (D3 : u4 * 2 ^ 64 + u3 = dn * (n3 / dn) + n3 mod dn) by (apply Z.div_mod; lia).
    clearbody n0 n1 n2 n3. lia. }
  change (uint256_from_limbs (n0 / dn) (n1 / dn) (n2 / dn) (n3 / dn)) with (U256 (n0 / dn) (n1 / dn) (n2 / dn) (n3 / dn)).
  set (q := U256 (n0 / dn) (n1 / dn) (n2 / dn) (n3 / dn)) in *. clearbody q.
  assert (Er : (n0 mod dn) mod 2 ^ s = 0).
  { assert (n0 mod dn = val a * 2 ^ s - dn * val q) as -> by lia.
    replace (val a * 2 ^ s - dn * val q) with (0 + (val a - d * val q) * 2 ^ s) by (unfold dn; ring).
    apply Z_mod_plus_full. }
  pose proof (Z.div_mod (n0 mod dn) (2 ^ s) ltac:(lia)) as Dr. rewrite Er, Z.add_0_r in Dr.
  set (rr := n0 mod dn / 2 ^ s) in *. unfold shr64. rewrite Z.shiftr_div_pow2 by lia. fold rr.
  set (m := n0 mod dn) in *. clearbody m rr. unfold dn in *. clear dn M1 M2 M3 v Range.
  assert (Hr : 0 <= rr < d) by nia.
  assert (Ea : val a = d * val q + rr) by (apply (Z.mul_cancel_r _ _ (2 ^ s)); lia).
  pose proof (val_range a Ha).
  assert (Eq : val q = val a / d) by (apply Z.div_unique_pos with rr; assumption).
  assert (Em : rr = val a mod d) by (apply Z.mod_unique_pos with (val q); assumption).
  rewrite <- Eq, <- Em. f_equal.
  - symmetry. apply of_Z256_val, Wq.
  - apply eq_of_Z256; [apply wf_from_u64; unfold u64; lia|]. rewrite val_from_u64. symmetry; apply Z.mod_small; lia.
Qed.
