(* ===== verification/Knuth.v ===== *)
(** Multi-limb division of src/types/uint256.c (Knuth's Algorithm D): the
    quotient digit with its estimate, multiply-and-subtract and add-back, the
    normalisation shifts, [uint256_divmod] with [uint256_div] and
    [uint256_mod], and [uint512_mod_256]. *)
From Stdlib Require Import ZArith Lia List Bool.
From S2P Require Import Prelude Uint256 Multiply Reciprocal.
Import ListNotations.
#[local] Open Scope Z_scope.
#[local] Open Scope word_scope.

(** * Definitions *)

(** [top_limb_index]: the highest non-zero limb, [-1] for zero. *)
Definition top_limb_index (limbs : list Z) : Z :=
  if negb (aget limbs 3 =? 0) then 3
  else if negb (aget limbs 2 =? 0) then 2
  else if negb (aget limbs 1 =? 0) then 1
  else if negb (aget limbs 0 =? 0) then 0
  else -1.

(** The loop of [uint512_mod_256] that finds the same index. *)
Definition div_top_loop (limbs : list Z) : Z :=
  (fix go (i : nat) : Z :=
     match i with
     | O => -1
     | S i' => if negb (aget limbs i' =? 0) then Z.of_nat i' else go i'
     end) 4%nat.

(** Copy and left-shift loops over the first [k] limbs. *)
Definition copy_limbs (src : list Z) (k : nat) (dst : list Z) : list Z :=
  for_ 0 k (fun i d => aset d i (aget src i)) dst.

Definition shl_step (src : list Z) (shift : Z) (i : nat) (s : list Z * Z) : list Z * Z :=
  let '(d, carry) := s in
  (aset d i (Z.lor (aget src i <<64 shift) carry), aget src i >>64 (64 - shift)).

Definition shl_limbs (src : list Z) (shift : Z) (k : nat) (dst : list Z) : list Z * Z :=
  for_ 0 k (shl_step src shift) (dst, 0).

(** D1 for the divisor (limbs [0 .. k-1], rest zero) and for the dividend of
    [k] limbs, which gets one limb more. *)
Definition norm_divisor (src : list Z) (shift : Z) (k : nat) : list Z :=
  if shift =? 0 then copy_limbs src k (repeat 0 4) else fst (shl_limbs src shift k (repeat 0 4)).

Definition norm_limbs (src : list Z) (shift : Z) (k : nat) : list Z :=
  if shift =? 0 then copy_limbs src k (repeat 0 (S k))
  else let '(u, carry) := shl_limbs src shift k (repeat 0 (S k)) in aset u k carry.

(** D3: the refinement loop. [guard] is the extra condition [n >= 2] of
    [uint512_mod_256]; it is [true] in [uint256_divmod]. The loop leaves after
    at most [REFINE_FUEL] rounds, see [refine_fuel]. *)
Definition refine_cond (guard : bool) (q_hat r_hat v2 u2 : Z) : bool :=
  (2 ^ 64 <=? q_hat) || (guard && (w128 (q_hat * v2) >? Z.lor (w128 (Z.shiftl r_hat 64)) u2)).

Fixpoint refine (fuel : nat) (guard : bool) (v1 v2 u2 q_hat r_hat : Z) : Z :=
  match fuel with
  | O => q_hat
  | S fuel' =>
      if refine_cond guard q_hat r_hat v2 u2 then
        let q_hat := w128 (q_hat - 1) in
        let r_hat := w128 (r_hat + v1) in
        if 2 ^ 64 <=? r_hat then q_hat else refine fuel' guard v1 v2 u2 q_hat r_hat
      else q_hat
  end.

Definition REFINE_FUEL : nat := 2.

Definition estimate (guard : bool) (n : nat) (v u : list Z) (j : nat) : Z :=
  let tmp := Z.lor (w128 (Z.shiftl (aget u (j + n)) 64)) (aget u (j + n - 1)) in
  let q_hat := tmp / aget v (n - 1) in
  let r_hat := tmp mod aget v (n - 1) in
  refine REFINE_FUEL guard (aget v (n - 1)) (aget v (n - 2)) (aget u (j + n - 2)) q_hat r_hat.

(** D4: one step of the multiply-and-subtract loop. *)
Definition mulsub_step (q_hat : Z) (v : list Z) (j i : nat) (s : list Z * Z * Z) : list Z * Z * Z :=
  let '(u, carry, borrow) := s in
  let prod := w128 (w128 (q_hat * aget v i) + carry) in
  let carry := Z.shiftr prod 64 in
  let sub := w128 (Z.land prod (2 ^ 64 - 1) + borrow) in
  let diff := w128 (w128 (aget u (j + i) + 2 ^ 64) - sub) in
  (aset u (j + i) (w64 diff), carry, w128 (1 - Z.shiftr diff 64)).

(** D6: one step of the add-back loop. *)
Definition addback_step (v : list Z) (j i : nat) (s : list Z * Z) : list Z * Z :=
  let '(u, add_carry) := s in
  let sum := w128 (w128 (aget u (j + i) + aget v i) + add_carry) in
  (aset u (j + i) (w64 sum), w64 (Z.shiftr sum 64)).

(** D3 - D6 at position [j]: the updated dividend and the quotient digit. *)
Definition knuth_digit (guard : bool) (n : nat) (v : list Z) (j : nat) (u : list Z) : list Z * Z :=
  let q_hat := estimate guard n v u j in
  let '(u, carry, borrow) := for_ 0 n (mulsub_step q_hat v j) (u, 0, 0) in
  let sub_final := w128 (carry + borrow) in
  let diff_final := w128 (w128 (aget u (j + n) + 2 ^ 64) - sub_final) in
  let u := aset u (j + n) (w64 diff_final) in
  let final_borrow := w64 (w128 (1 - Z.shiftr diff_final 64)) in
  let q := w64 q_hat in
  if negb (final_borrow =? 0) then
    let '(u, add_carry) := for_ 0 n (addback_step v j) (u, 0) in
    (aset u (j + n) (aget u (j + n) +64 add_carry), q -64 1)
  else (u, q).

(** D2 - D7: all digits, most significant first. *)
Definition knuth_step (guard : bool) (n : nat) (v : list Z) (j : nat) (s : list Z * list Z) : list Z * list Z :=
  let '(u, q_limbs) := s in
  let '(u, q) := knuth_digit guard n v j u in
  (u, aset q_limbs j q).

Definition knuth_loop (guard : bool) (n m : nat) (v u q_limbs : list Z) : list Z * list Z :=
  for_down (S m) (knuth_step guard n v) (u, q_limbs).

(** D8: the remainder shifted back. *)
Definition denorm_step (u : list Z) (shift : Z) (i : nat) (r : list Z) : list Z :=
  aset r i (Z.lor (aget u i >>64 shift) (aget u (i + 1) <<64 (64 - shift))).

Definition denormalize (u : list Z) (shift : Z) (n : nat) : list Z :=
  if shift =? 0 then copy_limbs u n (repeat 0 4)
  else
    let r := for_ 0 (n - 1) (denorm_step u shift) (repeat 0 4) in
    aset r (n - 1) (aget u (n - 1) >>64 shift).

Definition uint256_divmod (dividend divisor : uint256_t) : uint256_t * uint256_t :=
  if uint256_is_zero divisor then (uint256_zero, uint256_zero)
  else if uint256_lt dividend divisor then (uint256_zero, dividend)
  else if (Z.lor (Z.lor (limb1 dividend) (limb2 dividend)) (limb3 dividend) =? 0) &&
          (Z.lor (Z.lor (limb1 divisor) (limb2 divisor)) (limb3 divisor) =? 0) then
    let q := limb0 dividend / limb0 divisor in
    let r := limb0 dividend mod limb0 divisor in
    (uint256_from_u64 q, uint256_from_u64 r)
  else
    let div_top := top_limb_index (limbs divisor) in
    if div_top =? 0 then divmod_single_limb (limbs dividend) (limb0 divisor)
    else
      let div_top_u := Z.to_nat div_top in
      let shift := clz64 (aget (limbs divisor) div_top_u) in
      let v := norm_divisor (limbs divisor) shift (S div_top_u) in
      let u := norm_limbs (limbs dividend) shift 4 in
      let n := S div_top_u in
      let m := (4 - n)%nat in
      let '(u, q_limbs) := knuth_loop true n m v u (repeat 0 4) in
      let r_limbs := denormalize u shift n in
      (of_limbs q_limbs, of_limbs r_limbs).

Definition uint256_div (a b : uint256_t) : uint256_t := fst (uint256_divmod a b).
Definition uint256_mod (a b : uint256_t) : uint256_t := snd (uint256_divmod a b).

Definition uint512_is_zero (a : uint512_t) : bool :=
  Z.lor (Z.lor (Z.lor (Z.lor (Z.lor (Z.lor (Z.lor (aget a 0) (aget a 1)) (aget a 2)) (aget a 3))
    (aget a 4)) (aget a 5)) (aget a 6)) (aget a 7) =? 0.

(** The quotient digits are not kept by [uint512_mod_256]; the loop's digit
    array is a scratch value here. *)
Definition uint512_mod_256 (a : uint512_t) (b : uint256_t) : uint256_t :=
  if uint256_is_zero b then uint256_zero
  else if uint512_is_zero a then uint256_zero
  else if Z.lor (Z.lor (Z.lor (aget a 4) (aget a 5)) (aget a 6)) (aget a 7) =? 0 then
    uint256_mod (of_limbs a) b
  else
    let div_top := Z.to_nat (div_top_loop (limbs b)) in
    let shift := clz64 (aget (limbs b) div_top) in
    let v := if shift =? 0 then limbs b else norm_divisor (limbs b) shift (S div_top) in
    let u := norm_limbs a shift 8 in
    let n := S div_top in
    let m := (8 - n)%nat in
    let '(u, _) := knuth_loop (2 <=? n)%nat n m v u (repeat 0 9) in
    of_limbs (denormalize u shift n).

(** * The quotient digit *)

Section Estimate.
(** The window [U] over the divisor [V], in base [B], split at the two top
    limbs: [U = (N B + u2) P + ul] and [V = (v1 B + v2) P + vl]. *)
Variables (B P N u2 ul v1 v2 vl : Z).
Hypotheses (HB : 0 < B) (HP : 0 < P) (HN : 0 <= N) (Hu2 : 0 <= u2 < B) (Hul : 0 <= ul < P)
  (Hv1 : B <= 2 * v1 < 2 * B) (Hv2 : 0 <= v2 < B) (Hvl : 0 <= vl < P).

Let U := (N * B + u2) * P + ul.
Let V := (v1 * B + v2) * P + vl.

Hypothesis (HU : U < V * B).

(** A digit too large is detected by the two-limb test. *)
Lemma digit_bound q : 0 <= q -> q * V <= U -> q * (v1 * B + v2) <= N * B + u2.
Proof.
  unfold U, V. intros Hq H. assert (0 <= q * vl) by (apply Z.mul_nonneg_nonneg; lia).
  assert (q * (v1 * B + v2) * P < (N * B + u2 + 1) * P) by lia.
  apply Z.mul_lt_mono_pos_r in H1; lia.
Qed.

Lemma digit_le q : 0 <= q -> q * V <= U -> q * v1 <= N.
Proof.
  intros Hq H. pose proof (digit_bound q Hq H).
  assert (0 <= q * v2) by (apply Z.mul_nonneg_nonneg; lia).
  assert (q * v1 * B < (N + 1) * B) by lia. apply Z.mul_lt_mono_pos_r in H2; lia.
Qed.

Lemma digit_lt q : q * V <= U -> q < B.
Proof.
  intros H. assert (V > 0) by (unfold V; nia). apply Z.nle_gt; intros C.
  assert (B * V <= q * V) by (apply Z.mul_le_mono_nonneg_r; lia). lia.
Qed.

Lemma top_lt : N < v1 * B + B.
Proof.
  unfold U, V in HU. assert (N * B * P < (v1 * B + B) * P * B) as H.
  { assert (0 <= (u2 * P)) by (apply Z.mul_nonneg_nonneg; lia).
    assert (((v1 * B + v2) * P + vl) * B < (v1 * B + B) * P * B).
    { apply Z.mul_lt_mono_pos_r; [lia|]. assert (v2 * P <= (B - 1) * P) by (apply Z.mul_le_mono_nonneg_r; lia). lia. }
    lia. }
  replace (N * B * P) with (N * (B * P)) in H by ring.
  replace ((v1 * B + B) * P * B) with ((v1 * B + B) * (B * P)) in H by ring.
  apply Z.mul_lt_mono_pos_r in H; [exact H|]. apply Z.mul_pos_pos; lia.
Qed.

(** Both exits of the loop leave an estimate at most one too large. *)
Lemma exit_test qh : 0 <= qh < B -> qh * (v1 * B + v2) <= N * B + u2 -> qh * V < U + V.
Proof.
  intros Hq H. unfold U, V.
  assert (qh * (v1 * B + v2) * P <= (N * B + u2) * P) by (apply Z.mul_le_mono_nonneg_r; lia).
  assert (qh * vl <= B * P) by (apply Z.mul_le_mono_nonneg; lia).
  assert (1 * B * P <= v1 * B * P) by (repeat apply Z.mul_le_mono_nonneg_r; lia).
  assert (B * P <= (v1 * B + v2) * P + vl) by (assert (0 <= v2 * P) by (apply Z.mul_nonneg_nonneg; lia); lia).
  assert (0 <= ul) by lia.
  assert (C : vl = 0 \/ 0 < vl) by lia. destruct C as [->|C].
  - rewrite Z.mul_0_r in *. assert (0 < B * P) by (apply Z.mul_pos_pos; lia). lia.
  - assert (qh * vl < B * P); [|lia].
    apply Z.le_lt_trans with ((B - 1) * P); [apply Z.mul_le_mono_nonneg|]; lia.
Qed.

Lemma exit_break qh r : 0 <= qh < B -> B <= r -> qh * v1 + r = N -> qh * V < U + V.
Proof.
  intros Hq Hr E. unfold U, V.
  assert (qh * v2 <= (B - 1) * (B - 1)) by (apply Z.mul_le_mono_nonneg; lia).
  assert (qh * vl <= (B - 1) * P) by (apply Z.mul_le_mono_nonneg; lia).
  assert (qh * v2 * P <= (B - 1) * (B - 1) * P) by (apply Z.mul_le_mono_nonneg_r; lia).
  assert (B * B * P <= r * B * P) by (repeat apply Z.mul_le_mono_nonneg_r; lia).
  assert (0 <= u2 * P) by (apply Z.mul_nonneg_nonneg; lia).
  assert (0 < v1 * B * P) by (repeat apply Z.mul_pos_pos; lia).
  assert (0 <= v2 * P) by (apply Z.mul_nonneg_nonneg; lia).
  assert (0 < B * P) by (apply Z.mul_pos_pos; lia).
  rewrite <- E. lia.
Qed.
End Estimate.

Lemma lor_concat hi lo : u64 hi -> u64 lo -> Z.lor (w128 (Z.shiftl hi 64)) lo = hi * 2 ^ 64 + lo.
Proof.
  unfold u64; intros Hh Hl. rewrite Z.shiftl_mul_pow2, w128_small by lia. apply lor_add; lia.
Qed.

(** ** The loop leaves within two rounds *)

Lemma refine_fuel guard v1 v2 u2 q r k : 2 ^ 63 <= v1 < 2 ^ 64 -> u64 r ->
  refine (REFINE_FUEL + k) guard v1 v2 u2 q r = refine REFINE_FUEL guard v1 v2 u2 q r.
Proof.
  intros Hv Hr. unfold u64 in Hr. cbn [refine REFINE_FUEL Nat.add].
  destruct (refine_cond guard q r v2 u2); [|reflexivity].
  rewrite (w128_small (r + v1)) by lia. destruct (Z.leb_spec (2 ^ 64) (r + v1)); [reflexivity|].
  destruct (refine_cond _ _ (r + v1) _ _); [|reflexivity].
  rewrite (w128_small (r + v1 + v1)) by lia. destruct (Z.leb_spec (2 ^ 64) (r + v1 + v1)); [reflexivity|lia].
Qed.

Lemma refine_spec fuel P N u2 ul v1 v2 vl q qh r :
  let B := 2 ^ 64 in
  let U := (N * B + u2) * P + ul in
  let V := (v1 * B + v2) * P + vl in
  0 < P -> 0 <= N -> u64 u2 -> 0 <= ul < P -> 2 ^ 63 <= v1 < 2 ^ 64 -> u64 v2 -> 0 <= vl < P ->
  U < V * B -> 0 <= q -> q * V <= U ->
  q <= qh < 2 ^ 65 -> u64 r -> qh * v1 + r = N -> 2 ^ 64 <= r + Z.of_nat fuel * 2 ^ 63 ->
  let res := refine fuel true v1 v2 u2 qh r in q <= res < B /\ res * V < U + V.
Proof.
  intros B U V HP HN Hu2 Hul Hv1 Hv2 Hvl HU Hq HqU. subst B.
  assert (HB : 0 < 2 ^ 64) by lia.
  assert (Hv1' : 2 ^ 64 <= 2 * v1 < 2 * 2 ^ 64) by lia.
  assert (QB : q < 2 ^ 64) by (exact (digit_lt _ P N u2 ul v1 v2 vl HB HP HN Hu2 Hul HU q HqU)).
  pose proof (top_lt _ P N u2 ul v1 v2 vl HB HP Hu2 Hul Hv2 Hvl HU) as TL.
  revert qh r; induction fuel as [|fuel IH]; intros qh r Hqh Hr E Hf res; unfold u64 in *; [lia|].
  unfold res; clear res; cbn [refine]. unfold refine_cond. rewrite andb_true_l.
  destruct ((2 ^ 64 <=? qh) || (w128 (qh * v2) >? _)) eqn:C.
  - assert (Hne : q <= qh - 1).
    { apply orb_true_iff in C. destruct (Z.leb_spec (2 ^ 64) qh); [lia|]. destruct C as [C|C]; [discriminate|].
      rewrite lor_concat in C by (unfold u64; lia). pose proof (prod_range qh v2 ltac:(unfold u64; lia) Hv2).
      rewrite w128_small in C by lia. apply Z.gtb_lt in C.
      pose proof (digit_bound _ P N u2 ul v1 v2 vl HP Hul Hvl q Hq HqU) as D.
      apply Z.nlt_ge. intros X. assert (q = qh) by lia. subst qh. lia. }
    rewrite (w128_small (qh - 1)), (w128_small (r + v1)) by lia.
    destruct (Z.leb_spec (2 ^ 64) (r + v1)).
    + assert (QL : qh - 1 < 2 ^ 64) by nia. split; [lia|].
      apply (exit_break (2 ^ 64) P N u2 ul v1 v2 vl HB HP Hu2 Hul Hv1' Hv2 Hvl (qh - 1) (r + v1)); lia.
    + apply IH; try lia.
  - apply orb_false_iff in C as [C1 C2]. apply Z.leb_gt in C1. split; [lia|].
    rewrite lor_concat in C2 by (unfold u64; lia). pose proof (prod_range qh v2 ltac:(unfold u64; lia) Hv2).
    rewrite w128_small in C2 by lia. rewrite Z.gtb_ltb, Z.ltb_ge in C2.
    apply (exit_test (2 ^ 64) P N u2 ul v1 v2 vl HB HP Hul Hv1' Hv2 Hvl); lia.
Qed.

(** The estimate is the digit or one more. *)
Lemma estimate_spec n v u j : (1 <= n)%nat -> u64s u -> u64s v -> 2 ^ 63 <= aget v (n - 1) ->
  let U := seg (2 ^ 64) u j (S n) in
  let V := seg (2 ^ 64) v 0 n in
  U < V * 2 ^ 64 ->
  let qh := estimate (2 <=? n)%nat n v u j in
  0 <= qh < 2 ^ 64 /\ U / V <= qh /\ qh * V < U + V.
Proof.
  intros Hn Uu Uv Hv U V HU qh. unfold qh, estimate; clear qh. rewrite lor_concat by apply Uu.
  pose proof (Uv (n - 1)%nat) as Hv1. unfold u64 in Hv1.
  set (N := aget u (j + n) * 2 ^ 64 + aget u (j + n - 1)).
  assert (HN : 0 <= N < 2 ^ 128) by (unfold N; pose proof (Uu (j + n)%nat); pose proof (Uu (j + n - 1)%nat); unfold u64 in *; lia).
  pose proof (Z.div_mod N (aget v (n - 1)) ltac:(lia)) as D.
  pose proof (Z.mod_pos_bound N (aget v (n - 1)) ltac:(lia)) as R.
  destruct n as [|[|k]]; [lia| |].
  - assert (EV : V = aget v 0) by (unfold V; cbn [seg]; ring).
    assert (EU : U = N) by (unfold U, N; cbn [seg]; replace (j + 1 - 1)%nat with j by lia;
      replace (j + 1)%nat with (S j) by lia; ring).
    cbn [Nat.sub] in *. rewrite EU, EV in *. clear EU EV U V.
    assert (N / aget v 0 < 2 ^ 64) by (apply Z.div_lt_upper_bound; lia).
    cbn [refine REFINE_FUEL refine_cond Nat.leb andb]. unfold refine_cond. cbn [andb].
    rewrite (proj2 (Z.leb_gt _ _)) by lia. cbn [orb].
    split; [split; [apply Z.div_pos; lia | lia]|]. split; [lia|]. nia.
  - replace (S (S k) - 1)%nat with (S k) in * by lia. replace (S (S k) - 2)%nat with k by lia.
    set (v1 := aget v (S k)) in *. set (v2 := aget v k). set (u2 := aget u (j + S (S k) - 2)).
    set (P := (2 ^ 64) ^ Z.of_nat k). assert (HP : 0 < P) by (apply Z.pow_pos_nonneg; lia).
    assert (EV : V = (v1 * 2 ^ 64 + v2) * P + seg (2 ^ 64) v 0 k).
    { unfold V. replace (S (S k)) with (k + 2)%nat by lia. rewrite seg_split. fold P. cbn [seg]. fold v1 v2. simpl Nat.add. fold v1 v2. ring. }
    assert (EU : U = (N * 2 ^ 64 + u2) * P + seg (2 ^ 64) u j k).
    { unfold U. replace (S (S (S k))) with (k + 3)%nat by lia. rewrite seg_split. fold P. cbn [seg].
      unfold N, u2. replace (j + S (S k))%nat with (S (S (j + k))) by lia.
      replace (S (S (j + k)) - 1)%nat with (S (j + k)) by lia. replace (S (S (j + k)) - 2)%nat with (j + k)%nat by lia. ring. }
    assert (VP : 0 < V) by (rewrite EV; pose proof (seg_range (2 ^ 64) v 0 k ltac:(lia) Uv); pose proof (Uv k); unfold u64 in *; nia).
    assert (UP : 0 <= U) by (apply (seg_range (2 ^ 64) u j (S (S (S k)))); [lia|exact Uu]).
    pose proof (Z.div_mod U V ltac:(lia)) as DU. pose proof (Z.mod_pos_bound U V VP) as RU.
    pose proof (Z.div_pos U V UP VP) as QP.
    assert (Q1 : U / V <= N / v1).
    { apply Z.div_le_lower_bound; [lia|]. rewrite Z.mul_comm.
      eapply (digit_le (2 ^ 64) P N u2 (seg (2 ^ 64) u j k) v1 v2 (seg (2 ^ 64) v 0 k)); try lia;
        try (apply seg_range; [lia|assumption]); try apply Uu; try apply Uv. }
    assert (Q2 : N / v1 < 2 ^ 65) by (apply Z.div_lt_upper_bound; lia).
    assert (C : (2 <=? S (S k))%nat = true) by reflexivity. rewrite C.
    pose proof (refine_spec REFINE_FUEL P N u2 (seg (2 ^ 64) u j k) v1 v2 (seg (2 ^ 64) v 0 k) (U / V) (N / v1) (N mod v1)) as S.
    cbv zeta in S. rewrite <- EU, <- EV in S.
    destruct S as [S1 S2]; try (exact HP || lia); try apply Uu; try apply Uv; try (apply seg_range; [lia|assumption]).
    + unfold u64; lia.
    + change (Z.of_nat REFINE_FUEL) with 2. lia.
Qed.

(** ** Multiply and subtract *)

Lemma land_lo x : Z.land x (2 ^ 64 - 1) = w64 x.
Proof. change (2 ^ 64 - 1) with (Z.ones 64). apply Z.land_ones; lia. Qed.

(** [diff] of the borrow chain: the low word and the borrow out. *)
Lemma borrow_word x s : u64 x -> 0 <= s <= 2 ^ 64 ->
  let diff := w128 (w128 (x + 2 ^ 64) - s) in
  let borrow := w128 (1 - Z.shiftr diff 64) in
  u64 (w64 diff) /\ 0 <= borrow <= 1 /\ w64 diff = x - s + 2 ^ 64 * borrow.
Proof.
  unfold u64 at 1; intros Hx Hs. cbv zeta. unfold u64.
  rewrite (w128_small (x + _)), (w128_small (_ - s)), Z.shiftr_div_pow2 by lia.
  pose proof (Z.div_mod (x + 2 ^ 64 - s) (2 ^ 64) ltac:(lia)) as D.
  pose proof (Z.mod_pos_bound (x + 2 ^ 64 - s) (2 ^ 64) ltac:(lia)) as R.
  unfold w64. set (d := (x + 2 ^ 64 - s) / 2 ^ 64) in *. clearbody d.
  assert (0 <= d <= 1) by lia. rewrite w128_small by lia. lia.
Qed.

Lemma mulsub_inv qh v j u0 n : u64 qh -> u64s v -> u64s u0 -> (j + n <= length u0)%nat ->
  let '(u, carry, borrow) := for_ 0 n (mulsub_step qh v j) (u0, 0, 0) in
  length u = length u0 /\ u64s u /\ u64 carry /\ 0 <= borrow <= 1 /\
  (forall k, (k < j \/ j + n <= k)%nat -> aget u k = aget u0 k) /\
  seg (2 ^ 64) u j n = seg (2 ^ 64) u0 j n - qh * seg (2 ^ 64) v 0 n + (2 ^ 64) ^ Z.of_nat n * (carry + borrow).
Proof.
  intros Hq Hv Hu Hl.
  pose (I := fun (i : nat) (s : list Z * Z * Z) => let '(u, carry, borrow) := s in
    length u = length u0 /\ u64s u /\ u64 carry /\ 0 <= borrow <= 1 /\
    (forall k, (k < j \/ j + i <= k)%nat -> aget u k = aget u0 k) /\
    seg (2 ^ 64) u j i = seg (2 ^ 64) u0 j i - qh * seg (2 ^ 64) v 0 i + (2 ^ 64) ^ Z.of_nat i * (carry + borrow)).
  change (I (0 + n)%nat (for_ 0 n (mulsub_step qh v j) (u0, 0, 0))). apply for_inv; unfold I; clear I.
  - repeat split; auto; try lia; try apply Hu. all: simpl; lia.
  - intros i [[u carry] borrow] Hi (L&W&C&Bo&O&E). unfold mulsub_step.
    pose proof (prod_range qh (aget v i) Hq (Hv i)) as PR.
    rewrite (w128_small (qh * _)), (w128_small (_ + carry)) by (unfold u64 in *; lia).
    destruct (split128 (qh * aget v i + carry)) as (EP & R1 & R2); [unfold u64 in *; lia|].
    rewrite land_lo. set (lo := w64 (qh * aget v i + carry)) in *. set (hi := Z.shiftr (qh * aget v i + carry) 64) in *.
    rewrite (w128_small (lo + borrow)) by (unfold u64 in *; lia).
    destruct (borrow_word (aget u (j + i)) (lo + borrow)) as (B1&B2&B3); [apply W | unfold u64 in *; lia|].
    set (diff := w128 (w128 (aget u (j + i) + 2 ^ 64) - (lo + borrow))) in *. clearbody diff lo hi.
    split; [autorewrite with words; exact L|]. split; [auto with words|]. split; [exact R2|]. split; [exact B2|].
    split; [intros k Hk; rewrite aget_aset_ne by lia; apply O; lia|].
    rewrite !seg_last, seg_aset_out by lia. rewrite aget_aset_eq by lia. rewrite E, B3, <- (O (j + i)%nat) by lia.
    rewrite Nat2Z.inj_succ, Z.pow_succ_r by lia. simpl Nat.add.
    generalize ((2 ^ 64) ^ Z.of_nat i). intros Bi. 
    replace (qh * (seg (2 ^ 64) v 0 i + Bi * aget v i)) with (qh * seg (2 ^ 64) v 0 i + Bi * (qh * aget v i)) by ring.
    replace (qh * aget v i) with (lo + 2 ^ 64 * hi - carry) by lia. ring.
Qed.

Lemma addback_inv v j u0 n : u64s v -> u64s u0 -> (j + n <= length u0)%nat ->
  let '(u, c) := for_ 0 n (addback_step v j) (u0, 0) in
  length u = length u0 /\ u64s u /\ 0 <= c <= 1 /\
  (forall k, (k < j \/ j + n <= k)%nat -> aget u k = aget u0 k) /\
  seg (2 ^ 64) u j n = seg (2 ^ 64) u0 j n + seg (2 ^ 64) v 0 n - (2 ^ 64) ^ Z.of_nat n * c.
Proof.
  intros Hv Hu Hl.
  pose (I := fun (i : nat) (s : list Z * Z) => let '(u, c) := s in
    length u = length u0 /\ u64s u /\ 0 <= c <= 1 /\
    (forall k, (k < j \/ j + i <= k)%nat -> aget u k = aget u0 k) /\
    seg (2 ^ 64) u j i = seg (2 ^ 64) u0 j i + seg (2 ^ 64) v 0 i - (2 ^ 64) ^ Z.of_nat i * c).
  change (I (0 + n)%nat (for_ 0 n (addback_step v j) (u0, 0))). apply for_inv; unfold I; clear I.
  - repeat split; auto; try lia; try apply Hu. all: simpl; lia.
  - intros i [u c] Hi (L&W&C&O&E). unfold addback_step.
    pose proof (W (j + i)%nat) as W1. pose proof (Hv i) as V1. unfold u64 in W1, V1.
    rewrite (w128_small (aget u _ + _)), (w128_small (_ + c)) by lia.
    destruct (split128 (aget u (j + i) + aget v i + c)) as (EP & R1 & R2); [lia|].
    set (lo := w64 (aget u (j + i) + aget v i + c)) in *. set (hi := Z.shiftr (aget u (j + i) + aget v i + c) 64) in *.
    rewrite (w64_small hi) by exact R2. clearbody lo hi. unfold u64 in R1, R2.
    split; [autorewrite with words; exact L|]. split; [auto with words|]. split; [lia|].
    split; [intros k Hk; rewrite aget_aset_ne by lia; apply O; lia|].
    rewrite !seg_last, seg_aset_out by lia. rewrite aget_aset_eq by lia. rewrite E, <- (O (j + i)%nat) by lia.
    rewrite Nat2Z.inj_succ, Z.pow_succ_r by lia. simpl Nat.add.
    generalize ((2 ^ 64) ^ Z.of_nat i). intros Bi.
    replace lo with (aget u (j + i) + aget v i + c - 2 ^ 64 * hi) by lia. ring.
Qed.

(** Division of one window: the digit is the quotient, the window becomes the
    remainder, the other limbs stay. *)
Lemma knuth_digit_spec n v u j : (1 <= n)%nat -> (j + n < length u)%nat -> u64s u -> u64s v ->
  2 ^ 63 <= aget v (n - 1) ->
  let U := seg (2 ^ 64) u j (S n) in
  let V := seg (2 ^ 64) v 0 n in
  U < V * 2 ^ 64 ->
  let '(u', q) := knuth_digit (2 <=? n)%nat n v j u in
  length u' = length u /\ u64s u' /\ (forall k, (k < j \/ j + n < k)%nat -> aget u' k = aget u k) /\
  q = U / V /\ u64 q /\ seg (2 ^ 64) u' j (S n) = U mod V.
Proof.
  intros Hn Hl Uu Uv Hv U V HU. unfold knuth_digit.
  destruct (estimate_spec n v u j Hn Uu Uv Hv HU) as (Q0 & Q1 & Q2).
  set (qh := estimate _ n v u j) in *. fold U V in Q1, Q2. clearbody qh.
  pose proof (mulsub_inv qh v j u n Q0 Uv Uu ltac:(lia)) as M.
  destruct (for_ 0 n (mulsub_step qh v j) (u, 0, 0)) as [[u1 carry] borrow].
  destruct M as (L1&W1&C1&B1&O1&E1). unfold u64 in C1.
  rewrite (w128_small (carry + borrow)) by lia.
  destruct (borrow_word (aget u1 (j + n)) (carry + borrow)) as (D1&D2&D3); [apply W1|lia|].
  set (diff := w128 (w128 (aget u1 (j + n) + 2 ^ 64) - (carry + borrow))) in *.
  set (fb := w128 (1 - Z.shiftr diff 64)) in *. rewrite (w64_small fb) by (unfold u64; lia).
  set (u2 := aset u1 (j + n) (w64 diff)).
  assert (L2 : length u2 = length u) by (unfold u2; rewrite length_aset; exact L1).
  assert (W2 : u64s u2) by (unfold u2; auto with words).
  assert (O2 : forall k, (k < j \/ j + n < k)%nat -> aget u2 k = aget u k)
    by (intros k Hk; unfold u2; rewrite aget_aset_ne by lia; apply O1; lia).
  assert (E2 : seg (2 ^ 64) u2 j (S n) = U - qh * V + (2 ^ 64) ^ Z.of_nat (S n) * fb).
  { unfold u2, U, V. rewrite !seg_last, seg_aset_out, aget_aset_eq by lia. rewrite E1, D3, (O1 (j + n)%nat) by lia.
    rewrite Nat2Z.inj_succ, Z.pow_succ_r by lia. ring. }
  pose proof (seg_range (2 ^ 64) u2 j (S n) ltac:(lia) W2) as R2.
  pose proof (seg_range (2 ^ 64) u j (S n) ltac:(lia) Uu) as RU. fold U in RU.
  pose proof (seg_range (2 ^ 64) v 0 n ltac:(lia) Uv) as RV. fold V in RV.
  assert (VP : 0 < V).
  { apply Z.nle_gt; intros X. assert (V = 0) by lia. rewrite H in HU. lia. }
  pose proof (Z.div_mod U V ltac:(lia)) as DU. pose proof (Z.mod_pos_bound U V VP) as MU.
  assert (PB : (2 ^ 64) ^ Z.of_nat (S n) = 2 ^ 64 * (2 ^ 64) ^ Z.of_nat n) by (rewrite Nat2Z.inj_succ, Z.pow_succ_r by lia; reflexivity).
  clearbody fb u2. clear D3 E1.
  assert (HQ : qh = U / V \/ qh = U / V + 1).
  { assert (qh * V < (U / V + 2) * V) by lia. apply Z.mul_lt_mono_pos_r in H; lia. }
  destruct (Z.eqb_spec fb 0) as [F|F]; cbn [negb].
  - rewrite F, Z.mul_0_r, Z.add_0_r in E2. destruct HQ as [HQ|HQ]; [|rewrite HQ in E2; lia].
    rewrite w64_small by exact Q0. repeat split; auto; try lia; try apply W2.
  - assert (F1 : fb = 1) by lia. rewrite F1, Z.mul_1_r in E2. destruct HQ as [HQ|HQ]; [rewrite HQ in E2; lia|].
    pose proof (addback_inv v j u2 n Uv W2 ltac:(lia)) as A.
    destruct (for_ 0 n (addback_step v j) (u2, 0)) as [u3 ac]. destruct A as (L3&W3&C3&O3&E3).
    split; [rewrite length_aset; lia|]. split; [apply u64s_aset; auto; apply w64_range|].
    split; [intros k Hk; rewrite aget_aset_ne, O3, O2 by lia; reflexivity|].
    rewrite HQ, (w64_small (U / V + 1)) by (unfold u64; lia).
    replace (U / V + 1 -64 1) with (U / V) by (unfold sub64; replace (U / V + 1 - 1) with (U / V) by ring;
      rewrite w64_small; [reflexivity|unfold u64; lia]).
    split; [reflexivity|]. split; [unfold u64; lia|].
    rewrite seg_last, seg_aset_out, aget_aset_eq by lia. rewrite E3. rewrite (O3 (j + n)%nat) by lia.
    fold V. rewrite seg_last in E2. unfold add64. destruct (w64_exists (aget u2 (j + n) + ac)) as [i Hi].
    assert (X : seg (2 ^ 64) u2 j n + V - (2 ^ 64) ^ Z.of_nat n * ac + (2 ^ 64) ^ Z.of_nat n * w64 (aget u2 (j + n) + ac)
      = U mod V + (2 ^ 64) ^ Z.of_nat (S n) * (1 + i)).
    { rewrite Hi. replace (U mod V) with (U - V * (U / V)) by lia. rewrite HQ in E2. rewrite PB in *. nia. }
    rewrite X. enough (1 + i = 0) by (rewrite H; lia).
    assert (R3 : 0 <= seg (2 ^ 64) u3 j n < (2 ^ 64) ^ Z.of_nat n) by (apply seg_range; [lia|exact W3]).
    pose proof (w64_range (aget u2 (j + n) + ac)) as R4. unfold u64 in R4. fold V in E3. rewrite <- E3 in X.
    set (Bn := (2 ^ 64) ^ Z.of_nat n) in *. rewrite PB in X. clearbody Bn. clear - X R3 R4 MU RV. nia.
Qed.

(** * All digits *)

Lemma seg_above_zero B u k m : (forall i, (m <= i)%nat -> aget u i = 0) -> (m <= k)%nat -> seg B u 0 k = seg B u 0 m.
Proof.
  intros H Hk. replace k with (m + (k - m))%nat by lia. rewrite seg_split, (seg_zero _ _ (0 + m)); [ring|].
  intros; apply H; lia.
Qed.

(** Long division: the dividend of [m + n + 1] limbs, whose top [n] limbs are
    below the divisor, becomes its remainder, and the digits are the quotient. *)
Lemma knuth_loop_spec n m v u0 q0 : (1 <= n)%nat -> length u0 = (m + n + 1)%nat -> (m < length q0)%nat ->
  u64s u0 -> u64s v -> u64s q0 -> 2 ^ 63 <= aget v (n - 1) ->
  (forall i, (m < i)%nat -> aget q0 i = 0) ->
  let V := seg (2 ^ 64) v 0 n in
  let U := seg (2 ^ 64) u0 0 (m + n + 1) in
  seg (2 ^ 64) u0 (m + 1) n < V ->
  let '(u, q) := knuth_loop (2 <=? n)%nat n m v u0 q0 in
  length u = length u0 /\ u64s u /\ u64s q /\ (forall i, (m < i)%nat -> aget q i = 0) /\
  seg (2 ^ 64) q 0 (m + 1) = U / V /\ seg (2 ^ 64) u 0 n = U mod V.
Proof.
  intros Hn Lu Lq Wu Wv Wq Hv Zq V U HU.
  pose (I := fun (j : nat) (s : list Z * list Z) => let '(u, q) := s in
    length u = length u0 /\ length q = length q0 /\ u64s u /\ u64s q /\ (forall i, (m < i)%nat -> aget q i = 0) /\
    seg (2 ^ 64) u j n < V /\
    seg (2 ^ 64) u 0 (j + n) + V * ((2 ^ 64) ^ Z.of_nat j * seg (2 ^ 64) q j (m + 1 - j)) = U).
  assert (F : I 0%nat (knuth_loop (2 <=? n)%nat n m v u0 q0)).
  { unfold knuth_loop. apply for_down_inv; unfold I; clear I.
    - replace (S m + n)%nat with (m + n + 1)%nat by lia. replace (m + 1 - S m)%nat with 0%nat by lia.
      replace (S m) with (m + 1)%nat by lia. cbn [seg]. repeat split; auto; try apply Wu; try apply Wq. unfold U. lia.
    - intros j [u q] Hj (L1&L2&W1&W2&Z2&E1&E2). unfold knuth_step.
      pose proof (Wv (n - 1)%nat) as Wv1. pose proof (seg_range (2 ^ 64) v 0 n ltac:(lia) Wv) as RV. fold V in RV.
      assert (HW : seg (2 ^ 64) u j (S n) < V * 2 ^ 64) by (cbn [seg]; pose proof (W1 j); unfold u64 in *; lia).
      pose proof (knuth_digit_spec n v u j Hn ltac:(lia) W1 Wv Hv HW) as D.
      destruct (knuth_digit _ n v j u) as [u' d]. destruct D as (L3&W3&O3&Ed&Wd&Er). fold V in Ed, Er.
      set (W := seg (2 ^ 64) u j (S n)) in *.
      pose proof (seg_range (2 ^ 64) u (S j) n ltac:(lia) W1) as RS.
      assert (VP : 0 < V) by lia.
      pose proof (Z.div_mod W V ltac:(lia)) as DW. pose proof (Z.mod_pos_bound W V VP) as MW.
      assert (Er' : seg (2 ^ 64) u' j n = W mod V).
      { rewrite seg_last in Er. pose proof (seg_range (2 ^ 64) u' j n ltac:(lia) W3).
        pose proof (W3 (j + n)%nat). unfold u64 in *.
        assert (0 < (2 ^ 64) ^ Z.of_nat n) by lia. assert (aget u' (j + n) = 0) by nia. rewrite H2 in Er. lia. }
      split; [lia|]. split; [rewrite length_aset; lia|]. split; [exact W3|]. split; [auto with words|].
      split; [intros i Hi; rewrite aget_aset_ne by lia; auto|]. split; [lia|].
      rewrite <- E2. rewrite seg_split, Nat.add_0_l, Er'.
      replace (S j + n)%nat with (j + S n)%nat by lia. rewrite seg_split, Nat.add_0_l. fold W.
      rewrite (seg_ext _ u' u 0 j) by (intros; apply O3; lia).
      replace (m + 1 - j)%nat with (S (m + 1 - S j)) by lia. cbn [seg].
      rewrite seg_aset_out, aget_aset_eq by lia. rewrite Nat2Z.inj_succ, Z.pow_succ_r by lia.
      rewrite DW at 2. rewrite Ed. ring. }
  unfold I in F. destruct (knuth_loop _ n m v u0 q0) as [u q]. destruct F as (L1&L2&W1&W2&Z2&E1&E2).
  rewrite Nat.add_0_l in E2. rewrite Nat.sub_0_r, Z.pow_0_r, Z.mul_1_l in E2.
  pose proof (seg_range (2 ^ 64) u 0 n ltac:(lia) W1) as R. repeat split; auto; try apply W1; try apply W2.
  - apply Z.div_unique_pos with (seg (2 ^ 64) u 0 n); lia.
  - apply Z.mod_unique_pos with (seg (2 ^ 64) q 0 (m + 1)); lia.
Qed.

(** * Normalisation *)

Lemma u64s_repeat0 n : u64s (repeat 0 n).
Proof. apply u64s_Forall, Forall_forall. intros x ->%repeat_spec. apply u64_0. Qed.

Lemma aget_repeat0 n i : aget (repeat 0 n) i = 0.
Proof. unfold aget. apply nth_repeat. Qed.

Lemma copy_limbs_spec src k dst : u64s src -> u64s dst -> (k <= length dst)%nat ->
  let d := copy_limbs src k dst in
  length d = length dst /\ u64s d /\ (forall i, (i < k)%nat -> aget d i = aget src i) /\
  (forall i, (k <= i)%nat -> aget d i = aget dst i).
Proof.
  intros Hs Hd Hk d.
  pose (I := fun (k : nat) (d : list Z) => length d = length dst /\ u64s d /\
    (forall i, (i < k)%nat -> aget d i = aget src i) /\ (forall i, (k <= i)%nat -> aget d i = aget dst i)).
  change (I (0 + k)%nat d). unfold d, copy_limbs. apply for_inv; unfold I; clear I d.
  - repeat split; auto; try apply Hd; lia.
  - intros i d Hi (L&W&E1&E2). split; [autorewrite with words; exact L|]. split; [auto with words|].
    split; intros x Hx.
    + destruct (Nat.eq_dec i x) as [->|]; [apply aget_aset_eq; lia | rewrite aget_aset_ne by lia; apply E1; lia].
    + rewrite aget_aset_ne by lia; apply E2; lia.
Qed.

Lemma shl_limbs_spec src s k dst : 0 < s < 64 -> u64s src -> u64s dst -> (k <= length dst)%nat ->
  let '(d, carry) := shl_limbs src s k dst in
  length d = length dst /\ u64s d /\ 0 <= carry < 2 ^ s /\ (forall i, (k <= i)%nat -> aget d i = aget dst i) /\
  seg (2 ^ 64) d 0 k + (2 ^ 64) ^ Z.of_nat k * carry = seg (2 ^ 64) src 0 k * 2 ^ s.
Proof.
  intros Hs Wsrc Wd Hk. assert (0 < 2 ^ s) by (apply Z.pow_pos_nonneg; lia).
  pose (I := fun (k : nat) (st : list Z * Z) => let '(d, carry) := st in
    length d = length dst /\ u64s d /\ 0 <= carry < 2 ^ s /\ (forall i, (k <= i)%nat -> aget d i = aget dst i) /\
    seg (2 ^ 64) d 0 k + (2 ^ 64) ^ Z.of_nat k * carry = seg (2 ^ 64) src 0 k * 2 ^ s).
  change (I (0 + k)%nat (shl_limbs src s k dst)). unfold shl_limbs. apply for_inv; unfold I; clear I.
  - repeat split; auto; try apply Wd; try lia. all: simpl; lia.
  - intros i [d carry] Hi (L&W&C&O&E). unfold shl_step.
    rewrite shl64_lor by lia.
    assert (Wx : u64 ((aget src i <<64 s) + carry)).
    { rewrite <- shl64_lor by lia. apply u64_lor; [apply w64_range|]. unfold u64.
      assert (2 ^ s < 2 ^ 64) by (apply Z.pow_lt_mono_r; lia). lia. }
    split; [autorewrite with words; exact L|]. split; [auto with words|].
    assert (Hh : 0 <= aget src i >>64 (64 - s) < 2 ^ s)
      by (apply shr_range; [lia | replace (64 - s + s) with 64 by lia; apply Wsrc | lia]).
    split; [exact Hh|]. split; [intros x Hx; rewrite aget_aset_ne by lia; apply O; lia|].
    rewrite !seg_last, seg_aset_out, !Nat.add_0_l, aget_aset_eq by lia.
    rewrite Z.mul_add_distr_r, <- E, Nat2Z.inj_succ, Z.pow_succ_r by lia.
    pose proof (shl_lo_hi (aget src i) s ltac:(lia)) as SH. rewrite Z.shiftl_mul_pow2 in SH at 1 by lia.
    unfold shl64, shr64. rewrite <- !Z.mul_assoc, SH. ring.
Qed.

(** The significant limbs of the divisor, shifted so that the top bit is set. *)
Lemma norm_divisor_spec src k : (1 <= k <= 4)%nat -> u64s src -> aget src (k - 1) <> 0 ->
  let s := clz64 (aget src (k - 1)) in
  let v := norm_divisor src s k in
  u64s v /\ 2 ^ 63 <= aget v (k - 1) /\ seg (2 ^ 64) v 0 k = seg (2 ^ 64) src 0 k * 2 ^ s.
Proof.
  intros Hk Ws Hnz s v. pose proof (Ws (k - 1)%nat) as W1. unfold u64 in W1.
  destruct (clz64_spec (aget src (k - 1)) ltac:(lia)) as [Hs Ht]. fold s in Hs, Ht.
  assert (E : u64s v /\ seg (2 ^ 64) v 0 k = seg (2 ^ 64) src 0 k * 2 ^ s).
  { unfold v, norm_divisor. destruct (Z.eqb_spec s 0) as [E|E].
    - destruct (copy_limbs_spec src k (repeat 0 4) Ws (u64s_repeat0 4)) as (_&W&E1&_); [rewrite repeat_length; lia|].
      split; [exact W|]. rewrite E, Z.mul_1_r. apply seg_ext. intros; apply E1; lia.
    - pose proof (shl_limbs_spec src s k (repeat 0 4) ltac:(lia) Ws (u64s_repeat0 4) ltac:(rewrite repeat_length; lia)) as H.
      destruct (shl_limbs _ _ _ _) as [d c]. destruct H as (_&W&C&_&E1). cbn [fst]. split; [exact W|].
      pose proof (seg_range (2 ^ 64) d 0 k ltac:(lia) W) as R.
      assert (U : seg (2 ^ 64) src 0 k * 2 ^ s < (2 ^ 64) ^ Z.of_nat k).
      { replace k with (S (k - 1)) by lia. rewrite seg_last, Nat.add_0_l, Nat2Z.inj_succ, Z.pow_succ_r by lia.
        pose proof (seg_range (2 ^ 64) src 0 (k - 1) ltac:(lia) Ws) as Rs.
        set (P := (2 ^ 64) ^ Z.of_nat (k - 1)) in *. set (x := seg (2 ^ 64) src 0 (k - 1)) in *.
        assert (D : aget src (k - 1) * 2 ^ s + 2 ^ s <= 2 ^ 64).
        { assert (S1 : 2 ^ 64 = 2 ^ (64 - s) * 2 ^ s) by (rewrite <- Z.pow_add_r by lia; f_equal; lia).
          assert (0 < 2 ^ s) by (apply Z.pow_pos_nonneg; lia).
          replace (aget src (k - 1) * 2 ^ s + 2 ^ s) with ((aget src (k - 1) + 1) * 2 ^ s) by ring.
          rewrite S1 in *. apply Z.mul_le_mono_nonneg_r; [lia|]. destruct Ht as [_ Ht].
          apply Z.mul_lt_mono_pos_r in Ht; lia. }
        assert (0 < 2 ^ s) by (apply Z.pow_pos_nonneg; lia).
        assert ((aget src (k - 1) * 2 ^ s + 2 ^ s) * P <= 2 ^ 64 * P) by (apply Z.mul_le_mono_nonneg_r; lia).
        assert (x * 2 ^ s < P * 2 ^ s) by (apply Z.mul_lt_mono_pos_r; lia). lia. }
      assert (0 < (2 ^ 64) ^ Z.of_nat k) by (apply Z.pow_pos_nonneg; lia).
      assert (c = 0) by nia. rewrite H0, Z.mul_0_r, Z.add_0_r in E1. exact E1. }
  destruct E as [W E]. split; [exact W|]. split; [|exact E].
  apply Z.nlt_ge; intros C. revert E. replace k with (S (k - 1)) by lia. rewrite !seg_last, !Nat.add_0_l.
  replace (S (k - 1) - 1)%nat with (k - 1)%nat in * by lia.
  pose proof (seg_range (2 ^ 64) v 0 (k - 1) ltac:(lia) W) as R1. pose proof (seg_range (2 ^ 64) src 0 (k - 1) ltac:(lia) Ws) as R2.
  set (P := (2 ^ 64) ^ Z.of_nat (k - 1)) in *. assert (0 < 2 ^ s) by (apply Z.pow_pos_nonneg; lia).
  assert (P * aget v (k - 1) <= P * (2 ^ 63 - 1)) by (apply Z.mul_le_mono_nonneg_l; lia).
  assert (P * 2 ^ 63 <= P * (aget src (k - 1) * 2 ^ s)) by (apply Z.mul_le_mono_nonneg_l; lia).
  assert (0 <= seg (2 ^ 64) src 0 (k - 1) * 2 ^ s) by (apply Z.mul_nonneg_nonneg; lia). lia.
Qed.

Lemma norm_limbs_spec src s k : 0 <= s < 64 -> u64s src ->
  let u := norm_limbs src s k in
  length u = S k /\ u64s u /\ aget u k < 2 ^ s /\ seg (2 ^ 64) u 0 (S k) = seg (2 ^ 64) src 0 k * 2 ^ s.
Proof.
  intros Hs Ws u. unfold u, norm_limbs. destruct (Z.eqb_spec s 0) as [E|E].
  - destruct (copy_limbs_spec src k (repeat 0 (S k)) Ws (u64s_repeat0 _)) as (L&W&E1&E2); [rewrite repeat_length; lia|].
    assert (Z0 : aget (copy_limbs src k (repeat 0 (S k))) k = 0) by (rewrite E2 by lia; apply aget_repeat0).
    rewrite repeat_length in L. split; [exact L|]. split; [exact W|]. split; [rewrite Z0, E; reflexivity|].
    rewrite seg_last, Nat.add_0_l, Z0, E, Z.mul_1_r, Z.mul_0_r, Z.add_0_r. apply seg_ext; intros; apply E1; lia.
  - pose proof (shl_limbs_spec src s k (repeat 0 (S k)) ltac:(lia) Ws (u64s_repeat0 _) ltac:(rewrite repeat_length; lia)) as H.
    destruct (shl_limbs _ _ _ _) as [d c]. destruct H as (L&W&C&_&E1). rewrite repeat_length in L.
    assert (2 ^ s < 2 ^ 64) by (apply Z.pow_lt_mono_r; lia).
    split; [rewrite length_aset; exact L|]. split; [apply u64s_aset; [exact W|unfold u64; lia]|].
    rewrite seg_last, Nat.add_0_l, seg_aset_out, aget_aset_eq by lia. split; [lia|exact E1].
Qed.

Lemma denormalize_spec u s n R : (1 <= n <= 4)%nat -> 0 <= s < 64 -> u64s u -> seg (2 ^ 64) u 0 n = R * 2 ^ s ->
  let r := denormalize u s n in u64s r /\ seg (2 ^ 64) r 0 4 = R.
Proof.
  intros Hn Hs Wu E r. unfold r, denormalize; clear r. destruct (Z.eqb_spec s 0) as [E0|E0].
  - destruct (copy_limbs_spec u n (repeat 0 4) Wu (u64s_repeat0 _)) as (L&W&E1&E2); [rewrite repeat_length; lia|].
    split; [exact W|]. rewrite (seg_above_zero _ _ 4 n); [|intros; rewrite E2 by lia; apply aget_repeat0|lia].
    rewrite E0, Z.mul_1_r in E. rewrite <- E. apply seg_ext; intros; apply E1; lia.
  - assert (Hp : 0 < 2 ^ s) by (apply Z.pow_pos_nonneg; lia).
    assert (S1 : 2 ^ 64 = 2 ^ (64 - s) * 2 ^ s) by (rewrite <- Z.pow_add_r by lia; f_equal; lia).
    pose (I := fun (i : nat) (r : list Z) => length r = 4%nat /\ u64s r /\
      (forall k, (i <= k)%nat -> aget r k = 0) /\
      2 ^ s * seg (2 ^ 64) r 0 i + aget u 0 mod 2 ^ s = seg (2 ^ 64) u 0 i + (2 ^ 64) ^ Z.of_nat i * (aget u i mod 2 ^ s)).
    assert (F : I (0 + (n - 1))%nat (for_ 0 (n - 1) (denorm_step u s) (repeat 0 4))).
    { apply for_inv; unfold I; clear I.
      - repeat split; try apply u64s_repeat0. intros; apply aget_repeat0. cbn [seg Z.of_nat]. lia.
      - intros i r Hi (L&W&O&Er). unfold denorm_step. rewrite shr64_lor by (lia || apply Wu).
        pose proof (Wu i) as Wi. unfold u64 in Wi.
        assert (X : 2 ^ s * ((aget u i + 2 ^ 64 * aget u (i + 1)) / 2 ^ s mod 2 ^ 64) + aget u i mod 2 ^ s
          = aget u i + 2 ^ 64 * (aget u (i + 1) mod 2 ^ s)).
        { assert (D : (aget u i + 2 ^ 64 * aget u (i + 1)) / 2 ^ s = aget u i / 2 ^ s + 2 ^ (64 - s) * aget u (i + 1)).
          { rewrite S1. replace (2 ^ (64 - s) * 2 ^ s * aget u (i + 1)) with (2 ^ (64 - s) * aget u (i + 1) * 2 ^ s) by ring.
            rewrite Z.div_add by lia. reflexivity. }
          rewrite D. pose proof (Z.div_mod (aget u i) (2 ^ s) ltac:(lia)) as D1.
          pose proof (Z.div_mod (aget u (i + 1)) (2 ^ s) ltac:(lia)) as D2.
          pose proof (Z.mod_pos_bound (aget u (i + 1)) (2 ^ s) Hp) as M2.
          set (a := aget u i / 2 ^ s) in *. set (b := aget u (i + 1) mod 2 ^ s) in *.
          assert (Ha : 0 <= a < 2 ^ (64 - s)).
          { unfold a. split; [apply Z.div_pos; lia | apply Z.div_lt_upper_bound; lia]. }
          assert (M : (a + 2 ^ (64 - s) * aget u (i + 1)) mod 2 ^ 64 = a + 2 ^ (64 - s) * b).
          { set (q2 := aget u (i + 1) / 2 ^ s) in *.
            replace (2 ^ (64 - s) * aget u (i + 1)) with (2 ^ (64 - s) * b + q2 * 2 ^ 64) by (rewrite S1, D2; ring).
            rewrite Z.add_assoc, Z_mod_plus_full. apply Z.mod_small. split; [nia|].
            assert (2 ^ (64 - s) * b <= 2 ^ (64 - s) * (2 ^ s - 1)) by (apply Z.mul_le_mono_nonneg_l; lia). lia. }
          rewrite M, S1. lia. }
        set (y := _ mod 2 ^ 64) in *. assert (Wy : u64 y) by (apply Z.mod_pos_bound; lia). clearbody y.
        split; [rewrite length_aset; exact L|]. split; [auto with words|].
        split; [intros k Hk; rewrite aget_aset_ne by lia; apply O; lia|].
        rewrite !seg_last, !Nat.add_0_l, seg_aset_out, aget_aset_eq, Nat2Z.inj_succ, Z.pow_succ_r by lia.
        replace (S i) with (i + 1)%nat by lia. set (P := (2 ^ 64) ^ Z.of_nat i) in *. 
        replace (2 ^ s * (seg (2 ^ 64) r 0 i + P * y)) with (2 ^ s * seg (2 ^ 64) r 0 i + P * (2 ^ s * y)) by ring.
        replace (2 ^ s * y) with (aget u i + 2 ^ 64 * (aget u (i + 1) mod 2 ^ s) - aget u i mod 2 ^ s) by lia.
        lia. }
    rewrite Nat.add_0_l in F. destruct F as (L&W&O&Er). set (r := for_ 0 (n - 1) _ _) in *. clearbody r.
    assert (Wt : u64 (aget u (n - 1) >>64 s)) by (apply shr_u64; [lia|apply Wu]).
    split; [auto with words|]. rewrite (seg_above_zero _ _ 4 n); [| |lia].
    2:{ intros i Hi. rewrite aget_aset_ne by lia. apply O; lia. }
    revert E. replace n with (S (n - 1)) at 1 4 by lia. rewrite !seg_last, !Nat.add_0_l.
    rewrite seg_aset_out, aget_aset_eq by lia. unfold shr64 in *. rewrite Z.shiftr_div_pow2 in * by lia.
    set (P := (2 ^ 64) ^ Z.of_nat (n - 1)) in *. pose proof (Z.div_mod (aget u (n - 1)) (2 ^ s) ltac:(lia)) as D.
    pose proof (Z.mod_pos_bound (aget u 0) (2 ^ s) Hp) as M0.
    set (t := aget u (n - 1) / 2 ^ s) in *. intros E.
    assert (T : 2 ^ s * (seg (2 ^ 64) r 0 (n - 1) + P * t) + aget u 0 mod 2 ^ s = R * 2 ^ s).
    { rewrite <- E, D. lia. }
    nia.
Qed.

(** * Division *)

Lemma top_limb_index_spec b : wf256 b -> val b <> 0 ->
  exists t, top_limb_index (limbs b) = Z.of_nat t /\ (t < 4)%nat /\ aget (limbs b) t <> 0 /\
    val b = seg (2 ^ 64) (limbs b) 0 (S t).
Proof.
  intros Hb Hnz. rewrite val_seg in *. unfold top_limb_index.
  destruct (Z.eqb_spec (aget (limbs b) 3) 0) as [E3|E3]; cbn [negb];
    [|exists 3%nat; repeat split; auto].
  destruct (Z.eqb_spec (aget (limbs b) 2) 0) as [E2|E2]; cbn [negb];
    [|exists 2%nat; repeat split; auto; cbn [seg]; lia].
  destruct (Z.eqb_spec (aget (limbs b) 1) 0) as [E1|E1]; cbn [negb];
    [|exists 1%nat; repeat split; auto; cbn [seg]; lia].
  destruct (Z.eqb_spec (aget (limbs b) 0) 0) as [E0|E0]; cbn [negb];
    [|exists 0%nat; repeat split; auto; cbn [seg]; lia].
  exfalso. apply Hnz. cbn [seg]. lia.
Qed.

Lemma div_top_loop_eq l : div_top_loop l = top_limb_index l.
Proof. reflexivity. Qed.

(** The common tail of both divisions: normalise, divide, shift back. *)
Lemma knuth_core a k b t v : wf256 b -> u64s a -> (t < 4 <= k)%nat -> aget (limbs b) t <> 0 ->
  val b = seg (2 ^ 64) (limbs b) 0 (S t) ->
  let s := clz64 (aget (limbs b) t) in
  let n := S t in
  let m := (k - n)%nat in
  (v = norm_divisor (limbs b) s n \/ s = 0 /\ v = limbs b) ->
  forall q0, u64s q0 -> (m < length q0)%nat -> (forall i, (m < i)%nat -> aget q0 i = 0) ->
  let '(u, q) := knuth_loop (2 <=? n)%nat n m v (norm_limbs a s k) q0 in
  let A := seg (2 ^ 64) a 0 k in
  u64s q /\ (forall i, (m < i)%nat -> aget q i = 0) /\ seg (2 ^ 64) q 0 (m + 1) = A / val b /\
  of_limbs (denormalize u s n) = of_Z256 (A mod val b).
Proof.
  intros Hb Wa Ht Hnz Eb s n m Ev q0 Wq Lq Zq. pose proof (wf_limbs b Hb) as Wb.
  assert (Hb1 : u64 (aget (limbs b) t)) by apply Wb. unfold u64 in Hb1.
  destruct (clz64_spec (aget (limbs b) t) ltac:(lia)) as [Hs Hn]. fold s in Hs, Hn.
  assert (Hp : 0 < 2 ^ s) by (apply Z.pow_pos_nonneg; lia).
  assert (VS : u64s v /\ 2 ^ 63 <= aget v t /\ seg (2 ^ 64) v 0 n = val b * 2 ^ s).
  { destruct Ev as [-> | [E0 ->]].
    - pose proof (norm_divisor_spec (limbs b) n ltac:(lia) Wb) as H. unfold n in *.
      replace (S t - 1)%nat with t in H by lia. rewrite Eb. apply H, Hnz.
    - assert (P0 : 2 ^ s = 1) by (rewrite E0; reflexivity). rewrite P0 in Hn |- *. rewrite Z.mul_1_r in *.
      unfold n. rewrite Eb. split; [exact Wb|]. split; [lia|reflexivity]. }
  destruct VS as (Wv & Hv & EV).
  destruct (norm_limbs_spec a s k Hs Wa) as (Lu & Wu & Tu & EU).
  set (u0 := norm_limbs a s k) in *. clearbody u0.
  assert (HT : seg (2 ^ 64) u0 (m + 1) n < seg (2 ^ 64) v 0 n).
  { unfold n. rewrite !seg_last, Nat.add_0_l. replace (m + 1 + t)%nat with k by lia.
    pose proof (seg_range (2 ^ 64) u0 (m + 1) t ltac:(lia) Wu). pose proof (seg_range (2 ^ 64) v 0 t ltac:(lia) Wv).
    assert (2 ^ s <= 2 ^ 63) by (apply Z.pow_le_mono_r; lia).
    set (P := (2 ^ 64) ^ Z.of_nat t) in *.
    assert (P * (aget u0 k + 1) <= P * aget v t) by (apply Z.mul_le_mono_nonneg_l; lia). lia. }
  pose proof (knuth_loop_spec n m v u0 q0 ltac:(lia) ltac:(lia) Lq Wu Wv Wq) as K.
  replace (n - 1)%nat with t in K by (unfold n; lia). specialize (K Hv Zq HT).
  destruct (knuth_loop _ n m v u0 q0) as [u q]. destruct K as (_&Wu'&Wq'&Zq'&EQ&ER).
  replace (m + n + 1)%nat with (S k) in * by lia. rewrite EU, EV in *.
  assert (BP : 0 < val b).
  { pose proof (val_range b Hb). apply Z.nle_gt; intros X. assert (val b = 0) as Y by lia.
    rewrite Y in HT. pose proof (seg_range (2 ^ 64) u0 (m + 1) n ltac:(lia) Wu). lia. }
  rewrite Z.div_mul_cancel_r in EQ by lia. rewrite Z.mul_mod_distr_r in ER by lia.
  split; [exact Wq'|]. split; [exact Zq'|]. split; [exact EQ|].
  destruct (denormalize_spec u s n _ ltac:(lia) Hs Wu' ER) as [Wr Er].
  apply eq_of_Z256; [apply wf_of_limbs, Wr|]. rewrite val_of_limbs, Er. symmetry; apply Z.mod_small.
  pose proof (Z.mod_pos_bound (seg (2 ^ 64) a 0 k) (val b) BP). pose proof (val_range b Hb). lia.
Qed.

Lemma small_limbs a : wf256 a -> Z.lor (Z.lor (limb1 a) (limb2 a)) (limb3 a) = 0 -> val a = limb0 a.
Proof.
  intros Ha H. apply Z.lor_eq_0_iff in H as [H H3]. apply Z.lor_eq_0_iff in H as [H1 H2].
  unfold val. rewrite H1, H2, H3. lia.
Qed.

Lemma uint256_divmod_spec a b : wf256 a -> wf256 b -> val b <> 0 ->
  uint256_divmod a b = (of_Z256 (val a / val b), of_Z256 (val a mod val b)).
Proof.
  intros Ha Hb Hnz. unfold uint256_divmod. pose proof (val_range a Ha) as Ra. pose proof (val_range b Hb) as Rb.
  rewrite uint256_is_zero_spec, (proj2 (Z.eqb_neq _ _)) by assumption.
  rewrite uint256_lt_spec by assumption. destruct (Z.ltb_spec (val a) (val b)).
  { rewrite Z.div_small, Z.mod_small, of_Z256_val by (lia || assumption). reflexivity. }
  destruct ((_ =? 0) && _) eqn:C.
  { apply andb_true_iff in C as [C1%Z.eqb_eq C2%Z.eqb_eq].
    rewrite (small_limbs a), (small_limbs b) in * by assumption.
    destruct Ha as [Ha _], Hb as [Hb _]. unfold u64 in *.
    assert (limb0 a / limb0 b <= limb0 a) by (apply Z.div_le_upper_bound; nia).
    pose proof (Z.mod_pos_bound (limb0 a) (limb0 b) ltac:(lia)). pose proof (Z.div_pos (limb0 a) (limb0 b)).
    f_equal; (apply eq_of_Z256; [apply wf_from_u64; unfold u64; lia|]);
      rewrite val_from_u64; symmetry; apply Z.mod_small; lia. }
  destruct (top_limb_index_spec b Hb Hnz) as (t & -> & Ht & Tnz & Eb).
  destruct (Z.eqb_spec (Z.of_nat t) 0) as [T0|T0].
  { assert (t = 0)%nat as -> by lia. change (aget (limbs b) 0) with (limb0 b) in Tnz.
    assert (EL : val b = limb0 b) by (rewrite Eb; cbn [seg]; change (aget (limbs b) 0) with (limb0 b); lia).
    rewrite EL. apply divmod_single_limb_correct; [exact Ha|]. destruct Hb as [Hb _]. unfold u64 in Hb. lia. }
  rewrite Nat2Z.id.
  pose proof (knuth_core (limbs a) 4 b t (norm_divisor (limbs b) (clz64 (aget (limbs b) t)) (S t)) Hb
    (wf_limbs a Ha) ltac:(lia) Tnz Eb (or_introl eq_refl) (repeat 0 4) (u64s_repeat0 4)
    ltac:(rewrite repeat_length; lia) (fun i _ => aget_repeat0 4 i)) as K.
  replace (2 <=? S t)%nat with true in K by (symmetry; apply Nat.leb_le; lia).
  destruct (knuth_loop true _ _ _ _ _) as [u q]. cbv zeta in K. destruct K as (Wq&Zq&EQ&ER).
  rewrite ER, <- !val_seg in *. f_equal. apply eq_of_Z256; [apply wf_of_limbs, Wq|].
  rewrite val_of_limbs, (seg_above_zero _ _ 4 (4 - S t + 1)) by (intros; try apply Zq; lia). rewrite EQ.
  symmetry; apply Z.mod_small. pose proof (Z.div_pos (val a) (val b)).
  assert (val a / val b <= val a) by (apply Z.div_le_upper_bound; nia). lia.
Qed.

Lemma divmod_zero a b : wf256 b -> val b = 0 -> uint256_divmod a b = (uint256_zero, uint256_zero).
Proof.
  intros Hb E. unfold uint256_divmod. rewrite uint256_is_zero_spec by assumption.
  rewrite E. reflexivity.
Qed.

(** Rocq's [/] and [mod] are [0] and the dividend for a zero divisor; the EVM
    wants [0] for both. *)
Lemma uint256_div_spec a b : wf256 a -> wf256 b -> uint256_div a b = of_Z256 (val a / val b).
Proof.
  intros Ha Hb. unfold uint256_div. destruct (Z.eq_dec (val b) 0) as [E|E].
  - rewrite divmod_zero, E, Z.div_0_r by assumption. reflexivity.
  - rewrite uint256_divmod_spec by assumption. reflexivity.
Qed.

Lemma uint256_mod_spec a b : wf256 a -> wf256 b ->
  uint256_mod a b = of_Z256 (if val b =? 0 then 0 else val a mod val b).
Proof.
  intros Ha Hb. unfold uint256_mod. destruct (Z.eqb_spec (val b) 0) as [E|E].
  - rewrite divmod_zero by assumption. reflexivity.
  - rewrite uint256_divmod_spec by assumption. reflexivity.
Qed.

Lemma lor_zero_iff x y : (Z.lor x y =? 0) = (x =? 0) && (y =? 0).
Proof.
  apply eq_true_iff_eq. rewrite andb_true_iff, !Z.eqb_eq. apply Z.lor_eq_0_iff.
Qed.

Lemma uint512_mod_256_spec a b : length a = 8%nat -> u64s a -> wf256 b -> val b <> 0 ->
  uint512_mod_256 a b = of_Z256 (seg (2 ^ 64) a 0 8 mod val b).
Proof.
  intros La Wa Hb Hnz. unfold uint512_mod_256. pose proof (val_range b Hb) as Rb.
  rewrite uint256_is_zero_spec, (proj2 (Z.eqb_neq _ _)) by assumption.
  destruct (uint512_is_zero a) eqn:Z0.
  { unfold uint512_is_zero in Z0. rewrite !lor_zero_iff, !andb_true_iff, !Z.eqb_eq in Z0.
    replace (seg (2 ^ 64) a 0 8) with 0 by (cbn [seg]; lia). rewrite Z.mod_0_l by assumption. reflexivity. }
  destruct (_ =? 0) eqn:Z1.
  { rewrite !lor_zero_iff, !andb_true_iff, !Z.eqb_eq in Z1.
    rewrite uint256_mod_spec by (auto using wf_of_limbs). rewrite (proj2 (Z.eqb_neq _ _)), val_of_limbs by assumption.
    do 2 f_equal. cbn [seg]. lia. }
  rewrite div_top_loop_eq.
  destruct (top_limb_index_spec b Hb Hnz) as (t & -> & Ht & Tnz & Eb). rewrite Nat2Z.id.
  set (s := clz64 (aget (limbs b) t)) in *.
  set (v := if s =? 0 then _ else _).
  assert (Ev : v = norm_divisor (limbs b) s (S t) \/ s = 0 /\ v = limbs b)
    by (unfold v; destruct (Z.eqb_spec s 0); auto).
  pose proof (knuth_core a 8 b t v Hb Wa ltac:(lia) Tnz Eb Ev (repeat 0 9) (u64s_repeat0 9)
    ltac:(rewrite repeat_length; lia) (fun i _ => aget_repeat0 9 i)) as K.
  fold s in K. destruct (knuth_loop _ _ _ _ _ _) as [u q]. cbv zeta in K. apply K.
Qed.
