(* ===== verification/Arith.v ===== *)
(** Signed and modular arithmetic of src/types/uint256.c: negation, [sdiv],
    [smod], [signextend], [addmod] and [mulmod]. *)
From Stdlib Require Import ZArith Lia List Bool.
From S2P Require Import Prelude Uint256 Multiply Reciprocal Knuth.
Import ListNotations.
#[local] Open Scope Z_scope.
#[local] Open Scope word_scope.

(** * Definitions *)

Definition uint256_negate (a : uint256_t) : uint256_t :=
  let not_a := uint256_from_limbs (not64 (limb0 a)) (not64 (limb1 a)) (not64 (limb2 a)) (not64 (limb3 a)) in
  uint256_add not_a (uint256_from_u64 1).

Definition MIN_NEGATIVE_VALUE : uint256_t := U256 0 0 0 9223372036854775808.
Definition MINUS_ONE : uint256_t := U256 (not64 0) (not64 0) (not64 0) (not64 0).

(** The test of both operands for the native 64-bit path. *)
Definition both_one_limb (a b : uint256_t) : bool :=
  (Z.lor (Z.lor (limb1 a) (limb2 a)) (limb3 a) =? 0) && (Z.lor (Z.lor (limb1 b) (limb2 b)) (limb3 b) =? 0).

Definition uint256_sdiv (a b : uint256_t) : uint256_t :=
  if uint256_is_zero b then uint256_zero
  else if uint256_eq a MIN_NEGATIVE_VALUE && uint256_eq b MINUS_ONE then MIN_NEGATIVE_VALUE
  else
    let a_neg := uint256_is_negative a in
    let b_neg := uint256_is_negative b in
    let abs_a := if a_neg then uint256_negate a else a in
    let abs_b := if b_neg then uint256_negate b else b in
    if both_one_limb abs_a abs_b then
      let q := limb0 abs_a / limb0 abs_b in
      if negb (Bool.eqb a_neg b_neg) then uint256_negate (uint256_from_u64 q) else uint256_from_u64 q
    else
      let quotient := uint256_div abs_a abs_b in
      if negb (Bool.eqb a_neg b_neg) then uint256_negate quotient else quotient.

Definition uint256_smod (a b : uint256_t) : uint256_t :=
  if uint256_is_zero b then uint256_zero
  else
    let a_neg := uint256_is_negative a in
    let b_neg := uint256_is_negative b in
    let abs_a := if a_neg then uint256_negate a else a in
    let abs_b := if b_neg then uint256_negate b else b in
    if both_one_limb abs_a abs_b then
      let r := limb0 abs_a mod limb0 abs_b in
      if a_neg then uint256_negate (uint256_from_u64 r) else uint256_from_u64 r
    else
      let remainder := uint256_mod abs_a abs_b in
      if a_neg then uint256_negate remainder else remainder.

(** [unsigned] arithmetic on [bit_index] stays below 256. *)
Definition uint256_signextend (byte_pos x : uint256_t) : uint256_t :=
  if negb (limb1 byte_pos =? 0) || negb (limb2 byte_pos =? 0) || negb (limb3 byte_pos =? 0) ||
     (31 <=? limb0 byte_pos) then x
  else
    let pos := limb0 byte_pos in
    let bit_index := w32 (8 *64 pos +64 7) in
    let limb_index := Z.to_nat (bit_index / 64) in
    let bit_in_limb := bit_index mod 64 in
    let sign_bit := negb (Z.land (aget (limbs x) limb_index >>64 bit_in_limb) 1 =? 0) in
    if negb sign_bit then
      let limb_mask := if bit_in_limb =? 63 then not64 0 else (1 <<64 (bit_in_limb + 1)) -64 1 in
      let result := aset (limbs x) limb_index (Z.land (aget (limbs x) limb_index) limb_mask) in
      of_limbs (for_ (S limb_index) (4 - S limb_index) (fun i r => aset r i 0) result)
    else
      let limb_mask := if bit_in_limb =? 63 then 0 else not64 ((1 <<64 (bit_in_limb + 1)) -64 1) in
      let result := aset (limbs x) limb_index (Z.lor (aget (limbs x) limb_index) limb_mask) in
      of_limbs (for_ (S limb_index) (4 - S limb_index) (fun i r => aset r i (not64 0)) result).

Definition uint256_addmod (a b n : uint256_t) : uint256_t :=
  if uint256_is_zero n then uint256_zero
  else
    let '(sum, carry) := add_carry a b in
    if carry =? 0 then uint256_mod sum n
    else
      let max_val := uint256_from_limbs (not64 0) (not64 0) (not64 0) (not64 0) in
      let pow_256_mod_n := uint256_mod (uint256_add (uint256_sub max_val n) (uint256_from_u64 1)) n in
      let sum_mod_n := uint256_mod sum n in
      let partial := uint256_add pow_256_mod_n sum_mod_n in
      if uint256_lt partial pow_256_mod_n then uint256_mod partial n
      else if negb (uint256_lt partial n) then uint256_sub partial n
      else partial.

Definition uint256_mulmod (a b n : uint256_t) : uint256_t :=
  if uint256_is_zero n then uint256_zero
  else if uint256_is_zero a || uint256_is_zero b then uint256_zero
  else
    let product := uint256_mul_full a b in
    if Z.lor (Z.lor (Z.lor (aget product 4) (aget product 5)) (aget product 6)) (aget product 7) =? 0 then
      uint256_mod (of_limbs product) n
    else uint512_mod_256 product n.

(** * Signed arithmetic *)

Lemma wf_sub a b : wf256 a -> wf256 b -> wf256 (uint256_sub a b).
Proof. intros; rewrite uint256_sub_spec by assumption; apply wf_of_Z256. Qed.

Lemma uint256_negate_spec a : wf256 a -> uint256_negate a = of_Z256 (- val a).
Proof.
  intros Ha. destruct (uint256_not_spec a Ha) as [W V].
  unfold uint256_negate. change (uint256_from_limbs _ _ _ _) with (uint256_not a).
  rewrite uint256_add_spec by (try apply wf_from_u64; unfold u64; auto; lia).
  rewrite V, val_from_u64, <- of_Z256_mod, <- (of_Z256_mod (- val a)). f_equal.
  rewrite <- (Z_mod_plus_full (- val a) 1). f_equal. lia.
Qed.

(** The absolute value, which is also right for [-2^255]. *)
Lemma abs_spec a : wf256 a ->
  let abs_a := if uint256_is_negative a then uint256_negate a else a in
  wf256 abs_a /\ val abs_a = Z.abs (sval a).
Proof.
  intros Ha abs_a. unfold abs_a; clear abs_a. rewrite uint256_is_negative_spec by assumption.
  pose proof (val_range a Ha) as R. pose proof (sval_range a Ha) as S.
  destruct (Z.ltb_spec (sval a) 0) as [N|N].
  - rewrite uint256_negate_spec by assumption. split; [apply wf_of_Z256|]. rewrite val_of_Z256.
    unfold sval in *. destruct (Z.ltb_spec (val a) (2 ^ 255)); [lia|].
    rewrite <- (Z_mod_plus_full _ 1), Z.mod_small by lia. lia.
  - split; [assumption|]. unfold sval in *. destruct (Z.ltb_spec (val a) (2 ^ 255)); lia.
Qed.

Lemma sval_zero a : wf256 a -> (sval a = 0 <-> val a = 0).
Proof. intros Ha. pose proof (val_range a Ha). unfold sval. destruct (Z.ltb_spec (val a) (2 ^ 255)); lia. Qed.

Lemma negate_of_Z x : uint256_negate (of_Z256 x) = of_Z256 (- x).
Proof.
  rewrite uint256_negate_spec, val_of_Z256 by apply wf_of_Z256. rewrite <- of_Z256_mod, <- (of_Z256_mod (- x)).
  f_equal. rewrite <- (Z.sub_0_l (_ mod _)), <- (Z.sub_0_l x), Zminus_mod_idemp_r. reflexivity.
Qed.

(** The native path computes the same quotient and remainder. *)
Lemma one_limb_div a b : wf256 a -> wf256 b -> val b <> 0 -> both_one_limb a b = true ->
  uint256_from_u64 (limb0 a / limb0 b) = of_Z256 (val a / val b) /\
  uint256_from_u64 (limb0 a mod limb0 b) = of_Z256 (val a mod val b).
Proof.
  intros Ha Hb Hnz C. apply andb_true_iff in C as [C1%Z.eqb_eq C2%Z.eqb_eq].
  pose proof (val_range b Hb). rewrite (small_limbs a), (small_limbs b) in * by assumption.
  destruct Ha as [Ha _], Hb as [Hb _]. unfold u64 in *.
  assert (limb0 a / limb0 b <= limb0 a) by (apply Z.div_le_upper_bound; nia).
  pose proof (Z.mod_pos_bound (limb0 a) (limb0 b) ltac:(lia)). pose proof (Z.div_pos (limb0 a) (limb0 b)).
  split; (apply eq_of_Z256; [apply wf_from_u64; unfold u64; lia|]);
    rewrite val_from_u64; symmetry; apply Z.mod_small; lia.
Qed.

(** Both paths of the unsigned part, as one value. *)
Lemma abs_div a b : wf256 a -> wf256 b -> val b <> 0 ->
  (if both_one_limb a b then uint256_from_u64 (limb0 a / limb0 b) else uint256_div a b) = of_Z256 (val a / val b).
Proof.
  intros Ha Hb Hnz. destruct (both_one_limb a b) eqn:C.
  - apply one_limb_div; assumption.
  - apply uint256_div_spec; assumption.
Qed.

Lemma abs_mod a b : wf256 a -> wf256 b -> val b <> 0 ->
  (if both_one_limb a b then uint256_from_u64 (limb0 a mod limb0 b) else uint256_mod a b) = of_Z256 (val a mod val b).
Proof.
  intros Ha Hb Hnz. destruct (both_one_limb a b) eqn:C.
  - apply one_limb_div; assumption.
  - rewrite uint256_mod_spec, (proj2 (Z.eqb_neq _ _)) by assumption. reflexivity.
Qed.

Lemma quot_abs a b : b <> 0 ->
  Z.quot a b = if negb (Bool.eqb (a <? 0) (b <? 0)) then - (Z.abs a / Z.abs b) else Z.abs a / Z.abs b.
Proof.
  intros Hb. rewrite Z.quot_div by assumption. destruct (Z.ltb_spec a 0), (Z.ltb_spec b 0); cbn [Bool.eqb negb].
  all: destruct (Z.eq_dec a 0) as [->|]; [rewrite Zdiv_0_l; lia|].
  all: destruct (Z.sgn_spec a) as [[? ->]|[[? ->]|[? ->]]]; destruct (Z.sgn_spec b) as [[? ->]|[[? ->]|[? ->]]]; lia.
Qed.

Lemma rem_abs a b : b <> 0 -> Z.rem a b = if a <? 0 then - (Z.abs a mod Z.abs b) else Z.abs a mod Z.abs b.
Proof.
  intros Hb. rewrite Z.rem_mod by assumption. destruct (Z.ltb_spec a 0).
  - rewrite Z.sgn_neg by assumption. lia.
  - destruct (Z.eq_dec a 0) as [->|]; [rewrite Zmod_0_l; lia|]. rewrite Z.sgn_pos by lia. lia.
Qed.

(** Truncated signed division; [-2^255 / -1] wraps to [-2^255]. *)
Lemma uint256_sdiv_spec a b : wf256 a -> wf256 b ->
  uint256_sdiv a b = of_Z256 (if sval b =? 0 then 0 else Z.quot (sval a) (sval b)).
Proof.
  intros Ha Hb. unfold uint256_sdiv. rewrite uint256_is_zero_spec by assumption.
  pose proof (sval_zero b Hb) as SZ. destruct (Z.eqb_spec (val b) 0) as [E|E].
  { rewrite (proj2 (Z.eqb_eq _ _)) by tauto. reflexivity. }
  rewrite (proj2 (Z.eqb_neq _ _)) by tauto.
  destruct (uint256_eq a _ && _) eqn:M.
  { rewrite !uint256_eq_spec in M by (assumption || (repeat split; vm_compute; congruence)).
    apply andb_true_iff in M as [M1%Z.eqb_eq M2%Z.eqb_eq].
    assert (sval a = - 2 ^ 255) as -> by (unfold sval; rewrite M1; reflexivity).
    assert (sval b = -1) as -> by (unfold sval; rewrite M2; reflexivity). reflexivity. }
  destruct (abs_spec a Ha) as [Wa Va]. destruct (abs_spec b Hb) as [Wb Vb].
  set (abs_a := if uint256_is_negative a then _ else _) in *. set (abs_b := if uint256_is_negative b then _ else _) in *.
  assert (Hnz : val abs_b <> 0) by lia. pose proof (abs_div abs_a abs_b Wa Wb Hnz) as D.
  rewrite Va, Vb in D. rewrite !uint256_is_negative_spec, quot_abs by (tauto || assumption).
  destruct (both_one_limb abs_a abs_b); rewrite D; destruct (negb _); auto using negate_of_Z.
Qed.

Lemma uint256_smod_spec a b : wf256 a -> wf256 b ->
  uint256_smod a b = of_Z256 (if sval b =? 0 then 0 else Z.rem (sval a) (sval b)).
Proof.
  intros Ha Hb. unfold uint256_smod. rewrite uint256_is_zero_spec by assumption.
  pose proof (sval_zero b Hb) as SZ. destruct (Z.eqb_spec (val b) 0) as [E|E].
  { rewrite (proj2 (Z.eqb_eq _ _)) by tauto. reflexivity. }
  rewrite (proj2 (Z.eqb_neq _ _)) by tauto.
  destruct (abs_spec a Ha) as [Wa Va]. destruct (abs_spec b Hb) as [Wb Vb].
  set (abs_a := if uint256_is_negative a then _ else _) in *. set (abs_b := if uint256_is_negative b then _ else _) in *.
  assert (Hnz : val abs_b <> 0) by lia. pose proof (abs_mod abs_a abs_b Wa Wb Hnz) as D.
  rewrite Va, Vb in D. rewrite !uint256_is_negative_spec, rem_abs by (tauto || assumption).
  destruct (both_one_limb abs_a abs_b); rewrite D; destruct (_ <? 0); auto using negate_of_Z.
Qed.

(** * Modular arithmetic *)

(** The overflow branch of [addmod] is never taken: [2^256 mod n] is at most
    [2^256 - n]. *)
Lemma addmod_partial_fits n s : 0 < n < 2 ^ 256 -> 0 <= (2 ^ 256 - n) mod n + s mod n < 2 ^ 256.
Proof.
  intros Hn. pose proof (Z.mod_pos_bound s n ltac:(lia)). pose proof (Z.mod_pos_bound (2 ^ 256 - n) n ltac:(lia)).
  pose proof (Z.mod_le (2 ^ 256 - n) n ltac:(lia) ltac:(lia)). lia.
Qed.

Lemma uint256_addmod_spec a b n : wf256 a -> wf256 b -> wf256 n ->
  uint256_addmod a b n = of_Z256 (if val n =? 0 then 0 else (val a + val b) mod val n).
Proof.
  intros Ha Hb Hn. unfold uint256_addmod. rewrite uint256_is_zero_spec by assumption.
  pose proof (val_range n Hn) as Rn. destruct (Z.eqb_spec (val n) 0) as [E|E]; [reflexivity|].
  pose proof (add_carry_spec a b Ha Hb) as S. destruct (add_carry a b) as [sum carry]. cbn [fst snd] in S. destruct S as (Ws & Hc & Es).
  destruct (Z.eqb_spec carry 0) as [C|C].
  { rewrite uint256_mod_spec, (proj2 (Z.eqb_neq _ _)) by assumption. rewrite <- Es, C, Z.mul_0_r, Z.add_0_r. reflexivity. }
  assert (carry = 1) by lia. subst carry.
  set (mx := uint256_from_limbs _ _ _ _). assert (Wm : wf256 mx) by (repeat split; vm_compute; congruence).
  assert (Vm : val mx = 2 ^ 256 - 1) by reflexivity. clearbody mx.
  assert (W1 : wf256 (uint256_from_u64 1)) by (apply wf_from_u64; unfold u64; lia).
  rewrite (uint256_sub_spec mx n), (uint256_add_spec _ (uint256_from_u64 1)) by (assumption || apply wf_of_Z256).
  rewrite Vm, val_from_u64, val_of_Z256, (Z.mod_small (_ - val n)) by lia.
  replace (2 ^ 256 - 1 - val n + 1) with (2 ^ 256 - val n) by ring.
  rewrite (uint256_mod_spec (of_Z256 _)), (uint256_mod_spec sum), (proj2 (Z.eqb_neq (val n) 0)) by (assumption || apply wf_of_Z256).
  rewrite val_of_Z256, (Z.mod_small (2 ^ 256 - val n)) by lia.
  rewrite uint256_add_spec, !val_of_Z256 by apply wf_of_Z256.
  pose proof (addmod_partial_fits (val n) (val sum) ltac:(lia)) as F.
  pose proof (Z.mod_pos_bound (2 ^ 256 - val n) (val n) ltac:(lia)) as M1.
  pose proof (Z.mod_pos_bound (val sum) (val n) ltac:(lia)) as M2.
  set (p := (2 ^ 256 - val n) mod val n) in *. set (q := val sum mod val n) in *.
  rewrite (Z.mod_small p), (Z.mod_small q) by lia.
  assert (R : (val a + val b) mod val n = (p + q) mod val n).
  { unfold p, q. rewrite <- Es, <- Zplus_mod, <- (Z_mod_plus_full (_ + val sum) 1). f_equal. lia. }
  rewrite R, !uint256_lt_spec, !val_of_Z256, (Z.mod_small p), (Z.mod_small (p + q)) by (assumption || lia || apply wf_of_Z256).
  rewrite (proj2 (Z.ltb_ge (p + q) p)) by lia. clearbody p q.
  destruct (Z.ltb_spec (p + q) (val n)) as [L|L]; cbn [negb].
  - rewrite Z.mod_small by lia. reflexivity.
  - rewrite uint256_sub_spec, val_of_Z256, (Z.mod_small (p + q)) by (assumption || lia || apply wf_of_Z256).
    f_equal. apply (Z.mod_unique_pos _ _ 1); lia.
Qed.

Lemma uint256_mulmod_spec a b n : wf256 a -> wf256 b -> wf256 n ->
  uint256_mulmod a b n = of_Z256 (if val n =? 0 then 0 else (val a * val b) mod val n).
Proof.
  intros Ha Hb Hn. unfold uint256_mulmod. rewrite !uint256_is_zero_spec by assumption.
  destruct (Z.eqb_spec (val n) 0) as [E|E]; [reflexivity|].
  destruct (Z.eqb_spec (val a) 0) as [->|Ea]; [rewrite Z.mul_0_l, Z.mod_0_l by assumption; reflexivity|].
  destruct (Z.eqb_spec (val b) 0) as [->|Eb]; [rewrite Z.mul_0_r, Z.mod_0_l by assumption; reflexivity|].
  cbn [orb]. destruct (uint256_mul_full_spec a b Ha Hb) as (L & W & V). rewrite <- V.
  destruct (_ =? 0) eqn:Z1; [|apply uint512_mod_256_spec; assumption].
  rewrite !lor_zero_iff, !andb_true_iff, !Z.eqb_eq in Z1.
  rewrite uint256_mod_spec, (proj2 (Z.eqb_neq _ _)), val_of_limbs by (assumption || apply wf_of_limbs, W).
  set (p := uint256_mul_full a b) in *. clearbody p.
  replace (seg (2 ^ 64) p 0 8) with (seg (2 ^ 64) p 0 4) by (cbn [seg]; lia). reflexivity.
Qed.

(** * Sign extension *)

(** The masks of [signextend]: [w] bits from the bottom, and the bits above. *)
Lemma low_mask w : 0 < w <= 64 ->
  (if w - 1 =? 63 then not64 0 else (1 <<64 (w - 1 + 1)) -64 1) = 2 ^ w - 1.
Proof.
  intros Hw. destruct (Z.eqb_spec (w - 1) 63) as [E|E].
  - replace w with 64 by lia. reflexivity.
  - replace (w - 1 + 1) with w by ring. assert (2 ^ w < 2 ^ 64) by (apply Z.pow_lt_mono_r; lia).
    assert (0 < 2 ^ w) by (apply Z.pow_pos_nonneg; lia).
    unfold shl64, sub64. rewrite Z.shiftl_1_l, !w64_small by (unfold u64; try rewrite w64_small; unfold u64; lia). reflexivity.
Qed.

Lemma upper_mask w : 0 < w <= 64 ->
  (if w - 1 =? 63 then 0 else not64 ((1 <<64 (w - 1 + 1)) -64 1)) = 2 ^ 64 - 2 ^ w.
Proof.
  intros Hw. pose proof (low_mask w Hw) as L. destruct (Z.eqb_spec (w - 1) 63) as [E|E].
  - replace w with 64 by lia. reflexivity.
  - rewrite L. unfold not64, UINT64_MAX. ring.
Qed.

Lemma land_low_mask x w : 0 <= w -> Z.land x (2 ^ w - 1) = x mod 2 ^ w.
Proof. intros Hw. rewrite <- Z.land_ones by assumption. f_equal. rewrite Z.ones_equiv. lia. Qed.

Lemma lor_upper_mask x w : 0 <= w <= 64 -> u64 x -> Z.lor x (2 ^ 64 - 2 ^ w) = x mod 2 ^ w + (2 ^ 64 - 2 ^ w).
Proof.
  intros Hw Hx. assert (0 < 2 ^ w) by (apply Z.pow_pos_nonneg; lia).
  pose proof (Z.mod_pos_bound x (2 ^ w) ltac:(lia)).
  assert (E : 2 ^ 64 - 2 ^ w = Z.ones (64 - w) * 2 ^ w).
  { rewrite Z.ones_equiv, <- Z.sub_1_r, Z.mul_sub_distr_r, <- Z.pow_add_r by lia. f_equal; [f_equal|]; lia. }
  rewrite E, (Z.add_comm (x mod _)), <- lor_add by lia.
  apply Z.bits_inj'; intros i Hi. rewrite !Z.lor_spec, <- Z.shiftl_mul_pow2, Z.shiftl_spec by lia.
  destruct (Z.lt_ge_cases i w).
  - rewrite Z.mod_pow2_bits_low, (Z.testbit_neg_r _ (i - w)) by lia. apply orb_comm.
  - rewrite Z.mod_pow2_bits_high by lia. rewrite orb_false_r. destruct (Z.lt_ge_cases i 64).
    + rewrite Z.ones_spec_low by lia. apply orb_true_r.
    + rewrite (testbit_high x 64 i) by (apply Hx || lia). reflexivity.
Qed.

(** The limb with the sign bit, and the index arithmetic around it. *)
Lemma signextend_index pos : 0 <= pos < 31 -> exists i w,
  w32 (8 *64 pos +64 7) / 64 = Z.of_nat i /\ (i < 4)%nat /\ w32 (8 *64 pos +64 7) mod 64 = w - 1 /\
  0 < w <= 64 /\ 8 * (pos + 1) = 64 * Z.of_nat i + w.
Proof.
  intros Hp. unfold mul64, add64. rewrite (w64_small (8 * pos)), w64_small by (unfold u64; lia).
  unfold w32. rewrite Z.mod_small by lia.
  exists (Z.to_nat ((8 * pos + 7) / 64)), ((8 * pos + 7) mod 64 + 1). Z.div_mod_to_equations. lia.
Qed.

(** Truncation of a value at a bit of limb [i]. *)
Lemma val_mod_limb x i w : wf256 x -> (i < 4)%nat -> 0 <= w <= 64 ->
  val x mod 2 ^ (64 * Z.of_nat i + w) =
  seg (2 ^ 64) (limbs x) 0 i + (2 ^ 64) ^ Z.of_nat i * (aget (limbs x) i mod 2 ^ w).
Proof.
  intros Hx Hi Hw. pose proof (wf_limbs x Hx) as W. assert (0 < 2 ^ w) by (apply Z.pow_pos_nonneg; lia).
  rewrite val_seg. replace 4%nat with (i + S (3 - i))%nat by lia. rewrite seg_split, Nat.add_0_l. cbn [seg].
  rewrite Z.pow_add_r, Z.pow_mul_r by lia. set (P := (2 ^ 64) ^ Z.of_nat i).
  assert (0 < P) by (apply Z.pow_pos_nonneg; lia).
  pose proof (seg_range (2 ^ 64) (limbs x) 0 i ltac:(lia) W) as R. fold P in R.
  pose proof (Z.mod_pos_bound (aget (limbs x) i) (2 ^ w) ltac:(lia)) as M.
  pose proof (Z.div_mod (aget (limbs x) i) (2 ^ w) ltac:(lia)) as D.
  set (hi := seg _ _ (S i) _). assert (E : 2 ^ 64 = 2 ^ (64 - w) * 2 ^ w) by (rewrite <- Z.pow_add_r by lia; f_equal; lia).
  symmetry. apply (Z.mod_unique_pos _ _ (aget (limbs x) i / 2 ^ w + 2 ^ (64 - w) * hi)).
  - assert (P * (aget (limbs x) i mod 2 ^ w) <= P * (2 ^ w - 1)) by (apply Z.mul_le_mono_nonneg_l; lia).
    assert (0 <= P * (aget (limbs x) i mod 2 ^ w)) by (apply Z.mul_nonneg_nonneg; lia). lia.
  - set (lo := seg (2 ^ 64) (limbs x) 0 i) in *. set (m := aget (limbs x) i mod 2 ^ w) in *.
    set (d := aget (limbs x) i / 2 ^ w) in *. rewrite D, E. ring.
Qed.

Lemma sign_bit_spec x i w : wf256 x -> (i < 4)%nat -> 0 < w <= 64 ->
  negb (Z.land (aget (limbs x) i >>64 (w - 1)) 1 =? 0) = Z.testbit (val x) (64 * Z.of_nat i + w - 1).
Proof.
  intros Hx Hi Hw. rewrite val_testbit_limb by (assumption || lia).
  replace ((64 * Z.of_nat i + w - 1) / 64) with (Z.of_nat i) by (apply (Z.div_unique_pos _ _ _ (w - 1)); lia).
  replace ((64 * Z.of_nat i + w - 1) mod 64) with (w - 1) by (apply (Z.mod_unique_pos _ _ (Z.of_nat i)); lia).
  rewrite Nat2Z.id. unfold shr64. change 1 with (Z.ones 1) at 2. rewrite Z.land_ones by lia. change (2 ^ 1) with 2.
  rewrite <- Z.bit0_mod, Z.shiftr_spec by lia. rewrite Z.add_0_l. destruct (Z.testbit _ _); reflexivity.
Qed.

(** Evaluate the place values of a concrete limb index. *)
Ltac fold_limb_consts :=
  match goal with |- context [?a / (2 ^ 64 - 1)] =>
    let v := eval vm_compute in (a / (2 ^ 64 - 1)) in change (a / (2 ^ 64 - 1)) with v end;
  match goal with |- context [(2 ^ 64) ^ Z.of_nat ?a] =>
    let v := eval vm_compute in ((2 ^ 64) ^ Z.of_nat a) in change ((2 ^ 64) ^ Z.of_nat a) with v end.

Lemma fill_limbs x i y f : wf256 x -> (i < 4)%nat -> u64 y -> u64 f ->
  let r := of_limbs (for_ (S i) (4 - S i) (fun i r => aset r i f) (aset (limbs x) i y)) in
  wf256 r /\ val r = seg (2 ^ 64) (limbs x) 0 i + (2 ^ 64) ^ Z.of_nat i * y +
    f * ((2 ^ 256 - (2 ^ 64) ^ Z.of_nat (S i)) / (2 ^ 64 - 1)).
Proof.
  intros (X0&X1&X2&X3) Hi Hy Hf r. unfold r; clear r. unfold of_limbs, wf256, val, limbs.
  destruct i as [|[|[|[|]]]]; [| | | |lia].
  all: cbn [Nat.sub for_ seq fold_left aset aget nth limb0 limb1 limb2 limb3 seg].
  all: split; [auto|].
  all: fold_limb_consts; lia.
Qed.

Lemma uint256_signextend_spec p x : wf256 p -> wf256 x ->
  uint256_signextend p x = of_Z256 (
    if 31 <=? val p then val x
    else
      let k := 8 * (val p + 1) in
      if Z.testbit (val x) (k - 1) then val x mod 2 ^ k - 2 ^ k else val x mod 2 ^ k).
Proof.
  intros Hp Hx. unfold uint256_signextend.
  replace (_ || (31 <=? limb0 p)) with (31 <=? val p).
  2:{ destruct Hp as (P0&P1&P2&P3). unfold val, u64 in *.
      destruct (Z.eqb_spec (limb1 p) 0), (Z.eqb_spec (limb2 p) 0), (Z.eqb_spec (limb3 p) 0), (Z.leb_spec 31 (limb0 p)); cbn [negb orb];
        apply eq_true_iff_eq; rewrite Z.leb_le; split; intros; try reflexivity; try discriminate; lia. }
  destruct (Z.leb_spec 31 (val p)) as [L|L]; [rewrite of_Z256_val by assumption; reflexivity|].
  pose proof (val_range p Hp) as Rp.
  assert (E0 : limb0 p = val p) by (apply limb0_small; [assumption|lia]). rewrite E0.
  destruct (signextend_index (val p) ltac:(lia)) as (i&w&->&Hi&->&Hw&Ek). cbv zeta. rewrite Nat2Z.id, Ek.
  rewrite sign_bit_spec, low_mask, upper_mask, val_mod_limb by (assumption || lia).
  pose proof (wf_limbs x Hx i) as Wi. assert (0 < 2 ^ w) by (apply Z.pow_pos_nonneg; lia).
  assert (2 ^ w <= 2 ^ 64) by (apply Z.pow_le_mono_r; lia).
  pose proof (Z.mod_pos_bound (aget (limbs x) i) (2 ^ w) ltac:(lia)) as M.
  destruct (Z.testbit _ _); cbn [negb].
  - rewrite lor_upper_mask by (assumption || lia).
    match goal with |- of_limbs (for_ _ _ _ (aset _ _ ?y)) = _ =>
      destruct (fill_limbs x i y (not64 0) Hx Hi) as [W V]; [unfold u64; lia | split; vm_compute; congruence |] end.
    apply eq_of_Z256; [exact W|]. rewrite V. change (not64 0) with (2 ^ 64 - 1).
    rewrite Z.pow_add_r, Z.pow_mul_r by lia.
    rewrite <- (Z_mod_plus_full _ 1 (2 ^ 256)), (Z.mod_small _ (2 ^ 256)).
    + destruct i as [|[|[|[|]]]]; [| | | |lia];
      fold_limb_consts; lia.
    + pose proof (seg_range (2 ^ 64) (limbs x) 0 i ltac:(lia) (wf_limbs x Hx)) as R.
      assert ((2 ^ 64) ^ Z.of_nat i <= 2 ^ 192) by (change (2 ^ 192) with ((2 ^ 64) ^ 3); apply Z.pow_le_mono_r; lia).
      set (P := (2 ^ 64) ^ Z.of_nat i) in *.
      assert (0 <= P * (aget (limbs x) i mod 2 ^ w)) by (apply Z.mul_nonneg_nonneg; lia).
      assert (P * (aget (limbs x) i mod 2 ^ w) <= P * (2 ^ w - 1)) by (apply Z.mul_le_mono_nonneg_l; lia).
      assert (P * 2 ^ w <= 2 ^ 192 * 2 ^ 64) by (apply Z.mul_le_mono_nonneg; lia). lia.
  - rewrite land_low_mask by lia.
    destruct (fill_limbs x i (aget (limbs x) i mod 2 ^ w) 0 Hx Hi) as [W V]; [unfold u64; lia | split; [lia|reflexivity] |].
    apply eq_of_Z256; [exact W|]. rewrite V, Z.mul_0_l, Z.add_0_r. symmetry. apply Z.mod_small.
    rewrite <- val_mod_limb by (assumption || lia). pose proof (val_range x Hx).
    assert (0 < 2 ^ (64 * Z.of_nat i + w)) by (apply Z.pow_pos_nonneg; lia).
    pose proof (Z.mod_pos_bound (val x) (2 ^ (64 * Z.of_nat i + w)) ltac:(lia)).
    pose proof (Z.mod_le (val x) (2 ^ (64 * Z.of_nat i + w)) ltac:(lia) ltac:(lia)). lia.
Qed.
