(* ===== verification/Effects.v ===== *)
(** Effects of the interpreter's code: the status codes of
    include/div0/evm/status.h, the early-return and undefined-behaviour
    effects as a small monad with its notation, and the Hoare triples the
    handlers are specified with. *)
From Stdlib Require Import ZArith Lia List Bool.
From S2P Require Import Prelude.
Import ListNotations.
#[local] Open Scope Z_scope.

(** * Status codes *)

Inductive evm_status_t :=
| EVM_OK
| EVM_STACK_OVERFLOW
| EVM_STACK_UNDERFLOW
| EVM_INVALID_OPCODE
| EVM_OUT_OF_GAS
| EVM_INVALID_JUMP
| EVM_WRITE_PROTECTION
| EVM_CALL_DEPTH_EXCEEDED
| EVM_INSUFFICIENT_BALANCE
| EVM_STATE_UNAVAILABLE.

Inductive evm_result_t := EVM_RESULT_STOP | EVM_RESULT_ERROR.

(** * The monad

    A C function that updates a state [S] and either runs to its end with a
    value, returns early with a status, or does something C gives no meaning
    to. [OutOfBounds] is an access outside the initialised part of an object,
    [Diverges] a loop that never ends, and [OutOfFuel] is the model's own
    bound, which the termination theorems rule out. *)
Inductive fault := OutOfBounds | Diverges | OutOfFuel.

Inductive outcome (S A : Type) :=
| Ret (s : S) (a : A)
| Err (s : S) (e : evm_status_t)
| Crash (f : fault).
Arguments Ret {S A} s a.
Arguments Err {S A} s e.
Arguments Crash {S A} f.

Definition M (S A : Type) : Type := S -> outcome S A.

Definition ret {S A} (a : A) : M S A := fun s => Ret s a.
Definition throw {S A} (e : evm_status_t) : M S A := fun s => Err s e.
Definition crash {S A} (f : fault) : M S A := fun _ => Crash f.
Definition gets {S A} (g : S -> A) : M S A := fun s => Ret s (g s).
Definition modify {S} (g : S -> S) : M S unit := fun s => Ret (g s) tt.

Definition bind {S A B} (m : M S A) (k : A -> M S B) : M S B := fun s =>
  match m s with
  | Ret s a => k a s
  | Err s e => Err s e
  | Crash f => Crash f
  end.

(** [if (!b) return e;] *)
Definition guard {S} (b : bool) (e : evm_status_t) : M S unit := if b then ret tt else throw e.

(** The same on a condition of the state. *)
Definition check {S} (g : S -> bool) (e : evm_status_t) : M S unit := fun s => guard (g s) e s.

Declare Scope eff_scope.
Delimit Scope eff_scope with eff.
Notation "x <- m ;; k" := (bind m (fun x => k)) (at level 61, m at next level, right associativity) : eff_scope.
Notation "' p <- m ;; k" := (bind m (fun x => let p := x in k))
  (at level 61, p pattern, m at next level, right associativity) : eff_scope.
Notation "m ;; k" := (bind m (fun _ => k)) (at level 61, right associativity) : eff_scope.

(** Run a computation on a component of the state. *)
Definition zoom {S T A} (get : S -> T) (put : T -> S -> S) (m : M T A) : M S A := fun s =>
  match m (get s) with
  | Ret t a => Ret (put t s) a
  | Err t e => Err (put t s) e
  | Crash f => Crash f
  end.

(** * Triples

    [triple P m Q E C]: from a state in [P], [m] ends with a value and a state
    in [Q], or returns early in a state of [E], or faults with a fault of [C]. *)
Definition triple {S A} (P : S -> Prop) (m : M S A) (Q : A -> S -> Prop) (E : S -> Prop) (C : fault -> Prop) : Prop :=
  forall s, P s ->
    match m s with
    | Ret s' a => Q a s'
    | Err s' _ => E s'
    | Crash f => C f
    end.

Section Rules.
Context {S : Type} (E : S -> Prop) (C : fault -> Prop).

Lemma triple_bind {A B} (P : S -> Prop) (m : M S A) (Q : A -> S -> Prop) (k : A -> M S B) R :
  triple P m Q E C -> (forall a, triple (Q a) (k a) R E C) -> triple P (bind m k) R E C.
Proof.
  intros H1 H2 s Hs. specialize (H1 s Hs). unfold bind.
  destruct (m s) as [s' a|s' e|f]; auto. apply H2, H1.
Qed.

Lemma triple_ret {A} (P : S -> Prop) (a : A) : triple P (ret a) (fun _ => P) E C.
Proof. intros s Hs; exact Hs. Qed.

Lemma triple_weaken {A} (P P' : S -> Prop) (m : M S A) (Q Q' : A -> S -> Prop) :
  triple P' m Q' E C -> (forall s, P s -> P' s) -> (forall a s, Q' a s -> Q a s) -> triple P m Q E C.
Proof. intros H HP HQ s Hs. specialize (H s (HP s Hs)). destruct (m s); auto. Qed.

(** Pure facts move between the state assertion and the context. *)
Lemma triple_pure {A} (phi : Prop) (P : S -> Prop) (m : M S A) Q :
  (phi -> triple P m Q E C) -> triple (fun s => P s /\ phi) m Q E C.
Proof. intros H s [HP Hphi]. exact (H Hphi s HP). Qed.

Lemma triple_guard (P : S -> Prop) b e : (forall s, P s -> E s) ->
  triple P (guard b e) (fun _ s => P s /\ b = true) E C.
Proof. intros HE s Hs. destruct b; cbn; auto. Qed.

Lemma triple_check (P : S -> Prop) g e : (forall s, P s -> E s) ->
  triple P (check g e) (fun _ s => P s /\ g s = true) E C.
Proof. intros HE s Hs. unfold check. destruct (g s) eqn:G; cbn; auto. Qed.

Lemma triple_throw {A} (P : S -> Prop) e Q : (forall s, P s -> E s) -> triple P (@throw S A e) Q E C.
Proof. intros HE s Hs; exact (HE s Hs). Qed.

Lemma triple_crash {A} (P : S -> Prop) f Q : C f -> triple P (@crash S A f) Q E C.
Proof. intros HC s _; exact HC. Qed.

Lemma triple_if {A} (P : S -> Prop) (b : bool) (m1 m2 : M S A) Q :
  (b = true -> triple P m1 Q E C) -> (b = false -> triple P m2 Q E C) ->
  triple P (if b then m1 else m2) Q E C.
Proof. destruct b; auto. Qed.
End Rules.

(** A triple of a component, in the whole state. *)
Lemma triple_zoom {S T A} (get : S -> T) (put : T -> S -> S) (R : S -> Prop) (P : T -> Prop) (m : M T A) Q E C :
  (forall s t, get (put t s) = t) -> (forall s t, R s -> R (put t s)) ->
  triple P m Q E C ->
  triple (fun s => R s /\ P (get s)) (zoom get put m) (fun a s => R s /\ Q a (get s)) (fun s => R s /\ E (get s)) C.
Proof.
  intros GP RP H s [HR HP]. specialize (H _ HP). unfold zoom. destruct (m (get s)); rewrite ?GP; auto.
Qed.
