(* ===== verification/Types.v ===== *)
(** Addresses and hashes: include/div0/types/address.h, src/types/address.c,
    include/div0/types/hash.h and src/types/hash.c. *)
From Stdlib Require Import ZArith Lia List Bool.
From S2P Require Import Prelude Uint256.
Import ListNotations.
#[local] Open Scope Z_scope.
#[local] Open Scope word_scope.

(** * Addresses: 20 bytes, big-endian *)

Definition ADDRESS_SIZE : nat := 20.
Definition address_t : Type := list Z.
Definition wf_address (a : address_t) : Prop := length a = ADDRESS_SIZE /\ bytes_ok a.

Definition address_zero : address_t := repeat 0 ADDRESS_SIZE.

(** The loop of [address_is_zero], and [memcmp(a, b, 20) == 0]. *)
Fixpoint address_is_zero (addr : address_t) : bool :=
  match addr with
  | [] => true
  | b :: rest => if negb (b =? 0) then false else address_is_zero rest
  end.

Fixpoint bytes_eqb (a b : list Z) : bool :=
  match a, b with
  | [], [] => true
  | x :: a', y :: b' => (x =? y) && bytes_eqb a' b'
  | _, _ => false
  end.

Definition address_equal (a b : address_t) : bool := bytes_eqb a b.

(** The eight bytes [(uint8_t)(limb >> 56) ... (uint8_t)limb]. *)
Definition be8 (limb : Z) : list Z :=
  [w8 (limb >>64 56); w8 (limb >>64 48); w8 (limb >>64 40); w8 (limb >>64 32);
   w8 (limb >>64 24); w8 (limb >>64 16); w8 (limb >>64 8); w8 limb].

Definition address_from_uint256 (value : uint256_t) : address_t :=
  let upper := w32 (limb2 value) in
  let mid := limb1 value in
  let low := limb0 value in
  [w8 (Z.shiftr upper 24); w8 (Z.shiftr upper 16); w8 (Z.shiftr upper 8); w8 upper] ++ be8 mid ++ be8 low.

(** [((uint64_t)b0 << 56) | ... | (uint64_t)b7]. *)
Definition limb_of8 (b : list Z) : Z :=
  Z.lor (Z.lor (Z.lor (Z.lor (Z.lor (Z.lor (Z.lor
    (aget b 0 <<64 56) (aget b 1 <<64 48)) (aget b 2 <<64 40)) (aget b 3 <<64 32))
    (aget b 4 <<64 24)) (aget b 5 <<64 16)) (aget b 6 <<64 8)) (aget b 7).

Definition address_to_uint256 (addr : address_t) : uint256_t :=
  U256 (limb_of8 (skipn 12 addr)) (limb_of8 (skipn 4 addr))
    (Z.lor (Z.lor (Z.lor (aget addr 0 <<64 24) (aget addr 1 <<64 16)) (aget addr 2 <<64 8)) (aget addr 3)) 0.

(** * Hashes: 32 bytes, big-endian *)

Definition HASH_SIZE : nat := 32.
Definition hash_t : Type := list Z.
Definition wf_hash (h : hash_t) : Prop := length h = HASH_SIZE /\ bytes_ok h.

Definition hash_zero : hash_t := repeat 0 HASH_SIZE.

(** [hash_is_zero] reads the bytes as four little-endian limbs. *)
Definition le_limb (h : list Z) (k : nat) : Z := be_val (rev (firstn 8 (skipn (8 * k) h))).

Definition hash_is_zero (h : hash_t) : bool :=
  Z.lor (Z.lor (Z.lor (le_limb h 0) (le_limb h 1)) (le_limb h 2)) (le_limb h 3) =? 0.

Definition hash_equal (a b : hash_t) : bool := bytes_eqb a b.
Definition hash_to_uint256 (h : hash_t) : uint256_t := uint256_from_bytes_be h.
Definition hash_from_uint256 (value : uint256_t) : hash_t := uint256_to_bytes_be value.

(** * Lemmas *)

Lemma bytes_eqb_eq a b : bytes_eqb a b = true <-> a = b.
Proof.
  revert b; induction a as [|x a IH]; intros [|y b]; cbn; try (split; congruence).
  rewrite andb_true_iff, Z.eqb_eq, IH. split; [intros []; congruence | intros [= -> ->]; auto].
Qed.

Lemma address_is_zero_spec a : length a = ADDRESS_SIZE -> address_is_zero a = address_equal a address_zero.
Proof.
  unfold address_equal, address_zero. intros <-.
  induction a as [|x a IH]; cbn; [reflexivity|]. destruct (x =? 0); cbn; auto.
Qed.

Lemma be8_spec limb : u64 limb -> be8 limb = be_bytes 8 limb.
Proof.
  intros H. unfold be8, w8, shr64. rewrite !Z.shiftr_div_pow2 by lia. cbn [be_bytes app].
  rewrite !Z.div_div by lia. reflexivity.
Qed.

Lemma length_be8 limb : length (be8 limb) = 8%nat.
Proof. reflexivity. Qed.

(** The low 160 bits, big-endian. *)
Lemma address_from_uint256_spec v : wf256 v -> address_from_uint256 v = be_bytes 20 (val v).
Proof.
  intros (L0&L1&L2&L3). unfold address_from_uint256. rewrite !be8_spec by assumption.
  change 20%nat with (4 + (8 + 8))%nat. rewrite !be_bytes_app. f_equal; [|f_equal].
  - change (2 ^ (8 * Z.of_nat (8 + 8))) with (2 ^ 128).
    assert (E : val v / 2 ^ 128 = limb2 v + 2 ^ 64 * limb3 v).
    { symmetry; apply Z.div_unique_pos with (limb0 v + 2 ^ 64 * limb1 v); unfold val, u64 in *; lia. }
    rewrite E. rewrite <- (be_bytes_mod 4). change (2 ^ (8 * Z.of_nat 4)) with (2 ^ 32).
    replace ((limb2 v + 2 ^ 64 * limb3 v) mod 2 ^ 32) with (w32 (limb2 v)).
    2:{ unfold w32. replace (2 ^ 64 * limb3 v) with (2 ^ 32 * limb3 v * 2 ^ 32) by ring. rewrite Z_mod_plus_full. reflexivity. }
    unfold w8. rewrite !Z.shiftr_div_pow2 by lia. cbn [be_bytes app]. rewrite !Z.div_div by lia. reflexivity.
  - change (2 ^ (8 * Z.of_nat 8)) with (2 ^ 64).
    assert (E : val v / 2 ^ 64 = limb1 v + (limb2 v + 2 ^ 64 * limb3 v) * 2 ^ 64).
    { symmetry; apply Z.div_unique_pos with (limb0 v); unfold val, u64 in *; lia. }
    rewrite E, <- (be_bytes_mod 8 (_ + _)), <- (be_bytes_mod 8 (limb1 v)).
    change (2 ^ (8 * Z.of_nat 8)) with (2 ^ 64). rewrite Z_mod_plus_full. reflexivity.
  - rewrite <- (be_bytes_mod 8 (val v)), <- (be_bytes_mod 8 (limb0 v)).
    change (2 ^ (8 * Z.of_nat 8)) with (2 ^ 64).
    replace (val v) with (limb0 v + (limb1 v + 2 ^ 64 * (limb2 v + 2 ^ 64 * limb3 v)) * 2 ^ 64) by (unfold val; ring).
    rewrite Z_mod_plus_full. reflexivity.
Qed.

Lemma wf_address_from v : wf256 v -> wf_address (address_from_uint256 v).
Proof. intros H. rewrite address_from_uint256_spec by assumption. split; [apply length_be_bytes | apply be_bytes_ok]. Qed.

(** Or-ing in the next byte, one byte below. *)
Lemma lor_step h b k1 k : k1 = k + 8 -> 0 <= k -> u8 b -> Z.lor (h * 2 ^ k1) (b * 2 ^ k) = (h * 2 ^ 8 + b) * 2 ^ k.
Proof.
  intros -> Hk Hb. unfold u8 in Hb. rewrite lor_add; [rewrite Z.pow_add_r by lia; ring | lia |].
  rewrite Z.pow_add_r by lia. assert (0 < 2 ^ k) by (apply Z.pow_pos_nonneg; lia). nia.
Qed.

Lemma shl_byte b k : u8 b -> 0 <= k <= 56 -> b <<64 k = b * 2 ^ k.
Proof.
  intros Hb Hk. unfold shl64. rewrite Z.shiftl_mul_pow2 by lia. apply w64_small.
  assert (2 ^ k <= 2 ^ 56) by (apply Z.pow_le_mono_r; lia).
  assert (0 < 2 ^ k) by (apply Z.pow_pos_nonneg; lia). unfold u8, u64 in *. nia.
Qed.

Ltac bytes_inv :=
  repeat match goal with
  | H : bytes_ok (_ :: _) |- _ => unfold bytes_ok in H
  | H : Forall _ (_ :: _) |- _ => inversion H; clear H; subst
  end.

Lemma be_val_limb b0 b1 b2 b3 b4 b5 b6 b7 rest : bytes_ok [b0; b1; b2; b3; b4; b5; b6; b7] ->
  limb_of8 (b0 :: b1 :: b2 :: b3 :: b4 :: b5 :: b6 :: b7 :: rest) = be_val [b0; b1; b2; b3; b4; b5; b6; b7].
Proof.
  intros H. bytes_inv. unfold limb_of8, aget; cbn [nth]. rewrite !shl_byte by (assumption || lia).
  rewrite (lor_step _ _ 56 48), (lor_step _ _ 48 40), (lor_step _ _ 40 32), (lor_step _ _ 32 24), (lor_step _ _ 24 16),
    (lor_step _ _ 16 8) by (assumption || lia).
  rewrite lor_add by (assumption || lia). unfold be_val; cbn [fold_left]; ring.
Qed.

Lemma list_length_S {A} (l : list A) n : length l = S n -> exists x t, l = x :: t /\ length t = n.
Proof. destruct l; [discriminate|]. intros [= H]. eauto. Qed.

(** Destruct a list of known concrete length. *)
Ltac list_cases l :=
  repeat match goal with
  | H : length ?t = S _ |- _ => apply list_length_S in H; let x := fresh "b" in let r := fresh "t" in destruct H as (x & r & -> & H)
  | H : length ?t = O |- _ => apply length_zero_iff_nil in H; subst t
  end.

Lemma address_to_uint256_spec a : wf_address a -> address_to_uint256 a = of_Z256 (be_val a).
Proof.
  intros [L B]. unfold ADDRESS_SIZE in L. list_cases a. bytes_inv.
  unfold address_to_uint256. cbn [skipn]. rewrite !be_val_limb by (repeat (apply Forall_cons; [assumption|]); apply Forall_nil).
  unfold aget; cbn [nth]. rewrite !shl_byte by (assumption || lia).
  rewrite (lor_step _ _ 24 16), (lor_step _ _ 16 8) by (assumption || lia).
  rewrite lor_add by (assumption || lia).
  apply eq_of_Z256.
  - unfold be_val; cbn [fold_left]. unfold wf256, u64, u8 in *; cbn [limb0 limb1 limb2 limb3]. lia.
  - unfold be_val, val; cbn [fold_left limb0 limb1 limb2 limb3]. unfold u8 in *. symmetry. rewrite Z.mod_small by lia. lia.
Qed.

(** Round trips: the low 160 bits survive, and every address does. *)
Lemma address_to_from v : wf256 v -> address_to_uint256 (address_from_uint256 v) = of_Z256 (val v mod 2 ^ 160).
Proof.
  intros H. rewrite address_to_uint256_spec by (apply wf_address_from, H).
  rewrite address_from_uint256_spec, be_val_be_bytes by assumption. reflexivity.
Qed.

Lemma address_from_to a : wf_address a -> address_from_uint256 (address_to_uint256 a) = a.
Proof.
  intros [L B]. rewrite address_to_uint256_spec by (split; assumption).
  rewrite address_from_uint256_spec, val_of_Z256 by apply wf_of_Z256.
  pose proof (be_val_range a B) as R. rewrite L in R. change (8 * Z.of_nat ADDRESS_SIZE) with 160 in R.
  rewrite Z.mod_small by lia. change 20%nat with ADDRESS_SIZE. rewrite <- L. apply be_bytes_be_val, B.
Qed.

Lemma wf_address_to a : wf_address a -> wf256 (address_to_uint256 a).
Proof. intros H. rewrite address_to_uint256_spec by assumption. apply wf_of_Z256. Qed.

Lemma wf_hash_from v : wf256 v -> wf_hash (hash_from_uint256 v).
Proof.
  intros H. unfold hash_from_uint256. rewrite uint256_to_bytes_be_spec by assumption.
  split; [apply length_be_bytes | apply be_bytes_ok].
Qed.

Lemma wf_from_bytes bs : bytes_ok bs -> wf256 (uint256_from_bytes_be bs).
Proof. intros H. rewrite uint256_from_bytes_be_spec by assumption. apply wf_of_Z256. Qed.

Lemma bytes_ok_zeros n : bytes_ok (repeat 0 n).
Proof. apply Forall_forall. intros x ->%repeat_spec. split; [lia|reflexivity]. Qed.

Lemma wf_address_zero : wf_address address_zero.
Proof. split; [reflexivity | apply bytes_ok_zeros]. Qed.

Lemma wf_hash_zero : wf_hash hash_zero.
Proof. split; [reflexivity | apply bytes_ok_zeros]. Qed.

#[export] Hint Resolve wf_address_from wf_address_to wf_hash_from wf_from_bytes wf_address_zero wf_hash_zero bytes_ok_zeros : words.
