(* ===== verification/Arena.v ===== *)
(** The arena allocator of include/div0/mem/arena.h: chained 64 KB blocks with
    bump allocation, a separate chain for large blocks, and bulk reset. *)
From Stdlib Require Import ZArith Lia List Bool.
From S2P Require Import Prelude.
Import ListNotations.
#[local] Open Scope Z_scope.

Definition DIV0_ARENA_ALIGNMENT : Z := 8.
Definition DIV0_ARENA_BLOCK_SIZE : Z := 65536.
Definition SIZE_MAX : Z := 2 ^ 64 - 1.

(** The blocks of the chain by their [offset], first block first; [current]
    is the position of [arena->current]. Large blocks keep their data size. *)
Record div0_arena_t := Arena { blocks : list Z; current : nat; large_blocks : list Z }.

(** A pointer into block [i] of the chain (or of the large chain). *)
Definition ptr_t : Type := (nat * Z)%type.

Section Alloc.
(** Where the allocator of the C library puts the [data] of the [i]-th block
    of the chain, and whether it has memory for it. *)
Variable block_addr : nat -> Z.
Variable malloc_ok : nat -> bool.

Definition power_of_two_check (alignment : Z) : bool :=
  (alignment =? 0) || negb (Z.land alignment (alignment - 1) =? 0).

(** [(x + align_mask) & ~align_mask] on 64 bits. *)
Definition align_up (x align_mask : Z) : Z := Z.land (w64 (x + align_mask)) (not64 align_mask).

Definition div0_arena_init : option div0_arena_t :=
  if malloc_ok 0 then Some (Arena [0] 0 []) else None.

Definition div0_arena_alloc_aligned (arena : div0_arena_t) (size alignment : Z) : div0_arena_t * option ptr_t :=
  if (size =? 0) || power_of_two_check alignment then (arena, None)
  else
    let align_mask := alignment - 1 in
    if size >? SIZE_MAX - align_mask then (arena, None)
    else
      let aligned_size := align_up size align_mask in
      if aligned_size >? DIV0_ARENA_BLOCK_SIZE then (arena, None)
      else
        let i := current arena in
        let offset := aget (blocks arena) i in
        let current_addr := block_addr i + offset in
        let aligned_addr := align_up current_addr align_mask in
        let aligned_offset := w64 (aligned_addr - block_addr i) in
        if w64 (aligned_offset + aligned_size) <=? DIV0_ARENA_BLOCK_SIZE then
          (Arena (aset (blocks arena) i (aligned_offset + aligned_size)) i (large_blocks arena),
           Some (i, aligned_offset))
        else
          let data_start := block_addr (S i) in
          let new_aligned_offset := w64 (align_up data_start align_mask - data_start) in
          if (S i <? length (blocks arena))%nat then
            (Arena (aset (blocks arena) (S i) (new_aligned_offset + aligned_size)) (S i) (large_blocks arena),
             Some (S i, new_aligned_offset))
          else if malloc_ok (S i) then
            (Arena (blocks arena ++ [new_aligned_offset + aligned_size]) (S i) (large_blocks arena),
             Some (S i, new_aligned_offset))
          else (arena, None).

Definition div0_arena_alloc (arena : div0_arena_t) (size : Z) : div0_arena_t * option ptr_t :=
  div0_arena_alloc_aligned arena size DIV0_ARENA_ALIGNMENT.

(** The sizes of [div0_arena_alloc_large]; [None] when a check fails. The
    header of a block is its two words before [data]. *)
Definition header_size : Z := 16.

Definition large_block_data_size (size alignment : Z) : option Z :=
  if (size =? 0) || power_of_two_check alignment then None
  else
    let align_mask := alignment - 1 in
    if size >? SIZE_MAX - align_mask then None
    else
      let aligned_size := align_up size align_mask in
      if aligned_size >? SIZE_MAX - alignment then None
      else
        let block_data_size := aligned_size + alignment in
        if block_data_size >? SIZE_MAX - header_size then None else Some block_data_size.

(** [malloc_large] is the address [malloc] gives the block's data, if any. *)
Definition div0_arena_alloc_large (arena : div0_arena_t) (size alignment : Z) (malloc_large : option Z) :
  div0_arena_t * option ptr_t :=
  match large_block_data_size size alignment, malloc_large with
  | Some block_data_size, Some data_start =>
      let aligned_offset := w64 (align_up data_start (alignment - 1) - data_start) in
      (Arena (blocks arena) (current arena) (block_data_size :: large_blocks arena), Some (0%nat, aligned_offset))
  | _, _ => (arena, None)
  end.

Definition div0_arena_reset (arena : div0_arena_t) : div0_arena_t :=
  Arena (map (fun _ => 0) (blocks arena)) 0 [].

(** * Correctness *)

Record arena_ok (a : div0_arena_t) : Prop := {
  ok_current : (current a < length (blocks a))%nat;
  ok_offsets : forall i, 0 <= aget (blocks a) i <= DIV0_ARENA_BLOCK_SIZE }.

(** Blocks are aligned at least as the request and lie in the address space. *)
Variable alignment : Z.
Hypothesis Halign : exists k, 0 <= k <= 16 /\ alignment = 2 ^ k.
Hypothesis Haddr : forall i, 0 <= block_addr i < 2 ^ 64 - 2 ^ 18 /\ block_addr i mod alignment = 0.

Lemma alignment_range : 1 <= alignment <= 2 ^ 16.
Proof.
  destruct Halign as (k & Hk & ->). split; [|apply Z.pow_le_mono_r; lia].
  assert (0 < 2 ^ k) by (apply Z.pow_pos_nonneg; lia). lia.
Qed.

Lemma power_check : power_of_two_check alignment = false.
Proof.
  pose proof alignment_range. unfold power_of_two_check. rewrite (proj2 (Z.eqb_neq _ _)) by lia. cbn [orb].
  destruct Halign as (k & Hk & E). rewrite E. replace (2 ^ k - 1) with (Z.ones k) by (rewrite Z.ones_equiv; lia).
  rewrite Z.land_ones, Z_mod_same_full by lia. reflexivity.
Qed.

(** Rounding up to the alignment. *)
Lemma align_up_spec x : 0 <= x < 2 ^ 64 - 2 ^ 16 ->
  exists q, align_up x (alignment - 1) = q * alignment /\ x <= q * alignment < x + alignment.
Proof.
  intros Hx. pose proof alignment_range as R. destruct Halign as (k & Hk & E). exists ((x + (alignment - 1)) / alignment).
  unfold align_up. rewrite w64_small by (unfold u64; lia).
  assert (P : 0 < 2 ^ k) by (apply Z.pow_pos_nonneg; lia).
  assert (L : Z.land (x + (alignment - 1)) (not64 (alignment - 1)) = (x + (alignment - 1)) / alignment * alignment).
  { rewrite E. rewrite <- Z.shiftr_div_pow2, <- Z.shiftl_mul_pow2 by lia.
    apply Z.bits_inj'; intros i Hi. rewrite Z.land_spec, Z.shiftl_spec by lia.
    unfold not64, UINT64_MAX. replace (2 ^ 64 - 1 - (2 ^ k - 1)) with (Z.ones (64 - k) * 2 ^ k).
    2:{ rewrite Z.ones_equiv, <- Z.sub_1_r, Z.mul_sub_distr_r, <- Z.pow_add_r by lia. replace (64 - k + k) with 64 by lia. lia. }
    rewrite <- Z.shiftl_mul_pow2, Z.shiftl_spec by lia. destruct (Z.lt_ge_cases i k).
    - rewrite !(Z.testbit_neg_r _ (i - k)) by lia. apply andb_false_r.
    - rewrite Z.shiftr_spec by lia. replace (i - k + k) with i by lia. destruct (Z.lt_ge_cases i 64).
      + rewrite Z.ones_spec_low by lia. apply andb_true_r.
      + rewrite (testbit_high _ 64 i) by lia. reflexivity. }
  rewrite L. split; [reflexivity|].
  pose proof (Z.div_mod (x + (alignment - 1)) alignment ltac:(lia)).
  pose proof (Z.mod_pos_bound (x + (alignment - 1)) alignment ltac:(lia)). lia.
Qed.

(** Every block starts aligned, so the first offset of a fresh block is 0. *)
Lemma fresh_offset i : w64 (align_up (block_addr i) (alignment - 1) - block_addr i) = 0.
Proof.
  destruct (Haddr i) as [R M]. pose proof alignment_range. destruct (align_up_spec (block_addr i)) as (q & -> & Hq); [lia|].
  pose proof (Z.div_mod (block_addr i) alignment ltac:(lia)) as D. rewrite M, Z.add_0_r in D.
  assert (q * alignment = block_addr i) as ->; [|rewrite Z.sub_diag; reflexivity].
  rewrite D in *. set (d := block_addr i / alignment) in *. assert (q = d) by nia. subst q. ring.
Qed.

(** A request close to the end of the address space is too large. *)
Lemma align_up_big x : 2 ^ 64 - 2 ^ 16 <= x <= SIZE_MAX - (alignment - 1) -> 2 ^ 63 <= align_up x (alignment - 1).
Proof.
  intros Hx. pose proof alignment_range as AR. unfold align_up, SIZE_MAX in *.
  rewrite w64_small by (unfold u64; lia). set (y := x + (alignment - 1)).
  assert (B63 : Z.testbit (Z.land y (not64 (alignment - 1))) 63 = true).
  { rewrite Z.land_spec. apply andb_true_iff; split; apply Z.testbit_true; try lia.
    - replace (y / 2 ^ 63) with 1; [reflexivity|]. apply Z.div_unique_pos with (y - 2 ^ 63); unfold y; lia.
    - unfold not64, UINT64_MAX. replace (_ / 2 ^ 63) with 1; [reflexivity|].
      apply Z.div_unique_pos with (2 ^ 63 - alignment); lia. }
  apply Z.nlt_ge; intros Lt. rewrite (testbit_high _ 63 63) in B63; [discriminate| |lia].
  split; [apply Z.land_nonneg; left; unfold y; lia | exact Lt].
Qed.

Lemma small_request size : 0 <= size -> size <= SIZE_MAX - (alignment - 1) ->
  align_up size (alignment - 1) <= DIV0_ARENA_BLOCK_SIZE -> size < 2 ^ 17.
Proof.
  intros H0 H1 G. unfold DIV0_ARENA_BLOCK_SIZE in G. apply Z.nle_gt; intros C.
  destruct (Z.lt_ge_cases size (2 ^ 64 - 2 ^ 16)) as [L|L].
  - destruct (align_up_spec size) as (q & EQ & Hq); [lia|]. rewrite EQ in G. lia.
  - pose proof (align_up_big size ltac:(lia)). lia.
Qed.

(** What a successful allocation returns: an aligned region that starts at or
    above the block's old offset and ends at its new offset, inside the block. *)
Lemma alloc_aligned_spec a size a' i off : arena_ok a -> 0 <= size ->
  div0_arena_alloc_aligned a size alignment = (a', Some (i, off)) ->
  arena_ok a' /\ (i = current a' /\ (current a <= i)%nat) /\ (block_addr i + off) mod alignment = 0 /\
  0 <= off /\ off + size <= aget (blocks a') i <= DIV0_ARENA_BLOCK_SIZE /\
  (i = current a -> aget (blocks a) i <= off) /\
  (forall j, (j < i)%nat -> aget (blocks a') j = aget (blocks a) j).
Proof.
  intros [OC OO] Hs. unfold div0_arena_alloc_aligned. rewrite power_check. pose proof alignment_range as AR.
  destruct (Z.eqb_spec size 0); cbn [orb]; [discriminate|].
  destruct (Z.gtb_spec size (SIZE_MAX - (alignment - 1))); [discriminate|].
  destruct (Z.gtb_spec (align_up size (alignment - 1)) DIV0_ARENA_BLOCK_SIZE) as [|G]; [discriminate|].
  pose proof (small_request size ltac:(lia) ltac:(lia) G) as S1.
  destruct (align_up_spec size) as (q & EQ & Hq); [lia|]. rewrite EQ in *. set (asz := q * alignment) in *.
  set (c := current a) in *. pose proof (OO c) as Oc. destruct (Haddr c) as [Rc Mc].
  destruct (align_up_spec (block_addr c + aget (blocks a) c)) as (p & EP & Hp); [unfold DIV0_ARENA_BLOCK_SIZE in *; lia|]. rewrite EP.
  unfold DIV0_ARENA_BLOCK_SIZE in *.
  rewrite (w64_small (p * alignment - block_addr c)) by (unfold u64; lia).
  rewrite (w64_small (_ + asz)) by (unfold u64; lia).
  destruct (Z.leb_spec (p * alignment - block_addr c + asz) 65536) as [Fit|NoFit].
  - intros [= <- <- <-]. cbn [blocks current].
    split; [|split; [auto|]].
    + split; cbn [blocks current]; [rewrite length_aset; exact OC|]. intros j. destruct (Nat.eq_dec c j) as [<-|N].
      * rewrite aget_aset_eq by exact OC. unfold DIV0_ARENA_BLOCK_SIZE. lia.
      * rewrite aget_aset_ne by exact N. apply OO.
    + rewrite aget_aset_eq by exact OC. split; [replace (block_addr c + (p * alignment - block_addr c)) with (0 + p * alignment) by ring; rewrite Z_mod_plus_full; reflexivity|].
      split; [lia|]. split; [lia|]. split; [lia|]. intros j Hj. apply aget_aset_ne; lia.
  - rewrite fresh_offset. destruct (Haddr (S c)) as [Rn Mn].
    destruct (Nat.ltb_spec (S c) (length (blocks a))) as [L|L]; [|destruct (malloc_ok (S c)); [|discriminate]].
    + intros [= <- <- <-]. cbn [blocks current]. rewrite Z.add_0_l. split; [|split; [lia|]].
      * split; cbn [blocks current]; [rewrite length_aset; exact L|]. intros j. destruct (Nat.eq_dec (S c) j) as [<-|N].
        -- rewrite aget_aset_eq by exact L. unfold DIV0_ARENA_BLOCK_SIZE. lia.
        -- rewrite aget_aset_ne by exact N. apply OO.
      * rewrite aget_aset_eq, Z.add_0_r by exact L. repeat split; try lia; try assumption.
        intros j Hj. apply aget_aset_ne; lia.
    + intros [= <- <- <-]. cbn [blocks current]. rewrite Z.add_0_l. assert (EL : S c = length (blocks a)) by lia.
      assert (Last : aget (blocks a ++ [asz]) (S c) = asz) by (unfold aget; rewrite EL; apply nth_middle).
      assert (Old : forall j, (j < S c)%nat -> aget (blocks a ++ [asz]) j = aget (blocks a) j)
        by (intros j Hj; unfold aget; apply app_nth1; lia).
      split; [|split; [lia|]].
      * split; cbn [blocks current]; [rewrite length_app; cbn; lia|]. intros j. destruct (Nat.lt_trichotomy j (S c)) as [N|[->|N]].
        -- rewrite Old by exact N. apply OO.
        -- rewrite Last. unfold DIV0_ARENA_BLOCK_SIZE; lia.
        -- unfold aget. rewrite nth_overflow by (rewrite length_app; cbn; lia). unfold DIV0_ARENA_BLOCK_SIZE; lia.
      * rewrite Last, Z.add_0_r. repeat split; try lia; try assumption; apply Old.
Qed.

(** ** Live allocations

    A trace of the regions handed out since the last reset. They lie below
    the offsets of their blocks and never overlap. *)
Definition region : Type := (nat * Z * Z)%type.

Definition disjoint (r s : region) : Prop :=
  let '(i, off, size) := r in
  let '(i', off', size') := s in
  i <> i' \/ off + size <= off' \/ off' + size' <= off.

Definition below (a : div0_arena_t) (r : region) : Prop :=
  let '(i, off, size) := r in
  (i <= current a)%nat /\ 0 <= off /\ off + size <= aget (blocks a) i.

Definition live_ok (a : div0_arena_t) (live : list region) : Prop :=
  Forall (below a) live /\ ForallOrdPairs disjoint live.

Lemma alloc_live a size a' i off live : arena_ok a -> 0 <= size -> live_ok a live ->
  div0_arena_alloc_aligned a size alignment = (a', Some (i, off)) -> live_ok a' ((i, off, size) :: live).
Proof.
  intros Ha Hs [LB LD] E. destruct (alloc_aligned_spec _ _ _ _ _ Ha Hs E) as (_ & [Ei Ci] & _ & O1 & [O2 _] & O3 & O4).
  rewrite Forall_forall in LB. split.
  - constructor; [unfold below; rewrite <- Ei; auto|]. apply Forall_forall. intros [[j o] z] Hin.
    specialize (LB _ Hin). cbn in LB |- *. destruct LB as (B1 & B2 & B3). split; [lia|]. split; [lia|].
    destruct (Nat.eq_dec j i) as [->|N]; [|rewrite O4 by lia; exact B3].
    assert (i = current a) as Ec by lia. specialize (O3 Ec). lia.
  - constructor; [|exact LD]. apply Forall_forall. intros [[j o] z] Hin. specialize (LB _ Hin).
    cbn in LB |- *. destruct LB as (B1 & B2 & B3). destruct (Nat.eq_dec i j) as [<-|N]; [|left; exact N].
    right; right. assert (i = current a) as Ec by lia. specialize (O3 Ec). lia.
Qed.

Lemma reset_ok a : arena_ok a -> arena_ok (div0_arena_reset a) /\ live_ok (div0_arena_reset a) [].
Proof.
  intros [OC OO]. split; [|split; constructor]. split; cbn [blocks current div0_arena_reset].
  - rewrite length_map. lia.
  - intros i. unfold aget. replace (nth i (map (fun _ => 0) (blocks a)) 0) with 0; [unfold DIV0_ARENA_BLOCK_SIZE; lia|].
    symmetry. clear OC OO. revert i; induction (blocks a); intros [|i]; cbn; auto.
Qed.
End Alloc.

(** ** The alignment the code uses

    With 8-byte alignment and memory for new blocks, [div0_arena_alloc] serves
    exactly the requests of 1 to 65536 bytes. *)
Definition alloc_succeeds (size : Z) : bool := (0 <? size) && (size <=? DIV0_ARENA_BLOCK_SIZE).

Lemma alloc_succeeds_spec block_addr malloc_ok a size :
  (forall i, malloc_ok i = true) -> 0 <= size <= SIZE_MAX ->
  (alloc_succeeds size = true <-> exists a' p, div0_arena_alloc block_addr malloc_ok a size = (a', Some p)).
Proof.
  intros HM Hs. assert (HA : exists k, 0 <= k <= 16 /\ DIV0_ARENA_ALIGNMENT = 2 ^ k) by (exists 3; split; [lia|reflexivity]).
  assert (HB : forall i : nat, 0 <= (fun _ : nat => 0) i < 2 ^ 64 - 2 ^ 18 /\ (fun _ : nat => 0) i mod DIV0_ARENA_ALIGNMENT = 0)
    by (intros; cbn; split; [lia|reflexivity]).
  unfold div0_arena_alloc, div0_arena_alloc_aligned. rewrite (power_check _ _ HA HB), orb_false_r.
  unfold alloc_succeeds, SIZE_MAX in *. change (DIV0_ARENA_ALIGNMENT - 1) with 7 in *.
  destruct (Z.eqb_spec size 0) as [->|N]; [split; [discriminate | intros (?&?&[=])]|].
  destruct (Z.gtb_spec size (2 ^ 64 - 1 - 7)) as [G|G].
  { split; [|intros (?&?&[=])]. rewrite andb_true_iff, Z.leb_le. unfold DIV0_ARENA_BLOCK_SIZE. lia. }
  rewrite andb_true_iff, Z.ltb_lt, Z.leb_le. unfold DIV0_ARENA_BLOCK_SIZE.
  destruct (Z.lt_ge_cases size (2 ^ 64 - 2 ^ 16)) as [L|L].
  - destruct (align_up_spec _ _ HA HB size) as (q & E & Hq); [lia|]. change (DIV0_ARENA_ALIGNMENT - 1) with 7 in E. rewrite E.
    change DIV0_ARENA_ALIGNMENT with 8 in *. destruct (Z.gtb_spec (q * 8) 65536) as [G2|G2].
    + split; [lia | intros (?&?&[=])].
    + split; [intros _ | lia]. rewrite HM. destruct (_ <=? 65536); [eauto|]. destruct (_ <? _)%nat; eauto.
  - pose proof (align_up_big _ _ HA HB size) as B. unfold SIZE_MAX in B. change (DIV0_ARENA_ALIGNMENT - 1) with 7 in B.
    specialize (B ltac:(lia)). destruct (Z.gtb_spec (align_up size 7) 65536); [|lia]. split; [lia | intros (?&?&[=])].
Qed.
