(* ===== verification/Stack.v ===== *)
(** The operand stack of include/div0/evm/stack.h and its pool. *)
From Stdlib Require Import ZArith Lia List Bool.
From S2P Require Import Prelude Uint256 Arena.
Import ListNotations.
#[local] Open Scope Z_scope.

Definition EVM_STACK_MAX_DEPTH : Z := 1024.
Definition EVM_STACK_INITIAL_CAPACITY : Z := 32.
Definition SIZEOF_UINT256 : Z := 32.

(** The live slots, top of the stack first; [capacity] slots are allocated.
    The index of the next free slot, [top], is their number. Slots above [top]
    are never read. *)
Record evm_stack_t := Stack { items : list uint256_t; capacity : Z }.

Definition top (s : evm_stack_t) : Z := Z.of_nat (length (items s)).

Definition evm_stack_init : option evm_stack_t :=
  if alloc_succeeds (EVM_STACK_INITIAL_CAPACITY * SIZEOF_UINT256)
  then Some (Stack [] EVM_STACK_INITIAL_CAPACITY) else None.

Definition evm_stack_size (s : evm_stack_t) : Z := top s.
Definition evm_stack_is_empty (s : evm_stack_t) : bool := top s =? 0.
Definition evm_stack_has_items (s : evm_stack_t) (n : Z) : bool := n <=? top s.
Definition evm_stack_has_space (s : evm_stack_t) (n : Z) : bool := top s + n <=? EVM_STACK_MAX_DEPTH.

(** [realloc] copies the slots, so the live ones stay. *)
Definition evm_stack_grow (s : evm_stack_t) : bool * evm_stack_t :=
  let new_capacity :=
    if EVM_STACK_MAX_DEPTH / 2 <=? capacity s then EVM_STACK_MAX_DEPTH else capacity s * 2 in
  if new_capacity <=? capacity s then (false, s)
  else if alloc_succeeds (new_capacity * SIZEOF_UINT256) then (true, Stack (items s) new_capacity)
  else (false, s).

(** The [while] of [evm_stack_ensure_space]; [None] when the fuel runs out. *)
Fixpoint ensure_loop (fuel : nat) (s : evm_stack_t) (n : Z) : option (bool * evm_stack_t) :=
  if top s + n >? capacity s then
    match fuel with
    | O => None
    | S fuel' =>
        let '(ok, s') := evm_stack_grow s in
        if negb ok then Some (false, s') else ensure_loop fuel' s' n
    end
  else Some (true, s).

(** Each round at least doubles a capacity that starts at 32 or more, or ends
    the loop. *)
Definition ENSURE_FUEL : nat := 6.

Definition evm_stack_ensure_space (s : evm_stack_t) (n : Z) : option (bool * evm_stack_t) :=
  if negb (evm_stack_has_space s n) then Some (false, s) else ensure_loop ENSURE_FUEL s n.

(** Writes to a slot beyond the allocation, and reads of a slot that is not
    live, are [None]. *)
Definition evm_stack_push_unsafe (s : evm_stack_t) (value : uint256_t) : option evm_stack_t :=
  if top s <? capacity s then Some (Stack (value :: items s) (capacity s)) else None.

Definition evm_stack_push (s : evm_stack_t) (value : uint256_t) : option (bool * evm_stack_t) :=
  if EVM_STACK_MAX_DEPTH <=? top s then Some (false, s)
  else
    let '(ok, s) := if capacity s <=? top s then evm_stack_grow s else (true, s) in
    if negb ok then Some (false, s)
    else match evm_stack_push_unsafe s value with Some s => Some (true, s) | None => None end.

Definition evm_stack_pop_unsafe (s : evm_stack_t) : option (uint256_t * evm_stack_t) :=
  match items s with
  | [] => None
  | x :: rest => Some (x, Stack rest (capacity s))
  end.

Definition evm_stack_peek_unsafe (s : evm_stack_t) (depth : nat) : option uint256_t := nth_error (items s) depth.

(** [items[top] = items[top - depth]; ++top], with [depth >= 1]. *)
Definition evm_stack_dup_unsafe (s : evm_stack_t) (depth : nat) : option evm_stack_t :=
  match nth_error (items s) (depth - 1) with
  | Some x => if top s <? capacity s then Some (Stack (x :: items s) (capacity s)) else None
  | None => None
  end.

Fixpoint list_set {A} (l : list A) (i : nat) (x : A) : list A :=
  match l, i with
  | [], _ => []
  | _ :: t, O => x :: t
  | h :: t, S i' => h :: list_set t i' x
  end.

Definition evm_stack_swap_unsafe (s : evm_stack_t) (depth : nat) : option evm_stack_t :=
  match nth_error (items s) 0, nth_error (items s) depth with
  | Some tmp, Some other => Some (Stack (list_set (list_set (items s) 0 other) depth tmp) (capacity s))
  | _, _ => None
  end.

Definition evm_stack_clear (s : evm_stack_t) : evm_stack_t := Stack [] (capacity s).

(** [evm_stack_pool_borrow]: a small structure and the slots, both from the arena. *)
Definition SIZEOF_EVM_STACK : Z := 24.

Definition evm_stack_pool_borrow : option evm_stack_t :=
  if alloc_succeeds SIZEOF_EVM_STACK then evm_stack_init else None.

(** * Invariant *)

Record stack_ok (s : evm_stack_t) : Prop := {
  so_top : top s <= capacity s;
  so_capacity : 32 <= capacity s <= EVM_STACK_MAX_DEPTH;
  so_items : Forall wf256 (items s) }.

Lemma top_cons x l c : top (Stack (x :: l) c) = top (Stack l c) + 1.
Proof. unfold top; cbn [items length]. lia. Qed.

Lemma top_nonneg s : 0 <= top s.
Proof. unfold top; lia. Qed.

Lemma grow_spec s : 32 <= capacity s <= EVM_STACK_MAX_DEPTH ->
  evm_stack_grow s =
    if capacity s <? EVM_STACK_MAX_DEPTH
    then (true, Stack (items s) (Z.min (2 * capacity s) EVM_STACK_MAX_DEPTH)) else (false, s).
Proof.
  unfold evm_stack_grow, EVM_STACK_MAX_DEPTH. change (1024 / 2) with 512. intros H.
  destruct (Z.leb_spec 512 (capacity s)), (Z.ltb_spec (capacity s) 1024).
  - rewrite Z.min_r, (proj2 (Z.leb_gt _ _)) by lia. reflexivity.
  - rewrite (proj2 (Z.leb_le _ _)) by lia. reflexivity.
  - rewrite Z.min_l, (proj2 (Z.leb_gt _ _)) by lia. unfold alloc_succeeds, SIZEOF_UINT256, DIV0_ARENA_BLOCK_SIZE.
    rewrite (proj2 (Z.ltb_lt _ _)), (proj2 (Z.leb_le _ _)) by lia. cbn [andb]. rewrite Z.mul_comm. reflexivity.
  - lia.
Qed.

(** [ensure_space] never runs out of fuel: it succeeds exactly when the depth
    limit allows the slots, and only changes the capacity. *)
Lemma ensure_loop_spec fuel s n : 32 <= capacity s <= EVM_STACK_MAX_DEPTH -> top s + n <= EVM_STACK_MAX_DEPTH ->
  EVM_STACK_MAX_DEPTH <= capacity s * 2 ^ Z.of_nat fuel ->
  exists c, ensure_loop fuel s n = Some (true, Stack (items s) c) /\
    capacity s <= c <= EVM_STACK_MAX_DEPTH /\ top s + n <= c.
Proof.
  unfold EVM_STACK_MAX_DEPTH. revert s; induction fuel as [|fuel IH]; intros s Hc Hn Hf; cbn [ensure_loop];
    destruct (Z.gtb_spec (top s + n) (capacity s)) as [G|G].
  - exfalso. cbn in Hf. lia.
  - exists (capacity s). destruct s; repeat split; cbn in *; lia.
  - rewrite grow_spec by exact Hc. unfold EVM_STACK_MAX_DEPTH. rewrite (proj2 (Z.ltb_lt _ _)) by lia. cbn [negb].
    destruct (IH (Stack (items s) (Z.min (2 * capacity s) 1024))) as (c & E & Ec & En).
    + cbn [capacity]; lia.
    + exact Hn.
    + cbn [capacity]. rewrite Nat2Z.inj_succ, Z.pow_succ_r in Hf by lia.
      assert (1 <= 2 ^ Z.of_nat fuel) by (assert (0 < 2 ^ Z.of_nat fuel) by (apply Z.pow_pos_nonneg; lia); lia).
      destruct (Z.min_spec (2 * capacity s) 1024) as [[_ ->]|[_ ->]]; lia.
    + exists c. rewrite E. cbn [items capacity top] in *. split; [reflexivity|]. unfold top in *; cbn [items] in *. lia.
  - exists (capacity s). destruct s; repeat split; cbn in *; lia.
Qed.

Lemma ensure_space_spec s n : stack_ok s -> 0 <= n ->
  (top s + n <= EVM_STACK_MAX_DEPTH ->
     exists c, evm_stack_ensure_space s n = Some (true, Stack (items s) c) /\
       capacity s <= c <= EVM_STACK_MAX_DEPTH /\ top s + n <= c) /\
  (EVM_STACK_MAX_DEPTH < top s + n -> evm_stack_ensure_space s n = Some (false, s)).
Proof.
  intros [H1 H2 H3] Hn. unfold evm_stack_ensure_space, evm_stack_has_space. split; intros Hs.
  - rewrite (proj2 (Z.leb_le _ _)) by exact Hs. cbn [negb]. apply ensure_loop_spec; auto.
    unfold ENSURE_FUEL, EVM_STACK_MAX_DEPTH in *. cbn. lia.
  - rewrite (proj2 (Z.leb_gt _ _)) by exact Hs. reflexivity.
Qed.

Lemma ensure_space_ok s n b s' : stack_ok s -> 0 <= n -> evm_stack_ensure_space s n = Some (b, s') -> stack_ok s'.
Proof.
  intros H Hn E. destruct (ensure_space_spec s n H Hn) as [E1 E2].
  destruct (Z.le_gt_cases (top s + n) EVM_STACK_MAX_DEPTH) as [C|C].
  - destruct (E1 C) as (c & E' & Hc & Ht). rewrite E' in E. injection E as <- <-. destruct H as [H1 H2 H3].
    split; cbn [items capacity] in *; [unfold top in *; cbn [items]; lia | unfold EVM_STACK_MAX_DEPTH in *; lia | exact H3].
  - rewrite (E2 C) in E. injection E as <- <-. exact H.
Qed.

(** A checked push is a push onto a list bounded by 1024. *)
Lemma push_spec s v : stack_ok s -> wf256 v ->
  exists s', evm_stack_push s v = Some (top s <? EVM_STACK_MAX_DEPTH, s') /\ stack_ok s' /\
    items s' = if top s <? EVM_STACK_MAX_DEPTH then v :: items s else items s.
Proof.
  intros [H1 H2 H3] Hv. unfold evm_stack_push, EVM_STACK_MAX_DEPTH in *. pose proof (top_nonneg s).
  destruct (Z.leb_spec 1024 (top s)), (Z.ltb_spec (top s) 1024); try lia.
  - exists s. split; [reflexivity|]. split; [split; assumption | reflexivity].
  - destruct (Z.leb_spec (capacity s) (top s)) as [C|C].
    + rewrite grow_spec by exact H2. unfold EVM_STACK_MAX_DEPTH. rewrite (proj2 (Z.ltb_lt (capacity s) _)) by lia. cbn [negb].
      unfold evm_stack_push_unsafe. unfold top in *; cbn [items capacity] in *.
      rewrite (proj2 (Z.ltb_lt _ _)) by lia. eexists; split; [reflexivity|]. split; [|reflexivity].
      split; unfold top, EVM_STACK_MAX_DEPTH in *; cbn [items capacity length] in *; [lia|lia|constructor; auto].
    + cbn [negb]. unfold evm_stack_push_unsafe. rewrite (proj2 (Z.ltb_lt _ _)) by lia. eexists; split; [reflexivity|].
      split; [|reflexivity]. split; unfold top in *; cbn [items capacity length] in *; [lia|exact H2|constructor; auto].
Qed.

Lemma pop_push s v s' : evm_stack_push_unsafe s v = Some s' -> evm_stack_pop_unsafe s' = Some (v, s).
Proof.
  unfold evm_stack_push_unsafe. destruct (_ <? _); [|discriminate]. intros [= <-]. destruct s; reflexivity.
Qed.

Lemma length_list_set {A} (l : list A) i x : length (list_set l i x) = length l.
Proof. revert i; induction l; intros [|i]; cbn; auto. Qed.

Lemma Forall_list_set {A} (P : A -> Prop) l i x : Forall P l -> P x -> Forall P (list_set l i x).
Proof. intros H Hx; revert i; induction H; intros [|i]; cbn; auto. Qed.

Lemma nth_error_list_set {A} (l : list A) i j x : (i < length l)%nat ->
  nth_error (list_set l i x) j = if Nat.eqb i j then Some x else nth_error l j.
Proof.
  revert i j; induction l as [|h t IH]; intros [|i] [|j] H; cbn in *; try lia; try reflexivity. apply IH; lia.
Qed.

Lemma swap_ok s d s' : stack_ok s -> evm_stack_swap_unsafe s d = Some s' ->
  stack_ok s' /\ length (items s') = length (items s) /\ capacity s' = capacity s.
Proof.
  intros [H1 H2 H3]. unfold evm_stack_swap_unsafe. destruct (nth_error (items s) 0) as [x|] eqn:E0; [|discriminate].
  destruct (nth_error (items s) d) as [y|] eqn:E1; [|discriminate]. intros [= <-].
  assert (L : length (list_set (list_set (items s) 0 y) d x) = length (items s)) by (rewrite !length_list_set; reflexivity).
  split; [|auto]. split; cbn [items capacity]; [unfold top in *; cbn [items]; rewrite L; exact H1 | exact H2 |].
  rewrite Forall_forall in H3. apply Forall_list_set; [apply Forall_list_set; [apply Forall_forall; exact H3|]|].
  - apply H3, (nth_error_In _ _ E1).
  - apply H3, (nth_error_In _ _ E0).
Qed.

Lemma init_ok : exists s, evm_stack_pool_borrow = Some s /\ stack_ok s /\ items s = [].
Proof.
  eexists; split; [reflexivity|]. split; [|reflexivity].
  split; unfold EVM_STACK_MAX_DEPTH, EVM_STACK_INITIAL_CAPACITY; cbn; [lia | lia | constructor].
Qed.
