(* ===== verification/Memory.v ===== *)
(** The linear memory of include/div0/evm/memory.h and src/evm/memory.c. *)
From Stdlib Require Import ZArith Lia List Bool.
From S2P Require Import Prelude Uint256 Types Arena.
Import ListNotations.
#[local] Open Scope Z_scope.
#[local] Open Scope word_scope.

Definition EVM_MEMORY_INITIAL_CAPACITY : Z := 1024.

(** The first [size] bytes of the buffer, and its allocated capacity. The bytes
    between [size] and [mem_capacity] are not initialised and are zeroed before
    [size] grows over them. *)
Record evm_memory_t := Memory { data : list Z; mem_capacity : Z }.

Definition evm_memory_size (mem : evm_memory_t) : Z := Z.of_nat (length (data mem)).

Definition evm_memory_init : evm_memory_t := Memory [] 0.
Definition evm_memory_reset (mem : evm_memory_t) : evm_memory_t := Memory [] 0.

(** [(n + 31) & ~31] *)
Definition round_up_32 (n : Z) : Z := Z.land (n +64 31) (not64 31).

Definition evm_memory_expansion_cost (current_words new_words : Z) : Z :=
  if new_words <=? current_words then 0
  else
    let new_cost := (3 *64 new_words) +64 ((new_words *64 new_words) / 512) in
    let old_cost := (3 *64 current_words) +64 ((current_words *64 current_words) / 512) in
    new_cost -64 old_cost.

(** [while (new_capacity < new_size) new_capacity *= 2;], [None] out of fuel. *)
Fixpoint double_capacity (fuel : nat) (new_capacity new_size : Z) : option Z :=
  if new_capacity <? new_size then
    match fuel with
    | O => None
    | S fuel' => double_capacity fuel' (new_capacity *64 2) new_size
    end
  else Some new_capacity.

(** A capacity of 1024 or more passes [2^63] within 53 rounds. *)
Definition DOUBLE_FUEL : nat := 64.

(** The result ([true] on success), the gas cost and the memory; [None] when
    the doubling loop does not end. *)
Definition evm_memory_expand (mem : evm_memory_t) (offset size : Z) : option (bool * Z * evm_memory_t) :=
  if size =? 0 then Some (true, 0, mem)
  else if offset >? SIZE_MAX - size then Some (false, 0, mem)
  else
    let required := offset +64 size in
    let new_size := round_up_32 required in
    let current_words := evm_memory_size mem / 32 in
    let new_words := new_size / 32 in
    let gas_cost := evm_memory_expansion_cost current_words new_words in
    if new_size <=? evm_memory_size mem then Some (true, gas_cost, mem)
    else
      let zero_fill cap :=
        Memory (data mem ++ repeat 0 (Z.to_nat (new_size - evm_memory_size mem))) cap in
      if new_size >? mem_capacity mem then
        let start := if mem_capacity mem =? 0 then EVM_MEMORY_INITIAL_CAPACITY else mem_capacity mem in
        match double_capacity DOUBLE_FUEL start new_size with
        | None => None
        | Some new_capacity =>
            if alloc_succeeds new_capacity then Some (true, gas_cost, zero_fill new_capacity)
            else Some (false, gas_cost, mem)
        end
      else Some (true, gas_cost, zero_fill (mem_capacity mem)).

(** Reads and writes of a range; [None] outside the first [size] bytes. *)
Definition evm_memory_load_unsafe (mem : evm_memory_t) (offset len : Z) : option (list Z) :=
  if offset + len <=? evm_memory_size mem
  then Some (firstn (Z.to_nat len) (skipn (Z.to_nat offset) (data mem))) else None.

Definition evm_memory_store_unsafe (mem : evm_memory_t) (offset : Z) (bs : list Z) : option evm_memory_t :=
  if offset + Z.of_nat (length bs) <=? evm_memory_size mem
  then Some (Memory (firstn (Z.to_nat offset) (data mem) ++ bs ++
                     skipn (Z.to_nat offset + length bs) (data mem)) (mem_capacity mem)) else None.

Definition evm_memory_store8_unsafe (mem : evm_memory_t) (offset value : Z) : option evm_memory_t :=
  evm_memory_store_unsafe mem offset [value].

Definition evm_memory_store32_unsafe (mem : evm_memory_t) (offset : Z) (value : uint256_t) : option evm_memory_t :=
  evm_memory_store_unsafe mem offset (uint256_to_bytes_be value).

Definition evm_memory_load32_unsafe (mem : evm_memory_t) (offset : Z) : option uint256_t :=
  match evm_memory_load_unsafe mem offset 32 with
  | Some bs => Some (uint256_from_bytes_be bs)
  | None => None
  end.

(** [memmove] within the memory. *)
Definition evm_memory_copy_unsafe (mem : evm_memory_t) (dest src len : Z) : option evm_memory_t :=
  match evm_memory_load_unsafe mem src len with
  | Some bs => evm_memory_store_unsafe mem dest bs
  | None => None
  end.

(** * Invariant *)

Record mem_ok (m : evm_memory_t) : Prop := {
  mo_words : evm_memory_size m mod 32 = 0;
  mo_size : evm_memory_size m <= mem_capacity m;
  mo_capacity : mem_capacity m = 0 \/ exists k, 10 <= k <= 16 /\ mem_capacity m = 2 ^ k;
  mo_bytes : bytes_ok (data m) }.

Lemma init_mem_ok : mem_ok evm_memory_init.
Proof. split; cbn; auto; try lia. constructor. Qed.

Lemma mem_size_bound m : mem_ok m -> 0 <= evm_memory_size m <= 65536.
Proof.
  intros [_ H [C|(k & Hk & C)] _]; rewrite C in H; unfold evm_memory_size in *; [lia|].
  assert (2 ^ k <= 2 ^ 16) by (apply Z.pow_le_mono_r; lia). lia.
Qed.

(** * Expansion *)

(** The cost of [a] words of the yellow paper. *)
Definition Cmem (a : Z) : Z := 3 * a + a * a / 512.

Lemma Cmem_mono a b : 0 <= a <= b -> 0 <= Cmem a <= Cmem b.
Proof.
  intros H. unfold Cmem. assert (0 <= a * a <= b * b) by nia.
  pose proof (Z.div_pos (a * a) 512 ltac:(lia) ltac:(lia)).
  pose proof (Z.div_le_mono (a * a) (b * b) 512 ltac:(lia) ltac:(lia)). lia.
Qed.

Lemma Cmem_bound a : 0 <= a < 2 ^ 32 -> Cmem a < 2 ^ 63.
Proof.
  intros H. unfold Cmem. assert (a * a < 2 ^ 64) by nia.
  assert (a * a / 512 < 2 ^ 55) by (apply Z.div_lt_upper_bound; lia). lia.
Qed.

Lemma expansion_cost_spec cur new : 0 <= cur -> 0 <= new < 2 ^ 32 ->
  evm_memory_expansion_cost cur new = if new <=? cur then 0 else Cmem new - Cmem cur.
Proof.
  intros Hc Hn. unfold evm_memory_expansion_cost. destruct (Z.leb_spec new cur) as [L|L]; [reflexivity|].
  assert (S : forall a, 0 <= a < 2 ^ 32 -> (3 *64 a) +64 ((a *64 a) / 512) = Cmem a).
  { intros a Ha. unfold mul64, add64. assert (0 <= a * a < 2 ^ 64) by nia.
    rewrite (w64_small (a * a)), (w64_small (3 * a)) by (unfold u64; lia).
    pose proof (Cmem_bound a Ha). pose proof (Cmem_mono 0 a ltac:(lia)). unfold Cmem in *.
    rewrite w64_small by (unfold u64; lia). reflexivity. }
  rewrite !S by lia. unfold sub64. pose proof (Cmem_mono cur new ltac:(lia)). pose proof (Cmem_bound new Hn).
  apply w64_small. unfold u64. lia.
Qed.

Lemma land_not31 x : u64 x -> Z.land x (not64 31) = x / 32 * 32.
Proof.
  intros Hx. change (not64 31) with (Z.ones 59 * 2 ^ 5). change 32 with (2 ^ 5).
  rewrite <- Z.shiftr_div_pow2, <- !Z.shiftl_mul_pow2 by lia.
  apply Z.bits_inj'; intros i Hi. rewrite Z.land_spec, !Z.shiftl_spec by lia. destruct (Z.lt_ge_cases i 5).
  - rewrite !(Z.testbit_neg_r _ (i - 5)) by lia. apply andb_false_r.
  - rewrite Z.shiftr_spec by lia. replace (i - 5 + 5) with i by lia. destruct (Z.lt_ge_cases i 64).
    + rewrite Z.ones_spec_low by lia. apply andb_true_r.
    + rewrite (testbit_high x 64 i) by (apply Hx || lia). reflexivity.
Qed.

Lemma round_up_32_spec n : 0 <= n <= 2 ^ 64 - 32 ->
  round_up_32 n = (n + 31) / 32 * 32 /\ n <= round_up_32 n < n + 32 /\ round_up_32 n mod 32 = 0.
Proof.
  intros H. unfold round_up_32, add64. rewrite w64_small by (unfold u64; lia).
  rewrite land_not31 by (unfold u64; lia). split; [reflexivity|]. split; [Z.div_mod_to_equations; lia|].
  apply Z_mod_mult.
Qed.

(** Above [2^64 - 32] the rounding wraps around to zero. *)
Lemma round_up_32_wrap n : 2 ^ 64 - 32 < n < 2 ^ 64 -> round_up_32 n = 0.
Proof.
  intros H. unfold round_up_32, add64. rewrite (w64_shift _ 1) by lia. rewrite land_not31 by (unfold u64; lia).
  rewrite Z.div_small by lia. reflexivity.
Qed.

(** The doubling loop: it ends at the first power of two that is large enough,
    if there is one below [2^64]. *)
Lemma double_capacity_spec fuel k n : 0 <= k <= 63 -> n <= 2 ^ 63 -> 63 - k <= Z.of_nat fuel ->
  exists k', k <= k' <= 63 /\ double_capacity fuel (2 ^ k) n = Some (2 ^ k') /\ n <= 2 ^ k' /\
    (k' = k \/ 2 ^ k' < 2 * n).
Proof.
  revert k; induction fuel as [|fuel IH]; intros k Hk Hn Hf; cbn [double_capacity]; destruct (Z.ltb_spec (2 ^ k) n) as [L|L].
  - assert (k = 63) by lia. subst k. lia.
  - exists k. repeat split; auto; lia.
  - destruct (Z.eq_dec k 63) as [->|N]; [lia|]. unfold mul64. replace (2 ^ k * 2) with (2 ^ (k + 1)) by (rewrite Z.pow_add_r by lia; reflexivity).
    assert (2 ^ (k + 1) <= 2 ^ 63) by (apply Z.pow_le_mono_r; lia).
    assert (0 < 2 ^ (k + 1)) by (apply Z.pow_pos_nonneg; lia).
    rewrite w64_small by (unfold u64; lia). destruct (IH (k + 1)) as (k' & Hk' & E & Hn' & M); try lia.
    exists k'. repeat split; auto; try lia. right. destruct M as [->|M]; [|exact M].
    rewrite Z.pow_add_r by lia. lia.
  - exists k. repeat split; auto; lia.
Qed.

(** Otherwise the capacity wraps to zero and the loop never ends. *)
Lemma double_zero_diverges fuel n : 0 < n -> double_capacity fuel 0 n = None.
Proof.
  intros Hn. induction fuel as [|fuel IH]; cbn [double_capacity]; rewrite (proj2 (Z.ltb_lt _ _)) by lia; auto.
Qed.

Lemma double_capacity_diverges fuel k n : 0 <= k <= 63 -> 2 ^ 63 < n -> double_capacity fuel (2 ^ k) n = None.
Proof.
  revert k; induction fuel as [|fuel IH]; intros k Hk Hn; assert (2 ^ k <= 2 ^ 63) by (apply Z.pow_le_mono_r; lia);
    cbn [double_capacity]; rewrite (proj2 (Z.ltb_lt _ _)) by lia; [reflexivity|].
  destruct (Z.eq_dec k 63) as [->|N].
  - change (2 ^ 63 *64 2) with 0. apply double_zero_diverges; lia.
  - unfold mul64. replace (2 ^ k * 2) with (2 ^ (k + 1)) by (rewrite Z.pow_add_r by lia; reflexivity).
    assert (2 ^ (k + 1) <= 2 ^ 63) by (apply Z.pow_le_mono_r; lia).
    assert (0 < 2 ^ (k + 1)) by (apply Z.pow_pos_nonneg; lia).
    rewrite w64_small by (unfold u64; lia). apply IH; lia.
Qed.

(** Size after covering [required] bytes. *)
Definition words_of (n : Z) : Z := (n + 31) / 32.

Lemma zero_fill_ok m n c : mem_ok m -> evm_memory_size m <= n -> n mod 32 = 0 -> n <= c ->
  (exists k, 10 <= k <= 16 /\ c = 2 ^ k) ->
  let m' := Memory (data m ++ repeat 0 (Z.to_nat (n - evm_memory_size m))) c in
  mem_ok m' /\ evm_memory_size m' = n.
Proof.
  intros [H1 H2 H3 H4] Hn Hm Hc Hk m'. assert (S : evm_memory_size m' = n).
  { unfold m', evm_memory_size in *; cbn [data]. rewrite length_app, repeat_length. lia. }
  split; [|exact S]. split; rewrite ?S; auto.
  unfold m'; cbn [data]. apply Forall_app; split; [exact H4|]. apply Forall_forall. intros x ->%repeat_spec. split; reflexivity || lia.
Qed.

(** [evm_memory_expand] on every range that ends at or below [2^63]. *)
Lemma expand_spec m offset size : mem_ok m -> u64 offset -> 0 <= size -> offset + size <= 2 ^ 63 ->
  let new := 32 * words_of (offset + size) in
  exists ok cost m', evm_memory_expand m offset size = Some (ok, cost, m') /\ mem_ok m' /\
    (ok = false -> m' = m /\ 65536 < new) /\
    (ok = true ->
       data m' = data m ++ repeat 0 (length (data m') - length (data m)) /\
       (size = 0 -> cost = 0 /\ m' = m) /\
       (0 < size -> offset + size <= evm_memory_size m' /\
          evm_memory_size m' = Z.max (evm_memory_size m) new /\
          cost = Cmem (evm_memory_size m' / 32) - Cmem (evm_memory_size m / 32))).
Proof.
  intros Hm Ho Hs He new. unfold evm_memory_expand, u64 in *. pose proof (mem_size_bound m Hm) as Sb.
  assert (Triv : data m = data m ++ repeat 0 (length (data m) - length (data m))) by (rewrite Nat.sub_diag, app_nil_r; reflexivity).
  destruct (Z.eqb_spec size 0) as [->|Nz].
  { do 3 eexists; split; [reflexivity|]. split; [exact Hm|]. split; [discriminate|]. intros _. split; [exact Triv|]. split; [auto|lia]. }
  unfold SIZE_MAX. destruct (Z.gtb_spec offset (2 ^ 64 - 1 - size)); [lia|].
  unfold add64. rewrite (w64_small (offset + size)) by (unfold u64; lia).
  destruct (round_up_32_spec (offset + size)) as (R1 & R2 & R3); [lia|].
  assert (EN : round_up_32 (offset + size) = new) by (rewrite R1; unfold new, words_of; ring). rewrite EN in *.
  assert (W : new / 32 = words_of (offset + size)) by (unfold new; rewrite Z.mul_comm; apply Z.div_mul; lia).
  assert (Dm : evm_memory_size m = 32 * (evm_memory_size m / 32)) by (pose proof (Z.div_mod (evm_memory_size m) 32); pose proof (mo_words m Hm); lia).
  destruct (Z.leb_spec new (evm_memory_size m)) as [L|L].
  { do 3 eexists; split; [reflexivity|]. split; [exact Hm|]. split; [discriminate|]. intros _. split; [exact Triv|]. split; [lia|]. intros _.
    split; [lia|]. split; [lia|]. unfold evm_memory_expansion_cost. rewrite (proj2 (Z.leb_le _ _)) by lia. lia. }
  assert (Cost : new <= 65536 -> evm_memory_expansion_cost (evm_memory_size m / 32) (new / 32) = Cmem (new / 32) - Cmem (evm_memory_size m / 32)).
  { intros Hb. rewrite expansion_cost_spec by lia. rewrite (proj2 (Z.leb_gt _ _)) by lia. reflexivity. }
  assert (Fill : forall c, new <= c <= 65536 -> (exists k, 10 <= k <= 16 /\ c = 2 ^ k) ->
    let m' := Memory (data m ++ repeat 0 (Z.to_nat (new - evm_memory_size m))) c in
    mem_ok m' /\ (data m' = data m ++ repeat 0 (length (data m') - length (data m)) /\
       (size = 0 -> evm_memory_expansion_cost (evm_memory_size m / 32) (new / 32) = 0 /\ m' = m) /\
       (0 < size -> offset + size <= evm_memory_size m' /\ evm_memory_size m' = Z.max (evm_memory_size m) new /\
        evm_memory_expansion_cost (evm_memory_size m / 32) (new / 32) = Cmem (evm_memory_size m' / 32) - Cmem (evm_memory_size m / 32)))).
  { intros c Hc Hk m'. destruct (zero_fill_ok m new c Hm ltac:(lia) R3 ltac:(lia) Hk) as [O S]. fold m' in O, S.
    split; [exact O|]. split; [|split; [lia|intros _; rewrite S, Cost by lia; lia]].
    unfold m' at 1; cbn [data]. do 2 f_equal. unfold evm_memory_size in *. lia. }
  destruct (Z.gtb_spec new (mem_capacity m)) as [G|G].
  - assert (K : exists k, 10 <= k <= 16 /\ (if mem_capacity m =? 0 then EVM_MEMORY_INITIAL_CAPACITY else mem_capacity m) = 2 ^ k).
    { destruct (mo_capacity m Hm) as [C|(k & Hk & C)]; rewrite C; [exists 10; split; [lia|reflexivity]|].
      rewrite (proj2 (Z.eqb_neq _ _)) by (assert (0 < 2 ^ k) by (apply Z.pow_pos_nonneg; lia); lia). exists k; auto. }
    destruct K as (k & Hk & ->).
    destruct (double_capacity_spec DOUBLE_FUEL k new) as (k' & Hk' & E & Hn & M); [lia | lia | unfold DOUBLE_FUEL; lia |].
    rewrite E. unfold alloc_succeeds, DIV0_ARENA_BLOCK_SIZE. assert (0 < 2 ^ k') by (apply Z.pow_pos_nonneg; lia).
    rewrite (proj2 (Z.ltb_lt 0 _)) by lia. cbn [andb]. destruct (Z.leb_spec (2 ^ k') 65536) as [A|A].
    + assert (k' <= 16) by (apply (Z.pow_le_mono_r_iff 2); lia).
      do 3 eexists; split; [reflexivity|]. destruct (Fill (2 ^ k')) as [F1 F2]; [lia | exists k'; split; [lia|reflexivity] |].
      split; [exact F1|]. split; [discriminate|]. intros _; exact F2.
    + do 3 eexists; split; [reflexivity|]. split; [exact Hm|]. split; [intros _; split; [reflexivity|] | discriminate].
      assert (17 <= k') by (apply Z.nlt_ge; intros X; assert (2 ^ k' <= 2 ^ 16) by (apply Z.pow_le_mono_r; lia); lia).
      assert (2 ^ 17 <= 2 ^ k') by (apply Z.pow_le_mono_r; lia). destruct M as [->|M]; lia.
  - destruct (mo_capacity m Hm) as [C|(k & Hk & C)]; [lia|]. assert (2 ^ k <= 2 ^ 16) by (apply Z.pow_le_mono_r; lia).
    do 3 eexists; split; [reflexivity|]. destruct (Fill (mem_capacity m)) as [F1 F2]; [lia | exists k; auto |].
    split; [exact F1|]. split; [discriminate|]. intros _; exact F2.
Qed.

(** The two ranges of arguments on which expansion does not do its job: it
    reports success without growing, or its loop never ends. *)
Lemma expand_wraps m offset size : u64 offset -> u64 size -> 0 < size ->
  2 ^ 64 - 32 < offset + size < 2 ^ 64 -> evm_memory_expand m offset size = Some (true, 0, m).
Proof.
  unfold u64; intros Ho Hs Hp H. unfold evm_memory_expand, SIZE_MAX. rewrite (proj2 (Z.eqb_neq _ _)) by lia.
  destruct (Z.gtb_spec offset (2 ^ 64 - 1 - size)); [lia|]. unfold add64. rewrite (w64_small (offset + size)) by (unfold u64; lia).
  rewrite round_up_32_wrap by lia. pose proof (Zle_0_nat (length (data m))).
  rewrite (proj2 (Z.leb_le 0 (evm_memory_size m))) by (unfold evm_memory_size; lia).
  unfold evm_memory_expansion_cost. rewrite (proj2 (Z.leb_le _ _)); [reflexivity|].
  change (0 / 32) with 0. apply Z.div_pos; unfold evm_memory_size; lia.
Qed.

Lemma expand_diverges m offset size : mem_ok m -> u64 offset -> u64 size -> 0 < size ->
  2 ^ 63 < offset + size <= 2 ^ 64 - 32 -> evm_memory_expand m offset size = None.
Proof.
  unfold u64; intros Hm Ho Hs Hp H. unfold evm_memory_expand, SIZE_MAX. rewrite (proj2 (Z.eqb_neq _ _)) by lia.
  destruct (Z.gtb_spec offset (2 ^ 64 - 1 - size)); [lia|]. unfold add64. rewrite (w64_small (offset + size)) by (unfold u64; lia).
  destruct (round_up_32_spec (offset + size)) as (_ & R2 & _); [lia|]. pose proof (mem_size_bound m Hm).
  rewrite (proj2 (Z.leb_gt _ _)) by lia.
  assert (G : mem_capacity m <= 65536).
  { destruct (mo_capacity m Hm) as [->|(k & Hk & ->)]; [lia|]. change 65536 with (2 ^ 16). apply Z.pow_le_mono_r; lia. }
  destruct (Z.gtb_spec (round_up_32 (offset + size)) (mem_capacity m)); [|lia].
  destruct (mo_capacity m Hm) as [->|(k & Hk & ->)].
  - change (if 0 =? 0 then EVM_MEMORY_INITIAL_CAPACITY else 0) with (2 ^ 10). rewrite double_capacity_diverges by lia. reflexivity.
  - rewrite (proj2 (Z.eqb_neq _ _)) by (assert (0 < 2 ^ k) by (apply Z.pow_pos_nonneg; lia); lia).
    rewrite double_capacity_diverges by lia. reflexivity.
Qed.

(** Expansion on all arguments: what is left unless the range is one of those. *)
Lemma expansion_cost_u64 a b : u64 (evm_memory_expansion_cost a b).
Proof. unfold evm_memory_expansion_cost, sub64. destruct (_ <=? _); auto with words. Qed.

Lemma expand_cost_u64 m offset size ok cost m' : evm_memory_expand m offset size = Some (ok, cost, m') -> u64 cost.
Proof.
  unfold evm_memory_expand. repeat match goal with
    | |- context [if ?b then _ else _] => destruct b
    | |- context [match double_capacity ?a ?b ?c with _ => _ end] => destruct (double_capacity a b c)
    end; intros [= <- <- <-]; auto using expansion_cost_u64, u64_0.
Qed.

Lemma expand_any m offset size : mem_ok m -> u64 offset -> u64 size ->
  match evm_memory_expand m offset size with
  | None => 2 ^ 63 < offset + size
  | Some (ok, cost, m') => mem_ok m' /\ u64 cost /\ evm_memory_size m <= evm_memory_size m' /\
      (ok = true -> offset + size <= evm_memory_size m' \/ size = 0 \/ 2 ^ 63 < offset + size)
  end.
Proof.
  intros Hm Ho Hs. destruct (Z.le_gt_cases (offset + size) (2 ^ 63)) as [L|L].
  - destruct (expand_spec m offset size Hm Ho (proj1 Hs) L) as (ok & cost & m' & E & M & F & K). rewrite E.
    split; [exact M|]. split; [exact (expand_cost_u64 _ _ _ _ _ _ E)|]. split.
    + destruct ok; [|destruct F as [-> _]; [reflexivity|apply Z.le_refl]]. destruct K as [D _]; [reflexivity|].
      apply (f_equal (@length Z)) in D. rewrite length_app in D. unfold evm_memory_size. lia.
    + intros ->. destruct K as (_ & _ & K); [reflexivity|]. destruct (Z.eq_dec size 0); [auto|]. left. apply K. destruct Hs; lia.
  - destruct (Z.eq_dec size 0) as [->|N].
    { cbn. split; [exact Hm|]. split; [apply u64_0|]. split; [lia|auto]. }
    unfold u64 in *. destruct (Z.le_gt_cases (2 ^ 64) (offset + size)).
    + unfold evm_memory_expand, SIZE_MAX. rewrite (proj2 (Z.eqb_neq _ _)) by lia.
      destruct (Z.gtb_spec offset (2 ^ 64 - 1 - size)); [|lia]. split; [exact Hm|]. split; [apply u64_0|]. split; [lia|discriminate].
    + destruct (Z.le_gt_cases (offset + size) (2 ^ 64 - 32)).
      * rewrite expand_diverges by (unfold u64; auto; lia). lia.
      * rewrite expand_wraps by (unfold u64; lia). split; [exact Hm|]. split; [apply u64_0|]. split; [lia|auto].
Qed.

(** A range inside the memory costs nothing. *)
Lemma expand_noop m offset size : mem_ok m -> 0 <= offset -> 0 <= size -> offset + size <= evm_memory_size m ->
  evm_memory_expand m offset size = Some (true, 0, m).
Proof.
  intros Hm Ho Hs He. pose proof (mem_size_bound m Hm) as Sb. pose proof (mo_words m Hm) as W. unfold evm_memory_expand, SIZE_MAX.
  destruct (Z.eqb_spec size 0); [reflexivity|]. destruct (Z.gtb_spec offset (2 ^ 64 - 1 - size)); [lia|].
  unfold add64. rewrite w64_small by (unfold u64; lia). destruct (round_up_32_spec (offset + size)) as (R1 & R2 & R3); [lia|].
  assert (L : round_up_32 (offset + size) <= evm_memory_size m) by (Z.div_mod_to_equations; lia).
  rewrite (proj2 (Z.leb_le _ _)) by exact L. unfold evm_memory_expansion_cost. rewrite (proj2 (Z.leb_le _ _)); [reflexivity|].
  apply Z.div_le_mono; lia.
Qed.

(** * Loads and stores *)

Lemma store_spec m offset bs : mem_ok m -> 0 <= offset -> bytes_ok bs ->
  offset + Z.of_nat (length bs) <= evm_memory_size m ->
  exists m', evm_memory_store_unsafe m offset bs = Some m' /\ mem_ok m' /\ evm_memory_size m' = evm_memory_size m.
Proof.
  intros [H1 H2 H3 H4] Ho Hb Hl. unfold evm_memory_store_unsafe. rewrite (proj2 (Z.leb_le _ _)) by exact Hl.
  eexists; split; [reflexivity|]. set (m' := Memory _ _).
  assert (S : evm_memory_size m' = evm_memory_size m).
  { unfold m', evm_memory_size in *; cbn [data]. rewrite !length_app, length_firstn, length_skipn. lia. }
  split; [|exact S]. split; rewrite ?S; auto. unfold m'; cbn [data]. unfold bytes_ok in *.
  rewrite !Forall_app. auto using Forall_firstn, Forall_skipn.
Qed.

Lemma load_spec m offset len : mem_ok m -> 0 <= offset -> 0 <= len -> offset + len <= evm_memory_size m ->
  exists bs, evm_memory_load_unsafe m offset len = Some bs /\ bytes_ok bs /\ Z.of_nat (length bs) = len.
Proof.
  intros Hm Ho Hl Hs. unfold evm_memory_load_unsafe. rewrite (proj2 (Z.leb_le _ _)) by exact Hs.
  eexists; split; [reflexivity|]. unfold evm_memory_size in Hs. split.
  - apply Forall_firstn, Forall_skipn, (mo_bytes m Hm).
  - rewrite length_firstn, length_skipn. lia.
Qed.

(** A load returns what the last store to exactly that range wrote. *)
Lemma load_store_same m offset bs m' : 0 <= offset -> evm_memory_store_unsafe m offset bs = Some m' ->
  evm_memory_load_unsafe m' offset (Z.of_nat (length bs)) = Some bs.
Proof.
  unfold evm_memory_store_unsafe, evm_memory_load_unsafe, evm_memory_size. intros Ho.
  destruct (Z.leb_spec (offset + Z.of_nat (length bs)) (Z.of_nat (length (data m)))) as [L|L]; [|discriminate].
  intros [= <-]. cbn [data]. rewrite !length_app, length_firstn, length_skipn.
  rewrite (proj2 (Z.leb_le _ _)) by lia. f_equal. rewrite Nat2Z.id, skipn_app, length_firstn.
  rewrite (skipn_all2 (firstn _ _)) by (rewrite length_firstn; lia). cbn [app].
  replace (Z.to_nat offset - Nat.min (Z.to_nat offset) (length (data m)))%nat with 0%nat by lia. cbn [skipn].
  rewrite firstn_app, firstn_all, Nat.sub_diag. cbn [firstn]. apply app_nil_r.
Qed.

(** The bytes of the stored range. *)
Lemma store_inside m offset bs m' i : 0 <= offset -> evm_memory_store_unsafe m offset bs = Some m' -> (i < length bs)%nat ->
  aget (data m') (Z.to_nat offset + i) = aget bs i.
Proof.
  unfold evm_memory_store_unsafe, evm_memory_size, aget. intros Ho.
  destruct (Z.leb_spec (offset + Z.of_nat (length bs)) (Z.of_nat (length (data m)))) as [L|L]; [|discriminate].
  intros [= <-] Hi. cbn [data]. rewrite app_nth2 by (rewrite length_firstn; lia). rewrite length_firstn, app_nth1 by lia. f_equal. lia.
Qed.

(** Expansion only appends zeros, so no byte changes. *)
Lemma expand_bytes m offset size ok cost m' : evm_memory_expand m offset size = Some (ok, cost, m') ->
  forall i, aget (data m') i = aget (data m) i.
Proof.
  assert (Z : forall n c i, aget (data (Memory (data m ++ repeat 0 n) c)) i = aget (data m) i).
  { intros n c i. cbn [data]. unfold aget. destruct (Nat.lt_ge_cases i (length (data m))); [apply app_nth1; assumption|].
    rewrite app_nth2, nth_repeat, nth_overflow by assumption. reflexivity. }
  unfold evm_memory_expand. intros E. repeat match type of E with
    | context [if ?b then _ else _] => destruct b
    | context [match double_capacity ?a ?b ?c with _ => _ end] => destruct (double_capacity a b c)
    end; try discriminate; injection E as <- <- <-; auto.
Qed.

(** Bytes outside the stored range are untouched. *)
Lemma store_other m offset bs m' i : 0 <= offset -> evm_memory_store_unsafe m offset bs = Some m' ->
  (i < Z.to_nat offset \/ Z.to_nat offset + length bs <= i)%nat -> aget (data m') i = aget (data m) i.
Proof.
  unfold evm_memory_store_unsafe, evm_memory_size, aget. intros Ho.
  destruct (Z.leb_spec (offset + Z.of_nat (length bs)) (Z.of_nat (length (data m)))) as [L|L]; [|discriminate].
  intros [= <-] Hi. cbn [data]. destruct Hi as [Hi|Hi].
  - rewrite app_nth1 by (rewrite length_firstn; lia).
    rewrite <- (firstn_skipn (Z.to_nat offset) (data m)) at 2. rewrite app_nth1 by (rewrite length_firstn; lia). reflexivity.
  - rewrite app_nth2, app_nth2; rewrite ?length_firstn; [|lia..]. rewrite nth_skipn. f_equal. lia.
Qed.

(** A store succeeds only inside the memory, and keeps its size. *)
Lemma store_some m offset bs m' : 0 <= offset -> evm_memory_store_unsafe m offset bs = Some m' ->
  offset + Z.of_nat (length bs) <= evm_memory_size m /\ evm_memory_size m' = evm_memory_size m.
Proof.
  intros Ho. unfold evm_memory_store_unsafe. destruct (Z.leb_spec (offset + Z.of_nat (length bs)) (evm_memory_size m)) as [L|L]; [|discriminate].
  intros H. assert (E : m' = Memory (firstn (Z.to_nat offset) (data m) ++ bs ++ skipn (Z.to_nat offset + length bs) (data m)) (mem_capacity m)) by congruence.
  subst m'. split; [exact L|]. unfold evm_memory_size in *; cbn [data]. rewrite !length_app, length_firstn, length_skipn. lia.
Qed.

Lemma load32_store32 m offset v m' : wf256 v -> 0 <= offset ->
  evm_memory_store32_unsafe m offset v = Some m' -> evm_memory_load32_unsafe m' offset = Some v.
Proof.
  unfold evm_memory_store32_unsafe, evm_memory_load32_unsafe. intros Hv Ho E.
  pose proof (load_store_same _ _ _ _ Ho E) as L.
  rewrite uint256_to_bytes_be_spec, length_be_bytes in L by assumption. change (Z.of_nat 32) with 32 in L.
  rewrite L, <- uint256_to_bytes_be_spec, from_to_bytes by assumption. reflexivity.
Qed.

Lemma load32_spec m offset : mem_ok m -> 0 <= offset -> offset + 32 <= evm_memory_size m ->
  exists v, evm_memory_load32_unsafe m offset = Some v /\ wf256 v.
Proof.
  intros Hm Ho Hs. unfold evm_memory_load32_unsafe. destruct (load_spec m offset 32 Hm Ho ltac:(lia) Hs) as (bs & -> & B & _).
  eexists; split; [reflexivity|]. auto with words.
Qed.
