(* ===== verification/Opcodes.v ===== *)
(** The opcode numbers of include/div0/evm/opcodes.h, and the jump destination
    analysis of src/evm/jumpdest.h. *)
From Stdlib Require Import ZArith Lia List Bool.
From S2P Require Import Prelude Arena.
#[local] Open Scope Z_scope.
Import ListNotations.

Definition OP_STOP : Z := 0x00.
Definition OP_ADD : Z := 0x01.
Definition OP_MUL : Z := 0x02.
Definition OP_SUB : Z := 0x03.
Definition OP_DIV : Z := 0x04.
Definition OP_SDIV : Z := 0x05.
Definition OP_MOD : Z := 0x06.
Definition OP_SMOD : Z := 0x07.
Definition OP_ADDMOD : Z := 0x08.
Definition OP_MULMOD : Z := 0x09.
Definition OP_EXP : Z := 0x0A.
Definition OP_SIGNEXTEND : Z := 0x0B.
Definition OP_LT : Z := 0x10.
Definition OP_GT : Z := 0x11.
Definition OP_SLT : Z := 0x12.
Definition OP_SGT : Z := 0x13.
Definition OP_EQ : Z := 0x14.
Definition OP_ISZERO : Z := 0x15.
Definition OP_AND : Z := 0x16.
Definition OP_OR : Z := 0x17.
Definition OP_XOR : Z := 0x18.
Definition OP_NOT : Z := 0x19.
Definition OP_BYTE : Z := 0x1A.
Definition OP_SHL : Z := 0x1B.
Definition OP_SHR : Z := 0x1C.
Definition OP_SAR : Z := 0x1D.
Definition OP_KECCAK256 : Z := 0x20.
Definition OP_ADDRESS : Z := 0x30.
Definition OP_BALANCE : Z := 0x31.
Definition OP_ORIGIN : Z := 0x32.
Definition OP_CALLER : Z := 0x33.
Definition OP_CALLVALUE : Z := 0x34.
Definition OP_CALLDATALOAD : Z := 0x35.
Definition OP_CALLDATASIZE : Z := 0x36.
Definition OP_CALLDATACOPY : Z := 0x37.
Definition OP_CODESIZE : Z := 0x38.
Definition OP_CODECOPY : Z := 0x39.
Definition OP_GASPRICE : Z := 0x3A.
Definition OP_EXTCODESIZE : Z := 0x3B.
Definition OP_EXTCODECOPY : Z := 0x3C.
Definition OP_RETURNDATASIZE : Z := 0x3D.
Definition OP_RETURNDATACOPY : Z := 0x3E.
Definition OP_EXTCODEHASH : Z := 0x3F.
Definition OP_BLOCKHASH : Z := 0x40.
Definition OP_COINBASE : Z := 0x41.
Definition OP_TIMESTAMP : Z := 0x42.
Definition OP_NUMBER : Z := 0x43.
Definition OP_PREVRANDAO : Z := 0x44.
Definition OP_GASLIMIT : Z := 0x45.
Definition OP_CHAINID : Z := 0x46.
Definition OP_SELFBALANCE : Z := 0x47.
Definition OP_BASEFEE : Z := 0x48.
Definition OP_BLOBHASH : Z := 0x49.
Definition OP_BLOBBASEFEE : Z := 0x4A.
Definition OP_POP : Z := 0x50.
Definition OP_MLOAD : Z := 0x51.
Definition OP_MSTORE : Z := 0x52.
Definition OP_MSTORE8 : Z := 0x53.
Definition OP_SLOAD : Z := 0x54.
Definition OP_SSTORE : Z := 0x55.
Definition OP_JUMP : Z := 0x56.
Definition OP_JUMPI : Z := 0x57.
Definition OP_PC : Z := 0x58.
Definition OP_MSIZE : Z := 0x59.
Definition OP_GAS : Z := 0x5A.
Definition OP_JUMPDEST : Z := 0x5B.
Definition OP_TLOAD : Z := 0x5C.
Definition OP_TSTORE : Z := 0x5D.
Definition OP_MCOPY : Z := 0x5E.
Definition OP_PUSH0 : Z := 0x5F.
Definition OP_PUSH1 : Z := 0x60.
Definition OP_PUSH2 : Z := 0x61.
Definition OP_PUSH3 : Z := 0x62.
Definition OP_PUSH4 : Z := 0x63.
Definition OP_PUSH5 : Z := 0x64.
Definition OP_PUSH6 : Z := 0x65.
Definition OP_PUSH7 : Z := 0x66.
Definition OP_PUSH8 : Z := 0x67.
Definition OP_PUSH9 : Z := 0x68.
Definition OP_PUSH10 : Z := 0x69.
Definition OP_PUSH11 : Z := 0x6A.
Definition OP_PUSH12 : Z := 0x6B.
Definition OP_PUSH13 : Z := 0x6C.
Definition OP_PUSH14 : Z := 0x6D.
Definition OP_PUSH15 : Z := 0x6E.
Definition OP_PUSH16 : Z := 0x6F.
Definition OP_PUSH17 : Z := 0x70.
Definition OP_PUSH18 : Z := 0x71.
Definition OP_PUSH19 : Z := 0x72.
Definition OP_PUSH20 : Z := 0x73.
Definition OP_PUSH21 : Z := 0x74.
Definition OP_PUSH22 : Z := 0x75.
Definition OP_PUSH23 : Z := 0x76.
Definition OP_PUSH24 : Z := 0x77.
Definition OP_PUSH25 : Z := 0x78.
Definition OP_PUSH26 : Z := 0x79.
Definition OP_PUSH27 : Z := 0x7A.
Definition OP_PUSH28 : Z := 0x7B.
Definition OP_PUSH29 : Z := 0x7C.
Definition OP_PUSH30 : Z := 0x7D.
Definition OP_PUSH31 : Z := 0x7E.
Definition OP_PUSH32 : Z := 0x7F.
Definition OP_DUP1 : Z := 0x80.
Definition OP_DUP2 : Z := 0x81.
Definition OP_DUP3 : Z := 0x82.
Definition OP_DUP4 : Z := 0x83.
Definition OP_DUP5 : Z := 0x84.
Definition OP_DUP6 : Z := 0x85.
Definition OP_DUP7 : Z := 0x86.
Definition OP_DUP8 : Z := 0x87.
Definition OP_DUP9 : Z := 0x88.
Definition OP_DUP10 : Z := 0x89.
Definition OP_DUP11 : Z := 0x8A.
Definition OP_DUP12 : Z := 0x8B.
Definition OP_DUP13 : Z := 0x8C.
Definition OP_DUP14 : Z := 0x8D.
Definition OP_DUP15 : Z := 0x8E.
Definition OP_DUP16 : Z := 0x8F.
Definition OP_SWAP1 : Z := 0x90.
Definition OP_SWAP2 : Z := 0x91.
Definition OP_SWAP3 : Z := 0x92.
Definition OP_SWAP4 : Z := 0x93.
Definition OP_SWAP5 : Z := 0x94.
Definition OP_SWAP6 : Z := 0x95.
Definition OP_SWAP7 : Z := 0x96.
Definition OP_SWAP8 : Z := 0x97.
Definition OP_SWAP9 : Z := 0x98.
Definition OP_SWAP10 : Z := 0x99.
Definition OP_SWAP11 : Z := 0x9A.
Definition OP_SWAP12 : Z := 0x9B.
Definition OP_SWAP13 : Z := 0x9C.
Definition OP_SWAP14 : Z := 0x9D.
Definition OP_SWAP15 : Z := 0x9E.
Definition OP_SWAP16 : Z := 0x9F.
Definition OP_LOG0 : Z := 0xA0.
Definition OP_LOG1 : Z := 0xA1.
Definition OP_LOG2 : Z := 0xA2.
Definition OP_LOG3 : Z := 0xA3.
Definition OP_LOG4 : Z := 0xA4.
Definition OP_CREATE : Z := 0xF0.
Definition OP_CALL : Z := 0xF1.
Definition OP_CALLCODE : Z := 0xF2.
Definition OP_RETURN : Z := 0xF3.
Definition OP_DELEGATECALL : Z := 0xF4.
Definition OP_CREATE2 : Z := 0xF5.
Definition OP_STATICCALL : Z := 0xFA.
Definition OP_REVERT : Z := 0xFD.
Definition OP_INVALID : Z := 0xFE.
Definition OP_SELFDESTRUCT : Z := 0xFF.

(** * Jump destinations

    Jump destination analysis of src/evm/jumpdest.h. *)

Definition jumpdest_bitmap_size (code_size : Z) : Z := (code_size + 7) / 8.

Definition jumpdest_is_valid (bitmap : list Z) (code_size dest : Z) : bool :=
  if code_size <=? dest then false
  else negb (Z.land (aget bitmap (Z.to_nat (dest / 8))) (Z.shiftl 1 (dest mod 8)) =? 0).

(** The data bytes of a PUSH that the scan skips. *)
Definition push_data_size (opcode : Z) : Z :=
  if (OP_PUSH1 <=? opcode) && (opcode <=? OP_PUSH32) then opcode - OP_PUSH1 + 1 else 0.

(** The scan loop; every round advances [pc], so [code_size] rounds suffice. *)
Fixpoint jumpdest_scan (fuel : nat) (code : list Z) (pc : nat) (bitmap : list Z) : list Z :=
  match fuel with
  | O => bitmap
  | S fuel' =>
      if (pc <? length code)%nat then
        let opcode := aget code pc in
        if opcode =? OP_JUMPDEST then
          let bitmap := aset bitmap (pc / 8) (w8 (Z.lor (aget bitmap (pc / 8)) (Z.shiftl 1 (Z.of_nat (pc mod 8))))) in
          jumpdest_scan fuel' code (pc + 1) bitmap
        else if (OP_PUSH1 <=? opcode) && (opcode <=? OP_PUSH32) then
          jumpdest_scan fuel' code (pc + (1 + Z.to_nat (push_data_size opcode))) bitmap
        else jumpdest_scan fuel' code (pc + 1) bitmap
      else bitmap
  end.

Definition jumpdest_compute_bitmap (code : list Z) : option (list Z) :=
  let code_size := Z.of_nat (length code) in
  if code_size =? 0 then None
  else
    let bitmap_size := jumpdest_bitmap_size code_size in
    if alloc_succeeds bitmap_size
    then Some (jumpdest_scan (length code) code 0 (repeat 0 (Z.to_nat bitmap_size))) else None.

(** ** Instruction boundaries *)

(** The position after the instruction at [pc], and the positions reached from
    the start of the code one instruction at a time. *)
Definition next_instr (code : list Z) (pc : nat) : nat := (pc + (1 + Z.to_nat (push_data_size (aget code pc))))%nat.

Definition instr_start (code : list Z) (pc : nat) : Prop := exists k, pc = Nat.iter k (next_instr code) 0%nat.

(** A valid destination: a JUMPDEST instruction, not a byte of PUSH data. *)
Definition valid_dest (code : list Z) (pc : nat) : Prop :=
  (pc < length code)%nat /\ instr_start code pc /\ aget code pc = OP_JUMPDEST.

Lemma instr_first code : instr_start code 0.
Proof. exists 0%nat; reflexivity. Qed.

Lemma instr_next code pc : instr_start code pc -> instr_start code (next_instr code pc).
Proof. intros [k ->]. exists (S k). reflexivity. Qed.

Lemma iter_mono code a b : (a <= b)%nat -> (Nat.iter a (next_instr code) 0 <= Nat.iter b (next_instr code) 0)%nat.
Proof. induction 1 as [|b _ IH]; [lia|]. cbn [Nat.iter nat_rect]. unfold next_instr at 2. unfold Nat.iter in *. lia. Qed.

(** No instruction starts inside another one. *)
Lemma instr_gap code pc i : instr_start code pc -> instr_start code i -> (i <= pc \/ next_instr code pc <= i)%nat.
Proof.
  intros [a ->] [b ->]. destruct (Nat.le_gt_cases b a) as [L|L]; [left; apply iter_mono, L|].
  right. exact (iter_mono code (S a) b L).
Qed.

(** ** The scan marks exactly the valid destinations *)

Definition bit (bitmap : list Z) (i : nat) : bool := Z.testbit (aget bitmap (i / 8)) (Z.of_nat (i mod 8)).

Lemma is_valid_bit bitmap code_size dest : 0 <= dest ->
  jumpdest_is_valid bitmap code_size dest = (dest <? code_size) && bit bitmap (Z.to_nat dest).
Proof.
  intros Hd. unfold jumpdest_is_valid, bit. destruct (Z.leb_spec code_size dest); [rewrite (proj2 (Z.ltb_ge _ _)) by lia; reflexivity|].
  rewrite (proj2 (Z.ltb_lt _ _)) by lia. cbn [andb]. replace (Z.to_nat (dest / 8)) with (Z.to_nat dest / 8)%nat by (rewrite Z2Nat.inj_div by lia; reflexivity).
  replace (dest mod 8) with (Z.of_nat (Z.to_nat dest mod 8)) by (rewrite Nat2Z.inj_mod, Z2Nat.id by lia; reflexivity).
  set (x := aget _ _). set (k := Z.of_nat _). assert (Hk : 0 <= k) by lia. rewrite Z.shiftl_1_l.
  destruct (Z.testbit x k) eqn:T.
  - destruct (Z.eqb_spec (Z.land x (2 ^ k)) 0) as [E|E]; [|reflexivity].
    assert (Z.testbit (Z.land x (2 ^ k)) k = true) by (rewrite Z.land_spec, T, Z.pow2_bits_true by lia; reflexivity).
    rewrite E, Z.bits_0 in H0. discriminate.
  - replace (Z.land x (2 ^ k)) with 0; [reflexivity|]. symmetry. apply Z.bits_inj'; intros j Hj.
    rewrite Z.land_spec, Z.bits_0. destruct (Z.eq_dec j k) as [->|N]; [rewrite T; reflexivity|].
    rewrite Z.pow2_bits_false by lia. apply andb_false_r.
Qed.

Lemma set_bit bm pc i : bytes_ok bm -> (pc / 8 < length bm)%nat ->
  let bm' := aset bm (pc / 8) (w8 (Z.lor (aget bm (pc / 8)) (Z.shiftl 1 (Z.of_nat (pc mod 8))))) in
  bytes_ok bm' /\ length bm' = length bm /\ bit bm' i = (Nat.eqb i pc || bit bm i).
Proof.
  intros Hb Hl bm'. pose proof (Nat.mod_upper_bound pc 8 ltac:(lia)) as M.
  assert (B : u8 (aget bm (pc / 8))) by (unfold bytes_ok in Hb; rewrite Forall_forall in Hb; apply Hb, nth_In, Hl).
  split; [|split; [apply length_aset|]].
  - apply Forall_aset; [exact Hb | apply w8_range].
  - unfold bit, bm'. pose proof (Nat.div_mod_eq i 8). pose proof (Nat.div_mod_eq pc 8).
    pose proof (Nat.mod_upper_bound i 8 ltac:(lia)). destruct (Nat.eq_dec (pc / 8) (i / 8)) as [E|N].
    + rewrite <- E, aget_aset_eq by exact Hl. unfold w8. rewrite Z.mod_pow2_bits_low by lia.
      rewrite Z.lor_spec, Z.shiftl_1_l, orb_comm. f_equal.
      destruct (Nat.eqb_spec i pc) as [->|Ne]; [apply Z.pow2_bits_true; lia | apply Z.pow2_bits_false; lia].
    + rewrite aget_aset_ne by exact N. destruct (Nat.eqb_spec i pc) as [->|]; [congruence|reflexivity].
Qed.

(** Before position [pc] the bits are right, from it on they are clear. *)
Definition scanned (code : list Z) (pc : nat) (bm : list Z) : Prop :=
  bytes_ok bm /\ length bm = Z.to_nat (jumpdest_bitmap_size (Z.of_nat (length code))) /\
  forall i, bit bm i = true <-> (i < pc)%nat /\ valid_dest code i.

Lemma scanned_skip code pc bm : instr_start code pc -> aget code pc <> OP_JUMPDEST -> scanned code pc bm ->
  scanned code (next_instr code pc) bm.
Proof.
  intros Hs Hn (B & L & H). split; [exact B|]. split; [exact L|]. intros i. rewrite H. split; [intros [X Y]; split; [unfold next_instr; lia|exact Y]|].
  intros [X Y]. split; [|exact Y]. destruct Y as (Y1 & Y2 & Y3). destruct (instr_gap code pc i Hs Y2); [|lia].
  destruct (Nat.eq_dec i pc) as [->|]; [congruence|lia].
Qed.

Lemma bitmap_index (code : list Z) pc : (pc < length code)%nat -> (pc / 8 < Z.to_nat (jumpdest_bitmap_size (Z.of_nat (length code))))%nat.
Proof.
  intros H. unfold jumpdest_bitmap_size. pose proof (Nat.div_mod_eq pc 8). pose proof (Nat.mod_upper_bound pc 8 ltac:(lia)).
  Z.div_mod_to_equations. lia.
Qed.

Lemma next_plain code pc : ((OP_PUSH1 <=? aget code pc) && (aget code pc <=? OP_PUSH32)) = false -> next_instr code pc = (pc + 1)%nat.
Proof. intros E. unfold next_instr, push_data_size. rewrite E. lia. Qed.

Lemma jumpdest_scan_spec fuel code pc bm : instr_start code pc -> scanned code pc bm -> (length code <= pc + fuel)%nat ->
  scanned code (length code) (jumpdest_scan fuel code pc bm).
Proof.
  revert pc bm; induction fuel as [|fuel IH]; intros pc bm Hs Hb Hf; cbn [jumpdest_scan].
  - destruct Hb as (B & L & H). split; [exact B|]. split; [exact L|]. intros i. rewrite H.
    split; intros [X Y]; (split; [|exact Y]); [destruct Y; lia | lia].
  - destruct (Nat.ltb_spec pc (length code)) as [Lt|Ge].
    2:{ destruct Hb as (B & L & H). split; [exact B|]. split; [exact L|]. intros i. rewrite H.
        split; intros [X Y]; (split; [|exact Y]); [destruct Y; lia | lia]. }
    destruct (Z.eqb_spec (aget code pc) OP_JUMPDEST) as [E|E].
    + assert (NP : next_instr code pc = (pc + 1)%nat) by (apply next_plain; rewrite E; reflexivity).
      rewrite <- NP. apply IH; [apply instr_next, Hs| |rewrite NP; lia].
      destruct Hb as (B & L & H). pose proof (bitmap_index code pc Lt) as BI. rewrite <- L in BI.
      split; [apply (set_bit bm pc 0 B BI)|]. split; [rewrite <- L; apply (set_bit bm pc 0 B BI)|].
      intros i. destruct (set_bit bm pc i B BI) as (_ & _ & ->). rewrite orb_true_iff, Nat.eqb_eq, H, NP. split.
      * intros [->|[X Y]]; [split; [lia|]; repeat split; auto | split; [lia|exact Y]].
      * intros [X Y]. destruct (Nat.eq_dec i pc); [auto|right; split; [lia|exact Y]].
    + destruct (_ && _) eqn:P.
      * apply IH; [apply instr_next, Hs | apply scanned_skip; assumption | unfold next_instr; lia].
      * rewrite <- (next_plain code pc P). apply IH; [apply instr_next, Hs | apply scanned_skip; assumption | rewrite next_plain by exact P; lia].
Qed.

Lemma jumpdest_valid_iff code bitmap dest : jumpdest_compute_bitmap code = Some bitmap -> 0 <= dest ->
  (jumpdest_is_valid bitmap (Z.of_nat (length code)) dest = true <-> valid_dest code (Z.to_nat dest)).
Proof.
  unfold jumpdest_compute_bitmap. intros E Hd. destruct (Z.eqb_spec (Z.of_nat (length code)) 0); [discriminate|].
  destruct (alloc_succeeds _); [|discriminate]. injection E as <-.
  rewrite is_valid_bit, andb_true_iff, Z.ltb_lt by exact Hd.
  pose proof (jumpdest_scan_spec (length code) code 0 (repeat 0 (Z.to_nat (jumpdest_bitmap_size (Z.of_nat (length code)))))) as S.
  destruct S as (_ & _ & S).
  - apply instr_first.
  - split; [apply Forall_forall; intros x ->%repeat_spec; split; reflexivity || lia|]. split; [apply repeat_length|].
    intros i. unfold bit, aget. rewrite nth_repeat, Z.bits_0. split; [discriminate|lia].
  - lia.
  - rewrite S. split; [tauto|]. intros V. split; [destruct V; lia|]. split; [destruct V; lia|exact V].
Qed.
