(* ===== verification/Gas.v ===== *)
(** Gas: the constants of include/div0/evm/gas.h, the static cost table of
    gas/static_costs.h and the storage schedule of gas/dynamic_costs.h. *)
From Stdlib Require Import ZArith Lia List Bool.
From S2P Require Import Prelude Uint256 Opcodes.
Import ListNotations.
#[local] Open Scope Z_scope.
#[local] Open Scope word_scope.

Definition GAS_ZERO : Z := 0.
Definition GAS_BASE : Z := 2.
Definition GAS_VERY_LOW : Z := 3.
Definition GAS_LOW : Z := 5.
Definition GAS_MID : Z := 8.
Definition GAS_HIGH : Z := 10.
Definition GAS_JUMPDEST : Z := 1.
Definition GAS_MEMORY : Z := 3.
Definition GAS_COPY : Z := 3.
Definition GAS_COLD_ACCOUNT_ACCESS : Z := 2600.
Definition GAS_WARM_ACCESS : Z := 100.
Definition GAS_CALL_STIPEND : Z := 2300.
Definition GAS_CALL_VALUE : Z := 9000.
Definition GAS_NEW_ACCOUNT : Z := 25000.
Definition GAS_COLD_SLOAD : Z := 2100.
Definition GAS_WARM_STORAGE_READ : Z := 100.
Definition GAS_SSTORE_SET : Z := 20000.
Definition GAS_SSTORE_RESET : Z := 2900.
Definition GAS_SSTORE_CLEAR_REFUND : Z := 4800.
Definition GAS_CREATE : Z := 32000.
Definition GAS_CODE_DEPOSIT_PER_BYTE : Z := 200.
Definition GAS_KECCAK256_WORD : Z := 6.
Definition GAS_TX : Z := 21000.
Definition GAS_TX_DATA_ZERO : Z := 4.
Definition GAS_TX_DATA_NON_ZERO : Z := 16.
Definition GAS_ACCESS_LIST_ADDRESS : Z := 2400.
Definition GAS_ACCESS_LIST_STORAGE_KEY : Z := 1900.
Definition MAX_CALL_DEPTH : Z := 1024.
Definition GAS_LOG : Z := 375.
Definition GAS_LOG_TOPIC : Z := 375.
Definition GAS_LOG_DATA : Z := 8.
Definition MAX_CODE_SIZE : Z := 24576.
Definition MAX_INITCODE_SIZE : Z := 49152.

(** Calculate 63/64 of gas (EIP-150). *)
Definition gas_cap_call (gas_left : Z) : Z := gas_left -64 (gas_left / 64).

(** * The static table *)

Definition GAS_TABLE_SIZE : nat := 256.
Definition gas_table_t : Type := list Z.

(** The assignments [table[op] = cost], in the order of the code. *)
Definition shanghai_costs : list (Z * Z) := [
  (OP_ADD, 3); (OP_MUL, 5); (OP_SUB, 3); (OP_DIV, 5); (OP_SDIV, 5); (OP_MOD, 5);
  (OP_SMOD, 5); (OP_ADDMOD, 8); (OP_MULMOD, 8); (OP_SIGNEXTEND, 5); (OP_LT, 3); (OP_GT, 3);
  (OP_SLT, 3); (OP_SGT, 3); (OP_EQ, 3); (OP_ISZERO, 3); (OP_AND, 3); (OP_OR, 3);
  (OP_XOR, 3); (OP_NOT, 3); (OP_BYTE, 3); (OP_SHL, 3); (OP_SHR, 3); (OP_SAR, 3);
  (OP_KECCAK256, 30); (OP_MLOAD, 3); (OP_MSTORE, 3); (OP_MSTORE8, 3); (OP_MSIZE, 2); (OP_ADDRESS, 2);
  (OP_ORIGIN, 2); (OP_CALLER, 2); (OP_CALLVALUE, 2); (OP_CALLDATALOAD, 3); (OP_CALLDATASIZE, 2); (OP_CALLDATACOPY, 3);
  (OP_CODESIZE, 2); (OP_CODECOPY, 3); (OP_GASPRICE, 2); (OP_RETURNDATASIZE, 2); (OP_RETURNDATACOPY, 3); (OP_POP, 2);
  (OP_PC, 2); (OP_GAS, 2); (OP_JUMP, 8); (OP_JUMPI, 10); (OP_JUMPDEST, 1); (OP_PUSH0, 2);
  (OP_PUSH1, 3); (OP_PUSH2, 3); (OP_PUSH3, 3); (OP_PUSH4, 3); (OP_PUSH5, 3); (OP_PUSH6, 3);
  (OP_PUSH7, 3); (OP_PUSH8, 3); (OP_PUSH9, 3); (OP_PUSH10, 3); (OP_PUSH11, 3); (OP_PUSH12, 3);
  (OP_PUSH13, 3); (OP_PUSH14, 3); (OP_PUSH15, 3); (OP_PUSH16, 3); (OP_PUSH17, 3); (OP_PUSH18, 3);
  (OP_PUSH19, 3); (OP_PUSH20, 3); (OP_PUSH21, 3); (OP_PUSH22, 3); (OP_PUSH23, 3); (OP_PUSH24, 3);
  (OP_PUSH25, 3); (OP_PUSH26, 3); (OP_PUSH27, 3); (OP_PUSH28, 3); (OP_PUSH29, 3); (OP_PUSH30, 3);
  (OP_PUSH31, 3); (OP_PUSH32, 3); (OP_DUP1, 3); (OP_DUP2, 3); (OP_DUP3, 3); (OP_DUP4, 3);
  (OP_DUP5, 3); (OP_DUP6, 3); (OP_DUP7, 3); (OP_DUP8, 3); (OP_DUP9, 3); (OP_DUP10, 3);
  (OP_DUP11, 3); (OP_DUP12, 3); (OP_DUP13, 3); (OP_DUP14, 3); (OP_DUP15, 3); (OP_DUP16, 3);
  (OP_SWAP1, 3); (OP_SWAP2, 3); (OP_SWAP3, 3); (OP_SWAP4, 3); (OP_SWAP5, 3); (OP_SWAP6, 3);
  (OP_SWAP7, 3); (OP_SWAP8, 3); (OP_SWAP9, 3); (OP_SWAP10, 3); (OP_SWAP11, 3); (OP_SWAP12, 3);
  (OP_SWAP13, 3); (OP_SWAP14, 3); (OP_SWAP15, 3); (OP_SWAP16, 3)].

Definition gas_table_init_shanghai : gas_table_t :=
  fold_left (fun table e => aset table (Z.to_nat (fst e)) (snd e)) shanghai_costs (repeat 0 GAS_TABLE_SIZE).

Definition gas_table_init_cancun : gas_table_t := gas_table_init_shanghai.
Definition gas_table_init_prague : gas_table_t := gas_table_init_cancun.

Definition gas_of (table : gas_table_t) (opcode : Z) : Z := aget table (Z.to_nat opcode).

(** * The storage schedule *)

Definition sload_cost_shanghai (is_cold : bool) : Z := if is_cold then GAS_COLD_SLOAD else GAS_WARM_STORAGE_READ.

Definition sstore_cost_shanghai (is_cold : bool) (current_value original_value new_value : uint256_t) : Z :=
  let cold_cost := if is_cold then GAS_COLD_SLOAD else 0 in
  let is_clean_slot := uint256_eq original_value current_value in
  let is_noop := uint256_eq current_value new_value in
  let base_cost :=
    if negb is_noop && is_clean_slot then
      if uint256_is_zero original_value then GAS_SSTORE_SET else GAS_SSTORE_RESET
    else GAS_WARM_STORAGE_READ in
  cold_cost +64 base_cost.

(** A signed result; the sums of the constants stay far inside [int64_t]. *)
Definition sstore_refund_shanghai (current_value original_value new_value : uint256_t) : Z :=
  if uint256_eq current_value new_value then 0
  else
    let refund := 0 in
    let refund :=
      if negb (uint256_is_zero original_value) then
        if uint256_is_zero current_value then refund - GAS_SSTORE_CLEAR_REFUND
        else if uint256_is_zero new_value then refund + GAS_SSTORE_CLEAR_REFUND
        else refund
      else refund in
    if uint256_eq original_value new_value then
      if uint256_is_zero original_value then refund + (GAS_SSTORE_SET - GAS_WARM_STORAGE_READ)
      else refund + (GAS_SSTORE_RESET - GAS_WARM_STORAGE_READ)
    else refund.

Record gas_schedule_t := GasSchedule {
  sload : bool -> Z;
  sstore : bool -> uint256_t -> uint256_t -> uint256_t -> Z;
  sstore_refund : uint256_t -> uint256_t -> uint256_t -> Z;
  sstore_min_gas : Z }.

Definition gas_schedule_shanghai : gas_schedule_t :=
  GasSchedule sload_cost_shanghai sstore_cost_shanghai sstore_refund_shanghai GAS_CALL_STIPEND.
Definition gas_schedule_cancun : gas_schedule_t := gas_schedule_shanghai.
Definition gas_schedule_prague : gas_schedule_t := gas_schedule_cancun.

(** The accumulator update of [op_sstore] in src/evm/opcodes/storage.h. *)
Definition apply_refund (gas_refund refund : Z) : Z :=
  if 0 <=? refund then gas_refund +64 refund
  else
    let to_subtract := w64 (- refund) in
    if to_subtract <=? gas_refund then gas_refund -64 to_subtract else 0.

(** * Facts the interpreter needs *)

Lemma gas_cap_call_spec g : u64 g -> gas_cap_call g = g - g / 64 /\ 0 <= gas_cap_call g <= g.
Proof.
  unfold u64; intros H. unfold gas_cap_call, sub64. assert (0 <= g / 64 <= g) by (Z.div_mod_to_equations; lia).
  rewrite w64_small by (unfold u64; lia). lia.
Qed.

Lemma gas_table_length : length gas_table_init_shanghai = GAS_TABLE_SIZE.
Proof. reflexivity. Qed.

(** Every static cost is below 31; the loop-closing opcodes cost something. *)
Lemma gas_table_bound op : 0 <= gas_of gas_table_init_shanghai op <= 30.
Proof.
  unfold gas_of. generalize (Z.to_nat op) as i. intros i.
  assert (F : forallb (fun c => (0 <=? c) && (c <=? 30)) gas_table_init_shanghai = true) by (vm_compute; reflexivity).
  destruct (Nat.lt_ge_cases i (length gas_table_init_shanghai)) as [L|L].
  - rewrite forallb_forall in F. specialize (F _ (nth_In _ 0 L)). unfold aget.
    apply andb_true_iff in F as [F1%Z.leb_le F2%Z.leb_le]. lia.
  - unfold aget. rewrite nth_overflow by exact L. lia.
Qed.

Lemma sload_cost_range c : 100 <= sload_cost_shanghai c <= 2100.
Proof. destruct c; vm_compute; split; discriminate. Qed.

Lemma sstore_cost_range c x y z : 100 <= sstore_cost_shanghai c x y z <= 22100.
Proof.
  unfold sstore_cost_shanghai. destruct c, (_ && _); try destruct (uint256_is_zero _); vm_compute; split; discriminate.
Qed.

Lemma sstore_refund_range x y z : -4800 <= sstore_refund_shanghai x y z <= 19900.
Proof.
  unfold sstore_refund_shanghai, GAS_SSTORE_CLEAR_REFUND, GAS_SSTORE_SET, GAS_SSTORE_RESET, GAS_WARM_STORAGE_READ.
  destruct (uint256_is_zero y); cbn [negb];
  repeat match goal with |- context [if ?b then _ else _] => destruct b end; lia.
Qed.

(** * EIP-2200 and EIP-3529 *)

(** The cost table on integers: cold surcharge plus no-op, first change of the
    slot from zero, first change from non-zero, and later changes. *)
Definition eip2200_cost (is_cold : bool) (current original new : Z) : Z :=
  (if is_cold then 2100 else 0) +
  (if new =? current then 100
   else if original =? current then if original =? 0 then 20000 else 2900
   else 100).

Lemma sstore_cost_spec is_cold cur orig new : wf256 cur -> wf256 orig -> wf256 new ->
  sstore_cost_shanghai is_cold cur orig new = eip2200_cost is_cold (val cur) (val orig) (val new).
Proof.
  intros Hc Ho Hn. unfold sstore_cost_shanghai, eip2200_cost. rewrite !uint256_eq_spec, uint256_is_zero_spec by assumption.
  rewrite (Z.eqb_sym (val new)). destruct (val cur =? val new), (val orig =? val cur), (val orig =? 0), is_cold; reflexivity.
Qed.

(** The refund of one write: losing or gaining the clearing refund, and the
    reset of the slot to its original value. *)
Definition eip3529_refund (current original new : Z) : Z :=
  if new =? current then 0
  else
    (if original =? 0 then 0
     else if current =? 0 then -4800 else if new =? 0 then 4800 else 0) +
    (if new =? original then if original =? 0 then 19900 else 2800 else 0).

Lemma sstore_refund_spec cur orig new : wf256 cur -> wf256 orig -> wf256 new ->
  sstore_refund_shanghai cur orig new = eip3529_refund (val cur) (val orig) (val new).
Proof.
  intros Hc Ho Hn. unfold sstore_refund_shanghai, eip3529_refund. rewrite !uint256_eq_spec, !uint256_is_zero_spec by assumption.
  rewrite !(Z.eqb_sym (val new) (val cur)), !(Z.eqb_sym (val new) (val orig)).
  destruct (val cur =? val new), (val orig =? 0), (val cur =? 0), (val new =? 0), (val orig =? val new); reflexivity.
Qed.

(** ** A sequence of writes to one slot

    [refund_run original current writes acc] is the accumulator after the
    writes, as [op_sstore] updates it. *)
Fixpoint refund_run (original current : uint256_t) (writes : list uint256_t) (acc : Z) : Z :=
  match writes with
  | [] => acc
  | w :: rest => refund_run original w rest (apply_refund acc (sstore_refund_shanghai current original w))
  end.

(** The exact sum of the signed refunds. *)
Fixpoint refund_sum (original current : Z) (writes : list Z) : Z :=
  match writes with
  | [] => 0
  | w :: rest => eip3529_refund current original w + refund_sum original w rest
  end.

(** The clearing refund a slot currently holds. *)
Definition held (original current : Z) : Z := if (current =? 0) && negb (original =? 0) then 4800 else 0.

Lemma refund_held cur orig new : held orig new - held orig cur <= eip3529_refund cur orig new.
Proof.
  unfold held, eip3529_refund.
  destruct (Z.eqb_spec new cur), (Z.eqb_spec orig 0), (Z.eqb_spec cur 0), (Z.eqb_spec new 0), (Z.eqb_spec new orig); cbn [andb negb]; lia.
Qed.

(** The subtraction never saturates: an accumulator that covers what the slot
    holds stays exact. *)
Lemma refund_run_exact orig cur writes acc : wf256 orig -> wf256 cur -> Forall wf256 writes ->
  held (val orig) (val cur) <= acc -> 0 <= acc -> acc + 19900 * Z.of_nat (length writes) < 2 ^ 64 ->
  refund_run orig cur writes acc = acc + refund_sum (val orig) (val cur) (map val writes) /\
  0 <= refund_run orig cur writes acc.
Proof.
  intros Ho Hc Hw. revert cur Hc acc; induction Hw as [|w ws Hw Hws IH]; intros cur Hc acc Hh H0 Hb; cbn [refund_run refund_sum map].
  { split; lia. }
  cbn [length] in Hb. pose proof (sstore_refund_range cur orig w) as R.
  pose proof (refund_held (val cur) (val orig) (val w)) as K. rewrite <- sstore_refund_spec in K |- * by assumption.
  set (r := sstore_refund_shanghai cur orig w) in *.
  assert (HN : 0 <= held (val orig) (val w)) by (unfold held; destruct (_ && _); lia).
  assert (A : apply_refund acc r = acc + r).
  { unfold apply_refund, add64, sub64. destruct (Z.leb_spec 0 r).
    - apply w64_small. unfold u64; lia.
    - rewrite (w64_small (- r)) by (unfold u64; lia). rewrite (proj2 (Z.leb_le _ _)) by lia.
      replace (acc - - r) with (acc + r) by ring. apply w64_small. unfold u64; lia. }
  rewrite A. destruct (IH w Hw (acc + r)) as [-> I2]; [lia | lia | lia |]. split; lia.
Qed.
