(* ===== verification/StateAccess.v ===== *)
(** The interface between the interpreter and the state: the vtable of
    include/div0/state/state_access.h as a class of operations, and the laws
    its documentation promises. *)
From Stdlib Require Import ZArith Lia List Bool RelationClasses Morphisms.
From S2P Require Import Prelude Uint256 Types.
Import ListNotations.
#[local] Open Scope Z_scope.

(** Operations that change the state return it. The two jump destination
    cache entries may be absent ([nullptr]). *)
Class StateAccess (St : Type) := {
  account_exists : St -> address_t -> bool;
  account_is_empty : St -> address_t -> bool;
  create_contract : St -> address_t -> St;
  delete_account : St -> address_t -> St;
  get_balance : St -> address_t -> uint256_t;
  set_balance : St -> address_t -> uint256_t -> St;
  add_balance : St -> address_t -> uint256_t -> St * bool;
  sub_balance : St -> address_t -> uint256_t -> St * bool;
  get_nonce : St -> address_t -> Z;
  set_nonce : St -> address_t -> Z -> St;
  increment_nonce : St -> address_t -> St * Z;
  get_code : St -> address_t -> list Z;
  get_code_size : St -> address_t -> Z;
  get_code_hash : St -> address_t -> hash_t;
  set_code : St -> address_t -> list Z -> St;
  get_storage : St -> address_t -> uint256_t -> uint256_t;
  get_original_storage : St -> address_t -> uint256_t -> uint256_t;
  set_storage : St -> address_t -> uint256_t -> uint256_t -> St;
  is_address_warm : St -> address_t -> bool;
  warm_address : St -> address_t -> St * bool;
  is_slot_warm : St -> address_t -> uint256_t -> bool;
  warm_slot : St -> address_t -> uint256_t -> St * bool;
  begin_transaction : St -> St;
  snapshot : St -> St * Z;
  revert_to_snapshot : St -> Z -> St;
  commit_snapshot : St -> Z -> St;
  state_root : St -> St * hash_t;
  get_jumpdest_analysis : option (St -> hash_t -> option (list Z));
  set_jumpdest_analysis : option (St -> hash_t -> list Z -> Z -> St) }.

(** * What an execution can observe of a state besides access lists *)

Section World.
Context {St : Type} {SA : StateAccess St}.

Definition world_eq (s s' : St) : Prop :=
  (forall a, get_balance s' a = get_balance s a) /\
  (forall a, get_nonce s' a = get_nonce s a) /\
  (forall a, get_code s' a = get_code s a) /\
  (forall a k, get_storage s' a k = get_storage s a k).

#[global] Instance world_eq_equiv : Equivalence world_eq.
Proof.
  split.
  - intros s; repeat split; reflexivity.
  - intros s t (H1&H2&H3&H4); repeat split; intros; symmetry; auto.
  - intros s t u (H1&H2&H3&H4) (K1&K2&K3&K4); repeat split; intros; etransitivity; eauto.
Qed.

#[global] Instance get_balance_proper : Proper (world_eq ==> eq ==> eq) get_balance.
Proof. intros s t (H&_) a _ <-. symmetry; apply H. Qed.

#[global] Instance get_storage_proper : Proper (world_eq ==> eq ==> eq ==> eq) get_storage.
Proof. intros s t (_&_&_&H) a _ <- k _ <-. symmetry; apply H. Qed.
End World.

(** * Laws

    [state_ok] is the implementation's own invariant; results are well formed,
    the operations the interpreter uses keep the invariant, and the access
    lists are separate from the rest of the state. *)
Class StateLaws (St : Type) {SA : StateAccess St} := {
  state_ok : St -> Prop;
  balance_wf : forall s a, state_ok s -> wf256 (get_balance s a);
  storage_wf : forall s a k, state_ok s -> wf256 (get_storage s a k);
  code_wf : forall s a, state_ok s -> bytes_ok (get_code s a);
  code_size_eq : forall s a, state_ok s -> get_code_size s a = Z.of_nat (length (get_code s a)) /\ get_code_size s a < 2 ^ 63;
  code_hash_wf : forall s a, state_ok s -> wf_hash (get_code_hash s a);
  original_wf : forall s a k, state_ok s -> wf256 (get_original_storage s a k);
  warm_address_ok : forall s a, state_ok s -> state_ok (fst (warm_address s a)) /\ world_eq s (fst (warm_address s a));
  warm_address_warm : forall s a, snd (warm_address (fst (warm_address s a)) a) = false;
  warm_slot_ok : forall s a k, state_ok s -> state_ok (fst (warm_slot s a k)) /\ world_eq s (fst (warm_slot s a k));
  warm_slot_warm : forall s a k, snd (warm_slot (fst (warm_slot s a k)) a k) = false;
  set_storage_ok : forall s a k v, state_ok s -> wf256 v -> state_ok (set_storage s a k v);
  get_set_storage : forall s a k v, state_ok s -> wf256 v -> get_storage (set_storage s a k v) a k = v;
  get_set_other : forall s a k v a' k', state_ok s -> wf256 v -> a' <> a ->
    get_storage (set_storage s a k v) a' k' = get_storage s a' k';
  original_set : forall s a k v, state_ok s -> wf256 v -> get_original_storage (set_storage s a k v) a k = get_original_storage s a k;
  add_balance_ok : forall s a v, state_ok s -> wf256 v -> state_ok (fst (add_balance s a v));
  sub_balance_ok : forall s a v, state_ok s -> wf256 v -> state_ok (fst (sub_balance s a v));
  add_balance_code : forall s a v b, state_ok s -> get_code (fst (add_balance s a v)) b = get_code s b;
  sub_balance_code : forall s a v b, state_ok s -> get_code (fst (sub_balance s a v)) b = get_code s b;
  cached_analysis_ok : forall f s h bm, get_jumpdest_analysis = Some f -> state_ok s -> f s h = Some bm -> bytes_ok bm;
  set_analysis_ok : forall f s h bm n, set_jumpdest_analysis = Some f -> state_ok s -> state_ok (f s h bm n) /\ world_eq s (f s h bm n) }.
