(* ===== verification/Frame.v ===== *)
(** Execution contexts, call frames, frame results, logs and the primitive
    steps of the opcode handlers: include/div0/evm/call_frame.h,
    frame_result.h, block_context.h, tx_context.h, log.h and log_vec.h with
    src/evm/log_vec.c. *)
From Stdlib Require Import ZArith Lia List Bool.
From S2P Require Import Prelude Uint256 Types Effects Arena Stack Memory.
Import ListNotations.
#[local] Open Scope Z_scope.
#[local] Open Scope word_scope.
#[local] Open Scope eff_scope.

(** * Contexts *)

Record block_context_t := BlockContext {
  number : Z; timestamp : Z; gas_limit : Z; chain_id : Z;
  base_fee : uint256_t; blob_base_fee : uint256_t; prev_randao : uint256_t;
  coinbase : address_t;
  get_block_hash : option (Z -> option hash_t) }.

Definition block_context_init : block_context_t :=
  BlockContext 0 0 0 1 uint256_zero uint256_zero uint256_zero address_zero None.

(** [blob_hashes] with [blob_hashes_count] entries. *)
Record tx_context_t := TxContext { origin : address_t; gas_price : uint256_t; blob_hashes : list hash_t }.

Definition tx_context_init : tx_context_t := TxContext address_zero uint256_zero [].

(** * Frame results *)

Inductive frame_action_t := FRAME_STOP | FRAME_RETURN | FRAME_REVERT | FRAME_CALL | FRAME_CREATE | FRAME_ERROR.

Record frame_result_t := FrameResult {
  action : frame_action_t; error : evm_status_t; return_offset : Z; return_size : Z }.

Definition frame_result_stop : frame_result_t := FrameResult FRAME_STOP EVM_OK 0 0.
Definition frame_result_return (offset size : Z) : frame_result_t := FrameResult FRAME_RETURN EVM_OK offset size.
Definition frame_result_revert (offset size : Z) : frame_result_t := FrameResult FRAME_REVERT EVM_OK offset size.
Definition frame_result_call : frame_result_t := FrameResult FRAME_CALL EVM_OK 0 0.
Definition frame_result_create : frame_result_t := FrameResult FRAME_CREATE EVM_OK 0 0.
Definition frame_result_error (e : evm_status_t) : frame_result_t := FrameResult FRAME_ERROR e 0 0.

(** * Logs *)

Definition LOG_MAX_TOPICS : nat := 4.

(** [topics] holds the [topic_count] used entries; [log_data] the data bytes. *)
Record evm_log_t := Log { log_address : address_t; topics : list hash_t; log_data : list Z }.

Record evm_log_vec_t := LogVec { logs_data : list evm_log_t; logs_capacity : Z }.

Definition evm_log_vec_init : evm_log_vec_t := LogVec [] 0.
Definition evm_log_vec_reset (vec : evm_log_vec_t) : evm_log_vec_t := LogVec [] (logs_capacity vec).

(** Address, four 32-byte aligned topics, count, pointer and size: 192 bytes. *)
Definition SIZEOF_EVM_LOG : Z := 192.

Definition evm_log_vec_push (vec : evm_log_vec_t) (log : evm_log_t) : bool * evm_log_vec_t :=
  if logs_capacity vec <=? Z.of_nat (length (logs_data vec)) then
    let new_cap := if logs_capacity vec =? 0 then 16 else logs_capacity vec *64 2 in
    if alloc_succeeds (new_cap *64 SIZEOF_EVM_LOG)
    then (true, LogVec (logs_data vec ++ [log]) new_cap) else (false, vec)
  else (true, LogVec (logs_data vec ++ [log]) (logs_capacity vec)).

(** * Call frames *)

Inductive exec_type_t :=
| EXEC_TX_START | EXEC_CALL | EXEC_STATICCALL | EXEC_DELEGATECALL | EXEC_CALLCODE | EXEC_CREATE | EXEC_CREATE2.

(** [code] and [input] carry their sizes; the stack and memory of a frame are
    its own. *)
Record call_frame_t := Frame {
  pc : Z; gas : Z; stack : evm_stack_t; memory : evm_memory_t; code : list Z;
  output_offset : Z; output_size : Z; depth : Z; exec_type : exec_type_t; is_static : bool;
  caller : address_t; address : address_t; value : uint256_t; input : list Z;
  jumpdest_bitmap : option (list Z); code_hash : hash_t }.

Definition code_size (f : call_frame_t) : Z := Z.of_nat (length (code f)).
Definition input_size (f : call_frame_t) : Z := Z.of_nat (length (input f)).

Definition call_frame_can_transfer_value (f : call_frame_t) : bool :=
  match exec_type f with EXEC_TX_START | EXEC_CALL | EXEC_CALLCODE => true | _ => false end.

Definition call_frame_current_opcode (f : call_frame_t) : Z :=
  if code_size f <=? pc f then 0 else aget (code f) (Z.to_nat (pc f)).

(** Assignments to the fields the handlers write. *)
Definition set_pc (f : call_frame_t) (x : Z) : call_frame_t :=
  Frame x (gas f) (stack f) (memory f) (code f) (output_offset f) (output_size f) (depth f) (exec_type f) (is_static f)
    (caller f) (address f) (value f) (input f) (jumpdest_bitmap f) (code_hash f).
Definition set_gas (f : call_frame_t) (x : Z) : call_frame_t :=
  Frame (pc f) x (stack f) (memory f) (code f) (output_offset f) (output_size f) (depth f) (exec_type f) (is_static f)
    (caller f) (address f) (value f) (input f) (jumpdest_bitmap f) (code_hash f).
Definition set_stack (f : call_frame_t) (x : evm_stack_t) : call_frame_t :=
  Frame (pc f) (gas f) x (memory f) (code f) (output_offset f) (output_size f) (depth f) (exec_type f) (is_static f)
    (caller f) (address f) (value f) (input f) (jumpdest_bitmap f) (code_hash f).
Definition set_memory (f : call_frame_t) (x : evm_memory_t) : call_frame_t :=
  Frame (pc f) (gas f) (stack f) x (code f) (output_offset f) (output_size f) (depth f) (exec_type f) (is_static f)
    (caller f) (address f) (value f) (input f) (jumpdest_bitmap f) (code_hash f).
Definition set_output (f : call_frame_t) (off size : Z) : call_frame_t :=
  Frame (pc f) (gas f) (stack f) (memory f) (code f) off size (depth f) (exec_type f) (is_static f)
    (caller f) (address f) (value f) (input f) (jumpdest_bitmap f) (code_hash f).
Definition set_bitmap (f : call_frame_t) (x : option (list Z)) : call_frame_t :=
  Frame (pc f) (gas f) (stack f) (memory f) (code f) (output_offset f) (output_size f) (depth f) (exec_type f) (is_static f)
    (caller f) (address f) (value f) (input f) x (code_hash f).

(** * Primitive steps of the handlers *)

Definition FM (A : Type) : Type := M call_frame_t A.

(** [if (!evm_stack_has_items(frame->stack, n)) return EVM_STACK_UNDERFLOW;] *)
Definition need_items (n : Z) : FM unit := check (fun f => evm_stack_has_items (stack f) n) EVM_STACK_UNDERFLOW.

Definition pop : FM uint256_t := fun f =>
  match evm_stack_pop_unsafe (stack f) with
  | Some (x, s) => Ret (set_stack f s) x
  | None => Crash OutOfBounds
  end.

Definition peek (d : nat) : FM uint256_t := fun f =>
  match evm_stack_peek_unsafe (stack f) d with Some x => Ret f x | None => Crash OutOfBounds end.

Definition push (v : uint256_t) : FM unit := fun f =>
  match evm_stack_push_unsafe (stack f) v with Some s => Ret (set_stack f s) tt | None => Crash OutOfBounds end.

(** [if (!evm_stack_ensure_space(frame->stack, n)) return EVM_STACK_OVERFLOW;] *)
Definition ensure_space (n : Z) : FM unit := fun f =>
  match evm_stack_ensure_space (stack f) n with
  | Some (true, s) => Ret (set_stack f s) tt
  | Some (false, s) => Err (set_stack f s) EVM_STACK_OVERFLOW
  | None => Crash Diverges
  end.

(** [if (frame->gas < cost) return EVM_OUT_OF_GAS; frame->gas -= cost;] *)
Definition charge (cost : Z) : FM unit :=
  check (fun f => negb (gas f <? cost)) EVM_OUT_OF_GAS ;;
  modify (fun f => set_gas f (gas f -64 cost)).

(** [if (!evm_memory_expand(frame->memory, offset, size, &cost)) return EVM_OUT_OF_GAS;] *)
Definition expand (offset size : Z) : FM Z := fun f =>
  match evm_memory_expand (memory f) offset size with
  | Some (true, cost, m) => Ret (set_memory f m) cost
  | Some (false, _, m) => Err (set_memory f m) EVM_OUT_OF_GAS
  | None => Crash Diverges
  end.

Definition mload (offset len : Z) : FM (list Z) := fun f =>
  match evm_memory_load_unsafe (memory f) offset len with Some bs => Ret f bs | None => Crash OutOfBounds end.

Definition mstore (offset : Z) (bs : list Z) : FM unit := fun f =>
  match evm_memory_store_unsafe (memory f) offset bs with Some m => Ret (set_memory f m) tt | None => Crash OutOfBounds end.

(** * Invariant of a frame and how handlers may change it *)

Record frame_ok (f : call_frame_t) : Prop := {
  fo_gas : u64 (gas f);
  fo_pc : 0 <= pc f <= code_size f + 32;
  fo_stack : stack_ok (stack f);
  fo_memory : mem_ok (memory f);
  fo_code : bytes_ok (code f) /\ code_size f < 2 ^ 63;
  fo_input : bytes_ok (input f) /\ u64 (input_size f);
  fo_caller : wf_address (caller f);
  fo_address : wf_address (address f);
  fo_value : wf256 (value f) }.

(** The fields no handler writes. *)
Definition same_context (f g : call_frame_t) : Prop :=
  code g = code f /\ depth g = depth f /\ exec_type g = exec_type f /\ is_static g = is_static f /\
  caller g = caller f /\ address g = address f /\ value g = value f /\ input g = input f /\ code_hash g = code_hash f.

Lemma same_context_refl f : same_context f f.
Proof. repeat split. Qed.

Lemma same_context_trans f g h : same_context f g -> same_context g h -> same_context f h.
Proof. unfold same_context. intuition congruence. Qed.
