(* ===== verification/OpsArith.v ===== *)
(** Opcode handlers that work on the stack and the program counter:
    src/evm/opcodes/arithmetic.h, comparison.h, bitwise.h, push.h, stack.h and
    control_flow.h. *)
From Stdlib Require Import ZArith Lia List Bool.
From S2P Require Import Prelude Uint256 Multiply Knuth Arith Types Effects Arena Stack Memory Opcodes Frame.
Import ListNotations.
#[local] Open Scope Z_scope.
#[local] Open Scope word_scope.
#[local] Open Scope eff_scope.

(** The common bodies: check the items, charge, pop, compute, push. *)
Definition unary_op (op : uint256_t -> uint256_t) (gas_cost : Z) : FM unit :=
  need_items 1 ;; charge gas_cost ;;
  a <- pop ;; push (op a).

Definition binary_op (op : uint256_t -> uint256_t -> uint256_t) (gas_cost : Z) : FM unit :=
  need_items 2 ;; charge gas_cost ;;
  a <- pop ;; b <- pop ;; push (op a b).

Definition ternary_op (op : uint256_t -> uint256_t -> uint256_t -> uint256_t) (gas_cost : Z) : FM unit :=
  need_items 3 ;; charge gas_cost ;;
  a <- pop ;; b <- pop ;; n <- pop ;; push (op a b n).

(** [b ? uint256_from_u64(1) : uint256_zero()] *)
Definition bool_word (b : bool) : uint256_t := if b then uint256_from_u64 1 else uint256_zero.

(** * arithmetic.h *)

Definition GAS_EXP_BASE : Z := 10.
Definition GAS_EXP_BYTE : Z := 50.

Definition op_sub : Z -> FM unit := binary_op uint256_sub.
Definition op_mul : Z -> FM unit := binary_op uint256_mul.
Definition op_div : Z -> FM unit := binary_op uint256_div.
Definition op_sdiv : Z -> FM unit := binary_op uint256_sdiv.
Definition op_mod : Z -> FM unit := binary_op uint256_mod.
Definition op_smod : Z -> FM unit := binary_op uint256_smod.
Definition op_signextend : Z -> FM unit := binary_op uint256_signextend.
Definition op_addmod : Z -> FM unit := ternary_op uint256_addmod.
Definition op_mulmod : Z -> FM unit := ternary_op uint256_mulmod.

Definition op_exp : FM unit :=
  need_items 2 ;;
  exponent_peek <- peek 1 ;;
  let exp_byte_len := uint256_byte_length exponent_peek in
  gas_cost <-
    (if exp_byte_len >? 0 then
       guard (negb (exp_byte_len >? (UINT64_MAX - GAS_EXP_BASE) / GAS_EXP_BYTE)) EVM_OUT_OF_GAS ;;
       ret (GAS_EXP_BASE +64 (GAS_EXP_BYTE *64 exp_byte_len))
     else ret GAS_EXP_BASE) ;;
  charge gas_cost ;;
  base <- pop ;; exponent <- pop ;; push (uint256_exp base exponent).

(** * comparison.h *)

Definition op_lt : Z -> FM unit := binary_op (fun a b => bool_word (uint256_lt a b)).
Definition op_gt : Z -> FM unit := binary_op (fun a b => bool_word (uint256_gt a b)).
Definition op_eq : Z -> FM unit := binary_op (fun a b => bool_word (uint256_eq a b)).
Definition op_iszero : Z -> FM unit := unary_op (fun a => bool_word (uint256_is_zero a)).
Definition op_slt : Z -> FM unit := binary_op (fun a b => bool_word (uint256_slt a b)).
Definition op_sgt : Z -> FM unit := binary_op (fun a b => bool_word (uint256_sgt a b)).

(** * bitwise.h *)

Definition op_and : Z -> FM unit := binary_op uint256_and.
Definition op_or : Z -> FM unit := binary_op uint256_or.
Definition op_xor : Z -> FM unit := binary_op uint256_xor.
Definition op_not : Z -> FM unit := unary_op uint256_not.
Definition op_byte : Z -> FM unit := binary_op uint256_byte.
Definition op_shl : Z -> FM unit := binary_op uint256_shl.
Definition op_shr : Z -> FM unit := binary_op uint256_shr.
Definition op_sar : Z -> FM unit := binary_op uint256_sar.

(** * push.h: gas before stack space *)

Definition need_gas (gas_cost : Z) : FM unit := check (fun f => negb (gas f <? gas_cost)) EVM_OUT_OF_GAS.
Definition take_gas (gas_cost : Z) : FM unit := modify (fun f => set_gas f (gas f -64 gas_cost)).

Definition op_push0 (gas_cost : Z) : FM unit :=
  need_gas gas_cost ;; ensure_space 1 ;; take_gas gas_cost ;;
  push uint256_zero.

Definition op_push_n (n : Z) (gas_cost : Z) : FM unit :=
  need_gas gas_cost ;; ensure_space 1 ;; take_gas gas_cost ;;
  bytes <- gets (fun f =>
    let available := code_size f -64 pc f in
    let to_read := if n <? available then n else available in
    firstn (Z.to_nat to_read) (skipn (Z.to_nat (pc f)) (code f))) ;;
  let value := uint256_from_bytes_be bytes in
  modify (fun f => set_pc f (pc f +64 n)) ;;
  push value.

(** * stack.h *)

Definition op_pop (gas_cost : Z) : FM unit :=
  need_items 1 ;; charge gas_cost ;;
  _ <- pop ;; ret tt.

Definition op_dup (depth : nat) (gas_cost : Z) : FM unit :=
  need_items (Z.of_nat depth) ;;
  check (fun f => evm_stack_has_space (stack f) 1) EVM_STACK_OVERFLOW ;;
  charge gas_cost ;;
  fun f => match evm_stack_dup_unsafe (stack f) depth with
           | Some s => Ret (set_stack f s) tt
           | None => Crash OutOfBounds
           end.

Definition op_swap (depth : nat) (gas_cost : Z) : FM unit :=
  need_items (Z.of_nat depth + 1) ;; charge gas_cost ;;
  fun f => match evm_stack_swap_unsafe (stack f) depth with
           | Some s => Ret (set_stack f s) tt
           | None => Crash OutOfBounds
           end.

(** * control_flow.h *)

(** [ensure_space] first, then gas: the order of the opcodes that push a value
    of the context. *)
Definition push_op (g : call_frame_t -> uint256_t) (gas_cost : Z) : FM unit :=
  ensure_space 1 ;; charge gas_cost ;;
  v <- gets g ;; push v.

Definition op_pc (pc_value gas_cost : Z) : FM unit := push_op (fun _ => uint256_from_u64 pc_value) gas_cost.
Definition op_gas : Z -> FM unit := push_op (fun f => uint256_from_u64 (gas f)).
Definition op_jumpdest (gas_cost : Z) : FM unit := charge gas_cost.

Definition jump_to (bitmap : list Z) (dest_u256 : uint256_t) : FM unit :=
  guard (uint256_fits_u64 dest_u256) EVM_INVALID_JUMP ;;
  let dest := uint256_to_u64_unsafe dest_u256 in
  check (fun f => jumpdest_is_valid bitmap (code_size f) dest) EVM_INVALID_JUMP ;;
  modify (fun f => set_pc f dest).

Definition op_jump (bitmap : list Z) (gas_cost : Z) : FM unit :=
  need_items 1 ;; charge gas_cost ;;
  dest_u256 <- pop ;; jump_to bitmap dest_u256.

Definition op_jumpi (bitmap : list Z) (gas_cost : Z) : FM unit :=
  need_items 2 ;; charge gas_cost ;;
  dest_u256 <- pop ;; condition <- pop ;;
  if uint256_is_zero condition then ret tt else jump_to bitmap dest_u256.
