(* ===== verification/OpsData.v ===== *)
(** Opcode handlers on memory, the execution context, the state and the logs:
    src/evm/opcodes/memory.h, keccak.h, context.h, block.h, storage.h,
    external.h and logging.h. *)
From Stdlib Require Import ZArith Lia List Bool.
From S2P Require Import Prelude Uint256 Types Effects Arena Stack Memory Gas Frame OpsArith StateAccess.
Import ListNotations.
#[local] Open Scope Z_scope.
#[local] Open Scope word_scope.
#[local] Open Scope eff_scope.

(** * memory.h *)

(** Base cost plus expansion cost, with its overflow check. *)
Definition charge_with_memory (gas_cost mem_cost : Z) : FM unit :=
  guard (negb (mem_cost >? UINT64_MAX - gas_cost)) EVM_OUT_OF_GAS ;;
  charge (gas_cost +64 mem_cost).

Definition op_mload (gas_cost : Z) : FM unit :=
  need_items 1 ;;
  offset_u256 <- pop ;;
  guard (uint256_fits_u64 offset_u256) EVM_OUT_OF_GAS ;;
  let offset := uint256_to_u64_unsafe offset_u256 in
  guard (negb (offset >? UINT64_MAX - 32)) EVM_OUT_OF_GAS ;;
  mem_cost <- expand offset 32 ;;
  charge_with_memory gas_cost mem_cost ;;
  bs <- mload offset 32 ;;
  push (uint256_from_bytes_be bs).

Definition op_mstore (gas_cost : Z) : FM unit :=
  need_items 2 ;;
  offset_u256 <- pop ;; value <- pop ;;
  guard (uint256_fits_u64 offset_u256) EVM_OUT_OF_GAS ;;
  let offset := uint256_to_u64_unsafe offset_u256 in
  guard (negb (offset >? UINT64_MAX - 32)) EVM_OUT_OF_GAS ;;
  mem_cost <- expand offset 32 ;;
  charge_with_memory gas_cost mem_cost ;;
  mstore offset (uint256_to_bytes_be value).

Definition op_mstore8 (gas_cost : Z) : FM unit :=
  need_items 2 ;;
  offset_u256 <- pop ;; value <- pop ;;
  guard (uint256_fits_u64 offset_u256) EVM_OUT_OF_GAS ;;
  let offset := uint256_to_u64_unsafe offset_u256 in
  guard (negb (offset >? UINT64_MAX - 1)) EVM_OUT_OF_GAS ;;
  mem_cost <- expand offset 1 ;;
  charge_with_memory gas_cost mem_cost ;;
  mstore offset [w8 (Z.land (limb0 value) 255)].

Definition op_msize : Z -> FM unit := push_op (fun f => uint256_from_u64 (evm_memory_size (memory f))).

(** * keccak.h *)

Section Keccak.
(** [keccak256] of src/crypto/keccak256.c, which calls the vendored sponge. *)
Variable keccak256 : list Z -> hash_t.

Definition op_keccak256 (gas_cost : Z) : FM unit :=
  need_items 2 ;;
  offset_u256 <- pop ;; size_u256 <- pop ;;
  if uint256_is_zero size_u256 then
    charge gas_cost ;; push (hash_to_uint256 (keccak256 []))
  else
    guard (negb (negb (uint256_fits_u64 offset_u256) || negb (uint256_fits_u64 size_u256))) EVM_OUT_OF_GAS ;;
    let offset := uint256_to_u64_unsafe offset_u256 in
    let size := uint256_to_u64_unsafe size_u256 in
    guard (negb (offset >? UINT64_MAX - size)) EVM_OUT_OF_GAS ;;
    mem_cost <- expand offset size ;;
    guard (negb (size >? UINT64_MAX - 31)) EVM_OUT_OF_GAS ;;
    let words := (size +64 31) / 32 in
    guard (negb (words >? UINT64_MAX / GAS_KECCAK256_WORD)) EVM_OUT_OF_GAS ;;
    let word_cost := GAS_KECCAK256_WORD *64 words in
    guard (negb (word_cost >? UINT64_MAX - gas_cost)) EVM_OUT_OF_GAS ;;
    let dynamic_cost := gas_cost +64 word_cost in
    guard (negb (mem_cost >? UINT64_MAX - dynamic_cost)) EVM_OUT_OF_GAS ;;
    charge (dynamic_cost +64 mem_cost) ;;
    bs <- mload offset size ;;
    push (hash_to_uint256 (keccak256 bs)).
End Keccak.

(** * context.h *)

Definition op_address : Z -> FM unit := push_op (fun f => address_to_uint256 (address f)).
Definition op_caller : Z -> FM unit := push_op (fun f => address_to_uint256 (caller f)).
Definition op_callvalue : Z -> FM unit := push_op value.
Definition op_calldatasize : Z -> FM unit := push_op (fun f => uint256_from_u64 (input_size f)).
Definition op_codesize : Z -> FM unit := push_op (fun f => uint256_from_u64 (code_size f)).

(** The first [n] bytes of [bs], padded with zeros to [n]. *)
Definition padded (n : nat) (bs : list Z) : list Z := firstn n bs ++ repeat 0 (n - length bs).

Definition op_calldataload (gas_cost : Z) : FM unit :=
  need_items 1 ;; charge gas_cost ;;
  offset_u256 <- pop ;;
  if negb (uint256_fits_u64 offset_u256) then push uint256_zero
  else
    let offset := uint256_to_u64_unsafe offset_u256 in
    data <- gets input ;;
    if Z.of_nat (length data) <=? offset then push uint256_zero
    else push (uint256_from_bytes_be (padded 32 (skipn (Z.to_nat offset) data))).

(** What the copy opcodes write: the source from [src_offset_u256] on, padded
    with zeros to [size] bytes; all zeros when the offset is out of range. *)
Definition copy_bytes (source : list Z) (src_offset_u256 : uint256_t) (size : Z) : list Z :=
  let src_offset := if uint256_fits_u64 src_offset_u256 then uint256_to_u64_unsafe src_offset_u256 else 0 in
  let src_in_bounds := uint256_fits_u64 src_offset_u256 && (src_offset <? Z.of_nat (length source)) in
  if src_in_bounds then padded (Z.to_nat size) (skipn (Z.to_nat src_offset) source)
  else repeat 0 (Z.to_nat size).

(** The checks and charges between the pops and the copy. *)
Definition copy_prepare (gas_cost : Z) (dest_offset_u256 : uint256_t) (size : Z) : FM Z :=
  guard (uint256_fits_u64 dest_offset_u256) EVM_OUT_OF_GAS ;;
  let dest_offset := uint256_to_u64_unsafe dest_offset_u256 in
  guard (negb (dest_offset >? UINT64_MAX - size)) EVM_OUT_OF_GAS ;;
  mem_cost <- expand dest_offset size ;;
  let word_cost := GAS_COPY *64 ((size +64 31) / 32) in
  charge ((gas_cost +64 word_cost) +64 mem_cost) ;;
  ret dest_offset.

(** CALLDATACOPY and CODECOPY differ only in their source. *)
Definition copy_op (source : call_frame_t -> list Z) (gas_cost : Z) : FM unit :=
  need_items 3 ;;
  dest_offset_u256 <- pop ;; src_offset_u256 <- pop ;; size_u256 <- pop ;;
  if uint256_is_zero size_u256 then charge gas_cost
  else
    guard (uint256_fits_u64 size_u256) EVM_OUT_OF_GAS ;;
    let size := uint256_to_u64_unsafe size_u256 in
    dest_offset <- copy_prepare gas_cost dest_offset_u256 size ;;
    src <- gets source ;;
    mstore dest_offset (copy_bytes src src_offset_u256 size).

Definition op_calldatacopy : Z -> FM unit := copy_op input.
Definition op_codecopy : Z -> FM unit := copy_op code.

(** RETURNDATACOPY fails on a range outside the return data. *)
Definition op_returndatacopy (gas_cost : Z) (return_data : list Z) : FM unit :=
  need_items 3 ;;
  dest_offset_u256 <- pop ;; src_offset_u256 <- pop ;; size_u256 <- pop ;;
  if uint256_is_zero size_u256 then charge gas_cost
  else
    guard (uint256_fits_u64 size_u256) EVM_OUT_OF_GAS ;;
    let size := uint256_to_u64_unsafe size_u256 in
    guard (uint256_fits_u64 src_offset_u256) EVM_OUT_OF_GAS ;;
    let src_offset := uint256_to_u64_unsafe src_offset_u256 in
    let return_data_size := Z.of_nat (length return_data) in
    guard (negb ((src_offset >? return_data_size) || (size >? return_data_size - src_offset))) EVM_OUT_OF_GAS ;;
    dest_offset <- copy_prepare gas_cost dest_offset_u256 size ;;
    mstore dest_offset (firstn (Z.to_nat size) (skipn (Z.to_nat src_offset) return_data)).

(** * block.h *)

Section Block.
Variable block : block_context_t.

Definition op_coinbase : Z -> FM unit := push_op (fun _ => address_to_uint256 (coinbase block)).
Definition op_timestamp : Z -> FM unit := push_op (fun _ => uint256_from_u64 (timestamp block)).
Definition op_number : Z -> FM unit := push_op (fun _ => uint256_from_u64 (number block)).
Definition op_prevrandao : Z -> FM unit := push_op (fun _ => prev_randao block).
Definition op_gaslimit : Z -> FM unit := push_op (fun _ => uint256_from_u64 (gas_limit block)).
Definition op_chainid : Z -> FM unit := push_op (fun _ => uint256_from_u64 (chain_id block)).
Definition op_basefee : Z -> FM unit := push_op (fun _ => base_fee block).
Definition op_blobbasefee : Z -> FM unit := push_op (fun _ => blob_base_fee block).

(** The block hash lookup: the last 256 blocks, zero otherwise. *)
Definition block_hash_of (block_num_u256 : uint256_t) : uint256_t :=
  if uint256_fits_u64 block_num_u256 then
    let block_num := uint256_to_u64_unsafe block_num_u256 in
    let current := number block in
    let min_block := if 256 <=? current then current - 256 else 0 in
    if (min_block <=? block_num) && (block_num <? current) then
      match get_block_hash block with
      | Some get => match get block_num with Some hash => uint256_from_bytes_be hash | None => uint256_zero end
      | None => uint256_zero
      end
    else uint256_zero
  else uint256_zero.

Definition op_blockhash : Z -> FM unit := unary_op block_hash_of.
End Block.

Definition blob_hash_of (tx : tx_context_t) (index_u256 : uint256_t) : uint256_t :=
  if uint256_fits_u64 index_u256 then
    let index := uint256_to_u64_unsafe index_u256 in
    if index <? Z.of_nat (length (blob_hashes tx))
    then uint256_from_bytes_be (nth (Z.to_nat index) (blob_hashes tx) hash_zero)
    else uint256_zero
  else uint256_zero.

Definition op_blobhash (tx : tx_context_t) : Z -> FM unit := unary_op (blob_hash_of tx).

(** * State and logs

    Opcode handlers that read or write the state or the logs:
    src/evm/opcodes/storage.h, external.h, logging.h and SELFBALANCE of
    block.h. *)

(** ** Frame and state together *)

Section StateOps.
Context {St : Type} {SA : StateAccess St}.

Definition SM (A : Type) : Type := M (St * call_frame_t) A.

Definition on_frame {A} (m : FM A) : SM A := zoom snd (fun f s => (fst s, f)) m.
Definition on_state {A} (g : St -> St * A) : SM A := fun s => let '(st, a) := g (fst s) in Ret (st, snd s) a.
Definition this_address : SM address_t := gets (fun s => address (snd s)).

(** ** storage.h *)

Definition op_sload (schedule : gas_schedule_t) : SM unit :=
  on_frame (need_items 1) ;;
  slot <- on_frame pop ;;
  addr <- this_address ;;
  is_cold <- on_state (fun st => warm_slot st addr slot) ;;
  on_frame (charge (sload schedule is_cold)) ;;
  value <- gets (fun s => get_storage (fst s) addr slot) ;;
  on_frame (ensure_space 1) ;;
  on_frame (push value).

(** The new refund accumulator is the result. *)
Definition op_sstore (schedule : gas_schedule_t) (gas_refund : Z) : SM Z :=
  check (fun s => negb (is_static (snd s))) EVM_WRITE_PROTECTION ;;
  on_frame (need_items 2) ;;
  slot <- on_frame pop ;; new_value <- on_frame pop ;;
  addr <- this_address ;;
  current_value <- gets (fun s => get_storage (fst s) addr slot) ;;
  original_value <- gets (fun s => get_original_storage (fst s) addr slot) ;;
  is_cold <- on_state (fun st => warm_slot st addr slot) ;;
  let gas_cost := sstore schedule is_cold current_value original_value new_value in
  check (fun s => negb (gas (snd s) <=? sstore_min_gas schedule)) EVM_OUT_OF_GAS ;;
  on_frame (charge gas_cost) ;;
  let refund := sstore_refund schedule current_value original_value new_value in
  let gas_refund := apply_refund gas_refund refund in
  _ <- on_state (fun st => (set_storage st addr slot new_value, tt)) ;;
  ret gas_refund.

(** ** external.h *)

(** EIP-2929: warm the address and give the cost of the access. *)
Definition access_cost (addr : address_t) : SM Z :=
  is_cold <- on_state (fun st => warm_address st addr) ;;
  ret (if is_cold : bool then GAS_COLD_ACCOUNT_ACCESS else GAS_WARM_ACCESS).

(** Pop an address, pay for the access, push what [query] says of it. *)
Definition account_op (query : St -> address_t -> uint256_t) : SM unit :=
  on_frame (need_items 1) ;;
  addr_u256 <- on_frame pop ;;
  let addr := address_from_uint256 addr_u256 in
  gas_cost <- access_cost addr ;;
  on_frame (charge gas_cost) ;;
  result <- gets (fun s => query (fst s) addr) ;;
  on_frame (ensure_space 1) ;;
  on_frame (push result).

Definition op_balance : SM unit := account_op get_balance.
Definition op_extcodesize : SM unit := account_op (fun st a => uint256_from_u64 (get_code_size st a)).
Definition op_extcodehash : SM unit := account_op (fun st a =>
  if negb (account_exists st a) then uint256_zero else uint256_from_bytes_be (get_code_hash st a)).

Definition op_extcodecopy : SM unit :=
  on_frame (need_items 4) ;;
  addr_u256 <- on_frame pop ;; dest_offset_u256 <- on_frame pop ;;
  src_offset_u256 <- on_frame pop ;; size_u256 <- on_frame pop ;;
  let addr := address_from_uint256 addr_u256 in
  access_cost <- access_cost addr ;;
  if uint256_is_zero size_u256 then on_frame (charge access_cost)
  else
    on_frame (guard (uint256_fits_u64 size_u256) EVM_OUT_OF_GAS) ;;
    let size := uint256_to_u64_unsafe size_u256 in
    dest_offset <- on_frame (copy_prepare access_cost dest_offset_u256 size) ;;
    code <- gets (fun s => get_code (fst s) addr) ;;
    on_frame (mstore dest_offset (copy_bytes code src_offset_u256 size)).

(** SELFBALANCE of block.h. *)
Definition op_selfbalance (gas_cost : Z) : SM unit :=
  on_frame (ensure_space 1) ;; on_frame (charge gas_cost) ;;
  addr <- this_address ;;
  balance <- gets (fun s => get_balance (fst s) addr) ;;
  on_frame (push balance).
End StateOps.

(** ** logging.h *)

(** The loop that pops the topics, first topic first. *)
Fixpoint pop_topics (n : nat) : FM (list hash_t) :=
  match n with
  | O => ret []
  | S n' => topic <- pop ;; rest <- pop_topics n' ;; ret (hash_from_uint256 topic :: rest)
  end.

(** The log to append is the result; the caller adds it to the log vector. *)
Definition op_log_n (logs : evm_log_vec_t) (topic_count : nat) : FM evm_log_vec_t :=
  need_items (2 + Z.of_nat topic_count) ;;
  check (fun f => negb (is_static f)) EVM_WRITE_PROTECTION ;;
  offset_u256 <- pop ;; size_u256 <- pop ;;
  guard (negb (negb (uint256_fits_u64 offset_u256) || negb (uint256_fits_u64 size_u256))) EVM_OUT_OF_GAS ;;
  let offset := uint256_to_u64_unsafe offset_u256 in
  let size := uint256_to_u64_unsafe size_u256 in
  topics <- pop_topics topic_count ;;
  let gas_cost := GAS_LOG in
  let topic_cost := Z.of_nat topic_count *64 GAS_LOG_TOPIC in
  guard (negb (gas_cost >? UINT64_MAX - topic_cost)) EVM_OUT_OF_GAS ;;
  let gas_cost := gas_cost +64 topic_cost in
  guard (negb (size >? UINT64_MAX / GAS_LOG_DATA)) EVM_OUT_OF_GAS ;;
  let data_cost := size *64 GAS_LOG_DATA in
  guard (negb (gas_cost >? UINT64_MAX - data_cost)) EVM_OUT_OF_GAS ;;
  let gas_cost := gas_cost +64 data_cost in
  gas_cost <-
    (if size >? 0 then
       mem_cost <- expand offset size ;;
       guard (negb (gas_cost >? UINT64_MAX - mem_cost)) EVM_OUT_OF_GAS ;;
       ret (gas_cost +64 mem_cost)
     else ret gas_cost) ;;
  charge gas_cost ;;
  log_data <-
    (if size >? 0 then
       guard (alloc_succeeds size) EVM_OUT_OF_GAS ;; mload offset size
     else ret []) ;;
  addr <- gets address ;;
  let log := Log addr topics log_data in
  let '(pushed, logs) := evm_log_vec_push logs log in
  guard pushed EVM_OUT_OF_GAS ;;
  ret logs.
