(* ===== verification/CallOps.v ===== *)
(** The CALL family: include/div0/evm/call_op.h, src/evm/call_op.c,
    src/evm/opcodes/call.c and the frame pool of call_frame_pool.h. *)
From Stdlib Require Import ZArith Lia List Bool.
From S2P Require Import Prelude Uint256 Types Effects Arena Stack Memory Gas StateAccess Frame OpsArith OpsData.
Import ListNotations.
#[local] Open Scope Z_scope.
#[local] Open Scope word_scope.
#[local] Open Scope eff_scope.

Definition EVM_MAX_CALL_DEPTH : Z := 1024.

(** * call_op.h *)

Record call_setup_t := CallSetup {
  target : address_t; setup_value : uint256_t; child_gas : Z;
  args_offset : Z; args_size : Z; ret_offset : Z; ret_size : Z }.

Definition call_child_gas (gas_left requested : Z) : Z :=
  let max_child := gas_cap_call gas_left in
  if requested <? max_child then requested else max_child.

(** One range of [call_memory_cost]: [None] on overflow. *)
Definition range_end (offset size max_end : Z) : option Z :=
  if 0 <? size then
    if offset >? UINT64_MAX - size then None
    else let e := offset +64 size in Some (if e >? max_end then e else max_end)
  else Some max_end.

Definition call_memory_cost (mem : evm_memory_t) (args_offset args_size ret_offset ret_size : Z) : option Z :=
  match range_end args_offset args_size 0 with
  | None => None
  | Some m =>
      match range_end ret_offset ret_size m with
      | None => None
      | Some max_end =>
          if max_end =? 0 then Some 0
          else
            let current_words := evm_memory_size mem / 32 in
            let new_words := (max_end +64 31) / 32 in
            Some (evm_memory_expansion_cost current_words new_words)
      end
  end.

(** * call_op.c *)

Record call_stack_args_t := CallArgs {
  requested_gas : uint256_t; arg_addr : uint256_t; arg_value : uint256_t;
  arg_args_offset : uint256_t; arg_args_size : uint256_t; arg_ret_offset : uint256_t; arg_ret_size : uint256_t }.

Definition pop_call_args : FM call_stack_args_t :=
  g <- pop ;; a <- pop ;; v <- pop ;; ao <- pop ;; az <- pop ;; ro <- pop ;; rz <- pop ;;
  ret (CallArgs g a v ao az ro rz).

Definition pop_call_args_no_value : FM call_stack_args_t :=
  g <- pop ;; a <- pop ;; ao <- pop ;; az <- pop ;; ro <- pop ;; rz <- pop ;;
  ret (CallArgs g a uint256_zero ao az ro rz).

(** The [for] loops that drop the arguments at the depth limit. *)
Fixpoint pop_n (n : nat) : FM unit :=
  match n with O => ret tt | S n' => _ <- pop ;; pop_n n' end.

(** Fails with [EVM_OUT_OF_GAS] in every caller. *)
Definition validate_memory_args (args : call_stack_args_t) : FM (Z * Z * Z * Z) :=
  guard (negb (negb (uint256_fits_u64 (arg_args_offset args)) || negb (uint256_fits_u64 (arg_args_size args)) ||
               negb (uint256_fits_u64 (arg_ret_offset args)) || negb (uint256_fits_u64 (arg_ret_size args)))) EVM_OUT_OF_GAS ;;
  ret (uint256_to_u64_unsafe (arg_args_offset args), uint256_to_u64_unsafe (arg_args_size args),
       uint256_to_u64_unsafe (arg_ret_offset args), uint256_to_u64_unsafe (arg_ret_size args)).

(** The overhead of the call, before memory. *)
Definition call_overhead (was_cold transfers_value is_new_account : bool) : Z :=
  let cost := 0 +64 (if was_cold then GAS_COLD_ACCOUNT_ACCESS else GAS_WARM_ACCESS) in
  if transfers_value then
    let cost := cost +64 GAS_CALL_VALUE in
    if is_new_account then cost +64 GAS_NEW_ACCOUNT else cost
  else cost.

(** The gas split after the overhead is paid: new parent gas and child gas. *)
Definition split_gas (parent_gas : Z) (requested_u256 : uint256_t) (transfers_value : bool) : Z * Z :=
  let requested_gas := if uint256_fits_u64 requested_u256 then uint256_to_u64_unsafe requested_u256 else UINT64_MAX in
  let child_gas := call_child_gas parent_gas requested_gas in
  let child_gas := if transfers_value then child_gas +64 GAS_CALL_STIPEND else child_gas in
  let gas_to_deduct := child_gas -64 (if transfers_value then GAS_CALL_STIPEND else 0) in
  let gas_to_deduct := if gas_to_deduct >? parent_gas then parent_gas else gas_to_deduct in
  (parent_gas -64 gas_to_deduct, child_gas).

(** [expand_call_memory] ignores a failed expansion. *)
Definition expand_call_memory (args_offset args_size ret_offset ret_size : Z) : FM unit := fun f =>
  let max_end := 0 in
  let max_end := if args_size >? 0 then let e := args_offset +64 args_size in if e >? max_end then e else max_end else max_end in
  let max_end := if ret_size >? 0 then let e := ret_offset +64 ret_size in if e >? max_end then e else max_end else max_end in
  if max_end >? evm_memory_size (memory f) then
    match evm_memory_expand (memory f) 0 max_end with
    | Some (_, _, m) => Ret (set_memory f m) tt
    | None => Crash Diverges
    end
  else Ret f tt.

Section Calls.
Context {St : Type} {SA : StateAccess St}.
#[local] Abbreviation SM := (@SM St).

Definition calculate_call_gas (target : address_t) (args : call_stack_args_t) (ao az ro rz : Z)
  (transfers_value is_new_account : bool) : SM Z :=
  was_cold <- on_state (fun st => warm_address st target) ;;
  mem_cost <- on_frame (fun f =>
    match call_memory_cost (memory f) ao az ro rz with
    | Some c => Ret f c
    | None => Err f EVM_OUT_OF_GAS
    end) ;;
  let call_gas_cost := call_overhead was_cold transfers_value is_new_account +64 mem_cost in
  on_frame (charge call_gas_cost) ;;
  on_frame (fun f =>
    let '(parent_gas, child_gas) := split_gas (gas f) (requested_gas args) transfers_value in
    Ret (set_gas f parent_gas) child_gas).

(** The part of the [prepare_*] functions after the arguments are popped. *)
Definition prepare_args (has_value new_accounts : bool) (args : call_stack_args_t) : SM (option call_setup_t) :=
  ' (ao, az, ro, rz) <- on_frame (validate_memory_args args) ;;
  let transfers_value := negb (uint256_is_zero (arg_value args)) in
  check (fun s => negb (has_value && is_static (snd s) && transfers_value)) EVM_WRITE_PROTECTION ;;
  let target := address_from_uint256 (arg_addr args) in
  is_new_account <- gets (fun s => new_accounts && (transfers_value && account_is_empty (fst s) target)) ;;
  child_gas <- calculate_call_gas target args ao az ro rz (has_value && transfers_value) is_new_account ;;
  on_frame (expand_call_memory ao az ro rz) ;;
  ret (Some (CallSetup target (arg_value args) child_gas ao az ro rz)).

(** The [prepare_*] functions. An error status is an early return; [None] is
    the status [EVM_CALL_DEPTH_EXCEEDED], which is not an error. *)
Definition prepare (has_value new_accounts : bool) : SM (option call_setup_t) :=
  let n := if has_value then 7%nat else 6%nat in
  on_frame (need_items (Z.of_nat n)) ;;
  deep <- gets (fun s => MAX_CALL_DEPTH <=? depth (snd s)) ;;
  if deep : bool then on_frame (pop_n n) ;; ret None
  else
    args <- on_frame (if has_value then pop_call_args else pop_call_args_no_value) ;;
    prepare_args has_value new_accounts args.

Definition prepare_call : SM (option call_setup_t) := prepare true true.
Definition prepare_callcode : SM (option call_setup_t) := prepare true false.
Definition prepare_staticcall : SM (option call_setup_t) := prepare false false.
Definition prepare_delegatecall : SM (option call_setup_t) := prepare false false.

(** * call.c *)

Record child_frame_params_t := ChildParams {
  p_exec_type : exec_type_t; p_is_static : bool; p_caller : address_t; p_address : address_t; p_value : uint256_t }.

(** [call_frame_pool_rent] gives a frame while fewer than 1024 are in use. *)
Definition pool_rent (pool_depth : Z) : bool := pool_depth <? EVM_MAX_CALL_DEPTH.

(** The child, or [None] when the pool is exhausted; the parent remembers
    where the output goes. The child's input is the parent's memory range. *)
Definition init_child_frame (pool_depth : Z) (setup : call_setup_t) (child_code : list Z) (params : child_frame_params_t) :
  FM (option call_frame_t) :=
  if negb (pool_rent pool_depth) then ret None
  else
    data <- (if args_size setup >? 0 then mload (args_offset setup) (args_size setup) else ret []) ;;
    fun parent =>
      match evm_stack_pool_borrow with
      | None => Crash OutOfBounds
      | Some child_stack =>
          let child := Frame 0 (child_gas setup) child_stack evm_memory_init child_code
            (ret_offset setup) (w32 (ret_size setup)) (w16 (depth parent + 1))
            (p_exec_type params) (p_is_static params) (p_caller params) (p_address params) (p_value params)
            data None hash_zero in
          Ret (set_output parent (ret_offset setup) (w32 (ret_size setup))) (Some child)
      end.

(** Push the failure flag and go on. *)
Definition call_fails : SM (option call_frame_t) := on_frame (push uint256_zero) ;; ret None.

(** The common end of the four handlers: fetch the code, make the child. *)
Definition start_child (pool_depth : Z) (setup : call_setup_t) (params : call_frame_t -> child_frame_params_t) :
  SM (option call_frame_t) :=
  code <- gets (fun s => get_code (fst s) (target setup)) ;;
  params <- gets (fun s => params (snd s)) ;;
  child <- on_frame (init_child_frame pool_depth setup code params) ;;
  match child with
  | None => call_fails
  | Some c => ret (Some c)
  end.

Definition op_call (pool_depth : Z) : SM (option call_frame_t) :=
  setup <- prepare_call ;;
  match setup with
  | None => call_fails
  | Some setup =>
      frame <- gets snd ;;
      let v := setup_value setup in
      balance <- gets (fun s => get_balance (fst s) (address frame)) ;;
      if negb (uint256_is_zero v) && uint256_lt balance v then call_fails
      else
        (if negb (uint256_is_zero v) then
           _ <- on_state (fun st => sub_balance st (address frame) v) ;;
           _ <- on_state (fun st => add_balance st (target setup) v) ;; ret tt
         else ret tt) ;;
        start_child pool_depth setup (fun f => ChildParams EXEC_CALL (is_static f) (address f) (target setup) v)
  end.

Definition op_staticcall (pool_depth : Z) : SM (option call_frame_t) :=
  setup <- prepare_staticcall ;;
  match setup with
  | None => call_fails
  | Some setup =>
      start_child pool_depth setup (fun f => ChildParams EXEC_STATICCALL true (address f) (target setup) uint256_zero)
  end.

Definition op_delegatecall (pool_depth : Z) : SM (option call_frame_t) :=
  setup <- prepare_delegatecall ;;
  match setup with
  | None => call_fails
  | Some setup =>
      start_child pool_depth setup (fun f => ChildParams EXEC_DELEGATECALL (is_static f) (caller f) (address f) (value f))
  end.

Definition op_callcode (pool_depth : Z) : SM (option call_frame_t) :=
  setup <- prepare_callcode ;;
  match setup with
  | None => call_fails
  | Some setup =>
      frame <- gets snd ;;
      let v := setup_value setup in
      balance <- gets (fun s => get_balance (fst s) (address frame)) ;;
      if negb (uint256_is_zero v) && uint256_lt balance v then call_fails
      else start_child pool_depth setup (fun f => ChildParams EXEC_CALLCODE (is_static f) (address f) (address f) v)
  end.
End Calls.
