(* ===== verification/Evm.v ===== *)
(** The interpreter: include/div0/evm/evm.h, execution_env.h and
    src/evm/evm.c, from one instruction to the whole execution. *)
From Stdlib Require Import ZArith Lia List Bool.
From S2P Require Import Prelude Uint256 Types Effects Arena Stack Memory Opcodes Gas StateAccess Frame.
From S2P Require Import OpsArith OpsData CallOps.
Import ListNotations.
#[local] Open Scope Z_scope.
#[local] Open Scope word_scope.
#[local] Open Scope eff_scope.

(** * execution_env.h *)

Record call_params_t := CallParams {
  call_value : uint256_t; call_gas : Z; call_code : list Z; call_input : list Z;
  call_caller : address_t; call_address : address_t; call_is_static : bool }.

Record execution_env_t := ExecutionEnv { env_block : block_context_t; env_tx : tx_context_t; env_call : call_params_t }.

Definition call_params_init : call_params_t :=
  CallParams uint256_zero 0 [] [] address_zero address_zero false.

(** * evm.h *)

Inductive fork_t := FORK_SHANGHAI | FORK_CANCUN | FORK_PRAGUE | FORK_UNKNOWN.

(** [output] holds [output_size] bytes and [result_logs] [logs_count] logs. *)
Record evm_execution_result_t := ExecutionResult {
  result : evm_result_t; result_error : evm_status_t; gas_used : Z; result_gas_refund : Z;
  output : list Z; result_logs : list evm_log_t }.

(** The frame pool and the memory pool are rented and returned together, so
    one depth stands for both. [return_data] holds [return_data_size] bytes.
    [current_frame] is only ever assigned, never read, and has no field here. *)
Record evm_t (St : Type) := Evm {
  fork : fork_t; gas_table : gas_table_t; gas_schedule : gas_schedule_t;
  pool_depth : Z; pending_frame : option call_frame_t;
  block : block_context_t; tx : tx_context_t;
  return_data : list Z; return_data_capacity : Z;
  state : option St; gas_refund : Z; logs : evm_log_vec_t }.
Arguments Evm {St}.
Arguments fork {St}. Arguments gas_table {St}. Arguments gas_schedule {St}. Arguments pool_depth {St}.
Arguments pending_frame {St}. Arguments block {St}. Arguments tx {St}. Arguments return_data {St}.
Arguments return_data_capacity {St}. Arguments state {St}. Arguments gas_refund {St}. Arguments logs {St}.

Section Interpreter.
Context {St : Type} {SA : StateAccess St}.
Variable keccak256 : list Z -> hash_t.
#[local] Abbreviation evm_t := (evm_t St).

(** Assignments to the fields the interpreter writes. *)
Definition set_pool (e : evm_t) (d : Z) (p : option call_frame_t) : evm_t :=
  Evm (fork e) (gas_table e) (gas_schedule e) d p (block e) (tx e) (return_data e) (return_data_capacity e) (state e) (gas_refund e) (logs e).
Definition set_return (e : evm_t) (data : list Z) (cap : Z) : evm_t :=
  Evm (fork e) (gas_table e) (gas_schedule e) (pool_depth e) (pending_frame e) (block e) (tx e) data cap (state e) (gas_refund e) (logs e).
Definition set_state (e : evm_t) (s : option St) : evm_t :=
  Evm (fork e) (gas_table e) (gas_schedule e) (pool_depth e) (pending_frame e) (block e) (tx e) (return_data e) (return_data_capacity e) s (gas_refund e) (logs e).
Definition set_refund (e : evm_t) (r : Z) : evm_t :=
  Evm (fork e) (gas_table e) (gas_schedule e) (pool_depth e) (pending_frame e) (block e) (tx e) (return_data e) (return_data_capacity e) (state e) r (logs e).
Definition set_logs (e : evm_t) (l : evm_log_vec_t) : evm_t :=
  Evm (fork e) (gas_table e) (gas_schedule e) (pool_depth e) (pending_frame e) (block e) (tx e) (return_data e) (return_data_capacity e) (state e) (gas_refund e) l.
Definition set_context (e : evm_t) (b : block_context_t) (t : tx_context_t) : evm_t :=
  Evm (fork e) (gas_table e) (gas_schedule e) (pool_depth e) (pending_frame e) b t (return_data e) (return_data_capacity e) (state e) (gas_refund e) (logs e).

Definition evm_init (fork : fork_t) : evm_t :=
  let '(table, schedule) :=
    match fork with
    | FORK_SHANGHAI => (gas_table_init_shanghai, gas_schedule_shanghai)
    | FORK_CANCUN => (gas_table_init_cancun, gas_schedule_cancun)
    | FORK_PRAGUE | FORK_UNKNOWN => (gas_table_init_prague, gas_schedule_prague)
    end in
  Evm fork table schedule 0 None block_context_init tx_context_init [] 0 None 0 evm_log_vec_init.

Definition evm_reset (e : evm_t) : evm_t :=
  Evm (fork e) (gas_table e) (gas_schedule e) 0 None (block e) (tx e) [] (return_data_capacity e) (state e) 0 (evm_log_vec_reset (logs e)).

Definition evm_set_state (e : evm_t) (s : option St) : evm_t := set_state e s.

(** The root frame; [None] when the stack cannot be allocated. *)
Definition init_root_frame (env : execution_env_t) : option call_frame_t :=
  let c := env_call env in
  match evm_stack_pool_borrow with
  | None => None
  | Some s =>
      Some (Frame 0 (call_gas c) s evm_memory_init (call_code c) 0 0 0 EXEC_TX_START (call_is_static c)
              (call_caller c) (call_address c) (call_value c) (call_input c) None hash_zero)
  end.

(** * copy_return_data *)

(** The doubling loop with its overflow check. *)
Fixpoint return_capacity (fuel : nat) (new_capacity size : Z) : option Z :=
  if new_capacity <? size then
    match fuel with
    | O => None
    | S fuel' =>
        if new_capacity >? SIZE_MAX / 2 then Some size
        else return_capacity fuel' (new_capacity *64 2) size
    end
  else Some new_capacity.

(** Writing through a buffer whose allocation failed is out of bounds. *)
Definition copy_return_data (e : evm_t) (mem : evm_memory_t) (offset size : Z) : evm_t + fault :=
  if size =? 0 then inl (set_return e [] (return_data_capacity e))
  else
    let cap :=
      if size >? return_data_capacity e then
        match return_capacity 64 256 size with
        | None => inr Diverges
        | Some c => if alloc_succeeds c then inl c else inr OutOfBounds
        end
      else inl (return_data_capacity e) in
    match cap with
    | inr f => inr f
    | inl c =>
        match evm_memory_load_unsafe mem offset size with
        | Some bs => inl (set_return e bs c)
        | None => inr OutOfBounds
        end
    end.

(** * Instructions *)

Definition EM (A : Type) : Type := M (evm_t * call_frame_t) A.

(** A handler that works on the frame and may read the interpreter. *)
Definition in_frame {A} (m : evm_t -> FM A) : EM A := fun s =>
  zoom snd (fun f s => (fst s, f)) (m (fst s)) s.

(** A handler of the state; [unavailable] is the error without a state. *)
Definition in_state {A} (unavailable : evm_status_t) (m : evm_t -> SM (St := St) A) : EM A := fun s =>
  match state (fst s) with
  | None => Err s unavailable
  | Some st =>
      match m (fst s) (st, snd s) with
      | Ret (st, f) a => Ret (set_state (fst s) (Some st), f) a
      | Err (st, f) e => Err (set_state (fst s) (Some st), f) e
      | Crash f => Crash f
      end
  end.

Definition on_evm (g : evm_t -> evm_t) : EM unit := modify (fun s => (g (fst s), snd s)).

(** [get_jumpdest_bitmap]: the frame's bitmap, the cached one, or a new one. *)
Definition get_jumpdest_bitmap : EM (option (list Z)) := fun s =>
  let '(e, f) := s in
  match jumpdest_bitmap f with
  | Some b => Ret s (Some b)
  | None =>
      let cached :=
        match state e, get_jumpdest_analysis with
        | Some st, Some get => if negb (hash_is_zero (code_hash f)) then get st (code_hash f) else None
        | _, _ => None
        end in
      match cached with
      | Some b => Ret (e, set_bitmap f (Some b)) (Some b)
      | None =>
          let bitmap := jumpdest_compute_bitmap (code f) in
          let e :=
            match bitmap, state e, set_jumpdest_analysis with
            | Some b, Some st, Some set =>
                if negb (hash_is_zero (code_hash f))
                then set_state e (Some (set st (code_hash f) b (jumpdest_bitmap_size (code_size f)))) else e
            | _, _, _ => e
            end in
          Ret (e, set_bitmap f bitmap) bitmap
      end
  end.

(** The handlers inlined in [execute_frame]. *)
Definition op_add : FM unit :=
  need_items 2 ;; a <- pop ;; b <- pop ;; push (uint256_add a b).

Definition op_origin (e : evm_t) : Z -> FM unit := push_op (fun _ => address_to_uint256 (origin (tx e))).
Definition op_gasprice (e : evm_t) : Z -> FM unit := push_op (fun _ => gas_price (tx e)).
Definition op_returndatasize (e : evm_t) : Z -> FM unit :=
  push_op (fun _ => uint256_from_u64 (Z.of_nat (length (return_data e)))).

(** RETURN and REVERT differ in the result they make of the range. *)
Definition op_return_range : FM (Z * Z) :=
  need_items 2 ;;
  offset_u256 <- pop ;; size_u256 <- pop ;;
  guard (negb (negb (uint256_fits_u64 offset_u256) || negb (uint256_fits_u64 size_u256))) EVM_OUT_OF_GAS ;;
  let offset := uint256_to_u64_unsafe offset_u256 in
  let size := uint256_to_u64_unsafe size_u256 in
  (if size >? 0 then mem_cost <- expand offset size ;; charge mem_cost else ret tt) ;;
  ret (offset, size).

(** Labels of the dispatch table: [None] goes on to the next instruction. *)
Definition label : Type := EM (option frame_result_t).

Definition next (m : EM unit) : label := m ;; ret None.

(** [status = op(frame, evm->gas_table[opcode])] *)
Definition simple (h : Z -> FM unit) (opcode : Z) : label :=
  next (in_frame (fun e => h (gas_of (gas_table e) opcode))).
Definition with_evm (h : evm_t -> Z -> FM unit) (opcode : Z) : label :=
  next (in_frame (fun e => h e (gas_of (gas_table e) opcode))).
Definition with_state (h : SM unit) : label := next (in_state EVM_STATE_UNAVAILABLE (fun _ => h)).

Definition jump_label (h : list Z -> Z -> FM unit) (opcode : Z) : label :=
  bitmap <- get_jumpdest_bitmap ;;
  match bitmap with
  | None => throw EVM_OUT_OF_GAS
  | Some b => simple (h b) opcode
  end.

Definition sstore_label : label :=
  refund <- in_state EVM_INVALID_OPCODE (fun e => op_sstore (gas_schedule e) (gas_refund e)) ;;
  on_evm (fun e => set_refund e refund) ;; ret None.

(** The child goes into [pending_frame]; renting it deepened the pools. *)
Definition call_label (h : Z -> SM (option call_frame_t)) : label :=
  child <- in_state EVM_INVALID_OPCODE (fun e => h (pool_depth e)) ;;
  match child with
  | None => ret None
  | Some c => on_evm (fun e => set_pool e (pool_depth e + 1) (Some c)) ;; ret (Some frame_result_call)
  end.

Definition log_label (n : nat) : label :=
  l <- in_frame (fun e => op_log_n (logs e) n) ;;
  on_evm (fun e => set_logs e l) ;; ret None.

(** The labels by the groups in which [execute_frame] has them. *)
Definition arithmetic_labels : list (Z * label) :=
  [ (OP_STOP, ret (Some frame_result_stop));
    (OP_ADD, next (in_frame (fun _ => op_add)));
    (OP_MUL, simple op_mul OP_MUL); (OP_SUB, simple op_sub OP_SUB); (OP_DIV, simple op_div OP_DIV);
    (OP_SDIV, simple op_sdiv OP_SDIV); (OP_MOD, simple op_mod OP_MOD); (OP_SMOD, simple op_smod OP_SMOD);
    (OP_ADDMOD, simple op_addmod OP_ADDMOD); (OP_MULMOD, simple op_mulmod OP_MULMOD);
    (OP_EXP, next (in_frame (fun _ => op_exp))); (OP_SIGNEXTEND, simple op_signextend OP_SIGNEXTEND) ].

Definition bitwise_labels : list (Z * label) :=
  [ (OP_LT, simple op_lt OP_LT); (OP_GT, simple op_gt OP_GT); (OP_SLT, simple op_slt OP_SLT); (OP_SGT, simple op_sgt OP_SGT);
    (OP_EQ, simple op_eq OP_EQ); (OP_ISZERO, simple op_iszero OP_ISZERO);
    (OP_AND, simple op_and OP_AND); (OP_OR, simple op_or OP_OR); (OP_XOR, simple op_xor OP_XOR); (OP_NOT, simple op_not OP_NOT);
    (OP_BYTE, simple op_byte OP_BYTE); (OP_SHL, simple op_shl OP_SHL); (OP_SHR, simple op_shr OP_SHR); (OP_SAR, simple op_sar OP_SAR) ].

Definition push_labels : list (Z * label) :=
  (OP_PUSH0, simple op_push0 OP_PUSH0) ::
  map (fun n => (OP_PUSH0 + Z.of_nat n, simple (op_push_n (Z.of_nat n)) (OP_PUSH0 + Z.of_nat n))) (seq 1 32).

Definition context_labels : list (Z * label) :=
  [ (OP_ADDRESS, simple op_address OP_ADDRESS); (OP_BALANCE, with_state op_balance); (OP_ORIGIN, with_evm op_origin OP_ORIGIN);
    (OP_CALLER, simple op_caller OP_CALLER); (OP_CALLVALUE, simple op_callvalue OP_CALLVALUE);
    (OP_CALLDATALOAD, simple op_calldataload OP_CALLDATALOAD); (OP_CALLDATASIZE, simple op_calldatasize OP_CALLDATASIZE);
    (OP_CALLDATACOPY, simple op_calldatacopy OP_CALLDATACOPY); (OP_CODESIZE, simple op_codesize OP_CODESIZE);
    (OP_CODECOPY, simple op_codecopy OP_CODECOPY); (OP_GASPRICE, with_evm op_gasprice OP_GASPRICE);
    (OP_EXTCODESIZE, with_state op_extcodesize); (OP_EXTCODECOPY, with_state op_extcodecopy);
    (OP_RETURNDATASIZE, with_evm op_returndatasize OP_RETURNDATASIZE);
    (OP_RETURNDATACOPY, with_evm (fun e cost => op_returndatacopy cost (return_data e)) OP_RETURNDATACOPY);
    (OP_EXTCODEHASH, with_state op_extcodehash) ].

Definition block_labels : list (Z * label) :=
  [ (OP_BLOCKHASH, with_evm (fun e => op_blockhash (block e)) OP_BLOCKHASH);
    (OP_COINBASE, with_evm (fun e => op_coinbase (block e)) OP_COINBASE);
    (OP_TIMESTAMP, with_evm (fun e => op_timestamp (block e)) OP_TIMESTAMP);
    (OP_NUMBER, with_evm (fun e => op_number (block e)) OP_NUMBER);
    (OP_PREVRANDAO, with_evm (fun e => op_prevrandao (block e)) OP_PREVRANDAO);
    (OP_GASLIMIT, with_evm (fun e => op_gaslimit (block e)) OP_GASLIMIT);
    (OP_CHAINID, with_evm (fun e => op_chainid (block e)) OP_CHAINID);
    (OP_SELFBALANCE, next (in_state EVM_STATE_UNAVAILABLE (fun e => op_selfbalance (gas_of (gas_table e) OP_SELFBALANCE))));
    (OP_BASEFEE, with_evm (fun e => op_basefee (block e)) OP_BASEFEE);
    (OP_BLOBHASH, with_evm (fun e => op_blobhash (tx e)) OP_BLOBHASH);
    (OP_BLOBBASEFEE, with_evm (fun e => op_blobbasefee (block e)) OP_BLOBBASEFEE) ].

Definition stack_labels : list (Z * label) :=
  (OP_POP, simple op_pop OP_POP) ::
  map (fun n => (OP_DUP1 + Z.of_nat n - 1, simple (op_dup n) (OP_DUP1 + Z.of_nat n - 1))) (seq 1 16) ++
  map (fun n => (OP_SWAP1 + Z.of_nat n - 1, simple (op_swap n) (OP_SWAP1 + Z.of_nat n - 1))) (seq 1 16).

Definition memory_labels : list (Z * label) :=
  [ (OP_MLOAD, simple op_mload OP_MLOAD); (OP_MSTORE, simple op_mstore OP_MSTORE); (OP_MSTORE8, simple op_mstore8 OP_MSTORE8);
    (OP_KECCAK256, simple (op_keccak256 keccak256) OP_KECCAK256); (OP_MSIZE, simple op_msize OP_MSIZE) ].

Definition control_labels : list (Z * label) :=
  [ (OP_JUMP, jump_label op_jump OP_JUMP); (OP_JUMPI, jump_label op_jumpi OP_JUMPI); (OP_JUMPDEST, simple op_jumpdest OP_JUMPDEST);
    (OP_PC, next (in_frame (fun e f => op_pc (pc f -64 1) (gas_of (gas_table e) OP_PC) f))); (OP_GAS, simple op_gas OP_GAS);
    (OP_SLOAD, next (in_state EVM_INVALID_OPCODE (fun e => op_sload (gas_schedule e)))); (OP_SSTORE, sstore_label) ].

Definition call_return_labels : list (Z * label) :=
  [ (OP_CALL, call_label op_call); (OP_STATICCALL, call_label op_staticcall);
    (OP_DELEGATECALL, call_label op_delegatecall); (OP_CALLCODE, call_label op_callcode);
    (OP_RETURN, r <- in_frame (fun _ => op_return_range) ;; ret (Some (frame_result_return (fst r) (snd r))));
    (OP_REVERT, r <- in_frame (fun _ => op_return_range) ;; ret (Some (frame_result_revert (fst r) (snd r)))) ].

Definition log_labels : list (Z * label) := map (fun n => (OP_LOG0 + Z.of_nat n, log_label n)) (seq 0 5).

Definition dispatch_table : list (Z * label) :=
  arithmetic_labels ++ bitwise_labels ++ push_labels ++ context_labels ++ block_labels ++ stack_labels ++
  memory_labels ++ control_labels ++ call_return_labels ++ log_labels.

Definition op_invalid : label := throw EVM_INVALID_OPCODE.

Fixpoint find_label (table : list (Z * label)) (opcode : Z) : label :=
  match table with
  | [] => op_invalid
  | (k, l) :: rest => if k =? opcode then l else find_label rest opcode
  end.

(** [DISPATCH()] and the instruction it goes to. *)
Definition dispatch : label := fun s =>
  let f := snd s in
  if code_size f <=? pc f then Ret s (Some frame_result_stop)
  else find_label dispatch_table (aget (code f) (Z.to_nat (pc f))) (fst s, set_pc f (pc f +64 1)).

(** [execute_frame]: instructions until a result; an error status becomes
    [frame_result_error]. *)
Fixpoint execute_frame (fuel : nat) (s : evm_t * call_frame_t) : outcome (evm_t * call_frame_t) frame_result_t :=
  match fuel with
  | O => Crash OutOfFuel
  | S fuel' =>
      match dispatch s with
      | Ret s' None => execute_frame fuel' s'
      | Ret s' (Some r) => Ret s' r
      | Err s' e => Ret s' (frame_result_error e)
      | Crash f => Crash f
      end
  end.

(** * The main loop *)

(** The running frame and the suspended parents, innermost first. *)
Record machine := Machine { m_evm : evm_t; m_frame : call_frame_t; m_stack : list call_frame_t }.

Inductive round :=
| Continue (m : machine)
| Done (e : evm_t) (r : evm_execution_result_t)
| Faulty (f : fault).

(** Errors use up all gas and give nothing back. *)
Definition failed (initial_gas : Z) (e : evm_status_t) : evm_execution_result_t :=
  ExecutionResult EVM_RESULT_ERROR e initial_gas 0 [] [].

(** Back in the parent: the flag on its stack, the child's resources
    released. *)
Definition resume (e : evm_t) (parent : call_frame_t) (rest : list call_frame_t) (flag : uint256_t) : round :=
  match evm_stack_push_unsafe (stack parent) flag with
  | None => Faulty OutOfBounds
  | Some s => Continue (Machine (set_pool e (pool_depth e - 1) (pending_frame e)) (set_stack parent s) rest)
  end.

(** A child ended with return or revert data. *)
Definition return_to_parent (m : machine) (r : frame_result_t) (flag : uint256_t) : round :=
  match m_stack m with
  | [] => Faulty OutOfBounds
  | parent :: rest =>
      match copy_return_data (m_evm m) (memory (m_frame m)) (return_offset r) (return_size r) with
      | inr f => Faulty f
      | inl e =>
          let available := Z.of_nat (length (return_data e)) in
          let copy_size := if output_size parent >? available then available else output_size parent in
          let stored :=
            if copy_size >? 0
            then evm_memory_store_unsafe (memory parent) (output_offset parent) (firstn (Z.to_nat copy_size) (return_data e))
            else Some (memory parent) in
          match stored with
          | None => Faulty OutOfBounds
          | Some mem =>
              resume e (set_gas (set_memory parent mem) (gas parent +64 gas (m_frame m))) rest flag
          end
      end
  end.

(** What the loop does with the result of a frame. *)
Definition handle_result (initial_gas : Z) (m : machine) (r : frame_result_t) : round :=
  let frame := m_frame m in
  match action r with
  | FRAME_STOP | FRAME_RETURN =>
      if depth frame =? 0 then
        let copied := match action r with
                      | FRAME_RETURN => copy_return_data (m_evm m) (memory frame) (return_offset r) (return_size r)
                      | _ => inl (m_evm m)
                      end in
        match copied with
        | inr f => Faulty f
        | inl e => Done e (ExecutionResult EVM_RESULT_STOP EVM_OK (initial_gas -64 gas frame) (gas_refund e) (return_data e) (logs_data (logs e)))
        end
      else return_to_parent m r (uint256_from_u64 1)
  | FRAME_REVERT =>
      if depth frame =? 0 then
        match copy_return_data (m_evm m) (memory frame) (return_offset r) (return_size r) with
        | inr f => Faulty f
        | inl e => Done e (ExecutionResult EVM_RESULT_ERROR EVM_OK (initial_gas -64 gas frame) 0 (return_data e) [])
        end
      else return_to_parent m r uint256_zero
  | FRAME_CALL | FRAME_CREATE =>
      if EVM_MAX_CALL_DEPTH <=? Z.of_nat (length (m_stack m)) then Done (m_evm m) (failed initial_gas EVM_CALL_DEPTH_EXCEEDED)
      else
        match pending_frame (m_evm m) with
        | None => Faulty OutOfBounds
        | Some child => Continue (Machine (set_pool (m_evm m) (pool_depth (m_evm m)) None) child (frame :: m_stack m))
        end
  | FRAME_ERROR =>
      if depth frame =? 0 then Done (m_evm m) (failed initial_gas (error r))
      else
        match m_stack m with
        | [] => Faulty OutOfBounds
        | parent :: rest => resume (set_return (m_evm m) [] (return_data_capacity (m_evm m))) parent rest uint256_zero
        end
  end.

(** One round: run the frame, then act on its result. *)
Definition main_round (fuel : nat) (initial_gas : Z) (m : machine) : round :=
  match execute_frame fuel (m_evm m, m_frame m) with
  | Crash f => Faulty f
  | Err _ _ => Faulty OutOfBounds
  | Ret (e, f) r => handle_result initial_gas (Machine e f (m_stack m)) r
  end.

Fixpoint main_loop (rounds fuel : nat) (initial_gas : Z) (m : machine) : (evm_t * evm_execution_result_t) + fault :=
  match rounds with
  | O => inr OutOfFuel
  | S rounds' =>
      match main_round fuel initial_gas m with
      | Continue m' => main_loop rounds' fuel initial_gas m'
      | Done e r => inl (e, r)
      | Faulty f => inr f
      end
  end.

Definition evm_execute_env (rounds fuel : nat) (e : evm_t) (env : execution_env_t) : (evm_t * evm_execution_result_t) + fault :=
  let e := set_context e (env_block env) (env_tx env) in
  if negb (pool_rent (pool_depth e)) then inl (e, failed 0 EVM_CALL_DEPTH_EXCEEDED)
  else
    match init_root_frame env with
    | None => inr OutOfBounds
    | Some frame =>
        main_loop rounds fuel (call_gas (env_call env)) (Machine (set_pool e (pool_depth e + 1) (pending_frame e)) frame [])
    end.
End Interpreter.
