(* ===== verification/FrameLogic.v ===== *)
(** Assertions on frames and the rules for the primitive steps of the
    handlers: what a handler may rely on and what it must leave. *)
From Stdlib Require Import ZArith Lia List Bool.
From S2P Require Import Prelude Uint256 Types Effects Arena Stack Memory Frame OpsArith.
Import ListNotations.
#[local] Open Scope Z_scope.
#[local] Open Scope word_scope.
#[local] Open Scope eff_scope.

(** [Hold f0 T c n m sz f]: [f] is the frame [f0] during a handler that has
    charged at least [c] gas; at least [n] words are on its stack and [m] slots
    are free above them, every word is well formed and satisfies [T], and the
    memory has at least [sz] bytes. *)
Record Hold (f0 : call_frame_t) (T : uint256_t -> Prop) (c n m sz : Z) (f : call_frame_t) : Prop := {
  h_context : same_context f0 f;
  h_pc : pc f = pc f0;
  h_bitmap : jumpdest_bitmap f = jumpdest_bitmap f0;
  h_gas : 0 <= gas f <= gas f0 - c;
  h_gas64 : gas f < 2 ^ 64;
  h_items : n <= top (stack f);
  h_space : top (stack f) + m <= capacity (stack f);
  h_capacity : 32 <= capacity (stack f) <= EVM_STACK_MAX_DEPTH;
  h_words : Forall (fun x => wf256 x /\ T x) (items (stack f));
  h_memory : mem_ok (memory f);
  h_size : sz <= evm_memory_size (memory f) }.

Definition anything (x : uint256_t) : Prop := True.

(** The end of a handler that charged at least [c]. *)
Definition Final (f0 : call_frame_t) (c : Z) : call_frame_t -> Prop := Hold f0 anything c 0 0 0.

(** Words that, when they fit 64 bits, are far from the top of the range. *)
Definition calm (x : uint256_t) : Prop := uint256_fits_u64 x = true -> val x < 2 ^ 62.

Lemma hold_weaken f0 T c n m sz c' n' m' sz' f : Hold f0 T c n m sz f ->
  c' <= c -> n' <= n -> m' <= m -> sz' <= sz -> Hold f0 T c' n' m' sz' f.
Proof. intros []; split; auto; lia. Qed.

Lemma hold_any f0 T c n m sz f : Hold f0 T c n m sz f -> Hold f0 anything c n m sz f.
Proof.
  intros []; split; auto. eapply Forall_impl; [|eassumption]. cbv beta. unfold anything. tauto.
Qed.

Lemma hold_final f0 T c n m sz c' f : Hold f0 T c n m sz f -> 0 <= n -> 0 <= m -> 0 <= sz -> c' <= c -> Final f0 c' f.
Proof. intros H Hn Hm Hs Hc. apply hold_any in H. eapply hold_weaken; [exact H | lia..]. Qed.

Lemma hold_start f T : frame_ok f -> Forall T (items (stack f)) -> Hold f T 0 0 0 0 f.
Proof.
  intros [[G1 G2] P [S1 S2 S3] M _ _ _ _ _] HT. pose proof (top_nonneg (stack f)). split; auto using same_context_refl; try lia.
  - rewrite Forall_forall in *. auto.
  - unfold evm_memory_size; lia.
Qed.

(** What an early return leaves of the frame: it is still the same call. *)
Definition AtDepth (f0 f : call_frame_t) : Prop := depth f = depth f0.

Lemma hold_depth f0 T c n m sz f : Hold f0 T c n m sz f -> AtDepth f0 f.
Proof. intros [(_&H&_) _ _ _ _ _ _ _ _ _ _]. exact H. Qed.

(** Re-establish [Hold] after a change of one component. *)
Ltac hold := match goal with
  | H : Hold _ _ _ _ _ _ _ |- Hold _ _ _ _ _ _ _ =>
      destruct H as [hc hp hb hg hg64 hi hs hcap hw hm hz]; split; cbn [gas stack memory pc jumpdest_bitmap set_gas set_stack set_memory];
      try first [exact hc | exact hp | exact hb | exact hw | exact hm | assumption]; try lia
  end.

Section Rules.
Context {f0 : call_frame_t} {T : uint256_t -> Prop} {C : fault -> Prop}.

(** Faults the handlers may have; the rules ask for them, or for bounds that
    exclude them. *)
Definition Bad : Prop := C OutOfBounds /\ C Diverges.

#[local] Abbreviation E := (AtDepth f0).
#[local] Abbreviation Hold := (Hold f0 T).

(** The rules are in the form of a step and its continuation. *)
Context {A : Type} (Q : A -> call_frame_t -> Prop).

Lemma r_need n c m sz k : triple (Hold c n m sz) (k tt) Q E C ->
  triple (Hold c 0 m sz) (bind (need_items n) k) Q E C.
Proof.
  intros H f Hf. unfold bind, need_items, check, guard, evm_stack_has_items.
  destruct (Z.leb_spec n (top (stack f))) as [L|L]; cbn; [|exact (hold_depth _ _ _ _ _ _ _ Hf)]. apply H. hold.
Qed.

Lemma r_pop c n m sz k : 0 < n ->
  (forall x, wf256 x -> T x -> triple (Hold c (n - 1) (m + 1) sz) (k x) Q E C) ->
  triple (Hold c n m sz) (bind pop k) Q E C.
Proof.
  intros Hn H f Hf. unfold bind, pop, evm_stack_pop_unsafe. pose proof (h_items _ _ _ _ _ _ _ Hf) as Hi.
  pose proof (h_words _ _ _ _ _ _ _ Hf) as W. pose proof (h_space _ _ _ _ _ _ _ Hf) as Hs. unfold top in *.
  destruct (items (stack f)) as [|x rest] eqn:I; [cbn in *; lia|]. inversion W as [|? ? Wx Wr]; subst.
  apply H; [tauto..|]. hold; unfold top in *; rewrite ?I in *; cbn [items capacity length] in *; auto; lia.
Qed.

Lemma r_peek d c n m sz k : Z.of_nat d < n ->
  (forall x, wf256 x -> T x -> triple (Hold c n m sz) (k x) Q E C) ->
  triple (Hold c n m sz) (bind (peek d) k) Q E C.
Proof.
  intros Hn H f Hf. unfold bind, peek, evm_stack_peek_unsafe.
  destruct (nth_error (items (stack f)) d) as [x|] eqn:N.
  - pose proof (h_words _ _ _ _ _ _ _ Hf) as W. rewrite Forall_forall in W. apply nth_error_In, W in N. apply H; tauto.
  - apply nth_error_None in N. pose proof (h_items _ _ _ _ _ _ _ Hf). unfold top in *. lia.
Qed.

Lemma r_charge cost c n m sz k : 0 <= cost -> triple (Hold (c + cost) n m sz) (k tt) Q E C ->
  triple (Hold c n m sz) (bind (charge cost) k) Q E C.
Proof.
  intros Hc H f Hf. unfold charge, bind, check, guard, modify.
  destruct (Z.ltb_spec (gas f) cost) as [L|L]; cbn [negb throw ret]; [exact (hold_depth _ _ _ _ _ _ _ Hf)|]. apply H.
  assert (G : gas f -64 cost = gas f - cost).
  { unfold sub64. apply w64_small. pose proof (h_gas64 _ _ _ _ _ _ _ Hf). unfold u64. lia. }
  rewrite G. hold.
Qed.

Lemma ensure1_hold c n m sz f : 0 <= m -> Hold c n m sz f ->
  match ensure_space 1 f with
  | Ret f' _ => Hold c n 1 sz f' /\ gas f' = gas f
  | Err f' _ => AtDepth f0 f'
  | Crash _ => False
  end.
Proof.
  intros Hm Hf. unfold ensure_space. assert (SO : stack_ok (stack f)).
  { destruct Hf as [_ _ _ _ _ _ hs hcap hw _ _]. split; [lia | exact hcap |]. eapply Forall_impl; [|exact hw]. cbv beta; tauto. }
  destruct (ensure_space_spec (stack f) 1 SO ltac:(lia)) as [E1 E2].
  destruct (Z.le_gt_cases (top (stack f) + 1) EVM_STACK_MAX_DEPTH) as [L|L]; [|rewrite (E2 L); exact (hold_depth _ _ _ _ _ _ _ Hf)].
  destruct (E1 L) as (cap & -> & Hcap & Ht). split; [|reflexivity].
  hold; unfold top in *; cbn [items capacity] in *; lia || assumption.
Qed.

Lemma r_ensure1 c n m sz k : 0 <= m -> triple (Hold c n 1 sz) (k tt) Q E C ->
  triple (Hold c n m sz) (bind (ensure_space 1) k) Q E C.
Proof.
  intros Hm H f Hf. pose proof (ensure1_hold _ _ _ _ _ Hm Hf) as X. unfold bind. destruct (ensure_space 1 f) as [f' []|f' e|x]; [|exact X|contradiction].
  apply H, X.
Qed.

(** The order of the PUSH handlers: check the gas, then the stack, then pay. *)
Lemma r_push_gas cost c n sz k : 0 <= cost -> triple (Hold (c + cost) n 1 sz) (k tt) Q E C ->
  triple (Hold c n 0 sz) (need_gas cost ;; ensure_space 1 ;; bind (take_gas cost) k) Q E C.
Proof.
  intros Hc H f Hf. unfold need_gas, bind, check, guard. destruct (Z.ltb_spec (gas f) cost) as [L|L]; cbn [negb throw ret]; [exact (hold_depth _ _ _ _ _ _ _ Hf)|].
  pose proof (ensure1_hold _ _ 0 _ _ ltac:(lia) Hf) as X. destruct (ensure_space 1 f) as [f' []|f' e|x]; [|exact X|contradiction].
  destruct X as [Hf' G]. unfold take_gas, modify. apply H.
  assert (gas f' -64 cost = gas f' - cost) as ->.
  { unfold sub64. apply w64_small. pose proof (h_gas64 _ _ _ _ _ _ _ Hf'). unfold u64. lia. }
  hold.
Qed.

(** A new program counter. *)
Lemma r_set_pc g x c n m sz k : (forall f, Hold c n m sz f -> g f = x) ->
  triple (FrameLogic.Hold (set_pc f0 x) T c n m sz) (k tt) Q (AtDepth (set_pc f0 x)) C ->
  triple (Hold c n m sz) (bind (modify (fun f => set_pc f (g f))) k) Q E C.
Proof.
  intros Hg H f Hf. unfold bind, modify. apply H. rewrite (Hg f Hf).
  destruct Hf as [hc hp hb hg hg64 hi hs hcap hw hm hz]; split; auto.
Qed.

Lemma r_guard c n m sz b e k : (b = true -> triple (Hold c n m sz) (k tt) Q E C) -> triple (Hold c n m sz) (bind (guard b e) k) Q E C.
Proof. intros H s Hs. unfold bind, guard. destruct b; cbn; [apply H; auto | exact (hold_depth _ _ _ _ _ _ _ Hs)]. Qed.

Lemma r_gets {B} (g : call_frame_t -> B) P k : (forall f, P f -> triple P (k (g f)) Q E C) -> triple P (bind (gets g) k) Q E C.
Proof. intros H f Hf. unfold bind, gets. apply H; exact Hf. Qed.

(** Memory: a successful expansion covers the range, unless the range is one
    of those on which expansion misbehaves. *)
Lemma r_expand off size c n m sz k : u64 off -> u64 size -> (off + size <= 2 ^ 63 \/ Bad) ->
  (forall cost sz', u64 cost -> ((off + size <= sz' \/ size = 0) \/ Bad) -> 0 <= sz' -> triple (Hold c n m sz') (k cost) Q E C) ->
  triple (Hold c n m sz) (bind (expand off size) k) Q E C.
Proof.
  intros Ho Hs Hb H f Hf. unfold bind, expand. pose proof (h_memory _ _ _ _ _ _ _ Hf) as M.
  pose proof (expand_any _ off size M Ho Hs) as X. destruct (evm_memory_expand _ _ _) as [[[[] cost] m']|].
  - destruct X as (M' & Hc & Hsz & Hok). apply (H cost (evm_memory_size m')); [exact Hc | | unfold evm_memory_size; lia | hold].
    destruct (Hok eq_refl) as [L|[L|L]]; [auto..|]. destruct Hb as [Hb|Hb]; [lia|auto].
  - exact (hold_depth _ _ _ _ _ _ _ Hf).
  - destruct Hb as [Hb|[_ Hb]]; [lia|exact Hb].
Qed.

Lemma r_mload off len c n m sz k : 0 <= off -> 0 <= len -> (off + len <= sz \/ Bad) ->
  (forall bs, bytes_ok bs -> Z.of_nat (length bs) = len -> triple (Hold c n m sz) (k bs) Q E C) ->
  triple (Hold c n m sz) (bind (mload off len) k) Q E C.
Proof.
  intros Ho Hl Hb H f Hf. unfold bind, mload. destruct (Z.le_gt_cases (off + len) (evm_memory_size (memory f))) as [L|L].
  - destruct (load_spec _ off len (h_memory _ _ _ _ _ _ _ Hf) Ho Hl L) as (bs & -> & B & N). apply H; auto.
  - unfold evm_memory_load_unsafe. rewrite (proj2 (Z.leb_gt _ _)) by exact L.
    destruct Hb as [Hb|[Hb _]]; [|exact Hb]. pose proof (h_size _ _ _ _ _ _ _ Hf). lia.
Qed.

Lemma r_mstore off bs c n m sz k : 0 <= off -> bytes_ok bs -> (off + Z.of_nat (length bs) <= sz \/ Bad) ->
  triple (Hold c n m sz) (k tt) Q E C -> triple (Hold c n m sz) (bind (mstore off bs) k) Q E C.
Proof.
  intros Ho B Hb H f Hf. unfold bind, mstore.
  destruct (Z.le_gt_cases (off + Z.of_nat (length bs)) (evm_memory_size (memory f))) as [L|L].
  - destruct (store_spec _ off bs (h_memory _ _ _ _ _ _ _ Hf) Ho B L) as (m' & -> & M & N). apply H. hold.
  - unfold evm_memory_store_unsafe. rewrite (proj2 (Z.leb_gt _ _)) by exact L.
    destruct Hb as [Hb|[Hb _]]; [|exact Hb]. pose proof (h_size _ _ _ _ _ _ _ Hf). lia.
Qed.

Lemma r_push v c n m sz k : wf256 v -> 1 <= m -> 0 <= n -> triple (FrameLogic.Hold f0 anything c (n + 1) (m - 1) sz) (k tt) Q E C ->
  triple (Hold c n m sz) (bind (push v) k) Q E C.
Proof.
  intros V Hm Hn H f Hf. unfold bind, push, evm_stack_push_unsafe.
  rewrite (proj2 (Z.ltb_lt _ _)) by (pose proof (h_space _ _ _ _ _ _ _ Hf); lia).
  apply H. apply hold_any in Hf. hold; unfold top in *; cbn [items capacity length] in *; try lia.
  constructor; [split; [exact V|exact Logic.I] | assumption].
Qed.

(** A step at the end of a handler. *)
Lemma r_last P (m : FM A) : triple P (bind m ret) Q E C -> triple P m Q E C.
Proof. intros H f Hf. specialize (H f Hf). unfold bind, ret in H. destruct (m f); exact H. Qed.

Lemma r_ret P (a : A) : (forall f, P f -> Q a f) -> triple P (ret a) Q E C.
Proof. intros H f Hf. exact (H f Hf). Qed.
End Rules.

(** Nested sequences and branches. *)
Lemma r_assoc {f A B D} (P : call_frame_t -> Prop) (m : FM A) (k : A -> FM B) (k' : B -> FM D) Q E :
  triple P (bind m (fun a => bind (k a) k')) Q E f -> triple P (bind (bind m k) k') Q E f.
Proof. intros H s Hs. specialize (H s Hs). unfold bind in *. destruct (m s); auto. Qed.

Lemma r_branch {f A B} (P : call_frame_t -> Prop) (b : bool) (m1 m2 : FM A) (k : A -> FM B) Q E :
  (b = true -> triple P (bind m1 k) Q E f) -> (b = false -> triple P (bind m2 k) Q E f) ->
  triple P (bind (if b then m1 else m2) k) Q E f.
Proof. destruct b; auto. Qed.

Lemma r_return {f A B} (P : call_frame_t -> Prop) (a : A) (k : A -> FM B) Q E :
  triple P (k a) Q E f -> triple P (bind (ret a) k) Q E f.
Proof. intros H s Hs. exact (H s Hs). Qed.

(** * Automation *)

Lemma u64_low x : wf256 x -> u64 (uint256_to_u64_unsafe x).
Proof. intros H; apply H. Qed.

Lemma calm_low x : wf256 x -> uint256_fits_u64 x = true -> calm x -> uint256_to_u64_unsafe x < 2 ^ 62.
Proof. intros W F H. rewrite uint256_to_u64_spec by assumption. exact (H F). Qed.

Lemma zero_low x : wf256 x -> uint256_fits_u64 x = true -> uint256_is_zero x = false -> 0 < uint256_to_u64_unsafe x.
Proof.
  intros W F N. rewrite uint256_to_u64_spec by assumption. rewrite uint256_is_zero_spec in N by assumption.
  apply Z.eqb_neq in N. pose proof (val_range x W). lia.
Qed.

Lemma add64_nonneg a b : 0 <= a +64 b.
Proof. apply w64_range. Qed.
Lemma mul64_nonneg a b : 0 <= a *64 b.
Proof. apply w64_range. Qed.

Lemma u64_nonneg x : u64 x -> 0 <= x.
Proof. intros []; assumption. Qed.

Create HintDb frames.
#[export] Hint Resolve u64_low add64_nonneg mul64_nonneg u64_nonneg : frames.

(** Boolean conditions of guards as facts. *)
Ltac bools := repeat match goal with
  | H : negb _ = true |- _ => apply negb_true_iff in H
  | H : negb _ = false |- _ => apply negb_false_iff in H
  | H : (_ || _) = false |- _ => apply orb_false_iff in H; destruct H
  | H : (_ && _) = true |- _ => apply andb_true_iff in H; destruct H
  | H : (_ <=? _) = true |- _ => apply Z.leb_le in H
  | H : (_ <=? _) = false |- _ => apply Z.leb_gt in H
  | H : (_ <? _) = true |- _ => apply Z.ltb_lt in H
  | H : (_ <? _) = false |- _ => apply Z.ltb_ge in H
  | H : (_ >? _) = true |- _ => rewrite Z.gtb_lt in H
  | H : (_ >? _) = false |- _ => rewrite Z.gtb_ltb in H; apply Z.ltb_ge in H
  end.

(** One primitive step of a handler. *)
Ltac side := first [lia | solve [eauto with frames words]].

Ltac step := cbv zeta; cbv beta; match goal with
  | |- triple _ (bind (bind _ _) _) _ _ _ => apply r_assoc
  | |- triple _ (bind (ret _) _) _ _ _ => apply r_return
  | |- triple _ (bind (if _ then _ else _) _) _ _ _ => apply r_branch; intros ?; bools
  | |- triple _ (bind (need_items _) _) _ _ _ => apply r_need
  | |- triple _ (bind pop _) _ _ _ => apply r_pop; [lia | intros ? ? ?]
  | |- triple _ (bind (peek _) _) _ _ _ => apply r_peek; [lia | intros ? ? ?]
  | |- triple _ (bind (charge ?cost) _) _ _ _ =>
      let H := fresh "Hcost" in assert (H : 0 <= cost) by side; apply r_charge; [exact H |]
  | |- triple _ (bind (guard _ _) _) _ _ _ => apply r_guard; intros ?; bools
  | |- triple _ (bind (ensure_space 1) _) _ _ _ => apply r_ensure1; [lia |]
  | |- triple _ (bind (gets _) _) _ _ _ => apply r_gets; intros ? ?
  | |- triple _ (bind (push _) _) _ _ _ => apply r_push; [eauto with words | lia | lia |]
  | |- triple _ (bind (expand _ _) _) _ _ _ => apply r_expand; [side | side | | intros ? ? ? ? ?]
  | |- triple _ (bind (mload _ _) _) _ _ _ => apply r_mload; [side | side | | intros ? ? ?]
  | |- triple _ (bind (mstore _ _) _) _ _ _ => apply r_mstore; [side | | |]
  | |- triple _ (if _ then _ else _) _ _ _ => apply triple_if; intros ?; bools
  | |- triple _ (ret _) _ _ _ => apply r_ret; intros ? ?; (eapply hold_final; [eassumption | lia ..])
  | |- triple _ ?m _ _ _ => lazymatch m with push _ => apply r_last | mstore _ _ => apply r_last | charge _ => apply r_last | mload _ _ => apply r_last end
  end.
