(* ===== verification/OpsSafe.v ===== *)
(** Every handler that works on a frame alone keeps the frame well formed,
    never raises its gas, and faults only as its precondition allows. *)
From Stdlib Require Import ZArith Lia List Bool.
From S2P Require Import Prelude Uint256 Multiply Knuth Arith Types Effects Arena Stack Memory Opcodes Gas Frame OpsArith OpsData CallOps Evm FrameLogic.
Import ListNotations.
#[local] Open Scope Z_scope.
#[local] Open Scope word_scope.
#[local] Open Scope eff_scope.

(** * Results of the arithmetic are well formed *)

Lemma wf_bool_word b : wf256 (bool_word b).
Proof. destruct b; unfold bool_word; auto with words. Qed.

Lemma wf_add a b : wf256 a -> wf256 b -> wf256 (uint256_add a b).
Proof. intros; rewrite uint256_add_spec; auto with words. Qed.
Lemma wf_mul a b : wf256 a -> wf256 b -> wf256 (uint256_mul a b).
Proof. intros; rewrite uint256_mul_spec; auto with words. Qed.
Lemma wf_div a b : wf256 a -> wf256 b -> wf256 (uint256_div a b).
Proof. intros; rewrite uint256_div_spec; auto with words. Qed.
Lemma wf_mod a b : wf256 a -> wf256 b -> wf256 (uint256_mod a b).
Proof. intros; rewrite uint256_mod_spec; auto with words. Qed.
Lemma wf_sdiv a b : wf256 a -> wf256 b -> wf256 (uint256_sdiv a b).
Proof. intros; rewrite uint256_sdiv_spec; auto with words. Qed.
Lemma wf_smod a b : wf256 a -> wf256 b -> wf256 (uint256_smod a b).
Proof. intros; rewrite uint256_smod_spec; auto with words. Qed.
Lemma wf_signextend a b : wf256 a -> wf256 b -> wf256 (uint256_signextend a b).
Proof. intros; rewrite uint256_signextend_spec; auto with words. Qed.
Lemma wf_addmod a b n : wf256 a -> wf256 b -> wf256 n -> wf256 (uint256_addmod a b n).
Proof. intros; rewrite uint256_addmod_spec; auto with words. Qed.
Lemma wf_mulmod a b n : wf256 a -> wf256 b -> wf256 n -> wf256 (uint256_mulmod a b n).
Proof. intros; rewrite uint256_mulmod_spec; auto with words. Qed.
Lemma wf_exp a b : wf256 a -> wf256 b -> wf256 (uint256_exp a b).
Proof. intros; rewrite uint256_exp_spec; auto with words. Qed.
Lemma wf_not a : wf256 a -> wf256 (uint256_not a).
Proof. intros; apply uint256_not_spec; assumption. Qed.
Lemma wf_byte a b : wf256 a -> wf256 b -> wf256 (uint256_byte a b).
Proof.
  intros; rewrite uint256_byte_spec by assumption. apply wf_from_u64. destruct (_ <? _); [|apply u64_0].
  pose proof (Z.mod_pos_bound (val b / 2 ^ (8 * (31 - val a))) (2 ^ 8) ltac:(lia)). unfold u64; lia.
Qed.
Lemma wf_shl a b : wf256 a -> wf256 b -> wf256 (uint256_shl a b).
Proof. intros; rewrite uint256_shl_spec; auto with words. Qed.
Lemma wf_shr a b : wf256 a -> wf256 b -> wf256 (uint256_shr a b).
Proof. intros; rewrite uint256_shr_spec; auto with words. Qed.
Lemma wf_sar a b : wf256 a -> wf256 b -> wf256 (uint256_sar a b).
Proof. intros; rewrite uint256_sar_spec; auto with words. Qed.
#[export] Hint Resolve wf_bool_word wf_add wf_sub wf_mul wf_div wf_mod wf_sdiv wf_smod wf_signextend wf_addmod
  wf_mulmod wf_exp wf_not wf_byte wf_shl wf_shr wf_sar : words.

(** * Handlers *)

Section Handlers.
Context {f0 : call_frame_t} {T : uint256_t -> Prop} {C : fault -> Prop}.
Hypothesis f0_ok : frame_ok f0.

#[local] Abbreviation Start := (Hold f0 T 0 0 0 0).
#[local] Abbreviation ok m c := (triple Start m (fun _ => Final f0 c) (AtDepth f0) C).

Lemma unary_safe op cost : 0 <= cost -> (forall a, wf256 a -> wf256 (op a)) -> ok (unary_op op cost) cost.
Proof. intros Hc Hop. unfold unary_op. repeat step. Qed.

Lemma binary_safe op cost : 0 <= cost -> (forall a b, wf256 a -> wf256 b -> wf256 (op a b)) -> ok (binary_op op cost) cost.
Proof. intros Hc Hop. unfold binary_op. repeat step. Qed.

Lemma ternary_safe op cost : 0 <= cost -> (forall a b n, wf256 a -> wf256 b -> wf256 n -> wf256 (op a b n)) -> ok (ternary_op op cost) cost.
Proof. intros Hc Hop. unfold ternary_op. repeat step. Qed.

Lemma exp_safe : ok op_exp 0.
Proof. unfold op_exp, GAS_EXP_BASE. repeat step. Qed.

Lemma op_pop_safe cost : 0 <= cost -> ok (op_pop cost) cost.
Proof. intros Hc. unfold op_pop. repeat step. Qed.

Lemma push_op_safe g cost : 0 <= cost -> (forall c n m sz f, Hold f0 T c n m sz f -> wf256 (g f)) -> ok (push_op g cost) cost.
Proof. intros Hc Hg. unfold push_op. repeat step. Qed.

Lemma jumpdest_safe cost : 0 <= cost -> ok (op_jumpdest cost) cost.
Proof. intros Hc. unfold op_jumpdest. repeat step. Qed.

(** ** Code and stack *)

Lemma push0_safe cost : 0 <= cost -> ok (op_push0 cost) cost.
Proof. intros Hc. unfold op_push0. apply r_push_gas; [exact Hc|]. repeat step. Qed.

Lemma push_n_safe n cost : 0 <= n <= 32 -> 0 <= cost -> pc f0 <= code_size f0 ->
  triple Start (op_push_n n cost) (fun _ => Final (set_pc f0 (pc f0 + n)) cost) (AtDepth f0) C.
Proof.
  intros Hn Hc Hp. unfold op_push_n. apply r_push_gas; [exact Hc|]. step.
  match goal with H : Hold _ _ _ _ _ _ ?f |- _ => destruct (h_context _ _ _ _ _ _ _ H) as (Hcode&_) end.
  cbv zeta. apply (r_set_pc _ _ (pc f0 + n)).
  - intros g Hg. rewrite (h_pc _ _ _ _ _ _ _ Hg). unfold add64. apply w64_small.
    pose proof (fo_pc _ f0_ok). pose proof (fo_code _ f0_ok). unfold u64; lia.
  - repeat step. apply wf_from_bytes. rewrite Hcode. apply Forall_firstn, Forall_skipn, (fo_code _ f0_ok).
Qed.

(** DUP writes a slot it did not make sure of. *)
Lemma dup_safe d cost : (1 <= d)%nat -> 0 <= cost ->
  (top (stack f0) < capacity (stack f0) \/ C OutOfBounds) ->
  triple (fun f => Start f /\ stack f = stack f0) (op_dup d cost) (fun _ => Final f0 cost) (AtDepth f0) C.
Proof.
  intros Hd Hc Hs f [Hf Hst]. unfold op_dup, charge, need_items, bind, check, guard, modify, evm_stack_has_items.
  destruct (Z.leb_spec (Z.of_nat d) (top (stack f))) as [L|L]; cbn [throw ret]; [|exact (hold_depth _ _ _ _ _ _ _ Hf)].
  destruct (evm_stack_has_space _ _); cbn [throw ret]; [|exact (hold_depth _ _ _ _ _ _ _ Hf)].
  destruct (Z.ltb_spec (gas f) cost) as [G|G]; cbn [negb throw ret stack set_gas]; [exact (hold_depth _ _ _ _ _ _ _ Hf)|].
  unfold evm_stack_dup_unsafe. destruct (nth_error (items (stack f)) (d - 1)) as [x|] eqn:N.
  2:{ apply nth_error_None in N. unfold top in L. lia. }
  destruct (Z.ltb_spec (top (stack f)) (capacity (stack f))) as [K|K].
  2:{ destruct Hs as [Hs|Hs]; [rewrite Hst in K; lia|exact Hs]. }
  pose proof (h_words _ _ _ _ _ _ _ Hf) as W. rewrite Forall_forall in W. apply nth_error_In, W in N.
  assert (G' : gas f -64 cost = gas f - cost).
  { unfold sub64. apply w64_small. pose proof (h_gas64 _ _ _ _ _ _ _ Hf). unfold u64. lia. }
  rewrite G'. apply hold_any in Hf. unfold Final. hold; unfold top in *; cbn [items capacity length] in *; try lia.
  constructor; [split; [tauto|exact Logic.I] | assumption].
Qed.

Lemma swap_safe d cost : 0 <= cost -> ok (op_swap d cost) cost.
Proof.
  intros Hc. unfold op_swap. repeat step. intros f Hf.
  assert (SO : stack_ok (stack f)).
  { destruct Hf as [_ _ _ _ _ _ hs hcap hw _ _]. split; [lia | exact hcap |]. eapply Forall_impl; [|exact hw]. cbv beta; tauto. }
  destruct (evm_stack_swap_unsafe (stack f) d) as [s|] eqn:E.
  - destruct (swap_ok _ _ _ SO E) as ([S1 S2 S3] & L & K). apply hold_any in Hf. unfold Final.
    hold; unfold top in *; rewrite ?L, ?K in *; try lia. eapply Forall_impl; [|exact S3]. cbv beta. unfold anything. auto.
  - exfalso. unfold evm_stack_swap_unsafe in E. pose proof (h_items _ _ _ _ _ _ _ Hf) as Hi. unfold top in Hi.
    destruct (nth_error (items (stack f)) 0) eqn:N0; [destruct (nth_error (items (stack f)) d) eqn:N1; [discriminate|]|].
    + apply nth_error_None in N1. lia.
    + apply nth_error_None in N0. lia.
Qed.

(** ** Jumps *)

(** A taken jump lands on a marked position of the code. *)
Definition landed (bitmap : list Z) (c : Z) (f : call_frame_t) : Prop :=
  exists dest, 0 <= dest < code_size f0 /\ jumpdest_is_valid bitmap (code_size f0) dest = true /\ Final (set_pc f0 dest) c f.

Lemma jump_to_safe bitmap dest c n m sz : wf256 dest -> 0 <= n -> 0 <= m -> 0 <= sz ->
  triple (Hold f0 T c n m sz) (jump_to bitmap dest) (fun _ => landed bitmap c) (AtDepth f0) C.
Proof.
  intros W Hn Hm Hz. unfold jump_to. step. intros f Hf. unfold bind, check, guard.
  destruct (h_context _ _ _ _ _ _ _ Hf) as (Hcode&_). assert (S : code_size f = code_size f0) by (unfold code_size; rewrite Hcode; reflexivity).
  rewrite S. destruct (jumpdest_is_valid _ _ _) eqn:V; cbn [throw ret]; [|exact (hold_depth _ _ _ _ _ _ _ Hf)].
  exists (uint256_to_u64_unsafe dest). split; [|split; [exact V|]].
  - pose proof (u64_low dest W) as []. unfold jumpdest_is_valid in V.
    destruct (Z.leb_spec (code_size f0) (uint256_to_u64_unsafe dest)); [discriminate|lia].
  - apply hold_any in Hf. eapply hold_final with (T := anything) (n := n) (m := m) (sz := sz) (c := c); try lia.
    destruct Hf as [hc hp hb hg hg64 hi hs hcap hw hm hz]; split; auto.
Qed.

Lemma op_jump_safe bitmap cost : 0 <= cost -> triple Start (op_jump bitmap cost) (fun _ => landed bitmap cost) (AtDepth f0) C.
Proof. intros Hc. unfold op_jump. repeat step. apply jump_to_safe; auto; lia. Qed.

Lemma op_jumpi_safe bitmap cost : 0 <= cost ->
  triple Start (op_jumpi bitmap cost) (fun _ f => Final f0 cost f \/ landed bitmap cost f) (AtDepth f0) C.
Proof.
  intros Hc. unfold op_jumpi. repeat step.
  - apply r_ret. intros f Hf. left. eapply hold_final; [exact Hf|lia..].
  - match goal with |- triple ?P _ _ _ _ => apply (triple_weaken _ _ P P _ _ (fun _ => landed bitmap cost)); auto end.
    apply jump_to_safe; auto; lia.
Qed.

(** ** Logs, and the ranges of RETURN and REVERT *)

Lemma r_pop_topics {A} (Q : A -> call_frame_t -> Prop) k : forall c n m sz (t : nat), Z.of_nat t <= n ->
  (forall l, triple (Hold f0 T c (n - Z.of_nat t) (m + Z.of_nat t) sz) (k l) Q (AtDepth f0) C) ->
  triple (Hold f0 T c n m sz) (bind (pop_topics t) k) Q (AtDepth f0) C.
Proof.
  intros c n m sz t; revert c n m sz k; induction t as [|t IH]; intros c n m sz k Hn H; cbn [pop_topics].
  - step. specialize (H []). rewrite Z.sub_0_r, Z.add_0_r in H. exact H.
  - step. step. step. apply IH; [lia|]. intros l. step.
    replace (n - 1 - Z.of_nat t) with (n - Z.of_nat (S t)) by lia. replace (m + 1 + Z.of_nat t) with (m + Z.of_nat (S t)) by lia. apply H.
Qed.

Lemma r_check_static {A} (Q : A -> call_frame_t -> Prop) e c n m sz k :
  (is_static f0 = false -> triple (Hold f0 T c n m sz) (k tt) Q (AtDepth f0) C) ->
  triple (Hold f0 T c n m sz) (bind (check (fun f => negb (is_static f)) e) k) Q (AtDepth f0) C.
Proof.
  intros H f Hf. destruct (h_context _ _ _ _ _ _ _ Hf) as (_&_&_&Hs&_). unfold bind, check, guard. rewrite Hs.
  destruct (is_static f0); cbn [negb throw ret]; [exact (hold_depth _ _ _ _ _ _ _ Hf)|]. apply H; auto.
Qed.

(** ** Handlers that use memory *)

Hypothesis T_calm : Bad (C := C) \/ (forall x, T x -> calm x).

(** The end of the memory range of two calm words. *)
Lemma calm_range x y : wf256 x -> wf256 y -> uint256_fits_u64 x = true -> uint256_fits_u64 y = true -> T x -> T y ->
  uint256_to_u64_unsafe x + uint256_to_u64_unsafe y <= 2 ^ 63 \/ Bad (C := C).
Proof.
  intros. destruct T_calm as [B|K]; [right; exact B|left].
  pose proof (calm_low x ltac:(assumption) ltac:(assumption) ltac:(auto)).
  pose proof (calm_low y ltac:(assumption) ltac:(assumption) ltac:(auto)). lia.
Qed.

Lemma calm_range32 x n : wf256 x -> uint256_fits_u64 x = true -> T x -> 0 <= n <= 2 ^ 62 ->
  uint256_to_u64_unsafe x + n <= 2 ^ 63 \/ Bad (C := C).
Proof.
  intros. destruct T_calm as [B|K]; [right; exact B|left].
  pose proof (calm_low x ltac:(assumption) ltac:(assumption) ltac:(auto)). lia.
Qed.

(** Side conditions on memory ranges. *)
Ltac positive := repeat match goal with
  | H : uint256_is_zero ?x = false, F : uint256_fits_u64 ?x = true |- _ =>
      pose proof (zero_low x ltac:(assumption) F H); clear H
  end.
Ltac mem := match goal with
  | |- _ <= 2 ^ 63 \/ Bad => first [apply calm_range; assumption | apply calm_range32; [assumption.. | lia]]
  | H : (_ <= ?sz \/ _) \/ Bad |- _ <= ?sz \/ Bad => positive; destruct H as [[?|?]|?]; [left; lia | lia | right; assumption]
  | |- bytes_ok _ => solve [auto with words]
  end.
Ltac handler := repeat first [step | mem].

Lemma to_bytes_ok x : wf256 x -> bytes_ok (uint256_to_bytes_be x).
Proof. intros H. rewrite uint256_to_bytes_be_spec by exact H. apply be_bytes_ok. Qed.

Lemma length_to_bytes x : wf256 x -> Z.of_nat (length (uint256_to_bytes_be x)) = 32.
Proof. intros H. rewrite uint256_to_bytes_be_spec, length_be_bytes by exact H. reflexivity. Qed.
#[local] Hint Resolve to_bytes_ok : words.

Lemma mload_safe cost : 0 <= cost -> ok (op_mload cost) 0.
Proof. intros Hc. unfold op_mload, charge_with_memory. handler. Qed.

Lemma mstore_safe cost : 0 <= cost -> ok (op_mstore cost) 0.
Proof.
  intros Hc. unfold op_mstore, charge_with_memory. handler.
  rewrite length_to_bytes by assumption. mem.
Qed.

Lemma mstore8_safe cost : 0 <= cost -> ok (op_mstore8 cost) 0.
Proof.
  intros Hc. unfold op_mstore8, charge_with_memory. handler.
  - repeat constructor; apply w8_range.
  - cbn [length]. mem.
Qed.

Lemma keccak_safe keccak256 cost : (forall bs, bytes_ok bs -> wf_hash (keccak256 bs)) -> 0 <= cost -> ok (op_keccak256 keccak256 cost) 0.
Proof.
  intros Hk Hc. assert (W : forall bs, bytes_ok bs -> wf256 (hash_to_uint256 (keccak256 bs))).
  { intros bs B. apply wf_from_bytes, (proj2 (Hk bs B)). }
  unfold op_keccak256. handler. apply W. constructor.
Qed.

(** ** Copies *)

Lemma padded_ok n bs : bytes_ok bs -> bytes_ok (padded n bs) /\ length (padded n bs) = n.
Proof.
  intros H. unfold padded. split.
  - apply Forall_app; split; [apply Forall_firstn, H|]. apply Forall_forall. intros x ->%repeat_spec. split; reflexivity || lia.
  - rewrite length_app, length_firstn, repeat_length. lia.
Qed.

Lemma zeros_ok n : bytes_ok (repeat 0 n).
Proof. apply Forall_forall. intros x ->%repeat_spec. split; reflexivity || lia. Qed.

Lemma copy_bytes_ok source x size : bytes_ok source -> 0 <= size ->
  bytes_ok (copy_bytes source x size) /\ Z.of_nat (length (copy_bytes source x size)) = size.
Proof.
  intros H Hs. unfold copy_bytes. destruct (_ && _).
  - destruct (padded_ok (Z.to_nat size) (skipn (Z.to_nat (if uint256_fits_u64 x then uint256_to_u64_unsafe x else 0)) source)) as [B L].
    { apply Forall_skipn, H. }
    rewrite L. split; [exact B|lia].
  - rewrite repeat_length. split; [apply zeros_ok|lia].
Qed.

Lemma calldataload_safe cost : 0 <= cost -> ok (op_calldataload cost) cost.
Proof.
  intros Hc. unfold op_calldataload. handler.
  match goal with H : Hold _ _ _ _ _ _ ?f |- _ => destruct (h_context _ _ _ _ _ _ _ H) as (_&_&_&_&_&_&_&->&_) end.
  apply wf_from_bytes, padded_ok, Forall_skipn, (fo_input _ f0_ok).
Qed.

(** The shared part of the copy opcodes, in continuation form. *)
Lemma r_copy_prepare {A} (Q : A -> call_frame_t -> Prop) cost dest size c n m k : 0 <= cost -> 0 <= n -> 0 <= m ->
  wf256 dest -> T dest -> 0 < size < 2 ^ 64 -> (size < 2 ^ 62 \/ Bad (C := C)) ->
  (forall d c' sz, 0 <= d -> c <= c' -> 0 <= sz -> (d + size <= sz \/ Bad (C := C)) ->
     triple (Hold f0 T c' n m sz) (k d) Q (AtDepth f0) C) ->
  triple (Hold f0 T c n m 0) (bind (copy_prepare cost dest size) k) Q (AtDepth f0) C.
Proof.
  intros Hc Hn Hm W HT Hs Hb H. unfold copy_prepare. assert (U : u64 size) by (unfold u64; lia). repeat step.
  - destruct Hb as [Hb|Hb]; [apply calm_range32; auto; lia | right; exact Hb].
  - apply H; auto with frames; try lia.
    match goal with X : (_ \/ _) \/ Bad |- _ => destruct X as [[?|?]|?]; [left; lia | lia | right; assumption] end.
Qed.

Lemma size_calm x : wf256 x -> T x -> uint256_fits_u64 x = true -> uint256_to_u64_unsafe x < 2 ^ 62 \/ Bad (C := C).
Proof. intros W HT F. destruct T_calm as [B|K]; [right; exact B|left; apply calm_low; auto]. Qed.

Lemma u64_pos x : wf256 x -> uint256_fits_u64 x = true -> uint256_is_zero x = false -> 0 < uint256_to_u64_unsafe x < 2 ^ 64.
Proof. intros W F N. pose proof (zero_low x W F N). pose proof (u64_low x W) as []. lia. Qed.

Lemma copy_op_safe source cost : 0 <= cost -> (forall c n m sz f, Hold f0 T c n m sz f -> bytes_ok (source f)) ->
  ok (copy_op source cost) 0.
Proof.
  intros Hc Hsrc. unfold copy_op. repeat step.
  apply r_copy_prepare; auto using size_calm, u64_pos; try lia. intros d c' sz Hd Hc' Hsz Hb. repeat step.
  - apply copy_bytes_ok; [eapply Hsrc; eassumption|]. apply u64_low; assumption.
  - rewrite (proj2 (copy_bytes_ok _ _ _ ltac:(eapply Hsrc; eassumption) (proj1 (u64_low _ ltac:(eassumption))))). exact Hb.
Qed.

Lemma returndatacopy_safe cost data : 0 <= cost -> bytes_ok data -> ok (op_returndatacopy cost data) 0.
Proof.
  intros Hc Hd. unfold op_returndatacopy. repeat step.
  apply r_copy_prepare; auto using size_calm, u64_pos; try lia. intros d c' sz ? ? ? Hb. repeat step.
  - apply Forall_firstn, Forall_skipn, Hd.
  - rewrite length_firstn, length_skipn. 
    match goal with |- ?a + Z.of_nat (Nat.min (Z.to_nat ?b) ?l) <= _ \/ _ =>
      pose proof (u64_low _ ltac:(eassumption) : u64 b) as []; assert (Z.of_nat (Nat.min (Z.to_nat b) l) <= b) by lia end.
    destruct Hb; [left; lia | right; assumption].
Qed.

Lemma log_n_safe logs t :
  triple Start (op_log_n logs t) (fun _ f => Final f0 0 f /\ is_static f0 = false) (AtDepth f0) C.
Proof.
  unfold op_log_n. step. apply r_check_static. intros S. step. step. step. cbv zeta.
  apply r_pop_topics; [lia|]. intros l. handler; try (exfalso; lia); destruct (evm_log_vec_push _ _) as [pushed v]; repeat step;
    apply r_ret; intros g Hg; (split; [|exact S]); (eapply hold_final; [exact Hg|lia..]).
Qed.

Lemma return_range_safe :
  triple Start op_return_range (fun r f => Final f0 0 f /\ u64 (fst r) /\ u64 (snd r) /\
    ((fst r + snd r <= evm_memory_size (memory f) \/ snd r = 0) \/ Bad (C := C))) (AtDepth f0) C.
Proof.
  unfold op_return_range. handler; apply r_ret; intros f Hf; cbn [fst snd];
    (split; [eapply hold_final; [exact Hf|lia..] | split; [auto using u64_low|split; [auto using u64_low|]]]).
  - pose proof (h_size _ _ _ _ _ _ _ Hf).
    match goal with X : (_ \/ _) \/ Bad |- _ => destruct X as [[?|?]|?]; [left; left; lia | left; right; assumption | right; assumption] end.
  - left; right. pose proof (u64_low _ ltac:(eassumption) : u64 (uint256_to_u64_unsafe x0)) as []. lia.
Qed.
End Handlers.
