(* ===== verification/StateSafe.v ===== *)
(** The handlers that use the state: they keep it well formed, and in a static
    frame they leave the world as it was. *)
From Stdlib Require Import ZArith Lia List Bool RelationClasses.
From S2P Require Import Prelude Uint256 Types Effects Arena Stack Memory Gas StateAccess Frame OpsArith OpsData FrameLogic OpsSafe.
Import ListNotations.
#[local] Open Scope Z_scope.
#[local] Open Scope eff_scope.

Section StateHandlers.
Context {St : Type} {SA : StateAccess St} {SL : StateLaws St}.
Context {f0 : call_frame_t} {T : uint256_t -> Prop} {C : fault -> Prop} {st0 : St}.
Hypothesis f0_ok : frame_ok f0.
Hypothesis T_calm : Bad (C := C) \/ (forall x, T x -> calm x).

(** The state stays well formed, and the same world while the frame is static. *)
Definition Kept (st : St) : Prop := state_ok st /\ (is_static f0 = true -> world_eq st0 st).

Definition Both (P : call_frame_t -> Prop) (s : St * call_frame_t) : Prop := Kept (fst s) /\ P (snd s).

#[local] Abbreviation E := (Both (AtDepth f0)).
#[local] Abbreviation ok m Q := (triple (Both (Hold f0 T 0 0 0 0)) m Q E C).

(** A step of the frame inside a handler of both. *)
Lemma s_frame {A B} P (m : FM A) (R : A -> call_frame_t -> Prop) (k : A -> SM B) Q :
  triple P m R (AtDepth f0) C -> (forall a, triple (Both (R a)) (k a) Q E C) ->
  triple (Both P) (bind (on_frame m) k) Q E C.
Proof.
  intros H K [st f] [Hk Hf]. cbn [fst snd] in *. specialize (H f Hf). unfold bind, on_frame, zoom; cbn [fst snd].
  destruct (m f); auto; [apply K|]; split; assumption.
Qed.

Lemma s_gets {A B} P (g : St * call_frame_t -> A) (k : A -> SM B) Q :
  (forall s, Both P s -> triple (Both P) (k (g s)) Q E C) -> triple (Both P) (bind (gets g) k) Q E C.
Proof. intros H s Hs. exact (H s Hs s Hs). Qed.

Lemma s_state {A B} P (g : St -> St * A) (k : A -> SM B) Q :
  (forall st, Kept st -> Kept (fst (g st))) -> (forall a, triple (Both P) (k a) Q E C) ->
  triple (Both P) (bind (on_state g) k) Q E C.
Proof.
  intros H K [st f] [Hk Hf]. unfold bind, on_state. cbn [fst snd] in *. specialize (H st Hk). destruct (g st) as [st' a].
  apply K. split; assumption.
Qed.

Lemma s_check {B} P g e (k : unit -> SM B) Q :
  (forall f, P f -> AtDepth f0 f) ->
  (forall s, Both P s -> g s = true -> triple (Both P) (k tt) Q E C) -> triple (Both P) (bind (check g e) k) Q E C.
Proof.
  intros D H s Hs. unfold bind, check, guard. destruct (g s) eqn:G; cbn; [apply (H s Hs G s Hs) | split; [apply Hs | apply D, Hs]].
Qed.

Lemma s_ret {A} P (a : A) (Q : A -> _ -> Prop) : (forall s, Both P s -> Q a s) -> triple (Both P) (ret a) Q E C.
Proof. intros H s Hs. exact (H s Hs). Qed.

Lemma s_last {A} P (m : SM A) Q : triple P (bind m ret) Q E C -> triple P m Q E C.
Proof. intros H s Hs. specialize (H s Hs). unfold bind, ret in H. destruct (m s); exact H. Qed.

(** Warming an account or a slot. *)
Lemma kept_warm_address a st : Kept st -> Kept (fst (warm_address st a)).
Proof. intros [H W]. destruct (warm_address_ok st a H) as [H1 H2]. split; [exact H1|]. intros S. etransitivity; [apply W, S|exact H2]. Qed.

Lemma kept_warm_slot a k st : Kept st -> Kept (fst (warm_slot st a k)).
Proof. intros [H W]. destruct (warm_slot_ok st a k H) as [H1 H2]. split; [exact H1|]. intros S. etransitivity; [apply W, S|exact H2]. Qed.

Lemma kept_write st st' : is_static f0 = false -> state_ok st' -> Kept st -> Kept st'.
Proof. intros S H _. split; [exact H|congruence]. Qed.

(** The steps of the frame, as rules of both. *)
Lemma s_need {B} n c m sz (k : unit -> SM B) Q : triple (Both (Hold f0 T c n m sz)) (k tt) Q E C ->
  triple (Both (Hold f0 T c 0 m sz)) (bind (on_frame (need_items n)) k) Q E C.
Proof.
  intros H. apply s_frame with (R := fun _ => Hold f0 T c n m sz); [|intros []; exact H].
  apply r_last, r_need, r_ret. auto.
Qed.

Lemma s_pop {B} c n m sz (k : uint256_t -> SM B) Q : 0 < n ->
  (forall x, wf256 x -> T x -> triple (Both (Hold f0 T c (n - 1) (m + 1) sz)) (k x) Q E C) ->
  triple (Both (Hold f0 T c n m sz)) (bind (on_frame pop) k) Q E C.
Proof.
  intros Hn H. apply s_frame with (R := fun x f => (wf256 x /\ T x) /\ Hold f0 T c (n - 1) (m + 1) sz f).
  - apply r_last, r_pop; [exact Hn|]. intros x W HT. apply r_ret. auto.
  - intros x s [Hk [[W HT] Hf]]. apply (H x W HT). split; assumption.
Qed.

Lemma s_charge {B} cost c n m sz (k : unit -> SM B) Q : 0 <= cost ->
  triple (Both (Hold f0 T (c + cost) n m sz)) (k tt) Q E C ->
  triple (Both (Hold f0 T c n m sz)) (bind (on_frame (charge cost)) k) Q E C.
Proof.
  intros Hc H. apply s_frame with (R := fun _ => Hold f0 T (c + cost) n m sz); [|intros []; exact H].
  apply r_last, r_charge, r_ret; auto.
Qed.

Lemma s_ensure1 {B} c n m sz (k : unit -> SM B) Q : 0 <= m -> triple (Both (Hold f0 T c n 1 sz)) (k tt) Q E C ->
  triple (Both (Hold f0 T c n m sz)) (bind (on_frame (ensure_space 1)) k) Q E C.
Proof.
  intros Hm H. apply s_frame with (R := fun _ => Hold f0 T c n 1 sz); [|intros []; exact H].
  apply r_last, r_ensure1, r_ret; auto.
Qed.

Lemma s_push v c n m sz : wf256 v -> 1 <= m -> 0 <= n -> 0 <= sz -> 0 <= c ->
  triple (Both (Hold f0 T c n m sz)) (on_frame (push v)) (fun _ => Both (Final f0 0)) E C.
Proof.
  intros V Hm Hn Hz Hc. apply s_last. apply s_frame with (R := fun _ => Final f0 0).
  - repeat step.
  - intros a. apply s_ret. auto.
Qed.

(** ** storage.h *)

Lemma sload_safe : ok (op_sload gas_schedule_shanghai) (fun _ => Both (Final f0 0)).
Proof.
  unfold op_sload. apply s_need, s_pop; [lia|]. intros slot W _. apply s_gets; intros s Hs.
  apply s_state; [intros; apply kept_warm_slot; assumption|]. intros cold. pose proof (sload_cost_range cold) as R.
  change (sload gas_schedule_shanghai cold) with (sload_cost_shanghai cold). apply s_charge; [lia|].
  apply s_gets; intros [st f] [[Hk _] Hf]. apply s_ensure1; [lia|]. apply s_push; try lia. apply storage_wf, Hk.
Qed.

Lemma apply_refund_u64 r refund : u64 (apply_refund r refund).
Proof. unfold apply_refund. destruct (0 <=? refund); [apply w64_range|]. cbv zeta. destruct (_ <=? _); [apply w64_range | apply u64_0]. Qed.

Lemma sstore_safe refund : ok (op_sstore gas_schedule_shanghai refund) (fun r s => Both (Final f0 0) s /\ is_static f0 = false /\ u64 r).
Proof.
  unfold op_sstore. apply s_check; [apply hold_depth|]. intros [st1 f1] [_ Hf1] S. cbn [snd] in *.
  assert (ST : is_static f0 = false).
  { destruct (h_context _ _ _ _ _ _ _ Hf1) as (_&_&_&Hs&_). rewrite <- Hs. destruct (is_static f1); [discriminate|reflexivity]. }
  apply s_need, s_pop; [lia|]. intros slot W _. apply s_pop; [lia|]. intros new Wn _.
  apply s_gets; intros s2 _. apply s_gets; intros s3 _. apply s_gets; intros s4 _.
  apply s_state; [intros; apply kept_warm_slot; assumption|]. intros cold. cbv zeta. apply s_check; [apply hold_depth|]. intros s5 _ _.
  match goal with |- context [charge ?x] => assert (R : 0 <= x) by (apply Z.le_trans with 100; [lia|apply sstore_cost_range]) end.
  apply s_charge; [exact R|].
  apply s_state; [intros st Hk; eapply kept_write; [exact ST | apply set_storage_ok; [apply Hk|exact Wn] | exact Hk]|]. intros [].
  apply s_ret. intros s [Hk Hf]. split; [|split; [exact ST | apply apply_refund_u64]]. split; [exact Hk|]. eapply hold_final; [exact Hf | lia ..].
Qed.

(** ** external.h and SELFBALANCE *)

Lemma s_access {B} P addr (k : Z -> SM B) Q :
  (forall cost, 100 <= cost <= 2600 -> triple (Both P) (k cost) Q E C) -> triple (Both P) (bind (access_cost addr) k) Q E C.
Proof.
  intros H. assert (A : triple (Both P) (access_cost addr) (fun cost s => Both P s /\ 100 <= cost <= 2600) E C).
  { unfold access_cost. apply s_state; [intros; apply kept_warm_address; assumption|]. intros cold. apply s_ret. intros s Hs.
    split; [exact Hs|]. unfold GAS_COLD_ACCOUNT_ACCESS, GAS_WARM_ACCESS. destruct cold; lia. }
  eapply triple_bind; [exact A|]. intros cost s [Hs Hc]. exact (H cost Hc s Hs).
Qed.

Lemma account_op_safe query : (forall st a, state_ok st -> wf256 (query st a)) -> ok (account_op query) (fun _ => Both (Final f0 0)).
Proof.
  intros Hq. unfold account_op. apply s_need, s_pop; [lia|]. intros a W _. cbv zeta. apply s_access. intros cost Hc.
  apply s_charge; [lia|]. apply s_gets; intros [st f] [[Hk _] Hf]. apply s_ensure1; [lia|]. apply s_push; try lia. apply Hq, Hk.
Qed.

Lemma extcodecopy_safe : ok op_extcodecopy (fun _ => Both (Final f0 0)).
Proof.
  unfold op_extcodecopy. apply s_need, s_pop; [lia|]. intros a Wa _. apply s_pop; [lia|]. intros d Wd Td.
  apply s_pop; [lia|]. intros o Wo _. apply s_pop; [lia|]. intros z Wz Tz. cbv zeta. apply s_access. intros cost Hc.
  apply triple_if; intros Z0.
  - apply s_last, s_charge; [lia|]. apply s_ret. intros s [Hk Hf]. split; [exact Hk|]. eapply hold_final; [exact Hf | lia ..].
  - apply s_frame with (R := fun _ f => Hold f0 T 0 (4 - 1 - 1 - 1 - 1) (0 + 1 + 1 + 1 + 1) 0 f /\ uint256_fits_u64 z = true).
    { apply r_last, r_guard. intros F. apply r_ret. auto. }
    intros _ s [Hk [Hf F]]. revert s Hk Hf.
    enough (H : triple (Both (Hold f0 T 0 (4 - 1 - 1 - 1 - 1) (0 + 1 + 1 + 1 + 1) 0)) 
      (dest_offset <- on_frame (copy_prepare cost d (uint256_to_u64_unsafe z)) ;;
       code <- gets (fun s => get_code (fst s) (address_from_uint256 a)) ;;
       on_frame (mstore dest_offset (copy_bytes code o (uint256_to_u64_unsafe z)))) (fun _ => Both (Final f0 0)) E C)
      by (intros s Hk Hf; apply H; split; assumption).
    apply s_frame with (R := fun dest f => exists c sz, 0 <= dest /\ 0 <= c /\ 0 <= sz /\ (dest + uint256_to_u64_unsafe z <= sz \/ Bad (C := C)) /\
      Hold f0 T c (4 - 1 - 1 - 1 - 1) (0 + 1 + 1 + 1 + 1) sz f).
    + apply r_last. apply r_copy_prepare; auto using u64_pos; try lia. { eapply size_calm; eauto. }
      intros dest c' sz Hd Hc' Hz Hb. apply r_ret. intros f Hf. exists c', sz. auto 10.
    + intros dest. apply s_gets. intros [st f] [[Hk _] _]. cbn [fst].
      destruct (copy_bytes_ok (get_code st (address_from_uint256 a)) o (uint256_to_u64_unsafe z)) as [B L];
        [apply code_wf, Hk | apply u64_low; assumption|].
      apply s_last. apply s_frame with (R := fun _ => Final f0 0); [|intros; apply s_ret; auto].
      intros g (c & sz & Hd & Hc' & Hz & Hb & Hg). revert g Hg.
      assert (M : triple (Hold f0 T c (4 - 1 - 1 - 1 - 1) (0 + 1 + 1 + 1 + 1) sz)
        (mstore dest (copy_bytes (get_code st (address_from_uint256 a)) o (uint256_to_u64_unsafe z))) (fun _ => Final f0 0) (AtDepth f0) C).
      { apply r_last, r_mstore; [exact Hd | exact B | rewrite L; exact Hb |]. step. }
      exact M.
Qed.

Lemma selfbalance_safe cost : 0 <= cost -> ok (op_selfbalance cost) (fun _ => Both (Final f0 0)).
Proof.
  intros Hc. unfold op_selfbalance. apply s_ensure1; [lia|]. apply s_charge; [exact Hc|]. apply s_gets; intros s1 _.
  apply s_gets; intros [st f] [[Hk _] _]. apply s_push; try lia. apply balance_wf, Hk.
Qed.
End StateHandlers.
