(* ===== verification/CallSafe.v ===== *)
(** The CALL family: the gas a call costs and splits, the memory it needs, and
    the child frame it starts. *)
From Stdlib Require Import ZArith Lia List Bool RelationClasses.
From S2P Require Import Prelude Uint256 Types Effects Arena Stack Memory Gas StateAccess Frame OpsArith OpsData CallOps.
From S2P Require Import FrameLogic OpsSafe StateSafe.
Import ListNotations.
#[local] Open Scope Z_scope.
#[local] Open Scope word_scope.
#[local] Open Scope eff_scope.

(** * Gas *)

(** The memory cost cannot wrap a call's total around, for any range. *)
Lemma expansion_cost_bound cur new : 0 <= cur <= 2048 -> 0 <= new <= 2 ^ 59 -> evm_memory_expansion_cost cur new < 2 ^ 62.
Proof.
  intros Hc Hn. unfold evm_memory_expansion_cost. destruct (Z.leb_spec new cur); [lia|].
  assert (O : (3 *64 cur) +64 ((cur *64 cur) / 512) = Cmem cur).
  { unfold mul64, add64, Cmem. rewrite (w64_small (cur * cur)), (w64_small (3 * cur)) by (unfold u64; nia).
    assert (0 <= cur * cur / 512 <= 8192) by (Z.div_mod_to_equations; nia). apply w64_small. unfold u64; lia. }
  rewrite O. assert (B : 0 <= Cmem cur <= 14336) by (unfold Cmem; Z.div_mod_to_equations; nia).
  unfold mul64 at 1. rewrite (w64_small (3 * new)) by (unfold u64; lia). set (q := (new *64 new) / 512).
  assert (Q : 0 <= q < 2 ^ 55).
  { unfold q, mul64. pose proof (w64_range (new * new)) as [? ?]. split; [apply Z.div_pos; lia|apply Z.div_lt_upper_bound; lia]. }
  unfold add64, sub64. rewrite (w64_small (3 * new + q)) by (unfold u64; lia).
  destruct (Z.lt_ge_cases new (2 ^ 32)).
  - assert (q = new * new / 512) as -> by (unfold q, mul64; rewrite w64_small by (unfold u64; nia); reflexivity).
    pose proof (Cmem_mono cur new ltac:(lia)). pose proof (Cmem_bound new ltac:(lia)). unfold Cmem in *.
    rewrite w64_small by (unfold u64; lia). lia.
  - rewrite w64_small by (unfold u64; lia). lia.
Qed.

Lemma range_end_spec off size mx e : u64 off -> u64 size -> u64 mx -> range_end off size mx = Some e ->
  u64 e /\ off + size < 2 ^ 64 /\ e = Z.max mx (if size =? 0 then 0 else off + size).
Proof.
  unfold range_end, UINT64_MAX, u64, add64. intros Ho Hs Hm. destruct (Z.ltb_spec 0 size), (Z.eqb_spec size 0); try lia.
  - destruct (Z.gtb_spec off (2 ^ 64 - 1 - size)); [discriminate|]. rewrite w64_small by (unfold u64; lia).
    destruct (Z.gtb_spec (off + size) mx); intros [= <-]; lia.
  - intros [= <-]. lia.
Qed.

Lemma call_memory_cost_bound m ao az ro rz c : mem_ok m -> u64 ao -> u64 az -> u64 ro -> u64 rz ->
  call_memory_cost m ao az ro rz = Some c -> 0 <= c < 2 ^ 62 /\ ao + az < 2 ^ 64 /\ ro + rz < 2 ^ 64.
Proof.
  intros Hm Ha Hz Hr Hs. unfold call_memory_cost. destruct (range_end ao az 0) as [e1|] eqn:E1; [|discriminate].
  apply range_end_spec in E1 as (U1 & B1 & _); auto using u64_0.
  destruct (range_end ro rz e1) as [e2|] eqn:E2; [|discriminate]. apply range_end_spec in E2 as (U2 & B2 & _); auto.
  destruct (Z.eqb_spec e2 0); intros [= <-]; (split; [|auto]); [lia|].
  pose proof (mem_size_bound m Hm). split; [apply expansion_cost_u64|apply expansion_cost_bound].
  - Z.div_mod_to_equations; lia.
  - pose proof (w64_range (e2 + 31)) as [? ?]. unfold add64. split; [apply Z.div_pos; lia|]. apply Z.div_le_upper_bound; lia.
Qed.

Lemma call_overhead_range cold v n : 100 <= call_overhead cold v n <= 36600 /\ (v = true -> 9100 <= call_overhead cold v n).
Proof. destruct cold, v, n; vm_compute; repeat split; discriminate || congruence. Qed.

(** The split of the gas that is left after the overhead: EIP-150's all but one
    64th, and the stipend on top for a transfer. *)
Lemma split_gas_spec g req v : u64 g -> wf256 req ->
  let x := Z.min (val req) (g - g / 64) in
  split_gas g req v = (g - x, x + if v then 2300 else 0) /\ 0 <= x <= g.
Proof.
  intros Hg Hr x. unfold split_gas, call_child_gas. destruct (gas_cap_call_spec g Hg) as [-> B].
  pose proof (val_range req Hr) as R. unfold u64 in Hg.
  assert (D : 0 <= g / 64 <= g) by (Z.div_mod_to_equations; lia).
  assert (X : (if (if uint256_fits_u64 req then uint256_to_u64_unsafe req else UINT64_MAX) <? g - g / 64
               then if uint256_fits_u64 req then uint256_to_u64_unsafe req else UINT64_MAX else g - g / 64) = x).
  { unfold x, UINT64_MAX. destruct (uint256_fits_u64 req) eqn:F.
    - rewrite uint256_to_u64_spec by assumption. destruct (Z.ltb_spec (val req) (g - g / 64)); lia.
    - rewrite uint256_fits_u64_spec in F by assumption. apply Z.ltb_ge in F.
      destruct (Z.ltb_spec (2 ^ 64 - 1) (g - g / 64)); lia. }
  rewrite X. assert (0 <= x <= g - g / 64) by (unfold x; lia).
  assert (g - g / 64 <= 2 ^ 64 - 2 ^ 58) by (Z.div_mod_to_equations; lia).
  unfold GAS_CALL_STIPEND, sub64, add64. split; [|lia].
  destruct v; rewrite ?(w64_small (x + 2300)), ?(w64_small (x + 2300 - 2300)), ?(w64_small (x - 0)) by (unfold u64; lia).
  - replace (x + 2300 - 2300) with x by ring. destruct (Z.gtb_spec x g); [lia|]. rewrite w64_small by (unfold u64; lia). reflexivity.
  - replace (x - 0) with x by ring. destruct (Z.gtb_spec x g); [lia|]. rewrite w64_small by (unfold u64; lia). f_equal. ring.
Qed.

(** * Memory *)

(** The range is empty or within the 64 KB a memory can have. *)
Definition fits (off size : Z) : Prop := size = 0 \/ off + size <= 65536.
Definition covered (off size n : Z) : Prop := size = 0 \/ off + size <= n.


Section Frames.
Context {f0 : call_frame_t} {T : uint256_t -> Prop} {C : fault -> Prop}.

Lemma r_expand_call ao az ro rz c n m sz : u64 ao -> u64 az -> u64 ro -> u64 rz -> ao + az < 2 ^ 64 -> ro + rz < 2 ^ 64 ->
  (fits ao az /\ fits ro rz \/ Bad (C := C)) ->
  triple (Hold f0 T c n m sz) (expand_call_memory ao az ro rz)
    (fun _ f => Hold f0 T c n m sz f /\ ((covered ao az (evm_memory_size (memory f)) /\ covered ro rz (evm_memory_size (memory f))) \/ Bad (C := C)))
    (AtDepth f0) C.
Proof.
  unfold u64. intros Ha Hz Hr Hs B1 B2 Hb f Hf. unfold expand_call_memory, add64. cbv zeta.
  rewrite !w64_small by (unfold u64; lia).
  match goal with |- context [if ?x >? evm_memory_size _ then _ else _] => set (e := x) end.
  assert (He : 0 <= e < 2 ^ 64 /\ (az = 0 \/ ao + az <= e) /\ (rz = 0 \/ ro + rz <= e) /\ (fits ao az -> fits ro rz -> e <= 65536)).
  { unfold e, fits. destruct (Z.gtb_spec az 0), (Z.gtb_spec rz 0), (Z.gtb_spec (ao + az) 0); try lia;
    match goal with |- context [?x >? ?y] => destruct (Z.gtb_spec x y) | _ => idtac end; lia. }
  clearbody e. destruct He as (U & E1 & E2 & E3). pose proof (h_memory _ _ _ _ _ _ _ Hf) as M. unfold covered.
  destruct (Z.gtb_spec e (evm_memory_size (memory f))) as [L|L]; [|split; [exact Hf|left; lia]].
  pose proof (expand_any (memory f) 0 e M u64_0 U) as X.
  destruct (Z.le_gt_cases e 65536) as [S|S].
  - destruct (expand_spec (memory f) 0 e M u64_0 ltac:(lia) ltac:(lia)) as (ok & cost & m' & E & M' & F & K).
    rewrite E in X |- *. destruct X as (_ & _ & Hsz & _). split; [hold; lia|]. left.
    destruct ok; [destruct K as (_ & _ & K); [reflexivity|]; destruct K as [K _]; [unfold evm_memory_size in L; lia|]; cbn [memory set_memory]; lia|].
    destruct (F eq_refl) as [_ F2]. unfold words_of in F2. Z.div_mod_to_equations; lia.
  - destruct Hb as [[? ?]|Hb]; [exfalso; intuition lia|]. destruct (evm_memory_expand _ _ _) as [[[ok cost] m']|].
    + split; [destruct X as (M' & _ & Hsz & _); hold; lia | right; exact Hb].
    + apply Hb.
Qed.

(** The arguments of a call, as the top of the stack has them. *)
Definition args_of (has_value : bool) (l : list uint256_t) : option call_stack_args_t :=
  match has_value, l with
  | true, g :: a :: v :: ao :: az :: ro :: rz :: _ => Some (CallArgs g a v ao az ro rz)
  | false, g :: a :: ao :: az :: ro :: rz :: _ => Some (CallArgs g a uint256_zero ao az ro rz)
  | _, _ => None
  end.

Lemma args_of_value l args : args_of false l = Some args -> arg_value args = uint256_zero.
Proof. do 6 (destruct l as [|? l]; [discriminate|]). cbn. intros [= <-]. reflexivity. Qed.

Definition wf_args (args : call_stack_args_t) : Prop :=
  wf256 (requested_gas args) /\ wf256 (arg_addr args) /\ wf256 (arg_value args) /\
  wf256 (arg_args_offset args) /\ wf256 (arg_args_size args) /\ wf256 (arg_ret_offset args) /\ wf256 (arg_ret_size args).

(** A pop that remembers the words below. *)
Definition Listed c n m (l : list uint256_t) (f : call_frame_t) : Prop := Hold f0 T c n m 0 f /\ items (stack f) = l.

Lemma r_pop_list {A} (Q : A -> call_frame_t -> Prop) c n m l k : 0 < n ->
  (forall x rest, l = x :: rest -> wf256 x -> triple (Listed c (n - 1) (m + 1) rest) (k x) Q (AtDepth f0) C) ->
  triple (Listed c n m l) (bind pop k) Q (AtDepth f0) C.
Proof.
  intros Hn H f [Hf I]. pose proof (h_items _ _ _ _ _ _ _ Hf) as Hi. pose proof (h_words _ _ _ _ _ _ _ Hf) as W.
  pose proof (h_space _ _ _ _ _ _ _ Hf) as Hs. unfold top in *. unfold bind, pop, evm_stack_pop_unsafe. rewrite I in *.
  destruct l as [|x rest]; [cbn in Hi; lia|]. inversion W as [|? ? Wx Wr]; subst. apply (H x rest eq_refl); [tauto|].
  split; [|reflexivity]. hold; unfold top in *; rewrite ?I in *; cbn [items capacity length] in *; auto; lia.
Qed.

Lemma pop_args_safe (hv : bool) : let n := if hv then 7 else 6 in
  triple (Listed 0 n 0 (items (stack f0))) (if hv then pop_call_args else pop_call_args_no_value)
    (fun args f => Hold f0 T 0 0 n 0 f /\ args_of hv (items (stack f0)) = Some args /\ wf_args args) (AtDepth f0) C.
Proof.
  intros n. unfold n. generalize (items (stack f0)) as l. intros l.
  destruct hv; [unfold pop_call_args | unfold pop_call_args_no_value];
    repeat (apply r_pop_list; [lia|]; intros ? ? -> ?); apply r_ret; intros f [Hf _];
    (split; [exact Hf|split; [reflexivity|unfold wf_args; auto 10 using wf_zero]]).
Qed.

Lemma pop_n_safe k c n m sz : Z.of_nat k <= n -> triple (Hold f0 T c n m sz) (pop_n k)
  (fun _ => Hold f0 T c (n - Z.of_nat k) (m + Z.of_nat k) sz) (AtDepth f0) C.
Proof.
  revert n m; induction k as [|k IH]; intros n m Hn; cbn [pop_n].
  - apply r_ret. intros f Hf. rewrite Z.sub_0_r, Z.add_0_r. exact Hf.
  - step. replace (n - Z.of_nat (S k)) with (n - 1 - Z.of_nat k) by lia. replace (m + Z.of_nat (S k)) with (m + 1 + Z.of_nat k) by lia.
    apply IH; lia.
Qed.
End Frames.

(** * The handlers *)

(** Memory arguments that are calm for a call: ranges within 64 KB. *)
Definition args_calm (args : call_stack_args_t) : Prop :=
  fits (val (arg_args_offset args)) (val (arg_args_size args)) /\ fits (val (arg_ret_offset args)) (val (arg_ret_size args)).

(** What a new child frame satisfies. *)
Record child_ok (parent child : call_frame_t) : Prop := {
  ch_ok : frame_ok child;
  ch_pc : pc child = 0;
  ch_bitmap : jumpdest_bitmap child = None;
  ch_depth : depth child = w16 (depth parent + 1);
  ch_static : is_static parent = true -> is_static child = true;
  ch_items : items (stack child) = [];
  ch_hash : code_hash child = hash_zero }.

Section Calls.
Context {St : Type} {SA : StateAccess St} {SL : StateLaws St}.
Context {f0 : call_frame_t} {T : uint256_t -> Prop} {C : fault -> Prop} {st0 : St}.
Hypothesis f0_ok : frame_ok f0.

#[local] Abbreviation E := (Both (f0 := f0) (st0 := st0) (AtDepth f0)).
#[local] Abbreviation Both := (Both (f0 := f0) (st0 := st0)).

(** The overhead and the child's gas are paid: at least 100 more than the
    child gets. *)
Lemma call_gas_safe target args ao az ro rz v new sz : wf256 (requested_gas args) ->
  u64 ao -> u64 az -> u64 ro -> u64 rz -> let n := 1 in
  triple (Both (Hold f0 T 0 0 n sz)) (calculate_call_gas target args ao az ro rz v new)
    (fun child s => Both (fun f => exists c, Hold f0 T c 0 n sz f /\ u64 child /\ child + 100 <= c) s /\ ao + az < 2 ^ 64 /\ ro + rz < 2 ^ 64) E C.
Proof.
  intros Wr Ha Hz Hr Hs n. unfold calculate_call_gas. apply s_state; [intros; apply kept_warm_address; assumption|]. intros cold.
  apply s_frame with (R := fun mc f => Hold f0 T 0 0 n sz f /\ 0 <= mc < 2 ^ 62 /\ ao + az < 2 ^ 64 /\ ro + rz < 2 ^ 64).
  { intros f Hf. destruct (call_memory_cost _ _ _ _ _) as [mc|] eqn:M; [|exact (hold_depth _ _ _ _ _ _ _ Hf)]. split; [exact Hf|].
    eapply call_memory_cost_bound; try exact M; auto. apply (h_memory _ _ _ _ _ _ _ Hf). }
  intros mc. cbv zeta. destruct (call_overhead_range cold v new) as [R1 R2]. set (o := call_overhead cold v new) in *.
  intros s [Hk (Hf & Hmc & B1 & B2)]. revert s Hk Hf.
  enough (H : triple (Both (Hold f0 T 0 0 n sz)) (on_frame (charge (o +64 mc)) ;; on_frame (fun f =>
    let '(parent_gas, child_gas) := split_gas (gas f) (requested_gas args) v in Ret (set_gas f parent_gas) child_gas))
    (fun child => Both (fun f => exists c, Hold f0 T c 0 n sz f /\ u64 child /\ child + 100 <= c)) E C).
  { intros s Hk Hf. specialize (H s (conj Hk Hf)). destruct (bind _ _ s); auto. }
  unfold add64. rewrite w64_small by (unfold u64; lia). apply s_charge; [lia|]. apply s_last.
  apply s_frame with (R := fun child f => exists c, Hold f0 T c 0 n sz f /\ u64 child /\ child + 100 <= c); [|intros a; apply s_ret; auto].
  intros f Hf. pose proof (h_gas _ _ _ _ _ _ _ Hf) as G. pose proof (h_gas64 _ _ _ _ _ _ _ Hf) as G64.
  destruct (split_gas_spec (gas f) (requested_gas args) v ltac:(unfold u64; lia) Wr) as [-> X].
  set (x := Z.min _ _) in *. exists (o + mc + x). split; [hold|]. unfold u64.
  assert (x <= gas f - gas f / 64) by (unfold x; lia).
  assert (gas f - gas f / 64 <= 2 ^ 64 - 2 ^ 58) by (clear - G G64; Z.div_mod_to_equations; lia).
  destruct v; [specialize (R2 eq_refl)|]; lia.
Qed.

(** What the [prepare_*] functions leave for the call. *)
Record Prepared (setup : call_setup_t) (f : call_frame_t) : Prop := {
  pr_hold : exists c, Hold f0 T c 0 1 0 f /\ child_gas setup + 100 <= c;
  pr_gas : u64 (child_gas setup);
  pr_value : wf256 (setup_value setup);
  pr_target : wf_address (target setup);
  pr_ranges : u64 (args_offset setup) /\ u64 (args_size setup) /\ u64 (ret_offset setup) /\ u64 (ret_size setup);
  pr_static : is_static f0 = true -> uint256_is_zero (setup_value setup) = true;
  pr_covered : (covered (args_offset setup) (args_size setup) (evm_memory_size (memory f)) /\
                covered (ret_offset setup) (ret_size setup) (evm_memory_size (memory f))) \/ Bad (C := C) }.

(** A pure fact of the assertion, moved to the context. *)
Lemma s_pure {A} (phi : Prop) P (m : SM A) Q : (phi -> triple (Both P) m Q E C) ->
  triple (Both (fun f => P f /\ phi)) m Q E C.
Proof. intros H s [Hk [Hp X]]. exact (H X s (conj Hk Hp)). Qed.

(** The memory arguments of a call as 64-bit numbers. *)
Lemma validate_safe args c n m sz : wf_args args ->
  triple (Hold f0 T c n m sz) (validate_memory_args args)
    (fun r f => Hold f0 T c n m sz f /\
       r = (val (arg_args_offset args), val (arg_args_size args), val (arg_ret_offset args), val (arg_ret_size args)) /\
       u64 (val (arg_args_offset args)) /\ u64 (val (arg_args_size args)) /\ u64 (val (arg_ret_offset args)) /\ u64 (val (arg_ret_size args)))
    (AtDepth f0) C.
Proof.
  intros (_ & _ & _ & W4 & W5 & W6 & W7). unfold validate_memory_args. step. apply r_ret. intros f Hf. split; [exact Hf|].
  rewrite <- !uint256_to_u64_spec by assumption. auto 10 using u64_low.
Qed.

Lemma prepare_args_safe hv new args : wf_args args -> (hv = false -> arg_value args = uint256_zero) ->
  (Bad (C := C) \/ args_calm args) ->
  triple (Both (Hold f0 T 0 0 1 0)) (prepare_args hv new args)
    (fun o => Both (match o with None => Hold f0 T 0 0 1 0 | Some setup => Prepared setup end)) E C.
Proof.
  intros Wa V0 Hb. unfold prepare_args. eapply s_frame; [exact (validate_safe args 0 0 1 0 Wa)|]. intros r. cbv beta.
  apply s_pure. intros (-> & Ha & Hz & Hr & Hs). destruct Wa as (W1 & W2 & W3 & _).
  set (ao := val (arg_args_offset args)) in *. set (az := val (arg_args_size args)) in *.
  set (ro := val (arg_ret_offset args)) in *. set (rz := val (arg_ret_size args)) in *.
  cbv zeta. apply s_check; [apply hold_depth|]. intros [st1 f1] [_ Hf1] Wp. apply s_gets. intros s2 _.
  assert (S : is_static f0 = true -> uint256_is_zero (arg_value args) = true).
  { destruct (h_context _ _ _ _ _ _ _ Hf1) as (_&_&_&Hst&_). cbn [snd] in Wp. rewrite (Hst : is_static f1 = _) in Wp. intros S. rewrite S in Wp.
    destruct hv; [|rewrite V0 by reflexivity; reflexivity]. destruct (uint256_is_zero _); [reflexivity|discriminate]. }
  eapply triple_bind; [exact (call_gas_safe _ args ao az ro rz _ _ 0 W1 Ha Hz Hr Hs)|]. intros child [st3 f3] [[Hk (c & Hf & Uc & Cc)] [B1 B2]].
  cbn [fst snd] in Hk, Hf.
  assert (Hb' : fits ao az /\ fits ro rz \/ Bad (C := C)) by (destruct Hb; [right|left]; assumption).
  pose proof (r_expand_call (f0 := f0) (T := T) (C := C) ao az ro rz c 0 1 0 Ha Hz Hr Hs B1 B2 Hb' f3 Hf) as X.
  unfold bind, on_frame, zoom; cbn [fst snd]. destruct (expand_call_memory ao az ro rz f3) as [f4 u|f4 e|x]; [|split; [exact Hk|exact X]|exact X].
  destruct X as [Hf4 Cov]. split; [exact Hk|]. split; cbn [child_gas setup_value target args_offset args_size ret_offset ret_size snd]; auto.
  - exists c; auto.
  - apply wf_address_from, W2.
Qed.

Lemma prepare_safe hv new :
  (Bad (C := C) \/ forall args, args_of hv (items (stack f0)) = Some args -> args_calm args) ->
  triple (Both (Listed (f0 := f0) (T := T) 0 0 0 (items (stack f0)))) (prepare hv new)
    (fun o => Both (match o with None => Hold f0 T 0 0 1 0 | Some setup => Prepared setup end)) E C.
Proof.
  intros Hb. unfold prepare. set (n := if hv then 7 else 6).
  replace (Z.of_nat (if hv then 7%nat else 6%nat)) with n by (destruct hv; reflexivity).
  apply s_frame with (R := fun _ => Listed (f0 := f0) (T := T) 0 n 0 (items (stack f0))).
  { intros f [Hf I]. unfold need_items, check, guard, evm_stack_has_items.
    destruct (Z.leb_spec n (top (stack f))); cbn [throw ret]; [|exact (hold_depth _ _ _ _ _ _ _ Hf)]. split; [hold|exact I]. }
  intros _. apply s_gets. intros s0 _. apply triple_if; intros Deep.
  - apply s_frame with (R := fun _ => Hold f0 T 0 0 1 0); [|intros _; apply s_ret; auto].
    intros f [Hf _]. assert (K : Z.of_nat (if hv then 7%nat else 6%nat) = n) by (destruct hv; reflexivity).
    pose proof (pop_n_safe (f0 := f0) (T := T) (C := C) (if hv then 7%nat else 6%nat) 0 n 0 0 ltac:(lia) f Hf) as P.
    destruct (pop_n _ f) as [f' u|f' e|x]; [|exact P|exact P]. eapply hold_weaken; [exact P|unfold n in *; destruct hv; lia..].
  - eapply s_frame; [exact (pop_args_safe hv)|]. intros args. cbv beta. apply s_pure. intros [Ea Wa].
    assert (P : triple (Both (Hold f0 T 0 0 1 0)) (prepare_args hv new args)
      (fun o => Both (match o with None => Hold f0 T 0 0 1 0 | Some setup => Prepared setup end)) E C).
    { apply prepare_args_safe; [exact Wa | intros ->; exact (args_of_value _ _ Ea) | destruct Hb; auto]. }
    intros s [Hk Hf]. apply P. split; [exact Hk|]. eapply hold_weaken; [exact Hf|destruct hv; lia..].
Qed.

(** ** Starting the child *)

(** The parent waits for the child: a free slot for the flag, and the output
    range in its memory. *)
Definition out_ok (f : call_frame_t) : Prop :=
  0 <= output_offset f /\ 0 <= output_size f /\ (covered (output_offset f) (output_size f) (evm_memory_size (memory f)) \/ Bad (C := C)).

Definition Started (child f : call_frame_t) : Prop :=
  child_ok f0 child /\ (exists c, Hold f0 anything c 0 1 0 f /\ gas child + 100 <= c) /\ out_ok f.

Definition params_ok (p : child_frame_params_t) : Prop :=
  wf_address (p_caller p) /\ wf_address (p_address p) /\ wf256 (p_value p) /\ (is_static f0 = true -> p_is_static p = true).

Lemma w32_le x : 0 <= x -> 0 <= w32 x <= x.
Proof. intros H. unfold w32. pose proof (Z.mod_pos_bound x (2 ^ 32) ltac:(lia)). pose proof (Z.mod_le x (2 ^ 32) H ltac:(lia)). lia. Qed.

Lemma set_output_hold f c n m sz o z : Hold f0 anything c n m sz f -> Hold f0 anything c n m sz (set_output f o z).
Proof. intros []; split; auto. Qed.

Lemma init_child_safe pool setup child_code params : bytes_ok child_code -> Z.of_nat (length child_code) < 2 ^ 63 -> params_ok params ->
  triple (Prepared setup) (init_child_frame pool setup child_code params)
    (fun o f => match o with None => Hold f0 T 0 0 1 0 f | Some child => Started child f /\ pool < EVM_MAX_CALL_DEPTH end) (AtDepth f0) C.
Proof.
  intros Hc Hl (P1 & P2 & P3 & P4) f [(c & Hf & Cc) Ug Wv Wt (Ua & Uz & Ur & Us) _ Cov]. unfold init_child_frame.
  unfold pool_rent. destruct (Z.ltb_spec pool EVM_MAX_CALL_DEPTH) as [Hpool|]; cbn [negb]; [|cbn; eapply hold_weaken; [exact Hf|destruct Ug; lia..]].
  match goal with |- context [bind ?m _ f] => assert (D : match m f with
    | Ret f' bs => f' = f /\ bytes_ok bs /\ u64 (Z.of_nat (length bs)) | Err _ _ => False | Crash x => C x end); [|set (r := m) in *] end.
  { destruct (Z.gtb_spec (args_size setup) 0).
    - unfold mload. destruct (Z.le_gt_cases (args_offset setup + args_size setup) (evm_memory_size (memory f))) as [L|L].
      + destruct (load_spec (memory f) _ _ (h_memory _ _ _ _ _ _ _ Hf) (proj1 Ua) (proj1 Uz) L) as (bs & -> & B & N).
        rewrite N. auto.
      + unfold evm_memory_load_unsafe. rewrite (proj2 (Z.leb_gt _ _)) by exact L.
        destruct Cov as [[[?|?] _]|[B _]]; [lia | lia | exact B].
    - cbn. repeat split; auto; try lia. constructor. }
  unfold bind. destruct (r f) as [f' bs|f' e|x]; [|contradiction|exact D]. destruct D as (-> & B & N).
  destruct init_ok as (s & -> & Sok & Sit). destruct (w32_le (ret_size setup) (proj1 Us)) as [Z1 Z2].
  destruct (h_context _ _ _ _ _ _ _ Hf) as (_&Hd&_).
  split; [|exact Hpool]. split; [split|]; cbn [pc jumpdest_bitmap depth is_static stack]; auto.
  - split; cbn [gas pc stack memory code input caller address value]; auto using init_mem_ok.
    unfold code_size; cbn [code]. lia.
  - rewrite Hd. reflexivity.
  - split.
    + exists c. split; [apply set_output_hold, (hold_any _ _ _ _ _ _ _ Hf) | exact Cc].
    + unfold out_ok, covered in *; cbn [output_offset output_size memory set_output]. split; [apply Ur|]. split; [lia|].
      destruct Cov as [[_ [?|?]]|Bd]; [left; left; lia | left; right; lia | right; exact Bd].
Qed.

(** After [prepare], in the four handlers: either nothing more than a failure
    flag, or a child. *)
Definition CallPost (pool : Z) (o : option call_frame_t) : St * call_frame_t -> Prop :=
  Both (match o with None => Final f0 0 | Some child => fun f => Started child f /\ pool < EVM_MAX_CALL_DEPTH end).

Lemma call_fails_safe pool : triple (Both (Hold f0 T 0 0 1 0)) call_fails (CallPost pool) E C.
Proof.
  unfold call_fails. eapply triple_bind; [apply s_push; auto using wf_zero; lia|]. intros u. apply s_ret. auto.
Qed.

Lemma start_child_safe pool setup params : (forall f, same_context f0 f -> params_ok (params f)) ->
  triple (Both (Prepared setup)) (start_child pool setup params) (CallPost pool) E C.
Proof.
  intros Hp. unfold start_child. apply s_gets. intros [st f] [[Hk _] _]. cbn [fst].
  pose proof (code_wf st (target setup) Hk) as B. destruct (code_size_eq st (target setup) Hk) as [L1 L2]. rewrite L1 in L2.
  apply s_gets. intros [st2 f2] [_ [(c & Hf2 & _) _ _ _ _ _ _]]. cbn [snd].
  eapply s_frame; [apply init_child_safe; [exact B | exact L2 | exact (Hp f2 (h_context _ _ _ _ _ _ _ Hf2))]|].
  intros [child|]; [apply s_ret; auto|exact (call_fails_safe pool)].
Qed.

Lemma prepared_weaken setup f : Prepared setup f -> Hold f0 T 0 0 1 0 f.
Proof. intros [(c & Hf & Cc) Ug _ _ _ _ _]. eapply hold_weaken; [exact Hf|destruct Ug; lia..]. Qed.

#[local] Abbreviation Entry := (Both (Listed (f0 := f0) (T := T) 0 0 0 (items (stack f0)))).
#[local] Abbreviation calm_args hv := (Bad (C := C) \/ forall args, args_of hv (items (stack f0)) = Some args -> args_calm args).

(** The context fields of the frame are those of [f0]. *)
Lemma context_params et stat (g : call_frame_t -> address_t) (h : call_frame_t -> address_t) (v : call_frame_t -> uint256_t) :
  (forall f, same_context f0 f -> wf_address (g f)) -> (forall f, same_context f0 f -> wf_address (h f)) ->
  (forall f, same_context f0 f -> wf256 (v f)) -> (forall f, is_static f = true -> stat f = true) ->
  forall f, same_context f0 f -> params_ok (ChildParams et (stat f) (g f) (h f) (v f)).
Proof.
  intros Hg Hh Hv Hs f Hf. split; [apply Hg, Hf|]. split; [apply Hh, Hf|]. split; [apply Hv, Hf|].
  intros S. apply Hs. destruct Hf as (_&_&_&->&_). exact S.
Qed.

Lemma context_address f : same_context f0 f -> wf_address (address f).
Proof. intros (_&_&_&_&_&->&_). apply (fo_address _ f0_ok). Qed.
Lemma context_caller f : same_context f0 f -> wf_address (caller f).
Proof. intros (_&_&_&_&->&_). apply (fo_caller _ f0_ok). Qed.
Lemma context_value f : same_context f0 f -> wf256 (value f).
Proof. intros (_&_&_&_&_&_&->&_). apply (fo_value _ f0_ok). Qed.

(** Prepare, then either the failure flag or [k]. *)
Lemma prepared_then pool hv new k : calm_args hv ->
  (forall setup, wf_address (target setup) -> wf256 (setup_value setup) ->
     (is_static f0 = true -> uint256_is_zero (setup_value setup) = true) ->
     triple (Both (Prepared setup)) (k setup) (CallPost pool) E C) ->
  triple Entry (bind (prepare hv new) (fun o => match o with None => call_fails | Some setup => k setup end)) (CallPost pool) E C.
Proof.
  intros Hb H. eapply triple_bind; [exact (prepare_safe hv new Hb)|]. intros [setup|]; [|exact (call_fails_safe pool)].
  intros s [Hk Hp]. apply (H setup); [apply Hp | apply Hp | apply Hp | split; assumption].
Qed.

Lemma op_staticcall_safe pool : calm_args false -> triple Entry (op_staticcall pool) (CallPost pool) E C.
Proof.
  intros Hb. apply prepared_then; [exact Hb|]. intros setup Wt Wv Hs. apply start_child_safe.
  apply (context_params EXEC_STATICCALL (fun _ => true) address (fun _ => target setup) (fun _ => uint256_zero)); auto using context_address, wf_zero.
Qed.

Lemma op_delegatecall_safe pool : calm_args false -> triple Entry (op_delegatecall pool) (CallPost pool) E C.
Proof.
  intros Hb. apply prepared_then; [exact Hb|]. intros setup Wt Wv Hs. apply start_child_safe.
  apply (context_params EXEC_DELEGATECALL is_static caller address value); auto using context_address, context_caller, context_value.
Qed.

Lemma fails_prepared pool setup : triple (Both (Prepared setup)) call_fails (CallPost pool) E C.
Proof. intros s [Hk Hp]. apply call_fails_safe. split; [exact Hk|exact (prepared_weaken _ _ Hp)]. Qed.

Lemma op_callcode_safe pool : calm_args true -> triple Entry (op_callcode pool) (CallPost pool) E C.
Proof.
  intros Hb. apply prepared_then; [exact Hb|]. intros setup Wt Wv Hs. apply s_gets. intros s1 _. cbv zeta.
  apply s_gets. intros s2 _. apply triple_if; intros _; [apply fails_prepared|]. apply start_child_safe.
  apply (context_params EXEC_CALLCODE is_static address address (fun _ => setup_value setup)); auto using context_address.
Qed.

Lemma op_call_safe pool : calm_args true -> triple Entry (op_call pool) (CallPost pool) E C.
Proof.
  intros Hb. apply prepared_then; [exact Hb|]. intros setup Wt Wv Hs. apply s_gets. intros s1 _. cbv zeta.
  apply s_gets. intros s2 _. apply triple_if; intros _; [apply fails_prepared|].
  eapply triple_bind with (Q := fun _ => Both (Prepared setup)).
  - apply triple_if; intros V; [|apply s_ret; auto].
    assert (S : is_static f0 = false).
    { destruct (is_static f0); [|reflexivity]. rewrite (Hs eq_refl) in V. discriminate. }
    apply s_state; [intros st Hk; eapply kept_write; [exact S | apply sub_balance_ok; [apply Hk|exact Wv] | exact Hk]|]. intros b1.
    apply s_state; [intros st Hk; eapply kept_write; [exact S | apply add_balance_ok; [apply Hk|exact Wv] | exact Hk]|]. intros b2.
    apply s_ret; auto.
  - intros _. apply start_child_safe.
    apply (context_params EXEC_CALL is_static address (fun _ => target setup) (fun _ => setup_value setup)); auto using context_address.
Qed.
End Calls.
