(* ===== verification/EvmSafe.v ===== *)
(** One instruction of the interpreter: every label of the dispatch table keeps
    the invariants, moves to the next instruction or to a jump destination,
    never gains gas, and faults only in the situations listed by [risky]. *)
From Stdlib Require Import ZArith Lia List Bool RelationClasses.
From S2P Require Import Prelude Uint256 Types Effects Arena Stack Memory Opcodes Gas StateAccess Frame.
From S2P Require Import OpsArith OpsData CallOps Evm FrameLogic OpsSafe StateSafe CallSafe.
Import ListNotations.
#[local] Open Scope Z_scope.
#[local] Open Scope word_scope.
#[local] Open Scope eff_scope.

(** * Situations in which an instruction can fault *)

Definition mem_op (op : Z) : bool :=
  existsb (Z.eqb op) [OP_MLOAD; OP_MSTORE; OP_MSTORE8; OP_KECCAK256; OP_CALLDATACOPY; OP_CODECOPY; OP_RETURNDATACOPY;
    OP_EXTCODECOPY; OP_LOG0; OP_LOG1; OP_LOG2; OP_LOG3; OP_LOG4; OP_RETURN; OP_REVERT].
Definition dup_op (op : Z) : bool := (OP_DUP1 <=? op) && (op <=? OP_DUP16).
Definition value_call (op : Z) : bool := (op =? OP_CALL) || (op =? OP_CALLCODE).
Definition plain_call (op : Z) : bool := (op =? OP_DELEGATECALL) || (op =? OP_STATICCALL).

Definition big_word (x : uint256_t) : bool := uint256_fits_u64 x && (2 ^ 62 <=? val x).
Definition wide (off size : uint256_t) : bool := negb (val size =? 0) && (65536 <? val off + val size).
Definition wide_args (o : option call_stack_args_t) : bool :=
  match o with
  | None => false
  | Some args => wide (arg_args_offset args) (arg_args_size args) || wide (arg_ret_offset args) (arg_ret_size args)
  end.

(** A memory opcode with a word between [2^62] and [2^64] on the stack, a DUP
    on a stack that fills its allocation, or a call with a memory range that
    ends above 64 KB. *)
Definition risky_op (op : Z) (s : evm_stack_t) : bool :=
  (mem_op op && existsb big_word (items s)) ||
  (dup_op op && (capacity s <=? top s)) ||
  (value_call op && wide_args (args_of true (items s))) ||
  (plain_call op && wide_args (args_of false (items s))).

Lemma dup_alone op : dup_op op = true -> mem_op op = false.
Proof.
  intros D. unfold dup_op, OP_DUP1, OP_DUP16 in D. apply not_true_iff_false. intros M. apply existsb_exists in M as (x & I & ->%Z.eqb_eq).
  repeat (destruct I as [<-|I]; [discriminate D|]). exact I.
Qed.

Definition current_op (f : call_frame_t) : Z := aget (code f) (Z.to_nat (pc f)).
Definition risky (f : call_frame_t) : bool := (pc f <? code_size f) && risky_op (current_op f) (stack f).

Lemma calm_words l : existsb big_word l = false -> Forall calm l.
Proof.
  intros H. apply Forall_forall. intros x Hx F. destruct (Z.lt_ge_cases (val x) (2 ^ 62)) as [L|L]; [exact L|].
  assert (existsb big_word l = true); [|congruence]. apply existsb_exists. exists x. split; [exact Hx|].
  unfold big_word. rewrite F, (proj2 (Z.leb_le _ _)) by exact L. reflexivity.
Qed.

Lemma calm_wide off size : wide off size = false -> fits (val off) (val size).
Proof.
  unfold wide, fits. destruct (Z.eqb_spec (val size) 0); [auto|]. cbn [negb andb]. intros H%Z.ltb_ge. auto.
Qed.

Lemma calm_wide_args o : wide_args o = false -> forall args, o = Some args -> args_calm args.
Proof. intros H args ->. cbn in H. apply orb_false_iff in H as [H1 H2]. split; apply calm_wide; assumption. Qed.

(** * Invariants *)

Record block_ok (b : block_context_t) : Prop := {
  bo_numbers : u64 (number b) /\ u64 (timestamp b) /\ u64 (gas_limit b) /\ u64 (chain_id b);
  bo_words : wf256 (base_fee b) /\ wf256 (blob_base_fee b) /\ wf256 (prev_randao b);
  bo_coinbase : wf_address (coinbase b);
  bo_hashes : forall get n h, get_block_hash b = Some get -> get n = Some h -> bytes_ok h }.

Record tx_ok (t : tx_context_t) : Prop := {
  to_origin : wf_address (origin t);
  to_price : wf256 (gas_price t);
  to_blobs : Forall bytes_ok (blob_hashes t) }.

(** The bitmap a frame carries is the one of its code. *)
Definition bitmap_ok (f : call_frame_t) : Prop :=
  forall b, jumpdest_bitmap f = Some b -> jumpdest_compute_bitmap (code f) = Some b.

Record frame_inv (f : call_frame_t) : Prop := {
  fi_ok : frame_ok f;
  fi_hash : code_hash f = hash_zero;
  fi_bitmap : bitmap_ok f;
  fi_instr : instr_start (code f) (Z.to_nat (pc f)) }.

Section Instructions.
Context {St : Type} {SA : StateAccess St} {SL : StateLaws St}.
Variable keccak256 : list Z -> hash_t.
Hypothesis keccak_wf : forall bs, bytes_ok bs -> wf_hash (keccak256 bs).
Context {C : fault -> Prop}.
#[local] Abbreviation evm_t := (evm_t St).
#[local] Abbreviation label := (@label St).
#[local] Abbreviation Bad := (Bad (C := C)).

Record evm_ok (e : evm_t) : Prop := {
  eo_table : gas_table e = gas_table_init_shanghai;
  eo_schedule : gas_schedule e = gas_schedule_shanghai;
  eo_block : block_ok (block e);
  eo_tx : tx_ok (tx e);
  eo_return : bytes_ok (return_data e) /\ Z.of_nat (length (return_data e)) <= 65536;
  eo_state : forall st, state e = Some st -> state_ok st;
  eo_refund : u64 (gas_refund e) }.

(** What no instruction changes, and what a static frame does not change. *)
Record evm_next (static : bool) (e e' : evm_t) : Prop := {
  en_table : gas_table e' = gas_table e;
  en_schedule : gas_schedule e' = gas_schedule e;
  en_block : block e' = block e;
  en_tx : tx e' = tx e;
  en_return : return_data e' = return_data e;
  en_capacity : return_data_capacity e' = return_data_capacity e;
  en_state : match state e, state e' with
             | Some s, Some s' => state_ok s' /\ (static = true -> world_eq s s')
             | None, None => True
             | _, _ => False
             end;
  en_static : static = true -> logs e' = logs e /\ gas_refund e' = gas_refund e;
  en_refund : u64 (gas_refund e) -> u64 (gas_refund e') }.

Definition same_pool (e e' : evm_t) : Prop := pool_depth e' = pool_depth e /\ pending_frame e' = pending_frame e.

Lemma evm_next_refl static e : evm_ok e -> evm_next static e e.
Proof. intros H. split; auto. pose proof (eo_state e H). destruct (state e); [split; [auto|reflexivity]|exact I]. Qed.

Lemma evm_next_ok static e e' : evm_ok e -> evm_next static e e' -> evm_ok e'.
Proof.
  intros [] []. split; try congruence; auto. intros st Hs. rewrite Hs in *. destruct (state e); [tauto|contradiction].
Qed.

Lemma evm_next_trans static e e' e'' : evm_next static e e' -> evm_next static e' e'' -> evm_next static e e''.
Proof.
  intros [] []. split; try congruence.
  - destruct (state e), (state e'), (state e''); try contradiction; auto. destruct en_state0, en_state1.
    split; [auto|]. intros S. etransitivity; eauto.
  - intros S. destruct (en_static0 S), (en_static1 S). split; congruence.
  - auto.
Qed.

(** * Specification of a label *)

(** The frame [f] (its program counter already past the opcode) went on at
    [x], having paid at least [c]. *)
Definition moved (f : call_frame_t) (x c : Z) (f' : call_frame_t) : Prop :=
  exists b, bitmap_ok (set_bitmap f b) /\ Final (set_pc (set_bitmap f b) x) c f'.

Definition Next (op : Z) (f f' : call_frame_t) : Prop :=
  moved f (pc f + push_data_size op) 0 f' \/
  exists dest, 0 <= dest /\ valid_dest (code f) (Z.to_nat dest) /\ moved f dest 8 f'.

Definition Result (op : Z) (e : evm_t) (f : call_frame_t) (e' : evm_t) (f' : call_frame_t) (r : frame_result_t) : Prop :=
  match action r with
  | FRAME_STOP | FRAME_RETURN | FRAME_REVERT =>
      same_pool e e' /\ Final f 0 f' /\ u64 (return_offset r) /\ u64 (return_size r) /\
      (covered (return_offset r) (return_size r) (evm_memory_size (memory f')) \/ Bad)
  | FRAME_CALL =>
      push_data_size op = 0 /\ exists child, pool_depth e' = pool_depth e + 1 /\ pending_frame e' = Some child /\
        pool_depth e < EVM_MAX_CALL_DEPTH /\ Started (f0 := f) (C := C) child f'
  | FRAME_CREATE | FRAME_ERROR => False
  end.

(** When an instruction is covered: faults are allowed, or it is not risky, or
    it is a DUP and only its fault is allowed. *)
Definition covers (op : Z) (s : evm_stack_t) : Prop := Bad \/ risky_op op s = false \/ dup_op op = true /\ C OutOfBounds.

Record entry (op : Z) (e : evm_t) (f : call_frame_t) : Prop := {
  ent_evm : evm_ok e;
  ent_ok : frame_ok f;
  ent_hash : code_hash f = hash_zero;
  ent_bitmap : bitmap_ok f;
  ent_pc : 1 <= pc f <= code_size f;
  ent_calm : covers op (stack f) }.

Definition label_spec (op : Z) (l : label) : Prop := forall e f, entry op e f ->
  match l (e, f) with
  | Ret (e', f') None => evm_next (is_static f) e e' /\ same_pool e e' /\ Next op f f'
  | Ret (e', f') (Some r) => evm_next (is_static f) e e' /\ Result op e f e' f' r
  | Err (e', f') _ => evm_next (is_static f) e e' /\ same_pool e e' /\ AtDepth f f'
  | Crash x => C x
  end.

(** ** Labels made of a handler of the frame *)

Lemma final_moved f c f' : bitmap_ok f -> 0 <= c -> Final f c f' -> moved f (pc f) 0 f'.
Proof.
  intros Hb Hc Hf. exists (jumpdest_bitmap f). destruct f; cbn in *. split; [exact Hb|]. eapply hold_weaken; [exact Hf|lia..].
Qed.

Lemma final_next op f c f' : push_data_size op = 0 -> bitmap_ok f -> 0 <= c -> Final f c f' -> Next op f f'.
Proof. intros P Hb Hc Hf. left. rewrite P, Z.add_0_r. eapply final_moved; eauto. Qed.

(** A handler of the frame that needs no condition on the words, and one
    that uses memory. *)
Definition plain_handler (m : evm_t -> FM unit) : Prop := forall e f, evm_ok e -> frame_ok f -> 1 <= pc f <= code_size f ->
  exists c, 0 <= c /\ triple (Hold f anything 0 0 0 0) (m e) (fun _ => Final f c) (AtDepth f) C.

Definition memory_handler (m : evm_t -> FM unit) : Prop := forall e f T, evm_ok e -> frame_ok f ->
  (Bad \/ forall x, T x -> calm x) ->
  exists c, 0 <= c /\ triple (Hold f T 0 0 0 0) (m e) (fun _ => Final f c) (AtDepth f) C.

Lemma frame_label op (m : evm_t -> FM unit) e f T c : entry op e f -> push_data_size op = 0 -> 0 <= c -> Forall T (items (stack f)) ->
  triple (Hold f T 0 0 0 0) (m e) (fun _ => Final f c) (AtDepth f) C ->
  match next (in_frame m) (e, f) with
  | Ret (e', f') None => evm_next (is_static f) e e' /\ same_pool e e' /\ Next op f f'
  | Ret (e', f') (Some r) => evm_next (is_static f) e e' /\ Result op e f e' f' r
  | Err (e', f') _ => evm_next (is_static f) e e' /\ same_pool e e' /\ AtDepth f f'
  | Crash x => C x
  end.
Proof.
  intros [He Hf _ Hb _ _] P Hc HT H. specialize (H f (hold_start f T Hf HT)). unfold next, bind, in_frame, zoom; cbn [fst snd].
  pose proof (evm_next_refl (is_static f) e He). destruct (m e f) as [f' u|f' er|x]; cbn; auto.
  - split; [assumption|split; [split; reflexivity|]]. eapply final_next; eauto.
  - split; [assumption|split; [split; reflexivity | exact H]].
Qed.

Lemma plain_label op m : push_data_size op = 0 -> plain_handler m -> label_spec op (next (in_frame m)).
Proof.
  intros P H e f En. destruct (H e f (ent_evm _ _ _ En) (ent_ok _ _ _ En) (ent_pc _ _ _ En)) as (c & Hc & K).
  eapply frame_label; eauto. apply Forall_forall. intros; exact I.
Qed.

Lemma pick_words op s : mem_op op = true -> covers op s ->
  exists T, Forall T (items s) /\ (Bad \/ forall x, T x -> calm x).
Proof.
  intros M [B|[R|[D _]]]; [| |rewrite (dup_alone op D) in M; discriminate].
  - exists anything. split; [apply Forall_forall; intros; exact I|auto].
  - exists calm. split; [|auto]. unfold risky_op in R. rewrite M in R. cbn [andb] in R.
    apply orb_false_iff in R as [R _]. apply orb_false_iff in R as [R _]. apply orb_false_iff in R as [R _]. exact (calm_words _ R).
Qed.

Lemma memory_label op m : push_data_size op = 0 -> mem_op op = true -> memory_handler m -> label_spec op (next (in_frame m)).
Proof.
  intros P M H e f En. destruct (pick_words op (stack f) M (ent_calm _ _ _ En)) as (T & HT & HC).
  destruct (H e f T (ent_evm _ _ _ En) (ent_ok _ _ _ En) HC) as (c & Hc & K). eapply frame_label; eauto.
Qed.

Lemma table_cost e op : evm_ok e -> 0 <= gas_of (gas_table e) op.
Proof. intros H. rewrite (eo_table e H). apply gas_table_bound. Qed.

(** ** Labels made of a handler of the state *)

Lemma state_result {A} un (m : evm_t -> SM A) e f (Q : A -> call_frame_t -> Prop) (P : St -> St * call_frame_t -> Prop) :
  evm_ok e ->
  (forall st, state e = Some st -> P st (st, f) /\
     triple (P st) (m e) (fun a => Both (f0 := f) (st0 := st) (Q a)) (Both (f0 := f) (st0 := st) (AtDepth f)) C) ->
  match in_state un m (e, f) with
  | Ret (e', f') a => evm_next (is_static f) e e' /\ same_pool e e' /\ Q a f'
  | Err (e', f') _ => evm_next (is_static f) e e' /\ same_pool e e' /\ AtDepth f f'
  | Crash x => C x
  end.
Proof.
  intros He H. unfold in_state; cbn [fst snd]. destruct (state e) as [st|] eqn:S; cbn.
  2:{ split; [apply evm_next_refl, He | split; [split; reflexivity | reflexivity]]. }
  destruct (H st eq_refl) as [H0 H1]. specialize (H1 _ H0).
  assert (N : forall st', Kept (f0 := f) (st0 := st) st' -> evm_next (is_static f) e (set_state e (Some st'))).
  { intros st' [K1 K2]. split; cbn; auto. rewrite S. auto. }
  destruct (m e (st, f)) as [[st' f'] a|[st' f'] er|x].
  - destruct H1 as [K Hq]. split; [apply N, K | split; [split; reflexivity | exact Hq]].
  - split; [apply N, H1 | split; [split; reflexivity | apply H1]].
  - exact H1.
Qed.

Lemma kept_start f st : state_ok st -> Kept (f0 := f) (st0 := st) st.
Proof. intros H. split; [exact H|reflexivity]. Qed.

Definition state_handler (T : uint256_t -> Prop) (m : evm_t -> SM unit) : Prop := forall e f st0, evm_ok e -> frame_ok f ->
  triple (Both (f0 := f) (st0 := st0) (Hold f T 0 0 0 0)) (m e) (fun _ => Both (f0 := f) (st0 := st0) (Final f 0))
    (Both (f0 := f) (st0 := st0) (AtDepth f)) C.

Lemma state_label_T op un m e f T : push_data_size op = 0 -> entry op e f -> Forall T (items (stack f)) -> state_handler T m ->
  match next (in_state un m) (e, f) with
  | Ret (e', f') None => evm_next (is_static f) e e' /\ same_pool e e' /\ Next op f f'
  | Ret (e', f') (Some r) => evm_next (is_static f) e e' /\ Result op e f e' f' r
  | Err (e', f') _ => evm_next (is_static f) e e' /\ same_pool e e' /\ AtDepth f f'
  | Crash x => C x
  end.
Proof.
  intros P [He Hf _ Hb _ _] HT H.
  pose proof (state_result un m e f (fun _ => Final f 0) (fun st => Both (f0 := f) (st0 := st) (Hold f T 0 0 0 0)) He) as R.
  unfold next, bind. destruct (in_state un m (e, f)) as [[e' f'] u|[e' f'] er|x]; cbn.
  - destruct R as (R1 & R2 & R3).
    { intros st S. split; [split; [apply kept_start, (eo_state e He st S) | apply hold_start; assumption] | apply H; assumption]. }
    split; [exact R1|split; [exact R2|]]. eapply final_next; eauto. lia.
  - apply R. intros st S. split; [split; [apply kept_start, (eo_state e He st S) | apply hold_start; assumption] | apply H; assumption].
  - apply R. intros st S. split; [split; [apply kept_start, (eo_state e He st S) | apply hold_start; assumption] | apply H; assumption].
Qed.

Lemma state_label op un m : push_data_size op = 0 -> state_handler anything m -> label_spec op (next (in_state un m)).
Proof. intros P H e f En. apply (state_label_T op un m e f anything P En); [apply Forall_forall; intros; exact I | exact H]. Qed.

Lemma memory_state_label op un m : push_data_size op = 0 -> mem_op op = true ->
  (forall T, (Bad \/ forall x, T x -> calm x) -> state_handler T m) -> label_spec op (next (in_state un m)).
Proof.
  intros P M H e f En. destruct (pick_words op (stack f) M (ent_calm _ _ _ En)) as (T & HT & HC).
  apply (state_label_T op un m e f T P En HT). exact (H T HC).
Qed.

(** ** The remaining labels, one by one *)

Lemma stop_label : label_spec OP_STOP (ret (Some frame_result_stop)).
Proof.
  intros e f [He Hf _ _ _ _]. split; [apply evm_next_refl, He|]. split; [split; reflexivity|].
  split; [eapply hold_start; [exact Hf|apply Forall_forall; intros; exact I]|]. cbn. split; [apply u64_0|split; [apply u64_0|]]. left; left; reflexivity.
Qed.

Lemma return_label op mk : mem_op op = true ->
  (forall off size, action (mk off size) = FRAME_RETURN \/ action (mk off size) = FRAME_REVERT) ->
  (forall off size, return_offset (mk off size) = off /\ return_size (mk off size) = size) ->
  label_spec op (r <- in_frame (fun _ => op_return_range) ;; ret (Some (mk (fst r) (snd r)))).
Proof.
  intros M Ha Hr e f En. destruct (pick_words op (stack f) M (ent_calm _ _ _ En)) as (T & HT & HC).
  destruct En as [He Hf _ _ _ _]. pose proof (return_range_safe HC f (hold_start f T Hf HT)) as K.
  unfold bind, in_frame, zoom; cbn [fst snd]. pose proof (evm_next_refl (is_static f) e He).
  destruct (op_return_range f) as [f' [off size]|f' er|x]; cbn; [|split; [assumption|split; [split; reflexivity|exact K]]|exact K].
  split; [assumption|]. unfold Result. destruct K as (K1 & K2 & K3 & K4). cbn [fst snd] in *. destruct (Hr off size) as [-> ->].
  unfold covered. destruct (Ha off size) as [-> | ->]; (split; [split; reflexivity|]); tauto.
Qed.

Lemma push_n_label n : (1 <= n <= 32)%nat ->
  label_spec (OP_PUSH0 + Z.of_nat n) (simple (op_push_n (Z.of_nat n)) (OP_PUSH0 + Z.of_nat n)).
Proof.
  intros Hn e f En. destruct En as [He Hf _ Hb Hp _]. unfold simple, next, bind, in_frame, zoom; cbn [fst snd].
  pose proof (push_n_safe (C := C) (T := anything) Hf (Z.of_nat n) (gas_of (gas_table e) (OP_PUSH0 + Z.of_nat n)) ltac:(lia) (table_cost _ _ He) ltac:(lia) f) as K.
  specialize (K (hold_start f anything Hf (proj2 (Forall_forall _ _) (fun _ _ => I)))).
  pose proof (evm_next_refl (is_static f) e He). pose proof (table_cost e (OP_PUSH0 + Z.of_nat n) He).
  assert (P : push_data_size (OP_PUSH0 + Z.of_nat n) = Z.of_nat n).
  { unfold push_data_size, OP_PUSH0, OP_PUSH1, OP_PUSH32. rewrite !(proj2 (Z.leb_le _ _)) by lia. cbn [andb]. lia. }
  destruct (op_push_n _ _ f) as [f' u|f' er|x]; cbn [ret fst snd]; [|split; [assumption|split; [split; reflexivity|exact K]]|exact K].
  split; [assumption|split; [split; reflexivity|]]. left. rewrite P. exists (jumpdest_bitmap f).
  assert (set_bitmap f (jumpdest_bitmap f) = f) as -> by (destruct f; reflexivity).
  split; [exact Hb|]. eapply hold_weaken; [exact K|lia..].
Qed.

Lemma dup_label n : (1 <= n <= 16)%nat -> label_spec (OP_DUP1 + Z.of_nat n - 1) (simple (op_dup n) (OP_DUP1 + Z.of_nat n - 1)).
Proof.
  intros Hn e f En. destruct En as [He Hf _ Hb Hp Hr]. unfold simple, next, bind, in_frame, zoom; cbn [fst snd].
  set (op := OP_DUP1 + Z.of_nat n - 1) in *. assert (D : dup_op op = true).
  { unfold dup_op, op, OP_DUP1, OP_DUP16. rewrite !(proj2 (Z.leb_le _ _)) by lia. reflexivity. }
  assert (Hs : top (stack f) < capacity (stack f) \/ C OutOfBounds).
  { destruct Hr as [[B _]|[R|[_ B]]]; [right; exact B | left | right; exact B]. unfold risky_op in R. rewrite D in R. cbn [andb] in R.
    apply orb_false_iff in R as [R _]. apply orb_false_iff in R as [R _]. apply orb_false_iff in R as [_ R%Z.leb_gt]. exact R. }
  pose proof (dup_safe (C := C) (T := anything) (f0 := f) n (gas_of (gas_table e) op) ltac:(lia) (table_cost _ _ He) Hs f) as K.
  specialize (K (conj (hold_start f anything Hf (proj2 (Forall_forall _ _) (fun _ _ => I))) eq_refl)).
  pose proof (evm_next_refl (is_static f) e He). pose proof (table_cost e op He).
  assert (P : push_data_size op = 0).
  { unfold push_data_size, op, OP_PUSH1, OP_PUSH32, OP_DUP1. rewrite (proj2 (Z.leb_gt _ 127)) by lia. rewrite andb_false_r. reflexivity. }
  destruct (op_dup _ _ f) as [f' u|f' er|x]; cbn [ret fst snd]; [|split; [assumption|split; [split; reflexivity|exact K]]|exact K].
  split; [assumption|split; [split; reflexivity|]]. eapply final_next; eauto.
Qed.

(** *** Jumps *)

Lemma get_bitmap_spec e f : code_hash f = hash_zero -> bitmap_ok f -> 1 <= pc f <= code_size f ->
  exists b, get_jumpdest_bitmap (e, f) = Ret (e, set_bitmap f b) b /\ bitmap_ok (set_bitmap f b).
Proof.
  intros Hh Hb Hp. unfold get_jumpdest_bitmap. destruct (jumpdest_bitmap f) as [b|] eqn:B.
  - exists (Some b). rewrite <- B. destruct f; cbn in *. subst. auto.
  - rewrite Hh. change (negb (hash_is_zero hash_zero)) with false. exists (jumpdest_compute_bitmap (code f)). split.
    + destruct (state e), get_jumpdest_analysis, (jumpdest_compute_bitmap (code f)), set_jumpdest_analysis; reflexivity.
    + intros b. cbn [jumpdest_bitmap set_bitmap code]. auto.
Qed.

(** A jump keeps the invariants and lands on a destination of the code. *)
Lemma landed_next op f b c f' : 8 <= c -> bitmap_ok (set_bitmap f (Some b)) -> landed (f0 := set_bitmap f (Some b)) b c f' -> Next op f f'.
Proof.
  intros Hc Hb (dest & Hd & V & Hf). right. exists dest. split; [lia|]. split.
  - apply (jumpdest_valid_iff (code f) b dest); [exact (Hb b eq_refl) | lia | exact V].
  - exists (Some b). split; [exact Hb|]. eapply hold_weaken; [exact Hf|lia..].
Qed.

Lemma set_bitmap_ok f b : frame_ok f -> frame_ok (set_bitmap f b).
Proof. intros []; split; auto. Qed.

Lemma jump_labels op (h : list Z -> Z -> FM unit) : push_data_size op = 0 -> 8 <= gas_of gas_table_init_shanghai op ->
  (forall f b cost, frame_ok f -> 0 <= cost -> triple (Hold f anything 0 0 0 0) (h b cost)
     (fun _ f' => Final f cost f' \/ landed (f0 := f) b cost f') (AtDepth f) C) ->
  label_spec op (jump_label h op).
Proof.
  intros P G H e f [He Hf Hh Hb Hp _]. unfold jump_label, bind at 1. destruct (get_bitmap_spec e f Hh Hb Hp) as (b & -> & Hb').
  pose proof (evm_next_refl (is_static f) e He) as N. destruct b as [b|]; [|split; [exact N|split; [split; reflexivity|reflexivity]]].
  unfold simple, next, bind, in_frame, zoom; cbn [fst snd]. rewrite (eo_table e He).
  pose proof (H (set_bitmap f (Some b)) b (gas_of gas_table_init_shanghai op) (set_bitmap_ok f _ Hf) ltac:(lia)) as K.
  specialize (K _ (hold_start _ anything (set_bitmap_ok f _ Hf) (proj2 (Forall_forall _ _) (fun _ _ => I)))).
  destruct (h b _ _) as [f' u|f' er|x]; cbn [ret fst snd]; [|split; [exact N|split; [split; reflexivity|exact K]]|exact K].
  split; [exact N|split; [split; reflexivity|]]. destruct K as [K|K]; [|eapply landed_next; eauto].
  left. rewrite P, Z.add_0_r. exists (Some b). split; [exact Hb'|].
  assert (set_pc (set_bitmap f (Some b)) (pc f) = set_bitmap f (Some b)) as -> by (destruct f; reflexivity).
  eapply hold_weaken; [exact K|lia..].
Qed.

(** *** SSTORE, LOG and the calls *)

Lemma sstore_label_spec : label_spec OP_SSTORE sstore_label.
Proof.
  intros e f [He Hf _ Hb _ _]. unfold sstore_label, bind at 1.
  pose proof (state_result EVM_INVALID_OPCODE (fun e => op_sstore (gas_schedule e) (gas_refund e)) e f
    (fun r f' => Final f 0 f' /\ is_static f = false /\ u64 r) (fun st => Both (f0 := f) (st0 := st) (Hold f anything 0 0 0 0)) He) as R.
  assert (R' : match in_state EVM_INVALID_OPCODE (fun e => op_sstore (gas_schedule e) (gas_refund e)) (e, f) with
    | Ret (e', f') a => evm_next (is_static f) e e' /\ same_pool e e' /\ (Final f 0 f' /\ is_static f = false /\ u64 a)
    | Err (e', f') _ => evm_next (is_static f) e e' /\ same_pool e e' /\ AtDepth f f' | Crash x => C x end).
  { apply R. intros st S. split.
    - split; [apply kept_start, (eo_state e He st S) | apply hold_start; [exact Hf|apply Forall_forall; intros; exact I]].
    - rewrite (eo_schedule e He). intros s Hs. pose proof (sstore_safe (C := C) (gas_refund e) s Hs) as K.
      destruct (op_sstore _ _ s); auto. destruct K as [[K1 K2] K3]. split; auto. }
  clear R. destruct (in_state _ _ (e, f)) as [[e' f'] r|[e' f'] er|x]; [|exact R'|exact R'].
  destruct R' as (R1 & R2 & R3 & R4 & R5). cbn. split; [|split; [exact R2|eapply final_next; eauto; lia]].
  destruct R1. split; auto. rewrite R4. discriminate.
Qed.

Lemma log_label_spec n : (n < 5)%nat -> label_spec (OP_LOG0 + Z.of_nat n) (log_label n).
Proof.
  intros Hn e f En. assert (M : mem_op (OP_LOG0 + Z.of_nat n) = true /\ push_data_size (OP_LOG0 + Z.of_nat n) = 0).
  { do 5 (destruct n as [|n]; [split; reflexivity|]). lia. }
  destruct M as [M P]. destruct (pick_words _ (stack f) M (ent_calm _ _ _ En)) as (T & HT & HC). destruct En as [He Hf _ Hb _ _].
  pose proof (log_n_safe HC (logs e) n f (hold_start f T Hf HT)) as K. unfold log_label, bind, in_frame, zoom; cbn [fst snd].
  pose proof (evm_next_refl (is_static f) e He) as N.
  destruct (op_log_n _ _ f) as [f' l|f' er|x]; cbn [ret fst snd on_evm modify]; [|split; [exact N|split; [split; reflexivity|exact K]]|exact K].
  destruct K as [K S]. split; [|split; [split; reflexivity|eapply final_next; eauto; lia]].
  destruct N. split; auto. rewrite S. discriminate.
Qed.

Lemma call_label_spec op (h : Z -> SM (option call_frame_t)) : push_data_size op = 0 ->
  (forall f st0 pool, frame_ok f -> covers op (stack f) ->
     triple (Both (f0 := f) (st0 := st0) (Listed (f0 := f) (T := anything) 0 0 0 (items (stack f)))) (h pool)
       (CallPost (f0 := f) (C := C) (st0 := st0) pool) (Both (f0 := f) (st0 := st0) (AtDepth f)) C) ->
  label_spec op (call_label h).
Proof.
  intros P H e f [He Hf _ Hb _ Hr]. unfold call_label, bind at 1.
  pose proof (state_result EVM_INVALID_OPCODE (fun e => h (pool_depth e)) e f
    (fun o f' => match o with None => Final f 0 f' | Some child => Started (f0 := f) (C := C) child f' /\ pool_depth e < EVM_MAX_CALL_DEPTH end)
    (fun st => Both (f0 := f) (st0 := st) (Listed (f0 := f) (T := anything) 0 0 0 (items (stack f)))) He) as R.
  lapply R; clear R; [intros R|].
  2:{ intros st S. split.
      - split; [apply kept_start, (eo_state e He st S) | split; [apply hold_start; [exact Hf|apply Forall_forall; intros; exact I]|reflexivity]].
      - intros s Hs. pose proof (H f st (pool_depth e) Hf Hr s Hs) as K. destruct (h _ s) as [s' o|s' er|x]; auto.
        destruct K as [K1 K2]. split; [exact K1|]. destruct o; exact K2. }
  destruct (in_state _ _ (e, f)) as [[e' f'] [child|]|[e' f'] er|x]; [| |exact R|exact R]; destruct R as (R1 & R2 & R3); cbn.
  - split; [destruct R1; split; auto|]. split; [exact P|]. exists child. cbn. destruct R2 as [-> _]. destruct R3. auto.
  - split; [exact R1|split; [exact R2|eapply final_next; eauto; lia]].
Qed.

(** ** The whole table *)

#[local] Abbreviation pure_ok f m c := (triple (Hold f anything 0 0 0 0) m (fun _ => Final f c) (AtDepth f) C).

Lemma with_evm_plain op h : push_data_size op = 0 ->
  (forall e f cost, evm_ok e -> frame_ok f -> 0 <= cost -> pure_ok f (h e cost) cost) -> label_spec op (with_evm h op).
Proof.
  intros P H. apply plain_label; [exact P|]. intros e f He Hf _. exists (gas_of (gas_table e) op). split; [apply table_cost, He|].
  apply H; auto. apply table_cost, He.
Qed.

Lemma simple_plain op h : push_data_size op = 0 ->
  (forall f cost, frame_ok f -> 0 <= cost -> pure_ok f (h cost) cost) -> label_spec op (simple h op).
Proof. intros P H. apply (with_evm_plain op (fun _ => h)); auto. Qed.

Lemma simple_memory op h : push_data_size op = 0 -> mem_op op = true ->
  (forall f T cost, frame_ok f -> (Bad \/ forall x, T x -> calm x) -> 0 <= cost ->
     triple (Hold f T 0 0 0 0) (h cost) (fun _ => Final f 0) (AtDepth f) C) -> label_spec op (simple h op).
Proof.
  intros P M H. apply memory_label; auto. intros e f T He Hf HT. exists 0. split; [lia|]. apply H; auto. apply table_cost, He.
Qed.

Lemma hold_context f T c n m sz f' : Hold f T c n m sz f' -> frame_ok f -> wf_address (address f') /\ wf_address (caller f') /\
  wf256 (value f') /\ u64 (input_size f') /\ u64 (code_size f') /\ bytes_ok (input f') /\ bytes_ok (code f').
Proof.
  intros H F. destruct (h_context _ _ _ _ _ _ _ H) as (E1&_&_&_&E2&E3&E4&E5&_). unfold input_size, code_size. rewrite E1, E2, E3, E4, E5.
  destruct F as [_ _ _ _ [? L] [? ?] ? ? ?]. unfold code_size in L. assert (u64 (Z.of_nat (length (code f)))) by (unfold u64; lia). auto 10.
Qed.

(** Values the context opcodes push. *)
Lemma block_hash_wf b x : block_ok b -> wf256 (block_hash_of b x).
Proof.
  intros H. unfold block_hash_of. repeat match goal with |- context [if ?c then _ else _] => destruct c end; auto with words.
  destruct (get_block_hash b) as [get|] eqn:G; auto with words. destruct (get _) as [h|] eqn:E; auto with words.
  apply wf_from_bytes, (bo_hashes b H get _ h G E).
Qed.

Lemma blob_hash_wf t x : tx_ok t -> wf256 (blob_hash_of t x).
Proof.
  intros H. unfold blob_hash_of. destruct (uint256_fits_u64 x); auto with words. destruct (Z.ltb_spec (uint256_to_u64_unsafe x) (Z.of_nat (length (blob_hashes t)))); auto with words.
  apply wf_from_bytes. pose proof (to_blobs t H) as B. rewrite Forall_forall in B.
  destruct (nth_in_or_default (Z.to_nat (uint256_to_u64_unsafe x)) (blob_hashes t) hash_zero) as [I| ->]; [apply B, I|].
  apply Forall_forall. intros y Hy. apply repeat_spec in Hy as ->. split; reflexivity || lia.
Qed.

Ltac op_ := first
  [ apply simple_plain; [reflexivity|]; intros f cost Hf Hc;
    first [ apply binary_safe; auto with words | apply ternary_safe; auto with words | apply unary_safe; auto with words
          | apply push0_safe | apply jumpdest_safe | apply op_pop_safe | apply calldataload_safe ]; solve [auto]
  | apply simple_plain; [reflexivity|]; intros f cost Hf Hc; apply push_op_safe; [exact Hc|]; intros c n m sz f' Hf';
    destruct (hold_context _ _ _ _ _ _ _ Hf' Hf) as (?&?&?&?&?&?&?); solve [auto with words]
  | apply with_evm_plain; [reflexivity|]; intros e f cost He Hf Hc; apply push_op_safe; [exact Hc|]; intros c n m sz f' Hf';
    destruct (eo_block e He) as [(?&?&?&?) (?&?&?) ? ?]; destruct (eo_tx e He); solve [auto with words] ].

(** The labels [op_] does not cover. *)
Lemma add_label : label_spec OP_ADD (next (in_frame (fun _ => op_add))).
Proof. apply plain_label; [reflexivity|]. intros e f He Hf _. exists 0. split; [lia|]. unfold op_add. repeat step. Qed.

Lemma exp_label : label_spec OP_EXP (next (in_frame (fun _ => op_exp))).
Proof. apply plain_label; [reflexivity|]. intros e f He Hf _. exists 0. split; [lia|]. apply exp_safe. Qed.

Lemma pc_label : label_spec OP_PC (next (in_frame (fun e f => op_pc (pc f -64 1) (gas_of (gas_table e) OP_PC) f))).
Proof.
  apply plain_label; [reflexivity|]. intros e f He Hf Hp. exists (gas_of (gas_table e) OP_PC). split; [apply table_cost, He|].
  intros g Hg. refine (push_op_safe (f0 := f) (fun _ => uint256_from_u64 (pc g -64 1)) _ (table_cost e OP_PC He) _ g Hg).
  intros. apply wf_from_u64, w64_range.
Qed.

Lemma msize_label : label_spec OP_MSIZE (simple op_msize OP_MSIZE).
Proof.
  apply simple_plain; [reflexivity|]. intros f cost Hf Hc. apply push_op_safe; [exact Hc|]. intros c n m sz f' Hf'.
  apply wf_from_u64. pose proof (mem_size_bound _ (h_memory _ _ _ _ _ _ _ Hf')). unfold u64. lia.
Qed.

Lemma gas_label : label_spec OP_GAS (simple op_gas OP_GAS).
Proof.
  apply simple_plain; [reflexivity|]. intros f cost Hf Hc. apply push_op_safe; [exact Hc|]. intros c n m sz f' Hf'.
  apply wf_from_u64. pose proof (h_gas _ _ _ _ _ _ _ Hf'). pose proof (h_gas64 _ _ _ _ _ _ _ Hf'). unfold u64. lia.
Qed.

Lemma returndatasize_label : label_spec OP_RETURNDATASIZE (with_evm op_returndatasize OP_RETURNDATASIZE).
Proof.
  apply with_evm_plain; [reflexivity|]. intros e f cost He Hf Hc. apply push_op_safe; [exact Hc|]. intros.
  apply wf_from_u64. destruct (eo_return e He). unfold u64. lia.
Qed.

Lemma returndatacopy_label :
  label_spec OP_RETURNDATACOPY (with_evm (fun e cost => op_returndatacopy cost (return_data e)) OP_RETURNDATACOPY).
Proof.
  apply memory_label; try reflexivity. intros e f T He Hf HT. exists 0. split; [lia|].
  apply returndatacopy_safe; [exact HT | apply table_cost, He | apply (eo_return e He)].
Qed.

Lemma hash_label op (h : evm_t -> uint256_t -> uint256_t) : push_data_size op = 0 ->
  (forall e x, evm_ok e -> wf256 (h e x)) -> label_spec op (with_evm (fun e => unary_op (h e)) op).
Proof. intros P H. apply with_evm_plain; [exact P|]. intros e f cost He Hf Hc. apply unary_safe; auto. Qed.

Lemma swap_label n : (1 <= n <= 16)%nat -> label_spec (OP_SWAP1 + Z.of_nat n - 1) (simple (op_swap n) (OP_SWAP1 + Z.of_nat n - 1)).
Proof.
  intros Hn. apply simple_plain; [do 17 (destruct n as [|n]; [first [lia|reflexivity]|]); lia|]. intros f cost Hf Hc. apply swap_safe, Hc.
Qed.

Lemma copy_label op source : push_data_size op = 0 -> mem_op op = true ->
  (forall f f', frame_ok f -> same_context f f' -> bytes_ok (source f')) -> label_spec op (simple (copy_op source) op).
Proof.
  intros P M H. apply simple_memory; auto. intros f T cost Hf HT Hc. apply copy_op_safe; auto.
  intros c n m sz f' Hf'. exact (H f f' Hf (h_context _ _ _ _ _ _ _ Hf')).
Qed.

Lemma account_label op query : push_data_size op = 0 -> (forall st a, state_ok st -> wf256 (query st a)) ->
  label_spec op (with_state (account_op query)).
Proof. intros P H. apply state_label; [exact P|]. intros e f st0 He Hf. apply account_op_safe; auto. Qed.

Lemma call_labels op hv h : push_data_size op = 0 -> dup_op op = false ->
  (forall s, risky_op op s = false -> wide_args (args_of hv (items s)) = false) ->
  (forall f st0, frame_ok f -> (Bad \/ forall args, args_of hv (items (stack f)) = Some args -> args_calm args) -> forall pool,
     triple (Both (f0 := f) (st0 := st0) (Listed (f0 := f) (T := anything) 0 0 0 (items (stack f)))) (h pool)
       (CallPost (f0 := f) (C := C) (st0 := st0) pool) (Both (f0 := f) (st0 := st0) (AtDepth f)) C) ->
  label_spec op (call_label h).
Proof.
  intros P N W H. apply call_label_spec; [exact P|]. intros f st0 pool Hf Hr. apply H; [exact Hf|].
  destruct Hr as [B|[R|[D _]]]; [left; exact B | right; apply calm_wide_args, W, R | congruence].
Qed.

Lemma risky_value op s : value_call op = true -> risky_op op s = false -> wide_args (args_of true (items s)) = false.
Proof. unfold risky_op. intros -> R. apply orb_false_iff in R as [R _]. apply orb_false_iff in R as [_ R]. exact R. Qed.

Lemma risky_plain op s : plain_call op = true -> risky_op op s = false -> wide_args (args_of false (items s)) = false.
Proof. unfold risky_op. intros -> R. apply orb_false_iff in R as [_ R]. exact R. Qed.

Lemma sload_label : label_spec OP_SLOAD (next (in_state EVM_INVALID_OPCODE (fun e => op_sload (gas_schedule e)))).
Proof. apply state_label; [reflexivity|]. intros e f st0 He Hf. rewrite (eo_schedule e He). apply sload_safe. Qed.

Lemma selfbalance_label :
  label_spec OP_SELFBALANCE (next (in_state EVM_STATE_UNAVAILABLE (fun e => op_selfbalance (gas_of (gas_table e) OP_SELFBALANCE)))).
Proof. apply state_label; [reflexivity|]. intros e f st0 He Hf. apply selfbalance_safe, table_cost, He. Qed.

Lemma extcodecopy_label : label_spec OP_EXTCODECOPY (with_state op_extcodecopy).
Proof. apply memory_state_label; try reflexivity. intros T HT e f st0 He Hf. apply extcodecopy_safe; auto. Qed.

Lemma code_size_wf st a : state_ok st -> wf256 (uint256_from_u64 (get_code_size st a)).
Proof. intros H. destruct (code_size_eq st a H). apply wf_from_u64. unfold u64; lia. Qed.

Lemma code_hash_word_wf st a : state_ok st ->
  wf256 (if negb (account_exists st a) then uint256_zero else uint256_from_bytes_be (get_code_hash st a)).
Proof. intros H. destruct (negb _); auto with words. apply wf_from_bytes, (code_hash_wf st a H). Qed.

(** The jumps, in the form [jump_labels] asks for. *)
Lemma jump_label_spec : label_spec OP_JUMP (jump_label op_jump OP_JUMP).
Proof.
  apply jump_labels; [reflexivity | vm_compute; discriminate |]. intros f b cost Hf Hc s Hs.
  pose proof (op_jump_safe (C := C) b cost Hc s Hs) as K. destruct (op_jump b cost s); auto.
Qed.

Lemma jumpi_label_spec : label_spec OP_JUMPI (jump_label op_jumpi OP_JUMPI).
Proof. apply jump_labels; [reflexivity | vm_compute; discriminate |]. intros f b cost Hf Hc. apply op_jumpi_safe, Hc. Qed.

Ltac special := lazymatch goal with
  | |- label_spec OP_STOP _ => exact stop_label
  | |- label_spec OP_ADD _ => exact add_label
  | |- label_spec OP_EXP _ => exact exp_label
  | |- label_spec OP_PC _ => exact pc_label
  | |- label_spec OP_MSIZE _ => exact msize_label
  | |- label_spec OP_GAS _ => exact gas_label
  | |- label_spec OP_SLOAD _ => exact sload_label
  | |- label_spec OP_SSTORE _ => exact sstore_label_spec
  | |- label_spec OP_RETURNDATASIZE _ => exact returndatasize_label
  | |- label_spec OP_RETURNDATACOPY _ => exact returndatacopy_label
  | |- label_spec OP_SELFBALANCE _ => exact selfbalance_label
  | |- label_spec OP_EXTCODECOPY _ => exact extcodecopy_label
  | |- label_spec OP_JUMP _ => exact jump_label_spec
  | |- label_spec OP_JUMPI _ => exact jumpi_label_spec
  | |- label_spec (OP_PUSH0 + _) _ => apply push_n_label; lia
  | |- label_spec (OP_DUP1 + _ - 1) _ => apply dup_label; lia
  | |- label_spec (OP_SWAP1 + _ - 1) _ => apply swap_label; lia
  | |- label_spec (OP_LOG0 + _) _ => apply log_label_spec; lia
  | |- label_spec OP_CALLDATACOPY _ => apply copy_label; [reflexivity | reflexivity |]; intros f f' Hf (_&_&_&_&_&_&_&->&_); apply (fo_input _ Hf)
  | |- label_spec OP_CODECOPY _ => apply copy_label; [reflexivity | reflexivity |]; intros f f' Hf (->&_); apply (fo_code _ Hf)
  | |- label_spec OP_BALANCE _ => exact (account_label OP_BALANCE _ eq_refl balance_wf)
  | |- label_spec OP_EXTCODESIZE _ => exact (account_label OP_EXTCODESIZE _ eq_refl code_size_wf)
  | |- label_spec OP_EXTCODEHASH _ => exact (account_label OP_EXTCODEHASH _ eq_refl code_hash_word_wf)
  | |- label_spec OP_BLOCKHASH _ => apply (hash_label OP_BLOCKHASH (fun e => block_hash_of (block e)) eq_refl); intros e x He; apply block_hash_wf, (eo_block e He)
  | |- label_spec OP_BLOBHASH _ => apply (hash_label OP_BLOBHASH (fun e => blob_hash_of (tx e)) eq_refl); intros e x He; apply blob_hash_wf, (eo_tx e He)
  | |- label_spec OP_RETURN _ => apply (return_label OP_RETURN frame_result_return); [reflexivity | auto | split; reflexivity]
  | |- label_spec OP_REVERT _ => apply (return_label OP_REVERT frame_result_revert); [reflexivity | auto | split; reflexivity]
  | |- label_spec ?op (call_label ?h) =>
      lazymatch op with OP_CALL => apply (call_labels op true) | OP_CALLCODE => apply (call_labels op true) | _ => apply (call_labels op false) end;
      [reflexivity | reflexivity | intros s; first [apply risky_value | apply risky_plain]; reflexivity |]; intros f st0 Hf Hr pool;
      lazymatch op with
      | OP_CALL => apply op_call_safe; assumption | OP_CALLCODE => apply op_callcode_safe; assumption
      | OP_STATICCALL => apply op_staticcall_safe; assumption | OP_DELEGATECALL => apply op_delegatecall_safe; assumption
      end
  | |- label_spec ?op _ => apply simple_memory; [reflexivity | reflexivity |]; intros f T cost Hf HT Hc;
      lazymatch op with
      | OP_MLOAD => apply mload_safe; assumption | OP_MSTORE => apply mstore_safe; assumption
      | OP_MSTORE8 => apply mstore8_safe; assumption | OP_KECCAK256 => apply keccak_safe; assumption
      end
  end.

Lemma table_spec : Forall (fun e => label_spec (fst e) (snd e)) (dispatch_table keccak256).
Proof.
  unfold dispatch_table, arithmetic_labels, bitwise_labels, push_labels, context_labels, block_labels, stack_labels, memory_labels,
    control_labels, call_return_labels, log_labels. rewrite ?Forall_app, ?Forall_cons_iff, ?Forall_app, ?Forall_map.
  repeat match goal with |- _ /\ _ => split end; cbn [seq]; try apply Forall_nil; repeat (apply Forall_cons; [cbn [fst snd]|]);
    try apply Forall_nil; cbn [fst snd]; first [special | op_].
Qed.

(** * One instruction *)

Lemma find_label_spec op : label_spec op (find_label (dispatch_table keccak256) op).
Proof.
  pose proof table_spec as H. induction H as [|[k l] rest Hl Hrest IH]; cbn [find_label].
  - intros e f [He _ _ _ _ _]. split; [apply evm_next_refl, He | split; [split; reflexivity | reflexivity]].
  - destruct (Z.eqb_spec k op) as [<-|N]; [exact Hl|exact IH].
Qed.

(** A frame that a handler left is again a frame of the interpreter. *)
Lemma final_inv f b x c f' : frame_inv f -> bitmap_ok (set_bitmap f b) -> Final (set_pc (set_bitmap f b) x) c f' ->
  0 <= x <= code_size f + 32 -> instr_start (code f) (Z.to_nat x) ->
  frame_inv f' /\ same_context f f' /\ gas f' <= gas f - c /\ pc f' = x.
Proof.
  intros [[G P [S1 S2 S3] M Co In Ca Ad Va] H _ _] Hb [hc hp hbm hg hg64 hi hs hcap hw hm hz] Hx Hi.
  cbn in hp, hbm, hg. assert (SC : same_context f f') by exact hc.
  destruct hc as (E1&E2&E3&E4&E5&E6&E7&E8&E9). cbn in E1, E2, E3, E4, E5, E6, E7, E8, E9.
  split; [|split; [exact SC|split; [apply hg|exact hp]]]. split; [split|..].
  - unfold u64; lia.
  - unfold code_size in *. rewrite hp, E1. exact Hx.
  - split; [lia | exact hcap |]. eapply Forall_impl; [|exact hw]. cbv beta; tauto.
  - exact hm.
  - unfold code_size in *. rewrite E1. exact Co.
  - unfold input_size in *. rewrite E8. exact In.
  - rewrite E5; exact Ca.
  - rewrite E6; exact Ad.
  - rewrite E7; exact Va.
  - rewrite E9. exact H.
  - intros bm. rewrite hbm, E1. apply Hb.
  - rewrite hp, E1. exact Hi.
Qed.

(** The next instruction, or a jump that pays at least 8. *)
Record stepped (f f' : call_frame_t) : Prop := {
  sp_inv : frame_inv f';
  sp_context : same_context f f';
  sp_gas : gas f' <= gas f;
  sp_pc : Z.to_nat (pc f') = next_instr (code f) (Z.to_nat (pc f)) \/
          (valid_dest (code f) (Z.to_nat (pc f')) /\ gas f' + 8 <= gas f) }.

(** A frame that waits for its child. *)
Record waiting (f : call_frame_t) : Prop := {
  wt_inv : frame_inv f;
  wt_space : top (stack f) + 1 <= capacity (stack f);
  wt_out : out_ok (C := C) f }.

Definition ended (e : evm_t) (f : call_frame_t) (e' : evm_t) (f' : call_frame_t) (r : frame_result_t) : Prop :=
  same_context f f' /\
  match action r with
  | FRAME_STOP | FRAME_RETURN | FRAME_REVERT =>
      same_pool e e' /\ 0 <= gas f' <= gas f /\ mem_ok (memory f') /\ u64 (return_offset r) /\ u64 (return_size r) /\
      (covered (return_offset r) (return_size r) (evm_memory_size (memory f')) \/ Bad)
  | FRAME_CALL =>
      exists child, pool_depth e' = pool_depth e + 1 /\ pending_frame e' = Some child /\ pool_depth e < EVM_MAX_CALL_DEPTH /\
        waiting f' /\ child_ok f child /\ frame_inv child /\ gas f' + gas child + 100 <= gas f
  | FRAME_CREATE | FRAME_ERROR => False
  end.

Definition instruction_ok (e : evm_t) (f : call_frame_t) : Prop :=
  match dispatch keccak256 (e, f) with
  | Ret (e', f') None => evm_next (is_static f) e e' /\ same_pool e e' /\ stepped f f'
  | Ret (e', f') (Some r) => evm_next (is_static f) e e' /\ ended e f e' f' r
  | Err (e', f') _ => evm_next (is_static f) e e' /\ same_pool e e' /\ AtDepth f f'
  | Crash x => C x
  end.

Lemma next_instr_pc f : frame_inv f -> pc f < code_size f ->
  Z.to_nat (pc f + 1 + push_data_size (current_op f)) = next_instr (code f) (Z.to_nat (pc f)) /\
  0 <= push_data_size (current_op f) <= 32.
Proof.
  intros H Hp. pose proof (fo_pc _ (fi_ok _ H)) as P. unfold next_instr, current_op.
  assert (B : 0 <= push_data_size (aget (code f) (Z.to_nat (pc f))) <= 32).
  { unfold push_data_size, OP_PUSH1, OP_PUSH32. destruct (Z.leb_spec 96 (aget (code f) (Z.to_nat (pc f)))); cbn [andb]; [|lia].
    destruct (Z.leb_spec (aget (code f) (Z.to_nat (pc f))) 127); lia. }
  lia.
Qed.

(** A child that was started is a frame of the interpreter. *)
Lemma child_inv f child : child_ok f child -> frame_inv child.
Proof.
  intros [H P B _ _ _ Hh]. split; auto.
  - intros b. rewrite B. discriminate.
  - rewrite P. apply instr_first.
Qed.

Lemma moved_stepped f f' : frame_inv f -> pc f < code_size f ->
  Next (current_op f) (set_pc f (pc f + 1)) f' -> stepped f f'.
Proof.
  intros Hi Hp [(b & Hb & Hf)|(dest & Hd & V & b & Hb & Hf)]; destruct (next_instr_pc f Hi Hp) as [N R]; pose proof (fo_pc _ (fi_ok _ Hi)).
  - destruct (final_inv f b (pc f + 1 + push_data_size (current_op f)) 0 f' Hi Hb Hf) as (I & S & G & P); [lia | |].
    + rewrite N. apply instr_next, (fi_instr _ Hi).
    + split; auto; [lia|]. left. rewrite P. exact N.
  - destruct V as (V1 & V2 & V3). cbn [code set_pc] in *.
    destruct (final_inv f b dest 8 f' Hi Hb Hf) as (I & S & G & P); [unfold code_size; lia | exact V2 |].
    split; auto; [lia|]. right. rewrite P. split; [split; auto|lia].
Qed.

Lemma result_ended e f e' f' r : frame_inv f -> pc f < code_size f ->
  Result (current_op f) e (set_pc f (pc f + 1)) e' f' r -> ended e f e' f' r.
Proof.
  intros Hi Hp. unfold Result, ended. pose proof (fo_pc _ (fi_ok _ Hi)) as Hpc.
  assert (Fin : forall c, Final (set_pc f (pc f + 1)) c f' -> same_context f f' /\ 0 <= gas f' <= gas f - c /\ mem_ok (memory f')).
  { intros c [hc _ _ hg _ _ _ _ _ hm _]. cbn in hg. auto. }
  destruct (action r); try contradiction.
  1-3: intros (P & Hf & R); destruct (Fin 0 Hf) as (S & G & M); split; [exact S|]; split; [exact P|]; split; [lia|]; tauto.
  intros (P0 & child & D & Pd & Hd & Hs). destruct Hs as (Ch & (c & Hf & G) & Out).
  assert (C0 : 0 <= c) by (pose proof (fo_gas _ (ch_ok _ _ Ch)) as []; lia).
  assert (SM : set_bitmap f (jumpdest_bitmap f) = f) by (destruct f; reflexivity).
  destruct (final_inv f (jumpdest_bitmap f) (pc f + 1) c f' Hi) as (I & S & G' & P).
  - rewrite SM. apply (fi_bitmap _ Hi).
  - rewrite SM. eapply hold_weaken; [exact Hf|lia..].
  - lia.
  - destruct (next_instr_pc f Hi Hp) as [N _]. rewrite P0, Z.add_0_r in N. rewrite N. apply instr_next, (fi_instr _ Hi).
  - split; [exact S|]. exists child. split; [exact D|]. split; [exact Pd|]. split; [exact Hd|].
    split; [split; [exact I | exact (h_space _ _ _ _ _ _ _ Hf) | exact Out]|]. split; [destruct Ch; split; auto|].
    split; [exact (child_inv _ _ Ch)|]. lia.
Qed.

Lemma instruction_covered e f : evm_ok e -> frame_inv f -> (pc f < code_size f -> covers (current_op f) (stack f)) -> instruction_ok e f.
Proof.
  intros He Hi Hr. unfold instruction_ok, dispatch; cbn [fst snd]. pose proof (evm_next_refl (is_static f) e He) as N.
  pose proof (fi_ok _ Hi) as Hf. pose proof (fo_gas _ Hf) as [G1 G2]. pose proof (fo_pc _ Hf) as P. pose proof (fo_code _ Hf) as [_ Cs].
  destruct (Z.leb_spec (code_size f) (pc f)) as [L|L].
  { split; [exact N|]. split; [apply same_context_refl|]. split; [split; reflexivity|]. split; [lia|]. split; [apply (fo_memory _ Hf)|].
    cbn. split; [apply u64_0|]. split; [apply u64_0|]. left; left; reflexivity. }
  assert (A : pc f +64 1 = pc f + 1) by (unfold add64; apply w64_small; unfold u64; lia). rewrite A.
  assert (En : entry (current_op f) e (set_pc f (pc f + 1))).
  { split; auto.
    - destruct Hf; split; auto. cbn. unfold code_size in *; cbn; lia.
    - exact (fi_hash _ Hi).
    - exact (fi_bitmap _ Hi).
    - cbn [pc set_pc]. unfold code_size in *; cbn [code set_pc]. lia. }
  pose proof (find_label_spec (current_op f) _ _ En) as K. fold (current_op f).
  destruct (find_label _ _ _) as [[e' f'] [r|]|[e' f'] er|x]; [| |tauto|exact K].
  - split; [apply K|]. apply result_ended; auto. apply K.
  - split; [apply K|]. split; [apply K|]. apply moved_stepped; auto. apply K.
Qed.

Lemma instruction_spec e f : evm_ok e -> frame_inv f -> (Bad \/ risky f = false) -> instruction_ok e f.
Proof.
  intros He Hi Hr. apply instruction_covered; [exact He | exact Hi|]. intros L. destruct Hr as [B|R]; [left; exact B | right; left].
  unfold risky in R. rewrite (proj2 (Z.ltb_lt _ _)) in R by exact L. exact R.
Qed.
End Instructions.
