(* ===== verification/Execution.v ===== *)
(** Frames and the main loop: termination, the machine invariant, conservation
    of gas, static contexts, and when an execution can fault. *)
From Stdlib Require Import ZArith Lia List Bool RelationClasses Relations Wf_nat.
From S2P Require Import Prelude Uint256 Types Effects Arena Stack Memory Opcodes Gas StateAccess Frame.
From S2P Require Import OpsArith OpsData CallOps Evm FrameLogic OpsSafe StateSafe CallSafe EvmSafe.
Import ListNotations.
#[local] Open Scope Z_scope.
#[local] Open Scope word_scope.

Section Execution.
Context {St : Type} {SA : StateAccess St} {SL : StateLaws St}.
Variable keccak256 : list Z -> hash_t.
Hypothesis keccak_wf : forall bs, bytes_ok bs -> wf_hash (keccak256 bs).
#[local] Abbreviation evm_t := (evm_t St).
#[local] Abbreviation dispatch := (dispatch keccak256).
#[local] Abbreviation execute_frame := (execute_frame keccak256).

(** * Fuel *)

(** More fuel does not change a result. *)
Lemma execute_frame_mono fuel fuel' s : (fuel <= fuel')%nat -> execute_frame fuel s <> Crash OutOfFuel ->
  execute_frame fuel' s = execute_frame fuel s.
Proof.
  revert fuel' s; induction fuel as [|fuel IH]; intros fuel' s L H; [contradiction H; reflexivity|].
  destruct fuel' as [|fuel']; [lia|]. cbn [Evm.execute_frame] in *. destruct (dispatch s) as [s' [r|]|s' e|x]; auto.
  apply IH; [lia|exact H].
Qed.

(** The bound on the instructions of a frame: every instruction moves the
    program counter forward, or is a jump that pays at least 8 gas. *)
Definition frame_measure (f : call_frame_t) : Z := gas f * (code_size f + 34) + (code_size f + 33 - pc f).

Lemma frame_measure_pos f : frame_inv f -> 0 < frame_measure f.
Proof.
  intros H. unfold frame_measure. pose proof (fo_gas _ (fi_ok _ H)) as []. pose proof (fo_pc _ (fi_ok _ H)).
  assert (0 <= code_size f) by (unfold code_size; lia). nia.
Qed.

Lemma stepped_measure f f' : frame_inv f -> stepped f f' -> frame_measure f' < frame_measure f.
Proof.
  intros Hi [Hi' (Ec&_) Hg Hpc]. unfold frame_measure.
  assert (S : code_size f' = code_size f) by (unfold code_size; rewrite Ec; reflexivity). rewrite S.
  pose proof (fo_pc _ (fi_ok _ Hi)). pose proof (fo_pc _ (fi_ok _ Hi')). assert (0 <= code_size f) by (unfold code_size; lia).
  destruct Hpc as [P|[_ G]]; [|nia].
  assert (pc f < pc f') by (unfold next_instr in P; lia). nia.
Qed.

(** * A frame to its end *)

Section Frame.
Context {C : fault -> Prop}.
#[local] Abbreviation Bad := (Bad (C := C)).

(** The visited states, each of which is free of risk unless faults are
    allowed. *)
Variable R : evm_t * call_frame_t -> Prop.
Hypothesis R_calm : forall s, R s -> Bad \/ risky (snd s) = false.
Hypothesis R_step : forall s s', R s -> dispatch s = Ret s' None -> R s'.

Definition exited (e : evm_t) (f : call_frame_t) (e' : evm_t) (f' : call_frame_t) (r : frame_result_t) : Prop :=
  (action r = FRAME_ERROR /\ same_pool e e' /\ AtDepth f f') \/ ended (C := C) e f e' f' r.

Lemma child_ok_context f f1 child : same_context f f1 -> child_ok f1 child -> child_ok f child.
Proof. intros (_&E2&_&E4&_) []. split; auto; [congruence|]. rewrite <- E4. assumption. Qed.

Lemma ended_before (e e1 e' : evm_t) f f1 f' r : stepped f f1 -> same_pool e e1 -> ended (C := C) e1 f1 e' f' r -> ended (C := C) e f e' f' r.
Proof.
  intros [_ SC Hg _] [P1 P2] [SC' H]. split; [exact (same_context_trans _ _ _ SC SC')|].
  destruct (action r); try contradiction.
  1-3: destruct H as ([Q1 Q2] & G & M & H); split; [split; congruence|]; split; [lia|]; tauto.
  destruct H as (child & D & Pd & Hd & W & Ch & Ci & G). exists child. rewrite P1 in *. split; [exact D|].
  split; [exact Pd|]. split; [exact Hd|]. split; [exact W|].
  split; [exact (child_ok_context _ _ _ SC Ch)|]. split; [exact Ci|lia].
Qed.

Lemma exited_before (e e1 e' : evm_t) f f1 f' r : stepped f f1 -> same_pool e e1 -> exited e1 f1 e' f' r -> exited e f e' f' r.
Proof.
  intros Hs Hp [(A & [Q1 Q2] & D)|H]; [left|right; eapply ended_before; eauto].
  split; [exact A|]. destruct Hp as [P1 P2]. split; [split; congruence|]. destruct (sp_context _ _ Hs) as (_&E&_). unfold AtDepth in *. congruence.
Qed.

Lemma execute_frame_spec fuel e f : evm_ok e -> frame_inv f -> R (e, f) -> frame_measure f <= Z.of_nat fuel ->
  match execute_frame fuel (e, f) with
  | Ret (e', f') r => evm_next (is_static f) e e' /\ exited e f e' f' r
  | Err _ _ => False
  | Crash x => C x
  end.
Proof.
  revert e f; induction fuel as [|fuel IH]; intros e f He Hi HR Hm; pose proof (frame_measure_pos f Hi); [lia|]. cbn [Evm.execute_frame].
  pose proof (instruction_spec keccak256 keccak_wf e f He Hi (R_calm _ HR)) as K. unfold instruction_ok in K.
  destruct (dispatch (e, f)) as [[e1 f1] [r|]|[e1 f1] er|x] eqn:D; [| | |exact K].
  - destruct K as [N K]. split; [exact N|right; exact K].
  - destruct K as (N & P & S). specialize (IH e1 f1 (evm_next_ok _ _ _ He N) (sp_inv _ _ S) (R_step _ _ HR D)).
    pose proof (stepped_measure f f1 Hi S). destruct (execute_frame fuel (e1, f1)) as [[e2 f2] r|? ?|x]; [|apply IH; lia|apply IH; lia].
    destruct IH as [N2 X]; [lia|]. destruct (sp_context _ _ S) as (_&_&_&Es&_). rewrite Es in N2.
    split; [exact (evm_next_trans _ _ _ _ N N2)|]. eapply exited_before; eauto.
  - destruct K as (N & P & D'). split; [exact N|left]. auto.
Qed.
End Frame.

(** * The main loop *)

Section Machine.
Context {C : fault -> Prop}.
#[local] Abbreviation Bad := (Bad (C := C)).
#[local] Abbreviation machine := (@machine St).
#[local] Abbreviation waiting := (waiting (C := C)).

(** The execution started in the interpreter [e0] with [g] gas and [p0]
    frames in use; [static] says whether its root frame was static. *)
Variables (e0 : evm_t) (g p0 : Z) (static : bool).
Hypothesis g_ok : u64 g.
Hypothesis p0_ok : 0 <= p0.

(** What the interpreter does to its own fields in the loop. *)
Record evm_same (e e' : evm_t) : Prop := {
  es_state : state e' = state e;
  es_logs : logs e' = logs e;
  es_refund : gas_refund e' = gas_refund e;
  es_table : gas_table e' = gas_table e;
  es_schedule : gas_schedule e' = gas_schedule e;
  es_block : block e' = block e;
  es_tx : tx e' = tx e }.

Lemma return_capacity_spec fuel k size : 8 <= k <= 16 -> size <= 65536 -> 16 - k <= Z.of_nat fuel ->
  exists c, return_capacity fuel (2 ^ k) size = Some c /\ 0 < c <= 65536.
Proof.
  revert k; induction fuel as [|fuel IH]; intros k Hk Hs Hf; cbn [return_capacity];
    assert (B : 2 ^ 8 <= 2 ^ k <= 2 ^ 16) by (split; apply Z.pow_le_mono_r; lia); destruct (Z.ltb_spec (2 ^ k) size) as [L|L].
  - assert (k = 16) by lia. subst. lia.
  - exists (2 ^ k). split; [reflexivity|lia].
  - assert (k <> 16) by (intros ->; lia). unfold SIZE_MAX. destruct (Z.gtb_spec (2 ^ k) ((2 ^ 64 - 1) / 2)) as [X|X].
    { change ((2 ^ 64 - 1) / 2) with (2 ^ 63 - 1) in X. lia. }
    unfold mul64. replace (2 ^ k * 2) with (2 ^ (k + 1)) by (rewrite Z.pow_add_r by lia; reflexivity).
    assert (2 ^ (k + 1) <= 2 ^ 16) by (apply Z.pow_le_mono_r; lia). assert (0 < 2 ^ (k + 1)) by (apply Z.pow_pos_nonneg; lia).
    rewrite w64_small by (unfold u64; lia). apply IH; lia.
  - exists (2 ^ k). split; [reflexivity|lia].
Qed.

Lemma load_some m off size bs : mem_ok m -> 0 <= off -> 0 <= size -> evm_memory_load_unsafe m off size = Some bs ->
  bytes_ok bs /\ Z.of_nat (length bs) <= 65536.
Proof.
  intros Hm Ho Hs E. pose proof (mem_size_bound m Hm). unfold evm_memory_load_unsafe in E.
  destruct (Z.leb_spec (off + size) (evm_memory_size m)) as [L|L]; [|discriminate]. injection E as <-.
  split; [apply Forall_firstn, Forall_skipn, (mo_bytes m Hm)|]. rewrite length_firstn. lia.
Qed.

(** Copying the output of a frame never fails when the range is covered. *)
Lemma copy_return_spec e mem off size : evm_ok e -> mem_ok mem -> u64 off -> u64 size ->
  (covered off size (evm_memory_size mem) \/ Bad) ->
  match copy_return_data e mem off size with
  | inl e' => evm_ok e' /\ evm_same e e' /\ same_pool e e'
  | inr x => C x
  end.
Proof.
  intros He Hm Ho Hs Hc. unfold copy_return_data. pose proof (mem_size_bound mem Hm) as Mb.
  assert (Set_ : forall bs c, bytes_ok bs -> Z.of_nat (length bs) <= 65536 -> evm_ok (set_return e bs c) /\ evm_same e (set_return e bs c) /\ same_pool e (set_return e bs c)).
  { intros bs c B L. destruct He. split; [split; auto|]. split; [split; reflexivity|split; reflexivity]. }
  destruct (Z.eqb_spec size 0) as [->|N]; [apply Set_; [constructor|cbn; lia]|].
  assert (Load : forall c, match match evm_memory_load_unsafe mem off size with Some bs => inl (set_return e bs c) | None => inr OutOfBounds end with
    | inl e' => evm_ok e' /\ evm_same e e' /\ same_pool e e' | inr x => C x end).
  { intros c. destruct (evm_memory_load_unsafe mem off size) as [bs|] eqn:E.
    - apply load_some in E as [B L]; [|exact Hm | apply Ho | apply Hs]. apply Set_; auto.
    - unfold evm_memory_load_unsafe in E. destruct (Z.leb_spec (off + size) (evm_memory_size mem)); [discriminate|].
      destruct Hc as [[?|?]|[B _]]; [lia|lia|exact B]. }
  destruct (Z.gtb_spec size (return_data_capacity e)); [|apply Load].
  destruct Hc as [[?|L]|[B1 B2]]; [contradiction| |].
  - destruct Ho, Hs. destruct (return_capacity_spec 64 8 size) as (c & E & Hc); [lia | lia | lia |]. change (2 ^ 8) with 256 in E. rewrite E.
    unfold alloc_succeeds, DIV0_ARENA_BLOCK_SIZE. rewrite (proj2 (Z.ltb_lt _ _)), (proj2 (Z.leb_le _ _)) by lia. apply Load.
  - destruct (return_capacity 64 256 size) as [c|]; [destruct (alloc_succeeds c); [apply Load|exact B1]|exact B2].
Qed.

(** ** Invariant of the machine *)

Fixpoint depths (f : call_frame_t) (l : list call_frame_t) : Prop :=
  match l with
  | [] => depth f = 0
  | p :: rest => depth f = depth p + 1 /\ depths p rest
  end.

Fixpoint gas_sum (l : list call_frame_t) : Z := match l with [] => 0 | p :: rest => gas p + gas_sum rest end.
Definition total_gas (m : machine) : Z := gas (m_frame m) + gas_sum (m_stack m).

(** In a static execution: the same world, the same logs and refunds. *)
Definition world_kept (e : evm_t) : Prop := static = true ->
  match state e0, state e with Some s, Some s' => world_eq s s' | None, None => True | _, _ => False end /\
  logs e = logs e0 /\ gas_refund e = gas_refund e0.

Record machine_inv (m : machine) : Prop := {
  mi_evm : evm_ok (m_evm m);
  mi_frame : frame_inv (m_frame m);
  mi_stack : Forall waiting (m_stack m);
  mi_depths : depths (m_frame m) (m_stack m);
  mi_pool : pool_depth (m_evm m) = p0 + 1 + Z.of_nat (length (m_stack m)) /\ pool_depth (m_evm m) <= EVM_MAX_CALL_DEPTH;
  mi_gas : total_gas m <= g;
  mi_static : static = true -> is_static (m_frame m) = true /\ Forall (fun f => is_static f = true) (m_stack m);
  mi_world : world_kept (m_evm m) }.

(** Rounds left: a call takes 100 gas from the machine, a return one frame. *)
Definition machine_measure (m : machine) : Z := 2 * total_gas m + Z.of_nat (length (m_stack m)).

(** What the result of an execution satisfies. *)
Record done_ok (e : evm_t) (r : evm_execution_result_t) : Prop := {
  dn_evm : evm_ok e;
  dn_world : world_kept e;
  dn_gas : 0 <= gas_used r <= g;
  dn_output : bytes_ok (output r) /\ Z.of_nat (length (output r)) <= 65536;
  dn_stop : result r = EVM_RESULT_STOP -> result_error r = EVM_OK /\ result_gas_refund r = gas_refund e /\
    output r = return_data e /\ result_logs r = logs_data (logs e);
  dn_error : result r = EVM_RESULT_ERROR -> result_gas_refund r = 0 /\ result_logs r = [];
  dn_failed : result_error r <> EVM_OK -> gas_used r = g /\ output r = [] }.

Definition round_ok (m : machine) (r : round (St := St)) : Prop :=
  match r with
  | Continue m' => machine_inv m' /\ machine_measure m' < machine_measure m
  | Done e res => done_ok e res
  | Faulty x => C x
  end.

Lemma depths_length f l : depths f l -> depth f = Z.of_nat (length l).
Proof. revert f; induction l as [|p rest IH]; intros f; cbn [depths length]; [lia|]. intros [-> H]. rewrite (IH p H). lia. Qed.

Lemma gas_sum_pos l : Forall waiting l -> 0 <= gas_sum l.
Proof. induction 1 as [|p rest [Hp _ _] _ IH]; cbn [gas_sum]; [lia|]. pose proof (fo_gas _ (fi_ok _ Hp)) as []. lia. Qed.

(** Static executions across the loop's own updates and an instruction. *)
Lemma world_kept_same e e' : evm_same e e' -> world_kept e -> world_kept e'.
Proof. intros [] H S. rewrite es_state0, es_logs0, es_refund0. exact (H S). Qed.

Lemma world_kept_next st e e' : (static = true -> st = true) -> evm_next st e e' -> world_kept e -> world_kept e'.
Proof.
  intros Hst [] H S. destruct (H S) as (W & L & G). specialize (Hst S). destruct (en_static Hst) as [L' G'].
  split; [|split; congruence]. destruct (state e0), (state e), (state e'); try contradiction; auto.
  etransitivity; [exact W|]. apply en_state, Hst.
Qed.

Lemma evm_ok_same e e' : evm_same e e' -> return_data e' = return_data e -> evm_ok e -> evm_ok e'.
Proof. intros [] E []. split; rewrite ?es_state0, ?es_table0, ?es_schedule0, ?es_block0, ?es_tx0, ?es_refund0, ?E; auto. Qed.

Lemma set_pool_same e d p : evm_same e (set_pool e d p).
Proof. split; reflexivity. Qed.

(** A parent goes on with a new gas value, memory and the flag. *)
Lemma resumed_inv p mem x flag : waiting p -> mem_ok mem -> u64 x -> wf256 flag ->
  exists s, evm_stack_push_unsafe (stack (set_gas (set_memory p mem) x)) flag = Some s /\
    frame_inv (set_stack (set_gas (set_memory p mem) x) s).
Proof.
  intros [[[G P [S1 S2 S3] M Co In Ca Ad Va] Hh Hb Hs] Sp _] Hm Hx Hf. unfold evm_stack_push_unsafe.
  cbn [stack set_gas set_memory]. rewrite (proj2 (Z.ltb_lt _ _)) by lia. eexists; split; [reflexivity|].
  split; [split|..]; auto. split; unfold top in *; cbn [items capacity length stack set_stack] in *; [lia | exact S2 | constructor; auto].
Qed.

(** ** One result *)

Lemma resume_spec e f p rest e' mem y flag : machine_inv (Machine e f (p :: rest)) ->
  evm_ok e' -> world_kept e' -> pool_depth e' = pool_depth e -> mem_ok mem -> 0 <= y <= gas f -> wf256 flag ->
  round_ok (Machine e f (p :: rest)) (resume e' (set_gas (set_memory p mem) (gas p + y)) rest flag).
Proof.
  intros [_ Hf Hw Hd [Hp1 Hp2] Hg Hst _] He' Hk' Hp Hm Hy Hfl. cbn [m_evm m_frame m_stack depths length] in *.
  inversion Hw as [|? ? Wp Wr]; subst. unfold total_gas in Hg; cbn [m_frame m_stack gas_sum] in Hg.
  pose proof (gas_sum_pos rest Wr). pose proof (fo_gas _ (fi_ok _ (wt_inv _ Wp))) as [? ?]. unfold u64 in g_ok.
  destruct (resumed_inv p mem (gas p + y) flag Wp Hm ltac:(unfold u64; lia) Hfl) as (s & E & I). unfold resume. rewrite E.
  split.
  - split; cbn [m_evm m_frame m_stack].
    + eapply evm_ok_same; [apply set_pool_same | reflexivity | exact He'].
    + exact I.
    + exact Wr.
    + destruct Hd as [_ Hd]. destruct rest; exact Hd.
    + cbn [pool_depth set_pool]. lia.
    + unfold total_gas; cbn [m_frame m_stack gas set_stack set_gas]. lia.
    + intros S. destruct (Hst S) as [_ Hst']. inversion Hst'; subst. auto.
    + eapply world_kept_same; [apply set_pool_same | exact Hk'].
  - unfold machine_measure, total_gas; cbn [m_frame m_stack gas set_stack set_gas gas_sum length]. lia.
Qed.

(** A child that returned or reverted. *)
Lemma return_to_parent_spec e f p rest e' f' r flag : machine_inv (Machine e f (p :: rest)) ->
  evm_ok e' -> world_kept e' -> pool_depth e' = pool_depth e -> mem_ok (memory f') -> 0 <= gas f' <= gas f ->
  u64 (return_offset r) -> u64 (return_size r) ->
  (covered (return_offset r) (return_size r) (evm_memory_size (memory f')) \/ Bad) -> wf256 flag ->
  round_ok (Machine e f (p :: rest)) (return_to_parent (Machine e' f' (p :: rest)) r flag).
Proof.
  intros Hi He' Hk' Hp Hm Hg Uo Us Cov Hfl. unfold return_to_parent; cbn [m_evm m_frame m_stack].
  pose proof (copy_return_spec e' (memory f') _ _ He' Hm Uo Us Cov) as K.
  destruct (copy_return_data _ _ _ _) as [e2|x]; [|exact K]. destruct K as (He2 & Same & [Pd _]).
  pose proof (mi_stack _ Hi) as Hw. inversion Hw as [|? ? Wp Wr]; subst. destruct Wp as [Ip Sp (O1 & O2 & Out)].
  pose proof (fo_memory _ (fi_ok _ Ip)) as Mp. destruct (eo_return e2 He2) as [Rb Rl].
  set (avail := Z.of_nat (length (return_data e2))) in *. set (n := if output_size p >? avail then avail else output_size p).
  assert (Hn : 0 <= n <= avail /\ n <= output_size p) by (unfold n; destruct (Z.gtb_spec (output_size p) avail); lia).
  assert (L : Z.of_nat (length (firstn (Z.to_nat n) (return_data e2))) = n) by (rewrite length_firstn; lia).
  assert (Ov : gas p +64 gas f' = gas p + gas f').
  { unfold add64. apply w64_small. pose proof (mi_gas _ Hi) as T. unfold total_gas in T; cbn [m_frame m_stack gas_sum] in T.
    pose proof (gas_sum_pos rest Wr). pose proof (fo_gas _ (fi_ok _ Ip)) as []. unfold u64 in *. lia. }
  rewrite Ov. assert (Fin : forall mem, mem_ok mem -> round_ok (Machine e f (p :: rest))
    (resume e2 (set_gas (set_memory p mem) (gas p + gas f')) rest flag)).
  { intros mem Hmem. apply resume_spec; auto; [eapply world_kept_same; eassumption | congruence]. }
  destruct (Z.gtb_spec n 0) as [N|N]; [|apply Fin, Mp].
  destruct (evm_memory_store_unsafe _ _ _) as [mem|] eqn:E.
  - apply Fin. destruct (Z.le_gt_cases (output_offset p + n) (evm_memory_size (memory p))) as [B|B].
    + destruct (store_spec (memory p) (output_offset p) (firstn (Z.to_nat n) (return_data e2)) Mp O1) as (m' & E' & Mok & _);
        [apply Forall_firstn, Rb | rewrite L; exact B |]. rewrite E in E'. injection E' as <-. exact Mok.
    + unfold evm_memory_store_unsafe in E. rewrite L, (proj2 (Z.leb_gt _ _)) in E by exact B. discriminate.
  - unfold evm_memory_store_unsafe in E. rewrite L in E.
    destruct (Z.leb_spec (output_offset p + n) (evm_memory_size (memory p))) as [B|B]; [discriminate|].
    destruct Out as [[Z0|Z0]|[Bd _]]; [lia | lia | exact Bd].
Qed.

(** The gas a finished root frame reports. *)
Lemma gas_used_ok e f f' : machine_inv (Machine e f []) -> 0 <= gas f' <= gas f -> 0 <= g -64 gas f' <= g.
Proof.
  intros [_ _ _ _ _ T _ _] H. unfold total_gas in T; cbn [m_frame m_stack gas_sum] in T. unfold u64 in g_ok.
  unfold sub64. rewrite w64_small by (unfold u64; lia). lia.
Qed.

Lemma failed_ok e er : evm_ok e -> world_kept e -> done_ok e (failed g er).
Proof.
  intros He Hk. split; cbn; auto; try discriminate; try (unfold u64 in g_ok; lia). split; [constructor|lia].
Qed.

(** The result of a root frame that stopped or returned, and of one that
    reverted. *)
Lemma stop_done e u : evm_ok e -> world_kept e -> 0 <= u <= g ->
  done_ok e (ExecutionResult EVM_RESULT_STOP EVM_OK u (gas_refund e) (return_data e) (logs_data (logs e))).
Proof. intros He Hk Hu. split; cbn; auto; try discriminate; try congruence. apply (eo_return e He). Qed.

Lemma revert_done e u : evm_ok e -> world_kept e -> 0 <= u <= g ->
  done_ok e (ExecutionResult EVM_RESULT_ERROR EVM_OK u 0 (return_data e) []).
Proof. intros He Hk Hu. split; cbn; auto; try discriminate; try congruence. apply (eo_return e He). Qed.

(** A frame that ended without an error, at the root or in a child. *)
Lemma finished_spec e f l e' f' r flag mk : machine_inv (Machine e f l) -> evm_ok e' -> world_kept e' -> same_pool e e' ->
  depth f' = Z.of_nat (length l) -> 0 <= gas f' <= gas f -> mem_ok (memory f') -> u64 (return_offset r) -> u64 (return_size r) ->
  (covered (return_offset r) (return_size r) (evm_memory_size (memory f')) \/ Bad) -> wf256 flag ->
  (l = [] -> forall e2, evm_ok e2 -> world_kept e2 -> done_ok e2 (mk e2)) ->
  round_ok (Machine e f l)
    (if depth f' =? 0 then
       match copy_return_data e' (memory f') (return_offset r) (return_size r) with inr x => Faulty x | inl e2 => Done e2 (mk e2) end
     else return_to_parent (Machine e' f' l) r flag).
Proof.
  intros Hi He' Hk' [P _] Dl Hg Hm Uo Us Cov Hfl Hmk. rewrite Dl. destruct l as [|p rest]; cbn [length].
  - change (Z.of_nat 0 =? 0) with true. pose proof (copy_return_spec e' (memory f') _ _ He' Hm Uo Us Cov) as K.
    destruct (copy_return_data _ _ _ _) as [e2|x]; [|exact K]. destruct K as (He2 & Same & _). apply Hmk; [reflexivity | exact He2|].
    eapply world_kept_same; eassumption.
  - destruct (Z.eqb_spec (Z.of_nat (S (length rest))) 0); [lia|]. apply return_to_parent_spec; auto.
Qed.

(** A new child: the machine calls deeper. *)
Lemma called_spec e f l e' f' child : machine_inv (Machine e f l) -> evm_ok e' -> world_kept e' ->
  pool_depth e' = pool_depth e + 1 -> pool_depth e < EVM_MAX_CALL_DEPTH -> same_context f f' -> waiting f' ->
  child_ok f child -> frame_inv child -> gas f' + gas child + 100 <= gas f ->
  round_ok (Machine e f l) (Continue (Machine (set_pool e' (pool_depth e') None) child (f' :: l))).
Proof.
  intros Hi He' Hk' P Pm SC W Ch Ci G. pose proof (mi_pool _ Hi) as [P1 P2]. cbn [m_evm m_stack] in P1, P2.
  pose proof (depths_length _ _ (mi_depths _ Hi)) as Dl. cbn [m_frame m_stack] in Dl.
  unfold EVM_MAX_CALL_DEPTH in *. destruct SC as (_&Ed&_&Es&_). split.
  - split; cbn [m_evm m_frame m_stack].
    + eapply evm_ok_same; [apply set_pool_same | reflexivity | exact He'].
    + exact Ci.
    + constructor; [exact W|exact (mi_stack _ Hi)].
    + cbn [depths]. split.
      * rewrite (ch_depth _ _ Ch), Ed. unfold w16. apply Z.mod_small. lia.
      * pose proof (mi_depths _ Hi) as D. cbn [m_frame m_stack] in D. destruct l; cbn [depths] in *; rewrite Ed; exact D.
    + cbn [pool_depth set_pool length]. unfold EVM_MAX_CALL_DEPTH. lia.
    + pose proof (mi_gas _ Hi) as T. unfold total_gas in *; cbn [m_frame m_stack gas_sum] in *. lia.
    + intros S. destruct (mi_static _ Hi S) as [S1 S2]. cbn [m_frame m_stack] in *. split; [exact (ch_static _ _ Ch S1)|].
      constructor; [congruence|exact S2].
    + eapply world_kept_same; [apply set_pool_same | exact Hk'].
  - unfold machine_measure, total_gas; cbn [m_frame m_stack gas_sum length]. lia.
Qed.

Lemma handle_result_spec e f l e' f' r : machine_inv (Machine e f l) -> evm_next (is_static f) e e' ->
  exited (C := C) e f e' f' r -> round_ok (Machine e f l) (handle_result g (Machine e' f' l) r).
Proof.
  intros Hi N X. pose proof (evm_next_ok _ _ _ (mi_evm _ Hi) N) as He'.
  assert (Hk' : world_kept e').
  { eapply world_kept_next; [|exact N|exact (mi_world _ Hi)]. intros S. exact (proj1 (mi_static _ Hi S)). }
  pose proof (depths_length _ _ (mi_depths _ Hi)) as Dl. cbn [m_frame m_stack] in Dl. unfold handle_result; cbn [m_evm m_frame m_stack].
  destruct X as [(A & [P _] & D)|[SC H]].
  - rewrite A. rewrite D, Dl. destruct l as [|p rest]; cbn [length].
    + apply failed_ok; auto.
    + destruct (Z.eqb_spec (Z.of_nat (S (length rest))) 0); [lia|].
      pose proof (mi_stack _ Hi) as Hw. inversion Hw as [|? ? Wp Wr]; subst.
      assert (E : p = set_gas (set_memory p (memory p)) (gas p + 0)) by (rewrite Z.add_0_r; destruct p; reflexivity).
      rewrite E at 2. apply resume_spec; auto with words.
      * destruct He'. split; auto. split; [constructor|cbn; lia].
      * apply (fo_memory _ (fi_ok _ (wt_inv _ Wp))).
      * pose proof (fo_gas _ (fi_ok _ (mi_frame _ Hi))) as []. cbn [m_frame] in *. lia.
  - assert (Df : depth f' = Z.of_nat (length l)) by (destruct SC as (_&->&_); exact Dl).
    assert (Gu : l = [] -> 0 <= gas f' <= gas f -> 0 <= g -64 gas f' <= g) by (intros -> Hg; eapply gas_used_ok; eauto).
    destruct (action r) eqn:A; try contradiction.
    + destruct H as (P & Hg & Hm & Uo & Us & Cov).
      destruct l as [|p rest]; rewrite Df; cbn [length]; [change (Z.of_nat 0 =? 0) with true; apply stop_done; auto|].
      destruct (Z.eqb_spec (Z.of_nat (S (length rest))) 0); [lia|]. destruct P. apply return_to_parent_spec; auto with words.
    + destruct H as (P & Hg & Hm & Uo & Us & Cov). apply finished_spec with (mk := fun e2 => ExecutionResult EVM_RESULT_STOP EVM_OK
        (g -64 gas f') (gas_refund e2) (return_data e2) (logs_data (logs e2))); auto using stop_done with words.
    + destruct H as (P & Hg & Hm & Uo & Us & Cov). apply finished_spec with (mk := fun e2 => ExecutionResult EVM_RESULT_ERROR EVM_OK
        (g -64 gas f') 0 (return_data e2) []); auto using revert_done with words.
    + destruct H as (child & P & Pd & Pm & W & Ch & Ci & G). pose proof (mi_pool _ Hi) as [P1 _]. cbn [m_evm m_stack] in P1.
      unfold EVM_MAX_CALL_DEPTH in *. destruct (Z.leb_spec 1024 (Z.of_nat (length l))); [lia|]. rewrite Pd.
      apply called_spec; auto.
Qed.

(** ** The loop *)

(** Small steps of the machine: one instruction, or one instruction and
    what the loop does with the result of the frame. *)
Inductive mstep : machine -> machine -> Prop :=
| ms_instr e f l e' f' : dispatch (e, f) = Ret (e', f') None -> mstep (Machine e f l) (Machine e' f' l)
| ms_result e f l e' f' r m' : dispatch (e, f) = Ret (e', f') (Some r) ->
    handle_result g (Machine e' f' l) r = Continue m' -> mstep (Machine e f l) m'
| ms_error e f l e' f' er m' : dispatch (e, f) = Err (e', f') er ->
    handle_result g (Machine e' f' l) (frame_result_error er) = Continue m' -> mstep (Machine e f l) m'.

Definition reaches : machine -> machine -> Prop := clos_refl_trans_1n _ mstep.

Lemma reaches_trans m1 m2 m3 : reaches m1 m2 -> reaches m2 m3 -> reaches m1 m3.
Proof. induction 1 as [|x y z Hs Hr IH]; intros K; [exact K|]. eapply Relation_Operators.rt1n_trans; [exact Hs | exact (IH K)]. Qed.

(** The loop takes these steps: a round of it is a run of the machine. *)
Lemma round_reaches fuel e f l m' : main_round keccak256 fuel g (Machine e f l) = Continue m' -> reaches (Machine e f l) m'.
Proof.
  unfold main_round; cbn [m_evm m_frame m_stack]. revert e f; induction fuel as [|fuel IH]; intros e f; cbn [Evm.execute_frame]; [discriminate|].
  destruct (dispatch (e, f)) as [[e1 f1] [r|]|[e1 f1] er|x] eqn:D; [| | |discriminate]; intros H.
  - eapply Relation_Operators.rt1n_trans; [eapply ms_result; eassumption|constructor].
  - eapply Relation_Operators.rt1n_trans; [eapply ms_instr, D|]. apply IH, H.
  - eapply Relation_Operators.rt1n_trans; [eapply ms_error; eassumption|constructor].
Qed.

Lemma main_loop_mono n n' fuel fuel' m : (n <= n')%nat -> (fuel <= fuel')%nat ->
  main_loop keccak256 n fuel g m <> inr OutOfFuel -> main_loop keccak256 n' fuel' g m = main_loop keccak256 n fuel g m.
Proof.
  intros Hn Hf. revert n' m Hn; induction n as [|n IH]; intros n' m Hn H; [contradiction H; reflexivity|].
  destruct n' as [|n']; [lia|]. cbn [main_loop] in *.
  assert (E : main_round keccak256 fuel' g m = main_round keccak256 fuel g m).
  { unfold main_round in *. rewrite (execute_frame_mono fuel fuel') by (auto; intros E; rewrite E in H; contradiction H; reflexivity). reflexivity. }
  rewrite E. destruct (main_round keccak256 fuel g m); auto. apply IH; [lia|exact H].
Qed.

(** The starting point, and what makes every reachable machine free of
    risk unless faults are allowed. *)
Variable m0 : machine.
Hypothesis calm0 : forall m, reaches m0 m -> Bad \/ risky (m_frame m) = false.
Hypothesis no_fuel_fault : ~ C OutOfFuel.

Lemma main_round_spec e f l fuel : machine_inv (Machine e f l) -> reaches m0 (Machine e f l) -> frame_measure f <= Z.of_nat fuel ->
  round_ok (Machine e f l) (main_round keccak256 fuel g (Machine e f l)).
Proof.
  intros Hi Hr Hf. unfold main_round; cbn [m_evm m_frame m_stack].
  pose proof (execute_frame_spec (C := C) (fun s => reaches m0 (Machine (fst s) (snd s) l))) as K.
  specialize (K (fun s Hs => calm0 _ Hs)).
  assert (Step : forall s s', reaches m0 (Machine (fst s) (snd s) l) -> dispatch s = Ret s' None -> reaches m0 (Machine (fst s') (snd s') l)).
  { intros [e1 f1] [e2 f2] H D. eapply reaches_trans; [exact H|]. eapply Relation_Operators.rt1n_trans; [eapply ms_instr, D|constructor]. }
  specialize (K Step fuel e f (mi_evm _ Hi) (mi_frame _ Hi) Hr Hf).
  destruct (execute_frame fuel (e, f)) as [[e' f'] r|? ?|x]; [|contradiction|exact K].
  apply handle_result_spec; tauto.
Qed.

Lemma main_loop_spec m : machine_inv m -> reaches m0 m ->
  exists n, match main_loop keccak256 n n g m with inl (e, r) => done_ok e r | inr x => C x end.
Proof.
  remember (Z.to_nat (machine_measure m)) as k eqn:Hk. revert m Hk. induction (lt_wf k) as [k _ IH]. intros [e f l] Hk Hi Hr.
  set (n1 := Z.to_nat (frame_measure f)). pose proof (frame_measure_pos f (mi_frame _ Hi)) as Pos.
  pose proof (main_round_spec e f l n1 Hi Hr ltac:(unfold n1; lia)) as K.
  destruct (main_round keccak256 n1 g (Machine e f l)) as [m'|e' res|x] eqn:E; cbn [round_ok] in K.
  - destruct K as [Hi' Hm]. pose proof (round_reaches _ _ _ _ _ E) as Hr'.
    assert (Mp : 0 <= machine_measure m').
    { destruct m' as [e2 f2 l2]. unfold machine_measure, total_gas; cbn [m_frame m_stack]. pose proof (gas_sum_pos l2 (mi_stack _ Hi')).
      pose proof (fo_gas _ (fi_ok _ (mi_frame _ Hi'))) as []. cbn [m_frame] in *. lia. }
    destruct (IH (Z.to_nat (machine_measure m')) ltac:(lia) m' eq_refl Hi' (reaches_trans _ _ _ Hr Hr')) as (n2 & K2).
    exists (S (Nat.max n1 n2)). cbn [main_loop].
    assert (E' : main_round keccak256 (S (Nat.max n1 n2)) g (Machine e f l) = Continue m').
    { unfold main_round in *. rewrite (execute_frame_mono n1) by (lia || (intros X; rewrite X in E; discriminate)). exact E. }
    rewrite E', (main_loop_mono n2 _ n2) by (lia || (intros X; rewrite X in K2; exact (no_fuel_fault K2))). exact K2.
  - exists (S n1). cbn [main_loop].
    assert (E' : main_round keccak256 (S n1) g (Machine e f l) = Done e' res).
    { unfold main_round in *. rewrite (execute_frame_mono n1) by (lia || (intros X; rewrite X in E; discriminate)). exact E. }
    rewrite E'. exact K.
  - exists (S n1). cbn [main_loop].
    assert (E' : main_round keccak256 (S n1) g (Machine e f l) = Faulty x).
    { unfold main_round in *. rewrite (execute_frame_mono n1); [exact E | lia |].
      intros X; rewrite X in E. injection E as <-. exact (no_fuel_fault K). }
    rewrite E'. exact K.
Qed.
End Machine.

(** * A whole execution *)

Record env_ok (env : execution_env_t) : Prop := {
  ev_block : block_ok (env_block env);
  ev_tx : tx_ok (env_tx env);
  ev_gas : u64 (call_gas (env_call env));
  ev_code : bytes_ok (call_code (env_call env)) /\ Z.of_nat (length (call_code (env_call env))) < 2 ^ 63;
  ev_input : bytes_ok (call_input (env_call env)) /\ u64 (Z.of_nat (length (call_input (env_call env))));
  ev_addresses : wf_address (call_caller (env_call env)) /\ wf_address (call_address (env_call env));
  ev_value : wf256 (call_value (env_call env)) }.

(** The machine [evm_execute_env] starts. *)
Definition start (e : evm_t) (env : execution_env_t) (s : evm_stack_t) : machine :=
  let c := env_call env in
  Machine (set_pool (set_context e (env_block env) (env_tx env)) (pool_depth e + 1) (pending_frame e))
    (Frame 0 (call_gas c) s evm_memory_init (call_code c) 0 0 0 EXEC_TX_START (call_is_static c)
       (call_caller c) (call_address c) (call_value c) (call_input c) None hash_zero) [].

Definition root_stack : evm_stack_t := Stack [] EVM_STACK_INITIAL_CAPACITY.

Lemma execute_env_start rounds fuel e env : pool_depth e < EVM_MAX_CALL_DEPTH ->
  evm_execute_env keccak256 rounds fuel e env = main_loop keccak256 rounds fuel (call_gas (env_call env)) (start e env root_stack).
Proof.
  intros H. unfold evm_execute_env, pool_rent. cbn [pool_depth set_context]. rewrite (proj2 (Z.ltb_lt _ _)) by exact H. reflexivity.
Qed.

Lemma start_inv {C} e env : evm_ok e -> env_ok env -> 0 <= pool_depth e < EVM_MAX_CALL_DEPTH ->
  machine_inv (C := C) e (call_gas (env_call env)) (pool_depth e) (call_is_static (env_call env)) (start e env root_stack).
Proof.
  intros He [Eb Et Eg Ec Ei [Ea1 Ea2] Ev] Hp. unfold start. split; cbn [m_evm m_frame m_stack].
  - destruct He. split; auto.
  - split; cbn [code_hash pc]; [| reflexivity | discriminate | apply instr_first].
    split; cbn [gas pc stack memory code input caller address value]; auto using init_mem_ok.
    + unfold code_size; cbn [code]. lia.
    + destruct init_ok as (s & E & Hs & _). injection E as <-. exact Hs.
  - constructor.
  - reflexivity.
  - cbn. unfold EVM_MAX_CALL_DEPTH in *. lia.
  - unfold total_gas; cbn [m_frame m_stack gas_sum gas]. lia.
  - intros S. cbn [is_static]. auto.
  - intros S. cbn. destruct (state e); [split; [reflexivity|auto]|auto].
Qed.

(** Faults that are not the model's own, and faults after a risk. *)
Definition any_fault (x : fault) : Prop := x <> OutOfFuel.
Definition risk_fault (g : Z) (m0 : machine) (x : fault) : Prop :=
  x <> OutOfFuel /\ exists m, reaches g m0 m /\ risky (m_frame m) = true.

Lemma any_bad : Bad (C := any_fault).
Proof. split; discriminate. Qed.

Lemma risk_calm g m0 m : reaches g m0 m -> Bad (C := risk_fault g m0) \/ risky (m_frame m) = false.
Proof.
  intros H. destruct (risky (m_frame m)) eqn:R; [left|right; reflexivity]. split; (split; [discriminate|exists m; auto]).
Qed.

(** A whole execution ends, with a result or with a fault that a risk explains. *)
Lemma execution_spec e env : evm_ok e -> env_ok env -> 0 <= pool_depth e < EVM_MAX_CALL_DEPTH ->
  exists n res, (forall rounds fuel, (n <= rounds)%nat -> (n <= fuel)%nat -> evm_execute_env keccak256 rounds fuel e env = res) /\
    match res with
    | inl (e', r) => done_ok e (call_gas (env_call env)) (call_is_static (env_call env)) e' r
    | inr x => risk_fault (call_gas (env_call env)) (start e env root_stack) x
    end.
Proof.
  intros He Hv Hp. set (g := call_gas (env_call env)). set (m0 := start e env root_stack).
  assert (NF : ~ risk_fault g m0 OutOfFuel) by (intros [H _]; contradiction).
  destruct (main_loop_spec (C := risk_fault g m0) e g (pool_depth e) (call_is_static (env_call env)) (ev_gas _ Hv) (proj1 Hp) m0
    (risk_calm g m0) NF m0 (start_inv e env He Hv Hp)) as (n & K); [constructor|].
  exists n, (main_loop keccak256 n n g m0). split; [|exact K].
  intros rounds fuel Hr Hf. rewrite execute_env_start by lia. apply main_loop_mono; auto.
  intros X. rewrite X in K. exact (NF K).
Qed.

(** Reachable machines satisfy the invariant. *)
Lemma mstep_inv e0 g p0 static m m' : u64 g -> 0 <= p0 -> machine_inv (C := any_fault) e0 g p0 static m -> mstep g m m' ->
  machine_inv (C := any_fault) e0 g p0 static m'.
Proof.
  intros Hg Hp Hi S. assert (K : exists e f l e' f' r, m = Machine e f l /\ evm_next (is_static f) e e' /\
    (stepped f f' /\ same_pool e e' /\ m' = Machine e' f' l \/ exited (C := any_fault) e f e' f' r /\ handle_result g (Machine e' f' l) r = Continue m')).
  { destruct S as [e f l e' f' D|e f l e' f' r m' D H|e f l e' f' er m' D H];
      pose proof (instruction_spec keccak256 keccak_wf e f (mi_evm _ _ _ _ _ Hi) (mi_frame _ _ _ _ _ Hi) (or_introl any_bad)) as K;
      unfold instruction_ok in K; rewrite D in K; exists e, f, l, e', f'.
    - exists frame_result_stop. split; [reflexivity|]. split; [apply K|]. left. destruct K as (?&?&?). auto.
    - exists r. split; [reflexivity|]. split; [apply K|]. right. split; [right; apply K | exact H].
    - exists (frame_result_error er). split; [reflexivity|]. split; [apply K|]. right. split; [left; split; [reflexivity|apply K] | exact H]. }
  destruct K as (e & f & l & e' & f' & r & -> & N & [(Sp & [P1 P2] & ->)|[X H]]).
  2:{ pose proof (handle_result_spec e0 g p0 static Hg Hp e f l e' f' r Hi N X) as K. rewrite H in K. apply K. }
  destruct Hi as [M1 M2 M3 M4 M5 M6 M7 M8]. cbn [m_evm m_frame m_stack] in *. destruct (sp_context _ _ Sp) as (_&Ed&_&Es&_).
  split; cbn [m_evm m_frame m_stack].
  - exact (evm_next_ok _ _ _ M1 N).
  - exact (sp_inv _ _ Sp).
  - exact M3.
  - destruct l; cbn [depths] in *; rewrite Ed; exact M4.
  - rewrite P1. exact M5.
  - pose proof (sp_gas _ _ Sp). unfold total_gas in *; cbn [m_frame m_stack] in *. lia.
  - intros S'. rewrite Es. exact (M7 S').
  - eapply world_kept_next; [|exact N|exact M8]. intros S'. exact (proj1 (M7 S')).
Qed.

Lemma reaches_inv e0 g p0 static m m' : u64 g -> 0 <= p0 -> machine_inv (C := any_fault) e0 g p0 static m -> reaches g m m' ->
  machine_inv (C := any_fault) e0 g p0 static m'.
Proof. intros Hg Hp Hi H. induction H as [|x y z S _ IH]; [exact Hi|]. apply IH. eapply mstep_inv; eauto. Qed.
End Execution.
