(* ===== verification/Endless.v ===== *)
(** Instructions that never end. The only loop of an instruction that may run
    for ever is the doubling loop of [evm_memory_expand] (src/evm/memory.c): it
    does so on a range that ends above [2^63] and not in the last 32 bytes of
    the 64-bit space. This file decides from the program counter and the stack
    whether an instruction has such a range, and shows that every other
    instruction, and with it every run that meets none, comes to an end. *)
From Stdlib Require Import ZArith Lia List Bool RelationClasses Relations.
From S2P Require Import Prelude Uint256 Types Effects Arena Stack Memory Opcodes Gas StateAccess Frame.
From S2P Require Import OpsArith OpsData CallOps Evm FrameLogic OpsSafe StateSafe CallSafe EvmSafe Execution.
Import ListNotations.
#[local] Open Scope Z_scope.
#[local] Open Scope word_scope.

(** * The ranges of an instruction *)

Definition endless_range (r : Z * Z) : bool :=
  let '(offset, size) := r in (0 <? size) && (2 ^ 63 <? offset + size) && (offset + size <=? 2 ^ 64 - 32).

(** The memory ranges, as offset and size, that an opcode takes from the words
    [l] of the stack, top first. *)
Definition call_ranges (o : option call_stack_args_t) : list (Z * Z) :=
  match o with
  | None => []
  | Some a => [(val (arg_args_offset a), val (arg_args_size a)); (val (arg_ret_offset a), val (arg_ret_size a))]
  end.

Definition memory_ranges (op : Z) (l : list uint256_t) : list (Z * Z) :=
  let w i := val (nth i l uint256_zero) in
  if (op =? OP_MLOAD) || (op =? OP_MSTORE) then [(w 0%nat, 32)]
  else if op =? OP_MSTORE8 then [(w 0%nat, 1)]
  else if (op =? OP_CALLDATACOPY) || (op =? OP_CODECOPY) || (op =? OP_RETURNDATACOPY) then [(w 0%nat, w 2%nat)]
  else if op =? OP_EXTCODECOPY then [(w 1%nat, w 3%nat)]
  else if mem_op op then [(w 0%nat, w 1%nat)]
  else if value_call op then call_ranges (args_of true l)
  else if plain_call op then call_ranges (args_of false l)
  else [].

Definition endless (f : call_frame_t) : bool :=
  (pc f <? code_size f) && existsb endless_range (memory_ranges (current_op f) (items (stack f))).

(** [evm_memory_expand] does not return exactly on these ranges. *)
Lemma expand_endless m offset size : mem_ok m -> u64 offset -> u64 size ->
  evm_memory_expand m offset size = None <-> endless_range (offset, size) = true.
Proof.
  intros Hm Ho Hs. unfold endless_range. rewrite !andb_true_iff, !Z.ltb_lt, Z.leb_le. split.
  - intros E. pose proof (expand_any m offset size Hm Ho Hs) as K. rewrite E in K. unfold u64 in *.
    destruct (Z.eq_dec size 0) as [->|N]; [unfold evm_memory_expand in E; discriminate|].
    destruct (Z.le_gt_cases (2 ^ 64) (offset + size)) as [L|L].
    { unfold evm_memory_expand, SIZE_MAX in E. rewrite (proj2 (Z.eqb_neq _ _)) in E by lia.
      destruct (Z.gtb_spec offset (2 ^ 64 - 1 - size)); [discriminate|lia]. }
    destruct (Z.le_gt_cases (offset + size) (2 ^ 64 - 32)); [lia|].
    rewrite expand_wraps in E by (unfold u64; lia). discriminate.
  - intros [[? ?] ?]. apply expand_diverges; auto.
Qed.

(** * Where a computation can hang *)

Section Hang.
Context {S : Type}.

Definition hang {A} (m : M S A) (s : S) : Prop := m s = Crash Diverges.
Definition never {A} (m : M S A) : Prop := forall s, ~ hang m s.

Lemma hang_bind {A B} (m : M S A) (k : A -> M S B) s : hang (bind m k) s ->
  hang m s \/ exists a s', m s = Ret s' a /\ hang (k a) s'.
Proof. unfold hang, bind. destruct (m s) as [s' a|s' e|x]; intros H; [right; eauto | discriminate | left; congruence]. Qed.

Lemma hang_after {A B} (m : M S A) (k : A -> M S B) s : never m -> hang (bind m k) s ->
  exists a s', m s = Ret s' a /\ hang (k a) s'.
Proof. intros N H. apply hang_bind in H as [H|H]; [destruct (N s H) | exact H]. Qed.

Lemma never_bind {A B} (m : M S A) (k : A -> M S B) : never m -> (forall a, never (k a)) -> never (bind m k).
Proof. intros Hm Hk s H. apply hang_after in H as (a & s' & _ & H); [exact (Hk a s' H) | exact Hm]. Qed.

Lemma never_if {A} (b : bool) (m1 m2 : M S A) : never m1 -> never m2 -> never (if b then m1 else m2).
Proof. destruct b; auto. Qed.

Lemma never_ret {A} (a : A) : never (ret (S := S) a). Proof. intros s; discriminate. Qed.
Lemma never_throw {A} e : never (throw (S := S) (A := A) e). Proof. intros s; discriminate. Qed.
Lemma never_gets {A} (g : S -> A) : never (gets g). Proof. intros s; discriminate. Qed.
Lemma never_modify (g : S -> S) : never (modify g). Proof. intros s; discriminate. Qed.
Lemma never_guard b e : never (guard (S := S) b e). Proof. destruct b; intros s; discriminate. Qed.
Lemma never_check (g : S -> bool) e : never (check g e). Proof. intros s. unfold hang, check, guard. destruct (g s); discriminate. Qed.

Lemma hang_guard {A} b e (k : unit -> M S A) s : hang (bind (guard b e) k) s -> b = true /\ hang (k tt) s.
Proof. unfold hang, bind, guard. destruct b; [auto|discriminate]. Qed.

Lemma hang_check {A} g e (k : unit -> M S A) s : hang (bind (check g e) k) s -> hang (k tt) s.
Proof. unfold hang, bind, check, guard. destruct (g s); [auto|discriminate]. Qed.
End Hang.

Create HintDb never.
#[export] Hint Resolve never_bind never_if never_ret never_throw never_gets never_modify never_guard never_check : never.

(** ** Steps of the frame, alone or inside a larger state *)

Lemma never_zoom {S T A} (get : S -> T) (put : T -> S -> S) (m : M T A) : never m -> never (zoom get put m).
Proof. intros N s. unfold hang, zoom. specialize (N (get s)). unfold hang in N. destruct (m (get s)); congruence. Qed.

Lemma never_pop : never pop. Proof. intros f. unfold hang, pop. destruct (evm_stack_pop_unsafe _) as [[]|]; discriminate. Qed.
Lemma never_push v : never (push v). Proof. intros f. unfold hang, push. destruct (evm_stack_push_unsafe _ _); discriminate. Qed.
Lemma never_mload o n : never (mload o n). Proof. intros f. unfold hang, mload. destruct (evm_memory_load_unsafe _ _ _); discriminate. Qed.
Lemma never_mstore o bs : never (mstore o bs). Proof. intros f. unfold hang, mstore. destruct (evm_memory_store_unsafe _ _ _); discriminate. Qed.
Lemma never_need n : never (need_items n). Proof. apply never_check. Qed.
Lemma never_charge c : never (charge c). Proof. unfold charge. auto with never. Qed.
Lemma never_charge_memory c d : never (charge_with_memory c d). Proof. unfold charge_with_memory. auto using never_charge with never. Qed.
#[export] Hint Resolve never_zoom never_pop never_push never_mload never_mstore never_need never_charge never_charge_memory : never.

Lemma never_topics n : never (pop_topics n). Proof. induction n; cbn [pop_topics]; auto with never. Qed.
Lemma never_pop_n n : never (pop_n n). Proof. induction n; cbn [pop_n]; auto with never. Qed.
Lemma never_args (hv : bool) : never (if hv then pop_call_args else pop_call_args_no_value).
Proof. destruct hv; unfold pop_call_args, pop_call_args_no_value; auto 12 with never. Qed.
#[export] Hint Resolve never_topics never_pop_n never_args : never.

(** How the handlers run a step of the frame in their own state. *)
Definition lifts {S} (get : S -> call_frame_t) (lift : forall A, FM A -> M S A) : Prop := forall A (m : FM A) s,
  match m (get s) with
  | Ret f a => exists s', lift A m s = Ret s' a /\ get s' = f
  | Err _ e => exists s', lift A m s = Err s' e
  | Crash x => lift A m s = Crash x
  end.

Lemma lifts_self : lifts (fun f => f) (fun A (m : FM A) => m).
Proof. intros A m f. destruct (m f); eauto. Qed.

Lemma lifts_on_frame {St} : lifts (S := St * call_frame_t) snd (fun A => on_frame (A := A)).
Proof. intros A m [st f]. unfold on_frame, zoom; cbn [snd fst]. destruct (m f); eauto. Qed.

Section Lifted.
Context {S : Type} {get : S -> call_frame_t} {lift : forall A, FM A -> M S A}.
Hypothesis L : lifts get lift.

Lemma lift_ret {A} (m : FM A) s s' a : lift A m s = Ret s' a -> m (get s) = Ret (get s') a.
Proof. intros E. pose proof (L A m s) as K. destruct (m (get s)); [destruct K as (? & K & <-) | destruct K as (? & K) |]; congruence. Qed.

Lemma lift_hang {A} (m : FM A) s : hang (lift A m) s -> hang m (get s).
Proof. unfold hang. intros E. pose proof (L A m s) as K. destruct (m (get s)); [destruct K as (? & K & _) | destruct K as (? & K) |]; congruence. Qed.

Lemma never_lift {A} (m : FM A) : never m -> never (lift A m).
Proof. intros N s H. apply lift_hang in H. exact (N _ H). Qed.

Lemma hang_need {A} n (k : unit -> M S A) s : hang (bind (lift _ (need_items n)) k) s ->
  exists s', get s' = get s /\ hang (k tt) s'.
Proof.
  intros H. apply hang_after in H as ([] & s' & E & H); [|apply never_lift, never_need]. exists s'. split; [|exact H].
  apply lift_ret in E. unfold need_items, check, guard in E. destruct (evm_stack_has_items _ _); [|discriminate]. injection E as ->. reflexivity.
Qed.

Lemma hang_pop {A} (k : uint256_t -> M S A) s : hang (bind (lift _ pop) k) s ->
  exists x s', items (stack (get s)) = x :: items (stack (get s')) /\ memory (get s') = memory (get s) /\ hang (k x) s'.
Proof.
  intros H. apply hang_after in H as (x & s' & E & H); [|apply never_lift, never_pop]. exists x, s'.
  apply lift_ret in E. unfold pop, evm_stack_pop_unsafe in E. destruct (items (stack (get s))) as [|y rest]; [discriminate|].
  injection E as <- <-. auto.
Qed.

Lemma hang_lift_guard {A} b e (k : unit -> M S A) s : hang (bind (lift _ (guard b e)) k) s ->
  b = true /\ exists s', get s' = get s /\ hang (k tt) s'.
Proof.
  intros H. apply hang_after in H as ([] & s' & E & H); [|apply never_lift, never_guard].
  apply lift_ret in E. destruct b; [|discriminate]. injection E as E. eauto.
Qed.
End Lifted.

(** * The handlers with a memory range *)

(** What the handlers need of the frame they start in. *)
Definition sane (f : call_frame_t) : Prop := mem_ok (memory f) /\ Forall wf256 (items (stack f)).

Lemma fits_word x : wf256 x -> uint256_fits_u64 x = true -> uint256_to_u64_unsafe x = val x /\ u64 (val x).
Proof.
  intros W F. split; [exact (uint256_to_u64_spec x W F)|]. rewrite uint256_fits_u64_spec in F by exact W.
  pose proof (val_range x W). unfold u64. lia.
Qed.

Lemma hang_expand {A} o n (k : Z -> FM A) f : mem_ok (memory f) -> u64 o -> u64 n -> (forall c, never (k c)) ->
  hang (bind (expand o n) k) f -> endless_range (o, n) = true.
Proof.
  intros Hm Ho Hn Hk H. apply hang_bind in H as [H|(c & f' & _ & H)]; [|destruct (Hk c f' H)].
  apply (expand_endless (memory f)); auto. unfold hang, expand in H. destruct (evm_memory_expand _ _ _) as [[[[] c] m]|]; congruence.
Qed.

(** Walk over the steps before the expansion, in the frame itself and in the
    frame next to the state; the words popped stay at the top of the goal. *)
Ltac walk L H := repeat first
  [ let s := fresh "s" in let E := fresh "E" in apply (hang_need L) in H as (s & E & H); cbv beta in E
  | let x := fresh "x" in let s := fresh "s" in let I := fresh "I" in let M := fresh "M" in apply (hang_pop L) in H as (x & s & I & M & H)
  | let G := fresh "G" in apply hang_guard in H as [G H]
  | let G := fresh "G" in let s := fresh "s" in let E := fresh "E" in apply (hang_lift_guard L) in H as (G & s & E & H)
  | apply hang_check in H ].
Ltac frame_walk H := walk lifts_self H.
Ltac state_walk H := walk uconstr:(lifts_on_frame) H.

(** The words of the initial stack, once the pops are known. *)
Ltac words_known := repeat match goal with
  | E : ?s = ?f |- _ => is_var s; is_var f; subst s
  | E : snd ?s = _ |- _ => rewrite E in *; clear E
  | I : items (stack ?f) = _, J : context [items (stack ?f)] |- _ => rewrite I in J
  | I : items (stack ?f) = _ |- context [items (stack ?f)] => rewrite I
  | H : Forall wf256 (_ :: _) |- _ => let W := fresh "W" in apply Forall_cons_iff in H as [W H]
  end.

Ltac fit := repeat match goal with
  | G : negb (negb _ || negb _) = true |- _ => rewrite negb_orb, !negb_involutive, andb_true_iff in G; destruct G
  | F : uint256_fits_u64 ?x = true, W : wf256 ?x |- _ => destruct (fits_word x W F) as [? ?]; clear F
  | E : uint256_to_u64_unsafe _ = _ |- _ => rewrite E in *; clear E
  end.

Ltac same_memory := repeat match goal with M : memory ?s = memory _ |- context [memory ?s] => rewrite M end; assumption.
Ltac expands H := apply (fun a b c d => hang_expand _ _ _ _ a b c d H);
  [same_memory | first [assumption | unfold u64; lia] | first [assumption | unfold u64; lia] | ].

Lemma hang_mload c f : sane f -> hang (op_mload c) f -> endless_range (val (nth 0 (items (stack f)) uint256_zero), 32) = true.
Proof.
  intros [Hm Hw] H. unfold op_mload in H. frame_walk H. words_known. fit. cbn [nth].
  expands H. auto 10 with never.
Qed.

Lemma hang_mstore c f : sane f -> hang (op_mstore c) f -> endless_range (val (nth 0 (items (stack f)) uint256_zero), 32) = true.
Proof.
  intros [Hm Hw] H. unfold op_mstore in H. frame_walk H. words_known. fit. cbn [nth].
  expands H. auto 10 with never.
Qed.

Lemma hang_mstore8 c f : sane f -> hang (op_mstore8 c) f -> endless_range (val (nth 0 (items (stack f)) uint256_zero), 1) = true.
Proof.
  intros [Hm Hw] H. unfold op_mstore8 in H. frame_walk H. words_known. fit. cbn [nth].
  expands H. auto 10 with never.
Qed.

Lemma hang_return_range f : sane f -> hang op_return_range f ->
  endless_range (val (nth 0 (items (stack f)) uint256_zero), val (nth 1 (items (stack f)) uint256_zero)) = true.
Proof.
  intros [Hm Hw] H. unfold op_return_range in H. frame_walk H. words_known. fit. cbn [nth].
  apply hang_bind in H as [H|(a & f' & _ & H)]; [|destruct (never_ret _ _ H)].
  destruct (_ >? 0); [|destruct (never_ret _ _ H)]. expands H. auto with never.
Qed.

Lemma hang_keccak keccak256 c f : sane f -> hang (op_keccak256 keccak256 c) f ->
  endless_range (val (nth 0 (items (stack f)) uint256_zero), val (nth 1 (items (stack f)) uint256_zero)) = true.
Proof.
  intros [Hm Hw] H. unfold op_keccak256 in H. frame_walk H.
  destruct (uint256_is_zero _); [exfalso; revert H; apply never_bind; auto with never|]. frame_walk H. words_known. fit. cbn [nth].
  expands H. auto 20 with never.
Qed.

Lemma hang_copy_prepare c dest n f : mem_ok (memory f) -> wf256 dest -> u64 n -> hang (copy_prepare c dest n) f ->
  endless_range (val dest, n) = true.
Proof.
  intros Hm Hw Hn H. unfold copy_prepare in H. frame_walk H. fit. expands H. auto with never.
Qed.

Lemma hang_copy source c f : sane f -> hang (copy_op source c) f ->
  endless_range (val (nth 0 (items (stack f)) uint256_zero), val (nth 2 (items (stack f)) uint256_zero)) = true.
Proof.
  intros [Hm Hw] H. unfold copy_op in H. frame_walk H.
  destruct (uint256_is_zero _); [destruct (never_charge _ _ H)|]. frame_walk H. words_known. fit. cbn [nth].
  apply hang_bind in H as [H|(a & f' & _ & H)]; [apply (fun a b c => hang_copy_prepare _ _ _ _ a b c H); [same_memory | assumption | assumption]|].
  exfalso. revert H. apply never_bind; auto with never.
Qed.

Lemma hang_returndatacopy c bs f : sane f -> hang (op_returndatacopy c bs) f ->
  endless_range (val (nth 0 (items (stack f)) uint256_zero), val (nth 2 (items (stack f)) uint256_zero)) = true.
Proof.
  intros [Hm Hw] H. unfold op_returndatacopy in H. frame_walk H.
  destruct (uint256_is_zero _); [destruct (never_charge _ _ H)|]. frame_walk H. words_known. fit. cbn [nth].
  apply hang_bind in H as [H|(a & f' & _ & H)]; [apply (fun a b c => hang_copy_prepare _ _ _ _ a b c H); [same_memory | assumption | assumption]|]. destruct (never_mstore _ _ _ H).
Qed.

(** Popping the topics leaves the memory. *)
Lemma topics_memory n f f' l : pop_topics n f = Ret f' l -> memory f' = memory f.
Proof.
  revert f l; induction n as [|n IH]; intros f l; cbn [pop_topics]; unfold ret, bind; [intros [= <- _]; reflexivity|].
  unfold pop. destruct (evm_stack_pop_unsafe _) as [[x s]|]; [|discriminate].
  destruct (pop_topics n _) as [f1 l1|? ?|?] eqn:E; [|discriminate..]. intros [= <- _]. exact (IH _ _ E).
Qed.

Lemma hang_log logs n f : sane f -> hang (op_log_n logs n) f ->
  endless_range (val (nth 0 (items (stack f)) uint256_zero), val (nth 1 (items (stack f)) uint256_zero)) = true.
Proof.
  intros [Hm Hw] H. unfold op_log_n in H. frame_walk H. words_known. fit. cbn [nth].
  apply hang_after in H as (topics & s & E & H); [|apply never_topics]. apply topics_memory in E. frame_walk H.
  apply hang_bind in H as [H|(c & f' & _ & H)].
  - destruct (_ >? 0); [expands H; auto with never | destruct (never_ret _ _ H)].
  - exfalso. revert H. apply never_bind; [auto with never|]. intros _. apply never_bind; [auto with never|]. intros bs.
    apply never_bind; [auto with never|]. intros a. destruct (evm_log_vec_push _ _). auto with never.
Qed.

(** ** Handlers that also use the state *)

Section State.
Context {St : Type} {SA : StateAccess St}.
#[local] Abbreviation SM := (@SM St).
#[local] Open Scope eff_scope.

Lemma never_on_state {A} (g : St -> St * A) : never (on_state g).
Proof. intros s. unfold hang, on_state. destruct (g (fst s)). discriminate. Qed.

Lemma never_on_frame {A} (m : FM A) : never m -> never (on_frame (St := St) m).
Proof. apply (never_lift lifts_on_frame). Qed.

#[local] Hint Resolve never_on_state never_on_frame : never.

Lemma on_state_frame {A} (g : St -> St * A) s s' a : on_state g s = Ret s' a -> snd s' = snd s.
Proof. unfold on_state. destruct (g (fst s)). intros [= <- _]. reflexivity. Qed.

Lemma never_access a : never (access_cost (SA := SA) a).
Proof. unfold access_cost. auto with never. Qed.

Lemma access_frame a s s' c : access_cost (SA := SA) a s = Ret s' c -> snd s' = snd s.
Proof.
  unfold access_cost, bind. destruct (on_state _ s) as [s1 b|? ?|?] eqn:E; [|discriminate..]. intros [= <- _].
  exact (on_state_frame _ _ _ _ E).
Qed.

Lemma hang_extcodecopy s : sane (snd s) -> hang (op_extcodecopy (SA := SA)) s ->
  endless_range (val (nth 1 (items (stack (snd s))) uint256_zero), val (nth 3 (items (stack (snd s))) uint256_zero)) = true.
Proof.
  intros [Hm Hw] H. unfold op_extcodecopy in H. state_walk H. words_known. cbn [nth].
  apply hang_after in H as (c & s' & E & H); [|apply never_access]. apply access_frame in E.
  destruct (uint256_is_zero _); [destruct (never_on_frame _ (never_charge _) _ H)|]. state_walk H. fit.
  apply hang_bind in H as [H|(a & s9 & _ & H)].
  - apply (lift_hang lifts_on_frame) in H. apply (fun a b c => hang_copy_prepare _ _ _ _ a b c H); [|assumption..].
    repeat match goal with X : snd ?a = snd ?b |- context [memory (snd ?a)] => rewrite X end. same_memory.
  - exfalso. revert H. apply never_bind; auto with never.
Qed.

(** The arguments of a call. *)
Lemma pop_args_memory (hv : bool) f f' args : (if hv then pop_call_args else pop_call_args_no_value) f = Ret f' args ->
  args_of hv (items (stack f)) = Some args /\ memory f' = memory f.
Proof.
  destruct f as [p g [l c] m co oo os d et ist ca ad va inp jb ch]; cbn [stack items].
  destruct hv; unfold pop_call_args, pop_call_args_no_value, bind, pop, evm_stack_pop_unsafe, ret; cbn [stack items set_stack capacity];
    repeat (destruct l as [|? l]; [discriminate|]; cbn [stack items set_stack capacity]); intros [= <- <-]; split; reflexivity.
Qed.

Lemma args_of_words hv l args : Forall wf256 l -> args_of hv l = Some args ->
  wf256 (arg_args_offset args) /\ wf256 (arg_args_size args) /\ wf256 (arg_ret_offset args) /\ wf256 (arg_ret_size args).
Proof.
  intros W. destruct hv; repeat (destruct l as [|? l]; [discriminate|]; apply Forall_cons_iff in W as [? W]); intros [= <-]; auto.
Qed.

Lemma hang_expand_call ao az ro rz f : mem_ok (memory f) -> u64 ao -> u64 az -> u64 ro -> u64 rz -> ao + az < 2 ^ 64 -> ro + rz < 2 ^ 64 ->
  hang (expand_call_memory ao az ro rz) f -> endless_range (ao, az) = true \/ endless_range (ro, rz) = true.
Proof.
  unfold u64. intros Hm Ha Hz Hr Hs B1 B2 H. unfold hang, expand_call_memory, add64 in H. cbv zeta in H. rewrite !w64_small in H by (unfold u64; lia).
  match type of H with (if ?x >? _ then _ else _) = _ => set (e := x) in H end. destruct (e >? evm_memory_size (memory f)); [|discriminate].
  assert (E : 0 <= e < 2 ^ 64 /\ (e = 0 \/ 0 < az /\ e = ao + az \/ 0 < rz /\ e = ro + rz)).
  { unfold e. destruct (Z.gtb_spec az 0), (Z.gtb_spec rz 0), (Z.gtb_spec (ao + az) 0); try lia;
      match goal with |- context [?x >? ?y] => destruct (Z.gtb_spec x y) | _ => idtac end; lia. }
  clearbody e. destruct E as [U E]. destruct (evm_memory_expand _ _ _) as [[[ok c] m]|] eqn:X; [discriminate|].
  apply expand_endless in X; [|exact Hm | apply u64_0 | exact U]. unfold endless_range in *.
  rewrite !andb_true_iff, !Z.ltb_lt, Z.leb_le in *. lia.
Qed.

Lemma never_call_gas t args ao az ro rz v n : never (calculate_call_gas (SA := SA) t args ao az ro rz v n).
Proof.
  unfold calculate_call_gas. apply never_bind; [auto with never|]. intros b. apply never_bind.
  - apply never_on_frame. intros f. unfold hang. destruct (call_memory_cost _ _ _ _ _); discriminate.
  - intros c. apply never_bind; [auto with never|]. intros u. apply never_on_frame. intros f. unfold hang.
    destruct (split_gas _ _ _). discriminate.
Qed.

Lemma call_gas_inv t args ao az ro rz v n s s' g : calculate_call_gas (SA := SA) t args ao az ro rz v n s = Ret s' g ->
  memory (snd s') = memory (snd s) /\ exists c, call_memory_cost (memory (snd s)) ao az ro rz = Some c.
Proof.
  unfold calculate_call_gas, bind, on_state, on_frame, zoom, charge, check, guard, modify, ret, throw, bind.
  destruct s as [st f]; cbn [fst snd]. destruct (warm_address st t) as [st' b]; cbn [fst snd].
  destruct (call_memory_cost (memory f) ao az ro rz) as [c|] eqn:E; [|discriminate]. cbn [fst snd].
  destruct (negb _); [|discriminate]. cbn [fst snd]. destruct (split_gas _ _ _) as [pg cg]. intros [= <- _]. cbn. eauto.
Qed.

Lemma hang_prepare hv new s : sane (snd s) -> hang (prepare (SA := SA) hv new) s ->
  existsb endless_range (call_ranges (args_of hv (items (stack (snd s))))) = true.
Proof.
  intros [Hm Hw] H. unfold prepare in H. apply (hang_need lifts_on_frame) in H as (s1 & E1 & H).
  apply hang_after in H as (deep & s2 & E2 & H); [|apply never_gets]. injection E2 as <- _.
  destruct deep. { exfalso. revert H. apply never_bind; auto with never. }
  apply hang_after in H as (args & s3 & E3 & H); [|auto with never]. apply (lift_ret lifts_on_frame) in E3.
  apply pop_args_memory in E3 as [A M]. rewrite E1 in A, M. rewrite A. cbn [call_ranges existsb].
  destruct (args_of_words hv _ _ Hw A) as (W1 & W2 & W3 & W4). unfold prepare_args, validate_memory_args in H.
  apply hang_after in H as ([[[ao az] ro] rz] & s4 & E4 & H); [|auto with never]. apply (lift_ret lifts_on_frame) in E4.
  unfold bind, guard in E4. destruct (negb _) eqn:G; [|discriminate]. injection E4 as E4 <- <- <- <-.
  rewrite !negb_orb, !negb_involutive, !andb_true_iff in G. destruct G as [[[G1 G2] G3] G4].
  destruct (fits_word _ W1 G1) as [Q1 U1], (fits_word _ W2 G2) as [Q2 U2],
    (fits_word _ W3 G3) as [Q3 U3], (fits_word _ W4 G4) as [Q4 U4]. rewrite Q1, Q2, Q3, Q4 in H.
  apply hang_check in H. apply hang_after in H as (isnew & s5 & E5 & H); [|apply never_gets]. injection E5 as <- _.
  apply hang_after in H as (g & s6 & E6 & H); [|apply never_call_gas]. apply call_gas_inv in E6 as [M6 (c & C)].
  apply hang_bind in H as [H|(a & s7 & _ & H)]; [|destruct (never_ret _ _ H)]. apply (lift_hang lifts_on_frame) in H.
  assert (Mm : mem_ok (memory (snd s4))) by (rewrite <- E4, M; exact Hm).
  destruct (call_memory_cost_bound _ _ _ _ _ _ Mm U1 U2 U3 U4 C) as (_ & B1 & B2).
  apply hang_expand_call in H as [->| ->]; auto using orb_true_r. rewrite M6. exact Mm.
Qed.

Lemma never_start_child pool setup p : never (start_child (SA := SA) pool setup p).
Proof.
  unfold start_child. do 2 (apply never_bind; [auto with never|intros ?]). apply never_bind.
  - apply never_on_frame. unfold init_child_frame. apply never_if; [auto with never|]. apply never_bind; [auto with never|].
    intros bs f. unfold hang. destruct evm_stack_pool_borrow; discriminate.
  - intros [c|]; unfold call_fails; auto with never.
Qed.

Lemma never_fails : never (call_fails (St := St)). Proof. unfold call_fails. auto with never. Qed.
#[local] Hint Resolve never_start_child never_fails : never.

(** Each of the four handlers prepares, and the rest comes to an end. *)
Lemma hang_call hv new (k : option call_setup_t -> SM (option call_frame_t)) s : sane (snd s) -> (forall o, never (k o)) ->
  hang (setup <- prepare hv new ;; k setup) s -> existsb endless_range (call_ranges (args_of hv (items (stack (snd s))))) = true.
Proof.
  intros Hs Hk H. apply hang_bind in H as [H|(a & s' & _ & H)]; [exact (hang_prepare hv new s Hs H) | destruct (Hk a s' H)].
Qed.

Lemma hang_op_call pool s : sane (snd s) -> hang (op_call (SA := SA) pool) s ->
  existsb endless_range (call_ranges (args_of true (items (stack (snd s))))) = true.
Proof. intros Hs. apply (hang_call true true _ s Hs). intros [setup|]; auto 20 with never. Qed.

Lemma hang_op_callcode pool s : sane (snd s) -> hang (op_callcode (SA := SA) pool) s ->
  existsb endless_range (call_ranges (args_of true (items (stack (snd s))))) = true.
Proof. intros Hs. apply (hang_call true false _ s Hs). intros [setup|]; auto 20 with never. Qed.

Lemma hang_op_staticcall pool s : sane (snd s) -> hang (op_staticcall (SA := SA) pool) s ->
  existsb endless_range (call_ranges (args_of false (items (stack (snd s))))) = true.
Proof. intros Hs. apply (hang_call false false _ s Hs). intros [setup|]; auto with never. Qed.

Lemma hang_op_delegatecall pool s : sane (snd s) -> hang (op_delegatecall (SA := SA) pool) s ->
  existsb endless_range (call_ranges (args_of false (items (stack (snd s))))) = true.
Proof. intros Hs. apply (hang_call false false _ s Hs). intros [setup|]; auto with never. Qed.
End State.

(** * One instruction *)

Section Dispatch.
Context {St : Type} {SA : StateAccess St} {SL : StateLaws St}.
Variable keccak256 : list Z -> hash_t.
Hypothesis keccak_wf : forall bs, bytes_ok bs -> wf_hash (keccak256 bs).
#[local] Abbreviation evm_t := (evm_t St).
#[local] Abbreviation dispatch := (dispatch keccak256).
#[local] Abbreviation machine := (@machine St).

(** The opcodes with a memory range. *)
Definition ranged (op : Z) : bool := mem_op op || value_call op || plain_call op.

Definition hang_label (op : Z) (l : label (St := St)) : Prop := ranged op = true -> forall e f, sane f -> hang l (e, f) ->
  existsb endless_range (memory_ranges op (items (stack f))) = true.

Lemma hang_in_frame {A B} (m : evm_t -> FM A) (k : A -> EM B) e f : (forall a, never (k a)) -> hang (bind (in_frame m) k) (e, f) -> hang (m e) f.
Proof.
  intros Hk H. apply hang_bind in H as [H|(a & s & _ & H)]; [|destruct (Hk a s H)].
  unfold hang, in_frame, zoom in *; cbn [fst snd] in H. destruct (m e f); congruence.
Qed.

Lemma hang_in_state {A B} un (m : evm_t -> SM A) (k : A -> EM B) e f : (forall a, never (k a)) -> hang (bind (in_state un m) k) (e, f) ->
  exists st, hang (m e) (st, f).
Proof.
  intros Hk H. apply hang_bind in H as [H|(a & s & _ & H)]; [|destruct (Hk a s H)].
  unfold hang, in_state in *; cbn [fst snd] in H. destruct (state e) as [st|]; [|discriminate]. exists st.
  destruct (m e (st, f)) as [[? ?] ?|[? ?] ?|?]; congruence.
Qed.

Lemma never_child (o : option call_frame_t) : never (match o with
  | None => ret (S := evm_t * call_frame_t) None
  | Some c => bind (on_evm (fun e => set_pool e (pool_depth e + 1) (Some c))) (fun _ => ret (Some frame_result_call)) end).
Proof. destruct o; unfold on_evm; auto with never. Qed.

#[local] Hint Resolve never_child : never.

Lemma one_range r : endless_range r = true -> existsb endless_range [r] = true.
Proof. intros E. cbn [existsb]. rewrite E. reflexivity. Qed.

Ltac in_frame_ lem := let e := fresh "e" in let f := fresh "f" in let Hs := fresh "Hs" in let H := fresh "H" in
  intros _ e f Hs H; apply hang_in_frame in H; [|unfold on_evm; auto with never]; apply one_range;
  exact (lem f Hs H).
Ltac in_state_ lem := let e := fresh "e" in let f := fresh "f" in let Hs := fresh "Hs" in let H := fresh "H" in let st := fresh "st" in
  intros _ e f Hs H; apply hang_in_state in H as (st & H); [|auto with never]; first [exact (lem (st, f) Hs H) | apply one_range, (lem (st, f) Hs H)].

Ltac ranged_label := lazymatch goal with
  | |- hang_label OP_MLOAD _ => in_frame_ uconstr:(hang_mload _)
  | |- hang_label OP_MSTORE _ => in_frame_ uconstr:(hang_mstore _)
  | |- hang_label OP_MSTORE8 _ => in_frame_ uconstr:(hang_mstore8 _)
  | |- hang_label OP_KECCAK256 _ => in_frame_ uconstr:(hang_keccak _ _)
  | |- hang_label OP_CALLDATACOPY _ => in_frame_ uconstr:(hang_copy _ _)
  | |- hang_label OP_CODECOPY _ => in_frame_ uconstr:(hang_copy _ _)
  | |- hang_label OP_RETURNDATACOPY _ => in_frame_ uconstr:(hang_returndatacopy _ _)
  | |- hang_label OP_RETURN _ => in_frame_ uconstr:(hang_return_range)
  | |- hang_label OP_REVERT _ => in_frame_ uconstr:(hang_return_range)
  | |- hang_label OP_EXTCODECOPY _ => in_state_ uconstr:(hang_extcodecopy)
  | |- hang_label OP_CALL _ => in_state_ uconstr:(hang_op_call _)
  | |- hang_label OP_CALLCODE _ => in_state_ uconstr:(hang_op_callcode _)
  | |- hang_label OP_STATICCALL _ => in_state_ uconstr:(hang_op_staticcall _)
  | |- hang_label OP_DELEGATECALL _ => in_state_ uconstr:(hang_op_delegatecall _)
  | |- hang_label (OP_LOG0 + _) _ => in_frame_ uconstr:(hang_log _ _)
  | |- hang_label _ _ => intros M; discriminate M
  end.

Lemma hang_table : Forall (fun e => hang_label (fst e) (snd e)) (dispatch_table keccak256).
Proof.
  unfold dispatch_table, arithmetic_labels, bitwise_labels, push_labels, context_labels, block_labels, stack_labels, memory_labels,
    control_labels, call_return_labels, log_labels. rewrite ?Forall_app, ?Forall_cons_iff, ?Forall_app, ?Forall_map.
  repeat match goal with |- _ /\ _ => split end; cbn [seq]; try apply Forall_nil; repeat (apply Forall_cons; [cbn [fst snd]|]);
    try apply Forall_nil; cbn [fst snd]; ranged_label.
Qed.

Lemma hang_find op : hang_label op (find_label (dispatch_table keccak256) op).
Proof.
  pose proof hang_table as H. induction H as [|[k l] rest Hl Hrest IH]; cbn [find_label].
  - intros _ e f _ X. destruct (never_throw _ _ X).
  - destruct (Z.eqb_spec k op) as [<-|N]; [exact Hl|exact IH].
Qed.

(** An instruction never ends only on a range the doubling loop cannot cover. *)
Lemma dispatch_endless e f : evm_ok e -> frame_inv f -> dispatch (e, f) = Crash Diverges -> endless f = true.
Proof.
  intros He Hi D. unfold endless. destruct (Z.ltb_spec (pc f) (code_size f)) as [L|L]; cbn [andb].
  2:{ unfold Evm.dispatch in D; cbn [fst snd] in D. rewrite (proj2 (Z.leb_le _ _)) in D by exact L. discriminate. }
  destruct (ranged (current_op f)) eqn:R.
  - unfold Evm.dispatch in D; cbn [fst snd] in D. rewrite (proj2 (Z.leb_gt _ _)) in D by exact L.
    refine (hang_find _ R e (set_pc f (pc f +64 1)) _ D). destruct (fi_ok _ Hi) as [_ _ [_ _ Sw] Hm _ _ _ _ _]. split; assumption.
  - pose proof (instruction_covered keccak256 keccak_wf (C := fun x => x <> Diverges) e f He Hi) as K. unfold instruction_ok in K. rewrite D in K.
    exfalso. apply K; [|reflexivity]. intros _. unfold ranged in R. apply orb_false_iff in R as [R R3]. apply orb_false_iff in R as [R1 R2].
    right. unfold risky_op. rewrite R1, R2, R3. cbn [andb orb]. destruct (dup_op _); [right; split; [reflexivity|discriminate] | left; reflexivity].
Qed.
End Dispatch.

(** * Whole executions *)

(** The doubling loop of [copy_return_data] checks for overflow and ends. *)
Lemma return_capacity_ends fuel k size : 0 <= k <= 63 -> 64 - k <= Z.of_nat fuel -> return_capacity fuel (2 ^ k) size <> None.
Proof.
  revert k; induction fuel as [|fuel IH]; intros k Hk Hf; [lia|]. cbn [return_capacity]. destruct (_ <? _); [|discriminate].
  unfold SIZE_MAX. destruct (Z.gtb_spec (2 ^ k) ((2 ^ 64 - 1) / 2)) as [X|X]; [discriminate|].
  change ((2 ^ 64 - 1) / 2) with (2 ^ 63 - 1) in X. assert (k <> 63) by (intros ->; lia).
  unfold mul64. replace (2 ^ k * 2) with (2 ^ (k + 1)) by (rewrite Z.pow_add_r by lia; reflexivity).
  assert (2 ^ (k + 1) <= 2 ^ 63) by (apply Z.pow_le_mono_r; lia). assert (0 < 2 ^ (k + 1)) by (apply Z.pow_pos_nonneg; lia).
  rewrite w64_small by (unfold u64; lia). apply IH; lia.
Qed.

Section Runs.
Context {St : Type} {SA : StateAccess St} {SL : StateLaws St}.
Variable keccak256 : list Z -> hash_t.
Hypothesis keccak_wf : forall bs, bytes_ok bs -> wf_hash (keccak256 bs).
#[local] Abbreviation evm_t := (evm_t St).
#[local] Abbreviation dispatch := (dispatch keccak256).
#[local] Abbreviation machine := (@machine St).
Variable g : Z.

Lemma copy_return_fault (e : evm_t) mem off size x : copy_return_data e mem off size = inr x -> x = OutOfBounds.
Proof.
  unfold copy_return_data. destruct (size =? 0); [discriminate|].
  pose proof (return_capacity_ends 64 8 size ltac:(lia) ltac:(lia)) as N. change (2 ^ 8) with 256 in N.
  destruct (_ >? _); [destruct (return_capacity 64 256 size) as [c|]; [destruct (alloc_succeeds c)|contradiction N; reflexivity]|];
    try destruct (evm_memory_load_unsafe _ _ _); congruence.
Qed.

Lemma resume_fault (e : evm_t) p rest flag x : resume e p rest flag = Faulty x -> x = OutOfBounds.
Proof. unfold resume. destruct (evm_stack_push_unsafe _ _); congruence. Qed.

Lemma return_fault (m : machine) r flag x : return_to_parent m r flag = Faulty x -> x = OutOfBounds.
Proof.
  unfold return_to_parent. destruct (m_stack m) as [|p rest]; [congruence|].
  destruct (copy_return_data _ _ _ _) as [e|y] eqn:E; [|intros [= <-]; exact (copy_return_fault _ _ _ _ _ E)].
  destruct (if _ >? 0 then _ else _); [apply resume_fault | congruence].
Qed.

Lemma handle_fault (m : machine) r x : handle_result g m r = Faulty x -> x = OutOfBounds.
Proof.
  unfold handle_result. destruct (action r); try destruct (_ =? 0); try destruct (_ <=? _); try discriminate;
    try (destruct (copy_return_data _ _ _ _) as [e|y] eqn:E; [discriminate | intros [= <-]; exact (copy_return_fault _ _ _ _ _ E)]);
    try apply return_fault.
  1-2: destruct (pending_frame _); congruence.
  destruct (m_stack m); [congruence | apply resume_fault].
Qed.

(** A frame that faults does so at an instruction it reaches. *)
Lemma execute_frame_fault fuel (e : evm_t) f l x : execute_frame keccak256 fuel (e, f) = Crash x -> x <> OutOfFuel ->
  exists e' f', reaches keccak256 g (Machine e f l) (Machine e' f' l) /\ dispatch (e', f') = Crash x.
Proof.
  intros H N. revert e f H; induction fuel as [|fuel IH]; intros e f; cbn [execute_frame]; [congruence|].
  destruct (dispatch (e, f)) as [[e1 f1] [r|]|[e1 f1] er|y] eqn:D; intros H; try discriminate.
  - destruct (IH e1 f1 H) as (e' & f' & R & D'). exists e', f'. split; [|exact D'].
    eapply Relation_Operators.rt1n_trans; [eapply ms_instr, D | exact R].
  - injection H as ->. exists e, f. split; [constructor | exact D].
Qed.

Lemma main_loop_hangs rounds fuel (m : machine) : main_loop keccak256 rounds fuel g m = inr Diverges ->
  exists m', reaches keccak256 g m m' /\ dispatch (m_evm m', m_frame m') = Crash Diverges.
Proof.
  revert m; induction rounds as [|rounds IH]; intros [e f l]; cbn [main_loop]; [discriminate|].
  destruct (main_round keccak256 fuel g (Machine e f l)) as [m1|e1 r|x] eqn:R; intros H; [|discriminate|].
  - destruct (IH m1 H) as (m' & R' & D). exists m'. split; [|exact D].
    eapply reaches_trans; [exact (round_reaches _ _ _ _ _ _ _ R) | exact R'].
  - injection H as ->. unfold main_round in R; cbn [m_evm m_frame m_stack] in R.
    destruct (execute_frame keccak256 fuel (e, f)) as [[e1 f1] r|? ?|x] eqn:X; [apply handle_fault in R; discriminate | discriminate |].
    injection R as ->. destruct (execute_frame_fault _ _ _ l _ X) as (e' & f' & R & D); [discriminate|].
    exists (Machine e' f' l). split; [exact R | exact D].
Qed.
End Runs.

(** An execution that never ends has reached an endless instruction. *)
Lemma execution_hangs {St} {SA : StateAccess St} {SL : StateLaws St} keccak256 rounds fuel (e : evm_t St) env :
  (forall bs, bytes_ok bs -> wf_hash (keccak256 bs)) -> evm_ok e -> env_ok env -> 0 <= pool_depth e < EVM_MAX_CALL_DEPTH ->
  evm_execute_env keccak256 rounds fuel e env = inr Diverges ->
  exists m, reaches keccak256 (call_gas (env_call env)) (start e env root_stack) m /\ endless (m_frame m) = true.
Proof.
  intros Hk He Hv Hp H. rewrite execute_env_start in H by lia. apply main_loop_hangs in H as (m & R & D). exists m. split; [exact R|].
  pose proof (reaches_inv keccak256 Hk e _ _ _ _ m (ev_gas _ Hv) (proj1 Hp) (start_inv e env He Hv Hp) R) as Hi.
  exact (dispatch_endless keccak256 Hk _ _ (mi_evm _ _ _ _ _ Hi) (mi_frame _ _ _ _ _ Hi) D).
Qed.

(** What explains a fault [x] of the execution of a message. *)
Definition blamed {St} {SA : StateAccess St} (keccak256 : list Z -> hash_t) (e : evm_t St) (env : execution_env_t) (x : fault) : Prop :=
  exists m, reaches keccak256 (call_gas (env_call env)) (start e env root_stack) m /\
    match x with OutOfBounds => risky (m_frame m) = true | Diverges => endless (m_frame m) = true | OutOfFuel => False end.

(** Every execution has an outcome, and a fault has its reason. *)
Lemma execution_outcome {St} {SA : StateAccess St} {SL : StateLaws St} keccak256 (e : evm_t St) env :
  (forall bs, bytes_ok bs -> wf_hash (keccak256 bs)) -> evm_ok e -> env_ok env -> 0 <= pool_depth e < EVM_MAX_CALL_DEPTH ->
  exists n res, (forall rounds fuel, (n <= rounds)%nat -> (n <= fuel)%nat -> evm_execute_env keccak256 rounds fuel e env = res) /\
    match res with
    | inl (e', r) => done_ok e (call_gas (env_call env)) (call_is_static (env_call env)) e' r
    | inr x => blamed keccak256 e env x
    end.
Proof.
  intros Hk He Hv Hp. destruct (execution_spec keccak256 Hk e env He Hv Hp) as (n & res & Hn & K). exists n, res. split; [exact Hn|].
  destruct res as [[e' r]|x]; [exact K|]. destruct K as [N (m & R & Rk)]. destruct x; [exists m; auto | | contradiction].
  apply (execution_hangs keccak256 n n); auto.
Qed.
