(* ===== verification/MemState.v ===== *)
(** A reference implementation of the state interface in finite maps. It shows
    that the laws of [StateLaws] can hold, and the examples run on it. *)
From stdpp Require Import base gmap countable numbers list.
From Stdlib Require Import ZArith Lia.
From S2P Require Import Prelude Uint256 Types StateAccess.
#[local] Open Scope Z_scope.

#[export] Instance uint256_eq_dec : EqDecision uint256_t.
Proof. solve_decision. Defined.

#[export] Program Instance uint256_countable : Countable uint256_t :=
  inj_countable' (fun x => (limb0 x, limb1 x, limb2 x, limb3 x)) (fun t => let '(a, b, c, d) := t in U256 a b c d) _.
Next Obligation. intros []; reflexivity. Qed.

Record account := Account { balance : uint256_t; nonce : Z; acc_code : list Z; acc_hash : hash_t }.

Definition empty_account : account := Account uint256_zero 0 [] hash_zero.

Record mem_state := MemState {
  accounts : gmap address_t account;
  slots : gmap (address_t * uint256_t) uint256_t;
  originals : gmap (address_t * uint256_t) uint256_t;
  warm_addresses : gset address_t;
  warm_slots : gset (address_t * uint256_t) }.

Definition account_of (s : mem_state) (a : address_t) : account := default empty_account (accounts s !! a).
Definition slot_of (m : gmap (address_t * uint256_t) uint256_t) (a : address_t) (k : uint256_t) : uint256_t :=
  default uint256_zero (m !! (a, k)).

Definition put_account (s : mem_state) (a : address_t) (x : account) : mem_state :=
  MemState (<[a := x]> (accounts s)) (slots s) (originals s) (warm_addresses s) (warm_slots s).
Definition put_balance (s : mem_state) (a : address_t) (v : uint256_t) : mem_state :=
  let x := account_of s a in put_account s a (Account v (nonce x) (acc_code x) (acc_hash x)).
Definition put_nonce (s : mem_state) (a : address_t) (n : Z) : mem_state :=
  let x := account_of s a in put_account s a (Account (balance x) n (acc_code x) (acc_hash x)).

#[export] Instance mem_access : StateAccess mem_state := {|
  account_exists s a := bool_decide (is_Some (accounts s !! a));
  account_is_empty s a := let x := account_of s a in
    uint256_is_zero (balance x) && (nonce x =? 0) && (length (acc_code x) =? 0)%nat;
  create_contract s a := put_account s a (Account uint256_zero 1 [] hash_zero);
  delete_account s a := MemState (delete a (accounts s)) (slots s) (originals s) (warm_addresses s) (warm_slots s);
  get_balance s a := balance (account_of s a);
  set_balance s a v := put_balance s a v;
  add_balance s a v :=
    let b := uint256_add (balance (account_of s a)) v in
    if uint256_lt b v then (s, false) else (put_balance s a b, true);
  sub_balance s a v :=
    let b := balance (account_of s a) in
    if uint256_lt b v then (s, false) else (put_balance s a (uint256_sub b v), true);
  get_nonce s a := nonce (account_of s a);
  set_nonce s a n := put_nonce s a n;
  increment_nonce s a := let n := nonce (account_of s a) in (put_nonce s a (w64 (n + 1)), n);
  get_code s a := acc_code (account_of s a);
  get_code_size s a := Z.of_nat (length (acc_code (account_of s a)));
  get_code_hash s a := acc_hash (account_of s a);
  set_code s a c := let x := account_of s a in put_account s a (Account (balance x) (nonce x) c (acc_hash x));
  get_storage s a k := slot_of (slots s) a k;
  get_original_storage s a k := slot_of (originals s) a k;
  set_storage s a k v := MemState (accounts s) (<[(a, k) := v]> (slots s)) (originals s) (warm_addresses s) (warm_slots s);
  is_address_warm s a := bool_decide (a ∈ warm_addresses s);
  warm_address s a := (MemState (accounts s) (slots s) (originals s) ({[a]} ∪ warm_addresses s) (warm_slots s),
    negb (bool_decide (a ∈ warm_addresses s)));
  is_slot_warm s a k := bool_decide ((a, k) ∈ warm_slots s);
  warm_slot s a k := (MemState (accounts s) (slots s) (originals s) (warm_addresses s) ({[(a, k)]} ∪ warm_slots s),
    negb (bool_decide ((a, k) ∈ warm_slots s)));
  begin_transaction s := MemState (accounts s) (slots s) (slots s) ∅ ∅;
  snapshot s := (s, 0);
  revert_to_snapshot s _ := s;
  commit_snapshot s _ := s;
  state_root s := (s, hash_zero);
  get_jumpdest_analysis := None;
  set_jumpdest_analysis := None |}.

Record mem_state_ok (s : mem_state) : Prop := {
  ms_accounts : forall a, wf256 (balance (account_of s a)) /\ bytes_ok (acc_code (account_of s a)) /\
    Z.of_nat (length (acc_code (account_of s a))) < 2 ^ 63 /\ wf_hash (acc_hash (account_of s a)) /\ u64 (nonce (account_of s a));
  ms_slots : forall a k, wf256 (slot_of (slots s) a k);
  ms_originals : forall a k, wf256 (slot_of (originals s) a k) }.

Lemma account_of_put s a x b : account_of (put_account s a x) b = if decide (a = b) then x else account_of s b.
Proof. unfold account_of, put_account; cbn. destruct (decide (a = b)) as [->|N]; by rewrite ?lookup_insert_eq, ?lookup_insert_ne. Qed.

Lemma slot_of_insert m a k v b j : slot_of (<[(a, k) := v]> m) b j = if decide ((a, k) = (b, j)) then v else slot_of m b j.
Proof. unfold slot_of. destruct (decide ((a, k) = (b, j))) as [E|N]; [rewrite E|]; by rewrite ?lookup_insert_eq, ?lookup_insert_ne. Qed.

Lemma put_account_ok s a x : mem_state_ok s -> wf256 (balance x) -> bytes_ok (acc_code x) -> Z.of_nat (length (acc_code x)) < 2 ^ 63 ->
  wf_hash (acc_hash x) -> u64 (nonce x) -> mem_state_ok (put_account s a x).
Proof.
  intros [H1 H2 H3] X1 X2 X3 X4 X5. split; [|exact H2|exact H3]. intros b. rewrite account_of_put.
  destruct (decide (a = b)); [auto | apply H1].
Qed.

Lemma put_balance_ok s a v : mem_state_ok s -> wf256 v -> mem_state_ok (put_balance s a v).
Proof. intros H Hv. destruct (ms_accounts s H a) as (_&?&?&?&?). by apply put_account_ok. Qed.

Lemma put_balance_code s a v b : acc_code (account_of (put_balance s a v) b) = acc_code (account_of s b).
Proof. unfold put_balance. rewrite account_of_put. by destruct (decide (a = b)) as [->|]. Qed.

#[export] Program Instance mem_laws : StateLaws mem_state := {| state_ok := mem_state_ok |}.
Next Obligation. intros s a H. apply H. Qed.
Next Obligation. intros s a k H. apply H. Qed.
Next Obligation. intros s a H. apply H. Qed.
Next Obligation. intros s a H. split; [reflexivity|apply H]. Qed.
Next Obligation. intros s a H. apply H. Qed.
Next Obligation. intros s a k H. apply H. Qed.
Next Obligation. intros s a [H1 H2 H3]. split; [split; auto|]. repeat split. Qed.
Next Obligation. intros s a. cbn. rewrite bool_decide_true; [reflexivity|set_solver]. Qed.
Next Obligation. intros s a k [H1 H2 H3]. split; [split; auto|]. repeat split. Qed.
Next Obligation. intros s a k. cbn. rewrite bool_decide_true; [reflexivity|set_solver]. Qed.
Next Obligation.
  intros s a k v [H1 H2 H3] Hv. split; [exact H1| |exact H3]. intros b j. cbn. rewrite slot_of_insert. destruct (decide _); auto.
Qed.
Next Obligation. intros s a k v H Hv. cbn. rewrite slot_of_insert. by rewrite decide_True. Qed.
Next Obligation. intros s a k v b j H Hv N. cbn. rewrite slot_of_insert. rewrite decide_False; [reflexivity | congruence]. Qed.
Next Obligation. reflexivity. Qed.
Next Obligation.
  intros s a v H Hv. unfold add_balance, mem_access. destruct (uint256_lt _ _); [exact H|]. apply put_balance_ok; [exact H|].
  rewrite uint256_add_spec; auto with words. apply H.
Qed.
Next Obligation.
  intros s a v H Hv. unfold sub_balance, mem_access. destruct (uint256_lt _ _); [exact H|]. apply put_balance_ok; [exact H|].
  rewrite uint256_sub_spec; auto with words. apply H.
Qed.
Next Obligation. intros s a v b _. unfold add_balance, mem_access. destruct (uint256_lt _ _); [reflexivity|]. apply put_balance_code. Qed.
Next Obligation. intros s a v b _. unfold sub_balance, mem_access. destruct (uint256_lt _ _); [reflexivity|]. apply put_balance_code. Qed.
Next Obligation. discriminate. Qed.
Next Obligation. discriminate. Qed.

(** The empty state. *)
Definition empty_state : mem_state := MemState ∅ ∅ ∅ ∅ ∅.

Lemma empty_state_ok : mem_state_ok empty_state.
Proof.
  split; intros; cbn; auto with words. repeat split; try apply wf_zero; try apply wf_hash_zero; try constructor; try lia.
Qed.
