(* ===== verification/OpsSpec.v ===== *)
(** Exact results of opcodes: the arithmetic instructions against integer
    reference functions, memory, copies, storage and calls, with the context of
    child frames and what their parents find when they have ended. *)
From Stdlib Require Import ZArith Lia List Bool.
From S2P Require Import Prelude Uint256 Multiply Knuth Arith Types Effects Arena Stack Memory Opcodes Gas StateAccess Frame OpsArith.
From S2P Require Import OpsData CallOps Evm FrameLogic OpsSafe EvmSafe CallSafe Execution.
Import ListNotations.
#[local] Open Scope Z_scope.
#[local] Open Scope word_scope.
#[local] Open Scope eff_scope.

(** * Exact results of the primitive steps *)

Lemma x_bind {S A B} (m : M S A) (k : A -> M S B) s s' a : m s = Ret s' a -> bind m k s = k a s'.
Proof. unfold bind. intros ->. reflexivity. Qed.

Lemma x_need n f : n <= top (stack f) -> need_items n f = Ret f tt.
Proof. intros H. unfold need_items, check, guard, evm_stack_has_items. rewrite (proj2 (Z.leb_le _ _)) by exact H. reflexivity. Qed.

Lemma x_need_fail n f : top (stack f) < n -> need_items n f = Err f EVM_STACK_UNDERFLOW.
Proof. intros H. unfold need_items, check, guard, evm_stack_has_items. rewrite (proj2 (Z.leb_gt _ _)) by exact H. reflexivity. Qed.

Lemma x_charge cost f : 0 <= cost <= gas f -> gas f < 2 ^ 64 -> charge cost f = Ret (set_gas f (gas f - cost)) tt.
Proof.
  intros H G. unfold charge, bind, check, guard, modify. destruct (Z.ltb_spec (gas f) cost); [lia|]. cbn [negb ret].
  unfold sub64. rewrite w64_small by (unfold u64; lia). reflexivity.
Qed.

Lemma x_charge_fail cost f : gas f < cost -> charge cost f = Err f EVM_OUT_OF_GAS.
Proof. intros H. unfold charge, bind, check, guard. rewrite (proj2 (Z.ltb_lt _ _)) by exact H. reflexivity. Qed.

Lemma x_pop f x rest : items (stack f) = x :: rest -> pop f = Ret (set_stack f (Stack rest (capacity (stack f)))) x.
Proof. intros H. unfold pop, evm_stack_pop_unsafe. rewrite H. reflexivity. Qed.

Lemma x_push v f : top (stack f) < capacity (stack f) -> push v f = Ret (set_stack f (Stack (v :: items (stack f)) (capacity (stack f)))) tt.
Proof. intros H. unfold push, evm_stack_push_unsafe. rewrite (proj2 (Z.ltb_lt _ _)) by exact H. reflexivity. Qed.

Lemma top_items f l : items (stack f) = l -> top (stack f) = Z.of_nat (length l).
Proof. intros <-. reflexivity. Qed.

(** * Binary operators *)

(** What a binary operator does to a frame, on every branch. *)
Definition binary_effect (r : uint256_t -> uint256_t -> uint256_t) (cost : Z) (f : call_frame_t) : outcome call_frame_t unit :=
  match items (stack f) with
  | a :: b :: rest =>
      if gas f <? cost then Err f EVM_OUT_OF_GAS
      else Ret (set_stack (set_gas f (gas f - cost)) (Stack (r a b :: rest) (capacity (stack f)))) tt
  | _ => Err f EVM_STACK_UNDERFLOW
  end.

Lemma binary_op_effect op cost f : frame_ok f -> 0 <= cost -> binary_op op cost f = binary_effect op cost f.
Proof.
  intros Hf Hc. destruct (fo_gas _ Hf) as [G1 G2]. pose proof (so_top _ (fo_stack _ Hf)) as S1. unfold binary_effect, binary_op.
  destruct (items (stack f)) as [|a [|b rest]] eqn:I; apply top_items in I as T; cbn [length] in T;
    try (unfold bind; rewrite x_need_fail by lia; reflexivity).
  rewrite (x_bind _ _ _ _ _ (x_need 2 f ltac:(lia))). destruct (Z.ltb_spec (gas f) cost) as [L|L].
  - unfold bind. rewrite x_charge_fail by lia. reflexivity.
  - rewrite (x_bind _ _ _ _ _ (x_charge cost f ltac:(lia) G2)), (x_bind _ _ _ _ _ (x_pop (set_gas f (gas f - cost)) a (b :: rest) I)), (x_bind _ _ _ _ _ (x_pop (set_stack _ (Stack (b :: rest) _)) b rest eq_refl)).
    rewrite x_push; [reflexivity|]. unfold top; cbn [items stack set_stack capacity set_gas]. lia.
Qed.

(** ** Reference functions on integers *)

Definition signed (z : Z) : Z := if z <? 2 ^ 255 then z else z - 2 ^ 256.
Definition of_bool (b : bool) : Z := if b then 1 else 0.

(** The value of the low [8 * (p + 1)] bits of [x], sign extended. *)
Definition sign_extend (p x : Z) : Z :=
  if 31 <=? p then x
  else let w := 8 * (p + 1) in if Z.testbit x (w - 1) then x mod 2 ^ w - 2 ^ w else x mod 2 ^ w.

(** The binary operators of the instruction set, before reduction modulo
    [2^256]. Division and remainder by zero are zero. *)
Definition binary_ref (op : Z) : option (Z -> Z -> Z) :=
  if op =? OP_ADD then Some Z.add
  else if op =? OP_MUL then Some Z.mul
  else if op =? OP_SUB then Some Z.sub
  else if op =? OP_DIV then Some (fun a b => if b =? 0 then 0 else a / b)
  else if op =? OP_SDIV then Some (fun a b => if b =? 0 then 0 else Z.quot (signed a) (signed b))
  else if op =? OP_MOD then Some (fun a b => if b =? 0 then 0 else a mod b)
  else if op =? OP_SMOD then Some (fun a b => if b =? 0 then 0 else Z.rem (signed a) (signed b))
  else if op =? OP_SIGNEXTEND then Some sign_extend
  else if op =? OP_LT then Some (fun a b => of_bool (a <? b))
  else if op =? OP_GT then Some (fun a b => of_bool (b <? a))
  else if op =? OP_SLT then Some (fun a b => of_bool (signed a <? signed b))
  else if op =? OP_SGT then Some (fun a b => of_bool (signed b <? signed a))
  else if op =? OP_EQ then Some (fun a b => of_bool (a =? b))
  else if op =? OP_AND then Some Z.land
  else if op =? OP_OR then Some Z.lor
  else if op =? OP_XOR then Some Z.lxor
  else if op =? OP_BYTE then Some (fun i x => if i <? 32 then x / 2 ^ (8 * (31 - i)) mod 2 ^ 8 else 0)
  else if op =? OP_SHL then Some (fun s x => x * 2 ^ s)
  else if op =? OP_SHR then Some (fun s x => x / 2 ^ s)
  else if op =? OP_SAR then Some (fun s x => signed x / 2 ^ s)
  else None.

Lemma signed_sval a : signed (val a) = sval a.
Proof. reflexivity. Qed.

Lemma of_Z256_eq a z : wf256 a -> val a = z -> a = of_Z256 z.
Proof. intros H <-. symmetry. apply of_Z256_val, H. Qed.

Lemma bool_word_ref b : bool_word b = of_Z256 (of_bool b).
Proof. destruct b; reflexivity. Qed.

Lemma sval_zero_eqb b : wf256 b -> (sval b =? 0) = (val b =? 0).
Proof.
  intros H. pose proof (val_range b H). unfold sval. destruct (Z.ltb_spec (val b) (2 ^ 255)); [reflexivity|].
  destruct (Z.eqb_spec (val b - 2 ^ 256) 0), (Z.eqb_spec (val b) 0); lia.
Qed.

Lemma shl_ref s x : wf256 s -> wf256 x -> uint256_shl s x = of_Z256 (val x * 2 ^ val s).
Proof.
  intros Hs Hx. rewrite uint256_shl_spec by assumption. destruct (Z.ltb_spec (val s) 256); [reflexivity|].
  rewrite <- (of_Z256_mod (val x * _)). f_equal. pose proof (val_range s Hs).
  replace (2 ^ val s) with (2 ^ (val s - 256) * 2 ^ 256) by (rewrite <- Z.pow_add_r by lia; f_equal; lia).
  rewrite Z.mul_assoc, Z_mod_mult. reflexivity.
Qed.

Lemma shr_ref s x : wf256 s -> wf256 x -> uint256_shr s x = of_Z256 (val x / 2 ^ val s).
Proof.
  intros Hs Hx. rewrite uint256_shr_spec by assumption. destruct (Z.ltb_spec (val s) 256); [reflexivity|].
  f_equal. symmetry. apply Z.div_small. pose proof (val_range x Hx). pose proof (Z.pow_le_mono_r 2 256 (val s) ltac:(lia) ltac:(lia)). lia.
Qed.

(** ** The instructions *)

Section Binary.
Context {St : Type} {SA : StateAccess St} {SL : StateLaws St} (keccak256 : list Z -> hash_t).
#[local] Abbreviation evm_t := (evm_t St).

(** The gas the code charges for a binary instruction: nothing for ADD. *)
Definition binary_cost (op : Z) : Z := if op =? OP_ADD then 0 else gas_of gas_table_init_shanghai op.

(** The instruction at the program counter, as a change of the frame [f]
    that has moved past the opcode. *)
Definition binary_instruction (r : Z -> Z -> Z) (cost : Z) (e : evm_t) (f : call_frame_t) :
  outcome (evm_t * call_frame_t) (option frame_result_t) :=
  match items (stack f) with
  | a :: b :: rest =>
      if gas f <? cost then Err (e, f) EVM_OUT_OF_GAS
      else Ret (e, set_stack (set_gas f (gas f - cost)) (Stack (of_Z256 (r (val a) (val b)) :: rest) (capacity (stack f)))) None
  | _ => Err (e, f) EVM_STACK_UNDERFLOW
  end.

Lemma binary_lift (m : evm_t -> FM unit) h r cost e f : frame_ok f ->
  m e f = binary_effect h cost f -> (forall a b, wf256 a -> wf256 b -> h a b = of_Z256 (r (val a) (val b))) ->
  next (in_frame m) (e, f) = binary_instruction r cost e f.
Proof.
  intros Hf Hm Hh. unfold next, bind, in_frame, zoom; cbn [fst snd]. rewrite Hm. unfold binary_effect, binary_instruction.
  pose proof (so_items _ (fo_stack _ Hf)) as W. destruct (items (stack f)) as [|a [|b rest]]; [reflexivity..|].
  inversion W as [|? ? Wa W']; subst. inversion W' as [|? ? Wb _]; subst. rewrite Hh by assumption. destruct (_ <? _); reflexivity.
Qed.

Lemma simple_binary op h r e f : evm_ok e -> frame_ok f -> (forall a b, wf256 a -> wf256 b -> h a b = of_Z256 (r (val a) (val b))) ->
  simple (binary_op h) op (e, f) = binary_instruction r (gas_of gas_table_init_shanghai op) e f.
Proof.
  intros He Hf Hh. apply (binary_lift _ h); auto. rewrite (eo_table e He). apply binary_op_effect; [exact Hf|]. apply gas_table_bound.
Qed.

Lemma add_binary e f : frame_ok f -> next (in_frame (fun _ => op_add)) (e, f) = binary_instruction Z.add 0 e f.
Proof.
  intros Hf. apply (binary_lift _ uint256_add); [exact Hf| |exact uint256_add_spec]. unfold op_add, binary_effect.
  destruct (fo_gas _ Hf) as [G1 G2]. pose proof (so_top _ (fo_stack _ Hf)) as S1.
  destruct (items (stack f)) as [|a [|b rest]] eqn:I; apply top_items in I as T; cbn [length] in T;
    try (unfold bind; rewrite x_need_fail by lia; reflexivity).
  rewrite (x_bind _ _ _ _ _ (x_need 2 f ltac:(lia))), (x_bind _ _ _ _ _ (x_pop f a (b :: rest) I)), (x_bind _ _ _ _ _ (x_pop (set_stack _ (Stack (b :: rest) _)) b rest eq_refl)).
  rewrite x_push by (unfold top; cbn [items stack set_stack capacity]; lia). rewrite (proj2 (Z.ltb_ge _ _)) by lia. rewrite Z.sub_0_r. reflexivity.
Qed.

Ltac via h := match goal with
  | |- find_label _ _ _ = _ => apply (simple_binary _ h); [assumption | assumption |]
  end.

(** The label of every binary instruction computes its reference function. *)
Lemma binary_labels op r e f : evm_ok e -> frame_ok f -> binary_ref op = Some r ->
  find_label (dispatch_table keccak256) op (e, f) = binary_instruction r (binary_cost op) e f.
Proof.
  intros He Hf. unfold binary_ref.
  repeat match goal with |- context [op =? ?k] => destruct (Z.eqb_spec op k) as [->|]; [intros [= <-]|] end; [..|discriminate].
  - exact (add_binary e f Hf).
  - via uint256_mul. exact uint256_mul_spec.
  - via uint256_sub. exact uint256_sub_spec.
  - via uint256_div. intros a b Ha Hb. rewrite uint256_div_spec by assumption. destruct (Z.eqb_spec (val b) 0) as [->|]; [rewrite Z.div_0_r|]; reflexivity.
  - via uint256_sdiv. intros a b Ha Hb. rewrite uint256_sdiv_spec, sval_zero_eqb by assumption. reflexivity.
  - via uint256_mod. exact uint256_mod_spec.
  - via uint256_smod. intros a b Ha Hb. rewrite uint256_smod_spec, sval_zero_eqb by assumption. reflexivity.
  - via uint256_signextend. exact uint256_signextend_spec.
  - via (fun a b => bool_word (uint256_lt a b)). intros a b Ha Hb. rewrite bool_word_ref, uint256_lt_spec by assumption. reflexivity.
  - via (fun a b => bool_word (uint256_gt a b)). intros a b Ha Hb. unfold uint256_gt. rewrite bool_word_ref, uint256_lt_spec by assumption. reflexivity.
  - via (fun a b => bool_word (uint256_slt a b)). intros a b Ha Hb. rewrite bool_word_ref, uint256_slt_spec by assumption. reflexivity.
  - via (fun a b => bool_word (uint256_sgt a b)). intros a b Ha Hb. unfold uint256_sgt. rewrite bool_word_ref, uint256_slt_spec by assumption. reflexivity.
  - via (fun a b => bool_word (uint256_eq a b)). intros a b Ha Hb. rewrite bool_word_ref, uint256_eq_spec by assumption. reflexivity.
  - via uint256_and. intros a b Ha Hb. apply of_Z256_eq; auto using wf_and, uint256_and_spec.
  - via uint256_or. intros a b Ha Hb. apply of_Z256_eq; auto using wf_or, uint256_or_spec.
  - via uint256_xor. intros a b Ha Hb. apply of_Z256_eq; auto using wf_xor, uint256_xor_spec.
  - via uint256_byte. intros a b Ha Hb. apply of_Z256_eq; auto using wf_byte. rewrite uint256_byte_spec by assumption. apply val_from_u64.
  - via uint256_shl. exact shl_ref.
  - via uint256_shr. exact shr_ref.
  - via uint256_sar. exact uint256_sar_spec.
Qed.
End Binary.

(** * Memory *)

Lemma x_guard {S A} b e (k : unit -> M S A) s : bind (guard b e) k s = if b then k tt s else Err s e.
Proof. destruct b; reflexivity. Qed.

Lemma bind_inv {S A B} (m : M S A) (k : A -> M S B) s s' b : bind m k s = Ret s' b -> exists s1 a, m s = Ret s1 a /\ k a s1 = Ret s' b.
Proof. unfold bind. destruct (m s); try discriminate. eauto. Qed.

Lemma charge_inv cost f f' u : charge cost f = Ret f' u -> f' = set_gas f (gas f -64 cost) /\ cost <= gas f.
Proof.
  unfold charge, bind, check, guard, modify. destruct (Z.ltb_spec (gas f) cost); cbn [negb throw ret]; [discriminate|].
  intros [= <- <-]. auto.
Qed.

Lemma charge_with_memory_inv c d f f' u : charge_with_memory c d f = Ret f' u -> exists x, f' = set_gas f x.
Proof.
  unfold charge_with_memory. rewrite x_guard. destruct (negb _); [|discriminate]. intros H%charge_inv. destruct H as [-> _]. eauto.
Qed.

Lemma expand_inv off size f f' c : expand off size f = Ret f' c ->
  exists m, evm_memory_expand (memory f) off size = Some (true, c, m) /\ f' = set_memory f m.
Proof. unfold expand. destruct (evm_memory_expand _ _ _) as [[[[] ?] m]|]; try discriminate. intros [= <- <-]. eauto. Qed.

Lemma mstore_inv off bs f f' u : mstore off bs f = Ret f' u ->
  exists m, evm_memory_store_unsafe (memory f) off bs = Some m /\ f' = set_memory f m.
Proof. unfold mstore. destruct (evm_memory_store_unsafe _ _ _) as [m|]; try discriminate. intros [= <- <-]. eauto. Qed.

(** A successful MSTORE: what it required and what it left. *)
Lemma mstore_effect cost f off v rest f' : frame_ok f -> items (stack f) = off :: v :: rest -> op_mstore cost f = Ret f' tt ->
  uint256_fits_u64 off = true /\ items (stack f') = rest /\ capacity (stack f') = capacity (stack f) /\
  (exists m, evm_memory_store_unsafe m (val off) (uint256_to_bytes_be v) = Some (memory f') /\ mem_ok m).
Proof.
  intros Hf I. pose proof (so_items _ (fo_stack _ Hf)) as W. rewrite I in W. inversion W as [|? ? Wo W']; subst. unfold op_mstore.
  rewrite (x_bind _ _ _ _ _ (x_need 2 f ltac:(rewrite (top_items _ _ I); cbn [length]; lia))).
  rewrite (x_bind _ _ _ _ _ (x_pop f off (v :: rest) I)), (x_bind _ _ _ _ _ (x_pop (set_stack _ (Stack (v :: rest) _)) v rest eq_refl)).
  rewrite x_guard. destruct (uint256_fits_u64 off) eqn:F; [|discriminate]. cbv zeta. rewrite x_guard. destruct (negb _); [|discriminate].
  rewrite uint256_to_u64_spec by assumption. intros (f1 & c & X & H)%bind_inv.
  apply expand_inv in X as (m & X & ->). apply bind_inv in H as (f2 & u & Y & H). apply charge_with_memory_inv in Y as (x & ->).
  apply mstore_inv in H as (m' & Z & ->). cbn [memory stack set_gas set_memory set_stack items capacity] in *.
  split; [reflexivity|]. split; [reflexivity|]. split; [reflexivity|]. exists m. split; [exact Z|].
  pose proof (expand_any (memory f) (val off) 32 (fo_memory _ Hf)) as K. rewrite X in K. apply K; [|unfold u64; lia].
  rewrite <- uint256_to_u64_spec by assumption. apply u64_low, Wo.
Qed.

(** MLOAD of a range inside the memory. *)
Lemma mload_effect cost f off rest : frame_ok f -> items (stack f) = off :: rest -> uint256_fits_u64 off = true ->
  val off + 32 <= evm_memory_size (memory f) -> 0 <= cost <= gas f ->
  exists w, evm_memory_load32_unsafe (memory f) (val off) = Some w /\
    op_mload cost f = Ret (set_stack (set_gas f (gas f - cost)) (Stack (w :: rest) (capacity (stack f)))) tt.
Proof.
  intros Hf I F L Hc. pose proof (so_items _ (fo_stack _ Hf)) as W. rewrite I in W. inversion W as [|? ? Wo W']; subst.
  pose proof (val_range off Wo) as [V0 _]. pose proof (mem_size_bound _ (fo_memory _ Hf)) as Sb. destruct (fo_gas _ Hf) as [G1 G2].
  unfold evm_memory_load32_unsafe. destruct (load_spec (memory f) (val off) 32 (fo_memory _ Hf) V0 ltac:(lia) L) as (bs & E & _ & _).
  rewrite E. eexists; split; [reflexivity|]. unfold op_mload.
  rewrite (x_bind _ _ _ _ _ (x_need 1 f ltac:(rewrite (top_items _ _ I); cbn [length]; lia))), (x_bind _ _ _ _ _ (x_pop f off rest I)).
  rewrite x_guard, F. cbv zeta. rewrite uint256_to_u64_spec by assumption. rewrite x_guard. unfold UINT64_MAX.
  destruct (Z.gtb_spec (val off) (2 ^ 64 - 1 - 32)); [lia|]. cbn [negb].
  assert (X : expand (val off) 32 (set_stack f (Stack rest (capacity (stack f)))) = Ret (set_stack f (Stack rest (capacity (stack f)))) 0).
  { unfold expand; cbn [memory set_stack]. rewrite expand_noop by (auto using fo_memory; lia). destruct f; reflexivity. }
  rewrite (x_bind _ _ _ _ _ X).
  assert (Y : charge_with_memory cost 0 (set_stack f (Stack rest (capacity (stack f)))) = Ret (set_gas (set_stack f (Stack rest (capacity (stack f)))) (gas f - cost)) tt).
  { unfold charge_with_memory. rewrite x_guard. unfold UINT64_MAX. destruct (Z.gtb_spec 0 (2 ^ 64 - 1 - cost)); [lia|]. cbn [negb].
    unfold add64. rewrite Z.add_0_r, w64_small by (unfold u64; lia). rewrite x_charge by (cbn [gas set_stack]; lia). reflexivity. }
  rewrite (x_bind _ _ _ _ _ Y).
  assert (Z : mload (val off) 32 (set_gas (set_stack f (Stack rest (capacity (stack f)))) (gas f - cost)) = Ret (set_gas (set_stack f (Stack rest (capacity (stack f)))) (gas f - cost)) bs).
  { unfold mload; cbn [memory set_gas set_stack]. rewrite E. reflexivity. }
  rewrite (x_bind _ _ _ _ _ Z). pose proof (so_top _ (fo_stack _ Hf)) as S1. rewrite (top_items _ _ I) in S1. cbn [length] in S1.
  rewrite x_push; [reflexivity|]. unfold top; cbn [items stack set_stack capacity set_gas]. lia.
Qed.

(** * Copies *)

Lemma aget_skipn l k i : aget (skipn k l) i = aget l (k + i).
Proof. unfold aget. apply nth_skipn. Qed.

Lemma padded_get n l i : (i < n)%nat -> aget (padded n l) i = aget l i.
Proof.
  intros Hi. unfold padded, aget. destruct (Nat.lt_ge_cases i (length l)).
  - rewrite app_nth1 by (rewrite length_firstn; lia). rewrite <- (firstn_skipn n l) at 2. rewrite app_nth1 by (rewrite length_firstn; lia). reflexivity.
  - rewrite app_nth2 by (rewrite length_firstn; lia). rewrite nth_repeat, nth_overflow by assumption. reflexivity.
Qed.

(** The copied bytes: the source from the offset on, zero outside of it. *)
Lemma copy_bytes_get source off size i : wf256 off -> 0 <= size -> (i < Z.to_nat size)%nat ->
  aget (copy_bytes source off size) i = if uint256_fits_u64 off then aget source (Z.to_nat (val off) + i) else 0.
Proof.
  intros W Hs Hi. unfold copy_bytes. destruct (uint256_fits_u64 off) eqn:F; cbn [andb].
  - rewrite uint256_to_u64_spec by assumption. pose proof (val_range off W). destruct (Z.ltb_spec (val off) (Z.of_nat (length source))).
    + rewrite padded_get, aget_skipn by exact Hi. reflexivity.
    + unfold aget. rewrite nth_repeat, nth_overflow by lia. reflexivity.
  - unfold aget. apply nth_repeat.
Qed.

(** A successful copy of a non-empty range. *)
Lemma copy_op_effect source cost f dest src size rest f' : frame_ok f -> bytes_ok (source f) ->
  (forall s m x, source (set_gas (set_memory (set_stack f s) m) x) = source f) ->
  items (stack f) = dest :: src :: size :: rest -> val size <> 0 -> copy_op source cost f = Ret f' tt ->
  items (stack f') = rest /\
  forall i, (Z.of_nat i < val size -> aget (data (memory f')) (Z.to_nat (val dest) + i) =
                                      if uint256_fits_u64 src then aget (source f) (Z.to_nat (val src) + i) else 0) /\
            ((Z.of_nat i < val dest \/ val dest + val size <= Z.of_nat i) -> aget (data (memory f')) i = aget (data (memory f)) i).
Proof.
  intros Hf Hb Hsrc I Nz. pose proof (so_items _ (fo_stack _ Hf)) as W. rewrite I in W. inversion W as [|? ? Wd W1]; subst.
  inversion W1 as [|? ? Ws W2]; subst. inversion W2 as [|? ? Wz _]; subst. unfold copy_op.
  rewrite (x_bind _ _ _ _ _ (x_need 3 f ltac:(rewrite (top_items _ _ I); cbn [length]; lia))).
  rewrite (x_bind _ _ _ _ _ (x_pop f dest _ I)), (x_bind _ _ _ _ _ (x_pop (set_stack _ (Stack (src :: _) _)) src _ eq_refl)),
    (x_bind _ _ _ _ _ (x_pop (set_stack _ (Stack (size :: _) _)) size _ eq_refl)).
  rewrite uint256_is_zero_spec, (proj2 (Z.eqb_neq _ _)) by assumption. rewrite x_guard. destruct (uint256_fits_u64 size) eqn:Fz; [|discriminate].
  rewrite uint256_to_u64_spec by assumption. intros (f1 & d & P & H)%bind_inv. unfold copy_prepare in P. rewrite x_guard in P.
  destruct (uint256_fits_u64 dest) eqn:Fd; [|discriminate]. cbv zeta in P. rewrite x_guard in P. destruct (negb _); [|discriminate].
  rewrite uint256_to_u64_spec in P by assumption. apply bind_inv in P as (f2 & c & X & P). apply expand_inv in X as (m & X & ->).
  apply bind_inv in P as (f3 & u & Y & P). apply charge_inv in Y as [-> _]. injection P as <- <-.
  apply bind_inv in H as (f4 & bs & G & H). injection G as <- <-.
  match type of H with context [source ?g] => replace (source g) with (source f) in H by (symmetry; exact (Hsrc _ _ _)) end. apply mstore_inv in H as (m' & Z & ->).
  cbn [memory stack set_gas set_memory set_stack items data] in *. split; [reflexivity|].
  pose proof (val_range dest Wd). pose proof (val_range size Wz).
  destruct (copy_bytes_ok (source f) src (val size) Hb ltac:(lia)) as [_ L]. intros i. split; intros Hi.
  - rewrite (store_inside _ (val dest) _ _ i ltac:(lia) Z) by lia. apply copy_bytes_get; [exact Ws | lia | lia].
  - rewrite (store_other _ (val dest) _ _ i ltac:(lia) Z) by lia. apply (expand_bytes _ _ _ _ _ _ X).
Qed.

(** * Storage *)

Lemma x_ensure1 f : top (stack f) + 1 <= capacity (stack f) -> capacity (stack f) <= EVM_STACK_MAX_DEPTH -> ensure_space 1 f = Ret f tt.
Proof.
  intros H Hc. unfold ensure_space, evm_stack_ensure_space, evm_stack_has_space. rewrite (proj2 (Z.leb_le _ _)) by lia. cbn [negb].
  unfold ENSURE_FUEL. cbn [ensure_loop]. destruct (Z.gtb_spec (top (stack f) + 1) (capacity (stack f))); [lia|]. destruct f as [? ? []]; reflexivity.
Qed.

Lemma eip2200_pos cold cur orig new : 0 <= eip2200_cost cold cur orig new.
Proof. unfold eip2200_cost. destruct cold, (new =? cur), (orig =? cur), (orig =? 0); lia. Qed.

Section Storage.
Context {St : Type} {SA : StateAccess St} {SL : StateLaws St}.

Lemma x_frame {A B} (m : FM A) (k : A -> SM B) (st : St) f f' a : m f = Ret f' a -> bind (on_frame m) k (st, f) = k a (st, f').
Proof. intros H. unfold bind, on_frame, zoom; cbn [fst snd]. rewrite H. reflexivity. Qed.

Lemma x_frame_err {A B} (m : FM A) (k : A -> SM B) (st : St) f f' e : m f = Err f' e -> bind (on_frame m) k (st, f) = Err (st, f') e.
Proof. intros H. unfold bind, on_frame, zoom; cbn [fst snd]. rewrite H. reflexivity. Qed.

(** SSTORE on every branch: write protection, underflow, the stipend check,
    the EIP-2200 cost, the write and the EIP-3529 refund. *)
Definition sstore_effect (refund : Z) (st : St) (f : call_frame_t) : outcome (St * call_frame_t) Z :=
  if is_static f then Err (st, f) EVM_WRITE_PROTECTION
  else
    match items (stack f) with
    | slot :: new :: rest =>
        let cur := val (get_storage st (address f) slot) in
        let orig := val (get_original_storage st (address f) slot) in
        let st1 := fst (warm_slot st (address f) slot) in
        let cost := eip2200_cost (snd (warm_slot st (address f) slot)) cur orig (val new) in
        let f1 := set_stack f (Stack rest (capacity (stack f))) in
        if gas f <=? 2300 then Err (st1, f1) EVM_OUT_OF_GAS
        else if gas f <? cost then Err (st1, f1) EVM_OUT_OF_GAS
        else Ret (set_storage st1 (address f) slot new, set_gas f1 (gas f - cost))
               (apply_refund refund (eip3529_refund cur orig (val new)))
    | _ => Err (st, f) EVM_STACK_UNDERFLOW
    end.

Lemma op_sstore_effect refund st f : state_ok st -> frame_ok f ->
  op_sstore gas_schedule_shanghai refund (st, f) = sstore_effect refund st f.
Proof.
  intros Hs Hf. destruct (fo_gas _ Hf) as [G1 G2]. unfold op_sstore, sstore_effect, bind at 1, check, guard; cbn [snd].
  destruct (is_static f); cbn [negb throw ret]; [reflexivity|].
  pose proof (so_items _ (fo_stack _ Hf)) as W. destruct (items (stack f)) as [|slot [|new rest]] eqn:I; pose proof (top_items _ _ I) as T; cbn [length] in T;
    try (rewrite (x_frame_err _ _ _ _ _ _ (x_need_fail 2 f ltac:(lia))); reflexivity).
  inversion W as [|? ? W1 W']; subst. inversion W' as [|? ? W2 _]; subst.
  rewrite (x_frame _ _ _ _ _ _ (x_need 2 f ltac:(lia))), (x_frame _ _ _ _ _ _ (x_pop f slot _ I)),
    (x_frame _ _ _ _ _ _ (x_pop (set_stack _ (Stack (new :: _) _)) new _ eq_refl)).
  unfold this_address, gets, on_state, bind at 1 2 3 4; cbn [fst snd address set_stack].
  destruct (warm_slot st (address f) slot) as [st1 cold]. cbn [fst snd]. cbv zeta.
  cbn [sstore gas_schedule_shanghai sstore_refund sstore_min_gas]. rewrite sstore_cost_spec, sstore_refund_spec by (first [assumption | exact (storage_wf _ _ _ Hs) | exact (original_wf _ _ _ Hs)]).
  set (cost := eip2200_cost _ _ _ _). assert (C0 : 0 <= cost) by apply eip2200_pos.
  unfold bind at 1, check, guard; cbn [snd gas set_stack]. change GAS_CALL_STIPEND with 2300.
  destruct (Z.leb_spec (gas f) 2300); cbn [negb throw ret]; [reflexivity|].
  destruct (Z.ltb_spec (gas f) cost).
  - rewrite (x_frame_err _ _ _ _ _ _ (x_charge_fail cost (set_stack (set_stack f _) _) ltac:(cbn [gas set_stack]; lia))). reflexivity.
  - rewrite (x_frame _ _ _ _ _ _ (x_charge cost (set_stack (set_stack f _) _) ltac:(cbn [gas set_stack]; lia) G2)). reflexivity.
Qed.

(** SLOAD: the EIP-2929 cost, then the value of the slot. *)
Definition sload_effect (st : St) (f : call_frame_t) : outcome (St * call_frame_t) unit :=
  match items (stack f) with
  | slot :: rest =>
      let st1 := fst (warm_slot st (address f) slot) in
      let cost := if snd (warm_slot st (address f) slot) then 2100 else 100 in
      let f1 := set_stack f (Stack rest (capacity (stack f))) in
      if gas f <? cost then Err (st1, f1) EVM_OUT_OF_GAS
      else Ret (st1, set_gas (set_stack f (Stack (get_storage st (address f) slot :: rest) (capacity (stack f)))) (gas f - cost)) tt
  | [] => Err (st, f) EVM_STACK_UNDERFLOW
  end.

Lemma op_sload_effect st f : state_ok st -> frame_ok f -> op_sload gas_schedule_shanghai (st, f) = sload_effect st f.
Proof.
  intros Hs Hf. destruct (fo_gas _ Hf) as [G1 G2]. destruct (fo_stack _ Hf) as [S1 S2 _]. unfold op_sload, sload_effect.
  destruct (items (stack f)) as [|slot rest] eqn:I; pose proof (top_items _ _ I) as T; cbn [length] in T.
  { rewrite (x_frame_err _ _ _ _ _ _ (x_need_fail 1 f ltac:(lia))). reflexivity. }
  rewrite (x_frame _ _ _ _ _ _ (x_need 1 f ltac:(lia))), (x_frame _ _ _ _ _ _ (x_pop f slot _ I)).
  unfold this_address, gets, on_state, bind at 1 2; cbn [fst snd address set_stack].
  destruct (warm_slot_ok st (address f) slot Hs) as [_ (_ & _ & _ & Sto)].
  destruct (warm_slot st (address f) slot) as [st1 cold]. cbn [fst snd] in *. cbv zeta.
  change (sload gas_schedule_shanghai cold) with (if cold then 2100 else 100). set (cost := if cold then 2100 else 100).
  assert (C0 : 0 <= cost) by (unfold cost; destruct cold; lia). destruct (Z.ltb_spec (gas f) cost).
  - rewrite (x_frame_err _ _ _ _ _ _ (x_charge_fail cost (set_stack f _) ltac:(cbn [gas set_stack]; lia))). reflexivity.
  - rewrite (x_frame _ _ _ _ _ _ (x_charge cost (set_stack f _) ltac:(cbn [gas set_stack]; lia) G2)). unfold bind at 1; cbn [fst].
    rewrite (x_frame _ _ _ _ _ _ (x_ensure1 (set_gas (set_stack f (Stack rest (capacity (stack f)))) (gas f - cost)) ltac:(unfold top; cbn [stack set_gas set_stack items capacity]; lia) (proj2 S2))).
    unfold on_frame, zoom; cbn [fst snd].
    rewrite x_push by (unfold top; cbn [stack set_gas set_stack items capacity]; lia). rewrite Sto. reflexivity.
Qed.
End Storage.

(** * Calls

    What the CALL family does on success: the context of the child frame, and
    what the parent finds when the child has ended. *)

(** ** Computations that keep a relation between the states *)

Definition keeps {S A} (R : S -> S -> Prop) (m : M S A) : Prop := forall s s' a, m s = Ret s' a -> R s s'.

Section Keeps.
Context {S : Type} (R : S -> S -> Prop).
Hypothesis R_refl : forall s, R s s.
Hypothesis R_trans : forall s t u, R s t -> R t u -> R s u.

Lemma keeps_ret {A} (a : A) : keeps R (ret a).
Proof. intros s s' b [= <- _]. apply R_refl. Qed.

Lemma keeps_gets {A} (g : S -> A) : keeps R (gets g).
Proof. intros s s' b [= <- _]. apply R_refl. Qed.

Lemma keeps_guard b e : keeps R (guard b e).
Proof. intros s s' u. destruct b; [|discriminate]. intros [= <- _]. apply R_refl. Qed.

Lemma keeps_check g e : keeps R (check g e).
Proof. intros s s' u. apply keeps_guard. Qed.

Lemma keeps_bind {A B} (m : M S A) (k : A -> M S B) : keeps R m -> (forall a, keeps R (k a)) -> keeps R (bind m k).
Proof. intros H K s s' b (s1 & a & X & Y)%bind_inv. exact (R_trans _ _ _ (H _ _ _ X) (K _ _ _ _ Y)). Qed.
End Keeps.

Ltac kept := repeat first
  [ apply keeps_bind; [apply same_context_trans | | intros ?]
  | apply keeps_ret; apply same_context_refl | apply keeps_gets; apply same_context_refl
  | apply keeps_guard; apply same_context_refl | apply keeps_check; apply same_context_refl ].

Lemma pop_context : keeps same_context pop.
Proof. intros f f' a. unfold pop. destruct (evm_stack_pop_unsafe _) as [[x s]|]; [|discriminate]. intros [= <- _]. repeat split. Qed.

Lemma charge_context c : keeps same_context (charge c).
Proof. intros f f' a [-> _]%charge_inv. repeat split. Qed.

Lemma mload_context off len : keeps same_context (mload off len).
Proof. intros f f' a. unfold mload. destruct (evm_memory_load_unsafe _ _ _); [|discriminate]. intros [= <- _]. apply same_context_refl. Qed.

Lemma pop_args_context b : keeps same_context (if b : bool then pop_call_args else pop_call_args_no_value).
Proof. destruct b; [unfold pop_call_args | unfold pop_call_args_no_value]; kept; apply pop_context. Qed.

Lemma expand_call_context ao az ro rz : keeps same_context (expand_call_memory ao az ro rz).
Proof.
  intros f f' a. unfold expand_call_memory. destruct (_ >? _); [|intros [= <- _]; apply same_context_refl].
  destruct (evm_memory_expand _ _ _) as [[[ok c] m]|]; [|discriminate]. intros [= <- _]. repeat split.
Qed.

Lemma args_value_wf b l args : args_of b l = Some args -> Forall wf256 l -> wf256 (arg_value args).
Proof.
  unfold args_of. intros H W.
  destruct b; repeat (destruct l as [|? l]; [discriminate|]; inversion W as [|? ? ? W']; subst; clear W; rename W' into W;
    try (injection H as <-; cbn; auto with words; fail)).
Qed.

Lemma pop_inv f f' x : pop f = Ret f' x -> exists rest, items (stack f) = x :: rest /\ items (stack f') = rest.
Proof.
  unfold pop, evm_stack_pop_unsafe. destruct (items (stack f)) as [|y rest]; [discriminate|]. intros [= <- <-]. exists rest. auto.
Qed.

Lemma pop_args_inv b f f' args : (if b : bool then pop_call_args else pop_call_args_no_value) f = Ret f' args ->
  args_of b (items (stack f)) = Some args.
Proof.
  destruct b; [unfold pop_call_args | unfold pop_call_args_no_value]; intros H;
    repeat (apply bind_inv in H as (? & ? & (? & ?E & ?E')%pop_inv & H)); injection H as <- <-; subst;
    repeat match goal with E : items _ = _ |- _ => rewrite E; clear E end; reflexivity.
Qed.

Section Calls.
Context {St : Type} {SA : StateAccess St} {SL : StateLaws St}.
#[local] Abbreviation SM := (@SM St).

(** The frame of the pair keeps its context, the state its code. *)
Definition kept_pair (s s' : St * call_frame_t) : Prop :=
  same_context (snd s) (snd s') /\ (state_ok (fst s) -> state_ok (fst s') /\ forall a, get_code (fst s') a = get_code (fst s) a).

Lemma kept_pair_refl s : kept_pair s s.
Proof. split; [apply same_context_refl | auto]. Qed.

Lemma kept_pair_trans s t u : kept_pair s t -> kept_pair t u -> kept_pair s u.
Proof.
  intros [H1 H2] [K1 K2]. split; [eapply same_context_trans; eassumption|]. intros H. destruct (H2 H) as [H3 H4].
  destruct (K2 H3) as [K3 K4]. split; [exact K3|]. intros a. rewrite K4. apply H4.
Qed.

Lemma on_frame_kept {A} (m : FM A) : keeps same_context m -> keeps kept_pair (on_frame (St := St) m).
Proof.
  intros H [st f] [st' f'] a. unfold on_frame, zoom; cbn [snd fst]. destruct (m f) as [f1 b|f1 e|x] eqn:E; try discriminate.
  intros [= <- <- <-]. split; [exact (H _ _ _ E) | auto].
Qed.

Lemma on_state_kept {A} (g : St -> St * A) :
  (forall st, state_ok st -> state_ok (fst (g st)) /\ forall a, get_code (fst (g st)) a = get_code st a) -> keeps kept_pair (on_state g).
Proof.
  intros H [st f] [st' f'] a. unfold on_state; cbn [fst snd]. specialize (H st). destruct (g st) as [st1 b]. intros [= <- <- <-].
  split; [apply same_context_refl | exact H].
Qed.

Lemma warm_address_kept a : keeps kept_pair (on_state (fun st : St => warm_address st a)).
Proof. apply on_state_kept. intros st H. destruct (warm_address_ok st a H) as [K (_&_&K'&_)]. auto. Qed.

Lemma set_gas_context f x : same_context f (set_gas f x).
Proof. repeat split. Qed.

Ltac kept2 := repeat first
  [ apply keeps_bind; [apply kept_pair_trans | | intros ?]
  | apply keeps_ret; apply kept_pair_refl | apply keeps_gets; apply kept_pair_refl | apply keeps_check; apply kept_pair_refl
  | apply warm_address_kept | (apply on_frame_kept; first [apply charge_context | apply expand_call_context]) ].

Lemma call_gas_kept t args ao az ro rz v n : keeps kept_pair (calculate_call_gas (St := St) t args ao az ro rz v n).
Proof.
  unfold calculate_call_gas. kept2; apply on_frame_kept; intros f f' c.
  - destruct (call_memory_cost _ _ _ _ _); [|discriminate]. intros [= <- _]. apply same_context_refl.
  - destruct (split_gas _ _ _). intros [= <- _]. apply set_gas_context.
Qed.

(** A prepared call: what it takes from the arguments. *)
Lemma prepare_args_inv hv na args s s' o : prepare_args (St := St) hv na args s = Ret s' o ->
  exists setup, o = Some setup /\ target setup = address_from_uint256 (arg_addr args) /\ setup_value setup = arg_value args /\ kept_pair s s'.
Proof.
  intros H. unfold prepare_args in H. apply bind_inv in H as (s1 & [[[ao az] ro] rz] & V & H).
  apply bind_inv in H as (s2 & u & Ck & H). apply bind_inv in H as (s3 & new & G & H).
  apply bind_inv in H as (s4 & cg & Cg & H). apply bind_inv in H as (s5 & u' & Ex & H). injection H as <- <-.
  eexists. split; [reflexivity|]. split; [reflexivity|]. split; [reflexivity|].
  assert (K1 : kept_pair s s1).
  { refine (on_frame_kept (validate_memory_args args) _ _ _ _ V). unfold validate_memory_args. kept. }
  assert (K2 : kept_pair s1 s2) by exact (keeps_check kept_pair kept_pair_refl _ _ _ _ _ Ck).
  injection G as <- _. refine (kept_pair_trans _ _ _ K1 (kept_pair_trans _ _ _ K2 (kept_pair_trans _ _ _ (call_gas_kept _ _ _ _ _ _ _ _ _ _ _ Cg) _))).
  refine (on_frame_kept _ (expand_call_context _ _ _ _) _ _ _ Ex).
Qed.

Lemma prepare_inv hv na st f s' setup : prepare (St := St) hv na (st, f) = Ret s' (Some setup) ->
  exists args, args_of hv (items (stack f)) = Some args /\ target setup = address_from_uint256 (arg_addr args) /\
    setup_value setup = arg_value args /\ kept_pair (st, f) s'.
Proof.
  intros H. unfold prepare in H. apply bind_inv in H as (s1 & u & N & H). apply bind_inv in H as (s2 & deep & D & H).
  injection D as <- <-. assert (E : s1 = (st, f)).
  { unfold on_frame, zoom, need_items, check, guard in N; cbn in N. destruct (evm_stack_has_items _ _); [|discriminate]. injection N as <- _. reflexivity. }
  subst s1. destruct (_ <=? _); [apply bind_inv in H as (? & ? & _ & H); discriminate|].
  apply bind_inv in H as ([st1 f1] & args & P & H). pose proof (on_frame_kept _ (pop_args_context hv) _ _ _ P) as K.
  apply prepare_args_inv in H as (setup' & [= <-] & T & V & K'). exists args. split; [|split; [exact T|split; [exact V|]]].
  - unfold on_frame, zoom in P; cbn [snd fst] in P. destruct ((if hv then pop_call_args else pop_call_args_no_value) f) as [f2 a|? ?|?] eqn:E; try discriminate.
    injection P as _ _ <-. exact (pop_args_inv hv f f2 a E).
  - exact (kept_pair_trans _ _ _ K K').
Qed.

(** A started child. *)
Lemma start_child_inv pool setup params st f s' child : start_child (St := St) pool setup params (st, f) = Ret s' (Some child) ->
  code child = get_code st (target setup) /\ depth child = w16 (depth f + 1) /\ gas child = child_gas setup /\
  caller child = p_caller (params f) /\ address child = p_address (params f) /\ value child = p_value (params f) /\
  is_static child = p_is_static (params f).
Proof.
  unfold start_child. intros H. apply bind_inv in H as (s1 & c & G & H). injection G as <- <-.
  apply bind_inv in H as (s2 & ps & G & H). injection G as <- <-. apply bind_inv in H as (s3 & o & I & H). cbn [fst snd] in *.
  unfold on_frame, zoom in I; cbn [snd fst] in I. destruct (init_child_frame _ _ _ _ f) as [f1 o1|? ?|?] eqn:E; try discriminate.
  injection I as <- <-. unfold init_child_frame in E. destruct (negb (pool_rent pool)).
  { injection E as <- <-. unfold call_fails in H. apply bind_inv in H as (? & ? & _ & H). discriminate. }
  apply bind_inv in E as (f2 & data & L & E). assert (X : f2 = f).
  { destruct (_ >? 0); [|injection L as <- _; reflexivity]. unfold mload in L. destruct (evm_memory_load_unsafe _ _ _); [|discriminate].
    injection L as <- _. reflexivity. }
  subst f2. destruct evm_stack_pool_borrow; [|discriminate]. injection E as <- <-. injection H as <- <-. cbn. repeat split.
Qed.
End Calls.

(** ** The four kinds of call *)

Inductive call_kind := Call | CallCode | DelegateCall | StaticCall.

Definition takes_value (k : call_kind) : bool := match k with Call | CallCode => true | _ => false end.

Section Children.
Context {St : Type} {SA : StateAccess St} {SL : StateLaws St}.

Definition call_handler (k : call_kind) : Z -> @SM St (option call_frame_t) :=
  match k with Call => op_call | CallCode => op_callcode | DelegateCall => op_delegatecall | StaticCall => op_staticcall end.

(** Who the child is, who called it and with what value, per kind. *)
Definition child_spec (k : call_kind) (parent : call_frame_t) (to : address_t) (v : uint256_t) (child : call_frame_t) : Prop :=
  match k with
  | Call => caller child = address parent /\ address child = to /\ value child = v /\ is_static child = is_static parent
  | CallCode => caller child = address parent /\ address child = address parent /\ value child = v /\ is_static child = is_static parent
  | DelegateCall => caller child = caller parent /\ address child = address parent /\ value child = value parent /\ is_static child = is_static parent
  | StaticCall => caller child = address parent /\ address child = to /\ value child = uint256_zero /\ is_static child = true
  end.

Ltac fails H := unfold call_fails in H; apply bind_inv in H as (? & ? & _ & H); discriminate.

Lemma transfer_kept a b v : wf256 v -> keeps (kept_pair (St := St))
  (_ <- on_state (fun st => sub_balance st a v) ;; _ <- on_state (fun st => add_balance st b v) ;; ret tt).
Proof.
  intros Hv. repeat (apply keeps_bind; [apply kept_pair_trans | | intros ?]); [| |apply keeps_ret, kept_pair_refl]; apply on_state_kept; intros st H.
  - split; [apply sub_balance_ok; assumption | intros; apply sub_balance_code, H].
  - split; [apply add_balance_ok; assumption | intros; apply add_balance_code, H].
Qed.

(** No child comes out of a failed call. *)
Lemma call_fails_no s s' child : call_fails (St := St) s <> Ret s' (Some child).
Proof. intros B. fails B. Qed.

(** The two halves of every handler. *)
Lemma prepared_call hv na (rest : option call_setup_t -> SM (option call_frame_t)) st f s' child :
  (forall s s', rest None s <> Ret s' (Some child)) -> bind (prepare hv na) rest (st, f) = Ret s' (Some child) ->
  exists args setup s1, args_of hv (items (stack f)) = Some args /\ target setup = address_from_uint256 (arg_addr args) /\
    setup_value setup = arg_value args /\ kept_pair (st, f) s1 /\ rest (Some setup) s1 = Ret s' (Some child).
Proof.
  intros N B. apply bind_inv in B as (s1 & [setup|] & P & B); [|exfalso; exact (N _ _ B)].
  apply prepare_inv in P as (args & A & T & V & K). exists args, setup, s1. auto.
Qed.

Lemma started_child pool setup args params st f s1 s' child : state_ok st ->
  target setup = address_from_uint256 (arg_addr args) -> kept_pair (st, f) s1 ->
  start_child pool setup params s1 = Ret s' (Some child) ->
  code child = get_code st (address_from_uint256 (arg_addr args)) /\ depth child = w16 (depth f + 1) /\
  exists f1, same_context f f1 /\ caller child = p_caller (params f1) /\ address child = p_address (params f1) /\
    value child = p_value (params f1) /\ is_static child = p_is_static (params f1).
Proof.
  destruct s1 as [st1 f1]. intros Hst T [K1 K2] B. cbn [fst snd] in *.
  apply start_child_inv in B as (B1 & B2 & B3 & B4 & B5 & B6 & B7). destruct (K2 Hst) as [_ K3].
  split; [rewrite B1, K3, T; reflexivity|]. split; [rewrite B2; destruct K1 as (_&->&_); reflexivity|]. exists f1. auto.
Qed.

Lemma child_of_call k pool st f st' f' child : state_ok st -> frame_ok f -> call_handler k pool (st, f) = Ret (st', f') (Some child) ->
  exists args, args_of (takes_value k) (items (stack f)) = Some args /\
    let to := address_from_uint256 (arg_addr args) in
    code child = get_code st to /\ depth child = w16 (depth f + 1) /\ child_spec k f to (arg_value args) child.
Proof.
  intros Hst Hf H.
  destruct k; cbn [call_handler takes_value] in *; apply prepared_call in H; try (intros; apply call_fails_no);
    destruct H as (args & setup & [st1 f1] & A & T & V & K & H); exists args; (split; [exact A|]); cbv zeta.
  - apply bind_inv in H as (s2 & fr & G & H). injection G as <- <-. apply bind_inv in H as (s3 & bal & G & H). injection G as <- <-.
    destruct (_ && _); [fails H|]. apply bind_inv in H as (s4 & u & Tr & H). cbn [snd fst] in *.
    pose proof (args_value_wf _ _ _ A (so_items _ (fo_stack _ Hf))) as Wv. rewrite <- V in Wv.
    assert (K4 : kept_pair (st1, f1) s4).
    { destruct (negb _) in Tr; [exact (transfer_kept _ _ _ Wv _ _ _ Tr) | injection Tr as <- _; apply kept_pair_refl]. }
    destruct (started_child _ _ args _ _ _ s4 _ _ Hst T (kept_pair_trans _ _ _ K K4) H) as (F1 & F2 & f2 & (_&_&_&C1&C2&C3&C4&_) & F3).
    cbn [p_caller p_address p_value p_is_static] in F3. rewrite V, T, C1, C3 in F3. split; [exact F1|split; [exact F2|exact F3]].
  - apply bind_inv in H as (s2 & fr & G & H). injection G as <- <-. apply bind_inv in H as (s3 & bal & G & H). injection G as <- <-.
    destruct (_ && _); [fails H|]. destruct (started_child _ _ args _ _ _ _ _ _ Hst T K H) as (F1 & F2 & f2 & (_&_&_&C1&C2&C3&C4&_) & F3).
    cbn [p_caller p_address p_value p_is_static] in F3. rewrite V, C1, C3 in F3. split; [exact F1|split; [exact F2|exact F3]].
  - destruct (started_child _ _ args _ _ _ _ _ _ Hst T K H) as (F1 & F2 & f2 & (_&_&_&C1&C2&C3&C4&_) & F3).
    cbn [p_caller p_address p_value p_is_static] in F3. rewrite C1, C2, C3, C4 in F3. split; [exact F1|split; [exact F2|exact F3]].
  - destruct (started_child _ _ args _ _ _ _ _ _ Hst T K H) as (F1 & F2 & f2 & (_&_&_&C1&C2&C3&C4&_) & F3).
    cbn [p_caller p_address p_value p_is_static] in F3. rewrite C3, T in F3. split; [exact F1|split; [exact F2|exact F3]].
Qed.
End Children.

(** ** Back in the parent *)

Section Return.
Context {St : Type} {SA : StateAccess St}.

(** The bytes a frame result names in the memory of its frame. *)
Definition result_bytes (mem : evm_memory_t) (r : frame_result_t) : option (list Z) :=
  if return_size r =? 0 then Some [] else evm_memory_load_unsafe mem (return_offset r) (return_size r).

Lemma copy_return_bytes (e e' : evm_t St) mem r : copy_return_data e mem (return_offset r) (return_size r) = inl e' ->
  exists bs c, result_bytes mem r = Some bs /\ e' = set_return e bs c.
Proof.
  unfold copy_return_data, result_bytes. destruct (return_size r =? 0); [intros [= <-]; eauto|].
  match goal with |- match ?x with _ => _ end = _ -> _ => destruct x as [c|f] end; [|discriminate].
  destruct (evm_memory_load_unsafe _ _ _) as [bs|]; [|discriminate]. intros [= <-]. eauto.
Qed.

Lemma copy_return_total (e : evm_t St) mem off size : mem_ok mem -> 0 <= off -> 0 <= size -> covered off size (evm_memory_size mem) ->
  exists e', copy_return_data e mem off size = inl e'.
Proof.
  intros Hm Ho Hs [Z0|C]; unfold copy_return_data; [rewrite Z0; cbn; eauto|]. destruct (size =? 0); [eauto|]. pose proof (mem_size_bound mem Hm) as B.
  unfold evm_memory_load_unsafe. rewrite (proj2 (Z.leb_le _ _)) by lia. destruct (size >? return_data_capacity e); [|eauto].
  destruct (return_capacity_spec 64 8 size) as (c & E & Hc); [lia..|]. change (2 ^ 8) with 256 in E. rewrite E. unfold alloc_succeeds.
  rewrite (proj2 (Z.leb_le _ _)), (proj2 (Z.ltb_lt _ _)) by (unfold DIV0_ARENA_BLOCK_SIZE; lia). cbn. eauto.
Qed.

(** The ranges of a child's result and of the place for it are inside the two
    memories, and the parent's stack has room for the flag. *)
Record can_return (m : machine (St := St)) (r : frame_result_t) (parent : call_frame_t) : Prop := {
  cr_memory : mem_ok (memory (m_frame m));
  cr_start : 0 <= return_offset r /\ 0 <= return_size r;
  cr_range : covered (return_offset r) (return_size r) (evm_memory_size (memory (m_frame m)));
  cr_place : 0 <= output_offset parent /\ 0 <= output_size parent;
  cr_output : covered (output_offset parent) (output_size parent) (evm_memory_size (memory parent));
  cr_room : top (stack parent) < capacity (stack parent) }.

(** The parent goes on in its own context behind the call, with [flag] on its
    stack; one frame less is in use. *)
Record goes_on (m : machine (St := St)) (parent : call_frame_t) (rest : list call_frame_t) (flag : uint256_t) (m' : machine (St := St)) : Prop := {
  go_stack : m_stack m' = rest;
  go_pool : pool_depth (m_evm m') = pool_depth (m_evm m) - 1;
  go_context : same_context parent (m_frame m');
  go_pc : pc (m_frame m') = pc parent;
  go_flag : items (stack (m_frame m')) = flag :: items (stack parent) }.

(** After a child that stopped, returned or reverted: its bytes are the return
    data, as many as the parent asked for are in its memory, and its gas is
    given back. *)
Record returned (m : machine (St := St)) (r : frame_result_t) (parent : call_frame_t) (m' : machine (St := St)) : Prop := {
  rt_bytes : result_bytes (memory (m_frame m)) r = Some (return_data (m_evm m'));
  rt_gas : gas (m_frame m') = gas parent +64 gas (m_frame m);
  rt_inside : forall i, (Z.of_nat i < Z.min (output_size parent) (Z.of_nat (length (return_data (m_evm m'))))) ->
    aget (data (memory (m_frame m'))) (Z.to_nat (output_offset parent) + i) = aget (return_data (m_evm m')) i;
  rt_outside : forall i, (Z.of_nat i < output_offset parent \/
      output_offset parent + Z.min (output_size parent) (Z.of_nat (length (return_data (m_evm m')))) <= Z.of_nat i) ->
    aget (data (memory (m_frame m'))) i = aget (data (memory parent)) i }.

(** After a child that failed: no return data, no gas, nothing copied. *)
Record gave_up (parent : call_frame_t) (m' : machine (St := St)) : Prop := {
  gu_data : return_data (m_evm m') = [];
  gu_gas : gas (m_frame m') = gas parent;
  gu_memory : memory (m_frame m') = memory parent }.

(** The state, the logs and the refund counter. *)
Definition same_effects (m m' : machine (St := St)) : Prop :=
  state (m_evm m') = state (m_evm m) /\ logs (m_evm m') = logs (m_evm m) /\ gas_refund (m_evm m') = gas_refund (m_evm m).

Lemma resume_total (e : evm_t St) p rest flag : top (stack p) < capacity (stack p) ->
  resume e p rest flag = Continue (Machine (set_pool e (pool_depth e - 1) (pending_frame e)) (set_stack p (Stack (flag :: items (stack p)) (capacity (stack p)))) rest).
Proof. intros R. unfold resume, evm_stack_push_unsafe. rewrite (proj2 (Z.ltb_lt _ _)) by exact R. reflexivity. Qed.

Lemma return_to_parent_effect m r flag parent rest : m_stack m = parent :: rest -> can_return m r parent ->
  exists m', return_to_parent m r flag = Continue m' /\ goes_on m parent rest flag m' /\ returned m r parent m' /\ same_effects m m'.
Proof.
  intros Hs [Hm [Ro Rs] Cr [Ho Hz] Co Room]. unfold return_to_parent. rewrite Hs.
  destruct (copy_return_total (m_evm m) _ _ _ Hm Ro Rs Cr) as (e1 & C). rewrite C. apply copy_return_bytes in C as (bs & c & B & ->).
  cbn [return_data set_return]. set (n := if output_size parent >? Z.of_nat (length bs) then Z.of_nat (length bs) else output_size parent).
  assert (Hn : n = Z.min (output_size parent) (Z.of_nat (length bs))).
  { unfold n. rewrite Z.gtb_ltb. destruct (Z.ltb_spec (Z.of_nat (length bs)) (output_size parent)); lia. }
  assert (L : length (firstn (Z.to_nat n) bs) = Z.to_nat n) by (rewrite length_firstn; lia). clearbody n.
  assert (St' : exists mem, (if n >? 0 then evm_memory_store_unsafe (memory parent) (output_offset parent) (firstn (Z.to_nat n) bs)
    else Some (memory parent)) = Some mem).
  { rewrite Z.gtb_ltb. destruct (Z.ltb_spec 0 n); [|eauto]. unfold evm_memory_store_unsafe. rewrite L, (proj2 (Z.leb_le _ _)) by (destruct Co; lia). eauto. }
  destruct St' as (mem & E). rewrite E, resume_total by exact Room. eexists. split; [reflexivity|].
  split; [split; reflexivity || apply same_context_refl || (repeat split)|]. split; [|repeat split].
  split; cbn; auto; rewrite <- Hn; intros i Hi; rewrite Z.gtb_ltb in E; destruct (Z.ltb_spec 0 n) as [P|P].
  - rewrite (store_inside _ _ _ _ i Ho E) by lia. unfold aget. rewrite nth_firstn. destruct (Nat.ltb_spec i (Z.to_nat n)); [reflexivity|lia].
  - lia.
  - apply (store_other _ _ _ _ i Ho E). lia.
  - injection E as <-. reflexivity.
Qed.

Lemma error_to_parent g m r parent rest : m_stack m = parent :: rest -> depth (m_frame m) <> 0 -> top (stack parent) < capacity (stack parent) -> action r = FRAME_ERROR ->
  exists m', handle_result g m r = Continue m' /\ goes_on m parent rest uint256_zero m' /\ gave_up parent m' /\ same_effects m m'.
Proof.
  intros Hs D Room A. unfold handle_result. rewrite A, (proj2 (Z.eqb_neq _ _)), Hs, resume_total by assumption. eexists. split; [reflexivity|].
  split; [split; reflexivity || (repeat split)|]. split; [split; reflexivity | repeat split].
Qed.
End Return.
