(* ===== verification/EvmTheorems.v ===== *)
(** What an execution of the interpreter guarantees as a whole: termination,
    the only sources of faults, gas accounting, static contexts, and the
    progress of single instructions. *)
From Stdlib Require Import ZArith Lia List Bool RelationClasses Relations.
From S2P Require Import Prelude Uint256 Types Effects Arena Stack Memory Opcodes Gas StateAccess Frame.
From S2P Require Import OpsArith OpsData CallOps Evm FrameLogic OpsSafe StateSafe CallSafe EvmSafe Execution Endless OpsSpec MemState.
Import ListNotations.
#[local] Open Scope Z_scope.
#[local] Open Scope word_scope.

(** * A deterministic view of the machine's steps *)

Section Run.
Context {St : Type} {SA : StateAccess St}.
Variable keccak256 : list Z -> hash_t.
Variable g : Z.

Definition continued (r : round (St := St)) : option machine := match r with Continue m => Some m | _ => None end.

Definition machine_step (m : machine (St := St)) : option machine :=
  match dispatch keccak256 (m_evm m, m_frame m) with
  | Ret (e, f) None => Some (Machine e f (m_stack m))
  | Ret (e, f) (Some r) => continued (handle_result g (Machine e f (m_stack m)) r)
  | Err (e, f) er => continued (handle_result g (Machine e f (m_stack m)) (frame_result_error er))
  | Crash _ => None
  end.

(** No machine of the run from [m] satisfies [bad], and the run ends within [n]
    steps. *)
Fixpoint run_avoids (bad : call_frame_t -> bool) (n : nat) (m : machine (St := St)) : bool :=
  negb (bad (m_frame m)) &&
  match n with
  | O => match machine_step m with None => true | Some _ => false end
  | S n' => match machine_step m with None => true | Some m' => run_avoids bad n' m' end
  end.

Lemma mstep_step m m' : mstep keccak256 g m m' -> machine_step m = Some m'.
Proof.
  intros [e f l e' f' D|e f l e' f' r m1 D H|e f l e' f' er m1 D H]; unfold machine_step; cbn [m_evm m_frame m_stack];
    rewrite D; [reflexivity | rewrite H; reflexivity..].
Qed.

Lemma run_avoids_reaches bad n m m' : run_avoids bad n m = true -> reaches keccak256 g m m' -> bad (m_frame m') = false.
Proof.
  intros H R. revert n H. induction R as [|x y z S _ IH]; intros n H.
  - destruct n; cbn [run_avoids] in H; apply andb_true_iff in H as [H _]; apply negb_true_iff, H.
  - apply mstep_step in S. destruct n; cbn [run_avoids] in H; rewrite S in H; apply andb_true_iff in H as [_ H]; [discriminate | eapply IH, H].
Qed.
End Run.

(** * Whole executions *)

Section Whole.
Context {St : Type} {SA : StateAccess St} {SL : StateLaws St}.
Variable keccak256 : list Z -> hash_t.
Hypothesis keccak_wf : forall bs, bytes_ok bs -> wf_hash (keccak256 bs).
#[local] Abbreviation evm_t := (evm_t St).

(** Whatever fuel a run was given, its result satisfies [done_ok]. *)
Lemma finished_run rounds fuel (e e' : evm_t) env r : evm_ok e -> env_ok env -> 0 <= pool_depth e < EVM_MAX_CALL_DEPTH ->
  evm_execute_env keccak256 rounds fuel e env = inl (e', r) ->
  done_ok e (call_gas (env_call env)) (call_is_static (env_call env)) e' r.
Proof.
  intros He Hv Hp H. destruct (execution_spec keccak256 keccak_wf e env He Hv Hp) as (n & res & Hn & K).
  specialize (Hn (Nat.max n rounds) (Nat.max n fuel) ltac:(lia) ltac:(lia)).
  rewrite execute_env_start in H, Hn by lia.
  rewrite (main_loop_mono keccak256 _ rounds _ fuel) in Hn by (lia || (rewrite H; discriminate)).
  rewrite H in Hn. subst res. exact K.
Qed.
End Whole.

(** * How an execution concludes *)

(** The memory bytes of the range that RETURN and REVERT take from the stack
    (zero where the memory has not grown to), and the gas its expansion costs. *)
Definition range_taken (f : call_frame_t) (out : list Z) (cost : Z) : Prop :=
  exists off size rest, items (stack f) = off :: size :: rest /\ Z.of_nat (length out) = val size /\
    (forall i, (i < length out)%nat -> aget out i = aget (data (memory f)) (Z.to_nat (val off) + i)) /\
    cost = (if val size =? 0 then 0
            else let words := evm_memory_size (memory f) / 32 in Cmem (Z.max words (words_of (val off + val size))) - Cmem words).

Section Conclusion.
Context {St : Type} {SA : StateAccess St} {SL : StateLaws St}.
Variable keccak256 : list Z -> hash_t.
Hypothesis keccak_wf : forall bs, bytes_ok bs -> wf_hash (keccak256 bs).
#[local] Abbreviation evm_t := (evm_t St).
#[local] Abbreviation dispatch := (dispatch keccak256).
#[local] Abbreviation machine := (@machine St).
Variable g : Z.

(** The last instruction of the root frame and the result it gives: the end of
    the code or STOP, RETURN, REVERT, or an instruction that fails. *)
Inductive concluded (m : machine) (e' : evm_t) : evm_execution_result_t -> Prop :=
| con_stop : code_size (m_frame m) <= pc (m_frame m) \/ current_op (m_frame m) = OP_STOP -> e' = m_evm m ->
    concluded m e' (ExecutionResult EVM_RESULT_STOP EVM_OK (g - gas (m_frame m)) (gas_refund (m_evm m))
      (return_data (m_evm m)) (logs_data (logs (m_evm m))))
| con_return out cost : current_op (m_frame m) = OP_RETURN -> range_taken (m_frame m) out cost -> state e' = state (m_evm m) ->
    concluded m e' (ExecutionResult EVM_RESULT_STOP EVM_OK (g - gas (m_frame m) + cost) (gas_refund (m_evm m))
      out (logs_data (logs (m_evm m))))
| con_revert out cost : current_op (m_frame m) = OP_REVERT -> range_taken (m_frame m) out cost -> state e' = state (m_evm m) ->
    concluded m e' (ExecutionResult EVM_RESULT_ERROR EVM_OK (g - gas (m_frame m) + cost) 0 out [])
| con_error f1 er : dispatch (m_evm m, m_frame m) = Err (e', f1) er ->
    concluded m e' (ExecutionResult EVM_RESULT_ERROR er g 0 [] []).

(** The labels that end a frame. *)
Definition result_label (op : Z) (l : label (St := St)) : Prop := forall e f e1 f1 r, l (e, f) = Ret (e1, f1) (Some r) ->
  op = OP_STOP /\ e1 = e /\ f1 = f /\ r = frame_result_stop \/
  op = OP_RETURN /\ e1 = e /\ (exists off size, op_return_range f = Ret f1 (off, size) /\ r = frame_result_return off size) \/
  op = OP_REVERT /\ e1 = e /\ (exists off size, op_return_range f = Ret f1 (off, size) /\ r = frame_result_revert off size) \/
  action r = FRAME_CALL.

Definition quiet (l : label (St := St)) : Prop := forall s s' r, l s <> Ret s' (Some r).

Lemma quiet_bind {A} (m : EM A) k : (forall a, quiet (k a)) -> quiet (bind m k).
Proof. intros Hk s s' r H. apply bind_inv in H as (s1 & a & _ & H). exact (Hk a _ _ _ H). Qed.

Lemma quiet_none : quiet (ret None). Proof. intros s s' r. discriminate. Qed.
Lemma quiet_next m : quiet (next m). Proof. apply quiet_bind. intros _. apply quiet_none. Qed.
Lemma quiet_jump h op : quiet (jump_label h op).
Proof. apply quiet_bind. intros [b|]; [apply quiet_next | intros s s' r; discriminate]. Qed.
Lemma quiet_sstore : quiet sstore_label. Proof. apply quiet_bind. intros r. apply quiet_bind. intros _. apply quiet_none. Qed.
Lemma quiet_log n : quiet (log_label n). Proof. apply quiet_bind. intros r. apply quiet_bind. intros _. apply quiet_none. Qed.

Lemma quiet_result op l : quiet l -> result_label op l.
Proof. intros Q e f e1 f1 r H. destruct (Q _ _ _ H). Qed.

Lemma call_result op h : result_label op (call_label h).
Proof.
  intros e f e1 f1 r H. apply bind_inv in H as (s1 & [c|] & _ & H); [|discriminate]. cbn in H. injection H as _ _ <-. auto.
Qed.

Lemma range_label_inv (mk : Z -> Z -> frame_result_t) (e : evm_t) f e1 f1 r : bind (in_frame (fun _ : evm_t => op_return_range)) (fun x => ret (Some (mk (fst x) (snd x)))) (e, f) =
  Ret (e1, f1) (Some r) -> e1 = e /\ exists off size, op_return_range f = Ret f1 (off, size) /\ r = mk off size.
Proof.
  unfold bind, in_frame, zoom, ret; cbn [fst snd]. destruct (op_return_range f) as [f2 [off size]|? ?|?]; try discriminate.
  cbn. intros [= <- <- <-]. eauto.
Qed.

Lemma result_table : Forall (fun e => result_label (fst e) (snd e)) (dispatch_table keccak256).
Proof.
  unfold dispatch_table, arithmetic_labels, bitwise_labels, push_labels, context_labels, block_labels, stack_labels, memory_labels,
    control_labels, call_return_labels, log_labels. rewrite ?Forall_app, ?Forall_cons_iff, ?Forall_app, ?Forall_map.
  repeat match goal with |- _ /\ _ => split end; cbn [seq]; try apply Forall_nil; repeat (apply Forall_cons; [cbn [fst snd]|]);
    try apply Forall_nil; cbn [fst snd];
    first [ apply call_result | apply quiet_result; first [apply quiet_next | apply quiet_jump | exact quiet_sstore | apply quiet_log] | idtac ].
  - intros e f e1 f1 r [= <- <- <-]. auto.
  - intros e f e1 f1 r H%range_label_inv. auto.
  - intros e f e1 f1 r H%range_label_inv. auto.
Qed.

Lemma result_find op : result_label op (find_label (dispatch_table keccak256) op).
Proof.
  pose proof result_table as H. induction H as [|[k l] rest Hl Hrest IH]; cbn [find_label].
  - intros e f e1 f1 r X. discriminate.
  - destruct (Z.eqb_spec k op) as [<-|N]; [exact Hl|exact IH].
Qed.

(** What the range of RETURN and REVERT leaves. *)
Lemma return_range_inv f f1 off size : frame_ok f -> op_return_range f = Ret f1 (off, size) ->
  exists xo xs rest c, items (stack f) = xo :: xs :: rest /\ off = val xo /\ size = val xs /\ u64 off /\ u64 size /\ 0 <= c <= gas f /\
    gas f1 = gas f - c /\ depth f1 = depth f /\
    (if size =? 0 then c = 0 /\ memory f1 = memory f else evm_memory_expand (memory f) off size = Some (true, c, memory f1)).
Proof.
  intros Hf H. pose proof (fo_gas _ Hf) as [G0 G1]. pose proof (so_items _ (fo_stack _ Hf)) as W. unfold op_return_range in H.
  apply bind_inv in H as (f2 & u & E & H). unfold need_items, check, guard in E. destruct (evm_stack_has_items _ _); [|discriminate].
  injection E as <- _. apply bind_inv in H as (f3 & xo & P & H). apply bind_inv in H as (f4 & xs & Q & H).
  unfold pop, evm_stack_pop_unsafe in P, Q. destruct (items (stack f)) as [|y l] eqn:I; [discriminate|]. injection P as <- ->.
  cbn [stack set_stack items capacity] in Q. destruct l as [|y rest]; [discriminate|]. injection Q as <- ->.
  apply Forall_cons_iff in W as [W1 W]. apply Forall_cons_iff in W as [W2 _].
  apply bind_inv in H as (f5 & u' & E & H). unfold guard in E. destruct (negb _) eqn:N; [|discriminate]. injection E as <- _.
  rewrite negb_orb, !negb_involutive, andb_true_iff in N. destruct N as [N1 N2].
  destruct (fits_word _ W1 N1) as [Q1 U1], (fits_word _ W2 N2) as [Q2 U2]. rewrite Q1, Q2 in H.
  apply bind_inv in H as (f6 & u'' & E & H). injection H as <- <- <-. exists xo, xs, rest.
  destruct (Z.gtb_spec (val xs) 0) as [L|L].
  - apply bind_inv in E as (f7 & c & X & C). apply expand_inv in X as (m & X & ->). apply charge_inv in C as [-> C].
    cbn [memory set_stack gas set_memory] in *. pose proof (expand_cost_u64 _ _ _ _ _ _ X) as Uc. exists c. unfold u64 in *.
    rewrite (proj2 (Z.eqb_neq _ _)) by lia. cbn [gas set_gas memory set_memory set_stack depth].
    unfold sub64. rewrite w64_small by (unfold u64; lia). repeat match goal with |- _ /\ _ => split end; first [reflexivity | assumption | lia].
  - injection E as <-. exists 0. assert (val xs = 0) as -> by (unfold u64 in U2; lia). cbn.
    repeat match goal with |- _ /\ _ => split end; first [reflexivity | assumption | unfold u64 in *; lia].
Qed.

(** The bytes copied out, and what the expansion cost. *)
Lemma copied_returned (e e2 : evm_t) f f1 off size : frame_ok f -> op_return_range f = Ret f1 (off, size) ->
  copy_return_data e (memory f1) off size = inl e2 ->
  exists c, range_taken f (return_data e2) c /\ 0 <= c <= gas f /\ gas f1 = gas f - c /\ gas_refund e2 = gas_refund e /\ logs e2 = logs e /\ state e2 = state e.
Proof.
  intros Hf R K. destruct (return_range_inv f f1 off size Hf R) as (xo & xs & rest & c & I & -> & -> & Uo & Us & Bc & G & D & X).
  pose proof (fo_memory _ Hf) as Hm. exists c. unfold copy_return_data in K. unfold u64 in *.
  destruct (Z.eqb_spec (val xs) 0) as [Z0|Nz].
  { injection K as <-. destruct X as [-> _]. split; [|cbn; auto using Z.le_refl]. exists xo, xs, rest. cbn. rewrite Z0. cbn.
    split; [exact I|]. split; [reflexivity|]. split; [lia|reflexivity]. }
  match type of K with match ?cap with _ => _ end = _ => destruct cap as [cap'|]; [|discriminate] end.
  unfold evm_memory_load_unsafe in K. destruct (Z.leb_spec (val xo + val xs) (evm_memory_size (memory f1))) as [L|L]; [|discriminate].
  injection K as <-. cbn [return_data set_return gas_refund logs state].
  pose proof (expand_any (memory f) (val xo) (val xs) Hm ltac:(unfold u64; lia) ltac:(unfold u64; lia)) as Y. rewrite X in Y. destruct Y as (M1 & _).
  pose proof (mem_size_bound _ M1) as B1. destruct (expand_spec (memory f) (val xo) (val xs) Hm ltac:(unfold u64; lia) ltac:(lia) ltac:(lia))
    as (ok & c' & m' & E & _ & _ & S). rewrite X in E. injection E as <- <- <-. destruct (S eq_refl) as (_ & _ & S').
  destruct (S' ltac:(lia)) as (_ & S1 & S2). split; [|auto 10]. exists xo, xs, rest. split; [exact I|]. unfold evm_memory_size in L.
  split; [rewrite length_firstn, length_skipn; lia|]. split.
  - intros i Hi. rewrite length_firstn, length_skipn in Hi. rewrite <- (expand_bytes _ _ _ _ _ _ X).
    unfold aget. rewrite nth_firstn, nth_skipn. destruct (Nat.ltb_spec i (Z.to_nat (val xs))); [reflexivity|lia].
  - rewrite (proj2 (Z.eqb_neq _ _)) by exact Nz. cbv zeta. rewrite S2, S1. f_equal. f_equal.
    pose proof (mo_words _ Hm) as W. Z.div_mod_to_equations; lia.
Qed.

(** The machine's next instruction is the last one of the run. *)
Definition finishes (m : machine) (e' : evm_t) (r : evm_execution_result_t) : Prop :=
  match dispatch (m_evm m, m_frame m) with
  | Ret (e1, f1) (Some fr) => handle_result g (Machine e1 f1 (m_stack m)) fr = Done e' r
  | Err (e1, f1) er => handle_result g (Machine e1 f1 (m_stack m)) (frame_result_error er) = Done e' r
  | _ => False
  end.

Lemma round_finishes fuel (e : evm_t) f l e' r : main_round keccak256 fuel g (Machine e f l) = Done e' r ->
  exists m, reaches keccak256 g (Machine e f l) m /\ finishes m e' r.
Proof.
  unfold main_round; cbn [m_evm m_frame m_stack]. revert e f; induction fuel as [|fuel IH]; intros e f; cbn [execute_frame]; [discriminate|].
  destruct (dispatch (e, f)) as [[e1 f1] [fr|]|[e1 f1] er|x] eqn:D; intros H; [| | |discriminate].
  - exists (Machine e f l). split; [constructor|]. unfold finishes; cbn [m_evm m_frame m_stack]. rewrite D. exact H.
  - destruct (IH e1 f1 H) as (m & R & F). exists m. split; [|exact F]. eapply Relation_Operators.rt1n_trans; [eapply ms_instr, D | exact R].
  - exists (Machine e f l). split; [constructor|]. unfold finishes; cbn [m_evm m_frame m_stack]. rewrite D. exact H.
Qed.

Lemma loop_finishes rounds fuel (m : machine) e' r : main_loop keccak256 rounds fuel g m = inl (e', r) ->
  exists m', reaches keccak256 g m m' /\ finishes m' e' r.
Proof.
  revert m; induction rounds as [|rounds IH]; intros [e f l]; cbn [main_loop]; [discriminate|].
  destruct (main_round keccak256 fuel g (Machine e f l)) as [m1|e1 r1|x] eqn:R; intros H; [| |discriminate].
  - destruct (IH m1 H) as (m' & R' & F). exists m'. split; [|exact F]. eapply reaches_trans; [exact (round_reaches _ _ _ _ _ _ _ R) | exact R'].
  - injection H as -> ->. exact (round_finishes _ _ _ _ _ _ R).
Qed.

Lemma resume_goes_on (e : evm_t) p rest flag e' r : resume e p rest flag <> Done e' r.
Proof. unfold resume. destruct (evm_stack_push_unsafe _ _); discriminate. Qed.

Lemma return_goes_on (m : machine) fr flag e' r : return_to_parent m fr flag <> Done e' r.
Proof.
  unfold return_to_parent. destruct (m_stack m) as [|p rest]; [discriminate|]. destruct (copy_return_data _ _ _ _); [|discriminate].
  destruct (if _ >? 0 then _ else _); [apply resume_goes_on | discriminate].
Qed.

(** Only a root frame finishes a run. *)
Lemma finishes_root e0 p0 static m e' r : u64 g -> 0 <= p0 -> machine_inv (C := any_fault) e0 g p0 static m -> finishes m e' r -> m_stack m = [].
Proof.
  intros Hg Hp Hi F. destruct m as [e f l]. pose proof (depths_length _ _ (mi_depths _ _ _ _ _ Hi)) as Dl. unfold finishes in F; cbn [m_evm m_frame m_stack] in *.
  destruct l as [|p rest]; [reflexivity|exfalso].
  pose proof (instruction_spec keccak256 keccak_wf e f (mi_evm _ _ _ _ _ Hi) (mi_frame _ _ _ _ _ Hi) (or_introl any_bad)) as K.
  assert (N : forall d, d = depth f -> (d =? 0) = false) by (intros d ->; apply Z.eqb_neq; cbn [length] in Dl; lia).
  unfold instruction_ok in K. destruct (dispatch (e, f)) as [[e1 f1] [fr|]|[e1 f1] er|x]; try contradiction.
  - destruct K as (_ & (_ & Ed & _) & K). unfold handle_result in F; cbn [m_frame m_evm m_stack] in F. rewrite (N _ Ed) in F.
    destruct (action fr); try (exact (return_goes_on _ _ _ _ _ F)); try contradiction.
    destruct K as (child & P & Pd & Pm & _). rewrite Pd in F. pose proof (mi_pool _ _ _ _ _ Hi) as [P1 P2]. cbn [m_evm m_stack length] in *.
    unfold EVM_MAX_CALL_DEPTH in *. destruct (Z.leb_spec 1024 (Z.of_nat (S (length rest)))); [|discriminate].
    lia.
  - destruct K as (_ & _ & Ed). unfold handle_result in F; cbn [m_frame m_evm m_stack action frame_result_error] in F.
    rewrite (N _ Ed) in F. exact (resume_goes_on _ _ _ _ _ _ F).
Qed.

(** How a root frame finishes. *)
Lemma finishes_concluded e0 p0 static m e' r : u64 g -> 0 <= p0 -> machine_inv (C := any_fault) e0 g p0 static m -> finishes m e' r -> concluded m e' r.
Proof.
  intros Hg Hp Hi F. pose proof (finishes_root _ _ _ _ _ _ Hg Hp Hi F) as L. destruct m as [e f l]. cbn [m_stack] in L. subst l.
  pose proof (mi_depths _ _ _ _ _ Hi) as Dl. pose proof (mi_gas _ _ _ _ _ Hi) as Tg. unfold total_gas in Tg. cbn [m_frame m_stack depths gas_sum] in Dl, Tg.
  pose proof (fi_ok _ (mi_frame _ _ _ _ _ Hi)) as Hf. cbn [m_frame] in Hf. pose proof (fo_gas _ Hf) as [G0 G1].
  unfold finishes in F; cbn [m_evm m_frame m_stack] in F.
  assert (Sub : forall x, 0 <= x <= gas f -> g -64 x = g - x) by (intros x Hx; unfold sub64; apply w64_small; unfold u64 in *; lia).
  destruct (dispatch (e, f)) as [[e1 f1] [fr|]|[e1 f1] er|x] eqn:D; try contradiction.
  2:{ pose proof (instruction_spec keccak256 keccak_wf e f (mi_evm _ _ _ _ _ Hi) (mi_frame _ _ _ _ _ Hi) (or_introl any_bad)) as K.
      unfold instruction_ok in K. rewrite D in K. destruct K as (_ & _ & Ed). unfold handle_result in F; cbn [m_frame m_evm action error frame_result_error] in F.
      unfold AtDepth in Ed. rewrite Ed, Dl in F. injection F as <- <-. exact (con_error (Machine e f []) e1 f1 er D). }
  unfold Evm.dispatch in D; cbn [fst snd] in D. destruct (Z.leb_spec (code_size f) (pc f)) as [Le|Lt].
  { injection D as <- <- <-. unfold handle_result in F; cbn [m_frame m_evm action frame_result_stop] in F. rewrite Dl in F. cbn in F.
    injection F as <- <-. rewrite Sub by lia. apply con_stop; auto. }
  pose proof (fo_pc _ Hf) as Pc. assert (Hf' : frame_ok (set_pc f (pc f +64 1))).
  { destruct Hf; split; auto. destruct fo_code as [_ Cs]. cbn [pc set_pc]. unfold add64. rewrite w64_small by (unfold u64; lia).
    unfold code_size in *; cbn [code set_pc]. lia. }
  destruct (result_find _ e _ e1 f1 fr D) as [(O & -> & -> & ->)|[(O & -> & off & size & R & ->)|[(O & -> & off & size & R & ->)|A]]].
  - unfold handle_result in F; cbn [m_frame m_evm action frame_result_stop depth set_pc gas] in F. rewrite Dl in F. cbn in F.
    injection F as <- <-. rewrite Sub by lia. apply con_stop; auto.
  - pose proof (return_range_inv _ _ _ _ Hf' R) as (_ & _ & _ & _ & _ & _ & _ & _ & _ & _ & _ & Ed & _). cbn [depth set_pc] in Ed.
    unfold handle_result in F; cbn [m_frame m_evm action return_offset return_size frame_result_return] in F. rewrite Ed, Dl in F. cbn [Z.eqb] in F.
    destruct (copy_return_data e (memory f1) off size) as [e2|x] eqn:K; [|discriminate]. injection F as <- <-.
    destruct (copied_returned e e2 _ f1 off size Hf' R K) as (c & Rt & Bc & G & -> & -> & S). cbn [gas set_pc] in Bc, G.
    rewrite G, Sub, Z.sub_sub_distr by lia. exact (con_return (Machine e f []) e2 (return_data e2) c O Rt S).
  - pose proof (return_range_inv _ _ _ _ Hf' R) as (_ & _ & _ & _ & _ & _ & _ & _ & _ & _ & _ & Ed & _). cbn [depth set_pc] in Ed.
    unfold handle_result in F; cbn [m_frame m_evm action return_offset return_size frame_result_revert] in F. rewrite Ed, Dl in F. cbn [Z.eqb] in F.
    destruct (copy_return_data e (memory f1) off size) as [e2|x] eqn:K; [|discriminate]. injection F as <- <-.
    destruct (copied_returned e e2 _ f1 off size Hf' R K) as (c & Rt & Bc & G & _ & _ & S). cbn [gas set_pc] in Bc, G.
    rewrite G, Sub, Z.sub_sub_distr by lia. exact (con_revert (Machine e f []) e2 (return_data e2) c O Rt S).
  - unfold handle_result in F; cbn [m_stack m_evm] in F. rewrite A in F. cbn in F. destruct (pending_frame e1); discriminate.
Qed.
End Conclusion.

(** * Concrete instances *)

(** A hash function, a fresh interpreter on an empty state, and the
    environment that runs [c] with gas [g]. *)
Definition zero_keccak (bs : list Z) : hash_t := hash_zero.
Definition sample_evm : evm_t mem_state := evm_set_state (evm_init FORK_SHANGHAI) (Some empty_state).
Definition sample_env (c : list Z) (g : Z) (static : bool) : execution_env_t :=
  ExecutionEnv block_context_init tx_context_init
    (CallParams uint256_zero g c [] address_zero (address_from_uint256 (uint256_from_u64 7)) static).

(** PUSH1 2, PUSH1 5, SSTORE, STOP; PUSH1 42, PUSH0, MSTORE, PUSH1 32, PUSH0,
    RETURN; JUMPDEST, PUSH0, JUMP. *)
Definition store_program : list Z := [0x60; 2; 0x60; 5; 0x55; 0x00].
Definition return_program : list Z := [0x60; 42; 0x5f; 0x52; 0x60; 32; 0x5f; 0xf3].
Definition loop_program : list Z := [0x5b; 0x5f; 0x56].

Lemma zero_keccak_wf bs : bytes_ok bs -> wf_hash (zero_keccak bs).
Proof. intros _. apply wf_hash_zero. Qed.

Lemma init_block_ok : block_ok block_context_init.
Proof. split; cbn; auto with words; discriminate. Qed.

Lemma init_tx_ok : tx_ok tx_context_init.
Proof. split; cbn; auto with words. Qed.

Lemma sample_evm_ok : evm_ok sample_evm.
Proof.
  split; try reflexivity; try apply init_block_ok; try apply init_tx_ok.
  - split; [constructor|cbn; lia].
  - intros st [= <-]. exact empty_state_ok.
Qed.

Lemma sample_env_ok c g static : forallb (fun b => (0 <=? b) && (b <? 256)) c = true -> Z.of_nat (length c) < 2 ^ 63 -> u64 g ->
  env_ok (sample_env c g static).
Proof.
  intros Hc Hl Hg. split; unfold sample_env; cbn [env_block env_tx env_call call_gas call_code call_input call_caller call_address call_value];
    auto using init_block_ok, init_tx_ok, wf_zero.
  - split; [|exact Hl]. apply Forall_forall. intros b Hb. rewrite forallb_forall in Hc. specialize (Hc b Hb). unfold u8. lia.
  - split; [constructor|split; reflexivity || discriminate].
  - split; [apply wf_address_zero | apply wf_address_from, wf_from_u64; split; reflexivity || discriminate].
Qed.

Lemma sample_frame_inv (env : execution_env_t) : env_ok env -> frame_inv (m_frame (start sample_evm env root_stack)).
Proof.
  intros Hv. apply (mi_frame _ _ _ _ _ (start_inv (C := any_fault) sample_evm env sample_evm_ok Hv ltac:(split; [discriminate|reflexivity]))).
Qed.

(** What can be observed of a run's result. *)
Lemma observed_inl {A B D} (obs : A -> B) (x : A + D) b :
  match x with inl a => Some (obs a) | inr _ => None end = Some b -> exists a, x = inl a /\ obs a = b.
Proof. destruct x as [a|d]; [|discriminate]. intros [= <-]. exists a; auto. Qed.

Ltac sample := first [exact zero_keccak_wf | exact sample_evm_ok | apply sample_env_ok; [reflexivity | reflexivity | unfold u64; lia] |
  (split; [discriminate | reflexivity]) | reflexivity].

(** C1: an execution that reaches no endless memory instruction (one whose
    memory range ends above 2^63, decided by [endless]) comes to an end: there
    is a number of main-loop rounds and of instructions per frame that is
    enough, from there on the outcome does not depend on the fuel, and it is a
    result, or an access out of bounds that follows a machine [risky] names.
    Neither the interpreter's loops nor any loop of an instruction runs for
    ever; jumps and calls are paid for with gas. *)
Theorem execution_terminates {St} {SA : StateAccess St} {SL : StateLaws St} (keccak256 : list Z -> hash_t) (e : evm_t St) env :
  (forall bs, bytes_ok bs -> wf_hash (keccak256 bs)) -> evm_ok e -> env_ok env -> 0 <= pool_depth e < EVM_MAX_CALL_DEPTH ->
  (forall m, reaches keccak256 (call_gas (env_call env)) (start e env root_stack) m -> endless (m_frame m) = false) ->
  exists n res, (forall rounds fuel, (n <= rounds)%nat -> (n <= fuel)%nat -> evm_execute_env keccak256 rounds fuel e env = res) /\
    match res with
    | inl _ => True
    | inr x => x = OutOfBounds /\
        exists m, reaches keccak256 (call_gas (env_call env)) (start e env root_stack) m /\ risky (m_frame m) = true
    end.
Proof.
  intros Hk He Hv Hp Ends. destruct (execution_outcome keccak256 e env Hk He Hv Hp) as (n & res & Hn & K).
  exists n, res. split; [exact Hn|]. destruct res as [[e' r]|x]; [exact I|]. destruct K as (m & R & K).
  destruct x; [eauto | rewrite (Ends m R) in K; discriminate | contradiction].
Qed.

(** A loop that only its gas ends. *)
Lemma execution_terminates_witness : exists n res,
  (forall rounds fuel, (n <= rounds)%nat -> (n <= fuel)%nat ->
    evm_execute_env zero_keccak rounds fuel sample_evm (sample_env loop_program 1000 false) = res) /\
  match res with
  | inl _ => True
  | inr x => x = OutOfBounds /\ exists m, reaches zero_keccak 1000 (start sample_evm (sample_env loop_program 1000 false) root_stack) m /\
      risky (m_frame m) = true
  end.
Proof.
  apply (execution_terminates zero_keccak sample_evm (sample_env loop_program 1000 false)); [sample.. |].
  intros m. apply (run_avoids_reaches zero_keccak 1000 endless 300). vm_compute. reflexivity.
Defined.

(** C2: an execution faults (reads or writes out of bounds, or loops forever)
    only if it reaches one of the situations that [risky] decides: a memory
    opcode with an operand between 2^62 and 2^64, a DUP on a stack that fills
    its allocation, or a call with a memory range beyond the arena's 64 KB. A
    run that meets none of them ends with a result. *)
Theorem execution_safe {St} {SA : StateAccess St} {SL : StateLaws St} (keccak256 : list Z -> hash_t) (e : evm_t St) env :
  (forall bs, bytes_ok bs -> wf_hash (keccak256 bs)) -> evm_ok e -> env_ok env -> 0 <= pool_depth e < EVM_MAX_CALL_DEPTH ->
  (forall m, reaches keccak256 (call_gas (env_call env)) (start e env root_stack) m -> risky (m_frame m) = false) ->
  exists n e' r, forall rounds fuel, (n <= rounds)%nat -> (n <= fuel)%nat ->
    evm_execute_env keccak256 rounds fuel e env = inl (e', r).
Proof.
  intros Hk He Hv Hp Calm. destruct (execution_spec keccak256 Hk e env He Hv Hp) as (n & [[e' r]|x] & Hn & K).
  - exists n, e', r. exact Hn.
  - destruct K as (_ & m & R & Rk). rewrite (Calm m R) in Rk. discriminate.
Qed.

Lemma execution_safe_witness : exists n e' r, forall rounds fuel, (n <= rounds)%nat -> (n <= fuel)%nat ->
  evm_execute_env zero_keccak rounds fuel sample_evm (sample_env store_program 30000 false) = inl (e', r).
Proof.
  apply execution_safe; [sample.. |]. intros m. apply (run_avoids_reaches zero_keccak 30000 risky 5). vm_compute. reflexivity.
Defined.

(** C3: what a run reports is fixed by the machine it concludes in, a reachable
    one with a root frame. STOP and the end of the code report the limit less
    the gas that is left, the refund and the logs, and as output the return
    data of the last call; RETURN reports as output the memory bytes of its
    range, and charges their expansion; REVERT reports its bytes and its gas,
    no refund and no logs; an instruction that fails uses up the limit and
    reports its status, no refund, output or logs. The gas is within the limit. *)
Theorem execution_accounting {St} {SA : StateAccess St} {SL : StateLaws St} (keccak256 : list Z -> hash_t) rounds fuel (e e' : evm_t St) env r :
  (forall bs, bytes_ok bs -> wf_hash (keccak256 bs)) -> evm_ok e -> env_ok env -> 0 <= pool_depth e < EVM_MAX_CALL_DEPTH ->
  evm_execute_env keccak256 rounds fuel e env = inl (e', r) ->
  0 <= gas_used r <= call_gas (env_call env) /\
  exists m, reaches keccak256 (call_gas (env_call env)) (start e env root_stack) m /\ m_stack m = [] /\
    concluded keccak256 (call_gas (env_call env)) m e' r.
Proof.
  intros Hk He Hv Hp H. split; [exact (dn_gas _ _ _ _ _ (finished_run keccak256 Hk _ _ _ _ _ _ He Hv Hp H))|].
  rewrite execute_env_start in H by lia. apply loop_finishes in H as (m & R & F). exists m. split; [exact R|].
  pose proof (reaches_inv keccak256 Hk e _ _ _ _ m (ev_gas _ Hv) (proj1 Hp) (start_inv e env He Hv Hp) R) as Hi.
  split; [exact (finishes_root keccak256 Hk _ _ _ _ _ _ _ (ev_gas _ Hv) (proj1 Hp) Hi F) |
          exact (finishes_concluded keccak256 Hk _ _ _ _ _ _ _ (ev_gas _ Hv) (proj1 Hp) Hi F)].
Qed.

Lemma execution_accounting_witness : exists e' r m,
  evm_execute_env zero_keccak 2 20 sample_evm (sample_env return_program 1000 false) = inl (e', r) /\ Z.of_nat (length (output r)) = 32 /\
  concluded zero_keccak 1000 m e' r.
Proof.
  destruct (observed_inl (fun p => length (output (snd p))) (evm_execute_env zero_keccak 2 20 sample_evm (sample_env return_program 1000 false))
    32%nat) as ([e' r] & E & R); [vm_compute; reflexivity|]. cbn [snd] in R.
  destruct (execution_accounting zero_keccak 2 20 sample_evm e' (sample_env return_program 1000 false) r zero_keccak_wf sample_evm_ok
    ltac:(sample) ltac:(sample) E) as (_ & m & _ & _ & K). exists e', r, m. split; [exact E|]. split; [rewrite R; reflexivity | exact K].
Defined.

(** C4: an execution whose root call is static changes neither balances,
    nonces, code nor storage, emits no log and leaves the refund counter, no
    matter what calls it makes. *)
Theorem static_execution {St} {SA : StateAccess St} {SL : StateLaws St} (keccak256 : list Z -> hash_t) rounds fuel (e e' : evm_t St) env r :
  (forall bs, bytes_ok bs -> wf_hash (keccak256 bs)) -> evm_ok e -> env_ok env -> 0 <= pool_depth e < EVM_MAX_CALL_DEPTH ->
  call_is_static (env_call env) = true -> evm_execute_env keccak256 rounds fuel e env = inl (e', r) ->
  match state e, state e' with Some s, Some s' => world_eq s s' | None, None => True | _, _ => False end /\
  logs e' = logs e /\ gas_refund e' = gas_refund e.
Proof.
  intros Hk He Hv Hp S H. exact (dn_world _ _ _ _ _ (finished_run keccak256 Hk _ _ _ _ _ _ He Hv Hp H) S).
Qed.

Lemma static_execution_witness : exists e' r,
  evm_execute_env zero_keccak 2 20 sample_evm (sample_env store_program 30000 true) = inl (e', r) /\
  result_error r = EVM_WRITE_PROTECTION /\ logs e' = logs sample_evm.
Proof.
  destruct (observed_inl (fun p => result_error (snd p)) (evm_execute_env zero_keccak 2 20 sample_evm (sample_env store_program 30000 true))
    EVM_WRITE_PROTECTION) as ([e' r] & E & R); [vm_compute; reflexivity|]. exists e', r. split; [exact E|]. split; [exact R|].
  apply (static_execution zero_keccak 2 20 sample_evm e' (sample_env store_program 30000 true) r zero_keccak_wf sample_evm_ok
    ltac:(sample) ltac:(sample) eq_refl E).
Defined.

(** C5: in every machine an execution reaches, the gas of the running frame
    and of its suspended parents adds up to at most the limit, the frame's
    depth is the number of its parents and below 1024, stacks hold at most
    1024 well-formed words, memory at most 64 KB, and the program counter is
    at the start of an instruction (or past the code). *)
Theorem reachable_invariant {St} {SA : StateAccess St} {SL : StateLaws St} (keccak256 : list Z -> hash_t) (e : evm_t St) env m :
  (forall bs, bytes_ok bs -> wf_hash (keccak256 bs)) -> evm_ok e -> env_ok env -> 0 <= pool_depth e < EVM_MAX_CALL_DEPTH ->
  reaches keccak256 (call_gas (env_call env)) (start e env root_stack) m ->
  let f := m_frame m in
  0 <= gas f /\ total_gas m <= call_gas (env_call env) /\
  depth f = Z.of_nat (length (m_stack m)) /\ depth f < EVM_MAX_CALL_DEPTH /\
  top (stack f) <= capacity (stack f) <= EVM_STACK_MAX_DEPTH /\ Forall wf256 (items (stack f)) /\
  evm_memory_size (memory f) <= 65536 /\ instr_start (code f) (Z.to_nat (pc f)).
Proof.
  intros Hk He Hv Hp R f.
  pose proof (reaches_inv keccak256 Hk e _ _ _ _ m (ev_gas _ Hv) (proj1 Hp) (start_inv e env He Hv Hp) R) as [_ Hf _ Hd [P1 P2] Hg _ _].
  pose proof (depths_length _ _ Hd) as Dl. fold f in Hf, Hd, Dl. destruct Hf as [[[G _] _ [S1 S2 S3] M _ _ _ _ _] _ _ Hi].
  pose proof (mem_size_bound _ M). repeat split; auto; lia.
Qed.

Lemma reachable_invariant_witness :
  depth (m_frame (start sample_evm (sample_env loop_program 1000 false) root_stack)) < EVM_MAX_CALL_DEPTH.
Proof.
  apply (reachable_invariant zero_keccak sample_evm (sample_env loop_program 1000 false) _ zero_keccak_wf sample_evm_ok
    ltac:(sample) ltac:(sample)). constructor.
Defined.

(** One frame runs for at most [frame_measure] instructions (gas times
    code size, plus the rest of the code): [execute_frame] with that fuel
    never runs out of it. *)
Theorem frame_terminates {St} {SA : StateAccess St} {SL : StateLaws St} (keccak256 : list Z -> hash_t) (e : evm_t St) f :
  (forall bs, bytes_ok bs -> wf_hash (keccak256 bs)) -> evm_ok e -> frame_inv f ->
  execute_frame keccak256 (Z.to_nat (frame_measure f)) (e, f) <> Crash OutOfFuel.
Proof.
  intros Hk He Hf X. pose proof (execute_frame_spec keccak256 Hk (C := any_fault) (fun _ => True)) as K.
  specialize (K (fun _ _ => or_introl any_bad) (fun _ _ _ _ => I) (Z.to_nat (frame_measure f)) e f He Hf I).
  rewrite X in K. pose proof (frame_measure_pos f Hf). apply K; [lia|reflexivity].
Qed.

Lemma frame_terminates_witness : let f := m_frame (start sample_evm (sample_env loop_program 1000 false) root_stack) in
  execute_frame zero_keccak (Z.to_nat (frame_measure f)) (sample_evm, f) <> Crash OutOfFuel.
Proof. apply frame_terminates; [exact zero_keccak_wf | exact sample_evm_ok | apply sample_frame_inv; sample]. Defined.

(** An instruction that does not end its frame leaves a well-formed frame
    of the same context with no more gas, at the next instruction boundary or
    at a valid JUMPDEST that cost at least 8 gas to reach. *)
Theorem instruction_progress {St} {SA : StateAccess St} {SL : StateLaws St} (keccak256 : list Z -> hash_t) (e e' : evm_t St) f f' :
  (forall bs, bytes_ok bs -> wf_hash (keccak256 bs)) -> evm_ok e -> frame_inv f -> dispatch keccak256 (e, f) = Ret (e', f') None ->
  evm_ok e' /\ frame_inv f' /\ same_context f f' /\ gas f' <= gas f /\
  (Z.to_nat (pc f') = next_instr (code f) (Z.to_nat (pc f)) \/
   valid_dest (code f) (Z.to_nat (pc f')) /\ gas f' + 8 <= gas f).
Proof.
  intros Hk He Hf D. pose proof (instruction_spec keccak256 Hk (C := any_fault) e f He Hf (or_introl any_bad)) as K.
  unfold instruction_ok in K. rewrite D in K. destruct K as (K1 & _ & [K2 K3 K4 K5]).
  split; [exact (evm_next_ok _ _ _ He K1)|]. auto.
Qed.

Lemma instruction_progress_witness : let f := m_frame (start sample_evm (sample_env loop_program 1000 false) root_stack) in
  exists e' f', dispatch zero_keccak (sample_evm, f) = Ret (e', f') None /\ frame_inv f'.
Proof.
  intros f. assert (G : match dispatch zero_keccak (sample_evm, f) with Ret _ None => true | _ => false end = true) by (vm_compute; reflexivity).
  destruct (dispatch zero_keccak (sample_evm, f)) as [[e' f'] [r|]|? ?|?] eqn:D; try discriminate. exists e', f'. split; [reflexivity|].
  apply (instruction_progress zero_keccak sample_evm e' f f' zero_keccak_wf sample_evm_ok); [|exact D].
  apply sample_frame_inv; sample.
Defined.

(** An instruction that is not [risky] never faults: it goes on, ends the
    frame or returns an error status. *)
Theorem instruction_no_fault {St} {SA : StateAccess St} {SL : StateLaws St} (keccak256 : list Z -> hash_t) (e : evm_t St) f x :
  (forall bs, bytes_ok bs -> wf_hash (keccak256 bs)) -> evm_ok e -> frame_inv f -> risky f = false ->
  dispatch keccak256 (e, f) <> Crash x.
Proof.
  intros Hk He Hf R D. pose proof (instruction_spec keccak256 Hk (C := fun _ => False) e f He Hf (or_intror R)) as K.
  unfold instruction_ok in K. rewrite D in K. exact K.
Qed.

Lemma instruction_no_fault_witness : let f := m_frame (start sample_evm (sample_env return_program 1000 false) root_stack) in
  risky f = false /\ dispatch zero_keccak (sample_evm, f) <> Crash OutOfBounds.
Proof.
  intros f. split; [reflexivity|]. apply instruction_no_fault; [exact zero_keccak_wf | exact sample_evm_ok | apply sample_frame_inv; sample | reflexivity].
Defined.
