(* ===== verification/OpsTheorems.v ===== *)
(** What single instructions do: arithmetic, calls, storage, memory, copies
    and jumps; and the layers below the interpreter: 256-bit arithmetic, byte
    encodings, memory, stack, arena and the refund counter. *)
From Stdlib Require Import ZArith Lia List Bool.
From S2P Require Import Prelude Uint256 Types Effects Arena Stack Memory Opcodes Gas StateAccess Frame OpsArith OpsData CallOps Evm.
From S2P Require Import FrameLogic CallSafe EvmSafe Execution MemState OpsSpec EvmTheorems Multiply Reciprocal Knuth Arith.
Import ListNotations.
#[local] Open Scope Z_scope.
#[local] Open Scope word_scope.

(** * Sample frames *)

(** A frame of [c] with 100000 gas and the given stack. *)
Definition sample_frame (c : list Z) (l : list uint256_t) : call_frame_t :=
  set_stack (m_frame (start sample_evm (sample_env c 100000 false) root_stack)) (Stack l 32).

Lemma sample_frame_ok c l : forallb (fun b => (0 <=? b) && (b <? 256)) c = true -> Z.of_nat (length c) < 2 ^ 63 ->
  Z.of_nat (length l) <= 32 -> Forall wf256 l -> frame_ok (sample_frame c l).
Proof.
  intros Hc Hl Ht Hw. assert (G : u64 100000) by (split; reflexivity || discriminate).
  destruct (fi_ok _ (sample_frame_inv _ (sample_env_ok c 100000 false Hc Hl G))). split; auto.
  split; cbn; [exact Ht | unfold EVM_STACK_MAX_DEPTH; lia | exact Hw].
Qed.

Ltac words := repeat (apply Forall_cons; [auto with words|]); apply Forall_nil.
Ltac sample_frame := apply sample_frame_ok; [reflexivity | reflexivity | cbn; lia | words].

(** * Arithmetic instructions *)

(** C20: each of the twenty instructions with two operands, as the dispatch
    table runs it, replaces them by the reference function of the integers
    ([binary_ref]: wrap-around addition and multiplication, truncated signed
    division, comparisons, shifts, sign extension) reduced to 256 bits, charges
    [binary_cost] and reports underflow and missing gas without changing the
    frame. *)
Theorem binary_opcodes {St} {SA : StateAccess St} {SL : StateLaws St} keccak256 op r (e : evm_t St) f :
  evm_ok e -> frame_ok f -> binary_ref op = Some r ->
  find_label (dispatch_table keccak256) op (e, f) = binary_instruction r (binary_cost op) e f.
Proof. apply binary_labels. Qed.

Lemma binary_opcodes_witness : let f := sample_frame [0x05] [of_Z256 (-7); of_Z256 2] in
  find_label (dispatch_table zero_keccak) OP_SDIV (sample_evm, f) =
  Ret (sample_evm, set_stack (set_gas f 99995) (Stack [of_Z256 (-3)] 32)) None.
Proof.
  intros f. rewrite (binary_opcodes zero_keccak OP_SDIV _ sample_evm f sample_evm_ok ltac:(sample_frame) eq_refl). reflexivity.
Defined.

(** * Calls *)

(** C21: the 63/64 rule. After its overhead is paid a call hands its child the
    smaller of the requested gas and all but one 64th of what is left, plus the
    stipend of 2300 when value moves; the parent loses exactly the part without
    the stipend, and never more than it has. *)
Theorem call_gas_split g requested transfers_value : u64 g -> wf256 requested ->
  let x := Z.min (val requested) (g - g / 64) in
  split_gas g requested transfers_value = (g - x, x + if transfers_value then 2300 else 0) /\ 0 <= x <= g.
Proof. apply split_gas_spec. Qed.

Lemma call_gas_split_witness : split_gas 6400 (of_Z256 (-1)) true = (100, 8600).
Proof.
  assert (U : u64 6400) by (split; reflexivity || discriminate). exact (proj1 (call_gas_split 6400 (of_Z256 (-1)) true U (wf_of_Z256 _))).
Defined.

(** C22: the context of a child frame. When one of the four call handlers
    starts a child, it runs the code of the address on the stack one level
    deeper, and caller, address, value and static flag are those of its kind:
    CALL and STATICCALL run the target as itself, CALLCODE and DELEGATECALL run
    its code as the current account, DELEGATECALL also keeps caller and value,
    and STATICCALL makes the child static. *)
Theorem child_context {St} {SA : StateAccess St} {SL : StateLaws St} k pool (st st' : St) f f' child :
  state_ok st -> frame_ok f -> call_handler k pool (st, f) = Ret (st', f') (Some child) ->
  exists args, args_of (takes_value k) (items (stack f)) = Some args /\
    let to := address_from_uint256 (arg_addr args) in
    code child = get_code st to /\ depth child = w16 (depth f + 1) /\ child_spec k f to (arg_value args) child.
Proof. apply child_of_call. Qed.

Lemma child_context_witness :
  let f := sample_frame [0xfa] (map uint256_from_u64 [500; 9; 0; 0; 0; 0]) in
  exists child, address child = address_from_uint256 (uint256_from_u64 9) /\ is_static child = true /\ caller child = address f.
Proof.
  intros f. assert (G : match call_handler StaticCall 1 (empty_state, f) with Ret _ (Some _) => true | _ => false end = true)
    by (vm_compute; reflexivity).
  destruct (call_handler StaticCall 1 (empty_state, f)) as [[st' f'] [child|]|? ?|?] eqn:E; try discriminate.
  destruct (child_context (SL := mem_laws) StaticCall 1 empty_state st' f f' child empty_state_ok) as (args & A & _ & _ & C1 & C2 & _ & C4); [|exact E|].
  - apply sample_frame_ok; [reflexivity | reflexivity | cbn; lia|].
    cbn [map]. repeat (apply Forall_cons; [apply wf_from_u64; split; reflexivity || discriminate|]). apply Forall_nil.
  - injection A as <-. exists child. auto.
Defined.

(** C23: what the interpreter does with the result of a child frame. A child
    that stopped or returned gives its unused gas back, its bytes become the
    return data, at most [output_size] of them are copied to [output_offset] of
    the parent's memory and the rest of that memory stays, and 1 is pushed; the
    state, the logs and the refund counter are what the child left. A child that
    reverted does the same with its revert data and pushes 0. A child that
    failed gives nothing back: 0 is pushed, the return data is empty and the
    parent's gas and memory are as before the call. In each case the parent goes
    on in its own context behind the call, and the child's frame is free. *)
Theorem child_returns {St} {SA : StateAccess St} g (m : machine (St := St)) r parent rest :
  m_stack m = parent :: rest -> depth (m_frame m) <> 0 -> can_return m r parent ->
  match action r with
  | FRAME_STOP | FRAME_RETURN =>
      exists m', handle_result g m r = Continue m' /\ goes_on m parent rest (U256 1 0 0 0) m' /\ returned m r parent m' /\ same_effects m m'
  | FRAME_REVERT => exists m', handle_result g m r = Continue m' /\ goes_on m parent rest (U256 0 0 0 0) m' /\ returned m r parent m'
  | FRAME_ERROR => exists m', handle_result g m r = Continue m' /\ goes_on m parent rest (U256 0 0 0 0) m' /\ gave_up parent m'
  | FRAME_CALL | FRAME_CREATE => True
  end.
Proof.
  intros Hs D C. apply Z.eqb_neq in D as D'. destruct (action r) eqn:A; try exact I.
  1, 2: unfold handle_result; rewrite A, D'; exact (return_to_parent_effect m r (uint256_from_u64 1) parent rest Hs C).
  - unfold handle_result. rewrite A, D'. destruct (return_to_parent_effect m r uint256_zero parent rest Hs C) as (m' & E & G & R & _). exists m'. auto.
  - destruct (error_to_parent g m r parent rest Hs D (cr_room _ _ _ C) A) as (m' & E & G & R & _). exists m'. auto.
Qed.

(** A reverting child whose four bytes are cut to the two the parent asked for. *)
Definition reverting_parent : call_frame_t := set_output (set_memory (sample_frame [0x00] []) (Memory (repeat 9 32) 1024)) 5 2.
Definition reverting_child : call_frame_t :=
  Frame 0 100000 (Stack [] 32) (Memory (repeat 7 31 ++ [8]) 1024) [0x00] 0 0 1 EXEC_CALL false address_zero address_zero uint256_zero [] None hash_zero.

Lemma reverting_can_return : can_return (Machine sample_evm reverting_child [reverting_parent]) (frame_result_revert 28 4) reverting_parent.
Proof.
  split; [|split; discriminate | right; discriminate | split; discriminate | right; discriminate | reflexivity].
  split; [reflexivity | discriminate | right; exists 10; split; [lia | reflexivity]|].
  repeat (apply Forall_cons; [split; reflexivity || discriminate|]). apply Forall_nil.
Qed.

Lemma child_returns_witness :
  exists m', handle_result 200000 (Machine sample_evm reverting_child [reverting_parent]) (frame_result_revert 28 4) = Continue m' /\
    gas (m_frame m') = 200000 /\ items (stack (m_frame m')) = [U256 0 0 0 0] /\ return_data (m_evm m') = [7; 7; 7; 8] /\
    aget (data (memory (m_frame m'))) 5 = 7 /\ aget (data (memory (m_frame m'))) 7 = 9.
Proof.
  destruct (child_returns 200000 (Machine sample_evm reverting_child [reverting_parent]) (frame_result_revert 28 4) reverting_parent [] eq_refl ltac:(discriminate) reverting_can_return)
    as (m' & E & [_ _ _ _ F] & [B G I O]).
  exists m'. split; [exact E|]. split; [exact G|]. split; [exact F|]. assert (D : return_data (m_evm m') = [7; 7; 7; 8]) by (change (Some [7; 7; 7; 8] = Some (return_data (m_evm m'))) in B; congruence).
  split; [exact D|]. rewrite D in I, O. split; [exact (I 0%nat ltac:(reflexivity)) | exact (O 7%nat ltac:(right; discriminate))].
Defined.

(** * Storage *)

(** C24: SSTORE on every branch: refused in a static frame, underflow, the
    2300 gas sentry, the EIP-2200/2929 cost of the slot's cold, current,
    original and new values, the EIP-3529 refund, and the write itself. *)
Theorem sstore_behaviour {St} {SA : StateAccess St} {SL : StateLaws St} refund (st : St) f :
  state_ok st -> frame_ok f -> op_sstore gas_schedule_shanghai refund (st, f) = sstore_effect refund st f.
Proof. apply op_sstore_effect. Qed.

Lemma sstore_behaviour_witness : let f := sample_frame [0x55] [of_Z256 5; of_Z256 2] in
  exists s, op_sstore gas_schedule_shanghai 0 (empty_state, f) = Ret s 0 /\ gas (snd s) = 100000 - 22100.
Proof.
  intros f. rewrite (sstore_behaviour (SL := mem_laws) 0 empty_state f empty_state_ok ltac:(sample_frame)).
  eexists. split; vm_compute; reflexivity.
Defined.

(** SLOAD on every branch: underflow, 2100 gas for a cold slot and 100
    for a warm one, and the value the state holds, with the slot warm after. *)
Theorem sload_behaviour {St} {SA : StateAccess St} {SL : StateLaws St} (st : St) f :
  state_ok st -> frame_ok f -> op_sload gas_schedule_shanghai (st, f) = sload_effect st f.
Proof. apply op_sload_effect. Qed.

Lemma sload_behaviour_witness : let f := sample_frame [0x54] [of_Z256 5] in
  exists s, op_sload gas_schedule_shanghai (empty_state, f) = Ret s tt /\ gas (snd s) = 97900.
Proof.
  intros f. rewrite (sload_behaviour (SL := mem_laws) empty_state f empty_state_ok ltac:(sample_frame)). eexists. split; vm_compute; reflexivity.
Defined.

(** * Memory *)

(** MLOAD of the offset an MSTORE wrote pushes the word that was stored. *)
Theorem mstore_mload cost cost' f f' g off v rest rest' : frame_ok f -> items (stack f) = off :: v :: rest ->
  op_mstore cost f = Ret f' tt -> frame_ok g -> memory g = memory f' -> items (stack g) = off :: rest' -> 0 <= cost' <= gas g ->
  op_mload cost' g = Ret (set_stack (set_gas g (gas g - cost')) (Stack (v :: rest') (capacity (stack g)))) tt.
Proof.
  intros Hf Hi Hs Hg Hm Hi' Hc. assert (Wv : wf256 off /\ wf256 v).
  { pose proof (so_items _ (fo_stack _ Hf)) as W. rewrite Hi in W. inversion W as [|? ? ? W']; subst. inversion W'; auto. }
  destruct Wv as [Wo Wv]. pose proof (val_range off Wo).
  destruct (mstore_effect cost f off v rest f' Hf Hi Hs) as (Fo & _ & _ & m & S & _).
  assert (L : val off + 32 <= evm_memory_size (memory g)).
  { rewrite Hm. destruct (store_some _ _ _ _ (proj1 (val_range off Wo)) S) as [B ->].
    rewrite uint256_to_bytes_be_spec, length_be_bytes in B by exact Wv. exact B. }
  destruct (mload_effect cost' g off rest' Hg Hi' Fo L Hc) as (w & E & ->). rewrite Hm in E.
  rewrite (load32_store32 m (val off) v (memory f') Wv ltac:(lia) S) in E. injection E as <-. reflexivity.
Qed.

Lemma mstore_mload_witness : let f := sample_frame [0x52] [of_Z256 0; of_Z256 42] in
  exists f' g, op_mstore 3 f = Ret f' tt /\ op_mload 3 g = Ret (set_stack (set_gas g 99991) (Stack [of_Z256 42] 32)) tt.
Proof.
  intros f. set (f' := set_memory (set_gas (set_stack f (Stack [] 32)) 99994) (Memory (uint256_to_bytes_be (of_Z256 42)) 1024)).
  set (g := set_stack f' (Stack [of_Z256 0] 32)).
  assert (E : op_mstore 3 f = Ret f' tt) by (vm_compute; reflexivity). assert (F : frame_ok f) by sample_frame.
  assert (G : frame_ok g).
  { destruct F as [_ Fp _ _ Fc Fi F1 F2 F3]. split; try assumption.
    - change (u64 99994). unfold u64. lia.
    - split; [change (1 <= 32) | change (32 <= 32 <= 1024) | change (Forall wf256 [of_Z256 0]); words]; lia.
    - split; [reflexivity | change (32 <= 1024); lia | right; exists 10; split; [lia|reflexivity] |].
      change (bytes_ok (uint256_to_bytes_be (of_Z256 42))). rewrite uint256_to_bytes_be_spec by auto with words. apply be_bytes_ok. }
  exists f', g. split; [exact E|]. apply (mstore_mload 3 3 f f' g (of_Z256 0) (of_Z256 42) [] []); auto. change (0 <= 3 <= 99994). lia.
Defined.

(** CALLDATACOPY and CODECOPY. A copy that succeeds writes to each byte
    of the destination range the byte of the source at the same distance, or
    zero past the source's end (also when the source offset needs more than 64
    bits), and leaves every other byte of memory alone. *)
Theorem copy_behaviour source cost f dest src size rest f' : frame_ok f -> bytes_ok (source f) ->
  (forall s m x, source (set_gas (set_memory (set_stack f s) m) x) = source f) ->
  items (stack f) = dest :: src :: size :: rest -> val size <> 0 -> copy_op source cost f = Ret f' tt ->
  items (stack f') = rest /\
  forall i, (Z.of_nat i < val size -> aget (data (memory f')) (Z.to_nat (val dest) + i) =
                                      if uint256_fits_u64 src then aget (source f) (Z.to_nat (val src) + i) else 0) /\
            ((Z.of_nat i < val dest \/ val dest + val size <= Z.of_nat i) -> aget (data (memory f')) i = aget (data (memory f)) i).
Proof. apply copy_op_effect. Qed.

Lemma copy_behaviour_witness : let f := sample_frame [0x39; 7] [of_Z256 0; of_Z256 1; of_Z256 4] in
  exists f', op_codecopy 3 f = Ret f' tt /\ aget (data (memory f')) 0 = 7.
Proof.
  intros f. destruct (op_codecopy 3 f) as [f' []|? ?|?] eqn:E; [|vm_compute in E; discriminate..]. exists f'. split; [reflexivity|].
  assert (F : frame_ok f) by sample_frame.
  apply (proj2 (copy_behaviour code 3 f (of_Z256 0) (of_Z256 1) (of_Z256 4) [] f' F (proj1 (fo_code _ F)) (fun _ _ _ => eq_refl) eq_refl
    ltac:(discriminate) E) 0%nat). reflexivity.
Defined.

(** * Jumps *)

(** C25: the jump destination bitmap marks a position exactly when it holds a
    JUMPDEST byte at the start of an instruction, so a JUMPDEST byte inside
    push data is never a destination. *)
Theorem jumpdest_analysis code bitmap dest : jumpdest_compute_bitmap code = Some bitmap -> 0 <= dest ->
  (jumpdest_is_valid bitmap (Z.of_nat (length code)) dest = true <-> valid_dest code (Z.to_nat dest)).
Proof. apply jumpdest_valid_iff. Qed.

Lemma jumpdest_analysis_witness : ~ valid_dest [0x60; 0x5b; 0x5b] 1 /\ valid_dest [0x60; 0x5b; 0x5b] 2.
Proof.
  destruct (jumpdest_compute_bitmap [0x60; 0x5b; 0x5b]) as [b|] eqn:E; [|discriminate]. injection E as E.
  pose proof (jumpdest_analysis [0x60; 0x5b; 0x5b] b 1) as K1. pose proof (jumpdest_analysis [0x60; 0x5b; 0x5b] b 2) as K2. subst b. split.
  - intros V. apply K1 in V; [discriminate | reflexivity | lia].
  - apply K2; [reflexivity | lia | reflexivity].
Defined.

(** * Lower layers

    The layers below the interpreter: 256-bit arithmetic, byte encodings,
    memory, stack, arena and the refund counter. *)

(** ** Arithmetic *)

(** C26: 256-bit division. Whatever path [uint256_divmod] takes (divisor zero
    or larger, one limb with the reciprocal, Knuth's algorithm D with its
    quotient estimate, correction and add-back), quotient and remainder are
    those of the integers. *)
Theorem divmod_correct a b : wf256 a -> wf256 b ->
  uint256_divmod a b = if val b =? 0 then (uint256_zero, uint256_zero) else (of_Z256 (val a / val b), of_Z256 (val a mod val b)).
Proof.
  intros Ha Hb. destruct (Z.eqb_spec (val b) 0) as [E|N]; [apply divmod_zero | apply uint256_divmod_spec]; assumption.
Qed.

Lemma divmod_correct_witness : uint256_divmod (of_Z256 (2 ^ 255 + 7)) (of_Z256 (2 ^ 130 + 3)) =
  (of_Z256 ((2 ^ 255 + 7) / (2 ^ 130 + 3)), of_Z256 ((2 ^ 255 + 7) mod (2 ^ 130 + 3))).
Proof. exact (divmod_correct (of_Z256 (2 ^ 255 + 7)) (of_Z256 (2 ^ 130 + 3)) (wf_of_Z256 _) (wf_of_Z256 _)). Defined.

(** Division of two limbs by one without a division instruction. With the
    reciprocal that the table and its two Newton steps compute,
    [udivrem_2by1] gives the exact quotient and remainder. *)
Theorem udivrem_exact u_lo u_hi d : 2 ^ 63 <= d < 2 ^ 64 -> u64 u_lo -> 0 <= u_hi < d ->
  udivrem_2by1 u_lo u_hi d (reciprocal_2by1 d) = ((u_hi * 2 ^ 64 + u_lo) / d, (u_hi * 2 ^ 64 + u_lo) mod d).
Proof. intros Hd Hl Hh. apply udivrem_2by1_correct; auto. apply reciprocal_2by1_correct, Hd. Qed.

Lemma udivrem_exact_witness : udivrem_2by1 12345 (2 ^ 62) (2 ^ 63 + 5) (reciprocal_2by1 (2 ^ 63 + 5)) =
  ((2 ^ 62 * 2 ^ 64 + 12345) / (2 ^ 63 + 5), (2 ^ 62 * 2 ^ 64 + 12345) mod (2 ^ 63 + 5)).
Proof. apply udivrem_exact; unfold u64; lia. Defined.

(** C27: ADDMOD and MULMOD compute with the exact sum and the exact 512-bit
    product, for every modulus including zero. *)
Theorem modular_arithmetic a b n : wf256 a -> wf256 b -> wf256 n ->
  uint256_addmod a b n = of_Z256 (if val n =? 0 then 0 else (val a + val b) mod val n) /\
  uint256_mulmod a b n = of_Z256 (if val n =? 0 then 0 else (val a * val b) mod val n).
Proof. intros Ha Hb Hn. split; [apply uint256_addmod_spec | apply uint256_mulmod_spec]; assumption. Qed.

Lemma modular_arithmetic_witness :
  uint256_addmod (of_Z256 (-1)) (of_Z256 (-1)) (of_Z256 7) = of_Z256 ((2 ^ 256 - 1 + (2 ^ 256 - 1)) mod 7).
Proof. exact (proj1 (modular_arithmetic (of_Z256 (-1)) (of_Z256 (-1)) (of_Z256 7) (wf_of_Z256 _) (wf_of_Z256 _) (wf_of_Z256 _))). Defined.

(** C28: EXP by square and multiply is the power modulo 2^256, with its
    shortcuts for zero, one and even bases; the loop ends within 256 rounds. *)
Theorem exp_correct base exponent : wf256 base -> wf256 exponent ->
  uint256_exp base exponent = of_Z256 (val base ^ val exponent).
Proof. apply uint256_exp_spec. Qed.

Lemma exp_correct_witness : uint256_exp (of_Z256 3) (of_Z256 200) = of_Z256 (3 ^ 200).
Proof. exact (exp_correct (of_Z256 3) (of_Z256 200) (wf_of_Z256 _) (wf_of_Z256 _)). Defined.

(** ** Encodings *)

(** Big-endian bytes. A word survives the trip through its 32 bytes, 32
    bytes survive the trip through a word, and an address survives the trip
    through a word while a word keeps its low 160 bits. *)
Theorem word_bytes_roundtrip v bs a : wf256 v -> bytes_ok bs -> length bs = 32%nat -> wf_address a ->
  uint256_from_bytes_be (uint256_to_bytes_be v) = v /\
  uint256_to_bytes_be (uint256_from_bytes_be bs) = bs /\
  address_from_uint256 (address_to_uint256 a) = a /\
  address_to_uint256 (address_from_uint256 v) = of_Z256 (val v mod 2 ^ 160).
Proof.
  intros Hv Hb Hl Ha. split; [apply from_to_bytes, Hv|]. split; [apply to_from_bytes; assumption|].
  split; [apply address_from_to, Ha | apply address_to_from, Hv].
Qed.

Lemma word_bytes_roundtrip_witness : uint256_from_bytes_be (uint256_to_bytes_be (of_Z256 (2 ^ 200 + 1))) = of_Z256 (2 ^ 200 + 1).
Proof. apply (word_bytes_roundtrip (of_Z256 (2 ^ 200 + 1)) hash_zero address_zero); [apply wf_of_Z256 | apply bytes_ok_zeros | reflexivity | apply wf_address_zero]. Defined.

(** ** Memory *)

(** C29: memory expansion below 2^63. [evm_memory_expand] grows to the next
    multiple of 32 with zero bytes, keeps the old bytes, charges the difference
    of the quadratic cost function, and fails without a change only when the
    arena cannot hold the new size. *)
Theorem memory_expansion m offset size : mem_ok m -> u64 offset -> 0 <= size -> offset + size <= 2 ^ 63 ->
  let new := 32 * words_of (offset + size) in
  exists ok cost m', evm_memory_expand m offset size = Some (ok, cost, m') /\ mem_ok m' /\
    (ok = false -> m' = m /\ 65536 < new) /\
    (ok = true ->
       data m' = data m ++ repeat 0 (length (data m') - length (data m)) /\
       (size = 0 -> cost = 0 /\ m' = m) /\
       (0 < size -> offset + size <= evm_memory_size m' /\
          evm_memory_size m' = Z.max (evm_memory_size m) new /\
          cost = Cmem (evm_memory_size m' / 32) - Cmem (evm_memory_size m / 32))).
Proof. apply expand_spec. Qed.

Lemma memory_expansion_witness : exists ok cost m', evm_memory_expand evm_memory_init 10 40 = Some (ok, cost, m') /\ mem_ok m'.
Proof.
  destruct (memory_expansion evm_memory_init 10 40 init_mem_ok) as (ok & c & m' & E & M & _); try (unfold u64; lia). exists ok, c, m'. auto.
Defined.

(** Memory expansion of ranges that end above 2^63 goes wrong. Within 32
    bytes of 2^64 the rounded size wraps to zero, so the expansion reports
    success at no cost without growing; below that the doubling loop never
    reaches the size. *)
Theorem memory_expansion_overflow m offset size : mem_ok m -> u64 offset -> u64 size -> 0 < size ->
  (2 ^ 64 - 32 < offset + size < 2 ^ 64 -> evm_memory_expand m offset size = Some (true, 0, m)) /\
  (2 ^ 63 < offset + size <= 2 ^ 64 - 32 -> evm_memory_expand m offset size = None).
Proof. intros Hm Ho Hs Hp. split; intros H; [apply expand_wraps | apply expand_diverges]; assumption. Qed.

Lemma memory_expansion_overflow_witness : evm_memory_expand evm_memory_init (2 ^ 64 - 33) 32 = Some (true, 0, evm_memory_init).
Proof. apply (memory_expansion_overflow evm_memory_init (2 ^ 64 - 33) 32 init_mem_ok); unfold u64; lia. Defined.

(** ** Stack *)

(** The growing stack. [evm_stack_push] succeeds exactly below 1024 items
    and then puts the word on top, and [evm_stack_ensure_space] succeeds exactly
    when the items fit, giving capacity for them without touching the items. *)
Theorem stack_growth s v n : stack_ok s -> wf256 v -> 0 <= n ->
  (exists s', evm_stack_push s v = Some (top s <? EVM_STACK_MAX_DEPTH, s') /\ stack_ok s' /\
     items s' = if top s <? EVM_STACK_MAX_DEPTH then v :: items s else items s) /\
  (if top s + n <=? EVM_STACK_MAX_DEPTH
   then exists c, evm_stack_ensure_space s n = Some (true, Stack (items s) c) /\ top s + n <= c <= EVM_STACK_MAX_DEPTH
   else evm_stack_ensure_space s n = Some (false, s)).
Proof.
  intros Hs Hv Hn. split; [apply push_spec; assumption|]. destruct (ensure_space_spec s n Hs Hn) as [H1 H2].
  destruct (Z.leb_spec (top s + n) EVM_STACK_MAX_DEPTH) as [L|L]; [|exact (H2 L)].
  destruct (H1 L) as (c & E & B & C). exists c. split; [exact E|lia].
Qed.

Lemma stack_growth_witness : exists s', evm_stack_push (Stack (repeat uint256_zero 32) 32) (uint256_from_u64 1) = Some (true, s') /\ stack_ok s'.
Proof.
  assert (S : stack_ok (Stack (repeat uint256_zero 32) 32)).
  { split; [change (32 <= 32); lia | change (32 <= 32 <= 1024); lia | cbn [items repeat]; words]. }
  destruct (stack_growth (Stack (repeat uint256_zero 32) 32) (uint256_from_u64 1) 0 S) as [(s' & E & H & _) _];
    [apply wf_from_u64; unfold u64; lia | lia |]. exists s'. split; [exact E | exact H].
Defined.

(** DUP on a stack that fills its allocation. The handler asks
    [evm_stack_has_space] (the limit of 1024) and not [evm_stack_ensure_space],
    so it writes the copy past the end of the allocated array. *)
Theorem dup_overrun n cost f : frame_ok f -> (1 <= n)%nat -> Z.of_nat n <= top (stack f) -> 0 <= cost <= gas f ->
  top (stack f) = capacity (stack f) -> capacity (stack f) < EVM_STACK_MAX_DEPTH -> op_dup n cost f = Crash OutOfBounds.
Proof.
  intros Hf Hn Ht Hc Hfull Hmax. unfold op_dup. rewrite (x_bind _ _ _ _ _ (x_need _ f Ht)).
  unfold bind, check, guard, evm_stack_has_space. rewrite (proj2 (Z.leb_le _ _)) by lia. cbn [ret].
  rewrite (x_charge cost f Hc (proj2 (fo_gas _ Hf))). unfold evm_stack_dup_unsafe. cbn [stack set_gas].
  rewrite (proj2 (Z.ltb_ge _ _)) by lia. destruct (nth_error _ _); reflexivity.
Qed.

Lemma dup_overrun_witness : op_dup 1 3 (sample_frame [0x80] (repeat uint256_zero 32)) = Crash OutOfBounds.
Proof.
  apply dup_overrun; [|lia | change (1 <= 32); lia | change (0 <= 3 <= 100000); lia | reflexivity | reflexivity].
  apply sample_frame_ok; [reflexivity | reflexivity | cbn; lia | cbn [repeat]; words].
Defined.

(** ** Arena *)

(** The arena hands out aligned regions inside one block that overlap no
    region handed out since the last reset, for blocks that the C library
    aligns at least as the request. *)
Theorem arena_allocation block_addr malloc_ok alignment a size a' i off live :
  (exists k, 0 <= k <= 16 /\ alignment = 2 ^ k) ->
  (forall i, 0 <= block_addr i < 2 ^ 64 - 2 ^ 18 /\ block_addr i mod alignment = 0) ->
  arena_ok a -> 0 <= size -> live_ok a live ->
  div0_arena_alloc_aligned block_addr malloc_ok a size alignment = (a', Some (i, off)) ->
  arena_ok a' /\ (block_addr i + off) mod alignment = 0 /\ 0 <= off /\ off + size <= DIV0_ARENA_BLOCK_SIZE /\
  live_ok a' ((i, off, size) :: live).
Proof.
  intros Hk Hb Ha Hs Hl E. destruct (alloc_aligned_spec block_addr malloc_ok alignment Hk Hb a size a' i off Ha Hs E) as (H1 & _ & H3 & H4 & H5 & _).
  split; [exact H1|]. split; [exact H3|]. split; [exact H4|]. split; [lia|]. exact (alloc_live block_addr malloc_ok alignment Hk Hb a size a' i off live Ha Hs Hl E).
Qed.

Lemma arena_allocation_witness : exists a', div0_arena_alloc_aligned (fun i => 4096 + 2 ^ 20 * Z.of_nat (i mod 2)) (fun _ => true) (Arena [24] 0 []) 100 16 = (a', Some (0%nat, 32)) /\
  live_ok a' [(0%nat, 32, 100)].
Proof.
  eexists. split; [vm_compute; reflexivity|].
  apply (arena_allocation (fun i => 4096 + 2 ^ 20 * Z.of_nat (i mod 2)) (fun _ => true) 16 (Arena [24] 0 []) 100 _ 0 32 []).
  - exists 4. split; [lia|reflexivity].
  - intros i. assert (H : (i mod 2 < 2)%nat) by (apply Nat.mod_upper_bound; lia).
    split; [lia|]. destruct (i mod 2)%nat as [|[|k]]; [reflexivity | reflexivity | lia].
  - split; [cbn; lia|]. intros [|[|i]]; cbn; unfold DIV0_ARENA_BLOCK_SIZE; lia.
  - lia.
  - split; constructor.
  - vm_compute. reflexivity.
Defined.

(** ** Refunds *)

(** The refund counter over any sequence of writes to one slot. Clamping
    at zero after every write never changes the total: starting from the refund
    the slot already holds, the accumulated counter is the exact sum of the
    EIP-3529 refunds and never negative. *)
Theorem refund_exact orig cur writes acc : wf256 orig -> wf256 cur -> Forall wf256 writes ->
  held (val orig) (val cur) <= acc -> 0 <= acc -> acc + 19900 * Z.of_nat (length writes) < 2 ^ 64 ->
  refund_run orig cur writes acc = acc + refund_sum (val orig) (val cur) (map val writes) /\
  0 <= refund_run orig cur writes acc.
Proof. apply refund_run_exact. Qed.

Lemma refund_exact_witness : refund_run (of_Z256 5) (of_Z256 5) [uint256_zero; of_Z256 9; of_Z256 5] 0 = 2800.
Proof.
  apply (refund_exact (of_Z256 5) (of_Z256 5) [uint256_zero; of_Z256 9; of_Z256 5] 0);
    [apply wf_of_Z256 | apply wf_of_Z256 | words | vm_compute; discriminate | lia | reflexivity].
Defined.
