(* ===== verification/Bytes.v ===== *)
(** Growable byte strings: include/div0/types/bytes.h and src/types/bytes.c.

    The arena-backed half of [bytes_t], which is the only one the program
    appends to. The first [size] bytes are the list [b_data]; [b_alloc] says
    that [data] is not null. A string allocates once: when its capacity is
    used up, an append fails and leaves it as it was. *)
From Stdlib Require Import ZArith Lia List Bool.
From S2P Require Import Prelude Arena.
Import ListNotations.
#[local] Open Scope Z_scope.
#[local] Open Scope word_scope.

Record bytes_t := Bytes { b_data : list Z; b_capacity : Z; b_alloc : bool }.

Definition b_size (b : bytes_t) : Z := Z.of_nat (length (b_data b)).

Definition bytes_init_arena : bytes_t := Bytes [] 0 false.
Definition bytes_is_empty (b : bytes_t) : bool := b_size b =? 0.
Definition bytes_clear (b : bytes_t) : bytes_t := Bytes [] (b_capacity b) (b_alloc b).

Definition bytes_reserve (b : bytes_t) (capacity : Z) : bool * bytes_t :=
  if capacity <=? b_capacity b then (true, b)
  else if b_alloc b then (false, b)
  else if alloc_succeeds capacity then (true, Bytes (b_data b) capacity true)
  else (false, b).

Definition bytes_from_data (b : bytes_t) (data : list Z) : bool * bytes_t :=
  let len := Z.of_nat (length data) in
  if len =? 0 then (true, bytes_clear b)
  else
    match bytes_reserve b len with
    | (true, b) => (true, Bytes data (b_capacity b) (b_alloc b))
    | (false, b) => (false, b)
    end.

Definition bytes_append (b : bytes_t) (data : list Z) : bool * bytes_t :=
  let len := Z.of_nat (length data) in
  if len =? 0 then (true, b)
  else
    let new_size := b_size b +64 len in
    if new_size <? b_size b then (false, b)
    else
      match bytes_reserve b new_size with
      | (true, b) => (true, Bytes (b_data b ++ data) (b_capacity b) (b_alloc b))
      | (false, b) => (false, b)
      end.

Definition bytes_append_byte (b : bytes_t) (byte : Z) : bool * bytes_t := bytes_append b [byte].

Definition bytes_free (b : bytes_t) : bytes_t := Bytes [] 0 false.

(** The calls of the encoders ignore the result. *)
Definition reserve (b : bytes_t) (capacity : Z) : bytes_t := snd (bytes_reserve b capacity).
Definition append (b : bytes_t) (data : list Z) : bytes_t := snd (bytes_append b data).
Definition append_byte (b : bytes_t) (byte : Z) : bytes_t := snd (bytes_append_byte b byte).

(** * Behaviour *)

(** What every [bytes_t] satisfies: the contents fit, a null one is empty. *)
Record bytes_wf (b : bytes_t) : Prop := {
  wf_capacity : b_size b <= b_capacity b <= DIV0_ARENA_BLOCK_SIZE;
  wf_null : b_alloc b = false -> b_data b = [] /\ b_capacity b = 0 }.

Lemma bytes_wf_init : bytes_wf bytes_init_arena.
Proof. split; [unfold b_size, DIV0_ARENA_BLOCK_SIZE; cbn; lia | intros _; split; reflexivity]. Qed.

Lemma bytes_wf_reserve b c : bytes_wf b -> bytes_wf (snd (bytes_reserve b c)).
Proof.
  intros [C N]. unfold bytes_reserve. destruct (Z.leb_spec c (b_capacity b)); [split; assumption|].
  destruct (b_alloc b) eqn:A; [cbn; split; [assumption | rewrite A; discriminate]|].
  destruct (alloc_succeeds c) eqn:S; [|cbn; split; [assumption | auto]].
  unfold alloc_succeeds in S. apply andb_true_iff in S as [_ S%Z.leb_le].
  destruct (N eq_refl) as [E _]. split; cbn; [|discriminate]. unfold b_size; cbn. rewrite E. cbn.
  split; [|exact S]. unfold b_size in C. lia.
Qed.

(** An append within the capacity of an allocated string adds the data; one
    beyond it changes nothing. *)
Lemma append_fits b d : bytes_wf b -> b_size b + Z.of_nat (length d) <= b_capacity b ->
  bytes_append b d = (true, Bytes (b_data b ++ d) (b_capacity b) (b_alloc b)).
Proof.
  intros [C _] H. unfold bytes_append, DIV0_ARENA_BLOCK_SIZE in *. destruct (Z.eqb_spec (Z.of_nat (length d)) 0) as [E|N].
  - destruct d; [|cbn in E; lia]. rewrite app_nil_r. destruct b; reflexivity.
  - unfold b_size, add64 in *. rewrite w64_small by (unfold u64; lia). destruct (Z.ltb_spec (Z.of_nat (length (b_data b)) + Z.of_nat (length d)) (Z.of_nat (length (b_data b)))); [lia|].
    unfold bytes_reserve. destruct (Z.leb_spec (Z.of_nat (length (b_data b)) + Z.of_nat (length d)) (b_capacity b)); [reflexivity|lia].
Qed.

Lemma append_full b d : bytes_wf b -> b_alloc b = true -> b_capacity b < b_size b + Z.of_nat (length d) < 2 ^ 64 ->
  bytes_append b d = (false, b).
Proof.
  intros [C _] A H. unfold bytes_append. pose proof (Zle_0_nat (length d)). destruct (Z.eqb_spec (Z.of_nat (length d)) 0) as [E|N]; [lia|].
  unfold b_size, add64 in *. rewrite w64_small by (unfold u64; lia). destruct (Z.ltb_spec (Z.of_nat (length (b_data b)) + Z.of_nat (length d)) (Z.of_nat (length (b_data b)))); [lia|].
  unfold bytes_reserve. destruct (Z.leb_spec (Z.of_nat (length (b_data b)) + Z.of_nat (length d)) (b_capacity b)); [lia|]. rewrite A. reflexivity.
Qed.

(** The first reservation of a null string. *)
Lemma reserve_fresh c : 0 < c <= DIV0_ARENA_BLOCK_SIZE -> reserve bytes_init_arena c = Bytes [] c true.
Proof.
  intros H. unfold reserve, bytes_reserve, bytes_init_arena; cbn [b_capacity b_alloc b_data].
  destruct (Z.leb_spec c 0); [lia|]. unfold alloc_succeeds.
  rewrite (proj2 (Z.ltb_lt 0 c)), (proj2 (Z.leb_le c _)) by lia. reflexivity.
Qed.

Lemma reserve_too_large c : DIV0_ARENA_BLOCK_SIZE < c -> reserve bytes_init_arena c = bytes_init_arena.
Proof.
  intros H. unfold reserve, bytes_reserve, bytes_init_arena; cbn [b_capacity b_alloc b_data]. unfold DIV0_ARENA_BLOCK_SIZE in *.
  destruct (Z.leb_spec c 0); [lia|]. unfold alloc_succeeds, DIV0_ARENA_BLOCK_SIZE.
  rewrite (proj2 (Z.leb_gt c _)), andb_false_r by lia. reflexivity.
Qed.

(** A string with [d] in it out of [c] reserved bytes, and its appends. *)
Definition filled (d : list Z) (c : Z) : bytes_t := Bytes d c true.

Lemma filled_wf d c : Z.of_nat (length d) <= c <= DIV0_ARENA_BLOCK_SIZE -> bytes_wf (filled d c).
Proof. intros H. split; [exact H | discriminate]. Qed.

Lemma append_filled d e c : Z.of_nat (length d) + Z.of_nat (length e) <= c <= DIV0_ARENA_BLOCK_SIZE ->
  append (filled d c) e = filled (d ++ e) c.
Proof. intros H. unfold append. rewrite append_fits; [reflexivity | apply filled_wf; lia | exact (proj1 H)]. Qed.

Lemma append_dropped d e c : Z.of_nat (length d) <= c <= DIV0_ARENA_BLOCK_SIZE -> c < Z.of_nat (length d) + Z.of_nat (length e) < 2 ^ 64 ->
  append (filled d c) e = filled d c.
Proof. intros H H'. unfold append. rewrite append_full; [reflexivity | apply filled_wf; lia | reflexivity | exact H']. Qed.

(** The single byte left of an encoding whose reservation failed. *)
Lemma append_byte_fresh x : append_byte bytes_init_arena x = filled [x] 1.
Proof. reflexivity. Qed.
