(* ===== verification/Rlp.v ===== *)
(** RLP: include/div0/rlp/{helpers,encode,decode}.h and src/rlp/*.c.

    The encoders build arena-backed strings and ignore failed appends. A
    decoder is the input with a position; a decoding function returns the
    decoder it leaves behind and one [rlp_result], whose error case stands for
    the [error] field of the five result structures. *)
From Stdlib Require Import ZArith Lia List Bool.
From S2P Require Import Prelude Uint256 Types Arena Bytes.
Import ListNotations.
#[local] Open Scope Z_scope.
#[local] Open Scope word_scope.

(** * helpers.h *)

Definition RLP_SMALL_PREFIX_BARRIER : Z := 56.
Definition RLP_EMPTY_STRING_BYTE : Z := 128.
Definition RLP_EMPTY_LIST_BYTE : Z := 192.
Definition RLP_SINGLE_BYTE_MAX : Z := 127.
Definition RLP_SHORT_STRING_MAX : Z := 183.
Definition RLP_LONG_STRING_MAX : Z := 191.
Definition RLP_SHORT_LIST_MAX : Z := 247.

(** [RLP_PREFIX_LENGTH_TABLE], row by row. *)
Definition RLP_PREFIX_LENGTH_TABLE : list Z :=
  repeat 0 128 ++ repeat 1 56 ++ [2; 3; 4; 5; 6; 7; 8; 9] ++ repeat 1 56 ++ [2; 3; 4; 5; 6; 7; 8; 9].

Definition rlp_prefix_length (prefix : Z) : Z := aget RLP_PREFIX_LENGTH_TABLE (Z.to_nat prefix).

Definition rlp_length_of_length (value : Z) : Z :=
  if value <? RLP_SMALL_PREFIX_BARRIER then 0
  else let bits := 64 - clz64 value in (bits + 7) / 8.

Definition rlp_byte_length_u64 (value : Z) : Z :=
  if value =? 0 then 0 else let leading_zeros := clz64 value in 8 - leading_zeros / 8.

Definition rlp_is_string_prefix (prefix : Z) : bool := prefix <=? RLP_LONG_STRING_MAX.
Definition rlp_is_list_prefix (prefix : Z) : bool := prefix >? RLP_LONG_STRING_MAX.
Definition rlp_is_single_byte (prefix : Z) : bool := prefix <=? RLP_SINGLE_BYTE_MAX.

(** * encode.c *)

Definition RLP_MAX_HEADER_SIZE : Z := 9.

(** The bytes written into [buf]; the default case is the downward loop. *)
Definition write_length_bytes (len : Z) : list Z :=
  let num_bytes := rlp_length_of_length len in
  match num_bytes with
  | 1 => [w8 len]
  | 2 => [w8 (len >>64 8); w8 len]
  | 3 => [w8 (len >>64 16); w8 (len >>64 8); w8 len]
  | 4 => [w8 (len >>64 24); w8 (len >>64 16); w8 (len >>64 8); w8 len]
  | _ => for_down (Z.to_nat num_bytes) (fun i buf => buf ++ [w8 (len >>64 (Z.of_nat i * 8))]) []
  end.

Definition rlp_encode_bytes (data : list Z) : bytes_t :=
  let len := Z.of_nat (length data) in
  let result := bytes_init_arena in
  if (len =? 1) && (aget data 0 <=? RLP_SINGLE_BYTE_MAX) then
    append_byte (reserve result 1) (aget data 0)
  else if len <? RLP_SMALL_PREFIX_BARRIER then
    let result := reserve result (1 +64 len) in
    let result := append_byte result (w8 (RLP_EMPTY_STRING_BYTE + len)) in
    if len >? 0 then append result data else result
  else
    let len_bytes := rlp_length_of_length len in
    let result := reserve result ((1 +64 len_bytes) +64 len) in
    let result := append_byte result (w8 (RLP_SHORT_STRING_MAX + len_bytes)) in
    let len_buf := write_length_bytes len in
    append (append result len_buf) data.

Definition rlp_encode_u64 (value : Z) : bytes_t :=
  let result := bytes_init_arena in
  if value =? 0 then append_byte (reserve result 1) RLP_EMPTY_STRING_BYTE
  else if value <? 128 then append_byte (reserve result 1) (w8 value)
  else
    let num_bytes := rlp_byte_length_u64 value in
    let result := reserve result (1 + num_bytes) in
    let result := append_byte result (w8 (RLP_EMPTY_STRING_BYTE + num_bytes)) in
    for_down (Z.to_nat num_bytes) (fun i result => append_byte result (w8 (value >>64 (Z.of_nat i * 8)))) result.

(** [while (start < 32 && be_bytes[start] == 0) ++start], then the tail. *)
Fixpoint skip_zeros (be : list Z) : list Z :=
  match be with
  | x :: rest => if x =? 0 then skip_zeros rest else be
  | [] => []
  end.

Definition rlp_encode_uint256 (value : uint256_t) : bytes_t :=
  let result := bytes_init_arena in
  if uint256_is_zero value then append_byte (reserve result 1) RLP_EMPTY_STRING_BYTE
  else if (limb3 value =? 0) && (limb2 value =? 0) && (limb1 value =? 0) && (limb0 value <? 128) then
    append_byte (reserve result 1) (w8 (limb0 value))
  else
    let be := skip_zeros (uint256_to_bytes_be value) in
    let num_bytes := Z.of_nat (length be) in
    let result := reserve result (1 + num_bytes) in
    let result := append_byte result (w8 (RLP_EMPTY_STRING_BYTE + num_bytes)) in
    append result be.

Definition rlp_encode_address (addr : address_t) : bytes_t :=
  let result := reserve bytes_init_arena 21 in
  append (append_byte result 148) addr.

(** The builder is the position of its header; the output is passed along. *)
Definition rlp_list_start (output : bytes_t) : Z * bytes_t :=
  (b_size output, append output (repeat 0 (Z.to_nat RLP_MAX_HEADER_SIZE))).

(** [None] when the header is copied outside the allocation. The payload is
    moved down over the unused part of the reserved header. *)
Definition rlp_list_end (header_pos : Z) (output : bytes_t) : option bytes_t :=
  let payload_len := (b_size output -64 header_pos) -64 RLP_MAX_HEADER_SIZE in
  let header :=
    if payload_len <? RLP_SMALL_PREFIX_BARRIER then [w8 (RLP_EMPTY_LIST_BYTE + payload_len)]
    else
      let len_bytes := rlp_length_of_length payload_len in
      w8 (RLP_SHORT_LIST_MAX + len_bytes) :: write_length_bytes payload_len in
  let actual_header_size := Z.of_nat (length header) in
  if b_capacity output <? header_pos + actual_header_size then None
  else
    let kept := firstn (Z.to_nat header_pos) (b_data output) ++ header ++ skipn (Z.to_nat (header_pos + actual_header_size)) (b_data output) in
    if actual_header_size <? RLP_MAX_HEADER_SIZE then
      let payload := skipn (Z.to_nat (header_pos + RLP_MAX_HEADER_SIZE)) (b_data output) in
      Some (Bytes (firstn (Z.to_nat header_pos) (b_data output) ++ header ++ payload) (b_capacity output) (b_alloc output))
    else Some (Bytes (firstn (length (b_data output)) kept) (b_capacity output) (b_alloc output)).

Definition rlp_list_append (output item : bytes_t) : bytes_t := append output (b_data item).
Definition rlp_list_append_raw (output : bytes_t) (data : list Z) : bytes_t := append output data.

(** * decode.c *)

Inductive rlp_error_t :=
| RLP_ERR_INPUT_TOO_SHORT
| RLP_ERR_LEADING_ZEROS
| RLP_ERR_NON_CANONICAL
| RLP_ERR_INTEGER_OVERFLOW
| RLP_ERR_LIST_MISMATCH
| RLP_ERR_INVALID_PREFIX
| RLP_ERR_WRONG_SIZE.

Record rlp_decoder_t := Decoder { d_input : list Z; d_pos : Z }.

Definition d_size (d : rlp_decoder_t) : Z := Z.of_nat (length (d_input d)).
Definition set_pos (d : rlp_decoder_t) (pos : Z) : rlp_decoder_t := Decoder (d_input d) pos.

Inductive rlp_result (A : Type) :=
| RlpOk (value : A) (bytes_consumed : Z)
| RlpErr (error : rlp_error_t).
Arguments RlpOk {A} value bytes_consumed.
Arguments RlpErr {A} error.

Definition decodes (A : Type) : Type := rlp_decoder_t -> rlp_decoder_t * rlp_result A.

Definition rlp_decoder_init (input : list Z) : rlp_decoder_t := Decoder input 0.
Definition rlp_decoder_has_more (d : rlp_decoder_t) : bool := d_pos d <? d_size d.
Definition rlp_decoder_position (d : rlp_decoder_t) : Z := d_pos d.
Definition rlp_decoder_remaining (d : rlp_decoder_t) : Z := d_size d -64 d_pos d.
Definition rlp_decoder_peek (d : rlp_decoder_t) : Z :=
  if d_pos d <? d_size d then aget (d_input d) (Z.to_nat (d_pos d)) else 0.
Definition rlp_decoder_next_is_list (d : rlp_decoder_t) : bool := rlp_is_list_prefix (rlp_decoder_peek d).
Definition rlp_decoder_next_is_string (d : rlp_decoder_t) : bool := rlp_is_string_prefix (rlp_decoder_peek d).

Definition remaining (d : rlp_decoder_t) : Z := if d_size d <=? d_pos d then 0 else d_size d -64 d_pos d.

(** [input[pos]], and the [len] bytes at [pos]. *)
Definition at_pos (d : rlp_decoder_t) : Z := aget (d_input d) (Z.to_nat (d_pos d)).
Definition view (d : rlp_decoder_t) (len : Z) : list Z := firstn (Z.to_nat len) (skipn (Z.to_nat (d_pos d)) (d_input d)).

Definition read_byte (d : rlp_decoder_t) : rlp_decoder_t * Z := (set_pos d (d_pos d +64 1), at_pos d).

(** [length = (length << 8) | read_byte(decoder)], [n] times. *)
Fixpoint read_length (n : nat) (d : rlp_decoder_t) (length : Z) : rlp_decoder_t * Z :=
  match n with
  | O => (d, length)
  | S n' => let '(d, b) := read_byte d in read_length n' d (Z.lor (length <<64 8) b)
  end.

Definition decode_length (num_bytes : Z) : decodes Z := fun d =>
  if remaining d <? num_bytes then (d, RlpErr RLP_ERR_INPUT_TOO_SHORT)
  else if at_pos d =? 0 then (d, RlpErr RLP_ERR_LEADING_ZEROS)
  else let '(d, length) := read_length (Z.to_nat num_bytes) d 0 in (d, RlpOk length num_bytes).

Definition rlp_decode_bytes : decodes (list Z) := fun d =>
  if negb (rlp_decoder_has_more d) then (d, RlpErr RLP_ERR_INPUT_TOO_SHORT)
  else
    let start := d in
    let '(d, prefix) := read_byte d in
    if prefix <=? RLP_SINGLE_BYTE_MAX then (d, RlpOk (view start 1) 1)
    else if prefix <=? RLP_SHORT_STRING_MAX then
      let len := prefix - RLP_EMPTY_STRING_BYTE in
      if remaining d <? len then (d, RlpErr RLP_ERR_INPUT_TOO_SHORT)
      else if (len =? 1) && (at_pos d <=? RLP_SINGLE_BYTE_MAX) then (d, RlpErr RLP_ERR_NON_CANONICAL)
      else (set_pos d (d_pos d +64 len), RlpOk (view d len) (1 + len))
    else if prefix <=? RLP_LONG_STRING_MAX then
      let len_of_len := prefix - RLP_SHORT_STRING_MAX in
      match decode_length len_of_len d with
      | (d, RlpErr e) => (d, RlpErr e)
      | (d, RlpOk len _) =>
          if len <? RLP_SMALL_PREFIX_BARRIER then (d, RlpErr RLP_ERR_NON_CANONICAL)
          else if remaining d <? len then (d, RlpErr RLP_ERR_INPUT_TOO_SHORT)
          else (set_pos d (d_pos d +64 len), RlpOk (view d len) ((1 +64 len_of_len) +64 len))
      end
    else (d, RlpErr RLP_ERR_INVALID_PREFIX).

(** The big-endian loop of [rlp_decode_u64]. *)
Definition be_u64 (data : list Z) : Z := fold_left (fun value b => Z.lor (value <<64 8) b) data 0.

Definition rlp_decode_u64 : decodes Z := fun d =>
  match rlp_decode_bytes d with
  | (d, RlpErr e) => (d, RlpErr e)
  | (d, RlpOk data consumed) =>
      let len := Z.of_nat (length data) in
      if len =? 0 then (d, RlpOk 0 consumed)
      else if len >? 8 then (d, RlpErr RLP_ERR_INTEGER_OVERFLOW)
      else if (len >? 1) && (aget data 0 =? 0) then (d, RlpErr RLP_ERR_LEADING_ZEROS)
      else (d, RlpOk (be_u64 data) consumed)
  end.

Definition rlp_decode_uint256 : decodes uint256_t := fun d =>
  match rlp_decode_bytes d with
  | (d, RlpErr e) => (d, RlpErr e)
  | (d, RlpOk data consumed) =>
      let len := Z.of_nat (length data) in
      if len =? 0 then (d, RlpOk uint256_zero consumed)
      else if len >? 32 then (d, RlpErr RLP_ERR_INTEGER_OVERFLOW)
      else if (len >? 1) && (aget data 0 =? 0) then (d, RlpErr RLP_ERR_LEADING_ZEROS)
      else (d, RlpOk (uint256_from_bytes_be data) consumed)
  end.

Definition rlp_decode_address : decodes address_t := fun d =>
  match rlp_decode_bytes d with
  | (d, RlpErr e) => (d, RlpErr e)
  | (d, RlpOk data consumed) =>
      if negb (length data =? ADDRESS_SIZE)%nat then (d, RlpErr RLP_ERR_WRONG_SIZE)
      else (d, RlpOk (firstn ADDRESS_SIZE data) consumed)
  end.

Definition rlp_decode_list_header : decodes Z := fun d =>
  if negb (rlp_decoder_has_more d) then (d, RlpErr RLP_ERR_INPUT_TOO_SHORT)
  else
    let '(d, prefix) := read_byte d in
    if prefix <=? RLP_LONG_STRING_MAX then (d, RlpErr RLP_ERR_INVALID_PREFIX)
    else if prefix <=? RLP_SHORT_LIST_MAX then (d, RlpOk (prefix - RLP_EMPTY_LIST_BYTE) 1)
    else
      let len_of_len := prefix - RLP_SHORT_LIST_MAX in
      match decode_length len_of_len d with
      | (d, RlpErr e) => (d, RlpErr e)
      | (d, RlpOk payload_len _) =>
          if payload_len <? RLP_SMALL_PREFIX_BARRIER then (d, RlpErr RLP_ERR_NON_CANONICAL)
          else (d, RlpOk payload_len (1 + len_of_len))
      end.

(** The length loop of [rlp_skip_item] stops at the end of the input. *)
Fixpoint skip_length (n : nat) (d : rlp_decoder_t) (len : Z) : rlp_decoder_t * Z :=
  match n with
  | O => (d, len)
  | S n' =>
      if d_pos d <? d_size d then
        skip_length n' (set_pos d (d_pos d +64 1)) (Z.lor (len <<64 8) (at_pos d))
      else (d, len)
  end.

(** [new_pos < size ? new_pos : size]. *)
Definition clamp_pos (d : rlp_decoder_t) (new_pos : Z) : rlp_decoder_t :=
  set_pos d (if new_pos <? d_size d then new_pos else d_size d).

(** Consume a prefix and its length bytes, then the payload. *)
Definition skip_long (len_of_len : Z) (d : rlp_decoder_t) : rlp_decoder_t :=
  let '(d, len) := skip_length (Z.to_nat len_of_len) (set_pos d (d_pos d +64 1)) 0 in
  clamp_pos d (d_pos d +64 len).

Definition rlp_skip_item (d : rlp_decoder_t) : rlp_decoder_t :=
  if negb (rlp_decoder_has_more d) then d
  else
    let prefix := at_pos d in
    if prefix <=? RLP_SINGLE_BYTE_MAX then set_pos d (d_pos d +64 1)
    else if prefix <=? RLP_SHORT_STRING_MAX then
      clamp_pos d ((d_pos d +64 1) +64 (prefix - RLP_EMPTY_STRING_BYTE))
    else if prefix <=? RLP_LONG_STRING_MAX then skip_long (prefix - RLP_SHORT_STRING_MAX) d
    else if prefix <=? RLP_SHORT_LIST_MAX then
      clamp_pos d ((d_pos d +64 1) +64 (prefix - RLP_EMPTY_LIST_BYTE))
    else skip_long (prefix - RLP_SHORT_LIST_MAX) d.
