(* ===== verification/RlpSpec.v ===== *)
(** The RLP code against the definition of RLP.

    [enc_str] and [enc_list] are the encodings of the Yellow Paper on byte
    lists. The encoders produce them whenever their string has room, and the
    decoders accept them and nothing else, with one exception for integers. *)
From Stdlib Require Import ZArith Lia List Bool.
From S2P Require Import Prelude Uint256 Types Arena Bytes Rlp.
Import ListNotations.
#[local] Open Scope Z_scope.
#[local] Open Scope word_scope.

(** * Minimal big-endian integers *)

Definition nbytes (v : Z) : Z := if v =? 0 then 0 else Z.log2 v / 8 + 1.
Definition min_be (v : Z) : list Z := be_bytes (Z.to_nat (nbytes v)) v.

Lemma nbytes_range v : 0 <= nbytes v.
Proof. unfold nbytes. destruct (v =? 0); [lia|]. pose proof (Z.log2_nonneg v). Z.div_mod_to_equations; lia. Qed.

Lemma length_min_be v : Z.of_nat (length (min_be v)) = nbytes v.
Proof. unfold min_be. rewrite length_be_bytes. pose proof (nbytes_range v). lia. Qed.

Lemma nbytes_unique v n : 0 < v -> 0 < n -> 2 ^ (8 * (n - 1)) <= v < 2 ^ (8 * n) -> nbytes v = n.
Proof.
  intros Hv Hn [L U]. unfold nbytes. destruct (Z.eqb_spec v 0); [lia|].
  apply Z.log2_le_pow2 in L; [|lia]. apply Z.log2_lt_pow2 in U; [|lia].
  rewrite <- (Z.div_unique (Z.log2 v) 8 (n - 1) (Z.log2 v - 8 * (n - 1))); lia.
Qed.

Lemma nbytes_bound v : 0 <= v -> v < 2 ^ (8 * nbytes v).
Proof.
  intros Hv. unfold nbytes. destruct (Z.eqb_spec v 0) as [->|N]; [reflexivity|].
  pose proof (Z.log2_nonneg v). apply Z.log2_lt_pow2; [lia|]. Z.div_mod_to_equations; lia.
Qed.

Lemma nbytes_le v n : 0 <= n -> 0 <= v < 2 ^ (8 * n) -> nbytes v <= n.
Proof.
  intros Hn [H1 H2]. unfold nbytes. destruct (Z.eqb_spec v 0) as [->|N]; [lia|].
  apply Z.log2_lt_pow2 in H2; [|lia]. Z.div_mod_to_equations; lia.
Qed.

Lemma nbytes_pos v : 0 < v -> 1 <= nbytes v.
Proof.
  intros H. unfold nbytes. destruct (Z.eqb_spec v 0); [lia|]. pose proof (Z.log2_nonneg v).
  Z.div_mod_to_equations; lia.
Qed.

Lemma be_val_min_be v : 0 <= v -> be_val (min_be v) = v.
Proof.
  intros Hv. unfold min_be. rewrite be_val_be_bytes. apply Z.mod_small. pose proof (nbytes_bound v Hv).
  pose proof (nbytes_range v). rewrite Z2Nat.id by lia. lia.
Qed.

(** A byte string without leading zero is minimal. *)
Lemma min_be_be_val b bs : bytes_ok (b :: bs) -> b <> 0 -> min_be (be_val (b :: bs)) = b :: bs.
Proof.
  intros H N. pose proof (be_val_range _ H) as R. inversion H as [|? ? Hb Hbs]; subst. unfold u8 in Hb.
  pose proof (be_val_range _ Hbs) as R'. unfold min_be.
  assert (E : nbytes (be_val (b :: bs)) = Z.of_nat (length (b :: bs))).
  { apply nbytes_unique; [| cbn [length]; lia |].
    - rewrite be_val_cons. assert (0 < 2 ^ (8 * Z.of_nat (length bs))) by (apply Z.pow_pos_nonneg; lia). nia.
    - split; [|apply R]. cbn [length]. rewrite be_val_cons. replace (8 * (Z.of_nat (S (length bs)) - 1)) with (8 * Z.of_nat (length bs)) by lia.
      assert (0 < 2 ^ (8 * Z.of_nat (length bs))) by (apply Z.pow_pos_nonneg; lia). nia. }
  rewrite E, Nat2Z.id. apply be_bytes_be_val, H.
Qed.

Lemma min_be_head v : 0 < v -> exists b bs, min_be v = b :: bs /\ b <> 0 /\ bytes_ok (b :: bs).
Proof.
  intros Hv. pose proof (nbytes_pos v Hv) as P. pose proof (be_val_min_be v ltac:(lia)) as V.
  pose proof (be_bytes_ok (Z.to_nat (nbytes v)) v) as OK. fold (min_be v) in OK.
  pose proof (length_min_be v) as L. destruct (min_be v) as [|b bs]; [cbn in L; lia|].
  exists b, bs. split; [reflexivity|]. split; [|exact OK]. intros ->.
  pose proof (Forall_inv_tail OK) as Hbs. pose proof (be_val_range _ Hbs) as R. rewrite be_val_cons in V.
  cbn [length] in L.
  assert (Lo : 2 ^ (8 * (nbytes (be_val bs) - 1)) <= be_val bs \/ be_val bs = 0).
  { destruct (Z.eq_dec (be_val bs) 0); [right; assumption | left]. unfold nbytes. destruct (Z.eqb_spec (be_val bs) 0); [lia|].
    apply Z.log2_le_pow2; [lia|]. Z.div_mod_to_equations; lia. }
  assert (nbytes v <= Z.of_nat (length bs)); [|lia]. apply nbytes_le; lia.
Qed.

Lemma be_val_skip_zeros bs : bytes_ok bs -> skip_zeros bs = min_be (be_val bs).
Proof.
  induction 1 as [|b bs Hb Hbs IH]; [reflexivity|]. cbn [skip_zeros]. destruct (Z.eqb_spec b 0) as [->|N].
  - rewrite IH, be_val_cons. f_equal; lia.
  - symmetry. apply min_be_be_val; [constructor; assumption | assumption].
Qed.

Lemma for_down_S {S : Type} n (body : nat -> S -> S) s : for_down (Datatypes.S n) body s = for_down n body (body n s).
Proof. unfold for_down. rewrite seq_S, fold_right_app. reflexivity. Qed.

Lemma be_bytes_cons n v : be_bytes (S n) v = (v / 2 ^ (8 * Z.of_nat n)) mod 2 ^ 8 :: be_bytes n v.
Proof. change (S n) with (1 + n)%nat. rewrite be_bytes_app. reflexivity. Qed.

(** The downward loops write big-endian. *)
Lemma down_be n v acc : for_down n (fun i buf => buf ++ [w8 (v >>64 (Z.of_nat i * 8))]) acc = acc ++ be_bytes n v.
Proof.
  revert acc; induction n as [|n IH]; intros acc; [symmetry; apply app_nil_r|].
  rewrite for_down_S, IH, be_bytes_cons, <- app_assoc. unfold w8, shr64. cbn [app].
  rewrite Z.shiftr_div_pow2 by lia. rewrite (Z.mul_comm (Z.of_nat n) 8). reflexivity.
Qed.

Lemma length_of_length_spec v : 56 <= v < 2 ^ 64 -> rlp_length_of_length v = nbytes v.
Proof.
  intros H. unfold rlp_length_of_length, RLP_SMALL_PREFIX_BARRIER, nbytes, clz64. destruct (Z.ltb_spec v 56); [lia|].
  destruct (Z.eqb_spec v 0); [lia|]. Z.div_mod_to_equations; lia.
Qed.

Lemma byte_length_spec v : 0 < v < 2 ^ 64 -> rlp_byte_length_u64 v = nbytes v.
Proof.
  intros H. unfold rlp_byte_length_u64, nbytes, clz64. destruct (Z.eqb_spec v 0); [lia|].
  Z.div_mod_to_equations; lia.
Qed.

Lemma nbytes_64 v : 56 <= v < 2 ^ 64 -> 1 <= nbytes v <= 8.
Proof. intros H. split; [apply nbytes_pos; lia | apply nbytes_le; lia]. Qed.

Lemma write_length_spec v : 56 <= v < 2 ^ 64 -> write_length_bytes v = min_be v.
Proof.
  intros H. unfold write_length_bytes, min_be. rewrite length_of_length_spec by exact H. pose proof (nbytes_64 v H) as N.
  assert (C : nbytes v = 1 \/ nbytes v = 2 \/ nbytes v = 3 \/ nbytes v = 4 \/ 5 <= nbytes v) by lia.
  assert (D : for_down (Z.to_nat (nbytes v)) (fun i buf => buf ++ [w8 (v >>64 (Z.of_nat i * 8))]) [] = be_bytes (Z.to_nat (nbytes v)) v)
    by apply down_be.
  rewrite <- D. destruct C as [-> | [-> | [-> | [-> | C]]]]; [reflexivity..|].
  destruct (nbytes v) as [|p|p]; [lia| |lia]. destruct p as [[p|p|]|[p|[p|p|]|]|]; try reflexivity; lia.
Qed.

(** * The encoding *)

Definition header (base len : Z) : list Z :=
  if len <? 56 then [base + len] else (base + 55 + nbytes len) :: min_be len.

Definition enc_str (d : list Z) : list Z :=
  if (Z.of_nat (length d) =? 1) && (aget d 0 <=? 127) then d else header 128 (Z.of_nat (length d)) ++ d.

Definition enc_list (payload : list Z) : list Z := header 192 (Z.of_nat (length payload)) ++ payload.
Definition enc_int (v : Z) : list Z := enc_str (min_be v).

Lemma length_header base len : 0 <= len < 2 ^ 64 -> 1 <= Z.of_nat (length (header base len)) <= 9.
Proof.
  intros H. unfold header. destruct (Z.ltb_spec len 56); [cbn; lia|]. cbn [length].
  pose proof (length_min_be len). pose proof (nbytes_64 len ltac:(lia)). lia.
Qed.

Lemma length_enc_str d : Z.of_nat (length d) < 2 ^ 64 ->
  Z.of_nat (length d) <= Z.of_nat (length (enc_str d)) <= 9 + Z.of_nat (length d).
Proof.
  intros H. unfold enc_str. destruct (_ && _); [lia|]. rewrite length_app.
  pose proof (length_header 128 (Z.of_nat (length d)) ltac:(lia)). lia.
Qed.

Lemma bytes_ok_header base len : 0 <= len < 2 ^ 64 -> base = 128 \/ base = 192 -> bytes_ok (header base len).
Proof.
  intros H HB. unfold header. destruct (Z.ltb_spec len 56).
  - apply Forall_cons; [destruct HB; subst; unfold u8; lia | apply Forall_nil].
  - pose proof (nbytes_64 len ltac:(lia)). constructor; [destruct HB; subst; unfold u8; lia | apply be_bytes_ok].
Qed.

(** * The encoders produce it *)

Lemma append_byte_filled d x c : Z.of_nat (length d) + 1 <= c <= DIV0_ARENA_BLOCK_SIZE ->
  append_byte (filled d c) x = filled (d ++ [x]) c.
Proof. intros H. apply (append_filled d [x] c). exact H. Qed.

(** A string that fits a block of the arena is encoded; of a longer one only
    the prefix byte is left. *)
Definition encodes (d : list Z) : bytes_t :=
  if Z.of_nat (length (enc_str d)) <=? DIV0_ARENA_BLOCK_SIZE then filled (enc_str d) (Z.of_nat (length (enc_str d)))
  else filled [183 + nbytes (Z.of_nat (length d))] 1.

Lemma one_byte x : enc_str [x] = if x <=? 127 then [x] else [129; x].
Proof. unfold enc_str; cbn. destruct (x <=? 127); reflexivity. Qed.

Lemma rlp_encode_bytes_spec d : bytes_ok d -> Z.of_nat (length d) < 2 ^ 63 -> rlp_encode_bytes d = encodes d.
Proof.
  intros OK L. unfold rlp_encode_bytes, encodes, enc_str. unfold RLP_SINGLE_BYTE_MAX, RLP_SMALL_PREFIX_BARRIER, RLP_EMPTY_STRING_BYTE, RLP_SHORT_STRING_MAX.
  set (n := Z.of_nat (length d)) in *. destruct (andb (n =? 1) (aget d 0 <=? 127)) eqn:S1.
  - apply andb_true_iff in S1 as [S1%Z.eqb_eq _]. unfold n in S1. destruct d as [|x [|]]; cbn in S1; try lia. reflexivity.
  - unfold header. assert (n0 : 0 <= n) by lia. destruct (Z.ltb_spec n 56) as [Sh|Lo].
    + cbn [app length]. rewrite (proj2 (Z.leb_le _ _)) by (unfold DIV0_ARENA_BLOCK_SIZE, n in *; lia).
      unfold add64, w8. rewrite w64_small, Z.mod_small by (unfold u64; lia).
      rewrite reserve_fresh by (unfold DIV0_ARENA_BLOCK_SIZE; lia). change (Bytes [] (1 + n) true) with (filled [] (1 + n)).
      rewrite append_byte_filled by (unfold DIV0_ARENA_BLOCK_SIZE; cbn [length]; lia). cbn [app].
      destruct (Z.gtb_spec n 0) as [P|P].
      * rewrite append_filled by (unfold DIV0_ARENA_BLOCK_SIZE, n in *; cbn [length]; lia). unfold n. f_equal. lia.
      * destruct d; [|unfold n in P; cbn in P; lia]. reflexivity.
    + rewrite length_of_length_spec, write_length_spec by lia. pose proof (nbytes_64 n ltac:(lia)) as NB. pose proof (length_min_be n) as ML.
      unfold add64, w8. rewrite (w64_small (1 + nbytes n)), w64_small, Z.mod_small by (unfold u64; lia).
      replace (Z.of_nat (length (((128 + 55 + nbytes n) :: min_be n) ++ d))) with (1 + nbytes n + n)
        by (rewrite length_app; cbn [length]; unfold n in *; lia).
      destruct (Z.leb_spec (1 + nbytes n + n) DIV0_ARENA_BLOCK_SIZE) as [Fit|Big].
      * rewrite reserve_fresh by lia. change (Bytes [] ?c true) with (filled [] c).
        rewrite append_byte_filled by (cbn [length]; lia). cbn [app].
        rewrite append_filled by (cbn [length]; lia). rewrite append_filled; [cbn [app]; f_equal|].
        rewrite length_app. cbn [length]. unfold n in *. lia.
      * rewrite reserve_too_large by lia. rewrite append_byte_fresh. unfold DIV0_ARENA_BLOCK_SIZE in *.
        rewrite (append_dropped _ (min_be n)), append_dropped by (unfold DIV0_ARENA_BLOCK_SIZE; cbn [length]; unfold n in *; lia). reflexivity.
Qed.

Lemma enc_int_small v : 0 < v < 128 -> enc_int v = [v].
Proof.
  intros H. unfold enc_int. replace (min_be v) with [v].
  - rewrite one_byte. rewrite (proj2 (Z.leb_le _ _)) by lia. reflexivity.
  - rewrite <- (min_be_be_val v []); [f_equal; unfold be_val; cbn; lia | | lia].
    apply Forall_cons; [unfold u8; lia | apply Forall_nil].
Qed.

(** Integers from 128 on: one prefix byte and the bytes. *)
Lemma enc_int_large v n : 128 <= v < 2 ^ (8 * n) -> 0 <= n <= 32 -> enc_int v = (128 + nbytes v) :: min_be v.
Proof.
  intros H Hn. pose proof (nbytes_le v n ltac:(lia) ltac:(lia)) as N. pose proof (nbytes_pos v ltac:(lia)).
  unfold enc_int, enc_str. rewrite length_min_be. unfold header. rewrite (proj2 (Z.ltb_lt _ _)) by lia.
  destruct (Z.eqb_spec (nbytes v) 1) as [E|E]; [|reflexivity]. cbn [andb].
  destruct (min_be_head v ltac:(lia)) as (b & bs & M & _ & _). pose proof (length_min_be v) as L.
  pose proof (be_val_min_be v ltac:(lia)) as V. rewrite M in *. destruct bs; [|cbn [length] in L; lia].
  unfold aget; cbn [nth]. rewrite (proj2 (Z.leb_gt _ _)); [reflexivity|]. unfold be_val in V; cbn in V. lia.
Qed.

(** The downward loop appends the bytes one by one. *)
Lemma down_append n v d c : Z.of_nat (length d) + Z.of_nat n <= c <= DIV0_ARENA_BLOCK_SIZE ->
  for_down n (fun i r => append_byte r (w8 (v >>64 (Z.of_nat i * 8)))) (filled d c) = filled (d ++ be_bytes n v) c.
Proof.
  revert d; induction n as [|n IH]; intros d H; [rewrite app_nil_r; reflexivity|].
  rewrite for_down_S, append_byte_filled, IH, be_bytes_cons, <- app_assoc by (try rewrite length_app; cbn [length]; lia).
  unfold w8, shr64. cbn [app]. rewrite Z.shiftr_div_pow2 by lia. rewrite (Z.mul_comm (Z.of_nat n) 8). reflexivity.
Qed.

Lemma rlp_encode_u64_spec v : u64 v -> b_data (rlp_encode_u64 v) = enc_int v.
Proof.
  unfold u64. intros H. unfold rlp_encode_u64. destruct (Z.eqb_spec v 0) as [->|N]; [reflexivity|].
  destruct (Z.ltb_spec v 128) as [S|L].
  - rewrite enc_int_small by lia. unfold w8. rewrite Z.mod_small by lia. reflexivity.
  - rewrite (enc_int_large v 8), byte_length_spec by lia. pose proof (nbytes_le v 8 ltac:(lia) ltac:(lia)) as NB.
    pose proof (nbytes_pos v ltac:(lia)).
    rewrite (w8_small (RLP_EMPTY_STRING_BYTE + nbytes v)) by (unfold u8, RLP_EMPTY_STRING_BYTE; lia).
    rewrite reserve_fresh by (unfold DIV0_ARENA_BLOCK_SIZE; lia). change (Bytes [] ?c true) with (filled [] c).
    rewrite append_byte_filled, down_append by (unfold DIV0_ARENA_BLOCK_SIZE; cbn [app length]; lia). reflexivity.
Qed.

Lemma rlp_encode_uint256_spec v : wf256 v -> b_data (rlp_encode_uint256 v) = enc_int (val v).
Proof.
  intros W. pose proof (val_range v W) as R. unfold rlp_encode_uint256. rewrite uint256_is_zero_spec by exact W.
  destruct (Z.eqb_spec (val v) 0) as [->|N]; [reflexivity|]. rewrite uint256_to_bytes_be_spec by exact W.
  rewrite be_val_skip_zeros, be_val_be_bytes, Z.mod_small by (apply be_bytes_ok || (change (8 * Z.of_nat 32) with 256; lia)).
  rewrite length_min_be.
  destruct (_ && (limb0 v <? 128)) eqn:S.
  - rewrite !andb_true_iff, !Z.eqb_eq, Z.ltb_lt in S. destruct S as [[[E3 E2] E1] L].
    assert (val v = limb0 v) as -> by (unfold val; lia). unfold val in N. destruct W as (W0 & _). unfold u64 in W0.
    rewrite enc_int_small by lia. unfold w8. rewrite Z.mod_small by lia. reflexivity.
  - assert (128 <= val v).
    { destruct W as (W0 & W1 & W2 & W3). unfold u64, val in *. apply Z.nlt_ge. intros C. apply andb_false_iff in S as [S|S].
      - rewrite !andb_false_iff, !Z.eqb_neq in S. lia.
      - apply Z.ltb_ge in S. lia. }
    rewrite (enc_int_large (val v) 32) by lia. pose proof (nbytes_le (val v) 32 ltac:(lia) ltac:(lia)). pose proof (nbytes_pos (val v) ltac:(lia)).
    unfold RLP_EMPTY_STRING_BYTE, w8. rewrite Z.mod_small by lia.
    rewrite reserve_fresh by (unfold DIV0_ARENA_BLOCK_SIZE; lia). change (Bytes [] ?c true) with (filled [] c).
    pose proof (length_min_be (val v)).
    rewrite append_byte_filled, append_filled by (unfold DIV0_ARENA_BLOCK_SIZE; cbn [app length]; lia). reflexivity.
Qed.

Lemma rlp_encode_address_spec a : wf_address a -> b_data (rlp_encode_address a) = enc_str a.
Proof.
  intros [L _]. unfold rlp_encode_address, enc_str. rewrite L. unfold ADDRESS_SIZE. cbn [andb Z.of_nat Z.eqb].
  rewrite reserve_fresh by (unfold DIV0_ARENA_BLOCK_SIZE; lia). change (Bytes [] ?c true) with (filled [] c).
  rewrite append_byte_filled, append_filled by (unfold DIV0_ARENA_BLOCK_SIZE; cbn [app length]; rewrite ?L; unfold ADDRESS_SIZE; lia). reflexivity.
Qed.

Lemma rlp_encode_bytes_data d : bytes_ok d -> Z.of_nat (length (enc_str d)) <= DIV0_ARENA_BLOCK_SIZE ->
  b_data (rlp_encode_bytes d) = enc_str d.
Proof.
  intros B L. rewrite rlp_encode_bytes_spec; [|exact B|].
  - unfold encodes. rewrite (proj2 (Z.leb_le _ _)) by exact L. reflexivity.
  - unfold DIV0_ARENA_BLOCK_SIZE in L. unfold enc_str in L. destruct (_ && _); [lia|]. rewrite length_app in L. lia.
Qed.

(** ** Sizes *)

Lemma length_enc_int v n : 0 <= n <= 32 -> 0 <= v < 2 ^ (8 * n) -> 1 <= Z.of_nat (length (enc_int v)) <= 1 + n.
Proof.
  intros Hn Hv. assert (v = 0 \/ 0 < v < 128 \/ 128 <= v) as [-> | [H|H]] by lia; [change (enc_int 0) with [128]; cbn [length]; lia | rewrite enc_int_small by exact H; cbn [length]; lia |].
  rewrite (enc_int_large v n) by lia. pose proof (length_min_be v). pose proof (nbytes_le v n ltac:(lia) Hv). cbn [length]. lia.
Qed.

Lemma length_enc_u64 v : u64 v -> 1 <= Z.of_nat (length (enc_int v)) <= 9.
Proof. intros H. apply (length_enc_int v 8); [lia | exact H]. Qed.

Lemma length_enc_256 v : wf256 v -> 1 <= Z.of_nat (length (enc_int (val v))) <= 33.
Proof. intros H. apply (length_enc_int (val v) 32); [lia | apply val_range, H]. Qed.

Lemma length_enc_fixed d n : length d = n -> (1 < n < 56)%nat -> length (enc_str d) = S n.
Proof.
  intros L H. unfold enc_str. rewrite (proj2 (Z.eqb_neq (Z.of_nat (length d)) 1)) by lia. cbn [andb].
  unfold header. rewrite (proj2 (Z.ltb_lt _ _)) by lia. cbn [app length]. lia.
Qed.

Lemma length_enc_hash h : wf_hash h -> length (enc_str h) = 33%nat.
Proof. intros [L _]. apply (length_enc_fixed h 32 L). lia. Qed.

Lemma length_enc_address a : wf_address a -> length (enc_str a) = 21%nat.
Proof. intros [L _]. apply (length_enc_fixed a 20 L). lia. Qed.

Lemma rlp_encode_hash_spec h : wf_hash h -> b_data (rlp_encode_bytes h) = enc_str h.
Proof.
  intros H. apply rlp_encode_bytes_data; [apply H|]. rewrite length_enc_hash by exact H. unfold DIV0_ARENA_BLOCK_SIZE. lia.
Qed.

(** ** Lists

    Between [rlp_list_start] and [rlp_list_end] the payload follows nine
    reserved bytes. *)
Definition reserved : list Z := repeat 0 9.

Lemma rlp_list_start_spec d c : Z.of_nat (length d) + 9 <= c <= DIV0_ARENA_BLOCK_SIZE ->
  rlp_list_start (filled d c) = (Z.of_nat (length d), filled (d ++ reserved) c).
Proof. intros H. unfold rlp_list_start. rewrite append_filled by exact H. reflexivity. Qed.

Lemma skipn_past {A} n (a b : list A) : n = length a -> skipn n (a ++ b) = b.
Proof. intros ->. rewrite skipn_app, skipn_all, Nat.sub_diag. reflexivity. Qed.

Lemma firstn_past {A} n (a b : list A) : n = length a -> firstn n (a ++ b) = a.
Proof. intros ->. rewrite firstn_app, firstn_all, Nat.sub_diag. apply app_nil_r. Qed.

Lemma rlp_list_end_spec d p c : Z.of_nat (length (d ++ reserved ++ p)) <= c <= DIV0_ARENA_BLOCK_SIZE ->
  rlp_list_end (Z.of_nat (length d)) (filled (d ++ reserved ++ p) c) = Some (filled (d ++ enc_list p) c).
Proof.
  intros H. rewrite !length_app in H. change (length reserved) with 9%nat in H. unfold DIV0_ARENA_BLOCK_SIZE in H.
  unfold rlp_list_end, b_size. cbn [b_data b_capacity b_alloc filled].
  rewrite !length_app. change (length reserved) with 9%nat. unfold RLP_MAX_HEADER_SIZE, sub64.
  set (n := Z.of_nat (length p)) in *.
  rewrite (w64_small (Z.of_nat _ - Z.of_nat _)), w64_small by (unfold u64; lia).
  replace (Z.of_nat (length d + (9 + length p)) - Z.of_nat (length d) - 9) with n by lia.
  assert (HD : (if n <? RLP_SMALL_PREFIX_BARRIER then [w8 (RLP_EMPTY_LIST_BYTE + n)]
     else w8 (RLP_SHORT_LIST_MAX + rlp_length_of_length n) :: write_length_bytes n) = header 192 n).
  { unfold header, RLP_SMALL_PREFIX_BARRIER, RLP_EMPTY_LIST_BYTE, RLP_SHORT_LIST_MAX. destruct (Z.ltb_spec n 56).
    - rewrite w8_small by (unfold u8; lia). reflexivity.
    - pose proof (nbytes_64 n ltac:(lia)). rewrite length_of_length_spec, write_length_spec, w8_small by (unfold u8; lia || (rewrite ?length_of_length_spec; lia)). reflexivity. }
  cbv zeta. rewrite HD. pose proof (length_header 192 n ltac:(lia)) as LH.
  assert (L3 : Z.of_nat (length (header 192 n)) <= 3).
  { unfold header. destruct (n <? 56); cbn [length]; [lia|]. pose proof (length_min_be n). pose proof (nbytes_le n 2 ltac:(lia) ltac:(lia)). lia. }
  destruct (Z.ltb_spec c (Z.of_nat (length d) + Z.of_nat (length (header 192 n)))); [lia|].
  destruct (Z.ltb_spec (Z.of_nat (length (header 192 n))) 9); [|lia].
  rewrite firstn_past by lia. rewrite (app_assoc d reserved p), skipn_past by (rewrite length_app; change (length reserved) with 9%nat; lia).
  reflexivity.
Qed.

(** * The decoders accept it *)

Definition tail (d : rlp_decoder_t) : list Z := skipn (Z.to_nat (d_pos d)) (d_input d).
Definition advance (d : rlp_decoder_t) (n : Z) : rlp_decoder_t := set_pos d (d_pos d + n).

Record dec_ok (d : rlp_decoder_t) : Prop := {
  dec_pos : 0 <= d_pos d <= d_size d;
  dec_size : d_size d < 2 ^ 63;
  dec_bytes : bytes_ok (d_input d) }.

Lemma length_tail d : dec_ok d -> Z.of_nat (length (tail d)) = d_size d - d_pos d.
Proof. intros [P _ _]. unfold tail. rewrite length_skipn. unfold d_size in *. lia. Qed.

Lemma tail_ok d : dec_ok d -> bytes_ok (tail d).
Proof. intros [_ _ B]. apply Forall_skipn, B. Qed.

Lemma skipn_skipn_add {A} a b (l : list A) : skipn b (skipn a l) = skipn (a + b) l.
Proof. rewrite skipn_skipn. f_equal. lia. Qed.

Lemma tail_advance d n : dec_ok d -> 0 <= n <= Z.of_nat (length (tail d)) ->
  tail (advance d n) = skipn (Z.to_nat n) (tail d) /\ dec_ok (advance d n).
Proof.
  intros D H. pose proof (length_tail d D) as L. destruct D as [P S B]. split.
  - unfold tail, advance, set_pos; cbn [d_pos d_input]. rewrite skipn_skipn_add. f_equal. lia.
  - unfold advance, set_pos. split; cbn [d_pos d_input]; unfold d_size in *; cbn [d_input]; [lia | assumption | assumption].
Qed.

Lemma advance_add d a b : advance (advance d a) b = advance d (a + b).
Proof. unfold advance, set_pos; cbn. f_equal. lia. Qed.

Lemma remaining_tail d : dec_ok d -> remaining d = Z.of_nat (length (tail d)).
Proof.
  intros D. rewrite length_tail by exact D. destruct D as [P S _]. unfold remaining, sub64.
  destruct (Z.leb_spec (d_size d) (d_pos d)); [lia|]. rewrite w64_small by (unfold u64; lia). reflexivity.
Qed.

Lemma has_more_tail d : dec_ok d -> rlp_decoder_has_more d = negb (Z.of_nat (length (tail d)) =? 0).
Proof.
  intros D. rewrite length_tail by exact D. destruct D as [P S _]. unfold rlp_decoder_has_more.
  destruct (Z.ltb_spec (d_pos d) (d_size d)), (Z.eqb_spec (d_size d - d_pos d) 0); cbn; lia || reflexivity.
Qed.

Lemma at_pos_tail d : at_pos d = aget (tail d) 0.
Proof.
  unfold at_pos, tail, aget. generalize (Z.to_nat (d_pos d)) as n. induction (d_input d) as [|x l IH]; intros [|n]; cbn; auto.
Qed.

Lemma pos_advance d n : dec_ok d -> 0 <= n <= Z.of_nat (length (tail d)) -> set_pos d (d_pos d +64 n) = advance d n.
Proof.
  intros D H. rewrite length_tail in H by exact D. destruct D as [P S _]. unfold advance, add64.
  rewrite w64_small by (unfold u64; lia). reflexivity.
Qed.

Lemma read_byte_tail d x t : dec_ok d -> tail d = x :: t ->
  read_byte d = (advance d 1, x) /\ tail (advance d 1) = t /\ dec_ok (advance d 1) /\ u8 x.
Proof.
  intros D E. assert (1 <= Z.of_nat (length (tail d))) by (rewrite E; cbn [length]; lia).
  destruct (tail_advance d 1 D ltac:(lia)) as [T D']. split; [|split; [rewrite T, E; reflexivity | split; [exact D'|]]].
  - unfold read_byte. rewrite pos_advance, at_pos_tail, E by (assumption || lia). reflexivity.
  - pose proof (tail_ok d D) as B. rewrite E in B. exact (Forall_inv B).
Qed.

Lemma shift_or a b : 0 <= a < 2 ^ 56 -> u8 b -> Z.lor (a <<64 8) b = a * 2 ^ 8 + b.
Proof.
  intros Ha Hb. unfold shl64. rewrite Z.shiftl_mul_pow2, w64_small by (unfold u64; lia). apply lor_add; [lia | exact Hb].
Qed.

Lemma pow_8_succ n : 2 ^ (8 * Z.of_nat (S n)) = 2 ^ (8 * Z.of_nat n) * 2 ^ 8.
Proof. rewrite <- Z.pow_add_r by lia. f_equal. lia. Qed.

Lemma read_length_tail n d acc : dec_ok d -> (n <= length (tail d))%nat -> 0 <= acc -> acc * 2 ^ (8 * Z.of_nat n) + be_val (firstn n (tail d)) < 2 ^ 64 ->
  read_length n d acc = (advance d (Z.of_nat n), acc * 2 ^ (8 * Z.of_nat n) + be_val (firstn n (tail d))).
Proof.
  revert d acc; induction n as [|n IH]; intros d acc D Hn Ha Hv.
  - cbn. unfold advance, set_pos. destruct d; cbn. f_equal; [f_equal; lia | unfold be_val; cbn; lia].
  - destruct (tail d) as [|x t] eqn:E; [cbn in Hn; lia|]. destruct (read_byte_tail d x t D E) as (R & T & D' & U).
    cbn [read_length]. rewrite R. cbn [firstn] in *. rewrite be_val_cons in *.
    assert (Ln : length (firstn n t) = n) by (rewrite length_firstn; cbn in Hn; lia). rewrite Ln, pow_8_succ in *.
    pose proof (tail_ok d D) as B. rewrite E in B.
    pose proof (be_val_range _ (Forall_firstn _ n _ (Forall_inv_tail B))) as R0. assert (P : 0 < 2 ^ (8 * Z.of_nat n)) by (apply Z.pow_pos_nonneg; lia).
    unfold u8 in U. assert (A56 : acc < 2 ^ 56) by nia. rewrite shift_or by (unfold u8; lia).
    assert (EQ : (acc * 2 ^ 8 + x) * 2 ^ (8 * Z.of_nat n) + be_val (firstn n t) = acc * (2 ^ (8 * Z.of_nat n) * 2 ^ 8) + (x * 2 ^ (8 * Z.of_nat n) + be_val (firstn n t))) by ring.
    rewrite IH; rewrite ?T; [| exact D' | cbn in Hn; lia | lia | rewrite EQ; exact Hv].
    rewrite advance_add, EQ. f_equal. f_equal. lia.
Qed.

(** The three outcomes of [decode_length]. *)
Lemma decode_length_tail d n : dec_ok d -> 1 <= n <= 8 ->
  decode_length n d =
    if Z.of_nat (length (tail d)) <? n then (d, RlpErr RLP_ERR_INPUT_TOO_SHORT)
    else if aget (tail d) 0 =? 0 then (d, RlpErr RLP_ERR_LEADING_ZEROS)
    else (advance d n, RlpOk (be_val (firstn (Z.to_nat n) (tail d))) n).
Proof.
  intros D Hn. unfold decode_length. rewrite remaining_tail, at_pos_tail by exact D.
  destruct (Z.ltb_spec (Z.of_nat (length (tail d))) n) as [|L]; [reflexivity|].
  destruct (aget (tail d) 0 =? 0); [reflexivity|].
  pose proof (be_val_range _ (Forall_firstn _ (Z.to_nat n) _ (tail_ok d D))) as R.
  rewrite length_firstn, Nat.min_l in R by lia. rewrite Z2Nat.id in R by lia.
  assert (2 ^ (8 * n) <= 2 ^ 64) by (apply Z.pow_le_mono_r; lia).
  rewrite read_length_tail by (assumption || lia). rewrite Z2Nat.id by lia. reflexivity.
Qed.

(** ** Strings *)

Lemma firstn_length_le {A} n (l : list A) : (n <= length l)%nat -> length (firstn n l) = n.
Proof. intros H. rewrite length_firstn. lia. Qed.

(** The header of a long string or list, read back. *)
Lemma long_header d base n t : dec_ok d -> tail d = (base + 55 + n) :: t -> 1 <= n <= 8 ->
  forall v d', decode_length n (advance d 1) = (d', RlpOk v n) -> 56 <= v ->
  header base v = (base + 55 + n) :: firstn (Z.to_nat n) t /\ d' = advance d (1 + n) /\ n <= Z.of_nat (length t) /\
  tail d = header base v ++ skipn (Z.to_nat n) t /\ v < 2 ^ 64.
Proof.
  intros D E Hn v d' DL Hv. destruct (read_byte_tail d _ t D E) as (_ & T & D' & _).
  rewrite decode_length_tail in DL by assumption. rewrite T in DL.
  destruct (Z.ltb_spec (Z.of_nat (length t)) n) as [|L]; [discriminate|].
  destruct (Z.eqb_spec (aget t 0) 0) as [|N]; [discriminate|]. injection DL as <- <-.
  pose proof (tail_ok d D) as B. rewrite E in B. apply Forall_inv_tail in B.
  assert (M : min_be (be_val (firstn (Z.to_nat n) t)) = firstn (Z.to_nat n) t).
  { destruct t as [|y t']; [cbn in L; lia|]. destruct (Z.to_nat n) eqn:Z; [lia|]. cbn [firstn] in *.
    apply min_be_be_val; [|exact N]. apply (Forall_firstn _ (S n0) (y :: t')), B. }
  assert (NB : nbytes (be_val (firstn (Z.to_nat n) t)) = n) by (rewrite <- length_min_be, M, firstn_length_le by lia; lia).
  assert (HE : header base (be_val (firstn (Z.to_nat n) t)) = (base + 55 + n) :: firstn (Z.to_nat n) t).
  { unfold header. rewrite (proj2 (Z.ltb_ge _ _)), NB, M by lia. reflexivity. }
  split; [exact HE|]. rewrite advance_add. split; [reflexivity|]. split; [lia|]. split.
  - rewrite HE, E. cbn [app]. rewrite firstn_skipn. reflexivity.
  - pose proof (be_val_range _ (Forall_firstn _ (Z.to_nat n) _ B)) as R. rewrite firstn_length_le, Z2Nat.id in R by lia.
    assert (2 ^ (8 * n) <= 2 ^ 64) by (apply Z.pow_le_mono_r; lia). lia.
Qed.

Lemma ok_inj {A} (d d' : rlp_decoder_t) (v v' : A) c c' : (d, RlpOk v c) = (d', RlpOk v' c') -> d' = d /\ v' = v /\ c' = c.
Proof. intros H. split; [|split]; congruence. Qed.

(** What is accepted is an encoding, and it is consumed. *)
Lemma decode_bytes_sound d d' data c : dec_ok d -> rlp_decode_bytes d = (d', RlpOk data c) ->
  exists rest, tail d = enc_str data ++ rest /\ d' = advance d (Z.of_nat (length (enc_str data))) /\
  c = Z.of_nat (length (enc_str data)).
Proof.
  intros D. unfold rlp_decode_bytes. rewrite has_more_tail by exact D. destruct (tail d) as [|p t] eqn:E; [discriminate|].
  destruct (read_byte_tail d p t D E) as (R & T & D1 & U). cbn [length negb]. rewrite (proj2 (Z.eqb_neq _ _)) by lia. cbn [negb]. rewrite R.
  unfold RLP_SINGLE_BYTE_MAX, RLP_SHORT_STRING_MAX, RLP_LONG_STRING_MAX, RLP_EMPTY_STRING_BYTE, RLP_SMALL_PREFIX_BARRIER, view.
  fold (tail d). rewrite E. pose proof (dec_size _ D1) as SZ. unfold u8 in U.
  destruct (Z.leb_spec p 127) as [P|P].
  { change (firstn (Z.to_nat 1) (p :: t)) with [p]. intros (-> & -> & ->)%ok_inj. exists t.
    rewrite one_byte, (proj2 (Z.leb_le _ _)) by exact P. auto. }
  rewrite remaining_tail, T by exact D1. destruct (Z.leb_spec p 183) as [P1|P1].
  { destruct (Z.ltb_spec (Z.of_nat (length t)) (p - 128)) as [|L]; [discriminate|].
    destruct (andb (p - 128 =? 1) (at_pos (advance d 1) <=? 127)) eqn:NC; [discriminate|].
    fold (tail (advance d 1)). rewrite T, pos_advance by (rewrite ?T; assumption || lia). rewrite advance_add. intros (-> & -> & ->)%ok_inj.
    set (data0 := firstn (Z.to_nat (p - 128)) t). assert (LD : Z.of_nat (length data0) = p - 128) by (unfold data0; rewrite firstn_length_le by lia; lia).
    assert (ND : (p - 128 =? 1) && (aget data0 0 <=? 127) = false).
    { destruct (Z.eqb_spec (p - 128) 1) as [E1|]; [|reflexivity]. rewrite at_pos_tail, T in NC. unfold data0. rewrite E1.
      destruct t; [cbn in L; lia | exact NC]. }
    assert (EN : enc_str data0 = p :: data0).
    { unfold enc_str. rewrite LD, ND. unfold header. rewrite (proj2 (Z.ltb_lt _ _)) by lia.
      replace (128 + (p - 128)) with p by lia. reflexivity. }
    rewrite EN. exists (skipn (Z.to_nat (p - 128)) t). cbn [app length]. unfold data0 at 1. rewrite firstn_skipn.
    split; [reflexivity|]. split; [f_equal|]; lia. }
  destruct (Z.leb_spec p 191) as [P2|P2]; [|discriminate].
  destruct (decode_length (p - 183) (advance d 1)) as [d2 [v k|e]] eqn:DL; [|discriminate].
  destruct (Z.ltb_spec v 56) as [|V]; [discriminate|].
  assert (k = p - 183) as ->.
  { rewrite decode_length_tail in DL by (assumption || lia). destruct (_ <? _); [discriminate|]. destruct (_ =? 0); [discriminate|]. congruence. }
  destruct (long_header d 128 (p - 183) t D) with (v := v) (d' := d2) as (HE & ED & LT & ET & VB); [rewrite E; f_equal; lia | lia | assumption..|].
  assert (TA : 0 <= 1 + (p - 183) <= Z.of_nat (length (tail d))) by (rewrite E; cbn [length]; lia).
  destruct (tail_advance d _ D TA) as [T2 D2]. rewrite <- ED in *. rewrite E in T2.
  replace (Z.to_nat (1 + (p - 183))) with (S (Z.to_nat (p - 183))) in T2 by lia. cbn [skipn] in T2.
  rewrite remaining_tail by exact D2. destruct (Z.ltb_spec (Z.of_nat (length (tail d2))) v) as [|L]; [discriminate|].
  fold (tail d2). rewrite pos_advance by (assumption || lia). rewrite ED at 1. rewrite advance_add. intros (-> & -> & ->)%ok_inj.
  pose proof (dec_size _ D2) as SZ2. pose proof (length_tail d2 D2) as LT2. pose proof (dec_pos _ D2) as PZ2.
  set (data0 := firstn (Z.to_nat v) (tail d2)). assert (LD : Z.of_nat (length data0) = v) by (unfold data0; rewrite firstn_length_le by lia; lia).
  assert (EN : enc_str data0 = header 128 v ++ data0).
  { unfold enc_str. rewrite LD, (proj2 (Z.eqb_neq v 1)) by lia. reflexivity. }
  exists (skipn (Z.to_nat v) (tail d2)). rewrite EN, <- app_assoc. unfold data0 at 1. rewrite firstn_skipn, T2, <- ET, length_app, Nat2Z.inj_add, LD, HE.
  cbn [length]. rewrite Nat2Z.inj_succ, firstn_length_le by lia. split; [symmetry; exact E|].
  unfold add64. rewrite (w64_small (1 + _)), w64_small by (unfold u64; lia). split; [f_equal|]; lia.
Qed.

(** Reading back a header that the input starts with. *)
Lemma decode_header d base len rest : dec_ok d -> 56 <= len < 2 ^ 64 -> tail d = header base len ++ rest ->
  tail d = (base + 55 + nbytes len) :: min_be len ++ rest /\
  decode_length (nbytes len) (advance d 1) = (advance d (1 + nbytes len), RlpOk len (nbytes len)) /\
  tail (advance d (1 + nbytes len)) = rest /\ dec_ok (advance d (1 + nbytes len)).
Proof.
  intros D HL E. pose proof (nbytes_64 len HL) as N. pose proof (length_min_be len) as LM.
  unfold header in E. rewrite (proj2 (Z.ltb_ge _ _)) in E by lia. cbn [app] in E. split; [exact E|].
  destruct (read_byte_tail d _ _ D E) as (_ & T & D' & _). rewrite decode_length_tail, T by assumption.
  rewrite length_app, (proj2 (Z.ltb_ge _ _)) by lia. destruct (min_be_head len ltac:(lia)) as (b & bs & M & NZ & _).
  replace (aget (min_be len ++ rest) 0) with b by (rewrite M; reflexivity). rewrite (proj2 (Z.eqb_neq b 0)) by exact NZ.
  rewrite firstn_past by lia. rewrite be_val_min_be, advance_add by lia. split; [reflexivity|].
  destruct (tail_advance d (1 + nbytes len) D) as [T2 D2]; [rewrite E; cbn [length]; rewrite length_app; lia|].
  split; [|exact D2]. rewrite T2, E. replace (Z.to_nat (1 + nbytes len)) with (S (Z.to_nat (nbytes len))) by lia.
  cbn [skipn]. apply skipn_past. lia.
Qed.

(** Every encoding is accepted. *)
Lemma decode_bytes_complete d data rest : dec_ok d -> tail d = enc_str data ++ rest ->
  rlp_decode_bytes d = (advance d (Z.of_nat (length (enc_str data))), RlpOk data (Z.of_nat (length (enc_str data)))).
Proof.
  intros D E. pose proof (dec_size _ D) as SZ. pose proof (dec_pos _ D) as PZ. pose proof (length_tail d D) as LT.
  unfold rlp_decode_bytes. rewrite has_more_tail by exact D.
  unfold RLP_SINGLE_BYTE_MAX, RLP_SHORT_STRING_MAX, RLP_LONG_STRING_MAX, RLP_EMPTY_STRING_BYTE, RLP_SMALL_PREFIX_BARRIER, view.
  fold (tail d). unfold enc_str in *. set (n := Z.of_nat (length data)) in *.
  destruct (andb (n =? 1) (aget data 0 <=? 127)) eqn:S1.
  - apply andb_true_iff in S1 as [S1%Z.eqb_eq S2]. unfold n in S1. destruct data as [|x [|]]; cbn [length] in S1; try lia.
    cbn [app] in E. rewrite E in *. cbn [length]. rewrite (proj2 (Z.eqb_neq _ _)) by lia. cbn [negb].
    destruct (read_byte_tail d x rest D E) as (-> & _). change (aget [x] 0) with x in S2. rewrite S2. reflexivity.
  - assert (LE : Z.of_nat (length (tail d)) = Z.of_nat (length (header 128 n)) + n + Z.of_nat (length rest))
      by (rewrite E, !length_app; unfold n; lia).
    rewrite length_app, Nat2Z.inj_add. fold n. destruct (Z.ltb_spec n 56) as [Sh|Lo].
    + unfold header in *. rewrite (proj2 (Z.ltb_lt _ _)) in * by lia. cbn [app length] in *.
      rewrite LE, (proj2 (Z.eqb_neq _ _)) by lia. cbn [negb]. assert (0 <= n) by lia.
      destruct (read_byte_tail d _ _ D E) as (-> & T & D1 & _).
      rewrite (proj2 (Z.leb_gt (128 + n) 127)), (proj2 (Z.leb_le (128 + n) 183)) by lia. replace (128 + n - 128) with n by lia.
      rewrite remaining_tail, at_pos_tail, T by exact D1. rewrite length_app, (proj2 (Z.ltb_ge _ _)) by lia.
      assert (NC : (n =? 1) && (aget (data ++ rest) 0 <=? 127) = false).
      { destruct (Z.eqb_spec n 1) as [E1|]; [|reflexivity]. destruct data; [unfold n in E1; cbn in E1; lia | exact S1]. }
      rewrite NC, pos_advance by (rewrite ?T, ?length_app; assumption || lia). fold (tail (advance d 1)). rewrite T, firstn_past by lia.
      rewrite advance_add. reflexivity.
    + assert (n < 2 ^ 63) by (pose proof (length_header 128 n); destruct (Z.lt_ge_cases n (2 ^ 64)); lia).
      rewrite <- app_assoc in E. destruct (decode_header d 128 n (data ++ rest) D ltac:(lia) E) as (E' & DL & T2 & D2).
      pose proof (nbytes_64 n ltac:(lia)) as NB. pose proof (length_min_be n).
      assert (LH : Z.of_nat (length (header 128 n)) = 1 + nbytes n) by (unfold header; rewrite (proj2 (Z.ltb_ge _ _)) by lia; cbn [length]; lia).
      rewrite LE, (proj2 (Z.eqb_neq _ _)) by lia. cbn [negb].
      destruct (read_byte_tail d _ _ D E') as (-> & _).
      rewrite (proj2 (Z.leb_gt _ 127)), (proj2 (Z.leb_gt _ 183)), (proj2 (Z.leb_le _ 191)) by lia.
      replace (128 + 55 + nbytes n - 183) with (nbytes n) by lia. rewrite DL, (proj2 (Z.ltb_ge n 56)) by lia.
      rewrite remaining_tail, T2, length_app, (proj2 (Z.ltb_ge _ _)) by (assumption || lia).
      rewrite pos_advance, advance_add by (rewrite ?T2, ?length_app; assumption || lia).
      fold (tail (advance d (1 + nbytes n))). rewrite T2, firstn_past by lia. unfold add64.
      rewrite (w64_small (1 + _)), w64_small by (unfold u64; lia). rewrite LH. reflexivity.
Qed.

Lemma decode_bytes_iff d data : dec_ok d ->
  (exists d' c, rlp_decode_bytes d = (d', RlpOk data c)) <-> exists rest, tail d = enc_str data ++ rest.
Proof.
  intros D. split; intros H.
  - destruct H as (d' & c & H). destruct (decode_bytes_sound d d' data c D H) as (rest & E & _). eauto.
  - destruct H as (rest & E). eauto using decode_bytes_complete.
Qed.

(** The input is used up as the decoder says. *)
Lemma tail_consumed d x rest : dec_ok d -> tail d = x ++ rest ->
  tail (advance d (Z.of_nat (length x))) = rest /\ dec_ok (advance d (Z.of_nat (length x))).
Proof.
  intros D E. destruct (tail_advance d (Z.of_nat (length x)) D) as [T D']; [rewrite E, length_app; lia|].
  split; [|exact D']. rewrite T, E. apply skipn_past. lia.
Qed.

(** ** Integers *)

Lemma be_u64_spec data : bytes_ok data -> (length data <= 8)%nat -> be_u64 data = be_val data.
Proof.
  intros B L. unfold be_u64, be_val.
  enough (G : forall l acc, bytes_ok l -> 0 <= acc -> acc * 2 ^ (8 * Z.of_nat (length l)) + be_val l < 2 ^ 64 ->
    fold_left (fun value b => Z.lor (value <<64 8) b) l acc = fold_left (fun acc b => acc * 2 ^ 8 + b) l acc).
  { apply G; [assumption | lia|]. pose proof (be_val_range data B). assert (2 ^ (8 * Z.of_nat (length data)) <= 2 ^ 64) by (apply Z.pow_le_mono_r; lia). lia. }
  clear B L data. induction l as [|x l IH]; intros acc B Ha Hv; [reflexivity|]. cbn [fold_left length] in *.
  pose proof (Forall_inv B) as U. pose proof (Forall_inv_tail B) as B'. pose proof (be_val_range l B') as R. rewrite be_val_cons, pow_8_succ in Hv.
  assert (P : 0 < 2 ^ (8 * Z.of_nat (length l))) by (apply Z.pow_pos_nonneg; lia). unfold u8 in U. assert (acc < 2 ^ 56) by nia.
  rewrite shift_or by (unfold u8; lia). apply IH; [exact B' | lia | nia].
Qed.

(** The checks of the integer decoders, on a string they get. *)
Lemma int_checked data k : bytes_ok data -> 0 <= k ->
  (Z.of_nat (length data) =? 0) = false -> (Z.of_nat (length data) >? k) = false ->
  (Z.of_nat (length data) >? 1) && (aget data 0 =? 0) = false ->
  (data = min_be (be_val data) \/ data = [0]) /\ 0 <= be_val data < 2 ^ (8 * k).
Proof.
  intros B Hk L0 Lk Z. split.
  - destruct data as [|x data]; [left; reflexivity|]. destruct (Z.eq_dec x 0) as [->|N].
    + right. destruct data; [reflexivity|]. unfold aget in Z. cbn in Z. destruct (Z.gtb_spec (Z.pos (Pos.succ (Pos.of_succ_nat (length data)))) 1); [discriminate|lia].
    + left. symmetry. apply min_be_be_val; assumption.
  - pose proof (be_val_range data B). assert (2 ^ (8 * Z.of_nat (length data)) <= 2 ^ (8 * k)); [|lia].
    apply Z.pow_le_mono_r; [lia|]. destruct (Z.gtb_spec (Z.of_nat (length data)) k); [discriminate|lia].
Qed.

Lemma int_passes v k : 0 < v < 2 ^ (8 * k) -> 0 <= k ->
  (Z.of_nat (length (min_be v)) =? 0) = false /\ (Z.of_nat (length (min_be v)) >? k) = false /\
  (aget (min_be v) 0 =? 0) = false.
Proof.
  intros H Hk. rewrite length_min_be. pose proof (nbytes_pos v ltac:(lia)). pose proof (nbytes_le v k Hk ltac:(lia)).
  split; [apply Z.eqb_neq; lia|]. split; [destruct (Z.gtb_spec (nbytes v) k); [lia | reflexivity]|].
  destruct (min_be_head v ltac:(lia)) as (b & bs & -> & N & _). apply Z.eqb_neq, N.
Qed.

(** What an accepted integer looks like in the input. *)
Definition int_at (d : rlp_decoder_t) (v : Z) (enc : list Z) : Prop :=
  (enc = enc_int v \/ (v = 0 /\ enc = [0])) /\ exists rest, tail d = enc ++ rest.

Lemma enc_str_ok d data rest : dec_ok d -> tail d = enc_str data ++ rest -> bytes_ok data.
Proof.
  intros D E. pose proof (tail_ok d D) as B. rewrite E in B. apply Forall_app in B as [B _].
  unfold enc_str in B. destruct (_ && _); [exact B|]. apply Forall_app in B as [_ B]. exact B.
Qed.

Lemma enc_int_0 : enc_int 0 = [128].
Proof. reflexivity. Qed.

Lemma decode_u64_complete d v rest : dec_ok d -> u64 v -> tail d = enc_int v ++ rest ->
  rlp_decode_u64 d = (advance d (Z.of_nat (length (enc_int v))), RlpOk v (Z.of_nat (length (enc_int v)))).
Proof.
  intros D U E. unfold rlp_decode_u64. rewrite (decode_bytes_complete d (min_be v) rest D E). fold (enc_int v).
  destruct (Z.eq_dec v 0) as [->|N]; [reflexivity|]. unfold u64 in U.
  destruct (int_passes v 8) as (L0 & L8 & Z); [lia..|]. rewrite L0, L8, Z, andb_false_r.
  rewrite be_u64_spec, be_val_min_be; [reflexivity | lia | apply be_bytes_ok |].
  pose proof (length_min_be v). pose proof (nbytes_le v 8 ltac:(lia) ltac:(lia)). lia.
Qed.

Lemma decode_uint256_complete d v rest : dec_ok d -> wf256 v -> tail d = enc_int (val v) ++ rest ->
  rlp_decode_uint256 d = (advance d (Z.of_nat (length (enc_int (val v)))), RlpOk v (Z.of_nat (length (enc_int (val v))))).
Proof.
  intros D W E. pose proof (val_range v W) as R. unfold rlp_decode_uint256. rewrite (decode_bytes_complete d (min_be (val v)) rest D E). fold (enc_int (val v)).
  pose proof (of_Z256_val v W) as V. destruct (Z.eq_dec (val v) 0) as [Z0|N]; [rewrite Z0 in *; rewrite <- V; reflexivity|].
  destruct (int_passes (val v) 32) as (L0 & L32 & Z); [lia..|]. rewrite L0, L32, Z, andb_false_r.
  rewrite uint256_from_bytes_be_spec, be_val_min_be, V; [reflexivity | lia | apply be_bytes_ok].
Qed.

Lemma decode_address_complete d a rest : dec_ok d -> wf_address a -> tail d = enc_str a ++ rest ->
  rlp_decode_address d = (advance d (Z.of_nat (length (enc_str a))), RlpOk a (Z.of_nat (length (enc_str a)))).
Proof.
  intros D [L _] E. unfold rlp_decode_address. rewrite (decode_bytes_complete d a rest D E), L. cbn [negb Nat.eqb].
  rewrite firstn_all2 by (rewrite L; lia). reflexivity.
Qed.

Lemma decode_u64_sound d d' v c : dec_ok d -> rlp_decode_u64 d = (d', RlpOk v c) ->
  u64 v /\ exists enc, int_at d v enc /\ d' = advance d c /\ c = Z.of_nat (length enc).
Proof.
  intros D. unfold rlp_decode_u64. destruct (rlp_decode_bytes d) as [d1 [data k|e]] eqn:E; [|discriminate].
  destruct (decode_bytes_sound d d1 data k D E) as (rest & T & -> & ->). pose proof (enc_str_ok d data rest D T) as B.
  destruct (Z.of_nat (length data) =? 0) eqn:L0.
  - intros (-> & -> & ->)%ok_inj. split; [split; reflexivity || lia|]. exists (enc_str data). destruct data; [|apply Z.eqb_eq in L0; cbn in L0; lia].
    split; [|auto]. split; [left; reflexivity | eauto].
  - destruct (Z.of_nat (length data) >? 8) eqn:L8; [discriminate|]. destruct (_ && _) eqn:Z; [discriminate|].
    destruct (int_checked data 8 B ltac:(lia) L0 L8 Z) as [M R]. rewrite be_u64_spec; [|exact B|destruct (Z.gtb_spec (Z.of_nat (length data)) 8); [discriminate|lia]].
    intros (-> & -> & ->)%ok_inj. split; [unfold u64; lia|]. exists (enc_str data). split; [|auto].
    split; [|eauto]. destruct M as [M | ->]; [left; unfold enc_int; rewrite <- M; reflexivity | right; split; reflexivity].
Qed.

Lemma decode_uint256_sound d d' v c : dec_ok d -> rlp_decode_uint256 d = (d', RlpOk v c) ->
  wf256 v /\ exists enc, int_at d (val v) enc /\ d' = advance d c /\ c = Z.of_nat (length enc).
Proof.
  intros D. unfold rlp_decode_uint256. destruct (rlp_decode_bytes d) as [d1 [data k|e]] eqn:E; [|discriminate].
  destruct (decode_bytes_sound d d1 data k D E) as (rest & T & -> & ->). pose proof (enc_str_ok d data rest D T) as B.
  destruct (Z.of_nat (length data) =? 0) eqn:L0.
  - intros (-> & -> & ->)%ok_inj. split; [apply (wf_of_Z256 0)|]. exists (enc_str data). destruct data; [|apply Z.eqb_eq in L0; cbn in L0; lia].
    split; [|auto]. split; [left; reflexivity | eauto].
  - destruct (Z.of_nat (length data) >? 32) eqn:L8; [discriminate|]. destruct (_ && _) eqn:Z; [discriminate|].
    destruct (int_checked data 32 B ltac:(lia) L0 L8 Z) as [M R]. rewrite uint256_from_bytes_be_spec by exact B.
    intros (-> & -> & ->)%ok_inj. split; [apply wf_of_Z256|]. exists (enc_str data). split; [|auto]. rewrite val_of_Z256, Z.mod_small by lia.
    split; [|eauto]. destruct M as [M | ->]; [left; unfold enc_int; rewrite <- M; reflexivity | right; split; reflexivity].
Qed.

Lemma decode_address_sound d d' a c : dec_ok d -> rlp_decode_address d = (d', RlpOk a c) ->
  wf_address a /\ (exists rest, tail d = enc_str a ++ rest) /\ d' = advance d c /\ c = Z.of_nat (length (enc_str a)).
Proof.
  intros D. unfold rlp_decode_address. destruct (rlp_decode_bytes d) as [d1 [data k|e]] eqn:E; [|discriminate].
  destruct (decode_bytes_sound d d1 data k D E) as (rest & T & -> & ->). pose proof (enc_str_ok d data rest D T) as B.
  destruct (Nat.eqb_spec (length data) ADDRESS_SIZE) as [L|]; [|discriminate]. cbn [negb]. rewrite firstn_all2 by lia.
  intros (-> & -> & ->)%ok_inj. repeat split; eauto.
Qed.

(** ** List headers *)

Lemma decode_list_header_complete d len rest : dec_ok d -> 0 <= len < 2 ^ 64 -> tail d = header 192 len ++ rest ->
  rlp_decode_list_header d = (advance d (Z.of_nat (length (header 192 len))), RlpOk len (Z.of_nat (length (header 192 len)))).
Proof.
  intros D HL E. unfold rlp_decode_list_header. rewrite has_more_tail by exact D.
  unfold RLP_LONG_STRING_MAX, RLP_SHORT_LIST_MAX, RLP_EMPTY_LIST_BYTE, RLP_SMALL_PREFIX_BARRIER.
  pose proof (length_header 192 len HL) as LH.
  assert ((Z.of_nat (length (tail d)) =? 0) = false) as -> by (apply Z.eqb_neq; rewrite E, length_app; lia). cbn [negb].
  destruct (Z.ltb_spec len 56) as [S|L].
  - unfold header in *. rewrite (proj2 (Z.ltb_lt _ _)) in * by lia. cbn [app length] in *.
    destruct (read_byte_tail d _ _ D E) as (-> & _). rewrite (proj2 (Z.leb_gt _ 191)), (proj2 (Z.leb_le _ 247)) by lia.
    replace (192 + len - 192) with len by lia. reflexivity.
  - destruct (decode_header d 192 len rest D ltac:(lia) E) as (E' & DL & _). pose proof (nbytes_64 len ltac:(lia)).
    destruct (read_byte_tail d _ _ D E') as (-> & _). rewrite (proj2 (Z.leb_gt _ 191)), (proj2 (Z.leb_gt _ 247)) by lia.
    replace (192 + 55 + nbytes len - 247) with (nbytes len) by lia. rewrite DL, (proj2 (Z.ltb_ge _ _)) by lia.
    assert (Z.of_nat (length (header 192 len)) = 1 + nbytes len) as ->; [|reflexivity].
    unfold header. rewrite (proj2 (Z.ltb_ge _ _)) by lia. cbn [length]. pose proof (length_min_be len). lia.
Qed.

Lemma decode_list_header_sound d d' len c : dec_ok d -> rlp_decode_list_header d = (d', RlpOk len c) ->
  0 <= len < 2 ^ 64 /\ (exists rest, tail d = header 192 len ++ rest) /\ d' = advance d c /\ c = Z.of_nat (length (header 192 len)).
Proof.
  intros D. unfold rlp_decode_list_header. rewrite has_more_tail by exact D. destruct (tail d) as [|p t] eqn:E; [discriminate|].
  destruct (read_byte_tail d p t D E) as (R & T & D1 & U). cbn [length]. rewrite (proj2 (Z.eqb_neq _ _)) by lia. cbn [negb]. rewrite R.
  unfold RLP_LONG_STRING_MAX, RLP_SHORT_LIST_MAX, RLP_EMPTY_LIST_BYTE, RLP_SMALL_PREFIX_BARRIER. unfold u8 in U.
  destruct (Z.leb_spec p 191) as [|P]; [discriminate|]. destruct (Z.leb_spec p 247) as [S|L].
  - intros (-> & -> & ->)%ok_inj. split; [lia|]. unfold header. rewrite (proj2 (Z.ltb_lt _ _)) by lia.
    replace (192 + (p - 192)) with p by lia. split; [exists t; reflexivity | split; reflexivity].
  - destruct (decode_length (p - 247) (advance d 1)) as [d2 [v k|e]] eqn:DL; [|discriminate].
    destruct (Z.ltb_spec v 56) as [|V]; [discriminate|].
    assert (k = p - 247) as ->.
    { rewrite decode_length_tail in DL by (assumption || lia). destruct (_ <? _); [discriminate|]. destruct (_ =? 0); [discriminate|]. congruence. }
    destruct (long_header d 192 (p - 247) t D) with (v := v) (d' := d2) as (HE & ED & LT & ET & VB); [rewrite E; f_equal; lia | lia | assumption..|].
    intros (-> & -> & ->)%ok_inj. split; [lia|]. rewrite <- E. split; [eauto|]. split; [exact ED|].
    rewrite HE. cbn [length]. rewrite Nat2Z.inj_succ, firstn_length_le by lia. lia.
Qed.

(** ** In sequence

    [consumes f d enc v rest]: at [d], the decoder [f] reads [enc] as [v] and
    leaves [rest]. *)
Definition consumes {A} (f : decodes A) (d : rlp_decoder_t) (enc : list Z) (v : A) (rest : list Z) : Prop :=
  exists d', f d = (d', RlpOk v (Z.of_nat (length enc))) /\ d' = advance d (Z.of_nat (length enc)) /\ dec_ok d' /\ tail d' = rest.

Section Next.
Context (d : rlp_decoder_t) (rest : list Z) (D : dec_ok d).

Lemma next_u64 v : u64 v -> tail d = enc_int v ++ rest -> consumes rlp_decode_u64 d (enc_int v) v rest.
Proof. intros U E. destruct (tail_consumed d _ _ D E). eexists. split; [apply (decode_u64_complete d v rest); assumption | auto]. Qed.

Lemma next_uint256 v : wf256 v -> tail d = enc_int (val v) ++ rest -> consumes rlp_decode_uint256 d (enc_int (val v)) v rest.
Proof. intros U E. destruct (tail_consumed d _ _ D E). eexists. split; [apply (decode_uint256_complete d v rest); assumption | auto]. Qed.

Lemma next_address a : wf_address a -> tail d = enc_str a ++ rest -> consumes rlp_decode_address d (enc_str a) a rest.
Proof. intros U E. destruct (tail_consumed d _ _ D E). eexists. split; [apply (decode_address_complete d a rest); assumption | auto]. Qed.

Lemma next_bytes data : tail d = enc_str data ++ rest -> consumes rlp_decode_bytes d (enc_str data) data rest.
Proof. intros E. destruct (tail_consumed d _ _ D E). eexists. split; [apply (decode_bytes_complete d data rest); assumption | auto]. Qed.

Lemma next_header len : 0 <= len < 2 ^ 64 -> tail d = header 192 len ++ rest -> consumes rlp_decode_list_header d (header 192 len) len rest.
Proof. intros H E. destruct (tail_consumed d _ _ D E). eexists. split; [apply (decode_list_header_complete d len rest); assumption | auto]. Qed.
End Next.

Lemma dec_ok_init l : bytes_ok l -> Z.of_nat (length l) < 2 ^ 63 -> dec_ok (rlp_decoder_init l) /\ tail (rlp_decoder_init l) = l.
Proof. intros B L. split; [|reflexivity]. split; [cbn; unfold d_size; cbn; lia | exact L | exact B]. Qed.

Lemma decoder_remaining_tail d : dec_ok d -> rlp_decoder_remaining d = Z.of_nat (length (tail d)).
Proof.
  intros D. rewrite length_tail by exact D. destruct D as [P S _]. unfold rlp_decoder_remaining, sub64.
  rewrite w64_small by (unfold u64; lia). reflexivity.
Qed.

Lemma bytes_ok_enc_str d : bytes_ok d -> Z.of_nat (length d) < 2 ^ 63 -> bytes_ok (enc_str d).
Proof.
  intros B L. unfold enc_str. destruct (_ && _); [exact B|]. apply Forall_app. split; [|exact B]. apply bytes_ok_header; [lia | auto].
Qed.

Lemma bytes_ok_enc_int v n : 0 <= n <= 32 -> 0 <= v < 2 ^ (8 * n) -> bytes_ok (enc_int v).
Proof.
  intros Hn Hv. apply bytes_ok_enc_str; [apply be_bytes_ok|]. rewrite length_min_be. pose proof (nbytes_le v n ltac:(lia) Hv). lia.
Qed.

Lemma bytes_ok_enc_u64 v : u64 v -> bytes_ok (enc_int v).
Proof. apply (bytes_ok_enc_int v 8). lia. Qed.

Lemma bytes_ok_enc_256 v : wf256 v -> bytes_ok (enc_int (val v)).
Proof. intros H. apply (bytes_ok_enc_int _ 32); [lia | apply val_range, H]. Qed.

Lemma bytes_ok_enc_hash h : wf_hash h -> bytes_ok (enc_str h).
Proof. intros [L B]. apply bytes_ok_enc_str; [exact B | rewrite L; reflexivity]. Qed.

Lemma bytes_ok_enc_address a : wf_address a -> bytes_ok (enc_str a).
Proof. intros [L B]. apply bytes_ok_enc_str; [exact B | rewrite L; reflexivity]. Qed.

Lemma bytes_ok_enc_list p : bytes_ok p -> Z.of_nat (length p) < 2 ^ 63 -> bytes_ok (enc_list p).
Proof. intros B L. apply Forall_app. split; [apply bytes_ok_header; [lia | auto] | exact B]. Qed.

Lemma bytes_ok_app a b : bytes_ok a -> bytes_ok b -> bytes_ok (a ++ b).
Proof. intros A B. apply Forall_app. auto. Qed.

(** Take the next item: [next H] with [H] one of the lemmas above. *)
Ltac next H :=
  let E := fresh "E" in let E2 := fresh "E" in let D := fresh "D" in let T := fresh "T" in let dd := fresh "d" in
  destruct H as (dd & E & E2 & D & T); rewrite E; cbv iota beta zeta.

(** ** Items *)

Inductive item := Str (d : list Z) | Lst (l : list item).

Fixpoint enc (i : item) : list Z :=
  match i with
  | Str d => enc_str d
  | Lst l => enc_list (concat (map enc l))
  end.

Lemma skip_length_tail n d acc : dec_ok d -> (n <= length (tail d))%nat -> skip_length n d acc = read_length n d acc.
Proof.
  revert d acc; induction n as [|n IH]; intros d acc D Hn; [reflexivity|]. cbn [skip_length read_length].
  destruct (tail d) as [|x t] eqn:E; [cbn in Hn; lia|]. destruct (read_byte_tail d x t D E) as (R & T & D' & _).
  pose proof (length_tail d D) as L. rewrite E in L. cbn [length] in L. rewrite (proj2 (Z.ltb_lt _ _)) by lia. rewrite R.
  unfold read_byte in R. assert (set_pos d (d_pos d +64 1) = advance d 1) as -> by congruence. assert (at_pos d = x) as -> by congruence.
  apply IH; [exact D' | rewrite T; cbn in Hn; lia].
Qed.

Lemma clamp_advance d n m : dec_ok d -> 0 <= m -> 0 <= n -> m + n <= Z.of_nat (length (tail d)) ->
  clamp_pos (advance d m) (d_pos (advance d m) +64 n) = advance d (m + n).
Proof.
  intros D Hm Hn H. rewrite length_tail in H by exact D. destruct D as [P S _].
  unfold clamp_pos, advance, set_pos, add64, d_size in *; cbn [d_pos d_input] in *. rewrite w64_small by (unfold u64; lia).
  f_equal. destruct (Z.ltb_spec (d_pos d + m + n) (Z.of_nat (length (d_input d)))); lia.
Qed.

Lemma advance_0 d : advance d 0 = d.
Proof. destruct d. unfold advance, set_pos; cbn. f_equal. lia. Qed.

(** A header and its payload are skipped. *)
Lemma skip_header d base p rest : dec_ok d -> base = 128 \/ base = 192 -> tail d = header base (Z.of_nat (length p)) ++ p ++ rest ->
  rlp_skip_item d = advance d (Z.of_nat (length (header base (Z.of_nat (length p)) ++ p))).
Proof.
  intros D HB E. pose proof (length_tail d D) as LT. pose proof (dec_pos _ D) as PZ. pose proof (dec_size _ D) as SZ.
  assert (LE : Z.of_nat (length (tail d)) = Z.of_nat (length (header base (Z.of_nat (length p)))) + Z.of_nat (length p) + Z.of_nat (length rest))
    by (rewrite E, !length_app; lia).
  rewrite length_app, Nat2Z.inj_add. set (n := Z.of_nat (length p)) in *. assert (0 <= n < 2 ^ 63) by lia.
  pose proof (length_header base n ltac:(lia)) as LH.
  unfold rlp_skip_item. rewrite has_more_tail, at_pos_tail, (proj2 (Z.eqb_neq _ _)) by (exact D || lia). cbn [negb].
  unfold RLP_SINGLE_BYTE_MAX, RLP_SHORT_STRING_MAX, RLP_LONG_STRING_MAX, RLP_EMPTY_STRING_BYTE, RLP_SHORT_LIST_MAX, RLP_EMPTY_LIST_BYTE.
  destruct (Z.ltb_spec n 56) as [S|L].
  - assert (HN : header base n = [base + n]) by (unfold header; rewrite (proj2 (Z.ltb_lt _ _)) by lia; reflexivity).
    rewrite HN in *. cbn [length] in *. replace (aget (tail d) 0) with (base + n) by (rewrite E; reflexivity).
    assert (P1 : set_pos d (d_pos d +64 1) = advance d 1) by (apply pos_advance; [exact D | lia]).
    assert (P2 : d_pos d +64 1 = d_pos (advance d 1)) by (rewrite <- P1; reflexivity).
    assert (K : clamp_pos d ((d_pos d +64 1) +64 n) = advance d (1 + n)) by (rewrite P2; apply (clamp_advance d n 1); [exact D | lia..]).
    destruct HB as [-> | ->].
    + rewrite (proj2 (Z.leb_gt _ 127)), (proj2 (Z.leb_le _ 183)) by lia. replace (128 + n - 128) with n by lia. exact K.
    + rewrite (proj2 (Z.leb_gt _ 127)), (proj2 (Z.leb_gt _ 183)), (proj2 (Z.leb_gt _ 191)), (proj2 (Z.leb_le _ 247)) by lia.
      replace (192 + n - 192) with n by lia. exact K.
  - destruct (decode_header d base n (p ++ rest) D ltac:(lia) E) as (E' & DL & T2 & D2). pose proof (nbytes_64 n ltac:(lia)) as NB.
    pose proof (length_min_be n) as LM. destruct (read_byte_tail d _ _ D E') as (R & T1 & D1 & _).
    assert (HL : Z.of_nat (length (header base n)) = 1 + nbytes n) by (unfold header; rewrite (proj2 (Z.ltb_ge _ _)) by lia; cbn [length]; lia).
    assert (K : skip_long (nbytes n) d = advance d (1 + nbytes n + n)).
    { unfold skip_long. rewrite pos_advance by (exact D || lia). rewrite skip_length_tail by (rewrite ?T1, ?length_app; assumption || lia).
      rewrite read_length_tail; rewrite ?T1, ?firstn_past, ?be_val_min_be, ?length_app by lia; [| assumption | lia | lia | lia].
      rewrite Z2Nat.id, advance_add, Z.mul_0_l, Z.add_0_l by lia. apply clamp_advance; [exact D | lia..]. }
    replace (aget (tail d) 0) with (base + 55 + nbytes n) by (rewrite E'; reflexivity). rewrite HL, <- K.
    destruct HB as [-> | ->].
    + rewrite (proj2 (Z.leb_gt _ 127)), (proj2 (Z.leb_gt _ 183)), (proj2 (Z.leb_le _ 191)) by lia. f_equal; lia.
    + rewrite (proj2 (Z.leb_gt _ 127)), (proj2 (Z.leb_gt _ 183)), (proj2 (Z.leb_gt _ 191)), (proj2 (Z.leb_gt _ 247)) by lia. f_equal; lia.
Qed.

Lemma skip_item d i rest : dec_ok d -> tail d = enc i ++ rest -> rlp_skip_item d = advance d (Z.of_nat (length (enc i))).
Proof.
  intros D E. destruct i as [s|l]; cbn [enc] in *.
  - unfold enc_str in *. destruct (andb (Z.of_nat (length s) =? 1) (aget s 0 <=? 127)) eqn:S1.
    + apply andb_true_iff in S1 as [S1%Z.eqb_eq S2]. destruct s as [|x [|]]; cbn [length] in S1; try lia.
      unfold rlp_skip_item. rewrite has_more_tail, at_pos_tail, E by exact D. cbn [app length]. rewrite (proj2 (Z.eqb_neq _ _)) by lia.
      cbn [negb]. change (aget (x :: rest) 0) with (aget [x] 0). unfold RLP_SINGLE_BYTE_MAX. rewrite S2.
      apply pos_advance; [exact D | rewrite E; cbn [app length]; lia].
    + rewrite <- app_assoc in E. apply (skip_header d 128 s rest); auto.
  - unfold enc_list in *. rewrite <- app_assoc in E. apply (skip_header d 192 _ rest); auto.
Qed.

Create HintDb rlp.
#[export] Hint Resolve bytes_ok_enc_u64 bytes_ok_enc_256 bytes_ok_enc_hash bytes_ok_enc_address bytes_ok_app : rlp.
