(* ===== verification/Account.v ===== *)
(** Accounts: include/div0/state/account.h and src/state/account.c. *)
From Stdlib Require Import ZArith Lia List Bool.
From S2P Require Import Prelude Uint256 Types Arena Bytes Rlp RlpSpec.
Import ListNotations.
#[local] Open Scope Z_scope.
#[local] Open Scope word_scope.

Definition EMPTY_CODE_HASH : hash_t :=
  [197; 210; 70; 1; 134; 247; 35; 60; 146; 126; 125; 178; 220; 199; 3; 192;
   229; 0; 182; 83; 202; 130; 39; 59; 123; 250; 216; 4; 93; 133; 164; 112].

(** src/trie/node.c: the root of an empty trie. *)
Definition MPT_EMPTY_ROOT : hash_t :=
  [86; 232; 31; 23; 27; 204; 85; 166; 255; 131; 69; 230; 146; 192; 248; 110;
   91; 72; 224; 27; 153; 108; 173; 192; 1; 98; 47; 181; 227; 99; 180; 33].

Record account_t := Account { acc_nonce : Z; acc_balance : uint256_t; acc_storage_root : hash_t; acc_code_hash : hash_t }.

Definition account_empty : account_t := Account 0 uint256_zero MPT_EMPTY_ROOT EMPTY_CODE_HASH.

Definition account_is_empty (acc : account_t) : bool :=
  if negb (acc_nonce acc =? 0) then false
  else if negb (uint256_is_zero (acc_balance acc)) then false
  else hash_equal (acc_code_hash acc) EMPTY_CODE_HASH.

Definition account_rlp_encode (acc : account_t) : option bytes_t :=
  let result := reserve bytes_init_arena 128 in
  let '(builder, result) := rlp_list_start result in
  let result := rlp_list_append result (rlp_encode_u64 (acc_nonce acc)) in
  let result := rlp_list_append result (rlp_encode_uint256 (acc_balance acc)) in
  let result := rlp_list_append result (rlp_encode_bytes (acc_storage_root acc)) in
  let result := rlp_list_append result (rlp_encode_bytes (acc_code_hash acc)) in
  rlp_list_end builder result.

Definition account_rlp_decode (data : list Z) : option account_t :=
  if (length data =? 0)%nat then None
  else
    match rlp_decode_list_header (rlp_decoder_init data) with
    | (_, RlpErr _) => None
    | (d, RlpOk payload_length _) =>
        if negb (payload_length =? rlp_decoder_remaining d) then None
        else
          match rlp_decode_u64 d with
          | (_, RlpErr _) => None
          | (d, RlpOk nonce _) =>
              match rlp_decode_uint256 d with
              | (_, RlpErr _) => None
              | (d, RlpOk balance _) =>
                  match rlp_decode_bytes d with
                  | (_, RlpErr _) => None
                  | (d, RlpOk storage_root _) =>
                      if negb (length storage_root =? HASH_SIZE)%nat then None
                      else
                        match rlp_decode_bytes d with
                        | (_, RlpErr _) => None
                        | (d, RlpOk code_hash _) =>
                            if negb (length code_hash =? HASH_SIZE)%nat then None
                            else if rlp_decoder_has_more d then None
                            else Some (Account nonce balance storage_root code_hash)
                        end
                  end
              end
          end
    end.

(** * Correctness *)

Record account_ok (a : account_t) : Prop := {
  ok_nonce : u64 (acc_nonce a);
  ok_balance : wf256 (acc_balance a);
  ok_storage_root : wf_hash (acc_storage_root a);
  ok_code_hash : wf_hash (acc_code_hash a) }.

Definition account_payload (a : account_t) : list Z :=
  enc_int (acc_nonce a) ++ enc_int (val (acc_balance a)) ++ enc_str (acc_storage_root a) ++ enc_str (acc_code_hash a).

Lemma wf_empty_root : wf_hash MPT_EMPTY_ROOT.
Proof. split; [reflexivity|]. repeat (apply Forall_cons; [split; [lia | reflexivity]|]). apply Forall_nil. Qed.

Lemma wf_empty_code : wf_hash EMPTY_CODE_HASH.
Proof. split; [reflexivity|]. repeat (apply Forall_cons; [split; [lia | reflexivity]|]). apply Forall_nil. Qed.

Lemma account_empty_ok : account_ok account_empty.
Proof. split; [split; lia || reflexivity | apply (wf_of_Z256 0) | apply wf_empty_root | apply wf_empty_code]. Qed.

Lemma length_payload a : account_ok a -> 68 <= Z.of_nat (length (account_payload a)) <= 108.
Proof.
  intros [N B S C]. unfold account_payload. rewrite !length_app, !length_enc_hash by assumption.
  pose proof (length_enc_u64 _ N). pose proof (length_enc_256 _ B). lia.
Qed.

Lemma account_encode_spec a : account_ok a -> account_rlp_encode a = Some (filled (enc_list (account_payload a)) 128).
Proof.
  intros A. pose proof (length_payload a A) as LP. destruct A as [N B S C]. unfold account_rlp_encode.
  rewrite reserve_fresh by (unfold DIV0_ARENA_BLOCK_SIZE; lia). change (Bytes [] 128 true) with (filled [] 128).
  rewrite rlp_list_start_spec by (unfold DIV0_ARENA_BLOCK_SIZE; cbn [length]; lia). cbv iota beta. unfold rlp_list_append.
  rewrite rlp_encode_u64_spec, rlp_encode_uint256_spec, !rlp_encode_hash_spec by assumption.
  unfold account_payload in *. rewrite !length_app in LP. pose proof (length_enc_u64 _ N). pose proof (length_enc_256 _ B).
  rewrite !append_filled by (unfold DIV0_ARENA_BLOCK_SIZE; rewrite ?length_app; change (length reserved) with 9%nat; cbn [length]; lia).
  rewrite <- !app_assoc. cbn [app]. apply (rlp_list_end_spec []). unfold DIV0_ARENA_BLOCK_SIZE. rewrite !length_app. change (length reserved) with 9%nat. cbn [length]. lia.
Qed.

Lemma account_decode_encode a : account_ok a -> account_rlp_decode (enc_list (account_payload a)) = Some a.
Proof.
  intros A. pose proof (length_payload a A) as LP. destruct A as [N B S C].
  assert (BP : bytes_ok (enc_list (account_payload a))).
  { apply bytes_ok_enc_list; [|lia]. unfold account_payload. auto 6 with rlp. }
  pose proof (length_header 192 (Z.of_nat (length (account_payload a))) ltac:(lia)) as LH.
  assert (LE : Z.of_nat (length (enc_list (account_payload a))) < 2 ^ 63) by (unfold enc_list; rewrite length_app; lia).
  destruct (dec_ok_init _ BP LE) as [D0 T0]. unfold account_rlp_decode.
  destruct (Nat.eqb_spec (length (enc_list (account_payload a))) 0) as [Z|_]; [unfold enc_list in Z; rewrite length_app in Z; lia|].
  next (next_header _ _ D0 (Z.of_nat (length (account_payload a))) ltac:(lia) T0).
  rewrite decoder_remaining_tail, T, Z.eqb_refl by assumption. cbn [negb]. unfold account_payload in T.
  next (next_u64 _ _ D _ N T). next (next_uint256 _ _ D1 _ B T1). next (next_bytes _ _ D2 _ T2).
  destruct S as [SL _]. rewrite SL. cbn [Nat.eqb negb].
  rewrite <- (app_nil_r (enc_str (acc_code_hash a))) in T3. next (next_bytes _ _ D3 _ T3).
  destruct C as [CL _]. rewrite CL. cbn [Nat.eqb negb]. rewrite has_more_tail, T4 by assumption. destruct a; reflexivity.
Qed.
