(* ===== verification/Transaction.v ===== *)
(** Transactions: include/div0/ethereum/transaction/*.h.

    The five transaction formats as records, their tagged union as an
    inductive type, and the accessors. A recipient pointer is an option, an
    arena-allocated array a list, and the [data] bytes their contents. *)
From Stdlib Require Import ZArith Lia List Bool.
From S2P Require Import Prelude Uint256 Types.
Import ListNotations.
#[local] Open Scope Z_scope.
#[local] Open Scope word_scope.

(** * access_list.h, authorization.h *)

Record access_list_entry_t := AccessEntry { ent_address : address_t; ent_keys : list uint256_t }.
Definition access_list_t : Type := list access_list_entry_t.

Definition access_list_init : access_list_t := [].

(** The loop of [access_list_total_keys]. *)
Definition access_list_total_keys (l : access_list_t) : Z :=
  fold_left (fun total e => total +64 Z.of_nat (length (ent_keys e))) l 0.

Record authorization_t := Authorization {
  auth_chain_id : Z; auth_address : address_t; auth_nonce : Z; auth_y_parity : Z; auth_r : uint256_t; auth_s : uint256_t }.
Definition authorization_list_t : Type := list authorization_t.

Definition authorization_list_init : authorization_list_t := [].
Definition authorization_recovery_id (a : authorization_t) : Z := auth_y_parity a.

(** * legacy_tx.h *)

Record legacy_tx_t := LegacyTx {
  leg_nonce : Z; leg_gas_price : uint256_t; leg_gas_limit : Z; leg_to : option address_t;
  leg_value : uint256_t; leg_data : list Z; leg_v : Z; leg_r : uint256_t; leg_s : uint256_t }.

Definition legacy_tx_init : legacy_tx_t := LegacyTx 0 uint256_zero 0 None uint256_zero [] 0 uint256_zero uint256_zero.

Definition legacy_tx_chain_id (tx : legacy_tx_t) : option Z :=
  if (leg_v tx =? 27) || (leg_v tx =? 28) then None
  else if leg_v tx >=? 35 then Some ((leg_v tx -64 35) / 2) else None.

Definition legacy_tx_recovery_id (tx : legacy_tx_t) : Z :=
  if (leg_v tx =? 27) || (leg_v tx =? 28) then leg_v tx -64 27 else (leg_v tx -64 35) mod 2.

Definition is_null {A} (p : option A) : bool := match p with None => true | Some _ => false end.

Definition legacy_tx_is_create (tx : legacy_tx_t) : bool := is_null (leg_to tx).

(** * eip2930_tx.h *)

Record eip2930_tx_t := Eip2930Tx {
  t1_chain_id : Z; t1_nonce : Z; t1_gas_price : uint256_t; t1_gas_limit : Z; t1_to : option address_t;
  t1_value : uint256_t; t1_data : list Z; t1_access_list : access_list_t; t1_y_parity : Z; t1_r : uint256_t; t1_s : uint256_t }.

Definition eip2930_tx_init : eip2930_tx_t :=
  Eip2930Tx 0 0 uint256_zero 0 None uint256_zero [] access_list_init 0 uint256_zero uint256_zero.
Definition eip2930_tx_recovery_id (tx : eip2930_tx_t) : Z := t1_y_parity tx.
Definition eip2930_tx_is_create (tx : eip2930_tx_t) : bool := is_null (t1_to tx).

(** * eip1559_tx.h *)

Record eip1559_tx_t := Eip1559Tx {
  t2_chain_id : Z; t2_nonce : Z; t2_max_priority_fee_per_gas : uint256_t; t2_max_fee_per_gas : uint256_t; t2_gas_limit : Z;
  t2_to : option address_t; t2_value : uint256_t; t2_data : list Z; t2_access_list : access_list_t; t2_y_parity : Z;
  t2_r : uint256_t; t2_s : uint256_t }.

Definition eip1559_tx_init : eip1559_tx_t :=
  Eip1559Tx 0 0 uint256_zero uint256_zero 0 None uint256_zero [] access_list_init 0 uint256_zero uint256_zero.
Definition eip1559_tx_recovery_id (tx : eip1559_tx_t) : Z := t2_y_parity tx.
Definition eip1559_tx_is_create (tx : eip1559_tx_t) : bool := is_null (t2_to tx).

Definition eip1559_tx_effective_gas_price (tx : eip1559_tx_t) (base_fee : uint256_t) : uint256_t :=
  let priority_price := uint256_add base_fee (t2_max_priority_fee_per_gas tx) in
  if uint256_lt (t2_max_fee_per_gas tx) priority_price then t2_max_fee_per_gas tx else priority_price.

(** * eip4844_tx.h *)

Definition GAS_PER_BLOB : Z := 131072.

Record eip4844_tx_t := Eip4844Tx {
  t3_chain_id : Z; t3_nonce : Z; t3_max_priority_fee_per_gas : uint256_t; t3_max_fee_per_gas : uint256_t; t3_gas_limit : Z;
  t3_to : address_t; t3_value : uint256_t; t3_data : list Z; t3_access_list : access_list_t;
  t3_max_fee_per_blob_gas : uint256_t; t3_blob_versioned_hashes : list hash_t; t3_y_parity : Z; t3_r : uint256_t; t3_s : uint256_t }.

Definition eip4844_tx_init : eip4844_tx_t :=
  Eip4844Tx 0 0 uint256_zero uint256_zero 0 address_zero uint256_zero [] access_list_init uint256_zero [] 0 uint256_zero uint256_zero.
Definition eip4844_tx_recovery_id (tx : eip4844_tx_t) : Z := t3_y_parity tx.
Definition eip4844_tx_blob_gas (tx : eip4844_tx_t) : Z := Z.of_nat (length (t3_blob_versioned_hashes tx)) *64 GAS_PER_BLOB.

Definition eip4844_tx_effective_gas_price (tx : eip4844_tx_t) (base_fee : uint256_t) : uint256_t :=
  let priority_price := uint256_add base_fee (t3_max_priority_fee_per_gas tx) in
  if uint256_lt (t3_max_fee_per_gas tx) priority_price then t3_max_fee_per_gas tx else priority_price.

(** * eip7702_tx.h *)

Record eip7702_tx_t := Eip7702Tx {
  t4_chain_id : Z; t4_nonce : Z; t4_max_priority_fee_per_gas : uint256_t; t4_max_fee_per_gas : uint256_t; t4_gas_limit : Z;
  t4_to : address_t; t4_value : uint256_t; t4_data : list Z; t4_access_list : access_list_t;
  t4_authorization_list : authorization_list_t; t4_y_parity : Z; t4_r : uint256_t; t4_s : uint256_t }.

Definition eip7702_tx_init : eip7702_tx_t :=
  Eip7702Tx 0 0 uint256_zero uint256_zero 0 address_zero uint256_zero [] access_list_init authorization_list_init 0 uint256_zero uint256_zero.
Definition eip7702_tx_recovery_id (tx : eip7702_tx_t) : Z := t4_y_parity tx.

Definition eip7702_tx_effective_gas_price (tx : eip7702_tx_t) (base_fee : uint256_t) : uint256_t :=
  let priority_price := uint256_add base_fee (t4_max_priority_fee_per_gas tx) in
  if uint256_lt (t4_max_fee_per_gas tx) priority_price then t4_max_fee_per_gas tx else priority_price.

(** * transaction.h *)

Inductive transaction_t :=
| TX_LEGACY (tx : legacy_tx_t)
| TX_EIP2930 (tx : eip2930_tx_t)
| TX_EIP1559 (tx : eip1559_tx_t)
| TX_EIP4844 (tx : eip4844_tx_t)
| TX_EIP7702 (tx : eip7702_tx_t).

(** The values of [tx_type_t]. *)
Definition tx_type (tx : transaction_t) : Z :=
  match tx with TX_LEGACY _ => 0 | TX_EIP2930 _ => 1 | TX_EIP1559 _ => 2 | TX_EIP4844 _ => 3 | TX_EIP7702 _ => 4 end.

Definition transaction_init : transaction_t := TX_LEGACY legacy_tx_init.

Definition transaction_nonce (tx : transaction_t) : Z :=
  match tx with
  | TX_LEGACY t => leg_nonce t | TX_EIP2930 t => t1_nonce t | TX_EIP1559 t => t2_nonce t
  | TX_EIP4844 t => t3_nonce t | TX_EIP7702 t => t4_nonce t
  end.

Definition transaction_gas_limit (tx : transaction_t) : Z :=
  match tx with
  | TX_LEGACY t => leg_gas_limit t | TX_EIP2930 t => t1_gas_limit t | TX_EIP1559 t => t2_gas_limit t
  | TX_EIP4844 t => t3_gas_limit t | TX_EIP7702 t => t4_gas_limit t
  end.

Definition transaction_value (tx : transaction_t) : uint256_t :=
  match tx with
  | TX_LEGACY t => leg_value t | TX_EIP2930 t => t1_value t | TX_EIP1559 t => t2_value t
  | TX_EIP4844 t => t3_value t | TX_EIP7702 t => t4_value t
  end.

Definition transaction_to (tx : transaction_t) : option address_t :=
  match tx with
  | TX_LEGACY t => leg_to t | TX_EIP2930 t => t1_to t | TX_EIP1559 t => t2_to t
  | TX_EIP4844 t => Some (t3_to t) | TX_EIP7702 t => Some (t4_to t)
  end.

Definition transaction_is_create (tx : transaction_t) : bool :=
  match tx with
  | TX_LEGACY t => legacy_tx_is_create t | TX_EIP2930 t => eip2930_tx_is_create t | TX_EIP1559 t => eip1559_tx_is_create t
  | TX_EIP4844 _ | TX_EIP7702 _ => false
  end.

Definition transaction_data (tx : transaction_t) : list Z :=
  match tx with
  | TX_LEGACY t => leg_data t | TX_EIP2930 t => t1_data t | TX_EIP1559 t => t2_data t
  | TX_EIP4844 t => t3_data t | TX_EIP7702 t => t4_data t
  end.

Definition transaction_chain_id (tx : transaction_t) : option Z :=
  match tx with
  | TX_LEGACY t => legacy_tx_chain_id t | TX_EIP2930 t => Some (t1_chain_id t) | TX_EIP1559 t => Some (t2_chain_id t)
  | TX_EIP4844 t => Some (t3_chain_id t) | TX_EIP7702 t => Some (t4_chain_id t)
  end.

Definition transaction_recovery_id (tx : transaction_t) : Z :=
  match tx with
  | TX_LEGACY t => legacy_tx_recovery_id t | TX_EIP2930 t => eip2930_tx_recovery_id t | TX_EIP1559 t => eip1559_tx_recovery_id t
  | TX_EIP4844 t => eip4844_tx_recovery_id t | TX_EIP7702 t => eip7702_tx_recovery_id t
  end.

Definition transaction_r (tx : transaction_t) : uint256_t :=
  match tx with
  | TX_LEGACY t => leg_r t | TX_EIP2930 t => t1_r t | TX_EIP1559 t => t2_r t | TX_EIP4844 t => t3_r t | TX_EIP7702 t => t4_r t
  end.

Definition transaction_s (tx : transaction_t) : uint256_t :=
  match tx with
  | TX_LEGACY t => leg_s t | TX_EIP2930 t => t1_s t | TX_EIP1559 t => t2_s t | TX_EIP4844 t => t3_s t | TX_EIP7702 t => t4_s t
  end.

Definition transaction_effective_gas_price (tx : transaction_t) (base_fee : uint256_t) : uint256_t :=
  match tx with
  | TX_LEGACY t => leg_gas_price t | TX_EIP2930 t => t1_gas_price t
  | TX_EIP1559 t => eip1559_tx_effective_gas_price t base_fee
  | TX_EIP4844 t => eip4844_tx_effective_gas_price t base_fee
  | TX_EIP7702 t => eip7702_tx_effective_gas_price t base_fee
  end.

Definition transaction_access_list (tx : transaction_t) : option access_list_t :=
  match tx with
  | TX_LEGACY _ => None | TX_EIP2930 t => Some (t1_access_list t) | TX_EIP1559 t => Some (t2_access_list t)
  | TX_EIP4844 t => Some (t3_access_list t) | TX_EIP7702 t => Some (t4_access_list t)
  end.

(** * Well-formed transactions: every field within its C type *)

Definition wf_to (to : option address_t) : Prop := match to with None => True | Some a => wf_address a end.
Definition wf_entry (e : access_list_entry_t) : Prop := wf_address (ent_address e) /\ Forall wf256 (ent_keys e).

Record wf_auth (a : authorization_t) : Prop := {
  wa_chain : u64 (auth_chain_id a); wa_address : wf_address (auth_address a); wa_nonce : u64 (auth_nonce a);
  wa_parity : u8 (auth_y_parity a); wa_r : wf256 (auth_r a); wa_s : wf256 (auth_s a) }.

Record wf_legacy (t : legacy_tx_t) : Prop := {
  wl_nonce : u64 (leg_nonce t); wl_price : wf256 (leg_gas_price t); wl_gas : u64 (leg_gas_limit t); wl_to : wf_to (leg_to t);
  wl_value : wf256 (leg_value t); wl_data : bytes_ok (leg_data t); wl_v : u64 (leg_v t); wl_r : wf256 (leg_r t); wl_s : wf256 (leg_s t) }.

Record wf_2930 (t : eip2930_tx_t) : Prop := {
  w1_chain : u64 (t1_chain_id t); w1_nonce : u64 (t1_nonce t); w1_price : wf256 (t1_gas_price t); w1_gas : u64 (t1_gas_limit t);
  w1_to : wf_to (t1_to t); w1_value : wf256 (t1_value t); w1_data : bytes_ok (t1_data t); w1_access : Forall wf_entry (t1_access_list t);
  w1_parity : u8 (t1_y_parity t); w1_r : wf256 (t1_r t); w1_s : wf256 (t1_s t) }.

Record wf_1559 (t : eip1559_tx_t) : Prop := {
  w2_chain : u64 (t2_chain_id t); w2_nonce : u64 (t2_nonce t); w2_tip : wf256 (t2_max_priority_fee_per_gas t);
  w2_fee : wf256 (t2_max_fee_per_gas t); w2_gas : u64 (t2_gas_limit t);
  w2_to : wf_to (t2_to t); w2_value : wf256 (t2_value t); w2_data : bytes_ok (t2_data t); w2_access : Forall wf_entry (t2_access_list t);
  w2_parity : u8 (t2_y_parity t); w2_r : wf256 (t2_r t); w2_s : wf256 (t2_s t) }.

Record wf_4844 (t : eip4844_tx_t) : Prop := {
  w3_chain : u64 (t3_chain_id t); w3_nonce : u64 (t3_nonce t); w3_tip : wf256 (t3_max_priority_fee_per_gas t);
  w3_fee : wf256 (t3_max_fee_per_gas t); w3_gas : u64 (t3_gas_limit t);
  w3_to : wf_address (t3_to t); w3_value : wf256 (t3_value t); w3_data : bytes_ok (t3_data t); w3_access : Forall wf_entry (t3_access_list t);
  w3_blob_fee : wf256 (t3_max_fee_per_blob_gas t); w3_hashes : Forall wf_hash (t3_blob_versioned_hashes t);
  w3_parity : u8 (t3_y_parity t); w3_r : wf256 (t3_r t); w3_s : wf256 (t3_s t) }.

Record wf_7702 (t : eip7702_tx_t) : Prop := {
  w4_chain : u64 (t4_chain_id t); w4_nonce : u64 (t4_nonce t); w4_tip : wf256 (t4_max_priority_fee_per_gas t);
  w4_fee : wf256 (t4_max_fee_per_gas t); w4_gas : u64 (t4_gas_limit t);
  w4_to : wf_address (t4_to t); w4_value : wf256 (t4_value t); w4_data : bytes_ok (t4_data t); w4_access : Forall wf_entry (t4_access_list t);
  w4_auths : Forall wf_auth (t4_authorization_list t);
  w4_parity : u8 (t4_y_parity t); w4_r : wf256 (t4_r t); w4_s : wf256 (t4_s t) }.

Definition wf_transaction (tx : transaction_t) : Prop :=
  match tx with
  | TX_LEGACY t => wf_legacy t | TX_EIP2930 t => wf_2930 t | TX_EIP1559 t => wf_1559 t
  | TX_EIP4844 t => wf_4844 t | TX_EIP7702 t => wf_7702 t
  end.
