(* ===== verification/TxRlp.v ===== *)
(** Encoding, decoding and hashing of transactions:
    src/ethereum/transaction/rlp.c and src/ethereum/transaction/signer.c.

    The growing vectors of the STC library are a parameter, [vec_push]; Keccak
    and the ECDSA recovery of libsecp256k1 are parameters too. Loops that a hostile
    input controls take fuel, and [TxLoops] says that it ran out. *)
From Stdlib Require Import ZArith Lia List Bool.
From S2P Require Import Prelude Uint256 Types Arena Bytes Rlp Transaction.
Import ListNotations.
#[local] Open Scope Z_scope.
#[local] Open Scope word_scope.

(** * Decoding *)

Inductive tx_decode_error_t :=
| TX_DECODE_EMPTY_INPUT
| TX_DECODE_INVALID_TYPE
| TX_DECODE_INVALID_RLP
| TX_DECODE_INVALID_SIGNATURE
| TX_DECODE_MISSING_FIELD
| TX_DECODE_INVALID_FIELD
| TX_DECODE_ALLOC_FAILED.

(** A step of a decoder: a value and the decoder after it, an early return, or
    no return within the fuel. *)
Inductive tx_step (A : Type) :=
| TxOk (a : A) (d : rlp_decoder_t)
| TxErr (e : tx_decode_error_t)
| TxLoops.
Arguments TxOk {A} a d.
Arguments TxErr {A} e.
Arguments TxLoops {A}.

Definition TX (A : Type) : Type := rlp_decoder_t -> tx_step A.

Definition tx_ret {A} (a : A) : TX A := fun d => TxOk a d.
Definition tx_bind {A B} (m : TX A) (k : A -> TX B) : TX B := fun d =>
  match m d with
  | TxOk a d => k a d
  | TxErr e => TxErr e
  | TxLoops => TxLoops
  end.

Declare Scope tx_scope.
Delimit Scope tx_scope with tx.
Notation "x <- m ;; k" := (tx_bind m (fun x => k)) (at level 61, m at next level, right associativity) : tx_scope.
#[local] Open Scope tx_scope.

(** [if (result.error != RLP_SUCCESS) return TX_DECODE_INVALID_RLP;] *)
Definition or_invalid {A} (f : decodes A) : TX A := fun d =>
  match f d with
  | (d, RlpOk v _) => TxOk v d
  | (_, RlpErr _) => TxErr TX_DECODE_INVALID_RLP
  end.

Definition DECODE_U64 : TX Z := or_invalid rlp_decode_u64.
Definition DECODE_UINT256 : TX uint256_t := or_invalid rlp_decode_uint256.
Definition DECODE_YPARITY : TX Z := v <- or_invalid rlp_decode_u64 ;; tx_ret (w8 v).

Definition SIZEOF_ADDRESS : Z := 20.

Definition decode_optional_address : TX (option address_t) :=
  data <- or_invalid rlp_decode_bytes ;;
  if (length data =? 0)%nat then tx_ret None
  else if negb (length data =? ADDRESS_SIZE)%nat then fun _ => TxErr TX_DECODE_INVALID_FIELD
  else if negb (alloc_succeeds SIZEOF_ADDRESS) then fun _ => TxErr TX_DECODE_ALLOC_FAILED
  else tx_ret (Some (firstn ADDRESS_SIZE data)).

Definition decode_required_address : TX address_t := or_invalid rlp_decode_address.

Definition decode_tx_data : TX (list Z) :=
  data <- or_invalid rlp_decode_bytes ;;
  if Z.of_nat (length data) >? 0 then
    match bytes_reserve bytes_init_arena (Z.of_nat (length data)) with
    | (true, _) => tx_ret data
    | (false, _) => fun _ => TxErr TX_DECODE_ALLOC_FAILED
    end
  else tx_ret [].

(** The current position plus the payload, as the loops compute their end. *)
Definition list_end (payload_length : Z) : TX Z := fun d => TxOk (d_pos d +64 payload_length) d.

Section Decode.
Context (vec_push : forall A, list A -> A -> list A).
Arguments vec_push {A} _ _.

(** [while (dec->pos < end) { x = item; push(x); }] *)
Fixpoint decode_while {A} (fuel : nat) (item : TX A) (stop : Z) (acc : list A) : TX (list A) := fun d =>
  if d_pos d <? stop then
    match fuel with
    | O => TxLoops
    | S fuel' => (x <- item ;; decode_while fuel' item stop (vec_push acc x)) d
    end
  else TxOk acc d.

(** One entry: header, address, keys header, keys. *)
Definition decode_access_entry (fuel : nat) : TX access_list_entry_t :=
  _ <- or_invalid rlp_decode_list_header ;;
  address <- or_invalid rlp_decode_address ;;
  keys_length <- or_invalid rlp_decode_list_header ;;
  if keys_length =? 0 then tx_ret (AccessEntry address [])
  else
    keys_end <- list_end keys_length ;;
    keys <- decode_while fuel (or_invalid rlp_decode_uint256) keys_end [] ;;
    tx_ret (AccessEntry address keys).

Definition decode_access_list (fuel : nat) : TX access_list_t :=
  payload_length <- or_invalid rlp_decode_list_header ;;
  if payload_length =? 0 then tx_ret access_list_init
  else stop <- list_end payload_length ;; decode_while fuel (decode_access_entry fuel) stop [].

Definition decode_authorization : TX authorization_t :=
  _ <- or_invalid rlp_decode_list_header ;;
  chain_id <- or_invalid rlp_decode_u64 ;;
  address <- or_invalid rlp_decode_address ;;
  nonce <- or_invalid rlp_decode_u64 ;;
  y_parity <- or_invalid rlp_decode_u64 ;;
  r <- or_invalid rlp_decode_uint256 ;;
  s <- or_invalid rlp_decode_uint256 ;;
  tx_ret (Authorization chain_id address nonce (w8 y_parity) r s).

Definition decode_authorization_list (fuel : nat) : TX authorization_list_t :=
  payload_length <- or_invalid rlp_decode_list_header ;;
  if payload_length =? 0 then tx_ret authorization_list_init
  else stop <- list_end payload_length ;; decode_while fuel decode_authorization stop [].

(** [while (dec->pos < hashes_end) { rlp_skip_item(dec); hash_count++; }] *)
Fixpoint count_items (fuel : nat) (hashes_end : Z) (hash_count : Z) : TX Z := fun d =>
  if d_pos d <? hashes_end then
    match fuel with
    | O => TxLoops
    | S fuel' => count_items fuel' hashes_end (hash_count +64 1) (rlp_skip_item d)
    end
  else TxOk hash_count d.

Fixpoint decode_hashes (n : nat) : TX (list hash_t) :=
  match n with
  | O => tx_ret []
  | S n' => fun d =>
      match rlp_decode_bytes d with
      | (d, RlpOk data _) =>
          if negb (length data =? HASH_SIZE)%nat then TxErr TX_DECODE_INVALID_FIELD
          else (rest <- decode_hashes n' ;; tx_ret (firstn HASH_SIZE data :: rest)) d
      | (_, RlpErr _) => TxErr TX_DECODE_INVALID_FIELD
      end
  end.

Definition SIZEOF_HASH : Z := 32.

Definition eip4844_tx_alloc_blob_hashes (count : Z) : bool :=
  if count =? 0 then true else alloc_succeeds (count *64 SIZEOF_HASH).

Definition decode_blob_hashes (fuel : nat) : TX (list hash_t) :=
  payload_length <- or_invalid rlp_decode_list_header ;;
  if payload_length =? 0 then tx_ret []
  else
    hashes_end <- list_end payload_length ;;
    fun d =>
      let start_pos := d_pos d in
      (hash_count <- count_items fuel hashes_end 0 ;;
       if negb (eip4844_tx_alloc_blob_hashes hash_count) then fun _ => TxErr TX_DECODE_ALLOC_FAILED
       else fun d => decode_hashes (Z.to_nat hash_count) (set_pos d start_pos)) d.

(** ** The five formats

    The result holds the transaction and [bytes_consumed]. *)
Inductive tx_decode_result (A : Type) :=
| DecodeOk (tx : A) (bytes_consumed : Z)
| DecodeErr (error : tx_decode_error_t)
| DecodeLoops.
Arguments DecodeOk {A} tx bytes_consumed.
Arguments DecodeErr {A} error.
Arguments DecodeLoops {A}.

(** The frame of every decoder: reject an empty input, read the list header,
    run the body, and report header and payload as consumed. *)
Definition decode_fields {A} (data : list Z) (body : TX A) : tx_decode_result A :=
  if (length data =? 0)%nat then DecodeErr TX_DECODE_EMPTY_INPUT
  else
    match rlp_decode_list_header (rlp_decoder_init data) with
    | (_, RlpErr _) => DecodeErr TX_DECODE_INVALID_RLP
    | (d, RlpOk payload_length consumed) =>
        match body d with
        | TxOk tx _ => DecodeOk tx (consumed +64 payload_length)
        | TxErr e => DecodeErr e
        | TxLoops => DecodeLoops
        end
    end.

Definition legacy_tx_decode (data : list Z) : tx_decode_result legacy_tx_t :=
  decode_fields data
    (nonce <- DECODE_U64 ;; gas_price <- DECODE_UINT256 ;; gas_limit <- DECODE_U64 ;; to <- decode_optional_address ;;
     value <- DECODE_UINT256 ;; data <- decode_tx_data ;; v <- DECODE_U64 ;; r <- DECODE_UINT256 ;; s <- DECODE_UINT256 ;;
     tx_ret (LegacyTx nonce gas_price gas_limit to value data v r s)).

Definition eip2930_tx_decode (fuel : nat) (data : list Z) : tx_decode_result eip2930_tx_t :=
  decode_fields data
    (chain_id <- DECODE_U64 ;; nonce <- DECODE_U64 ;; gas_price <- DECODE_UINT256 ;; gas_limit <- DECODE_U64 ;;
     to <- decode_optional_address ;; value <- DECODE_UINT256 ;; data <- decode_tx_data ;;
     access_list <- decode_access_list fuel ;; y_parity <- DECODE_YPARITY ;; r <- DECODE_UINT256 ;; s <- DECODE_UINT256 ;;
     tx_ret (Eip2930Tx chain_id nonce gas_price gas_limit to value data access_list y_parity r s)).

Definition eip1559_tx_decode (fuel : nat) (data : list Z) : tx_decode_result eip1559_tx_t :=
  decode_fields data
    (chain_id <- DECODE_U64 ;; nonce <- DECODE_U64 ;; max_priority_fee_per_gas <- DECODE_UINT256 ;; max_fee_per_gas <- DECODE_UINT256 ;;
     gas_limit <- DECODE_U64 ;; to <- decode_optional_address ;; value <- DECODE_UINT256 ;; data <- decode_tx_data ;;
     access_list <- decode_access_list fuel ;; y_parity <- DECODE_YPARITY ;; r <- DECODE_UINT256 ;; s <- DECODE_UINT256 ;;
     tx_ret (Eip1559Tx chain_id nonce max_priority_fee_per_gas max_fee_per_gas gas_limit to value data access_list y_parity r s)).

Definition eip4844_tx_decode (fuel : nat) (data : list Z) : tx_decode_result eip4844_tx_t :=
  decode_fields data
    (chain_id <- DECODE_U64 ;; nonce <- DECODE_U64 ;; max_priority_fee_per_gas <- DECODE_UINT256 ;; max_fee_per_gas <- DECODE_UINT256 ;;
     gas_limit <- DECODE_U64 ;; to <- decode_required_address ;; value <- DECODE_UINT256 ;; data <- decode_tx_data ;;
     access_list <- decode_access_list fuel ;; max_fee_per_blob_gas <- DECODE_UINT256 ;; hashes <- decode_blob_hashes fuel ;;
     y_parity <- DECODE_YPARITY ;; r <- DECODE_UINT256 ;; s <- DECODE_UINT256 ;;
     tx_ret (Eip4844Tx chain_id nonce max_priority_fee_per_gas max_fee_per_gas gas_limit to value data access_list
               max_fee_per_blob_gas hashes y_parity r s)).

Definition eip7702_tx_decode (fuel : nat) (data : list Z) : tx_decode_result eip7702_tx_t :=
  decode_fields data
    (chain_id <- DECODE_U64 ;; nonce <- DECODE_U64 ;; max_priority_fee_per_gas <- DECODE_UINT256 ;; max_fee_per_gas <- DECODE_UINT256 ;;
     gas_limit <- DECODE_U64 ;; to <- decode_required_address ;; value <- DECODE_UINT256 ;; data <- decode_tx_data ;;
     access_list <- decode_access_list fuel ;; authorization_list <- decode_authorization_list fuel ;;
     y_parity <- DECODE_YPARITY ;; r <- DECODE_UINT256 ;; s <- DECODE_UINT256 ;;
     tx_ret (Eip7702Tx chain_id nonce max_priority_fee_per_gas max_fee_per_gas gas_limit to value data access_list
               authorization_list y_parity r s)).

Definition result_map {A B} (f : A -> B) (type_bytes : Z) (r : tx_decode_result A) : tx_decode_result B :=
  match r with
  | DecodeOk tx n => DecodeOk (f tx) (n +64 type_bytes)
  | DecodeErr e => DecodeErr e
  | DecodeLoops => DecodeLoops
  end.

Definition transaction_decode (fuel : nat) (data : list Z) : tx_decode_result transaction_t :=
  match data with
  | [] => DecodeErr TX_DECODE_EMPTY_INPUT
  | first_byte :: rest =>
      if first_byte >=? 192 then result_map TX_LEGACY 0 (legacy_tx_decode data)
      else if (first_byte =? 0) || (first_byte >? 4) then DecodeErr TX_DECODE_INVALID_TYPE
      else if first_byte =? 1 then result_map TX_EIP2930 1 (eip2930_tx_decode fuel rest)
      else if first_byte =? 2 then result_map TX_EIP1559 1 (eip1559_tx_decode fuel rest)
      else if first_byte =? 3 then result_map TX_EIP4844 1 (eip4844_tx_decode fuel rest)
      else if first_byte =? 4 then result_map TX_EIP7702 1 (eip7702_tx_decode fuel rest)
      else DecodeErr TX_DECODE_INVALID_TYPE
  end.
End Decode.

Arguments DecodeOk {A} tx bytes_consumed.
Arguments DecodeErr {A} error.
Arguments DecodeLoops {A}.

(** * Encoding

    [output |> put_u64 x] is [x_rlp = rlp_encode_u64(arena, x);
    rlp_list_append(&output, &x_rlp);]. An encoder is [None] when a list
    header is written outside the output's allocation. *)
Definition put_u64 (v : Z) (output : bytes_t) : bytes_t := rlp_list_append output (rlp_encode_u64 v).
Definition put_uint256 (v : uint256_t) (output : bytes_t) : bytes_t := rlp_list_append output (rlp_encode_uint256 v).
Definition put_address (a : address_t) (output : bytes_t) : bytes_t := rlp_list_append output (rlp_encode_address a).
Definition put_bytes (d : list Z) (output : bytes_t) : bytes_t := rlp_list_append output (rlp_encode_bytes d).

Definition tx_encode_optional_address (addr : option address_t) : bytes_t :=
  match addr with
  | None => rlp_encode_bytes []
  | Some a => rlp_encode_address a
  end.

Definition put_to (a : option address_t) (output : bytes_t) : bytes_t := rlp_list_append output (tx_encode_optional_address a).

Notation "x |> f" := (f x) (at level 53, f at next level, left associativity, only parsing) : tx_scope.

(** [for (i ...) body], stopping where the body leaves the allocation. *)
Fixpoint for_each {A} (body : A -> bytes_t -> option bytes_t) (l : list A) (output : bytes_t) : option bytes_t :=
  match l with
  | [] => Some output
  | x :: l' => match body x output with None => None | Some output => for_each body l' output end
  end.

(** [rlp_list_start], the items, [rlp_list_end]. *)
Definition in_list (items : bytes_t -> option bytes_t) (output : bytes_t) : option bytes_t :=
  let '(builder, output) := rlp_list_start output in
  match items output with
  | None => None
  | Some output => rlp_list_end builder output
  end.

Definition encode_access_entry (e : access_list_entry_t) : bytes_t -> option bytes_t :=
  in_list (fun output =>
    in_list (for_each (fun key output => Some (output |> put_uint256 key)) (ent_keys e)) (output |> put_address (ent_address e))).

Definition tx_encode_access_list (l : access_list_t) : bytes_t -> option bytes_t := in_list (for_each encode_access_entry l).

Definition encode_authorization (a : authorization_t) : bytes_t -> option bytes_t :=
  in_list (fun output =>
    Some (output |> put_u64 (auth_chain_id a) |> put_address (auth_address a) |> put_u64 (auth_nonce a)
                 |> put_u64 (auth_y_parity a) |> put_uint256 (auth_r a) |> put_uint256 (auth_s a))).

Definition tx_encode_authorization_list (l : authorization_list_t) : bytes_t -> option bytes_t :=
  in_list (for_each encode_authorization l).

Definition encode_blob_hashes (l : list hash_t) : bytes_t -> option bytes_t :=
  in_list (for_each (fun h output => Some (output |> put_bytes h)) l).

Definition then_ {A B} (o : option A) (k : A -> option B) : option B := match o with None => None | Some x => k x end.
Notation "o >>= k" := (then_ o k) (at level 58, left associativity) : tx_scope.

(** ** Signed transactions *)

Definition legacy_tx_encode (tx : legacy_tx_t) : option bytes_t :=
  reserve bytes_init_arena 256 |> in_list (fun output =>
    Some (output |> put_u64 (leg_nonce tx) |> put_uint256 (leg_gas_price tx) |> put_u64 (leg_gas_limit tx) |> put_to (leg_to tx)
                 |> put_uint256 (leg_value tx) |> put_bytes (leg_data tx) |> put_u64 (leg_v tx) |> put_uint256 (leg_r tx) |> put_uint256 (leg_s tx))).

Definition eip2930_tx_encode (tx : eip2930_tx_t) : option bytes_t :=
  append_byte (reserve bytes_init_arena 512) 1 |> in_list (fun output =>
    Some (output |> put_u64 (t1_chain_id tx) |> put_u64 (t1_nonce tx) |> put_uint256 (t1_gas_price tx) |> put_u64 (t1_gas_limit tx)
                 |> put_to (t1_to tx) |> put_uint256 (t1_value tx) |> put_bytes (t1_data tx))
    >>= tx_encode_access_list (t1_access_list tx)
    >>= fun output => Some (output |> put_u64 (t1_y_parity tx) |> put_uint256 (t1_r tx) |> put_uint256 (t1_s tx))).

Definition eip1559_tx_encode (tx : eip1559_tx_t) : option bytes_t :=
  append_byte (reserve bytes_init_arena 512) 2 |> in_list (fun output =>
    Some (output |> put_u64 (t2_chain_id tx) |> put_u64 (t2_nonce tx) |> put_uint256 (t2_max_priority_fee_per_gas tx)
                 |> put_uint256 (t2_max_fee_per_gas tx) |> put_u64 (t2_gas_limit tx)
                 |> put_to (t2_to tx) |> put_uint256 (t2_value tx) |> put_bytes (t2_data tx))
    >>= tx_encode_access_list (t2_access_list tx)
    >>= fun output => Some (output |> put_u64 (t2_y_parity tx) |> put_uint256 (t2_r tx) |> put_uint256 (t2_s tx))).

Definition eip4844_tx_encode (tx : eip4844_tx_t) : option bytes_t :=
  append_byte (reserve bytes_init_arena 1024) 3 |> in_list (fun output =>
    Some (output |> put_u64 (t3_chain_id tx) |> put_u64 (t3_nonce tx) |> put_uint256 (t3_max_priority_fee_per_gas tx)
                 |> put_uint256 (t3_max_fee_per_gas tx) |> put_u64 (t3_gas_limit tx)
                 |> put_address (t3_to tx) |> put_uint256 (t3_value tx) |> put_bytes (t3_data tx))
    >>= tx_encode_access_list (t3_access_list tx)
    >>= (fun output => Some (output |> put_uint256 (t3_max_fee_per_blob_gas tx)))
    >>= encode_blob_hashes (t3_blob_versioned_hashes tx)
    >>= fun output => Some (output |> put_u64 (t3_y_parity tx) |> put_uint256 (t3_r tx) |> put_uint256 (t3_s tx))).

Definition eip7702_tx_encode (tx : eip7702_tx_t) : option bytes_t :=
  append_byte (reserve bytes_init_arena 1024) 4 |> in_list (fun output =>
    Some (output |> put_u64 (t4_chain_id tx) |> put_u64 (t4_nonce tx) |> put_uint256 (t4_max_priority_fee_per_gas tx)
                 |> put_uint256 (t4_max_fee_per_gas tx) |> put_u64 (t4_gas_limit tx)
                 |> put_address (t4_to tx) |> put_uint256 (t4_value tx) |> put_bytes (t4_data tx))
    >>= tx_encode_access_list (t4_access_list tx)
    >>= tx_encode_authorization_list (t4_authorization_list tx)
    >>= fun output => Some (output |> put_u64 (t4_y_parity tx) |> put_uint256 (t4_r tx) |> put_uint256 (t4_s tx))).

Definition transaction_encode (tx : transaction_t) : option bytes_t :=
  match tx with
  | TX_LEGACY t => legacy_tx_encode t
  | TX_EIP2930 t => eip2930_tx_encode t
  | TX_EIP1559 t => eip1559_tx_encode t
  | TX_EIP4844 t => eip4844_tx_encode t
  | TX_EIP7702 t => eip7702_tx_encode t
  end.

(** ** What is signed (signer.c) *)

Definition legacy_signed (tx : legacy_tx_t) : option bytes_t :=
  reserve bytes_init_arena 512 |> in_list (fun output =>
    let output := output |> put_u64 (leg_nonce tx) |> put_uint256 (leg_gas_price tx) |> put_u64 (leg_gas_limit tx) |> put_to (leg_to tx)
                         |> put_uint256 (leg_value tx) |> put_bytes (leg_data tx) in
    match legacy_tx_chain_id tx with
    | Some chain_id => Some (output |> put_u64 chain_id |> put_uint256 uint256_zero |> put_uint256 uint256_zero)
    | None => Some output
    end).

Definition eip2930_signed (tx : eip2930_tx_t) : option bytes_t :=
  append_byte (reserve bytes_init_arena 512) 1 |> in_list (fun output =>
    Some (output |> put_u64 (t1_chain_id tx) |> put_u64 (t1_nonce tx) |> put_uint256 (t1_gas_price tx) |> put_u64 (t1_gas_limit tx)
                 |> put_to (t1_to tx) |> put_uint256 (t1_value tx) |> put_bytes (t1_data tx))
    >>= tx_encode_access_list (t1_access_list tx)).

Definition eip1559_signed (tx : eip1559_tx_t) : option bytes_t :=
  append_byte (reserve bytes_init_arena 512) 2 |> in_list (fun output =>
    Some (output |> put_u64 (t2_chain_id tx) |> put_u64 (t2_nonce tx) |> put_uint256 (t2_max_priority_fee_per_gas tx)
                 |> put_uint256 (t2_max_fee_per_gas tx) |> put_u64 (t2_gas_limit tx)
                 |> put_to (t2_to tx) |> put_uint256 (t2_value tx) |> put_bytes (t2_data tx))
    >>= tx_encode_access_list (t2_access_list tx)).

Definition eip4844_signed (tx : eip4844_tx_t) : option bytes_t :=
  append_byte (reserve bytes_init_arena 1024) 3 |> in_list (fun output =>
    Some (output |> put_u64 (t3_chain_id tx) |> put_u64 (t3_nonce tx) |> put_uint256 (t3_max_priority_fee_per_gas tx)
                 |> put_uint256 (t3_max_fee_per_gas tx) |> put_u64 (t3_gas_limit tx)
                 |> put_address (t3_to tx) |> put_uint256 (t3_value tx) |> put_bytes (t3_data tx))
    >>= tx_encode_access_list (t3_access_list tx)
    >>= (fun output => Some (output |> put_uint256 (t3_max_fee_per_blob_gas tx)))
    >>= encode_blob_hashes (t3_blob_versioned_hashes tx)).

Definition eip7702_signed (tx : eip7702_tx_t) : option bytes_t :=
  append_byte (reserve bytes_init_arena 1024) 4 |> in_list (fun output =>
    Some (output |> put_u64 (t4_chain_id tx) |> put_u64 (t4_nonce tx) |> put_uint256 (t4_max_priority_fee_per_gas tx)
                 |> put_uint256 (t4_max_fee_per_gas tx) |> put_u64 (t4_gas_limit tx)
                 |> put_address (t4_to tx) |> put_uint256 (t4_value tx) |> put_bytes (t4_data tx))
    >>= tx_encode_access_list (t4_access_list tx)
    >>= tx_encode_authorization_list (t4_authorization_list tx)).

Definition authorization_signed (a : authorization_t) : option bytes_t :=
  append_byte (reserve bytes_init_arena 64) 5 |> in_list (fun output =>
    Some (output |> put_u64 (auth_chain_id a) |> put_address (auth_address a) |> put_u64 (auth_nonce a))).

(** ** Hashes and senders *)

Section Hash.
Context (keccak256 : list Z -> hash_t).
Context (ecdsa_recover : list Z -> Z -> list Z -> option (list Z)).

(** src/crypto/secp256k1.c over libsecp256k1: [ecdsa_recover] parses the
    compact signature, recovers the key and gives its 64 bytes. *)
Definition secp256k1_recover_pubkey (message_hash : list Z) (recovery_id : Z) (signature : list Z) : option (list Z) :=
  if (recovery_id <? 0) || (recovery_id >? 3) then None else ecdsa_recover message_hash recovery_id signature.

(** The recovery id that [v] and the chain stand for. *)
Definition recovery_id_of (v chain_id : Z) : option Z :=
  if (v =? 0) || (v =? 1) then Some v
  else if (v =? 27) || (v =? 28) then Some (v -64 27)
  else if chain_id >? 0 then
    let expected_base := (chain_id *64 2) +64 35 in
    if negb (v =? expected_base) && negb (v =? expected_base +64 1) then None else Some (v -64 expected_base)
  else if v >=? 35 then Some ((v -64 35) mod 2) else None.

Definition secp256k1_ecrecover (message_hash : uint256_t) (v : Z) (r s : uint256_t) (chain_id : Z) : option address_t :=
  match recovery_id_of v chain_id with
  | None => None
  | Some recovery_id =>
      let sig_bytes := uint256_to_bytes_be r ++ uint256_to_bytes_be s in
      match secp256k1_recover_pubkey (uint256_to_bytes_be message_hash) recovery_id sig_bytes with
      | None => None
      | Some pubkey => Some (firstn ADDRESS_SIZE (skipn 12 (keccak256 pubkey)))
      end
  end.

Definition hash_of (encoded : option bytes_t) : option hash_t :=
  match encoded with None => None | Some b => Some (keccak256 (b_data b)) end.

Definition transaction_hash (tx : transaction_t) : option hash_t := hash_of (transaction_encode tx).

Definition legacy_tx_signing_hash (tx : legacy_tx_t) : option hash_t := hash_of (legacy_signed tx).
Definition eip2930_tx_signing_hash (tx : eip2930_tx_t) : option hash_t := hash_of (eip2930_signed tx).
Definition eip1559_tx_signing_hash (tx : eip1559_tx_t) : option hash_t := hash_of (eip1559_signed tx).
Definition eip4844_tx_signing_hash (tx : eip4844_tx_t) : option hash_t := hash_of (eip4844_signed tx).
Definition eip7702_tx_signing_hash (tx : eip7702_tx_t) : option hash_t := hash_of (eip7702_signed tx).

Definition transaction_signing_hash (tx : transaction_t) : option hash_t :=
  match tx with
  | TX_LEGACY t => legacy_tx_signing_hash t
  | TX_EIP2930 t => eip2930_tx_signing_hash t
  | TX_EIP1559 t => eip1559_tx_signing_hash t
  | TX_EIP4844 t => eip4844_tx_signing_hash t
  | TX_EIP7702 t => eip7702_tx_signing_hash t
  end.

Definition authorization_signing_hash (a : authorization_t) : option hash_t := hash_of (authorization_signed a).

(** The signature a transaction carries: [v], [r], [s] and the chain. *)
Definition signature_of (tx : transaction_t) : Z * uint256_t * uint256_t * Z :=
  match tx with
  | TX_LEGACY t => (leg_v t, leg_r t, leg_s t, match legacy_tx_chain_id t with Some c => c | None => 0 end)
  | TX_EIP2930 t => (t1_y_parity t, t1_r t, t1_s t, t1_chain_id t)
  | TX_EIP1559 t => (t2_y_parity t, t2_r t, t2_s t, t2_chain_id t)
  | TX_EIP4844 t => (t3_y_parity t, t3_r t, t3_s t, t3_chain_id t)
  | TX_EIP7702 t => (t4_y_parity t, t4_r t, t4_s t, t4_chain_id t)
  end.

(** Outer [None]: the encoder left its allocation. Inner [None]: no sender. *)
Definition transaction_recover_sender (tx : transaction_t) : option (option address_t) :=
  match transaction_signing_hash tx with
  | None => None
  | Some signing_hash =>
      let '(v, r, s, chain_id) := signature_of tx in
      Some (secp256k1_ecrecover (hash_to_uint256 signing_hash) v r s chain_id)
  end.

Definition authorization_recover_authority (a : authorization_t) : option (option address_t) :=
  match authorization_signing_hash a with
  | None => None
  | Some signing_hash =>
      Some (secp256k1_ecrecover (hash_to_uint256 signing_hash) (auth_y_parity a) (auth_r a) (auth_s a) (auth_chain_id a))
  end.
End Hash.
