(* ===== verification/TxSpec.v ===== *)
(** Transactions against their encodings: what the encoders write, what the
    decoders read, and that decoding ends. *)
From Stdlib Require Import ZArith Lia List Bool.
From S2P Require Import Prelude Uint256 Types Arena Bytes Rlp RlpSpec Transaction TxRlp.
Import ListNotations.
#[local] Open Scope Z_scope.
#[local] Open Scope word_scope.
#[local] Open Scope tx_scope.

(** * The encodings *)

Definition enc_to (to : option address_t) : list Z := match to with None => enc_str [] | Some a => enc_str a end.
Definition enc_256 (v : uint256_t) : list Z := enc_int (val v).

Definition enc_entry (e : access_list_entry_t) : list Z :=
  enc_list (enc_str (ent_address e) ++ enc_list (concat (map enc_256 (ent_keys e)))).

Definition enc_access (l : access_list_t) : list Z := enc_list (concat (map enc_entry l)).

Definition enc_auth (a : authorization_t) : list Z :=
  enc_list (enc_int (auth_chain_id a) ++ enc_str (auth_address a) ++ enc_int (auth_nonce a) ++ enc_int (auth_y_parity a) ++
            enc_256 (auth_r a) ++ enc_256 (auth_s a)).

Definition enc_auths (l : authorization_list_t) : list Z := enc_list (concat (map enc_auth l)).
Definition enc_hashes (l : list hash_t) : list Z := enc_list (concat (map enc_str l)).

Definition enc_vrs (y : Z) (r s : uint256_t) : list Z := enc_int y ++ enc_256 r ++ enc_256 s.

Definition legacy_payload (t : legacy_tx_t) : list Z :=
  enc_int (leg_nonce t) ++ enc_256 (leg_gas_price t) ++ enc_int (leg_gas_limit t) ++ enc_to (leg_to t) ++ enc_256 (leg_value t) ++
  enc_str (leg_data t) ++ enc_vrs (leg_v t) (leg_r t) (leg_s t).

Definition payload_2930 (t : eip2930_tx_t) : list Z :=
  enc_int (t1_chain_id t) ++ enc_int (t1_nonce t) ++ enc_256 (t1_gas_price t) ++ enc_int (t1_gas_limit t) ++ enc_to (t1_to t) ++
  enc_256 (t1_value t) ++ enc_str (t1_data t) ++ enc_access (t1_access_list t) ++ enc_vrs (t1_y_parity t) (t1_r t) (t1_s t).

Definition payload_1559 (t : eip1559_tx_t) : list Z :=
  enc_int (t2_chain_id t) ++ enc_int (t2_nonce t) ++ enc_256 (t2_max_priority_fee_per_gas t) ++ enc_256 (t2_max_fee_per_gas t) ++
  enc_int (t2_gas_limit t) ++ enc_to (t2_to t) ++ enc_256 (t2_value t) ++ enc_str (t2_data t) ++ enc_access (t2_access_list t) ++
  enc_vrs (t2_y_parity t) (t2_r t) (t2_s t).

Definition payload_4844 (t : eip4844_tx_t) : list Z :=
  enc_int (t3_chain_id t) ++ enc_int (t3_nonce t) ++ enc_256 (t3_max_priority_fee_per_gas t) ++ enc_256 (t3_max_fee_per_gas t) ++
  enc_int (t3_gas_limit t) ++ enc_str (t3_to t) ++ enc_256 (t3_value t) ++ enc_str (t3_data t) ++ enc_access (t3_access_list t) ++
  enc_256 (t3_max_fee_per_blob_gas t) ++ enc_hashes (t3_blob_versioned_hashes t) ++ enc_vrs (t3_y_parity t) (t3_r t) (t3_s t).

Definition payload_7702 (t : eip7702_tx_t) : list Z :=
  enc_int (t4_chain_id t) ++ enc_int (t4_nonce t) ++ enc_256 (t4_max_priority_fee_per_gas t) ++ enc_256 (t4_max_fee_per_gas t) ++
  enc_int (t4_gas_limit t) ++ enc_str (t4_to t) ++ enc_256 (t4_value t) ++ enc_str (t4_data t) ++ enc_access (t4_access_list t) ++
  enc_auths (t4_authorization_list t) ++ enc_vrs (t4_y_parity t) (t4_r t) (t4_s t).

Definition payload (tx : transaction_t) : list Z :=
  match tx with
  | TX_LEGACY t => legacy_payload t | TX_EIP2930 t => payload_2930 t | TX_EIP1559 t => payload_1559 t
  | TX_EIP4844 t => payload_4844 t | TX_EIP7702 t => payload_7702 t
  end.

(** EIP-2718: a typed transaction starts with its type. *)
Definition enc_tx (tx : transaction_t) : list Z :=
  (if tx_type tx =? 0 then [] else [tx_type tx]) ++ enc_list (payload tx).

(** The space the encoder reserves. *)
Definition tx_capacity (tx : transaction_t) : Z :=
  match tx with TX_LEGACY _ => 256 | TX_EIP2930 _ | TX_EIP1559 _ => 512 | TX_EIP4844 _ | TX_EIP7702 _ => 1024 end.

(** The payload leaves room for the headers that are open at the same time. *)
Definition fits (tx : transaction_t) : Prop := Z.of_nat (length (payload tx)) + 37 <= tx_capacity tx.

(** * The encoders write them

    [puts f p m]: with [m] bytes to spare, [f] adds [p]. *)
Definition puts (f : bytes_t -> option bytes_t) (p : list Z) (m : Z) : Prop :=
  forall d c, Z.of_nat (length d) + Z.of_nat (length p) + m <= c <= DIV0_ARENA_BLOCK_SIZE -> f (filled d c) = Some (filled (d ++ p) c).

Lemma puts_more f p m m' : puts f p m -> m <= m' -> puts f p m'.
Proof. intros H L d c Hc. apply H. lia. Qed.

Lemma length_enc_list p : Z.of_nat (length p) < 2 ^ 64 -> Z.of_nat (length p) + 1 <= Z.of_nat (length (enc_list p)) <= Z.of_nat (length p) + 9.
Proof. intros H. unfold enc_list. rewrite length_app. pose proof (length_header 192 (Z.of_nat (length p)) ltac:(lia)). lia. Qed.

Lemma enc_list_ge p : Z.of_nat (length p) <= Z.of_nat (length (enc_list p)).
Proof. unfold enc_list. rewrite length_app. lia. Qed.

Lemma puts_in_list items p m : 0 <= m -> puts items p m -> puts (in_list items) (enc_list p) (m + 9).
Proof.
  intros Hm H d c Hc. pose proof (enc_list_ge p). unfold in_list. rewrite rlp_list_start_spec by lia.
  rewrite H by (rewrite length_app; change (length reserved) with 9%nat; lia). rewrite <- app_assoc.
  apply rlp_list_end_spec. rewrite !length_app. change (length reserved) with 9%nat. lia.
Qed.

Lemma puts_for_each {A} (body : A -> bytes_t -> option bytes_t) (e : A -> list Z) (P : A -> Prop) m l :
  (forall x, P x -> puts (body x) (e x) m) -> Forall P l -> puts (for_each body l) (concat (map e l)) m.
Proof.
  intros H F. induction F as [|x l Px F IH]; intros d c Hc; cbn [for_each map concat]; [rewrite app_nil_r; reflexivity|].
  cbn [map concat] in Hc. rewrite length_app in Hc. rewrite H by (auto; lia). rewrite IH by (rewrite length_app; lia).
  rewrite <- app_assoc. reflexivity.
Qed.

Lemma puts_then f g p q m : puts f p m -> puts g q m -> puts (fun o => f o >>= g) (p ++ q) m.
Proof.
  intros Hf Hg d c Hc. rewrite length_app in Hc. rewrite Hf by lia. cbn [then_]. rewrite Hg by (rewrite length_app; lia).
  rewrite <- app_assoc. reflexivity.
Qed.

(** ** Single fields *)

Definition adds (f : bytes_t -> bytes_t) (p : list Z) : Prop :=
  forall d c, Z.of_nat (length d) + Z.of_nat (length p) <= c <= DIV0_ARENA_BLOCK_SIZE -> f (filled d c) = filled (d ++ p) c.

Lemma adds_u64 v : u64 v -> adds (put_u64 v) (enc_int v).
Proof. intros H d c Hc. unfold put_u64, rlp_list_append. rewrite rlp_encode_u64_spec by exact H. apply append_filled, Hc. Qed.

Lemma adds_256 v : wf256 v -> adds (put_uint256 v) (enc_256 v).
Proof. intros H d c Hc. unfold put_uint256, rlp_list_append. rewrite rlp_encode_uint256_spec by exact H. apply append_filled, Hc. Qed.

Lemma adds_address a : wf_address a -> adds (put_address a) (enc_str a).
Proof. intros H d c Hc. unfold put_address, rlp_list_append. rewrite rlp_encode_address_spec by exact H. apply append_filled, Hc. Qed.

Lemma adds_bytes b : bytes_ok b -> adds (put_bytes b) (enc_str b).
Proof.
  intros H d c Hc. unfold put_bytes, rlp_list_append. rewrite rlp_encode_bytes_data by (exact H || lia). apply append_filled, Hc.
Qed.

Lemma adds_to a : wf_to a -> adds (put_to a) (enc_to a).
Proof. intros H. destruct a as [a|]; [apply (adds_address a H) | apply (adds_bytes []); constructor]. Qed.

Lemma puts_adds f p : adds f p -> puts (fun o => Some (f o)) p 0.
Proof. intros H d c Hc. rewrite H by lia. reflexivity. Qed.

Create HintDb tx.
#[export] Hint Resolve adds_u64 adds_256 adds_address adds_bytes adds_to : tx.

Lemma u8_u64 x : u8 x -> u64 x.
Proof. unfold u8, u64. lia. Qed.
#[export] Hint Resolve u8_u64 : tx.

Lemma puts_entry e : wf_entry e -> puts (encode_access_entry e) (enc_entry e) 18.
Proof.
  intros [HA HK]. apply (puts_in_list _ _ 9); [lia|].
  intros d c Hc. rewrite length_app in Hc. rewrite (adds_address _ HA) by lia.
  rewrite (puts_in_list _ (concat (map enc_256 (ent_keys e))) 0); [rewrite <- app_assoc; reflexivity | lia | | rewrite length_app; lia].
  apply (puts_for_each _ enc_256 wf256 0); [|exact HK]. intros k Hk. apply puts_adds, adds_256, Hk.
Qed.

Lemma puts_access l : Forall wf_entry l -> puts (tx_encode_access_list l) (enc_access l) 27.
Proof. intros H. apply (puts_in_list _ _ 18); [lia|]. apply (puts_for_each _ enc_entry wf_entry 18); [apply puts_entry | exact H]. Qed.

Lemma puts_hashes l : Forall wf_hash l -> puts (encode_blob_hashes l) (enc_hashes l) 9.
Proof.
  intros H. apply (puts_in_list _ _ 0); [lia|]. apply (puts_for_each _ enc_str wf_hash 0); [|exact H].
  intros h [_ B]. apply puts_adds, adds_bytes, B.
Qed.

(** Add field after field, with what is left of the room. *)
Ltac fields := rewrite ?length_app in *;
  repeat match goal with
  | |- context [put_u64 ?v (filled ?d ?c)] => rewrite (adds_u64 v ltac:(auto with tx) d c ltac:(rewrite ?length_app; lia))
  | |- context [put_uint256 ?v (filled ?d ?c)] => rewrite (adds_256 v ltac:(auto with tx) d c ltac:(rewrite ?length_app; lia))
  | |- context [put_address ?v (filled ?d ?c)] => rewrite (adds_address v ltac:(auto with tx) d c ltac:(rewrite ?length_app; lia))
  | |- context [put_bytes ?v (filled ?d ?c)] => rewrite (adds_bytes v ltac:(auto with tx) d c ltac:(rewrite ?length_app; lia))
  | |- context [put_to ?v (filled ?d ?c)] => rewrite (adds_to v ltac:(auto with tx) d c ltac:(rewrite ?length_app; lia))
  end.

Lemma puts_auth a : wf_auth a -> puts (encode_authorization a) (enc_auth a) 9.
Proof.
  intros [? ? ? ? ? ?]. apply (puts_in_list _ _ 0); [lia|]. intros d c Hc. fields.
  rewrite <- !app_assoc. reflexivity.
Qed.

Lemma puts_auths l : Forall wf_auth l -> puts (tx_encode_authorization_list l) (enc_auths l) 18.
Proof. intros H. apply (puts_in_list _ _ 9); [lia|]. apply (puts_for_each _ enc_auth wf_auth 9); [apply puts_auth | exact H]. Qed.

(** ** Whole transactions *)

(** The outer list of a transaction, after its type byte. *)
Lemma outer_list items p t c : puts items p 27 -> Z.of_nat (length p) + 37 <= c <= DIV0_ARENA_BLOCK_SIZE ->
  in_list items (append_byte (reserve bytes_init_arena c) t) = Some (filled ([t] ++ enc_list p) c).
Proof.
  intros H Hc. rewrite reserve_fresh by lia. change (Bytes [] c true) with (filled [] c). rewrite append_byte_filled by (cbn [length]; lia).
  unfold in_list. rewrite rlp_list_start_spec by (cbn [app length]; lia).
  rewrite H by (rewrite !length_app; change (length reserved) with 9%nat; cbn [length]; lia). rewrite <- app_assoc.
  apply rlp_list_end_spec. rewrite !length_app. change (length reserved) with 9%nat. cbn [length app]. lia.
Qed.

Ltac pieces := unfold enc_vrs in *; rewrite ?length_app in *.

Lemma legacy_encode_spec t : wf_legacy t -> fits (TX_LEGACY t) -> legacy_tx_encode t = Some (filled (enc_tx (TX_LEGACY t)) 256).
Proof.
  intros [? ? ? ? ? ? ? ? ?] F. unfold fits in F; cbn [payload tx_capacity] in F. unfold legacy_tx_encode.
  rewrite reserve_fresh by (unfold DIV0_ARENA_BLOCK_SIZE; lia). change (Bytes [] 256 true) with (filled [] 256).
  apply (puts_in_list _ (legacy_payload t) 0); [lia| |].
  - intros d c Hc. unfold legacy_payload in Hc |- *. pieces. fields. rewrite <- !app_assoc. reflexivity.
  - unfold DIV0_ARENA_BLOCK_SIZE. pose proof (length_enc_list (legacy_payload t) ltac:(lia)). cbn [length]. lia.
Qed.

(** A body of single fields and nested lists. *)
Ltac body := intros d c Hc; pieces; fields; cbn [then_];
  repeat match goal with
  | |- context [tx_encode_access_list ?l (filled ?d ?c)] => rewrite (puts_access l ltac:(assumption) d c ltac:(rewrite ?length_app; lia))
  | |- context [tx_encode_authorization_list ?l (filled ?d ?c)] => rewrite (puts_auths l ltac:(assumption) d c ltac:(rewrite ?length_app; lia))
  | |- context [encode_blob_hashes ?l (filled ?d ?c)] => rewrite (puts_hashes l ltac:(assumption) d c ltac:(rewrite ?length_app; lia))
  | |- _ => progress (cbn [then_]; fields)
  end;
  rewrite <- ?app_assoc; reflexivity.

Lemma encode_2930_spec t : wf_2930 t -> fits (TX_EIP2930 t) -> eip2930_tx_encode t = Some (filled (enc_tx (TX_EIP2930 t)) 512).
Proof.
  intros [? ? ? ? ? ? ? ? ? ? ?] F. unfold fits in F; cbn [payload tx_capacity] in F.
  apply (outer_list _ (payload_2930 t) 1 512); [|unfold DIV0_ARENA_BLOCK_SIZE; lia]. unfold payload_2930. body.
Qed.

Lemma encode_1559_spec t : wf_1559 t -> fits (TX_EIP1559 t) -> eip1559_tx_encode t = Some (filled (enc_tx (TX_EIP1559 t)) 512).
Proof.
  intros [? ? ? ? ? ? ? ? ? ? ? ?] F. unfold fits in F; cbn [payload tx_capacity] in F.
  apply (outer_list _ (payload_1559 t) 2 512); [|unfold DIV0_ARENA_BLOCK_SIZE; lia]. unfold payload_1559. body.
Qed.

Lemma encode_4844_spec t : wf_4844 t -> fits (TX_EIP4844 t) -> eip4844_tx_encode t = Some (filled (enc_tx (TX_EIP4844 t)) 1024).
Proof.
  intros [? ? ? ? ? ? ? ? ? ? ? ? ? ?] F. unfold fits in F; cbn [payload tx_capacity] in F.
  apply (outer_list _ (payload_4844 t) 3 1024); [|unfold DIV0_ARENA_BLOCK_SIZE; lia]. unfold payload_4844. body.
Qed.

Lemma encode_7702_spec t : wf_7702 t -> fits (TX_EIP7702 t) -> eip7702_tx_encode t = Some (filled (enc_tx (TX_EIP7702 t)) 1024).
Proof.
  intros [? ? ? ? ? ? ? ? ? ? ? ? ?] F. unfold fits in F; cbn [payload tx_capacity] in F.
  apply (outer_list _ (payload_7702 t) 4 1024); [|unfold DIV0_ARENA_BLOCK_SIZE; lia]. unfold payload_7702. body.
Qed.

Lemma transaction_encode_spec tx : wf_transaction tx -> fits tx -> transaction_encode tx = Some (filled (enc_tx tx) (tx_capacity tx)).
Proof.
  destruct tx; cbn [wf_transaction transaction_encode tx_capacity];
    auto using legacy_encode_spec, encode_2930_spec, encode_1559_spec, encode_4844_spec, encode_7702_spec.
Qed.

(** * The decoders read them

    [parses m e v]: wherever the input goes on with [e], [m] reads it as [v]. *)
Definition parses {A} (m : TX A) (e : list Z) (v : A) : Prop :=
  forall d rest, dec_ok d -> tail d = e ++ rest -> m d = TxOk v (advance d (Z.of_nat (length e))).

Lemma parses_ret {A} (v : A) : parses (tx_ret v) [] v.
Proof. intros d rest _ _. cbn [length Z.of_nat]. rewrite advance_0. reflexivity. Qed.

Lemma parses_bind {A B} (m : TX A) (k : A -> TX B) e e' v w : parses m e v -> parses (k v) e' w -> parses (x <- m ;; k x) (e ++ e') w.
Proof.
  intros Hm Hk d rest D E. rewrite <- app_assoc in E. destruct (tail_consumed d e (e' ++ rest) D E) as [T D'].
  unfold tx_bind. rewrite (Hm d _ D E), (Hk _ rest D' T), advance_add, length_app, Nat2Z.inj_add. reflexivity.
Qed.

Lemma parses_last {A B} (m : TX A) (f : A -> B) e v : parses m e v -> parses (x <- m ;; tx_ret (f x)) e (f v).
Proof. intros H. rewrite <- (app_nil_r e). apply (parses_bind m _ e [] v); [exact H | apply parses_ret]. Qed.

Lemma parses_or_invalid {A} (f : decodes A) e v :
  (forall d rest, dec_ok d -> tail d = e ++ rest -> consumes f d e v rest) -> parses (or_invalid f) e v.
Proof. intros H d rest D E. destruct (H d rest D E) as (d' & Hf & -> & _). unfold or_invalid. rewrite Hf. reflexivity. Qed.

Lemma parses_u64 v : u64 v -> parses DECODE_U64 (enc_int v) v.
Proof. intros H. apply parses_or_invalid. intros d rest D. apply next_u64; assumption. Qed.

Lemma parses_256 v : wf256 v -> parses DECODE_UINT256 (enc_256 v) v.
Proof. intros H. apply parses_or_invalid. intros d rest D. apply next_uint256; assumption. Qed.

Lemma parses_parity v : u8 v -> parses DECODE_YPARITY (enc_int v) v.
Proof.
  intros H. rewrite <- (w8_small v H) at 2. apply (parses_last (or_invalid rlp_decode_u64) w8). apply parses_u64, u8_u64, H.
Qed.

Lemma parses_address a : wf_address a -> parses decode_required_address (enc_str a) a.
Proof. intros H. apply parses_or_invalid. intros d rest D. apply next_address; assumption. Qed.

Lemma parses_bytes b : parses (or_invalid rlp_decode_bytes) (enc_str b) b.
Proof. apply parses_or_invalid. intros d rest D. apply next_bytes; assumption. Qed.

Lemma parses_header n : 0 <= n < 2 ^ 64 -> parses (or_invalid rlp_decode_list_header) (header 192 n) n.
Proof. intros H. apply parses_or_invalid. intros d rest D. apply next_header; assumption. Qed.

Lemma parses_to a : wf_to a -> parses decode_optional_address (enc_to a) a.
Proof.
  intros H. unfold decode_optional_address. destruct a as [a|]; cbn [enc_to].
  - rewrite <- (app_nil_r (enc_str a)). eapply parses_bind; [apply parses_bytes|]. destruct H as [L _]. rewrite L. cbn [Nat.eqb negb].
    rewrite firstn_all2 by lia. apply parses_ret.
  - rewrite <- (app_nil_r (enc_str [])). eapply parses_bind; [apply parses_bytes | apply parses_ret].
Qed.

Lemma parses_data b : Z.of_nat (length b) <= DIV0_ARENA_BLOCK_SIZE -> parses decode_tx_data (enc_str b) b.
Proof.
  intros H. unfold decode_tx_data. rewrite <- (app_nil_r (enc_str b)). eapply parses_bind; [apply parses_bytes|].
  destruct (Z.gtb_spec (Z.of_nat (length b)) 0) as [P|P].
  - pose proof (reserve_fresh (Z.of_nat (length b)) ltac:(lia)) as R. unfold reserve in R.
    unfold bytes_reserve in *. cbn [b_capacity bytes_init_arena b_alloc] in *. destruct (_ <=? 0) eqn:Z0; [apply parses_ret|].
    destruct (alloc_succeeds _); [apply parses_ret|]. discriminate R.
  - destruct b; [apply parses_ret | cbn [length] in P; lia].
Qed.

#[export] Hint Resolve parses_u64 parses_256 parses_parity parses_address parses_to parses_data : tx.

(** ** Loops *)

Section Vectors.
Context (vec_push : forall A, list A -> A -> list A).
Hypothesis vec_push_spec : forall A (l : list A) x, (length l < 1024)%nat -> vec_push A l x = l ++ [x].

Lemma length_concat_ge {A} (e : A -> list Z) l : (forall x, In x l -> (1 <= length (e x))%nat) -> (length l <= length (concat (map e l)))%nat.
Proof.
  induction l as [|x l IH]; intros H; cbn [map concat length]; [lia|]. rewrite length_app.
  specialize (IH (fun y Hy => H y (or_intror Hy))). pose proof (H x (or_introl eq_refl)). lia.
Qed.

Lemma while_parses {A} (item : TX A) (e : A -> list Z) l : forall acc fuel d rest,
  (forall x, In x l -> parses item (e x) x /\ (1 <= length (e x))%nat) ->
  dec_ok d -> tail d = concat (map e l) ++ rest -> (length l <= fuel)%nat -> (length acc + length l <= 1024)%nat ->
  decode_while vec_push fuel item (d_pos d + Z.of_nat (length (concat (map e l)))) acc d =
    TxOk (acc ++ l) (advance d (Z.of_nat (length (concat (map e l))))).
Proof.
  induction l as [|x l IH]; intros acc fuel d rest HI D E Hf Ha.
  - destruct fuel; cbn [decode_while map concat length Z.of_nat]; rewrite Z.add_0_r, Z.ltb_irrefl, app_nil_r, advance_0; reflexivity.
  - destruct fuel as [|fuel]; [cbn in Hf; lia|]. cbn [map concat] in *. destruct (HI x (or_introl eq_refl)) as [Hx Lx].
    rewrite <- app_assoc in E. destruct (tail_consumed d (e x) _ D E) as [T D'].
    cbn [decode_while]. rewrite length_app, Nat2Z.inj_add, (proj2 (Z.ltb_lt _ _)) by lia.
    unfold tx_bind at 1. rewrite (Hx d _ D E). rewrite vec_push_spec by (cbn in Ha; lia).
    replace (d_pos d + (Z.of_nat (length (e x)) + Z.of_nat (length (concat (map e l)))))
      with (d_pos (advance d (Z.of_nat (length (e x)))) + Z.of_nat (length (concat (map e l)))) by (cbn; lia).
    rewrite (IH _ fuel _ rest); [| intros y Hy; apply HI; right; exact Hy | exact D' | exact T | cbn in Hf; lia | rewrite length_app; cbn in Ha |- *; lia].
    rewrite <- app_assoc, advance_add. reflexivity.
Qed.

(** A list of items read to its end. *)
Lemma list_parses {A} (item : TX A) (e : A -> list Z) l fuel :
  (forall x, In x l -> parses item (e x) x /\ (1 <= length (e x))%nat) ->
  (length (concat (map e l)) <= fuel)%nat -> (length (concat (map e l)) <= 1024)%nat ->
  parses (n <- or_invalid rlp_decode_list_header ;;
          if n =? 0 then tx_ret [] else stop <- list_end n ;; decode_while vec_push fuel item stop [])
    (enc_list (concat (map e l))) l.
Proof.
  intros HI HF HL. unfold enc_list. eapply parses_bind; [apply parses_header; lia|].
  pose proof (length_concat_ge e l (fun x Hx => proj2 (HI x Hx))) as LG.
  destruct (Z.eqb_spec (Z.of_nat (length (concat (map e l)))) 0) as [Z0|N].
  - assert (length l = 0)%nat by lia. destruct l; [apply parses_ret | discriminate].
  - intros d rest D E. pose proof (length_tail d D) as LT. rewrite E, length_app in LT. pose proof (dec_pos _ D). pose proof (dec_size _ D).
    unfold tx_bind, list_end, add64. rewrite w64_small by (unfold u64; lia).
    rewrite (while_parses item e l [] fuel d rest); [reflexivity | assumption | assumption | assumption | lia | cbn; lia].
Qed.

Lemma enc_list_pos p : (1 <= length (enc_list p))%nat.
Proof. unfold enc_list, header. rewrite length_app. destruct (_ <? _); cbn [length]; lia. Qed.

Lemma enc_256_pos v : wf256 v -> (1 <= length (enc_256 v))%nat.
Proof. intros H. pose proof (length_enc_256 v H). unfold enc_256. lia. Qed.

Lemma parses_entry fuel e : wf_entry e -> (length (enc_entry e) <= fuel)%nat -> (length (enc_entry e) <= 1024)%nat ->
  parses (decode_access_entry vec_push fuel) (enc_entry e) e.
Proof.
  intros [HA HK] HF HL. unfold enc_entry in *. pose proof (enc_list_ge (enc_str (ent_address e) ++ enc_list (concat (map enc_256 (ent_keys e))))) as G1.
  pose proof (enc_list_ge (concat (map enc_256 (ent_keys e)))) as G2. rewrite length_app in G1.
  unfold decode_access_entry, enc_list at 1. eapply parses_bind; [apply parses_header; rewrite length_app; lia|].
  eapply parses_bind; [apply parses_address, HA|]. unfold enc_list. intros d rest D E.
  assert (LP := list_parses (or_invalid rlp_decode_uint256) enc_256 (ent_keys e) fuel).
  rewrite Forall_forall in HK. specialize (LP (fun k Hk => conj (parses_256 k (HK k Hk)) (enc_256_pos k (HK k Hk))) ltac:(lia) ltac:(lia) d rest D E).
  unfold tx_bind, list_end, tx_ret in LP |- *. destruct (or_invalid rlp_decode_list_header d) as [n d1|er|]; [|discriminate LP..].
  destruct (n =? 0).
  - destruct e as [a ks]; cbn [ent_address ent_keys] in *. injection LP as <- ->. reflexivity.
  - rewrite LP. destruct e; reflexivity.
Qed.

Lemma in_concat_le {A} (e : A -> list Z) x l : In x l -> (length (e x) <= length (concat (map e l)))%nat.
Proof.
  induction l as [|y l IH]; [intros []|]. cbn [map concat]. rewrite length_app. intros [-> | H]; [lia|]. specialize (IH H). lia.
Qed.

Lemma parses_access fuel l : Forall wf_entry l -> (length (enc_access l) <= fuel)%nat -> (length (enc_access l) <= 1024)%nat ->
  parses (decode_access_list vec_push fuel) (enc_access l) l.
Proof.
  intros HW HF HL. unfold enc_access in *. pose proof (enc_list_ge (concat (map enc_entry l))) as G.
  apply (list_parses (decode_access_entry vec_push fuel) enc_entry); [|lia|lia]. rewrite Forall_forall in HW. intros x Hx.
  pose proof (in_concat_le enc_entry x l Hx). split; [apply parses_entry; [auto | lia | lia] | apply enc_list_pos].
Qed.

Lemma parses_auth a : wf_auth a -> Z.of_nat (length (enc_auth a)) < 2 ^ 63 -> parses decode_authorization (enc_auth a) a.
Proof.
  intros [? ? ? ? ? ?] L. unfold enc_auth in *. match type of L with context [enc_list ?p] => pose proof (enc_list_ge p) end.
  unfold decode_authorization, enc_list. eapply parses_bind; [apply parses_header; lia|].
  repeat (eapply parses_bind; [eauto with tx|]).
  replace a with ((fun s => Authorization (auth_chain_id a) (auth_address a) (auth_nonce a) (w8 (auth_y_parity a)) (auth_r a) s) (auth_s a)) at 2.
  - apply parses_last. apply parses_256. assumption.
  - cbv beta. rewrite w8_small by assumption. destruct a; reflexivity.
Qed.

Lemma parses_auths fuel l : Forall wf_auth l -> (length (enc_auths l) <= fuel)%nat -> (length (enc_auths l) <= 1024)%nat ->
  parses (decode_authorization_list vec_push fuel) (enc_auths l) l.
Proof.
  intros HW HF HL. unfold enc_auths in *. pose proof (enc_list_ge (concat (map enc_auth l))) as G.
  apply (list_parses decode_authorization enc_auth); [|lia|lia]. rewrite Forall_forall in HW. intros x Hx.
  pose proof (in_concat_le enc_auth x l Hx). split; [apply parses_auth; [auto | lia] | apply enc_list_pos].
Qed.

(** ** Blob hashes: counted, then read again *)

Lemma count_items_spec l : forall fuel n d rest, dec_ok d -> tail d = concat (map enc_str l) ++ rest -> Forall wf_hash l ->
  (length l <= fuel)%nat -> 0 <= n -> n + Z.of_nat (length l) < 2 ^ 64 ->
  count_items fuel (d_pos d + Z.of_nat (length (concat (map enc_str l)))) n d =
    TxOk (n + Z.of_nat (length l)) (advance d (Z.of_nat (length (concat (map enc_str l))))).
Proof.
  induction l as [|h l IH]; intros fuel n d rest D E F Hf Hn Hl.
  - destruct fuel; cbn [count_items map concat length Z.of_nat]; rewrite !Z.add_0_r, Z.ltb_irrefl, advance_0; reflexivity.
  - destruct fuel as [|fuel]; [cbn in Hf; lia|]. cbn [map concat] in *. inversion F as [|? ? Fh Fl]; subst.
    rewrite <- app_assoc in E. destruct (tail_consumed d (enc_str h) _ D E) as [T D']. pose proof (length_enc_hash h Fh) as L33.
    cbn [count_items]. rewrite length_app, Nat2Z.inj_add, L33, (proj2 (Z.ltb_lt _ _)) by lia.
    rewrite (skip_item d (Str h) _ D E). cbn [enc]. cbn [length] in *. unfold add64. rewrite w64_small by (unfold u64; lia).
    replace (d_pos d + (Z.of_nat 33 + Z.of_nat (length (concat (map enc_str l)))))
      with (d_pos (advance d (Z.of_nat (length (enc_str h)))) + Z.of_nat (length (concat (map enc_str l)))) by (rewrite L33; cbn [d_pos advance set_pos]; lia).
    rewrite (IH fuel (n + 1) _ rest D' T Fl) by lia. rewrite advance_add, L33. f_equal. lia.
Qed.

Lemma parses_hashes l : Forall wf_hash l -> parses (decode_hashes (length l)) (concat (map enc_str l)) l.
Proof.
  induction 1 as [|h l [L _] _ IH]; cbn [length decode_hashes map concat]; [apply parses_ret|].
  intros d rest D E. rewrite <- app_assoc in E. destruct (next_bytes d _ D h E) as (d' & -> & -> & D' & T).
  rewrite L, Nat.eqb_refl. cbn [negb]. rewrite firstn_all2 by lia.
  unfold tx_bind, tx_ret. rewrite (IH _ rest D' T), advance_add, length_app, Nat2Z.inj_add. reflexivity.
Qed.

Lemma parses_blob_hashes fuel l : Forall wf_hash l -> (length (enc_hashes l) <= fuel)%nat -> (length (enc_hashes l) <= 1024)%nat ->
  parses (decode_blob_hashes fuel) (enc_hashes l) l.
Proof.
  intros HW HF HL. unfold hash_t in *. unfold enc_hashes in *. pose proof (enc_list_ge (concat (map enc_str l))) as G.
  assert (LG : (length l <= length (concat (map enc_str l)))%nat).
  { apply length_concat_ge. intros x Hx. rewrite Forall_forall in HW. rewrite length_enc_hash by auto. lia. }
  unfold decode_blob_hashes, enc_list. eapply parses_bind; [apply parses_header; lia|].
  destruct (Z.eqb_spec (Z.of_nat (length (concat (map enc_str l)))) 0) as [Z0|N].
  - assert (length l = 0)%nat by lia. destruct l; [apply parses_ret | discriminate].
  - intros d rest D E. pose proof (length_tail d D) as LT. rewrite E, length_app in LT. pose proof (dec_pos _ D). pose proof (dec_size _ D).
    unfold tx_bind at 1. unfold list_end, add64. rewrite w64_small by (unfold u64; lia). cbv zeta. unfold tx_bind at 1.
    rewrite (count_items_spec l fuel 0 d rest D E HW) by lia. rewrite Z.add_0_l.
    assert (A : eip4844_tx_alloc_blob_hashes (Z.of_nat (length l)) = true).
    { unfold eip4844_tx_alloc_blob_hashes, mul64, SIZEOF_HASH. destruct (Z.eqb_spec (Z.of_nat (length l)) 0); [reflexivity|].
      rewrite w64_small by (unfold u64; lia). unfold alloc_succeeds, DIV0_ARENA_BLOCK_SIZE.
      rewrite (proj2 (Z.ltb_lt _ _)), (proj2 (Z.leb_le _ _)) by lia. reflexivity. }
    rewrite A, Nat2Z.id. cbn [negb]. replace (set_pos _ (d_pos d)) with d by (destruct d; reflexivity).
    apply (parses_hashes l HW d rest D E).
Qed.
End Vectors.

(** ** Byte strings *)

Lemma ok_concat {A} (e : A -> list Z) l : (forall x, In x l -> bytes_ok (e x)) -> bytes_ok (concat (map e l)).
Proof.
  induction l as [|x l IH]; intros H; [constructor|]. cbn [map concat]. apply bytes_ok_app; [apply H; left; reflexivity|].
  apply IH. intros y Hy. apply H. right. exact Hy.
Qed.

(** A list within the sizes the encoders handle. *)
Lemma ok_list p : bytes_ok p -> Z.of_nat (length (enc_list p)) <= 2048 -> bytes_ok (enc_list p).
Proof. intros B L. pose proof (enc_list_ge p). apply bytes_ok_enc_list; [exact B | lia]. Qed.

Lemma ok_256 v : wf256 v -> bytes_ok (enc_256 v).
Proof. apply bytes_ok_enc_256. Qed.

Lemma ok_to a : wf_to a -> bytes_ok (enc_to a).
Proof. destruct a; [apply bytes_ok_enc_address | intros _; repeat constructor; lia]. Qed.

Lemma ok_data b : bytes_ok b -> Z.of_nat (length (enc_str b)) <= 2048 -> bytes_ok (enc_str b).
Proof.
  intros B L. apply bytes_ok_enc_str; [exact B|]. unfold enc_str in L. destruct (_ && _); [lia|]. rewrite length_app in L. lia.
Qed.

Lemma ok_vrs y r s : u64 y -> wf256 r -> wf256 s -> bytes_ok (enc_vrs y r s).
Proof. intros. unfold enc_vrs. auto using bytes_ok_app, bytes_ok_enc_u64, ok_256. Qed.

Lemma ok_entry e : wf_entry e -> Z.of_nat (length (enc_entry e)) <= 2048 -> bytes_ok (enc_entry e).
Proof.
  intros [HA HK] L. apply ok_list; [|exact L]. pose proof (enc_list_ge (enc_str (ent_address e) ++ enc_list (concat (map enc_256 (ent_keys e))))) as G.
  rewrite length_app in G. unfold enc_entry in L. apply bytes_ok_app; [apply bytes_ok_enc_address, HA|].
  apply ok_list; [|lia]. apply ok_concat. intros k Hk. rewrite Forall_forall in HK. apply ok_256, HK, Hk.
Qed.

Lemma ok_access l : Forall wf_entry l -> Z.of_nat (length (enc_access l)) <= 2048 -> bytes_ok (enc_access l).
Proof.
  intros H L. apply ok_list; [|exact L]. pose proof (enc_list_ge (concat (map enc_entry l))). unfold enc_access in L. rewrite Forall_forall in H.
  apply ok_concat. intros x Hx. pose proof (in_concat_le enc_entry x l Hx). apply ok_entry; [auto | lia].
Qed.

Lemma ok_auths l : Forall wf_auth l -> Z.of_nat (length (enc_auths l)) <= 2048 -> bytes_ok (enc_auths l).
Proof.
  intros H L. apply ok_list; [|exact L]. pose proof (enc_list_ge (concat (map enc_auth l))). unfold enc_auths in L. rewrite Forall_forall in H.
  apply ok_concat. intros x Hx. pose proof (in_concat_le enc_auth x l Hx). destruct (H x Hx). unfold enc_auth in *. apply ok_list; [|lia].
  repeat apply bytes_ok_app; auto using bytes_ok_enc_u64, ok_256, bytes_ok_enc_address, u8_u64.
Qed.

Lemma ok_hashes l : Forall wf_hash l -> Z.of_nat (length (enc_hashes l)) <= 2048 -> bytes_ok (enc_hashes l).
Proof.
  intros H L. apply ok_list; [|exact L]. rewrite Forall_forall in H. apply ok_concat. intros x Hx. apply bytes_ok_enc_hash, H, Hx.
Qed.

(** ** Whole transactions *)

Lemma fields_parse {A} (body : TX A) p tx : parses body p tx -> bytes_ok p -> Z.of_nat (length p) <= 2048 ->
  decode_fields (enc_list p) body = DecodeOk tx (Z.of_nat (length (enc_list p))).
Proof.
  intros H B L. pose proof (enc_list_pos p). pose proof (length_enc_list p ltac:(lia)) as LE. pose proof (length_header 192 (Z.of_nat (length p)) ltac:(lia)).
  unfold decode_fields. destruct (Nat.eqb_spec (length (enc_list p)) 0); [lia|].
  destruct (dec_ok_init (enc_list p)) as [D T]; [apply bytes_ok_enc_list; [exact B | lia] | lia|].
  destruct (next_header _ p D (Z.of_nat (length p)) ltac:(lia) T) as (d1 & -> & _ & D1 & T1).
  rewrite (H d1 [] D1) by (rewrite app_nil_r; exact T1). unfold add64. rewrite w64_small by (unfold u64; lia).
  unfold enc_list. rewrite length_app. f_equal. lia.
Qed.

Section Roundtrip.
Context (vec_push : forall A, list A -> A -> list A).
Hypothesis vec_push_spec : forall A (l : list A) x, (length l < 1024)%nat -> vec_push A l x = l ++ [x].

Lemma enc_str_ge b : Z.of_nat (length b) <= Z.of_nat (length (enc_str b)).
Proof. unfold enc_str. destruct (_ && _); [lia|]. rewrite length_app. lia. Qed.

(** The fields one after the other; the signature ends them. *)
Ltac steps := repeat first
  [ eapply parses_bind; [solve [eauto with tx]|]
  | eapply parses_bind; [apply parses_access; [exact vec_push_spec | assumption | lia | lia]|]
  | eapply parses_bind; [apply parses_auths; [exact vec_push_spec | assumption | lia | lia]|]
  | eapply parses_bind; [apply parses_blob_hashes; [assumption | lia | lia]|]
  | eapply parses_bind; [apply parses_data; unfold DIV0_ARENA_BLOCK_SIZE; lia|] ];
  rewrite <- (app_nil_r (enc_256 _)); eapply parses_bind; [solve [eauto with tx]|].

Ltac oks := unfold enc_vrs; repeat match goal with |- bytes_ok (_ ++ _) => apply bytes_ok_app end;
  solve [auto using bytes_ok_enc_u64, ok_256, bytes_ok_enc_address, u8_u64, ok_to
        | apply ok_access; [assumption | lia] | apply ok_auths; [assumption | lia] | apply ok_hashes; [assumption | lia] | apply ok_data; [assumption | lia]].

Lemma legacy_decode_spec t : wf_legacy t -> Z.of_nat (length (legacy_payload t)) <= 987 ->
  legacy_tx_decode (enc_list (legacy_payload t)) = DecodeOk t (Z.of_nat (length (enc_list (legacy_payload t)))).
Proof.
  intros [? ? ? ? ? ? ? ? ?] L. pose proof (enc_str_ge (leg_data t)). apply fields_parse; [| |lia].
  - unfold legacy_payload, enc_vrs in *. rewrite !length_app in L. steps. destruct t; apply parses_ret.
  - unfold legacy_payload in *. rewrite !length_app in L. oks.
Qed.
Lemma decode_2930_spec fuel t : wf_2930 t -> Z.of_nat (length (payload_2930 t)) <= 987 -> (length (payload_2930 t) <= fuel)%nat ->
  eip2930_tx_decode vec_push fuel (enc_list (payload_2930 t)) = DecodeOk t (Z.of_nat (length (enc_list (payload_2930 t)))).
Proof.
  intros [? ? ? ? ? ? ? ? ? ? ?] L F. pose proof (enc_str_ge (t1_data t)). apply fields_parse; [| |lia].
  - unfold payload_2930, enc_vrs in *. rewrite !length_app in *. steps. destruct t; apply parses_ret.
  - unfold payload_2930 in *. rewrite !length_app in *. oks.
Qed.

Lemma decode_1559_spec fuel t : wf_1559 t -> Z.of_nat (length (payload_1559 t)) <= 987 -> (length (payload_1559 t) <= fuel)%nat ->
  eip1559_tx_decode vec_push fuel (enc_list (payload_1559 t)) = DecodeOk t (Z.of_nat (length (enc_list (payload_1559 t)))).
Proof.
  intros [? ? ? ? ? ? ? ? ? ? ? ?] L F. pose proof (enc_str_ge (t2_data t)). apply fields_parse; [| |lia].
  - unfold payload_1559, enc_vrs in *. rewrite !length_app in *. steps. destruct t; apply parses_ret.
  - unfold payload_1559 in *. rewrite !length_app in *. oks.
Qed.

Lemma decode_4844_spec fuel t : wf_4844 t -> Z.of_nat (length (payload_4844 t)) <= 987 -> (length (payload_4844 t) <= fuel)%nat ->
  eip4844_tx_decode vec_push fuel (enc_list (payload_4844 t)) = DecodeOk t (Z.of_nat (length (enc_list (payload_4844 t)))).
Proof.
  intros [? ? ? ? ? ? ? ? ? ? ? ? ? ?] L F. pose proof (enc_str_ge (t3_data t)). apply fields_parse; [| |lia].
  - unfold payload_4844, enc_vrs in *. rewrite !length_app in *. steps. destruct t; apply parses_ret.
  - unfold payload_4844 in *. rewrite !length_app in *. oks.
Qed.

Lemma decode_7702_spec fuel t : wf_7702 t -> Z.of_nat (length (payload_7702 t)) <= 987 -> (length (payload_7702 t) <= fuel)%nat ->
  eip7702_tx_decode vec_push fuel (enc_list (payload_7702 t)) = DecodeOk t (Z.of_nat (length (enc_list (payload_7702 t)))).
Proof.
  intros [? ? ? ? ? ? ? ? ? ? ? ? ?] L F. pose proof (enc_str_ge (t4_data t)). apply fields_parse; [| |lia].
  - unfold payload_7702, enc_vrs in *. rewrite !length_app in *. steps. destruct t; apply parses_ret.
  - unfold payload_7702 in *. rewrite !length_app in *. oks.
Qed.

Lemma transaction_roundtrip_spec fuel tx : wf_transaction tx -> fits tx -> (length (payload tx) <= fuel)%nat ->
  transaction_decode vec_push fuel (enc_tx tx) = DecodeOk tx (Z.of_nat (length (enc_tx tx))).
Proof.
  intros W F HF. unfold fits in F. assert (C : tx_capacity tx <= 1024) by (destruct tx; cbn; lia).
  pose proof (length_enc_list (payload tx) ltac:(lia)) as LE.
  assert (R : forall n, Z.of_nat (length (enc_list (payload tx))) +64 n = Z.of_nat (length (enc_list (payload tx))) + n \/ n < 0 \/ 1 < n).
  { intros n. destruct (Z.lt_ge_cases n 0); [auto|]. destruct (Z.lt_ge_cases 1 n); [auto|]. left. apply w64_small. unfold u64. lia. }
  unfold enc_tx. destruct tx; cbn [tx_type payload tx_capacity wf_transaction Z.eqb app] in *.
  - pose proof (legacy_decode_spec tx W ltac:(lia)) as E. unfold transaction_decode.
    destruct (enc_list (legacy_payload tx)) as [|b bs] eqn:EL; [cbn [length] in LE; lia|]. rewrite E.
    assert (192 <= b).
    { unfold enc_list, header in EL. destruct (Z.ltb_spec (Z.of_nat (length (legacy_payload tx))) 56); cbn [app] in EL.
      - assert (b = 192 + Z.of_nat (length (legacy_payload tx))) by congruence. lia.
      - assert (b = 192 + 55 + nbytes (Z.of_nat (length (legacy_payload tx)))) by congruence.
        pose proof (nbytes_range (Z.of_nat (length (legacy_payload tx)))). lia. }
    rewrite Z.geb_leb, (proj2 (Z.leb_le 192 b)) by lia. cbn [result_map]. destruct (R 0) as [-> | [|]]; [f_equal; lia | lia..].
  - change (transaction_decode vec_push fuel (1 :: ?l)) with (result_map TX_EIP2930 1 (eip2930_tx_decode vec_push fuel l)).
    rewrite decode_2930_spec by (assumption || lia). cbn [result_map length]. destruct (R 1) as [-> | [|]]; [f_equal; lia | lia..].
  - change (transaction_decode vec_push fuel (2 :: ?l)) with (result_map TX_EIP1559 1 (eip1559_tx_decode vec_push fuel l)).
    rewrite decode_1559_spec by (assumption || lia). cbn [result_map length]. destruct (R 1) as [-> | [|]]; [f_equal; lia | lia..].
  - change (transaction_decode vec_push fuel (3 :: ?l)) with (result_map TX_EIP4844 1 (eip4844_tx_decode vec_push fuel l)).
    rewrite decode_4844_spec by (assumption || lia). cbn [result_map length]. destruct (R 1) as [-> | [|]]; [f_equal; lia | lia..].
  - change (transaction_decode vec_push fuel (4 :: ?l)) with (result_map TX_EIP7702 1 (eip7702_tx_decode vec_push fuel l)).
    rewrite decode_7702_spec by (assumption || lia). cbn [result_map length]. destruct (R 1) as [-> | [|]]; [f_equal; lia | lia..].
Qed.
End Roundtrip.

(** * Decoding ends

    [moves n strict m]: on inputs of at most [n] bytes, [m] returns; if it
    succeeds it has moved forward, by at least one byte when [strict]. *)
Definition moves {A} (n : Z) (strict : bool) (m : TX A) : Prop :=
  forall d, dec_ok d -> d_size d <= n ->
    match m d with
    | TxOk _ d' => dec_ok d' /\ d_size d' = d_size d /\ d_pos d + (if strict then 1 else 0) <= d_pos d'
    | TxErr _ => True
    | TxLoops => False
    end.

Lemma moves_weak {A} n s (m : TX A) : moves n s m -> moves n false m.
Proof.
  intros H d D S. specialize (H d D S). destruct (m d); auto. destruct H as (? & ? & ?). repeat split; try assumption; destruct s; try apply H; lia || apply H.
Qed.

Lemma moves_bind {A B} n s (m : TX A) (k : A -> TX B) : moves n s m -> (forall x, moves n false (k x)) -> moves n s (x <- m ;; k x).
Proof.
  intros Hm Hk d D S. specialize (Hm d D S). unfold tx_bind. destruct (m d) as [x d1|e|]; auto. destruct Hm as (D1 & S1 & P1).
  specialize (Hk x d1 D1 ltac:(lia)). destruct (k x d1) as [y d2|e|]; auto. destruct Hk as (D2 & S2 & P2). repeat split; try apply D2; lia.
Qed.

Lemma moves_ret {A} n (v : A) : moves n false (tx_ret v).
Proof. intros d D S. cbn. repeat split; try apply D; lia. Qed.

Lemma moves_err {A} n s e : moves n s (fun _ => @TxErr A e).
Proof. intros d D S. exact I. Qed.

Lemma moves_list_end n p : moves n false (list_end p).
Proof. intros d D S. cbn. repeat split; try apply D; lia. Qed.

(** A decoder that consumes what it accepts. *)
Lemma moves_or_invalid {A} n (f : decodes A) :
  (forall d d' v c, dec_ok d -> f d = (d', RlpOk v c) -> exists enc rest, tail d = enc ++ rest /\ d' = advance d (Z.of_nat (length enc)) /\ (1 <= length enc)%nat) ->
  moves n true (or_invalid f).
Proof.
  intros H d D S. unfold or_invalid. destruct (f d) as [d' [v c|e]] eqn:E; [|exact I].
  destruct (H d d' v c D E) as (enc & rest & T & -> & L). destruct (tail_consumed d enc rest D T) as [_ D']. split; [exact D'|].
  split; [reflexivity | cbn; lia].
Qed.

Lemma enc_str_pos b : (1 <= length (enc_str b))%nat.
Proof.
  unfold enc_str. destruct (_ && _) eqn:E; [apply andb_true_iff in E as [E%Z.eqb_eq _]; lia|]. rewrite length_app.
  unfold header. destruct (_ <? 56); cbn [length]; lia.
Qed.

Lemma int_at_pos d v enc : int_at d v enc -> (1 <= length enc)%nat /\ exists rest, tail d = enc ++ rest.
Proof. intros [[-> | [_ ->]] H]; (split; [|exact H]); [apply enc_str_pos | cbn; lia]. Qed.

Lemma moves_u64 n : moves n true DECODE_U64.
Proof.
  apply moves_or_invalid. intros d d' v c D E. destruct (decode_u64_sound d d' v c D E) as (_ & enc & I & -> & ->).
  destruct (int_at_pos d v enc I) as [L (rest & T)]. eauto.
Qed.

Lemma moves_256 n : moves n true DECODE_UINT256.
Proof.
  apply moves_or_invalid. intros d d' v c D E. destruct (decode_uint256_sound d d' v c D E) as (_ & enc & I & -> & ->).
  destruct (int_at_pos d _ enc I) as [L (rest & T)]. eauto.
Qed.

Lemma moves_address n : moves n true decode_required_address.
Proof.
  apply moves_or_invalid. intros d d' v c D E. destruct (decode_address_sound d d' v c D E) as (_ & (rest & T) & -> & ->).
  eauto using enc_str_pos.
Qed.

Lemma moves_bytes n : moves n true (or_invalid rlp_decode_bytes).
Proof.
  apply moves_or_invalid. intros d d' v c D E. destruct (decode_bytes_sound d d' v c D E) as (rest & T & -> & _).
  eauto using enc_str_pos.
Qed.

Lemma moves_header n : moves n true (or_invalid rlp_decode_list_header).
Proof.
  apply moves_or_invalid. intros d d' v c D E. destruct (decode_list_header_sound d d' v c D E) as (V & (rest & T) & -> & ->).
  exists (header 192 v), rest. pose proof (length_header 192 v V). repeat split; [exact T | lia].
Qed.

#[local] Hint Resolve moves_weak moves_ret moves_err moves_list_end moves_u64 moves_256 moves_address moves_bytes moves_header : tx.

Lemma moves_parity n : moves n true DECODE_YPARITY.
Proof. apply moves_bind; [apply moves_u64 | intros; apply moves_ret]. Qed.

Lemma moves_to n : moves n true decode_optional_address.
Proof.
  apply moves_bind; [apply moves_bytes|]. intros b. destruct (length b =? 0)%nat; [apply moves_ret|].
  destruct (negb _); [apply moves_err|]. destruct (negb _); [apply moves_err | apply moves_ret].
Qed.

Lemma moves_data n : moves n true decode_tx_data.
Proof.
  apply moves_bind; [apply moves_bytes|]. intros b. destruct (_ >? 0); [|apply moves_ret].
  destruct (bytes_reserve _ _) as [[] ?]; [apply moves_ret | apply moves_err].
Qed.

Lemma moves_while {A} vec_push n fuel (item : TX A) stop : moves n true item -> n < Z.of_nat fuel ->
  forall acc, moves n false (decode_while vec_push fuel item stop acc).
Proof.
  intros HI HF. enough (G : forall f acc d, dec_ok d -> d_size d <= n -> d_size d - d_pos d < Z.of_nat f ->
    match decode_while vec_push f item stop acc d with
    | TxOk _ d' => dec_ok d' /\ d_size d' = d_size d /\ d_pos d + 0 <= d_pos d'
    | TxErr _ => True
    | TxLoops => False
    end).
  { intros acc d D S. apply G; [assumption..|]. pose proof (dec_pos _ D). lia. }
  induction f as [|f IH]; intros acc d D S HfF; pose proof (dec_pos _ D); [lia|]. cbn [decode_while].
  destruct (d_pos d <? stop); [|repeat split; try apply D; lia].
  specialize (HI d D S). unfold tx_bind. destruct (item d) as [x d1|e|]; auto. destruct HI as (D1 & S1 & P1).
  specialize (IH (vec_push A acc x) d1 D1 ltac:(lia) ltac:(lia)). destruct (decode_while _ _ _ _ _ d1) as [y d2|e|]; auto.
  destruct IH as (D2 & S2 & P2). repeat split; try apply D2; lia.
Qed.

Section Ends.
Context (vec_push : forall A, list A -> A -> list A) (n : Z) (fuel : nat) (HF : n < Z.of_nat fuel).

Lemma moves_entry : moves n true (decode_access_entry vec_push fuel).
Proof.
  apply moves_bind; [apply moves_header | intros _]. eapply moves_weak, moves_bind; [apply moves_address | intros a].
  eapply moves_weak, moves_bind; [apply moves_header | intros k]. destruct (k =? 0); [apply moves_ret|].
  apply moves_bind; [apply moves_list_end | intros stop]. apply moves_bind; [apply moves_while; [apply moves_256 | exact HF] | intros; apply moves_ret].
Qed.

Lemma moves_access : moves n false (decode_access_list vec_push fuel).
Proof.
  eapply moves_weak, moves_bind; [apply moves_header | intros k]. destruct (k =? 0); [apply moves_ret|].
  apply moves_bind; [apply moves_list_end | intros stop]. apply moves_while; [apply moves_entry | exact HF].
Qed.

Lemma moves_auth : moves n true decode_authorization.
Proof.
  apply moves_bind; [apply moves_header | intros _].
  repeat (eapply moves_weak, moves_bind; [first [apply moves_u64 | apply moves_address | apply moves_256] | intros ?]). apply moves_ret.
Qed.

Lemma moves_auths : moves n false (decode_authorization_list vec_push fuel).
Proof.
  eapply moves_weak, moves_bind; [apply moves_header | intros k]. destruct (k =? 0); [apply moves_ret|].
  apply moves_bind; [apply moves_list_end | intros stop]. apply moves_while; [apply moves_auth | exact HF].
Qed.
End Ends.

Lemma fields_end {A} (body : TX A) data : bytes_ok data -> Z.of_nat (length data) < 2 ^ 63 ->
  moves (Z.of_nat (length data)) false body -> decode_fields data body <> DecodeLoops.
Proof.
  intros B L H. unfold decode_fields. destruct (length data =? 0)%nat; [discriminate|].
  destruct (dec_ok_init data B L) as [D T]. pose proof (moves_header (Z.of_nat (length data)) _ D ltac:(cbn; unfold d_size; cbn; lia)) as M.
  unfold or_invalid in M. destruct (rlp_decode_list_header (rlp_decoder_init data)) as [d1 [k c|e]]; [|discriminate].
  destruct M as (D1 & S1 & _). specialize (H d1 D1 ltac:(rewrite S1; unfold d_size; cbn; lia)). destruct (body d1); [discriminate.. | contradiction].
Qed.

Ltac ends := repeat (eapply moves_weak, moves_bind;
  [solve [eapply moves_weak; first [apply moves_u64 | apply moves_256 | apply moves_to | apply moves_address | apply moves_data | apply moves_parity
    | apply moves_access; lia | apply moves_auths; lia] | first [apply moves_access; lia | apply moves_auths; lia]] | intros ?]); apply moves_ret.

(** Every format without blobs. *)
Lemma decode_ends vec_push fuel data : bytes_ok data -> Z.of_nat (length data) < 2 ^ 63 -> (length data < fuel)%nat ->
  hd 0 data <> 3 -> transaction_decode vec_push fuel data <> DecodeLoops.
Proof.
  intros B L F H3. destruct data as [|b rest]; [discriminate|]. cbn [hd length] in *. pose proof (Forall_inv_tail B) as B'.
  assert (R : forall A (C : A -> transaction_t) k r, r <> DecodeLoops -> result_map C k r <> DecodeLoops) by (intros A C k [] Hr; [discriminate.. | contradiction]).
  unfold transaction_decode. destruct (b >=? 192); [apply R, fields_end; [assumption | cbn [length]; lia | ends]|].
  destruct (_ || _); [discriminate|]. destruct (b =? 1); [apply R, fields_end; [assumption | lia | ends]|].
  destruct (b =? 2); [apply R, fields_end; [assumption | lia | ends]|].
  destruct (Z.eqb_spec b 3) as [->|_]; [contradiction|]. destruct (b =? 4); [apply R, fields_end; [assumption | lia | ends] | discriminate].
Qed.

(** ** Except for blob transactions *)

Lemma skip_stays d : dec_ok d -> dec_ok (rlp_skip_item d) /\ d_size (rlp_skip_item d) = d_size d.
Proof.
  intros D. assert (K : forall p, 0 <= p <= d_size d -> dec_ok (set_pos d p) /\ d_size (set_pos d p) = d_size d).
  { intros p Hp. destruct D as [P S B]. split; [|reflexivity]. split; [exact Hp | exact S | exact B]. }
  assert (KC : forall p q, 0 <= p <= d_size d -> 0 <= q -> dec_ok (clamp_pos (set_pos d p) q) /\ d_size (clamp_pos (set_pos d p) q) = d_size d).
  { intros p q Hp Hq. unfold clamp_pos. change (set_pos (set_pos d p) ?x) with (set_pos d x). change (d_size (set_pos d p)) with (d_size d).
    apply K. destruct (Z.ltb_spec q (d_size d)); lia. }
  assert (KL : forall k d1 v, dec_ok d1 -> d_input d1 = d_input d -> 0 <= v -> exists p v', skip_length k d1 v = (set_pos d p, v') /\ 0 <= p <= d_size d).
  { induction k as [|k IH]; intros d1 v D1 E1 Hv; cbn [skip_length].
    - exists (d_pos d1), v. destruct d1; cbn in *; subst. split; [reflexivity | apply D1].
    - destruct (Z.ltb_spec (d_pos d1) (d_size d1)) as [Lt|Ge].
      + apply IH; [|exact E1|].
        * destruct D1 as [P S B]. unfold add64. rewrite w64_small by (unfold u64; lia). split; [cbn; unfold d_size in *; cbn; lia | exact S | exact B].
        * apply Z.lor_nonneg. split; [apply w64_range|]. rewrite at_pos_tail. unfold aget. pose proof (tail_ok d1 D1) as B. destruct (tail d1); [cbn; lia|]. apply (Forall_inv B).
      + exists (d_pos d1), v. destruct d1; cbn in *; subst. split; [reflexivity | apply D1]. }
  pose proof (dec_pos _ D) as P. pose proof (dec_size _ D) as S.
  assert (P1 : rlp_decoder_has_more d = true -> d_pos d +64 1 = d_pos d + 1 /\ d_pos d + 1 <= d_size d).
  { intros M%Z.ltb_lt. unfold add64. rewrite w64_small by (unfold u64; lia). lia. }
  assert (SL : forall k, rlp_decoder_has_more d = true -> dec_ok (skip_long k d) /\ d_size (skip_long k d) = d_size d).
  { intros k M. destruct (P1 M) as [E1 L1]. unfold skip_long. rewrite E1. destruct (KL (Z.to_nat k) (set_pos d (d_pos d + 1)) 0) as (p & v' & -> & Hp);
      [apply K; lia | reflexivity | lia|]. apply KC; [exact Hp | apply w64_range]. }
  unfold rlp_skip_item. destruct (rlp_decoder_has_more d) eqn:M; cbn [negb]; [|auto]. destruct (P1 eq_refl) as [E1 L1]. rewrite E1.
  assert (C : clamp_pos d = clamp_pos (set_pos d (d_pos d))) by (destruct d; reflexivity). rewrite C.
  repeat match goal with |- context [if ?b then _ else _] => destruct b end; auto; try (apply K; lia); apply KC; (lia || apply w64_range).
Qed.

(** The counting loop never passes the end of the input. *)
Lemma count_items_hangs fuel : forall stop k d, dec_ok d -> d_size d < stop -> count_items fuel stop k d = TxLoops.
Proof.
  induction fuel as [|fuel IH]; intros stop k d D H; pose proof (dec_pos _ D); cbn [count_items]; rewrite (proj2 (Z.ltb_lt _ _)) by lia; [reflexivity|].
  destruct (skip_stays d D) as [D' S]. apply IH; [exact D' | lia].
Qed.

Lemma blob_hashes_hang fuel d n c d' : dec_ok d -> rlp_decode_list_header d = (d', RlpOk n c) -> d_size d < d_pos d' + n < 2 ^ 64 ->
  decode_blob_hashes fuel d = TxLoops.
Proof.
  intros D E H. destruct (decode_list_header_sound d d' n c D E) as (N & (rest & T) & -> & ->).
  destruct (tail_consumed d _ _ D T) as [T' D']. pose proof (dec_pos _ D') as P.
  unfold decode_blob_hashes, tx_bind at 1, or_invalid. rewrite E. destruct (Z.eqb_spec n 0) as [->|_].
  - change (d_size (advance d _)) with (d_size d) in P. lia.
  - unfold tx_bind at 1, list_end, add64. rewrite w64_small by (unfold u64; lia). cbv zeta. unfold tx_bind at 1. rewrite count_items_hangs; [reflexivity | exact D' | exact (proj1 H)].
Qed.

Definition stuck {A} (m : TX A) (e : list Z) : Prop := forall d, dec_ok d -> tail d = e -> m d = TxLoops.

Lemma stuck_after {A B} (m : TX A) (k : A -> TX B) e e' v : parses m e v -> stuck (k v) e' -> stuck (x <- m ;; k x) (e ++ e').
Proof.
  intros Hm Hk d D E. destruct (tail_consumed d e e' D E) as [T D']. unfold tx_bind. rewrite (Hm d _ D E). apply Hk; assumption.
Qed.

Lemma stuck_first {A B} (m : TX A) (k : A -> TX B) e : stuck m e -> stuck (x <- m ;; k x) e.
Proof. intros H d D E. unfold tx_bind. rewrite (H d D E). reflexivity. Qed.

(** A blob transaction up to its list of hashes, and the header of a list of
    one hash. *)
Definition blob_prefix (t : eip4844_tx_t) : list Z :=
  enc_int (t3_chain_id t) ++ enc_int (t3_nonce t) ++ enc_256 (t3_max_priority_fee_per_gas t) ++ enc_256 (t3_max_fee_per_gas t) ++
  enc_int (t3_gas_limit t) ++ enc_str (t3_to t) ++ enc_256 (t3_value t) ++ enc_str (t3_data t) ++ enc_access (t3_access_list t) ++
  enc_256 (t3_max_fee_per_blob_gas t).

Definition one_hash_header : list Z := [225].

Lemma stuck_hashes fuel : stuck (decode_blob_hashes fuel) one_hash_header.
Proof.
  intros d D E. pose proof (length_tail d D) as L. rewrite E in L. cbn [length one_hash_header] in L. pose proof (dec_size _ D). pose proof (dec_pos _ D).
  destruct (next_header d [] D 33 ltac:(lia) E) as (d' & R & -> & _ & _).
  apply (blob_hashes_hang fuel d 33 _ _ D R). cbn. lia.
Qed.

Section Truncated.
Context (vec_push : forall A, list A -> A -> list A).
Hypothesis vec_push_spec : forall A (l : list A) x, (length l < 1024)%nat -> vec_push A l x = l ++ [x].

Lemma truncated_blob_loops fuel t : wf_4844 t -> (length (blob_prefix t) <= 900)%nat -> (length (blob_prefix t) <= fuel)%nat ->
  transaction_decode vec_push fuel (3 :: enc_list (blob_prefix t ++ one_hash_header)) = DecodeLoops.
Proof.
  intros [? ? ? ? ? ? ? ? ? ? ? ? ? ?] L F. pose proof (enc_str_ge (t3_data t)) as GD.
  change (transaction_decode vec_push fuel (3 :: ?l)) with (result_map TX_EIP4844 1 (eip4844_tx_decode vec_push fuel l)).
  set (p := blob_prefix t ++ one_hash_header). assert (LP : Z.of_nat (length p) <= 901) by (unfold p; rewrite length_app; cbn [length one_hash_header]; lia).
  assert (BP : bytes_ok (enc_list p)).
  { apply bytes_ok_enc_list; [|lia]. unfold p, blob_prefix in *. rewrite !length_app in L.
    repeat match goal with |- bytes_ok (_ ++ _) => apply bytes_ok_app end;
      try solve [auto using bytes_ok_enc_u64, ok_256, bytes_ok_enc_address]; [apply ok_data | apply ok_access |]; try assumption; try lia.
    repeat constructor; lia. }
  pose proof (enc_list_pos p) as EP. pose proof (length_enc_list p ltac:(lia)). unfold eip4844_tx_decode, decode_fields.
  destruct (Nat.eqb_spec (length (enc_list p)) 0); [lia|]. destruct (dec_ok_init (enc_list p) BP ltac:(lia)) as [D T].
  destruct (next_header _ p D (Z.of_nat (length p)) ltac:(lia) T) as (d1 & -> & _ & D1 & T1).
  match goal with |- result_map _ _ (match ?m d1 with _ => _ end) = _ => enough (S : stuck m p) by (rewrite (S d1 D1 T1); reflexivity) end.
  unfold p, blob_prefix in *. rewrite !length_app in *. rewrite <- !app_assoc.
  repeat first [ eapply stuck_after; [solve [eauto with tx]|]
    | eapply stuck_after; [apply parses_access; [exact vec_push_spec | assumption | lia | lia]|]
    | eapply stuck_after; [apply parses_data; unfold DIV0_ARENA_BLOCK_SIZE; lia|] ].
  apply stuck_first, stuck_hashes.
Qed.
End Truncated.

(** * Long call data is dropped *)

Lemma enc_str_gt b : (2 <= length b)%nat -> Z.of_nat (length b) < Z.of_nat (length (enc_str b)).
Proof.
  intros L. unfold enc_str. rewrite (proj2 (Z.eqb_neq _ _)) by lia. cbn [andb]. rewrite length_app. unfold header. destruct (_ <? _); cbn [length]; lia.
Qed.

(** The item does not fit: nothing is appended. *)
Lemma put_bytes_dropped b d c : bytes_ok b -> Z.of_nat (length d) <= c <= DIV0_ARENA_BLOCK_SIZE -> c <= Z.of_nat (length d) + Z.of_nat (length b) ->
  2 <= Z.of_nat (length b) <= 65000 -> put_bytes b (filled d c) = filled d c.
Proof.
  intros B Hc Hd Hl. pose proof (enc_str_gt b ltac:(lia)). pose proof (length_enc_str b ltac:(lia)). unfold put_bytes, rlp_list_append.
  rewrite rlp_encode_bytes_data by (exact B || (unfold DIV0_ARENA_BLOCK_SIZE; lia)). apply append_dropped; [exact Hc | unfold DIV0_ARENA_BLOCK_SIZE in Hc; lia].
Qed.

Lemma length_enc_to a : wf_to a -> (1 <= length (enc_to a) <= 21)%nat.
Proof. intros H. destruct a as [a|]; cbn [enc_to]; [rewrite length_enc_address by exact H; lia | cbn; lia]. Qed.

(** A string of [c] bytes that a list has been started in. *)
Definition opened (c : Z) (o : bytes_t) : Prop := exists d, o = filled d c /\ 9 <= Z.of_nat (length d) <= c.

Section Opened.
Variable c : Z.
Hypothesis c_block : c <= DIV0_ARENA_BLOCK_SIZE.

Lemma opened_append o e : Z.of_nat (length e) <= DIV0_ARENA_BLOCK_SIZE -> opened c o -> opened c (append o e).
Proof.
  intros L (d & -> & B). destruct (Z.le_gt_cases (Z.of_nat (length d) + Z.of_nat (length e)) c) as [F|F].
  - rewrite append_filled by lia. exists (d ++ e). rewrite length_app. split; [reflexivity | lia].
  - rewrite append_dropped by (unfold DIV0_ARENA_BLOCK_SIZE in *; lia). exists d. auto.
Qed.

Lemma opened_u64 v o : u64 v -> opened c o -> opened c (put_u64 v o).
Proof. intros V. apply opened_append. rewrite rlp_encode_u64_spec by exact V. pose proof (length_enc_u64 v V). unfold DIV0_ARENA_BLOCK_SIZE. lia. Qed.

Lemma opened_256 v o : wf256 v -> opened c o -> opened c (put_uint256 v o).
Proof. intros V. apply opened_append. rewrite rlp_encode_uint256_spec by exact V. pose proof (length_enc_256 v V). unfold DIV0_ARENA_BLOCK_SIZE. lia. Qed.

Lemma opened_address a o : wf_address a -> opened c o -> opened c (put_address a o).
Proof. intros A. apply opened_append. rewrite rlp_encode_address_spec, length_enc_address by exact A. unfold DIV0_ARENA_BLOCK_SIZE. lia. Qed.

Lemma opened_to a o : wf_to a -> opened c o -> opened c (put_to a o).
Proof. destruct a as [a|]; [apply (opened_address a o)|]. intros _. apply opened_append. cbv. discriminate. Qed.

(** Data that fills the string with what is in it is left out. *)
Lemma data_ignored b o : bytes_ok b -> 11 <= c -> c - 9 <= Z.of_nat (length b) <= 65000 -> opened c o -> put_bytes b o = o.
Proof. intros B C L (d & -> & D). apply put_bytes_dropped; [exact B | lia..]. Qed.

Lemma opened_untyped : 9 <= c -> opened c (snd (rlp_list_start (reserve bytes_init_arena c))).
Proof.
  intros H. rewrite reserve_fresh by lia. change (Bytes [] c true) with (filled [] c). rewrite rlp_list_start_spec by (cbn [length]; lia).
  exists reserved. split; [reflexivity|]. change (length reserved) with 9%nat. lia.
Qed.

Lemma opened_typed ty : 10 <= c -> opened c (snd (rlp_list_start (append_byte (reserve bytes_init_arena c) ty))).
Proof.
  intros H. rewrite reserve_fresh by lia. change (append_byte (Bytes [] c true) ty) with (append (filled [] c) [ty]).
  rewrite append_filled by (cbn [length]; lia). rewrite rlp_list_start_spec by (cbn [length app]; lia).
  eexists. split; [reflexivity|]. rewrite length_app. change (length reserved) with 9%nat. cbn [length app]. lia.
Qed.
End Opened.

(** The same transaction with other data. *)
Definition with_data (tx : transaction_t) (b : list Z) : transaction_t :=
  match tx with
  | TX_LEGACY t => TX_LEGACY (LegacyTx (leg_nonce t) (leg_gas_price t) (leg_gas_limit t) (leg_to t) (leg_value t) b (leg_v t) (leg_r t) (leg_s t))
  | TX_EIP2930 t => TX_EIP2930 (Eip2930Tx (t1_chain_id t) (t1_nonce t) (t1_gas_price t) (t1_gas_limit t) (t1_to t) (t1_value t) b (t1_access_list t) (t1_y_parity t) (t1_r t) (t1_s t))
  | TX_EIP1559 t => TX_EIP1559 (Eip1559Tx (t2_chain_id t) (t2_nonce t) (t2_max_priority_fee_per_gas t) (t2_max_fee_per_gas t) (t2_gas_limit t) (t2_to t) (t2_value t) b
      (t2_access_list t) (t2_y_parity t) (t2_r t) (t2_s t))
  | TX_EIP4844 t => TX_EIP4844 (Eip4844Tx (t3_chain_id t) (t3_nonce t) (t3_max_priority_fee_per_gas t) (t3_max_fee_per_gas t) (t3_gas_limit t) (t3_to t) (t3_value t) b
      (t3_access_list t) (t3_max_fee_per_blob_gas t) (t3_blob_versioned_hashes t) (t3_y_parity t) (t3_r t) (t3_s t))
  | TX_EIP7702 t => TX_EIP7702 (Eip7702Tx (t4_chain_id t) (t4_nonce t) (t4_max_priority_fee_per_gas t) (t4_max_fee_per_gas t) (t4_gas_limit t) (t4_to t) (t4_value t) b
      (t4_access_list t) (t4_authorization_list t) (t4_y_parity t) (t4_r t) (t4_s t))
  end.

(** The larger of the two buffers a transaction is encoded and signed in. *)
Definition buffer (tx : transaction_t) : Z :=
  match tx with TX_EIP4844 _ | TX_EIP7702 _ => 1024 | _ => 512 end.

Definition signed (tx : transaction_t) : option bytes_t :=
  match tx with
  | TX_LEGACY t => legacy_signed t
  | TX_EIP2930 t => eip2930_signed t
  | TX_EIP1559 t => eip1559_signed t
  | TX_EIP4844 t => eip4844_signed t
  | TX_EIP7702 t => eip7702_signed t
  end.

(** Both sides write their data to the buffer of [c] bytes, and neither fits. *)
Ltac drop_data c start := unfold in_list; match goal with |- context [rlp_list_start ?o] =>
    let S := fresh "S" in assert (S : opened c (snd (rlp_list_start o))) by (apply start; unfold DIV0_ARENA_BLOCK_SIZE; lia);
    destruct (rlp_list_start o) as [? ?]; cbn [snd] in S end;
  rewrite !(data_ignored c) by first [assumption | lia | unfold DIV0_ARENA_BLOCK_SIZE; lia |
    repeat first [assumption | apply opened_u64 | apply opened_256 | apply opened_address | apply opened_to | unfold DIV0_ARENA_BLOCK_SIZE; lia]];
  reflexivity.

Lemma encode_without_data tx a b : wf_transaction tx -> bytes_ok a -> bytes_ok b ->
  buffer tx - 9 <= Z.of_nat (length a) <= 65000 -> buffer tx - 9 <= Z.of_nat (length b) <= 65000 ->
  transaction_encode (with_data tx a) = transaction_encode (with_data tx b).
Proof.
  intros W A B La Lb. destruct tx as [t|t|t|t|t]; destruct W; cbn [buffer] in *; cbn [transaction_encode with_data].
  - unfold legacy_tx_encode. cbn [leg_data t1_data t2_data t3_data t4_data]. drop_data 256 opened_untyped.
  - unfold eip2930_tx_encode. cbn [leg_data t1_data t2_data t3_data t4_data]. drop_data 512 opened_typed.
  - unfold eip1559_tx_encode. cbn [leg_data t1_data t2_data t3_data t4_data]. drop_data 512 opened_typed.
  - unfold eip4844_tx_encode. cbn [leg_data t1_data t2_data t3_data t4_data]. drop_data 1024 opened_typed.
  - unfold eip7702_tx_encode. cbn [leg_data t1_data t2_data t3_data t4_data]. drop_data 1024 opened_typed.
Qed.

Lemma sign_without_data tx a b : wf_transaction tx -> bytes_ok a -> bytes_ok b ->
  buffer tx - 9 <= Z.of_nat (length a) <= 65000 -> buffer tx - 9 <= Z.of_nat (length b) <= 65000 ->
  signed (with_data tx a) = signed (with_data tx b).
Proof.
  intros W A B La Lb. destruct tx as [t|t|t|t|t]; destruct W; cbn [buffer] in *; cbn [signed with_data].
  - unfold legacy_signed. cbn [leg_data t1_data t2_data t3_data t4_data]. drop_data 512 opened_untyped.
  - unfold eip2930_signed. cbn [leg_data t1_data t2_data t3_data t4_data]. drop_data 512 opened_typed.
  - unfold eip1559_signed. cbn [leg_data t1_data t2_data t3_data t4_data]. drop_data 512 opened_typed.
  - unfold eip4844_signed. cbn [leg_data t1_data t2_data t3_data t4_data]. drop_data 1024 opened_typed.
  - unfold eip7702_signed. cbn [leg_data t1_data t2_data t3_data t4_data]. drop_data 1024 opened_typed.
Qed.
