(* ===== verification/CodecTheorems.v ===== *)
(** Properties of the RLP code, accounts, the transaction codec and the hashes
    that are signed. *)
From Stdlib Require Import ZArith Lia List Bool.
From S2P Require Import Prelude Uint256 Types Arena Bytes Rlp RlpSpec Account Transaction TxRlp TxSpec.
Import ListNotations.
#[local] Open Scope Z_scope.
#[local] Open Scope word_scope.

(** The input of the examples: ["dog"], the integer 1024, an empty list. *)
Definition sample_input : list Z := [131; 100; 111; 103; 130; 4; 0; 192].

Lemma bytes_ok_dec l : forallb (fun b => (0 <=? b) && (b <? 256)) l = true -> bytes_ok l.
Proof.
  intros H. apply Forall_forall. intros b Hb. rewrite forallb_forall in H. specialize (H b Hb).
  apply andb_true_iff in H as [H1%Z.leb_le H2%Z.ltb_lt]. exact (conj H1 H2).
Qed.

Lemma sample_ok pos : 0 <= pos <= 8 -> dec_ok (Decoder sample_input pos).
Proof. intros H. split; [exact H | reflexivity | apply bytes_ok_dec; reflexivity]. Qed.

(** C30: strings. [rlp_encode_bytes] writes the RLP encoding of every string
    that fits a block of the arena, and a lone prefix byte for a longer one.
    [rlp_decode_bytes] accepts a string exactly where its canonical encoding
    stands in the input, and consumes exactly that encoding. *)
Theorem rlp_strings (data : list Z) (d : rlp_decoder_t) :
  bytes_ok data -> Z.of_nat (length data) < 2 ^ 63 -> dec_ok d ->
  rlp_encode_bytes data = encodes data /\
  ((exists d' c, rlp_decode_bytes d = (d', RlpOk data c)) <-> exists rest, tail d = enc_str data ++ rest) /\
  (forall rest, tail d = enc_str data ++ rest ->
    rlp_decode_bytes d = (advance d (Z.of_nat (length (enc_str data))), RlpOk data (Z.of_nat (length (enc_str data))))).
Proof.
  intros B L D. split; [apply rlp_encode_bytes_spec; assumption|]. split; [apply decode_bytes_iff, D|].
  intros rest. apply decode_bytes_complete, D.
Qed.

Lemma rlp_strings_witness :
  b_data (rlp_encode_bytes [100; 111; 103]) = [131; 100; 111; 103] /\
  rlp_decode_bytes (Decoder sample_input 0) = (Decoder sample_input 4, RlpOk [100; 111; 103] 4).
Proof.
  destruct (rlp_strings [100; 111; 103] (Decoder sample_input 0)) as (E & _ & R);
    [apply bytes_ok_dec; reflexivity | reflexivity | apply sample_ok; lia|].
  split; [rewrite E; reflexivity|]. exact (R (skipn 4 sample_input) eq_refl).
Defined.

(** Integers. The encoders write the shortest big-endian form. The
    decoders read it back, and what else they accept is one more form of
    zero, the byte 0x00; every accepted integer is in range. *)
Theorem rlp_integers (v : Z) (w : uint256_t) (d : rlp_decoder_t) :
  u64 v -> wf256 w -> dec_ok d ->
  b_data (rlp_encode_u64 v) = enc_int v /\ b_data (rlp_encode_uint256 w) = enc_int (val w) /\
  (forall rest, tail d = enc_int v ++ rest -> rlp_decode_u64 d = (advance d (Z.of_nat (length (enc_int v))), RlpOk v (Z.of_nat (length (enc_int v))))) /\
  (forall rest, tail d = enc_int (val w) ++ rest ->
    rlp_decode_uint256 d = (advance d (Z.of_nat (length (enc_int (val w)))), RlpOk w (Z.of_nat (length (enc_int (val w)))))) /\
  (forall d' x c, rlp_decode_u64 d = (d', RlpOk x c) -> u64 x /\ exists enc, int_at d x enc /\ d' = advance d c /\ c = Z.of_nat (length enc)) /\
  (forall d' x c, rlp_decode_uint256 d = (d', RlpOk x c) ->
    wf256 x /\ exists enc, int_at d (val x) enc /\ d' = advance d c /\ c = Z.of_nat (length enc)).
Proof.
  intros U W D. split; [apply rlp_encode_u64_spec, U|]. split; [apply rlp_encode_uint256_spec, W|].
  split; [intros rest; apply decode_u64_complete; assumption|]. split; [intros rest; apply decode_uint256_complete; assumption|].
  split; intros d' x c; [apply decode_u64_sound, D | apply decode_uint256_sound, D].
Qed.

Lemma rlp_integers_witness :
  b_data (rlp_encode_u64 1024) = [130; 4; 0] /\ rlp_decode_u64 (Decoder sample_input 4) = (Decoder sample_input 7, RlpOk 1024 3).
Proof.
  destruct (rlp_integers 1024 (of_Z256 1024) (Decoder sample_input 4)) as (E & _ & R & _);
    [split; [lia | reflexivity] | apply wf_of_Z256 | apply sample_ok; lia|].
  split; [rewrite E; reflexivity|]. exact (R [192] eq_refl).
Defined.

(** Lists. A list builder around a payload in a string with room yields
    the encoding of the list; a list header is accepted exactly where the
    canonical header stands, whatever follows; skipping an item of any nesting
    moves to its end. *)
Theorem rlp_lists (before p : list Z) (c : Z) (d : rlp_decoder_t) :
  Z.of_nat (length (before ++ reserved ++ p)) <= c <= DIV0_ARENA_BLOCK_SIZE -> dec_ok d ->
  rlp_list_start (filled before c) = (Z.of_nat (length before), filled (before ++ reserved) c) /\
  rlp_list_append (filled (before ++ reserved) c) (filled p c) = filled (before ++ reserved ++ p) c /\
  rlp_list_end (Z.of_nat (length before)) (filled (before ++ reserved ++ p) c) = Some (filled (before ++ enc_list p) c) /\
  (forall n, (exists d' k, rlp_decode_list_header d = (d', RlpOk n k)) <-> 0 <= n < 2 ^ 64 /\ exists rest, tail d = header 192 n ++ rest) /\
  (forall i rest, tail d = enc i ++ rest -> rlp_skip_item d = advance d (Z.of_nat (length (enc i)))).
Proof.
  intros H D. assert (R : Z.of_nat (length (before ++ reserved)) + Z.of_nat (length p) <= c <= DIV0_ARENA_BLOCK_SIZE)
    by (rewrite !length_app in *; lia). change (length reserved) with 9%nat in *.
  split; [apply rlp_list_start_spec; rewrite length_app in R; change (length reserved) with 9%nat in R; lia|].
  split; [unfold rlp_list_append; rewrite append_filled by exact R; rewrite <- app_assoc; reflexivity|].
  split; [apply rlp_list_end_spec, H|]. split; [|intros i rest; apply skip_item, D]. intros n. split.
  - intros (d' & k & E). destruct (decode_list_header_sound d d' n k D E) as (N & X & _). auto.
  - intros [N (rest & E)]. eauto using decode_list_header_complete.
Qed.

Lemma rlp_lists_witness :
  rlp_list_end 0 (filled (reserved ++ [1; 2]) 64) = Some (filled [194; 1; 2] 64) /\
  rlp_skip_item (Decoder sample_input 4) = Decoder sample_input 7.
Proof.
  destruct (rlp_lists [] [1; 2] 64 (Decoder sample_input 4)) as (_ & _ & E & _ & S);
    [unfold DIV0_ARENA_BLOCK_SIZE; cbn; lia | apply sample_ok; lia|].
  split; [exact E|]. exact (S (Str [4; 0]) [192] eq_refl).
Defined.

(** An account decodes to itself from its encoding, which always fits. *)
Theorem account_roundtrip (a : account_t) : account_ok a ->
  exists b, account_rlp_encode a = Some b /\ b_data b = enc_list (account_payload a) /\ account_rlp_decode (b_data b) = Some a.
Proof.
  intros A. exists (filled (enc_list (account_payload a)) 128). split; [apply account_encode_spec, A|].
  split; [reflexivity | apply account_decode_encode, A].
Qed.

Lemma account_roundtrip_witness :
  exists b, account_rlp_encode account_empty = Some b /\ length (b_data b) = 70%nat /\ account_rlp_decode (b_data b) = Some account_empty.
Proof.
  destruct (account_roundtrip account_empty account_empty_ok) as (b & E & D & R). exists b. split; [exact E|].
  split; [rewrite D; reflexivity | exact R].
Defined.

(** * Transactions

    Properties of the transaction codec and of the hashes that are signed. *)

(** What the STC vectors promise: a push appends while the vector is small. *)
Definition pushes (vec_push : forall A, list A -> A -> list A) : Prop :=
  forall A (l : list A) x, (length l < 1024)%nat -> vec_push A l x = l ++ [x].

Definition sample_push (A : Type) (l : list A) (x : A) : list A := l ++ [x].

Lemma sample_pushes : pushes sample_push.
Proof. intros A l x _. reflexivity. Qed.

Definition sample_address : address_t := repeat 17 20.

Lemma sample_address_ok : wf_address sample_address.
Proof. split; [reflexivity|]. apply Forall_forall. intros x ->%repeat_spec. split; [lia | reflexivity]. Qed.

(** A call with one entry in its access list. *)
Definition sample_tx : transaction_t :=
  TX_EIP1559 (Eip1559Tx 1 7 (of_Z256 2) (of_Z256 100) 50000 (Some sample_address) (of_Z256 5) [1; 2; 3]
    [AccessEntry sample_address [of_Z256 1; of_Z256 (2 ^ 200)]] 1 (of_Z256 9) (of_Z256 10)).

Ltac in_range := first [apply wf_of_Z256 | apply sample_address_ok | unfold u64, u8; lia | apply Forall_nil | exact I].

Lemma sample_tx_ok : wf_transaction sample_tx.
Proof.
  split; cbn -[u64 u8]; try in_range.
  - repeat (apply Forall_cons; [unfold u8; lia|]). apply Forall_nil.
  - apply Forall_cons; [|apply Forall_nil]. split; [apply sample_address_ok|].
    repeat (apply Forall_cons; [apply wf_of_Z256|]). apply Forall_nil.
Qed.

(** C31: a transaction of any of the five formats that fits the space its
    encoder reserves is written in the encoding of EIP-2718 and RLP, and decodes
    to itself, with all its bytes consumed. *)
Theorem transaction_roundtrip vec_push (tx : transaction_t) (fuel : nat) :
  pushes vec_push -> wf_transaction tx -> fits tx -> (length (payload tx) <= fuel)%nat ->
  exists b, transaction_encode tx = Some b /\ b_data b = enc_tx tx /\
    transaction_decode vec_push fuel (b_data b) = DecodeOk tx (Z.of_nat (length (b_data b))).
Proof.
  intros P W F HF. exists (filled (enc_tx tx) (tx_capacity tx)). split; [apply transaction_encode_spec; assumption|].
  split; [reflexivity | apply transaction_roundtrip_spec; assumption].
Qed.

Lemma transaction_roundtrip_witness :
  exists b, transaction_encode sample_tx = Some b /\ length (b_data b) = 91%nat /\
    transaction_decode sample_push 200 (b_data b) = DecodeOk sample_tx 91.
Proof.
  destruct (transaction_roundtrip sample_push sample_tx 200 sample_pushes sample_tx_ok) as (b & E & D & R); [vm_compute; discriminate | apply Nat.leb_le; vm_compute; reflexivity|].
  assert (L : length (b_data b) = 91%nat) by (rewrite D; vm_compute; reflexivity).
  exists b. split; [exact E|]. split; [exact L|]. rewrite R, L. reflexivity.
Defined.

(** C32: decoding ends on every input that does not start with the type of
    blob transactions, within as many rounds of its loops as there are bytes;
    lengths that the headers claim do not matter. *)
Theorem transaction_decode_ends vec_push (fuel : nat) (data : list Z) :
  bytes_ok data -> Z.of_nat (length data) < 2 ^ 63 -> (length data < fuel)%nat -> hd 0 data <> 3 ->
  transaction_decode vec_push fuel data <> DecodeLoops.
Proof. apply decode_ends. Qed.

Lemma transaction_decode_ends_witness : transaction_decode sample_push 10 [2; 248; 255; 1] <> DecodeLoops.
Proof.
  apply transaction_decode_ends; [|reflexivity | cbn; lia | cbn; lia].
  repeat (apply Forall_cons; [split; [lia | reflexivity]|]). apply Forall_nil.
Defined.

Definition sample_blob_tx : eip4844_tx_t :=
  Eip4844Tx 1 7 (of_Z256 2) (of_Z256 100) 50000 sample_address (of_Z256 5) [1; 2; 3] [] (of_Z256 3) [] 0 (of_Z256 9) (of_Z256 10).

Lemma sample_blob_ok : wf_4844 sample_blob_tx.
Proof. split; cbn -[u64 u8]; try in_range. repeat (apply Forall_cons; [split; [lia | reflexivity]|]). apply Forall_nil. Qed.

(** C33: decoding hangs on truncated blob transactions. Wherever the header of
    the list of blob hashes promises more bytes than the input has, the loop
    that counts the hashes never ends; so no amount of rounds decodes a blob
    transaction that was cut off after that header. *)
Theorem blob_decoding_hangs vec_push (t : eip4844_tx_t) (fuel : nat) (d d' : rlp_decoder_t) (n c : Z) :
  pushes vec_push -> wf_4844 t -> (length (blob_prefix t) <= 900)%nat -> (length (blob_prefix t) <= fuel)%nat ->
  dec_ok d -> rlp_decode_list_header d = (d', RlpOk n c) -> d_size d < d_pos d' + n < 2 ^ 64 ->
  decode_blob_hashes fuel d = TxLoops /\
  transaction_decode vec_push fuel (3 :: enc_list (blob_prefix t ++ one_hash_header)) = DecodeLoops.
Proof.
  intros P W L F D E H. split; [apply (blob_hashes_hang fuel d n c d'); assumption | apply truncated_blob_loops; assumption].
Qed.

Lemma blob_decoding_hangs_witness :
  transaction_decode sample_push 1000 (3 :: enc_list (blob_prefix sample_blob_tx ++ one_hash_header)) = DecodeLoops.
Proof.
  refine (proj2 (blob_decoding_hangs sample_push sample_blob_tx 1000 (Decoder [225] 0) (Decoder [225] 1) 33 1
    sample_pushes sample_blob_ok _ _ _ eq_refl _)); try (apply Nat.leb_le; vm_compute; reflexivity).
  - split; [cbn; lia | reflexivity | repeat (apply Forall_cons; [split; [lia | reflexivity]|]); apply Forall_nil].
  - cbn; lia.
Defined.

(** C34: long call data is signed blind. Two transactions of any of the five
    formats that differ only in their data have the same hash, the same signing
    hash and the same sender once both data fill what the encoder reserves: from
    503 bytes on for legacy, EIP-2930 and EIP-1559 transactions, from 1015 on
    for EIP-4844 and EIP-7702 transactions, up to 65000. The buffer does not
    grow, so the data is left out of the encoding. *)
Theorem long_data_ignored keccak256 ecdsa_recover (tx : transaction_t) (a b : list Z) :
  wf_transaction tx -> bytes_ok a -> bytes_ok b ->
  buffer tx - 9 <= Z.of_nat (length a) <= 65000 -> buffer tx - 9 <= Z.of_nat (length b) <= 65000 ->
  transaction_hash keccak256 (with_data tx a) = transaction_hash keccak256 (with_data tx b) /\
  transaction_signing_hash keccak256 (with_data tx a) = transaction_signing_hash keccak256 (with_data tx b) /\
  transaction_recover_sender keccak256 ecdsa_recover (with_data tx a) = transaction_recover_sender keccak256 ecdsa_recover (with_data tx b).
Proof.
  intros W A B La Lb. assert (S : transaction_signing_hash keccak256 (with_data tx a) = transaction_signing_hash keccak256 (with_data tx b)).
  { pose proof (sign_without_data tx a b W A B La Lb) as E. apply (f_equal (hash_of keccak256)) in E. destruct tx; exact E. }
  split; [unfold transaction_hash; rewrite (encode_without_data tx a b) by assumption; reflexivity|]. split; [exact S|].
  unfold transaction_recover_sender. rewrite S. destruct tx; reflexivity.
Qed.

Lemma long_data_ignored_witness :
  transaction_hash (fun bs => bs) (with_data (TX_EIP4844 sample_blob_tx) (repeat 1 1015)) =
  transaction_hash (fun bs => bs) (with_data (TX_EIP4844 sample_blob_tx) (repeat 2 2000)).
Proof.
  refine (proj1 (long_data_ignored (fun bs => bs) (fun _ _ _ => None) (TX_EIP4844 sample_blob_tx) (repeat 1 1015) (repeat 2 2000) sample_blob_ok _ _ _ _));
    try (rewrite repeat_length; cbn [buffer]; lia); try (apply Forall_forall; intros x ->%repeat_spec; split; [lia | reflexivity]).
Defined.
