(* ===== verification/Executor.v ===== *)
(** The block executor: src/executor/{address,intrinsic_gas,validation,
    block_executor}.c.

    Transactions are validated against the state, charged, run in the
    interpreter and settled, one after the other. The state is threaded
    through every call that changes it; a fault of the interpreter or of an
    encoder ends the run. *)
From Stdlib Require Import String ZArith Lia List Bool.
From S2P Require Import Prelude Uint256 Multiply Arith Types Effects Arena Gas StateAccess Frame Evm Bytes Rlp Transaction TxRlp.
Import ListNotations.
#[local] Open Scope list_scope.
#[local] Open Scope Z_scope.
#[local] Open Scope word_scope.

(** * intrinsic_gas.c *)

Definition calldata_gas (data : list Z) (gas : Z) : Z :=
  fold_left (fun gas b => gas +64 (if b =? 0 then GAS_TX_DATA_ZERO else GAS_TX_DATA_NON_ZERO)) data gas.

Definition access_list_gas (l : access_list_t) (gas : Z) : Z :=
  fold_left (fun gas e => (gas +64 GAS_ACCESS_LIST_ADDRESS) +64 (Z.of_nat (length (ent_keys e)) *64 GAS_ACCESS_LIST_STORAGE_KEY)) l gas.

Definition tx_intrinsic_gas (tx : transaction_t) : Z :=
  let data := transaction_data tx in
  let gas := calldata_gas data GAS_TX in
  let gas :=
    if transaction_is_create tx then
      let gas := gas +64 GAS_CREATE in
      if Z.of_nat (length data) >? 0 then
        let words := (Z.of_nat (length data) +64 31) / 32 in
        gas +64 (words *64 2)
      else gas
    else gas in
  match transaction_access_list tx with
  | Some l => access_list_gas l gas
  | None => gas
  end.

(** * block_executor.h *)

Inductive tx_validation_error_t :=
| TX_VALID
| TX_ERR_INVALID_SIGNATURE
| TX_ERR_NONCE_TOO_LOW
| TX_ERR_NONCE_TOO_HIGH
| TX_ERR_INSUFFICIENT_BALANCE
| TX_ERR_INTRINSIC_GAS
| TX_ERR_GAS_LIMIT_EXCEEDED
| TX_ERR_MAX_FEE_TOO_LOW
| TX_ERR_CHAIN_ID_MISMATCH.

(** [logs] and [log_count] are always null and zero. *)
Record exec_receipt_t := Receipt {
  rcp_tx_hash : hash_t; rcp_tx_type : Z; rcp_success : bool; rcp_gas_used : Z; rcp_cumulative_gas : Z;
  rcp_created_address : option address_t; rcp_output : list Z }.

Record exec_rejected_t := Rejected { rej_index : Z; rej_error : tx_validation_error_t; rej_error_message : string }.

Record block_exec_result_t := BlockResult {
  res_receipts : list exec_receipt_t; res_rejected : list exec_rejected_t;
  res_gas_used : Z; res_blob_gas_used : Z; res_state_root : hash_t }.

Record block_tx_t := BlockTx { btx_tx : transaction_t; btx_sender : address_t; btx_sender_recovered : bool; btx_original_index : Z }.

(** The block context and the chain id; the state, the interpreter and the
    arena are passed explicitly, and [skip_signature_validation] is never read. *)
Record block_executor_t := BlockExecutor { exec_block : block_context_t; exec_chain_id : Z }.

(** * validation.c: messages *)

Definition tx_validation_error_str (err : tx_validation_error_t) : string :=
  match err with
  | TX_VALID => "valid"
  | TX_ERR_INVALID_SIGNATURE => "invalid signature"
  | TX_ERR_NONCE_TOO_LOW => "nonce too low"
  | TX_ERR_NONCE_TOO_HIGH => "nonce too high"
  | TX_ERR_INSUFFICIENT_BALANCE => "insufficient balance for gas * price + value"
  | TX_ERR_INTRINSIC_GAS => "intrinsic gas too low"
  | TX_ERR_GAS_LIMIT_EXCEEDED => "gas limit exceeds block gas limit"
  | TX_ERR_MAX_FEE_TOO_LOW => "max fee per gas less than block base fee"
  | TX_ERR_CHAIN_ID_MISMATCH => "chain ID mismatch"
  end%string.

Section Executor.
Context {St : Type} {SA : StateAccess St}.
Variable keccak256 : list Z -> hash_t.
#[local] Abbreviation evm_t := (evm_t St).

(** * address.c *)

Definition compute_create_address (sender : address_t) (nonce : Z) : option address_t :=
  let encoded_addr := rlp_encode_address sender in
  let encoded_nonce := rlp_encode_u64 nonce in
  let list_data := reserve bytes_init_arena 64 in
  let '(builder, list_data) := rlp_list_start list_data in
  let list_data := rlp_list_append list_data encoded_addr in
  let list_data := rlp_list_append list_data encoded_nonce in
  match rlp_list_end builder list_data with
  | None => None
  | Some list_data => Some (firstn 20 (skipn 12 (keccak256 (b_data list_data))))
  end.

Definition compute_create2_address (sender : address_t) (salt init_code_hash : hash_t) : address_t :=
  let preimage := [255] ++ sender ++ salt ++ init_code_hash in
  firstn 20 (skipn 12 (keccak256 preimage)).

(** * validation.c *)

Definition transaction_max_fee_per_gas (tx : transaction_t) : uint256_t :=
  match tx with
  | TX_LEGACY t => leg_gas_price t
  | TX_EIP2930 t => t1_gas_price t
  | TX_EIP1559 t => t2_max_fee_per_gas t
  | TX_EIP4844 t => t3_max_fee_per_gas t
  | TX_EIP7702 t => t4_max_fee_per_gas t
  end.

Definition block_executor_validate_tx (exec : block_executor_t) (st : St) (btx : block_tx_t) (cumulative_gas : Z) : tx_validation_error_t :=
  let transaction := btx_tx btx in
  if match transaction_chain_id transaction with Some c => negb (c =? exec_chain_id exec) | None => false end
  then TX_ERR_CHAIN_ID_MISMATCH
  else
    let sender_nonce := get_nonce st (btx_sender btx) in
    let tx_nonce := transaction_nonce transaction in
    if tx_nonce <? sender_nonce then TX_ERR_NONCE_TOO_LOW
    else if tx_nonce >? sender_nonce then TX_ERR_NONCE_TOO_HIGH
    else
      let intrinsic := tx_intrinsic_gas transaction in
      let gas_limit := transaction_gas_limit transaction in
      if gas_limit <? intrinsic then TX_ERR_INTRINSIC_GAS
      else
        let block_gas_limit := Frame.gas_limit (exec_block exec) in
        if (gas_limit >? block_gas_limit) || (cumulative_gas >? block_gas_limit -64 gas_limit) then TX_ERR_GAS_LIMIT_EXCEEDED
        else if uint256_lt (transaction_max_fee_per_gas transaction) (base_fee (exec_block exec)) then TX_ERR_MAX_FEE_TOO_LOW
        else
          let effective_gas_price := transaction_effective_gas_price transaction (base_fee (exec_block exec)) in
          let gas_cost := uint256_mul effective_gas_price (uint256_from_u64 gas_limit) in
          let tx_value := transaction_value transaction in
          let total_cost := uint256_add gas_cost tx_value in
          if uint256_lt total_cost tx_value then TX_ERR_INSUFFICIENT_BALANCE
          else if uint256_lt (get_balance st (btx_sender btx)) total_cost then TX_ERR_INSUFFICIENT_BALANCE
          else TX_VALID.

(** * block_executor.c *)

Definition warm_access_list (st : St) (access_list : option access_list_t) : St :=
  match access_list with
  | None => st
  | Some l =>
      fold_left (fun st e =>
        fold_left (fun st k => fst (warm_slot st (ent_address e) k)) (ent_keys e) (fst (warm_address st (ent_address e)))) l st
  end.

Definition get_blob_hashes (tx : transaction_t) : list hash_t :=
  match tx with TX_EIP4844 t => t3_blob_versioned_hashes t | _ => [] end.

Definition get_blob_gas (tx : transaction_t) : Z :=
  match tx with TX_EIP4844 t => eip4844_tx_blob_gas t | _ => 0 end.

(** Steps 1 to 6 of [execute_transaction]: charge the sender, bump its nonce,
    find the new contract's address, warm what the transaction names and take
    a snapshot. [None] in the middle: the charge failed. *)
Record prepared_t := Prepared { pre_state : St; pre_contract : address_t; pre_snapshot : Z }.

Definition prepare_transaction (exec : block_executor_t) (st : St) (btx : block_tx_t) : (St * option prepared_t) + fault :=
  let tx := btx_tx btx in
  let sender := btx_sender btx in
  let effective_gas_price := transaction_effective_gas_price tx (base_fee (exec_block exec)) in
  let max_gas_cost := uint256_mul effective_gas_price (uint256_from_u64 (transaction_gas_limit tx)) in
  let '(st, charged) := sub_balance st sender max_gas_cost in
  if negb charged then inl (st, None)
  else
    let sender_nonce := get_nonce st sender in
    let '(st, _) := increment_nonce st sender in
    match (if transaction_is_create tx then compute_create_address sender sender_nonce else Some address_zero) with
    | None => inr OutOfBounds
    | Some contract_address =>
        let st := fst (warm_address st sender) in
        let st :=
          if transaction_is_create tx then fst (warm_address st contract_address)
          else match transaction_to tx with Some to => fst (warm_address st to) | None => st end in
        let st := warm_access_list st (transaction_access_list tx) in
        let '(st, snap) := snapshot st in
        inl (st, Some (Prepared st contract_address snap))
    end.

(** Step 7: move the value; [false] when the sender cannot pay it. *)
Definition transfer_value (st : St) (btx : block_tx_t) (contract_address : address_t) : St * bool :=
  let tx := btx_tx btx in
  let value := transaction_value tx in
  if uint256_is_zero value then (st, true)
  else
    let '(st, paid) := sub_balance st (btx_sender btx) value in
    if negb paid then (st, false)
    else
      let recipient := if transaction_is_create tx then Some contract_address else transaction_to tx in
      match recipient with
      | Some to => (fst (add_balance st to value), true)
      | None => (st, true)
      end.

(** Step 8: the environment; [None] when there is neither a creation nor a
    recipient. *)
Definition build_env (exec : block_executor_t) (st : St) (btx : block_tx_t) (contract_address : address_t) : option (St * execution_env_t) :=
  let tx := btx_tx btx in
  let data := transaction_data tx in
  let context := TxContext (btx_sender btx) (transaction_effective_gas_price tx (base_fee (exec_block exec))) (get_blob_hashes tx) in
  let call_gas := transaction_gas_limit tx -64 tx_intrinsic_gas tx in
  let params code input address := CallParams (transaction_value tx) call_gas code input (btx_sender btx) address false in
  if transaction_is_create tx then
    Some (create_contract st contract_address, ExecutionEnv (exec_block exec) context (params data [] contract_address))
  else
    match transaction_to tx with
    | Some to => Some (st, ExecutionEnv (exec_block exec) context (params (get_code st to) data to))
    | None => None
    end.

(** What steps 9 and 10 leave of the receipt. *)
Record outcome_t := Outcome { out_success : bool; out_gas_used : Z; out_created : option address_t; out_output : list Z }.

(** Step 10: act on the interpreter's result. *)
Definition apply_result (st : St) (btx : block_tx_t) (contract_address : address_t) (snap : Z) (r : evm_execution_result_t) : St * outcome_t :=
  let tx := btx_tx btx in
  match result r with
  | EVM_RESULT_STOP =>
      let st := commit_snapshot st snap in
      let gas_used := tx_intrinsic_gas tx +64 Evm.gas_used r in
      let max_refund := gas_used / 5 in
      let refund := if result_gas_refund r <? max_refund then result_gas_refund r else max_refund in
      if transaction_is_create tx then
        let created := if alloc_succeeds SIZEOF_ADDRESS then Some contract_address else None in
        let st := if Z.of_nat (length (output r)) >? 0 then set_code st contract_address (output r) else st in
        (st, Outcome true (gas_used -64 refund) created [])
      else
        let out := if (Z.of_nat (length (output r)) >? 0) && alloc_succeeds (Z.of_nat (length (output r))) then output r else [] in
        (st, Outcome true (gas_used -64 refund) None out)
  | EVM_RESULT_ERROR => (revert_to_snapshot st snap, Outcome false (transaction_gas_limit tx) None [])
  end.

(** Steps 11 and 12: give back the unused gas, pay the coinbase. *)
Definition settle (exec : block_executor_t) (st : St) (btx : block_tx_t) (gas_used : Z) : St :=
  let tx := btx_tx btx in
  let effective_gas_price := transaction_effective_gas_price tx (base_fee (exec_block exec)) in
  let gas_remaining := transaction_gas_limit tx -64 gas_used in
  let st :=
    if gas_remaining >? 0
    then fst (add_balance st (btx_sender btx) (uint256_mul effective_gas_price (uint256_from_u64 gas_remaining)))
    else st in
  let priority_fee := uint256_sub effective_gas_price (base_fee (exec_block exec)) in
  fst (add_balance st (coinbase (exec_block exec)) (uint256_mul priority_fee (uint256_from_u64 gas_used))).

Definition run_evm (rounds fuel : nat) (e : evm_t) (st : St) (env : execution_env_t) : (evm_t * St * evm_execution_result_t) + fault :=
  match evm_execute_env keccak256 rounds fuel (evm_set_state (evm_reset e) (Some st)) env with
  | inr f => inr f
  | inl (e, r) => inl (e, match state e with Some st => st | None => st end, r)
  end.

(** The whole transaction: [None] stands for the return of [false], otherwise
    the receipt and the new cumulative gas. *)
Definition finalize (exec : block_executor_t) (e : evm_t) (st : St) (btx : block_tx_t) (hash : hash_t) (cumulative_gas : Z) (o : outcome_t) :
  evm_t * St * option (exec_receipt_t * Z) :=
  let st := settle exec st btx (out_gas_used o) in
  let cumulative_gas := cumulative_gas +64 out_gas_used o in
  (e, st, Some (Receipt hash (tx_type (btx_tx btx)) (out_success o) (out_gas_used o) cumulative_gas (out_created o) (out_output o), cumulative_gas)).

Definition execute_transaction (rounds fuel : nat) (exec : block_executor_t) (e : evm_t) (st : St) (btx : block_tx_t) (cumulative_gas : Z) :
  (evm_t * St * option (exec_receipt_t * Z)) + fault :=
  match transaction_hash keccak256 (btx_tx btx) with
  | None => inr OutOfBounds
  | Some hash =>
      match prepare_transaction exec st btx with
      | inr f => inr f
      | inl (st, None) => inl (e, st, None)
      | inl (_, Some p) =>
          let '(st, paid) := transfer_value (pre_state p) btx (pre_contract p) in
          if negb paid then
            let st := revert_to_snapshot st (pre_snapshot p) in
            inl (finalize exec e st btx hash cumulative_gas (Outcome false (transaction_gas_limit (btx_tx btx)) None []))
          else
            match build_env exec st btx (pre_contract p) with
            | None => inl (e, revert_to_snapshot st (pre_snapshot p), None)
            | Some (st, env) =>
                match run_evm rounds fuel e st env with
                | inr f => inr f
                | inl (e, st, r) =>
                    let '(st, o) := apply_result st btx (pre_contract p) (pre_snapshot p) r in
                    inl (finalize exec e st btx hash cumulative_gas o)
                end
            end
      end
  end.

(** [UINT64_MAX] on overflow. *)
Definition add_blob_gas (blob_gas_used tx_blob_gas : Z) : Z :=
  if blob_gas_used <=? UINT64_MAX - tx_blob_gas then blob_gas_used +64 tx_blob_gas else UINT64_MAX.

(** The variables of the loop over the transactions. *)
Record block_run_t := BlockRun {
  run_evm_ : evm_t; run_state : St; run_cumulative : Z; run_blob : Z;
  run_receipts : list exec_receipt_t; run_rejected : list exec_rejected_t }.

Definition block_step (rounds fuel : nat) (exec : block_executor_t) (r : block_run_t) (btx : block_tx_t) : block_run_t + fault :=
  let st := begin_transaction (run_state r) in
  let reject e st err msg := BlockRun e st (run_cumulative r) (run_blob r) (run_receipts r) (run_rejected r ++ [Rejected (btx_original_index btx) err msg]) in
  match block_executor_validate_tx exec st btx (run_cumulative r) with
  | TX_VALID =>
      match execute_transaction rounds fuel exec (run_evm_ r) st btx (run_cumulative r) with
      | inr f => inr f
      | inl (e, st, None) => inl (reject e st TX_ERR_INSUFFICIENT_BALANCE "gas cost deduction failed unexpectedly"%string)
      | inl (e, st, Some (receipt, cumulative_gas)) =>
          inl (BlockRun e st cumulative_gas (add_blob_gas (run_blob r) (get_blob_gas (btx_tx btx))) (run_receipts r ++ [receipt]) (run_rejected r))
      end
  | err => inl (reject (run_evm_ r) st err (tx_validation_error_str err))
  end.

Fixpoint block_loop (rounds fuel : nat) (exec : block_executor_t) (r : block_run_t) (txs : list block_tx_t) : block_run_t + fault :=
  match txs with
  | [] => inl r
  | btx :: txs' =>
      match block_step rounds fuel exec r btx with
      | inr f => inr f
      | inl r => block_loop rounds fuel exec r txs'
      end
  end.

(** Sizes of the entries of the two result arrays. *)
Definition SIZEOF_RECEIPT : Z := 96.
Definition SIZEOF_REJECTED : Z := 24.

(** [None]: the run returned [false]. *)
Definition block_executor_run (rounds fuel : nat) (exec : block_executor_t) (e : evm_t) (st : St) (txs : list block_tx_t) :
  (evm_t * St * option block_exec_result_t) + fault :=
  let tx_count := Z.of_nat (length txs) in
  if tx_count =? 0 then
    let '(st, root) := state_root st in inl (e, st, Some (BlockResult [] [] 0 0 root))
  else if (tx_count >? SIZE_MAX / SIZEOF_RECEIPT) || (tx_count >? SIZE_MAX / SIZEOF_REJECTED) then inl (e, st, None)
  else if negb (alloc_succeeds (tx_count *64 SIZEOF_RECEIPT)) || negb (alloc_succeeds (tx_count *64 SIZEOF_REJECTED)) then inl (e, st, None)
  else
    match block_loop rounds fuel exec (BlockRun e st 0 0 [] []) txs with
    | inr f => inr f
    | inl r =>
        let '(st, root) := state_root (run_state r) in
        inl (run_evm_ r, st, Some (BlockResult (run_receipts r) (run_rejected r) (run_cumulative r) (run_blob r) root))
    end.
End Executor.
