(* ===== verification/ExecutorSafe.v ===== *)
(** What the executor guarantees: the intrinsic gas, the checks of validation,
    and, against the interface of the state, that every transaction of a block
    ends, keeps the state well formed and is accounted for. *)
From Stdlib Require Import String ZArith Lia List Bool.
From S2P Require Import Prelude Uint256 Multiply Arith Types Effects Arena Stack Memory Opcodes Gas StateAccess Frame OpsArith OpsData.
From S2P Require Import CallOps Evm FrameLogic OpsSafe StateSafe CallSafe EvmSafe Execution Endless Bytes Rlp RlpSpec Transaction TxRlp TxSpec.
From S2P Require Import Executor.
Import ListNotations.
#[local] Open Scope list_scope.
#[local] Open Scope Z_scope.
#[local] Open Scope word_scope.

(** * Intrinsic gas *)

Definition byte_cost (b : Z) : Z := if b =? 0 then 4 else 16.
Definition sum (l : list Z) : Z := fold_right Z.add 0 l.
Definition entry_cost (e : access_list_entry_t) : Z := 2400 + 1900 * Z.of_nat (length (ent_keys e)).

(** EIP-2028, EIP-3860 and EIP-2930. *)
Definition intrinsic_gas (tx : transaction_t) : Z :=
  21000 + sum (map byte_cost (transaction_data tx)) +
  (if transaction_is_create tx then 32000 + 2 * ((Z.of_nat (length (transaction_data tx)) + 31) / 32) else 0) +
  sum (map entry_cost (match transaction_access_list tx with Some l => l | None => [] end)).

(** A loop that adds with wrap-around adds up to the wrapped sum. *)
Lemma fold_add64 {A} (f : A -> Z) (step : Z -> A -> Z) l : (forall g x, step g x = w64 (g + f x)) ->
  forall g, u64 g -> fold_left step l g = w64 (g + sum (map f l)).
Proof.
  intros H. induction l as [|x l IH]; intros g Hg; cbn [fold_left map sum fold_right].
  - rewrite Z.add_0_r, w64_small by exact Hg. reflexivity.
  - rewrite H, IH by apply w64_range. rewrite w64_add_l. f_equal. unfold sum. lia.
Qed.

Lemma calldata_gas_spec data g : u64 g -> calldata_gas data g = w64 (g + sum (map byte_cost data)).
Proof. apply fold_add64. intros g' b. unfold add64, byte_cost, GAS_TX_DATA_ZERO, GAS_TX_DATA_NON_ZERO. destruct (b =? 0); reflexivity. Qed.

Lemma access_list_gas_spec l g : u64 g -> access_list_gas l g = w64 (g + sum (map entry_cost l)).
Proof.
  apply fold_add64. intros g' e. unfold add64, mul64, entry_cost, GAS_ACCESS_LIST_ADDRESS, GAS_ACCESS_LIST_STORAGE_KEY.
  rewrite w64_add_l, w64_add_r. f_equal. lia.
Qed.

Lemma tx_intrinsic_gas_spec tx : Z.of_nat (length (transaction_data tx)) < 2 ^ 63 -> tx_intrinsic_gas tx = w64 (intrinsic_gas tx).
Proof.
  intros L. unfold tx_intrinsic_gas, intrinsic_gas. rewrite calldata_gas_spec by (unfold u64, GAS_TX; lia).
  set (n := Z.of_nat (length (transaction_data tx))) in *. set (c := sum (map byte_cost (transaction_data tx))).
  assert (E : (if transaction_is_create tx then
      if n >? 0 then (w64 (GAS_TX + c) +64 GAS_CREATE) +64 (((n +64 31) / 32) *64 2) else w64 (GAS_TX + c) +64 GAS_CREATE
      else w64 (GAS_TX + c)) = w64 (21000 + c + (if transaction_is_create tx then 32000 + 2 * ((n + 31) / 32) else 0))).
  { unfold GAS_TX, GAS_CREATE. destruct (transaction_is_create tx); [|apply (f_equal w64); lia]. unfold add64, mul64. rewrite !w64_add_l. destruct (Z.gtb_spec n 0) as [P|P].
    - rewrite (w64_small (n + 31)) by (unfold u64; lia). rewrite w64_add_r, <- Z.add_assoc, w64_add_l. apply (f_equal w64). lia.
    - replace n with 0 by lia. apply (f_equal w64). change ((0 + 31) / 32) with 0. lia. }
  cbv zeta. rewrite E. destruct (transaction_access_list tx) as [l|].
  - rewrite access_list_gas_spec by apply w64_range. rewrite w64_add_l. reflexivity.
  - cbn. rewrite Z.add_0_r. reflexivity.
Qed.

Lemma sum_nonneg {A} (f : A -> Z) l : (forall x, 0 <= f x) -> 0 <= sum (map f l).
Proof. intros H. induction l as [|x l IH]; cbn; [lia|]. specialize (H x). unfold sum in IH. lia. Qed.

Lemma intrinsic_gas_min tx : 21000 <= intrinsic_gas tx.
Proof.
  unfold intrinsic_gas. pose proof (sum_nonneg byte_cost (transaction_data tx) ltac:(intros x; unfold byte_cost; destruct (_ =? _); lia)).
  pose proof (sum_nonneg entry_cost (match transaction_access_list tx with Some l => l | None => [] end) ltac:(intros x; unfold entry_cost; lia)).
  destruct (transaction_is_create tx); [|lia]. assert (0 <= (Z.of_nat (length (transaction_data tx)) + 31) / 32) by (apply Z.div_pos; lia). lia.
Qed.

(** * Prices *)

Lemma effective_price_wf tx base : wf_transaction tx -> wf256 base -> wf256 (transaction_effective_gas_price tx base).
Proof.
  intros W B. destruct tx; cbn [wf_transaction transaction_effective_gas_price] in *; destruct W; try assumption.
  - unfold eip1559_tx_effective_gas_price. destruct (uint256_lt _ _); [assumption | rewrite uint256_add_spec by assumption; apply wf_of_Z256].
  - unfold eip4844_tx_effective_gas_price. destruct (uint256_lt _ _); [assumption | rewrite uint256_add_spec by assumption; apply wf_of_Z256].
  - unfold eip7702_tx_effective_gas_price. destruct (uint256_lt _ _); [assumption | rewrite uint256_add_spec by assumption; apply wf_of_Z256].
Qed.

Lemma value_wf tx : wf_transaction tx -> wf256 (transaction_value tx).
Proof. destruct tx; cbn; intros []; assumption. Qed.

Lemma gas_limit_u64 tx : wf_transaction tx -> u64 (transaction_gas_limit tx).
Proof. destruct tx; cbn; intros []; assumption. Qed.

Lemma max_fee_wf tx : wf_transaction tx -> wf256 (transaction_max_fee_per_gas tx).
Proof. destruct tx; cbn; intros []; assumption. Qed.

Lemma data_ok tx : wf_transaction tx -> bytes_ok (transaction_data tx).
Proof. destruct tx; cbn; intros []; assumption. Qed.

Lemma to_wf tx a : wf_transaction tx -> transaction_to tx = Some a -> wf_address a.
Proof.
  destruct tx; cbn; intros [] E; try (injection E as <-; assumption); rewrite E in *; cbn in *; assumption.
Qed.

Lemma blob_hashes_ok tx : wf_transaction tx -> Forall bytes_ok (get_blob_hashes tx).
Proof. destruct tx; cbn; intros []; try apply Forall_nil. eapply Forall_impl; [|eassumption]. intros h []. assumption. Qed.

Lemma access_list_ok tx l : wf_transaction tx -> transaction_access_list tx = Some l -> Forall wf_entry l.
Proof. destruct tx; cbn; intros [] E; try discriminate; injection E as <-; assumption. Qed.

(** * Validation *)

Section Validation.
Context {St : Type} {SA : StateAccess St} {SL : StateLaws St}.

Definition gas_price_of (exec : block_executor_t) (btx : block_tx_t) : uint256_t :=
  transaction_effective_gas_price (btx_tx btx) (base_fee (exec_block exec)).

(** The conditions of a valid transaction, on integers; the cost of its gas is
    taken modulo 2^256. *)
Record valid_tx (exec : block_executor_t) (st : St) (btx : block_tx_t) (cumulative : Z) : Prop := {
  vt_chain : forall c, transaction_chain_id (btx_tx btx) = Some c -> c = exec_chain_id exec;
  vt_nonce : transaction_nonce (btx_tx btx) = get_nonce st (btx_sender btx);
  vt_intrinsic : tx_intrinsic_gas (btx_tx btx) <= transaction_gas_limit (btx_tx btx);
  vt_block : cumulative + transaction_gas_limit (btx_tx btx) <= Frame.gas_limit (exec_block exec);
  vt_fee : val (base_fee (exec_block exec)) <= val (transaction_max_fee_per_gas (btx_tx btx));
  vt_balance : (val (gas_price_of exec btx) * transaction_gas_limit (btx_tx btx)) mod 2 ^ 256 + val (transaction_value (btx_tx btx))
    <= val (get_balance st (btx_sender btx)) }.

Lemma validate_spec exec st btx cumulative : state_ok st -> wf_transaction (btx_tx btx) -> block_ok (exec_block exec) -> u64 cumulative ->
  block_executor_validate_tx exec st btx cumulative = TX_VALID <-> valid_tx exec st btx cumulative.
Proof.
  intros SO W BO C. unfold block_executor_validate_tx. pose proof (gas_limit_u64 _ W) as GU. pose proof (value_wf _ W) as VW. pose proof (max_fee_wf _ W) as MW.
  destruct (bo_words _ BO) as (BW & _ & _). destruct (bo_numbers _ BO) as (_ & _ & LU & _). pose proof (effective_price_wf _ _ W BW) as PW.
  pose proof (balance_wf st (btx_sender btx) SO) as SW. rewrite !uint256_lt_spec by (auto with words; rewrite ?uint256_add_spec, ?uint256_mul_spec; auto with words; apply wf_of_Z256).
  rewrite uint256_mul_spec, uint256_add_spec, !val_of_Z256, val_from_u64 by (auto with words; apply wf_of_Z256). fold (gas_price_of exec btx).
  set (g := transaction_gas_limit (btx_tx btx)) in *. set (L := Frame.gas_limit (exec_block exec)) in *.
  set (cost := (val (gas_price_of exec btx) * g) mod 2 ^ 256). set (v := val (transaction_value (btx_tx btx))).
  assert (CR : 0 <= cost < 2 ^ 256) by (apply Z.mod_pos_bound; reflexivity). assert (VR : 0 <= v < 2 ^ 256) by apply val_range, VW.
  pose proof (val_range _ SW) as SR. set (bal := val (get_balance st (btx_sender btx))) in *. unfold u64 in *.
  assert (TC : (cost + v) mod 2 ^ 256 = if cost + v <? 2 ^ 256 then cost + v else cost + v - 2 ^ 256).
  { destruct (Z.ltb_spec (cost + v) (2 ^ 256)); [apply Z.mod_small; lia|]. rewrite <- (Z_mod_plus_full _ (-1)), Z.mod_small by lia. lia. }
  rewrite TC. split.
  - intros H. destruct (match transaction_chain_id (btx_tx btx) with Some c => _ | None => _ end) eqn:E1; [discriminate|].
    destruct (Z.ltb_spec (transaction_nonce (btx_tx btx)) (get_nonce st (btx_sender btx))); [discriminate|].
    destruct (Z.gtb_spec (transaction_nonce (btx_tx btx)) (get_nonce st (btx_sender btx))); [discriminate|].
    destruct (Z.ltb_spec g (tx_intrinsic_gas (btx_tx btx))); [discriminate|].
    destruct (Z.gtb_spec g L); [discriminate|]. cbn [orb] in H. unfold sub64 in H. rewrite w64_small in H by (unfold u64; lia).
    destruct (Z.gtb_spec cumulative (L - g)); [discriminate|].
    destruct (Z.ltb_spec (val (transaction_max_fee_per_gas (btx_tx btx))) (val (base_fee (exec_block exec)))); [discriminate|].
    destruct (Z.ltb_spec (cost + v) (2 ^ 256)).
    + destruct (Z.ltb_spec (cost + v) v); [discriminate|]. destruct (Z.ltb_spec bal (cost + v)); [discriminate|].
      split; try assumption; try lia. intros c Hc. rewrite Hc in E1. apply negb_false_iff, Z.eqb_eq in E1. exact E1.
    + destruct (Z.ltb_spec (cost + v - 2 ^ 256) v); [discriminate|]. lia.
  - intros [V1 V2 V3 V4 V5 V6]. fold g L in V3, V4. fold g in V6. fold cost v bal in V6.
    replace (match transaction_chain_id (btx_tx btx) with Some c => negb (c =? exec_chain_id exec) | None => false end) with false.
    2:{ destruct (transaction_chain_id (btx_tx btx)) as [c|]; [|reflexivity]. rewrite (V1 c eq_refl), Z.eqb_refl. reflexivity. }
    rewrite V2, Z.ltb_irrefl. destruct (Z.gtb_spec (get_nonce st (btx_sender btx)) (get_nonce st (btx_sender btx))); [lia|].
    rewrite (proj2 (Z.ltb_ge _ _)) by lia. destruct (Z.gtb_spec g L); [lia|]. cbn [orb]. unfold sub64. rewrite w64_small by (unfold u64; lia).
    destruct (Z.gtb_spec cumulative (L - g)); [lia|]. rewrite (proj2 (Z.ltb_ge _ _)) by lia. rewrite (proj2 (Z.ltb_lt (cost + v) (2 ^ 256))) by lia.
    rewrite (proj2 (Z.ltb_ge (cost + v) v)) by lia. rewrite (proj2 (Z.ltb_ge bal _)) by lia. reflexivity.
Qed.
End Validation.

(** * Block runs

    The executor against the interface of the state: every transaction of a
    block ends, keeps the state well formed and is accounted for. *)

(** What the executor needs of the state besides [StateLaws]. *)
Class BlockLaws (St : Type) {SA : StateAccess St} {SL : StateLaws St} := {
  nonce_u64 : forall s a, state_ok s -> u64 (get_nonce s a);
  begin_ok : forall s, state_ok s -> state_ok (begin_transaction s);
  increment_ok : forall s a, state_ok s -> state_ok (fst (increment_nonce s a));
  create_ok : forall s a, state_ok s -> state_ok (create_contract s a);
  set_code_ok : forall s a c, state_ok s -> bytes_ok c -> Z.of_nat (length c) <= 65536 -> state_ok (set_code s a c);
  snapshot_ok : forall s, state_ok s -> state_ok (fst (snapshot s));
  revert_ok : forall s n, state_ok s -> state_ok (revert_to_snapshot s n);
  commit_ok : forall s n, state_ok s -> state_ok (commit_snapshot s n);
  root_ok : forall s, state_ok s -> state_ok (fst (state_root s)) }.

(** ** Addresses of new contracts *)

Section Addresses.
Variable keccak256 : list Z -> hash_t.
Hypothesis keccak_wf : forall bs, bytes_ok bs -> wf_hash (keccak256 bs).

(** The last twenty bytes of the hash of the list of sender and nonce. *)
Definition create_preimage (sender : address_t) (nonce : Z) : list Z := enc_list (enc_str sender ++ enc_int nonce).

Lemma preimage_length sender nonce : wf_address sender -> u64 nonce ->
  22 <= Z.of_nat (length (enc_str sender ++ enc_int nonce)) <= 30.
Proof. intros A N. rewrite length_app, length_enc_address by exact A. pose proof (length_enc_u64 _ N). lia. Qed.

Lemma create_address_spec sender nonce : wf_address sender -> u64 nonce ->
  compute_create_address keccak256 sender nonce = Some (firstn 20 (skipn 12 (keccak256 (create_preimage sender nonce)))).
Proof.
  intros A N. pose proof (preimage_length _ _ A N) as L. unfold compute_create_address.
  rewrite reserve_fresh by (unfold DIV0_ARENA_BLOCK_SIZE; lia). change (Bytes [] 64 true) with (filled [] 64).
  rewrite rlp_list_start_spec by (unfold DIV0_ARENA_BLOCK_SIZE; cbn [length]; lia). cbv iota beta. unfold rlp_list_append.
  rewrite rlp_encode_u64_spec, rlp_encode_address_spec by assumption. rewrite length_app in L.
  rewrite !append_filled by (unfold DIV0_ARENA_BLOCK_SIZE; rewrite ?length_app; change (length reserved) with 9%nat; cbn [length]; lia).
  rewrite <- !app_assoc. cbn [app]. pose proof (rlp_list_end_spec [] (enc_str sender ++ enc_int nonce) 64) as E. cbn [app] in E. rewrite E; [reflexivity|].
  unfold DIV0_ARENA_BLOCK_SIZE. rewrite !length_app. change (length reserved) with 9%nat. lia.
Qed.

Lemma hash_tail_wf h : wf_hash h -> wf_address (firstn 20 (skipn 12 h)).
Proof.
  intros [L B]. split; [|apply Forall_firstn, Forall_skipn, B]. rewrite length_firstn, length_skipn. unfold HASH_SIZE, ADDRESS_SIZE in *.
  unfold hash_t in *. lia.
Qed.

Lemma create_address_wf sender nonce : wf_address sender -> u64 nonce ->
  exists a, compute_create_address keccak256 sender nonce = Some a /\ wf_address a.
Proof.
  intros A N. eexists. split; [apply create_address_spec; assumption|]. apply hash_tail_wf, keccak_wf. pose proof (preimage_length _ _ A N).
  apply bytes_ok_enc_list; [|lia]. apply bytes_ok_app; [apply bytes_ok_enc_str; [apply A | destruct A as [-> _]; reflexivity] | apply bytes_ok_enc_u64, N].
Qed.
End Addresses.

(** ** One transaction *)

(** A transaction a caller may put in a block. *)
Record btx_ok (btx : block_tx_t) : Prop := {
  bt_wf : wf_transaction (btx_tx btx);
  bt_sender : wf_address (btx_sender btx);
  bt_data : Z.of_nat (length (transaction_data (btx_tx btx))) < 2 ^ 63 }.

Lemma create_or_to tx : transaction_is_create tx = true \/ exists to, transaction_to tx = Some to.
Proof.
  destruct tx as [t|t|t|t|t]; cbn; unfold legacy_tx_is_create, eip2930_tx_is_create, eip1559_tx_is_create; [destruct (leg_to t)|destruct (t1_to t)|destruct (t2_to t)|..]; eauto.
Qed.

Lemma intrinsic_u64 btx : btx_ok btx -> u64 (tx_intrinsic_gas (btx_tx btx)).
Proof. intros [_ _ L]. rewrite tx_intrinsic_gas_spec by exact L. apply w64_range. Qed.

Section Transaction.
Context {St : Type} {SA : StateAccess St} {SL : StateLaws St} {BL : BlockLaws St}.
Variable keccak256 : list Z -> hash_t.
Hypothesis keccak_wf : forall bs, bytes_ok bs -> wf_hash (keccak256 bs).
Variable exec : block_executor_t.
Hypothesis exec_ok : block_ok (exec_block exec).
#[local] Abbreviation evm_t := (evm_t St).

Lemma price_wf btx : btx_ok btx -> wf256 (gas_price_of exec btx).
Proof. intros [W _ _]. apply effective_price_wf; [exact W|]. apply (bo_words _ exec_ok). Qed.

Lemma cost_wf a g : wf256 a -> u64 g -> wf256 (uint256_mul a (uint256_from_u64 g)).
Proof. intros A G. rewrite uint256_mul_spec by auto with words. apply wf_of_Z256. Qed.

Lemma warm_list_ok l s : state_ok s -> state_ok (warm_access_list s l).
Proof.
  destruct l as [l|]; [|auto]. cbn [warm_access_list]. revert s. induction l as [|e l IH]; intros s H; cbn [fold_left]; [exact H|].
  apply IH. assert (H1 : state_ok (fst (warm_address s (ent_address e)))) by apply warm_address_ok, H. revert H1. generalize (fst (warm_address s (ent_address e))).
  induction (ent_keys e) as [|k ks IHk]; intros s' H'; cbn [fold_left]; [exact H'|]. apply IHk, warm_slot_ok, H'.
Qed.

Lemma prepare_spec st btx : state_ok st -> btx_ok btx ->
  match prepare_transaction keccak256 exec st btx with
  | inl (st', None) => state_ok st'
  | inl (_, Some p) => state_ok (pre_state p) /\ wf_address (pre_contract p)
  | inr _ => False
  end.
Proof.
  intros S B. unfold prepare_transaction. cbv zeta. fold (gas_price_of exec btx).
  pose proof (sub_balance_ok st (btx_sender btx) _ S (cost_wf _ _ (price_wf btx B) (gas_limit_u64 _ (bt_wf _ B)))) as S1.
  destruct (sub_balance st (btx_sender btx) _) as [st1 charged]. cbn [fst] in S1. destruct charged; [|exact S1]. cbn [negb].
  pose proof (increment_ok st1 (btx_sender btx) S1) as S2. destruct (increment_nonce st1 (btx_sender btx)) as [st2 n]. cbn [fst] in S2.
  pose proof (nonce_u64 st1 (btx_sender btx) S1) as N.
  assert (C : exists a, (if transaction_is_create (btx_tx btx) then compute_create_address keccak256 (btx_sender btx) (get_nonce st1 (btx_sender btx))
    else Some address_zero) = Some a /\ wf_address a).
  { destruct (transaction_is_create _); [apply create_address_wf; [exact keccak_wf | apply B | exact N] | exists address_zero; split; [reflexivity | apply wf_address_zero]]. }
  destruct C as (a & -> & Ha).
  set (st3 := fst (warm_address st2 (btx_sender btx))). assert (S3 : state_ok st3) by apply warm_address_ok, S2.
  set (st4 := if transaction_is_create (btx_tx btx) then _ else _).
  assert (S4 : state_ok st4).
  { unfold st4. destruct (transaction_is_create _); [apply warm_address_ok, S3|]. destruct (transaction_to _); [apply warm_address_ok, S3 | exact S3]. }
  pose proof (snapshot_ok _ (warm_list_ok (transaction_access_list (btx_tx btx)) _ S4)) as S5. destruct (snapshot _) as [st5 snap]. cbn [fst] in S5.
  split; assumption.
Qed.

Lemma transfer_spec st btx a : state_ok st -> btx_ok btx -> state_ok (fst (transfer_value st btx a)).
Proof.
  intros S B. unfold transfer_value. destruct (uint256_is_zero _); [exact S|]. pose proof (value_wf _ (bt_wf _ B)) as V.
  pose proof (sub_balance_ok st (btx_sender btx) _ S V) as S1. destruct (sub_balance _ _ _) as [st1 paid]. cbn [fst] in S1.
  destruct paid; [|exact S1]. cbn [negb]. destruct (if transaction_is_create _ then _ else _); [apply add_balance_ok; assumption | exact S1].
Qed.

Lemma build_spec st btx a : state_ok st -> btx_ok btx -> wf_address a -> tx_intrinsic_gas (btx_tx btx) <= transaction_gas_limit (btx_tx btx) ->
  exists st' env, build_env exec st btx a = Some (st', env) /\ state_ok st' /\ env_ok env /\
    call_gas (env_call env) = transaction_gas_limit (btx_tx btx) - tx_intrinsic_gas (btx_tx btx).
Proof.
  intros S B A I. pose proof (intrinsic_u64 btx B) as IU. destruct B as [W Ws L]. pose proof (gas_limit_u64 _ W) as G. unfold u64 in *.
  assert (CG : transaction_gas_limit (btx_tx btx) -64 tx_intrinsic_gas (btx_tx btx) = transaction_gas_limit (btx_tx btx) - tx_intrinsic_gas (btx_tx btx))
    by (unfold sub64; apply w64_small; unfold u64; lia).
  assert (T : tx_ok (TxContext (btx_sender btx) (gas_price_of exec btx) (get_blob_hashes (btx_tx btx)))).
  { split; cbn; [exact Ws | apply effective_price_wf; [exact W | apply (bo_words _ exec_ok)] | apply blob_hashes_ok, W]. }
  unfold build_env. cbv zeta. fold (gas_price_of exec btx). rewrite CG. destruct (transaction_is_create (btx_tx btx)) eqn:E.
  - eexists _, _. split; [reflexivity|]. split; [apply create_ok, S|]. split; [|reflexivity].
    split; cbn; auto using value_wf, data_ok; [unfold u64; lia | split; [constructor | unfold u64; lia]].
  - destruct (create_or_to (btx_tx btx)) as [E'|[to E']]; [congruence|]. rewrite E'. eexists _, _. split; [reflexivity|]. split; [exact S|]. split; [|reflexivity].
    pose proof (code_size_eq st to S) as [K1 K2].
    split; cbn; eauto using value_wf, to_wf; [unfold u64; lia | split; [apply code_wf, S | lia] | split; [apply data_ok, W | unfold u64; lia]].
Qed.

(** The message a transaction sends to the interpreter, when it gets there. *)
Definition message (r : block_run_t (St := St)) (btx : block_tx_t) : option (evm_t * execution_env_t) :=
  let st := begin_transaction (run_state r) in
  match block_executor_validate_tx exec st btx (run_cumulative r), prepare_transaction keccak256 exec st btx with
  | TX_VALID, inl (_, Some p) =>
      let '(st, paid) := transfer_value (pre_state p) btx (pre_contract p) in
      if paid then
        match build_env exec st btx (pre_contract p) with
        | Some (st, env) => Some (evm_set_state (evm_reset (run_evm_ r)) (Some st), env)
        | None => None
        end
      else None
  | _, _ => None
  end.

(** The messages of a block, in the states its transactions find. *)
Inductive sent : block_run_t (St := St) -> list block_tx_t -> evm_t -> execution_env_t -> Prop :=
| sent_now r btx txs e env : message r btx = Some (e, env) -> sent r (btx :: txs) e env
| sent_later r btx txs r' rounds fuel e env : block_step keccak256 rounds fuel exec r btx = inl r' -> sent r' txs e env ->
    sent r (btx :: txs) e env.

(** What explains a fault of a block: a transaction whose hash cannot be
    computed, or a message whose execution is to blame. *)
Definition excused (r : block_run_t (St := St)) (txs : list block_tx_t) (x : fault) : Prop :=
  x = OutOfBounds /\ (exists btx, In btx txs /\ transaction_hash keccak256 (btx_tx btx) = None) \/
  exists e env, sent r txs e env /\ blamed keccak256 e env x.

Lemma excused_fuel r txs : ~ excused r txs OutOfFuel.
Proof. intros [[X _]|(e & env & _ & m & _ & X)]; [discriminate | exact X]. Qed.

(** The interpreter's part, for enough fuel. *)
Definition run_result_ok (e : evm_t) (env : execution_env_t) (x : (evm_t * St * evm_execution_result_t) + fault) : Prop :=
  match x with
  | inl (e, st, r) => evm_ok e /\ state_ok st /\ 0 <= Evm.gas_used r <= call_gas (env_call env) /\ u64 (result_gas_refund r) /\
      bytes_ok (output r) /\ Z.of_nat (length (output r)) <= 65536
  | inr f => blamed keccak256 e env f
  end.

Definition settled {A} (f : nat -> nat -> A) (P : A -> Prop) : Prop :=
  exists n res, (forall rounds fuel, (n <= rounds)%nat -> (n <= fuel)%nat -> f rounds fuel = res) /\ P res.

Lemma run_evm_spec e st env : evm_ok e -> state_ok st -> env_ok env ->
  settled (fun rounds fuel => run_evm keccak256 rounds fuel e st env) (run_result_ok (evm_set_state (evm_reset e) (Some st)) env).
Proof.
  intros He S V. assert (He' : evm_ok (evm_set_state (evm_reset e) (Some st))).
  { destruct He. split; cbn; auto with words. - split; [constructor|lia]. - intros s [= <-]. exact S. }
  destruct (execution_outcome keccak256 _ env keccak_wf He' V ltac:(cbn; unfold EVM_MAX_CALL_DEPTH; lia)) as (n & res & Hn & K).
  exists n. eexists. split; [intros rounds fuel Hr Hf; unfold run_evm; rewrite (Hn rounds fuel Hr Hf); reflexivity|].
  destruct res as [[e' r]|x]; [|exact K]. destruct K as [D1 _ D3 [D4 D5] D6 D7 _]. cbn [run_result_ok].
  split; [exact D1|]. split; [destruct (state e') eqn:Se; [exact (eo_state _ D1 _ Se) | exact S]|]. split; [exact D3|].
  split; [|split; assumption]. destruct (result r) eqn:R; [destruct (D6 eq_refl) as (_ & -> & _); apply D1 | destruct (D7 eq_refl) as [-> _]; apply u64_0].
Qed.

(** The gas a receipt reports. *)
Definition charged_ok (btx : block_tx_t) (success : bool) (gas_used : Z) : Prop :=
  0 <= gas_used <= transaction_gas_limit (btx_tx btx) /\
  (success = true -> 4 * tx_intrinsic_gas (btx_tx btx) <= 5 * gas_used) /\
  (success = false -> gas_used = transaction_gas_limit (btx_tx btx)).

Lemma failed_charge btx : btx_ok btx -> charged_ok btx false (transaction_gas_limit (btx_tx btx)).
Proof. intros [W _ _]. pose proof (gas_limit_u64 _ W) as []. split; [lia|]. split; [discriminate|reflexivity]. Qed.

(** Intrinsic gas plus gas used, less at most a fifth. *)
Lemma refund_range btx used refund : btx_ok btx -> 0 <= used <= transaction_gas_limit (btx_tx btx) - tx_intrinsic_gas (btx_tx btx) -> u64 refund ->
  let gas_used := tx_intrinsic_gas (btx_tx btx) +64 used in
  charged_ok btx true (gas_used -64 (if refund <? gas_used / 5 then refund else gas_used / 5)).
Proof.
  intros B U R. pose proof (intrinsic_u64 btx B) as IU. pose proof (gas_limit_u64 _ (bt_wf _ B)) as G. unfold u64 in *.
  unfold add64. rewrite w64_small by (unfold u64; lia). set (t := tx_intrinsic_gas (btx_tx btx) + used). cbv zeta.
  pose proof (Z.mul_div_le t 5 ltac:(lia)). assert (0 <= t / 5) by (apply Z.div_pos; lia).
  destruct (Z.ltb_spec refund (t / 5)); unfold sub64; rewrite w64_small by (unfold u64; lia); (split; [lia|split; [lia|discriminate]]).
Qed.

Lemma apply_spec st btx a snap r : state_ok st -> btx_ok btx ->
  0 <= Evm.gas_used r <= transaction_gas_limit (btx_tx btx) - tx_intrinsic_gas (btx_tx btx) -> u64 (result_gas_refund r) ->
  bytes_ok (output r) -> Z.of_nat (length (output r)) <= 65536 ->
  let '(st', o) := apply_result st btx a snap r in state_ok st' /\ charged_ok btx (out_success o) (out_gas_used o).
Proof.
  intros S B U R O L. unfold apply_result. destruct (result r).
  - pose proof (refund_range btx _ _ B U R) as K. cbv zeta in *. destruct (transaction_is_create _); (split; [|exact K]).
    + destruct (_ >? 0); [apply set_code_ok; auto using commit_ok | apply commit_ok, S].
    + apply commit_ok, S.
  - split; [apply revert_ok, S | apply failed_charge, B].
Qed.

Lemma settle_ok st btx g : state_ok st -> btx_ok btx -> 0 <= g <= transaction_gas_limit (btx_tx btx) -> state_ok (settle exec st btx g).
Proof.
  intros S B G. pose proof (price_wf btx B) as P. destruct (bo_words _ exec_ok) as (W & _). unfold settle. cbv zeta. fold (gas_price_of exec btx).
  pose proof (gas_limit_u64 _ (bt_wf _ B)) as GL. unfold u64 in GL.
  apply add_balance_ok; [|apply cost_wf; [rewrite uint256_sub_spec by assumption; apply wf_of_Z256 | unfold u64; lia]].
  destruct (_ >? 0); [|exact S]. apply add_balance_ok; [exact S|]. apply cost_wf; [exact P | apply w64_range].
Qed.

(** What a transaction that passed validation leads to. *)
Definition receipt_ok (btx : block_tx_t) (cumulative : Z) (rcp : exec_receipt_t) : Prop :=
  charged_ok btx (rcp_success rcp) (rcp_gas_used rcp) /\ rcp_tx_type rcp = tx_type (btx_tx btx) /\
  rcp_cumulative_gas rcp = cumulative + rcp_gas_used rcp.

Definition executed_ok (F : fault -> Prop) (btx : block_tx_t) (cumulative : Z) (x : (evm_t * St * option (exec_receipt_t * Z)) + fault) : Prop :=
  match x with
  | inl (e, st, None) => evm_ok e /\ state_ok st
  | inl (e, st, Some (rcp, c)) => evm_ok e /\ state_ok st /\ receipt_ok btx cumulative rcp /\ c = rcp_cumulative_gas rcp
  | inr f => F f
  end.

Lemma settled_const {A} (x : A) (P : A -> Prop) : P x -> settled (fun _ _ => x) P.
Proof. intros H. exists 0%nat, x. auto. Qed.

Lemma settled_then {A B} (f : nat -> nat -> A) (k : A -> nat -> nat -> B) P Q :
  settled f P -> (forall a, P a -> settled (k a) Q) -> settled (fun rounds fuel => k (f rounds fuel) rounds fuel) Q.
Proof.
  intros (n & a & Hn & Ha) H. destruct (H a Ha) as (m & b & Hm & Hb). exists (Nat.max n m), b. split; [|exact Hb].
  intros rounds fuel Hr Hf. rewrite Hn by lia. apply Hm; lia.
Qed.

Lemma finalize_spec F e st btx h cumulative o : evm_ok e -> state_ok st -> btx_ok btx -> charged_ok btx (out_success o) (out_gas_used o) ->
  0 <= cumulative -> u64 (cumulative + transaction_gas_limit (btx_tx btx)) -> executed_ok F btx cumulative (inl (finalize exec e st btx h cumulative o)).
Proof.
  intros He S B Ch C U. unfold finalize. cbv zeta. cbn [executed_ok]. split; [exact He|].
  split; [apply settle_ok; [exact S | exact B | apply Ch]|]. unfold u64 in U. destruct Ch as [Ch Ch'].
  assert (E : cumulative +64 out_gas_used o = cumulative + out_gas_used o) by (unfold add64; apply w64_small; unfold u64; lia).
  split; [|reflexivity]. split; [split; assumption|]. split; [reflexivity|exact E].
Qed.

Lemma execute_spec (r : block_run_t (St := St)) btx : let st := begin_transaction (run_state r) in
  evm_ok (run_evm_ r) -> state_ok st -> btx_ok btx -> 0 <= run_cumulative r -> block_executor_validate_tx exec st btx (run_cumulative r) = TX_VALID ->
  tx_intrinsic_gas (btx_tx btx) <= transaction_gas_limit (btx_tx btx) -> u64 (run_cumulative r + transaction_gas_limit (btx_tx btx)) ->
  settled (fun rounds fuel => execute_transaction keccak256 rounds fuel exec (run_evm_ r) st btx (run_cumulative r))
    (executed_ok (excused r [btx]) btx (run_cumulative r)).
Proof.
  intros st He S B C V I U. unfold execute_transaction. destruct (transaction_hash _ _) as [h|] eqn:H.
  2:{ apply settled_const. left. split; [reflexivity|]. exists btx. split; [left; reflexivity | exact H]. }
  assert (Msg : forall e env x, message r btx = Some (e, env) -> blamed keccak256 e env x -> excused r [btx] x) by (intros e env x E K; right; exists e, env; split; [constructor|]; assumption).
  unfold message in Msg. cbv zeta in Msg. fold st in Msg. rewrite V in Msg.
  pose proof (prepare_spec st btx S B) as P. destruct (prepare_transaction _ _ _ _) as [[st' [p|]]|x]; [|apply settled_const; split; assumption | contradiction].
  destruct P as [S1 A]. pose proof (transfer_spec _ btx (pre_contract p) S1 B) as S2. destruct (transfer_value _ _ _) as [st2 paid]. cbn [fst] in S2.
  destruct paid; cbn [negb]; [|apply settled_const, finalize_spec; auto using revert_ok, failed_charge].
  destruct (build_spec st2 btx _ S2 B A I) as (st3 & env & E & S3 & Ve & G). rewrite E in Msg |- *.
  apply (settled_then (fun rounds fuel => run_evm keccak256 rounds fuel (run_evm_ r) st3 env)
    (fun x _ _ => match x with inr f => inr f | inl (e, st, r') => let '(st, o) := apply_result st btx (pre_contract p) (pre_snapshot p) r' in
       inl (finalize exec e st btx h (run_cumulative r) o) end) _ _ (run_evm_spec (run_evm_ r) st3 env He S3 Ve)).
  intros [[[e4 st4] r']|x] K; apply settled_const; [|exact (Msg _ _ x eq_refl K)]. destruct K as (K1 & K2 & K3 & K4 & K5 & K6). rewrite G in K3.
  pose proof (apply_spec st4 btx (pre_contract p) (pre_snapshot p) r' K2 B K3 K4 K5 K6) as Y. destruct (apply_result _ _ _ _ _) as [st5 o].
  destruct Y as [Y1 Y2]. apply finalize_spec; assumption.
Qed.

(** ** The block *)

(** Cumulative gas runs along the receipts, which end at [total]. *)
Fixpoint running (start : Z) (l : list exec_receipt_t) (total : Z) : Prop :=
  match l with
  | [] => total = start
  | r :: l' => rcp_cumulative_gas r = start + rcp_gas_used r /\ running (start + rcp_gas_used r) l' total
  end.

Lemma running_snoc start l total r : running start l total -> rcp_cumulative_gas r = total + rcp_gas_used r ->
  running start (l ++ [r]) (rcp_cumulative_gas r).
Proof.
  revert start. induction l as [|x l IH]; intros start; cbn [running app].
  - intros -> E. split; [exact E | lia].
  - intros [E H] K. split; [exact E | apply IH; assumption].
Qed.

Record run_ok (done : nat) (r : block_run_t (St := St)) : Prop := {
  ro_evm : evm_ok (run_evm_ r);
  ro_state : state_ok (run_state r);
  ro_cumulative : 0 <= run_cumulative r <= Frame.gas_limit (exec_block exec);
  ro_running : running 0 (run_receipts r) (run_cumulative r);
  ro_gas : Forall (fun rcp => 0 <= rcp_gas_used rcp) (run_receipts r);
  ro_blob : u64 (run_blob r);
  ro_count : (length (run_receipts r) + length (run_rejected r) = done)%nat }.

Definition run_or_fault (F : fault -> Prop) (done : nat) (x : block_run_t (St := St) + fault) : Prop :=
  match x with inl r => run_ok done r | inr f => F f end.

Lemma excused_first r btx txs x : excused r [btx] x -> excused r (btx :: txs) x.
Proof.
  intros [(-> & b & [<-|[]] & H)|(e & env & Sn & K)]; [left; split; [reflexivity|]; exists btx; split; [left; reflexivity | exact H] | right; exists e, env].
  split; [|exact K]. inversion Sn as [? ? ? ? ? M|? ? ? ? ? ? ? ? _ X]; subst; [constructor; exact M | inversion X].
Qed.

Lemma excused_later r btx txs rounds fuel r' x : block_step keccak256 rounds fuel exec r btx = inl r' -> excused r' txs x -> excused r (btx :: txs) x.
Proof.
  intros E [(-> & b & I & H)|(e & env & Sn & K)]; [left; split; [reflexivity|]; exists b; split; [right; exact I | exact H] | right; exists e, env].
  split; [|exact K]. eapply sent_later; eassumption.
Qed.

Lemma add_blob_u64 a b : u64 a -> 0 <= b -> u64 (add_blob_gas a b).
Proof. intros A B. unfold add_blob_gas. destruct (_ <=? _); [apply w64_range | split; reflexivity || discriminate]. Qed.

Lemma blob_gas_nonneg tx : 0 <= get_blob_gas tx.
Proof. destruct tx; cbn; try lia. unfold eip4844_tx_blob_gas, mul64. apply w64_range. Qed.

Lemma rejected_ok n r e st btx err msg : run_ok n r -> evm_ok e -> state_ok st ->
  run_ok (S n) (BlockRun e st (run_cumulative r) (run_blob r) (run_receipts r) (run_rejected r ++ [Rejected (btx_original_index btx) err msg])).
Proof. intros [] He S. split; cbn; auto. rewrite length_app. cbn [length]. lia. Qed.

Lemma block_step_spec n r btx : run_ok n r -> btx_ok btx ->
  settled (fun rounds fuel => block_step keccak256 rounds fuel exec r btx) (run_or_fault (excused r [btx]) (S n)).
Proof.
  intros R B. unfold block_step. cbv zeta. pose proof (begin_ok _ (ro_state _ _ R)) as S. pose proof (ro_cumulative _ _ R) as C.
  destruct (bo_numbers _ exec_ok) as (_ & _ & L & _). unfold u64 in L. assert (CU : u64 (run_cumulative r)) by (unfold u64; lia).
  pose proof (validate_spec exec (begin_transaction (run_state r)) btx (run_cumulative r) S (bt_wf _ B) exec_ok CU) as [V _].
  destruct (block_executor_validate_tx exec (begin_transaction (run_state r)) btx (run_cumulative r)) eqn:Va; try (apply settled_const, rejected_ok; [exact R | apply R | exact S]).
  destruct (V eq_refl) as [_ _ V3 V4 _ _]. pose proof (gas_limit_u64 _ (bt_wf _ B)) as GL. unfold u64 in GL.
  apply (settled_then (fun rounds fuel => execute_transaction keccak256 rounds fuel exec (run_evm_ r) (begin_transaction (run_state r)) btx (run_cumulative r)) (fun x _ _ => match x with
    | inr f => inr f
    | inl (e, st, None) => inl (BlockRun e st (run_cumulative r) (run_blob r) (run_receipts r) (run_rejected r ++ [Rejected (btx_original_index btx) TX_ERR_INSUFFICIENT_BALANCE "gas cost deduction failed unexpectedly"%string]))
    | inl (e, st, Some (receipt, c)) => inl (BlockRun e st c (add_blob_gas (run_blob r) (get_blob_gas (btx_tx btx))) (run_receipts r ++ [receipt]) (run_rejected r)) end)
    _ _ (execute_spec r btx (ro_evm _ _ R) S B (proj1 C) Va V3 ltac:(unfold u64; lia))).
  intros [[[e st] [[rcp c]|]]|f] K; apply settled_const; [| apply rejected_ok; [exact R | apply K | apply K] | exact K].
  destruct K as (K1 & K2 & (K3 & _ & K4) & ->). destruct R. destruct K3 as [G _]. split; cbn; auto; try lia.
  - eapply running_snoc; eassumption.
  - apply Forall_app. split; [assumption | constructor; [lia|constructor]].
  - apply add_blob_u64; [assumption | apply blob_gas_nonneg].
  - rewrite length_app. cbn [length]. lia.
Qed.

(** A step whose result is known keeps it for the rest of the loop. *)
Lemma settled_seen {A B} (f : nat -> nat -> A) (k : A -> nat -> nat -> B) P Q : settled f P ->
  (forall a, P a -> (exists rounds fuel, f rounds fuel = a) -> settled (k a) Q) -> settled (fun rounds fuel => k (f rounds fuel) rounds fuel) Q.
Proof.
  intros (n & a & Hn & Ha) H. apply (settled_then f k (fun x => x = a)); [exists n, a; auto|]. intros x ->. apply H; [exact Ha|].
  exists n, n. apply Hn; apply Nat.le_refl.
Qed.

Lemma block_loop_spec txs : forall n r, run_ok n r -> Forall btx_ok txs ->
  settled (fun rounds fuel => block_loop keccak256 rounds fuel exec r txs) (run_or_fault (excused r txs) (n + length txs)).
Proof.
  induction txs as [|btx txs IH]; intros n r R B; cbn [block_loop length].
  - apply settled_const. rewrite Nat.add_0_r. exact R.
  - pose proof (Forall_inv B) as B1. pose proof (Forall_inv_tail B) as B2.
    apply (settled_seen (fun rounds fuel => block_step keccak256 rounds fuel exec r btx)
      (fun x rounds fuel => match x with inr f => inr f | inl r => block_loop keccak256 rounds fuel exec r txs end)
      _ _ (block_step_spec n r btx R B1)).
    intros [r'|f] K (rounds & fuel & E); [|apply settled_const, excused_first, K]. rewrite Nat.add_succ_r, <- Nat.add_succ_l.
    destruct (IH (S n) r' K B2) as (m & res & Hm & Hr). exists m, res. split; [exact Hm|].
    destruct res as [r2|f]; [exact Hr | exact (excused_later _ _ _ _ _ _ _ E Hr)].
Qed.

(** The result of a run on [count] transactions. *)
Definition block_result_ok (F : fault -> Prop) (count : nat) (x : (evm_t * St * option block_exec_result_t) + fault) : Prop :=
  match x with
  | inr f => F f
  | inl (e, st, None) => 65536 < Z.of_nat count * SIZEOF_RECEIPT
  | inl (e, st, Some b) =>
      evm_ok e /\ state_ok st /\ res_gas_used b <= Frame.gas_limit (exec_block exec) /\ running 0 (res_receipts b) (res_gas_used b) /\
      Forall (fun rcp => 0 <= rcp_gas_used rcp) (res_receipts b) /\ u64 (res_blob_gas_used b) /\
      (length (res_receipts b) + length (res_rejected b) = count)%nat
  end.

(** The two arrays fit their allocations exactly when the receipts fit a block. *)
Lemma arrays_fit n : 0 < n ->
  ((n >? SIZE_MAX / SIZEOF_RECEIPT) || (n >? SIZE_MAX / SIZEOF_REJECTED)) = false ->
  negb (alloc_succeeds (n *64 SIZEOF_RECEIPT)) || negb (alloc_succeeds (n *64 SIZEOF_REJECTED)) = (65536 <? n * SIZEOF_RECEIPT).
Proof.
  intros P O. apply orb_false_iff in O as [O1 O2]. unfold SIZE_MAX, SIZEOF_RECEIPT, SIZEOF_REJECTED in *.
  rewrite Z.gtb_ltb in O1, O2. apply Z.ltb_ge in O1, O2. change ((2 ^ 64 - 1) / 96) with 192153584101141162 in O1.
  unfold mul64. rewrite !w64_small by (unfold u64; lia). unfold alloc_succeeds, DIV0_ARENA_BLOCK_SIZE. lia.
Qed.

Lemma block_run_spec e st txs : evm_ok e -> state_ok st -> Forall btx_ok txs ->
  settled (fun rounds fuel => block_executor_run keccak256 rounds fuel exec e st txs)
    (block_result_ok (excused (BlockRun e st 0 0 [] []) txs) (length txs)).
Proof.
  intros He S B. unfold block_executor_run. cbv zeta. destruct (bo_numbers _ exec_ok) as (_ & _ & L & _). unfold u64 in L.
  destruct (Z.eqb_spec (Z.of_nat (length txs)) 0) as [E|E].
  { pose proof (root_ok st S) as R. destruct (state_root st) as [st' root]. apply settled_const. cbn.
    split; [exact He|]. split; [exact R|]. split; [lia|]. split; [reflexivity|]. split; [constructor|]. split; [apply u64_0|lia]. }
  destruct (_ || _) eqn:O1.
  { apply settled_const. apply orb_true_iff in O1. unfold SIZE_MAX, SIZEOF_RECEIPT, SIZEOF_REJECTED, block_result_ok in *.
    change ((2 ^ 64 - 1) / 96) with 192153584101141162 in O1. change ((2 ^ 64 - 1) / 24) with 768614336404564650 in O1. unfold SIZEOF_RECEIPT. lia. }
  rewrite arrays_fit by (exact O1 || lia). destruct (Z.ltb_spec 65536 (Z.of_nat (length txs) * SIZEOF_RECEIPT)) as [F|F].
  { apply settled_const. exact F. }
  assert (R0 : run_ok 0 (BlockRun e st 0 0 [] [])) by (split; cbn; auto with words; lia).
  apply (settled_then (fun rounds fuel => block_loop keccak256 rounds fuel exec (BlockRun e st 0 0 [] []) txs)
    (fun x _ _ => match x with inr f => inr f | inl r => let '(st, root) := state_root (run_state r) in
       inl (run_evm_ r, st, Some (BlockResult (run_receipts r) (run_rejected r) (run_cumulative r) (run_blob r) root)) end)
    _ _ (block_loop_spec txs 0 _ R0 B)).
  intros [r|f] K; [|apply settled_const, K]. destruct K as [K1 K2 K3 K4 K5 K6 K7]. pose proof (root_ok _ K2) as R.
  destruct (state_root (run_state r)) as [st' root]. apply settled_const. cbn. destruct K3. auto 10.
Qed.
End Transaction.
