(* ===== verification/ExecTheorems.v ===== *)
(** The properties of the block executor, on any state that satisfies the
    laws and, for the witnesses, on the state of [MemState]. *)
From Stdlib Require Import ZArith Lia List Bool.
From S2P Require Import Prelude Uint256 Types Effects Arith Gas StateAccess Frame Evm EvmSafe Execution Endless MemState EvmTheorems.
From S2P Require Import RlpSpec Transaction TxRlp TxSpec Executor ExecutorSafe.
Import ListNotations.
#[local] Open Scope Z_scope.

(** * The state of [MemState] satisfies the executor's laws *)

#[export] Program Instance mem_block_laws : BlockLaws mem_state.
Next Obligation. intros s a H. apply H. Qed.
Next Obligation. intros s [H1 H2 H3]. split; assumption. Qed.
Next Obligation.
  intros s a H. destruct (ms_accounts s H a) as (A1 & A2 & A3 & A4 & A5). apply put_account_ok; cbn; auto. apply w64_range.
Qed.
Next Obligation. intros s a H. apply put_account_ok; [exact H | apply wf_zero | apply Forall_nil | reflexivity | apply wf_hash_zero | split; reflexivity || discriminate]. Qed.
Next Obligation.
  intros s a c H C L. destruct (ms_accounts s H a) as (A1 & A2 & A3 & A4 & A5). apply put_account_ok; cbn; auto. lia.
Qed.
Next Obligation. auto. Qed.
Next Obligation. auto. Qed.
Next Obligation. auto. Qed.
Next Obligation. auto. Qed.

(** * Concrete transactions *)

Definition sender_addr : address_t := address_from_uint256 (uint256_from_u64 7).
Definition miner_addr : address_t := address_from_uint256 (uint256_from_u64 9).

(** A block with a gas limit of 30 million and no base fee. *)
Definition sample_block : block_context_t :=
  BlockContext 1 1 30000000 1 uint256_zero uint256_zero uint256_zero miner_addr None.
Definition sample_exec : block_executor_t := BlockExecutor sample_block 1.

(** A call of [address_zero] without data, at price [p] for [g] gas. *)
Definition plain_call_tx (p g : Z) : transaction_t :=
  TX_LEGACY (LegacyTx 0 (of_Z256 p) g (Some address_zero) uint256_zero [] 27 uint256_zero uint256_zero).
Definition plain_btx (p g : Z) : block_tx_t := BlockTx (plain_call_tx p g) sender_addr true 0.

Lemma miner_wf : wf_address miner_addr.
Proof. apply wf_address_from, wf_from_u64. split; reflexivity || discriminate. Qed.

Lemma sample_block_ok : block_ok sample_block.
Proof. split; [repeat split; reflexivity || discriminate | repeat split; apply u64_0 | exact miner_wf | discriminate]. Qed.

Lemma plain_btx_ok p g : u64 g -> btx_ok (plain_btx p g).
Proof.
  intros G. split; [split | apply wf_address_from, wf_from_u64; split; reflexivity || discriminate | reflexivity].
  - apply u64_0.
  - apply wf_of_Z256.
  - exact G.
  - exact wf_address_zero.
  - apply wf_zero.
  - apply Forall_nil.
  - split; reflexivity || discriminate.
  - apply wf_zero.
  - apply wf_zero.
Qed.

(** C35: a transaction passes validation exactly when it is for the executor's
    chain, has the sender's next nonce, pays for its intrinsic gas (base cost,
    calldata, creation, access list), fits in what is left of the block's gas,
    offers the base fee, and the sender's balance covers the value and the gas
    cost; the gas cost is taken modulo 2^256. *)
Theorem validation_exact {St} {SA : StateAccess St} {SL : StateLaws St} exec (st : St) btx cumulative :
  state_ok st -> wf_transaction (btx_tx btx) -> block_ok (exec_block exec) -> u64 cumulative -> intrinsic_gas (btx_tx btx) < 2 ^ 64 ->
  Z.of_nat (length (transaction_data (btx_tx btx))) < 2 ^ 63 ->
  (block_executor_validate_tx exec st btx cumulative = TX_VALID <-> valid_tx exec st btx cumulative) /\
  tx_intrinsic_gas (btx_tx btx) = intrinsic_gas (btx_tx btx).
Proof.
  intros S W B C I D. split; [apply validate_spec; assumption|]. rewrite tx_intrinsic_gas_spec by exact D. apply w64_small.
  pose proof (intrinsic_gas_min (btx_tx btx)). unfold u64. lia.
Qed.

Lemma validation_exact_witness : valid_tx sample_exec empty_state (plain_btx 0 21000) 0.
Proof.
  apply (validation_exact (SL := mem_laws) sample_exec empty_state (plain_btx 0 21000) 0).
  - exact empty_state_ok.
  - apply plain_btx_ok. split; reflexivity || discriminate.
  - exact sample_block_ok.
  - split; reflexivity || discriminate.
  - reflexivity.
  - reflexivity.
  - vm_compute. reflexivity.
Defined.

(** C6: a block none of whose messages reaches an endless memory instruction
    runs to its end, in a number of rounds that does not matter once it is large
    enough, and accounts for every transaction. The state and the interpreter
    stay well formed; each transaction has a receipt or a rejection; the
    cumulative gas of the receipts is the running sum of the gas they report,
    never wraps, and ends at the block's gas used, at most its gas limit. The
    run returns false only when the receipts need more than one arena block, and
    it leaves the bounds of an object only for a transaction that has no hash or
    a message that reaches a machine [risky] names. *)
Theorem block_run_accounted {St} {SA : StateAccess St} {SL : StateLaws St} {BL : BlockLaws St} (keccak256 : list Z -> hash_t) exec (e : evm_t St) st txs :
  (forall bs, bytes_ok bs -> wf_hash (keccak256 bs)) -> block_ok (exec_block exec) -> evm_ok e -> state_ok st -> Forall btx_ok txs ->
  (forall e1 env m, sent keccak256 exec (BlockRun e st 0 0 [] []) txs e1 env ->
     reaches keccak256 (call_gas (env_call env)) (start e1 env root_stack) m -> endless (m_frame m) = false) ->
  exists n res, (forall rounds fuel, (n <= rounds)%nat -> (n <= fuel)%nat -> block_executor_run keccak256 rounds fuel exec e st txs = res) /\
    match res with
    | inr f => f = OutOfBounds /\
        ((exists btx, In btx txs /\ transaction_hash keccak256 (btx_tx btx) = None) \/
         exists e1 env m, sent keccak256 exec (BlockRun e st 0 0 [] []) txs e1 env /\
           reaches keccak256 (call_gas (env_call env)) (start e1 env root_stack) m /\ risky (m_frame m) = true)
    | inl (_, _, None) => 65536 < Z.of_nat (length txs) * 96
    | inl (e', st', Some b) =>
        evm_ok e' /\ state_ok st' /\ (length (res_receipts b) + length (res_rejected b) = length txs)%nat /\
        running 0 (res_receipts b) (res_gas_used b) /\ Forall (fun rcp => 0 <= rcp_gas_used rcp) (res_receipts b) /\
        res_gas_used b <= Frame.gas_limit (exec_block exec) /\ u64 (res_blob_gas_used b)
    end.
Proof.
  intros K X He S B Ends. destruct (block_run_spec keccak256 K exec X e st txs He S B) as (n & res & Hn & R). exists n, res. split; [exact Hn|].
  destruct res as [[[e' st'] [b|]]|f]; cbn in R; [tauto | exact R|]. destruct R as [[-> R]|(e1 & env & Sn & m & Rm & R)]; [auto|].
  destruct f; [|rewrite (Ends e1 env m Sn Rm) in R; discriminate | contradiction]. split; [reflexivity|]. right. exists e1, env, m. auto.
Qed.

(** The messages of two transactions, of which the first is rejected: the
    second calls an account without code. *)
Definition two_txs : list block_tx_t := [plain_btx 0 20000; plain_btx 0 21000].

Lemma no_code_ends (e : evm_t mem_state) env m : call_code (env_call env) = [] ->
  reaches zero_keccak (call_gas (env_call env)) (start e env root_stack) m -> endless (m_frame m) = false.
Proof.
  intros C R. inversion R as [|? ? St R1]; subst; [unfold endless, start, code_size; cbn [m_frame pc code]; rewrite C; reflexivity|].
  apply mstep_step in St. unfold machine_step, dispatch, start, code_size in St. cbn [m_evm m_frame fst snd code pc] in St. rewrite C in St. discriminate.
Qed.

Lemma two_txs_end e1 env m : sent zero_keccak sample_exec (BlockRun sample_evm empty_state 0 0 [] []) two_txs e1 env ->
  reaches zero_keccak (call_gas (env_call env)) (start e1 env root_stack) m -> endless (m_frame m) = false.
Proof.
  intros Sn. apply no_code_ends. set (code_of := option_map (fun p : evm_t mem_state * execution_env_t => call_code (env_call (snd p)))).
  inversion Sn as [? ? ? ? ? M|? ? ? r' rounds fuel ? ? E S2]; subst; [lazymatch type of M with ?x = _ => assert (G : code_of x = None) by (vm_compute; reflexivity) end; rewrite M in G; discriminate|].
  assert (V : block_executor_validate_tx sample_exec (begin_transaction empty_state) (plain_btx 0 20000) 0 = TX_ERR_INTRINSIC_GAS) by (vm_compute; reflexivity).
  unfold block_step in E. cbv zeta in E. cbn [run_state run_cumulative] in E. rewrite V in E. injection E as <-.
  inversion S2 as [? ? ? ? ? M|? ? ? ? ? ? ? ? X3 S3]; subst; [|inversion S3].
  lazymatch type of M with ?x = _ => assert (G : code_of x = Some []) by (vm_compute; reflexivity) end. rewrite M in G. injection G as G. exact G.
Qed.

Lemma block_run_accounted_witness : exists n res, (forall rounds fuel, (n <= rounds)%nat -> (n <= fuel)%nat ->
  block_executor_run zero_keccak rounds fuel sample_exec sample_evm empty_state two_txs = res) /\ res <> inr Diverges.
Proof.
  destruct (block_run_accounted (SL := mem_laws) zero_keccak sample_exec sample_evm empty_state two_txs
    zero_keccak_wf sample_block_ok sample_evm_ok empty_state_ok) as (n & res & H & R).
  - apply Forall_cons; [|apply Forall_cons; [|apply Forall_nil]]; apply plain_btx_ok; split; reflexivity || discriminate.
  - exact two_txs_end.
  - exists n, res. split; [exact H|]. intros ->. destruct R as [R _]. discriminate.
Defined.

(** The address of a contract that a transaction creates is the last
    twenty bytes of the hash of the RLP list of the sender and its nonce. *)
Theorem create_address_exact (keccak256 : list Z -> hash_t) sender nonce : wf_address sender -> u64 nonce ->
  compute_create_address keccak256 sender nonce = Some (firstn 20 (skipn 12 (keccak256 (enc_list (enc_str sender ++ enc_int nonce))))).
Proof. apply create_address_spec. Qed.

Lemma create_address_exact_witness : compute_create_address zero_keccak sender_addr 3 = Some (firstn 20 (skipn 12 hash_zero)).
Proof.
  rewrite (create_address_exact zero_keccak sender_addr 3); [reflexivity | | split; reflexivity || discriminate].
  apply wf_address_from, wf_from_u64. split; reflexivity || discriminate.
Defined.

(** The product of gas limit and gas price is not checked for overflow. A
    sender without any balance offers 2^240 wei per unit of gas for 65536
    units: the cost wraps to zero, the transaction is executed, and the refund
    of the unused gas and the fee leave balances that did not exist before. *)
Example overflow_mints : exists e st b,
  block_executor_run zero_keccak 4 4 sample_exec sample_evm empty_state [plain_btx (2 ^ 240) 65536] = inl (e, st, Some b) /\
  map (fun r => (rcp_success r, rcp_gas_used r)) (res_receipts b) = [(true, 21000)] /\
  val (get_balance empty_state sender_addr) = 0 /\ val (get_balance empty_state miner_addr) = 0 /\
  val (get_balance st sender_addr) = 44536 * 2 ^ 240 /\ val (get_balance st miner_addr) = 21000 * 2 ^ 240.
Proof.
  assert (G : match block_executor_run zero_keccak 4 4 sample_exec sample_evm empty_state [plain_btx (2 ^ 240) 65536] with
    | inl (e, st, Some b) => Some (map (fun r => (rcp_success r, rcp_gas_used r)) (res_receipts b), val (get_balance st sender_addr), val (get_balance st miner_addr))
    | _ => None end = Some ([(true, 21000)], 44536 * 2 ^ 240, 21000 * 2 ^ 240)) by (vm_compute; reflexivity).
  destruct (block_executor_run _ _ _ _ _ _ _) as [[[e st] [b|]]|f]; try discriminate. exists e, st, b. split; [reflexivity|].
  assert (map (fun r => (rcp_success r, rcp_gas_used r)) (res_receipts b) = [(true, 21000)] /\ val (get_balance st sender_addr) = 44536 * 2 ^ 240 /\
    val (get_balance st miner_addr) = 21000 * 2 ^ 240) as (? & ? & ?) by (repeat split; congruence). repeat split; assumption || reflexivity.
Qed.
