(* ===== verification/HashTable.v ===== *)
(** The hash tables of the STC library ([stc/hmap.h], [stc/hset.h]), which the
    world state keeps its indexes in. The library is not part of the
    repository: its tables are a parameter, the class [HashTables], and what
    its documentation promises of them is the class [HashTableLaws]. A table of
    pairs shows that the laws can hold, and the examples run on it. *)
From Stdlib Require Import ZArith Lia List Bool.
From S2P Require Import Prelude.
Import ListNotations.

(** [i_hash] and [i_eq] of a table. *)
Class HashKey (K : Type) := { key_hash : K -> Z; key_eq : K -> K -> bool; key_eq_spec : forall x y, key_eq x y = true <-> x = y }.

(** [hmap] with its keys; a set is a map to [unit]. *)
Class HashTables (M : Type -> Type -> Type) := {
  hm_init {K V} : M K V;
  hm_get {K V} `{HashKey K} : M K V -> K -> option V;
  hm_insert {K V} `{HashKey K} : M K V -> K -> V -> M K V;
  hm_erase {K V} `{HashKey K} : M K V -> K -> M K V;
  hm_clear {K V} : M K V -> M K V;
  hm_items {K V} : M K V -> list (K * V) }.

Definition hm_contains {M} `{HashTables M} {K V} `{HashKey K} (m : M K V) (k : K) : bool := match hm_get m k with Some _ => true | None => false end.
Definition hs_insert {M} `{HashTables M} {K} `{HashKey K} (m : M K unit) (k : K) : M K unit := hm_insert m k tt.

(** Insertion leaves a key that is present as it is; iteration meets every
    entry once. *)
Class HashTableLaws (M : Type -> Type -> Type) `{HashTables M} := {
  get_init {K V} `{HashKey K} : forall k : K, hm_get (hm_init : M K V) k = None;
  get_clear {K V} `{HashKey K} : forall (m : M K V) k, hm_get (hm_clear m) k = None;
  get_insert {K V} `{HashKey K} : forall (m : M K V) k v k', hm_get (hm_insert m k v) k' =
    if key_eq k k' then (match hm_get m k with Some v0 => Some v0 | None => Some v end) else hm_get m k';
  get_erase {K V} `{HashKey K} : forall (m : M K V) k k', hm_get (hm_erase m k) k' = if key_eq k k' then None else hm_get m k';
  items_spec {K V} `{HashKey K} : forall (m : M K V) k v, In (k, v) (hm_items m) <-> hm_get m k = Some v;
  items_nodup {K V} : forall m : M K V, NoDup (map fst (hm_items m)) }.

Lemma key_eq_refl {K} `{HashKey K} (k : K) : key_eq k k = true.
Proof. apply key_eq_spec. reflexivity. Qed.

Lemma key_eq_case {K} `{HashKey K} (x y : K) : (key_eq x y = true /\ x = y) \/ (key_eq x y = false /\ x <> y).
Proof.
  destruct (key_eq x y) eqn:E; [left; split; [reflexivity | apply key_eq_spec, E]|]. right. split; [reflexivity|]. intros ->. rewrite key_eq_refl in E. discriminate.
Qed.

Section Laws.
Context {M : Type -> Type -> Type} {HT : HashTables M} {HL : HashTableLaws M} {K : Type} {HK : HashKey K}.

Lemma in_keys {V} (m : M K V) k : In k (map fst (hm_items m)) <-> hm_contains m k = true.
Proof.
  unfold hm_contains. rewrite in_map_iff. split.
  - intros ([k' v] & <- & I). apply items_spec in I. cbn [fst]. rewrite I. reflexivity.
  - destruct (hm_get m k) as [v|] eqn:E; [intros _ | discriminate]. exists (k, v). split; [reflexivity | apply items_spec, E].
Qed.

Lemma contains_insert (m : M K unit) k k' : hm_contains (hs_insert m k) k' = key_eq k k' || hm_contains m k'.
Proof.
  unfold hm_contains, hs_insert. rewrite get_insert. destruct (key_eq_case k k') as [[-> ->]|[-> _]]; [|reflexivity]. destruct (hm_get m k'); reflexivity.
Qed.

Lemma contains_erase {V} (m : M K V) k k' : hm_contains (hm_erase m k) k' = negb (key_eq k k') && hm_contains m k'.
Proof. unfold hm_contains. rewrite get_erase. destruct (key_eq k k'); reflexivity. Qed.

Lemma get_erase_all {V} (ks : list K) : forall (m : M K V) k,
  hm_get (fold_left (fun m k => hm_erase m k) ks m) k = if existsb (fun x => key_eq x k) ks then None else hm_get m k.
Proof.
  induction ks as [|x ks IH]; intros m k; cbn [fold_left existsb]; [reflexivity|]. rewrite IH, get_erase. destruct (key_eq x k), (existsb _ ks); reflexivity.
Qed.

(** A table all of whose keys are keys of [m], but not [k], is smaller. *)
Lemma items_smaller {V} (m m' : M K V) k : hm_contains m k = true -> hm_contains m' k = false ->
  (forall x, hm_contains m' x = true -> hm_contains m x = true) -> (length (hm_items m') < length (hm_items m))%nat.
Proof.
  intros P N I. rewrite <- (length_map fst (hm_items m')), <- (length_map fst (hm_items m)).
  assert (L : (length (k :: map fst (hm_items m')) <= length (map fst (hm_items m)))%nat); [|exact L].
  apply NoDup_incl_length.
  - constructor; [rewrite in_keys, N; discriminate | apply items_nodup].
  - intros x [<-|Hx]; apply in_keys; [exact P | apply I, in_keys, Hx].
Qed.
End Laws.

(** * Tables of pairs *)

Definition pairs (K V : Type) : Type := { l : list (K * V) | NoDup (map fst l) }.

Section Pairs.
Context {K V : Type} {HK : HashKey K}.

Fixpoint pairs_find (l : list (K * V)) (k : K) : option V :=
  match l with [] => None | (x, v) :: l' => if key_eq x k then Some v else pairs_find l' k end.
Definition pairs_without (l : list (K * V)) (k : K) : list (K * V) := filter (fun p => negb (key_eq (fst p) k)) l.
Definition pairs_add (l : list (K * V)) (k : K) (v : V) : list (K * V) := match pairs_find l k with Some _ => l | None => (k, v) :: l end.

Lemma pairs_in l k : In k (map fst l) <-> pairs_find l k <> None.
Proof.
  induction l as [|[x v] l IH]; cbn [map In pairs_find fst]; [tauto|]. destruct (key_eq_case x k) as [[-> ->]|[-> N]].
  - split; [discriminate | auto].
  - rewrite <- IH. tauto.
Qed.

Lemma pairs_add_nodup l k v : NoDup (map fst l) -> NoDup (map fst (pairs_add l k v)).
Proof.
  intros D. unfold pairs_add. destruct (pairs_find l k) eqn:E; [exact D|]. constructor; [|exact D]. cbn [fst]. rewrite (pairs_in l k), E. tauto.
Qed.

Lemma pairs_without_nodup l k : NoDup (map fst l) -> NoDup (map fst (pairs_without l k)).
Proof.
  unfold pairs_without. induction l as [|[x v] l IH]; [auto|]. cbn [map filter fst]. intros D. inversion D as [|? ? N D' E]; subst. destruct (key_eq x k); cbn [negb]; [auto|].
  cbn [map fst]. constructor; [|auto]. intros Hx. apply N. apply in_map_iff in Hx as (p & <- & F). apply filter_In in F as [F _]. apply in_map, F.
Qed.

Lemma pairs_find_without l k k' : pairs_find (pairs_without l k) k' = if key_eq k k' then None else pairs_find l k'.
Proof.
  unfold pairs_without. induction l as [|[x v] l IH]; cbn [filter pairs_find fst]; [destruct (key_eq k k'); reflexivity|].
  destruct (key_eq_case x k) as [[-> ->]|[-> N]]; cbn [negb]; [rewrite IH; destruct (key_eq k k'); reflexivity|]. cbn [pairs_find]. rewrite IH.
  destruct (key_eq_case x k') as [[-> ->]|[-> N']]; [|reflexivity]. destruct (key_eq_case k k') as [[-> E]|[-> _]]; [congruence | reflexivity].
Qed.

Lemma pairs_find_in l k v : NoDup (map fst l) -> In (k, v) l <-> pairs_find l k = Some v.
Proof.
  induction l as [|[x w] l IH]; cbn [map fst pairs_find In]; intros D; [split; [tauto | discriminate]|]. inversion D as [|? ? N D' E]; subst. rewrite (IH D').
  destruct (key_eq_case x k) as [[-> ->]|[-> Nk]]; [|split; [intros [[= -> _]|H]; [congruence | exact H] | auto]].
  split; [intros [[= ->]|H]; [reflexivity|] | intros [= ->]; auto]. exfalso. apply N. rewrite (pairs_in l k), H. discriminate.
Qed.
End Pairs.

#[export] Program Instance pairs_tables : HashTables pairs := {|
  hm_init K V := exist _ [] (NoDup_nil _);
  hm_get K V _ m k := pairs_find (proj1_sig m) k;
  hm_insert K V _ m k v := exist _ (pairs_add (proj1_sig m) k v) (pairs_add_nodup _ k v (proj2_sig m));
  hm_erase K V _ m k := exist _ (pairs_without (proj1_sig m) k) (pairs_without_nodup _ k (proj2_sig m));
  hm_clear K V _ := exist _ [] (NoDup_nil _);
  hm_items K V m := proj1_sig m |}.

#[export] Program Instance pairs_laws : HashTableLaws pairs.
Next Obligation.
  intros. cbn. unfold pairs_add. destruct (pairs_find (proj1_sig m) k) as [w|] eqn:E; cbn [pairs_find].
  - destruct (key_eq_case k k') as [[-> <-]|[-> _]]; [exact E | reflexivity].
  - destruct (key_eq k k'); reflexivity.
Qed.
Next Obligation. intros. apply pairs_find_without. Qed.
Next Obligation. intros. apply pairs_find_in. exact (proj2_sig m). Qed.
Next Obligation. intros. exact (proj2_sig m). Qed.
