(* ===== verification/Nibbles.v ===== *)
(** Nibble sequences and their hex-prefix form: include/div0/trie/nibbles.h,
    hex_prefix.h, src/trie/nibbles.c and hex_prefix.c.

    A [nibbles_t] is the list of its [len] entries; [data] is null exactly when
    the list is empty. Copies live in the arena, so one that needs more than a
    block is the empty sequence. *)
From Stdlib Require Import ZArith Lia List Bool.
From S2P Require Import Prelude Arena Bytes.
Import ListNotations.
#[local] Open Scope Z_scope.
#[local] Open Scope word_scope.

(** * nibbles.c *)

Definition nibbles_t := list Z.
Definition nlen (n : nibbles_t) : Z := Z.of_nat (length n).
Definition NIBBLES_EMPTY : nibbles_t := [].

(** The contents of a fresh allocation, or the empty sequence. *)
Definition in_arena (n : nibbles_t) : nibbles_t := if alloc_succeeds (nlen n) then n else NIBBLES_EMPTY.

Definition nibbles_from_bytes (bytes : list Z) : nibbles_t :=
  if Z.of_nat (length bytes) =? 0 then NIBBLES_EMPTY
  else
    let nibble_len := Z.of_nat (length bytes) *64 2 in
    if alloc_succeeds nibble_len then flat_map (fun b => [Z.land (Z.shiftr b 4) 15; Z.land b 15]) bytes
    else NIBBLES_EMPTY.

(** The bytes written to [out]. *)
Definition nibbles_to_bytes (n : nibbles_t) : list Z :=
  map (fun i => w8 (Z.lor (Z.shiftl (aget n (i * 2)) 4) (aget n (i * 2 + 1)))) (seq 0 (length n / 2)).

Definition nibbles_to_bytes_alloc (n : nibbles_t) : option (list Z) :=
  if nlen n =? 0 then None
  else if alloc_succeeds (nlen n / 2) then Some (nibbles_to_bytes n) else None.

Fixpoint nibbles_common_prefix (a b : nibbles_t) : nat :=
  match a, b with
  | x :: a', y :: b' => if x =? y then S (nibbles_common_prefix a' b') else O
  | _, _ => O
  end.

(** With an arena; [len = SIZE_MAX] means to the end. *)
Definition nibbles_slice (src : nibbles_t) (start : nat) (len : Z) : nibbles_t :=
  if (nlen src =? 0) || (nlen src <=? Z.of_nat start) then NIBBLES_EMPTY
  else
    let remaining := nlen src - Z.of_nat start in
    let len := if (len =? SIZE_MAX) || (len >? remaining) then remaining else len in
    if len =? 0 then NIBBLES_EMPTY else in_arena (firstn (Z.to_nat len) (skipn start src)).

Definition nibbles_copy (src : nibbles_t) : nibbles_t := if nlen src =? 0 then NIBBLES_EMPTY else in_arena src.

Fixpoint nibbles_cmp (a b : nibbles_t) : Z :=
  match a, b with
  | x :: a', y :: b' => if x <? y then -1 else if x >? y then 1 else nibbles_cmp a' b'
  | [], _ :: _ => -1
  | _ :: _, [] => 1
  | [], [] => 0
  end.

Definition nibbles_equal (a b : nibbles_t) : bool := nibbles_cmp a b =? 0.
Definition nibbles_is_empty (n : nibbles_t) : bool := nlen n =? 0.
Definition nibbles_get (n : nibbles_t) (index : nat) : Z := aget n index.

Definition nibbles_concat (a b : nibbles_t) : nibbles_t :=
  if nlen a =? 0 then nibbles_copy b
  else if nlen b =? 0 then nibbles_copy a
  else in_arena (a ++ b).

Definition nibbles_concat3 (prefix : nibbles_t) (middle : Z) (suffix : nibbles_t) : nibbles_t :=
  in_arena (prefix ++ [middle] ++ suffix).

(** * hex_prefix.c *)

Definition HP_FLAG_ODD : Z := 1.
Definition HP_FLAG_LEAF : Z := 2.

(** The loops that append one byte per pair. *)
Fixpoint append_pairs (n : nibbles_t) (result : bytes_t) : bytes_t :=
  match n with
  | hi :: lo :: n' => append_pairs n' (append_byte result (w8 (Z.lor (Z.shiftl hi 4) lo)))
  | _ => result
  end.

Definition hex_prefix_encode (n : nibbles_t) (is_leaf : bool) : bytes_t :=
  let result := bytes_init_arena in
  let is_odd := nlen n mod 2 =? 1 in
  let encoded_len := 1 + (nlen n + 1) / 2 in
  match bytes_reserve result encoded_len with
  | (false, result) => result
  | (true, result) =>
      let flags := Z.lor (if is_leaf then HP_FLAG_LEAF else 0) (if is_odd then HP_FLAG_ODD else 0) in
      if is_odd then append_pairs (skipn 1 n) (append_byte result (w8 (Z.lor (Z.shiftl flags 4) (aget n 0))))
      else append_pairs n (append_byte result (w8 (Z.shiftl flags 4)))
  end.

Record hex_prefix_result_t := HexPrefixResult { hp_nibbles : nibbles_t; hp_is_leaf : bool; hp_success : bool }.

Definition hex_prefix_decode (data : list Z) : hex_prefix_result_t :=
  match data with
  | [] => HexPrefixResult NIBBLES_EMPTY false false
  | first_byte :: rest =>
      let flags := Z.land (Z.shiftr first_byte 4) 3 in
      let is_leaf := negb (Z.land flags HP_FLAG_LEAF =? 0) in
      let is_odd := negb (Z.land flags HP_FLAG_ODD =? 0) in
      let nibble_count := if is_odd then 1 +64 (Z.of_nat (length rest) *64 2) else Z.of_nat (length rest) *64 2 in
      if nibble_count =? 0 then HexPrefixResult NIBBLES_EMPTY is_leaf true
      else if negb (alloc_succeeds nibble_count) then HexPrefixResult NIBBLES_EMPTY is_leaf false
      else
        let nibble_data :=
          (if is_odd then [Z.land first_byte 15] else []) ++ flat_map (fun b => [Z.land (Z.shiftr b 4) 15; Z.land b 15]) rest in
        HexPrefixResult nibble_data is_leaf true
  end.

(** * Behaviour *)

Definition nibble (x : Z) : Prop := 0 <= x < 16.
Definition nibbles_ok (n : nibbles_t) : Prop := Forall nibble n.

(** Sequences that fit an allocation are copied as they are. *)
Definition ARENA_MAX : nat := Z.to_nat DIV0_ARENA_BLOCK_SIZE.

Lemma alloc_small z : 0 < z <= DIV0_ARENA_BLOCK_SIZE -> alloc_succeeds z = true.
Proof. intros H. unfold alloc_succeeds. rewrite (proj2 (Z.ltb_lt _ _)), (proj2 (Z.leb_le _ _)) by lia. reflexivity. Qed.

Lemma in_arena_small n : nlen n <= DIV0_ARENA_BLOCK_SIZE -> in_arena n = n.
Proof.
  intros H. unfold in_arena. destruct n as [|x n]; [reflexivity|]. rewrite alloc_small; [reflexivity|]. unfold nlen in *. cbn [length] in *. lia.
Qed.

Lemma slice_end src start : nlen src <= DIV0_ARENA_BLOCK_SIZE -> nibbles_slice src start SIZE_MAX = skipn start src.
Proof.
  intros H. unfold nibbles_slice, nlen in *. destruct (Z.eqb_spec (Z.of_nat (length src)) 0) as [E|E].
  { destruct src; [|cbn in E; lia]. destruct start; reflexivity. }
  cbn [orb]. destruct (Z.leb_spec (Z.of_nat (length src)) (Z.of_nat start)) as [L|L]; [rewrite skipn_all2 by lia; reflexivity|].
  rewrite Z.eqb_refl. cbn [orb]. destruct (Z.eqb_spec (Z.of_nat (length src) - Z.of_nat start) 0); [lia|].
  rewrite firstn_all2 by (rewrite length_skipn; lia). apply in_arena_small. unfold nlen. rewrite length_skipn. lia.
Qed.

Lemma slice_prefix src len : nlen src <= DIV0_ARENA_BLOCK_SIZE -> (len <= length src)%nat -> nibbles_slice src 0 (Z.of_nat len) = firstn len src.
Proof.
  intros H L. unfold nibbles_slice, nlen, DIV0_ARENA_BLOCK_SIZE in *. destruct (Z.eqb_spec (Z.of_nat (length src)) 0) as [E|E].
  { destruct src; [|cbn in E; lia]. destruct len; [reflexivity|cbn in L; lia]. }
  cbn [orb skipn Z.of_nat]. destruct (Z.leb_spec (Z.of_nat (length src)) 0); [lia|]. rewrite Z.sub_0_r.
  destruct (Z.eqb_spec (Z.of_nat len) SIZE_MAX) as [E'|_]; [unfold SIZE_MAX in E'; lia|]. cbn [orb].
  destruct (Z.gtb_spec (Z.of_nat len) (Z.of_nat (length src))); [lia|]. destruct (Z.eqb_spec (Z.of_nat len) 0) as [E'|E'].
  { replace len with O by lia. reflexivity. }
  rewrite Nat2Z.id. apply in_arena_small. unfold nlen, DIV0_ARENA_BLOCK_SIZE. rewrite length_firstn. lia.
Qed.

Lemma copy_small src : nlen src <= DIV0_ARENA_BLOCK_SIZE -> nibbles_copy src = src.
Proof. intros H. unfold nibbles_copy. destruct (Z.eqb_spec (nlen src) 0) as [E|E]; [destruct src; [reflexivity | unfold nlen in E; cbn [length] in E; lia] | apply in_arena_small, H]. Qed.

Lemma concat_small a b : nlen a + nlen b <= DIV0_ARENA_BLOCK_SIZE -> nibbles_concat a b = a ++ b.
Proof.
  intros H. unfold nibbles_concat. unfold nlen in *. destruct (Z.eqb_spec (Z.of_nat (length a)) 0) as [E|E].
  { destruct a; [|cbn in E; lia]. cbn [app]. apply copy_small. unfold nlen. lia. }
  destruct (Z.eqb_spec (Z.of_nat (length b)) 0) as [E'|E'].
  { destruct b; [|cbn in E'; lia]. rewrite app_nil_r. apply copy_small. unfold nlen. lia. }
  apply in_arena_small. unfold nlen. rewrite length_app. lia.
Qed.

Lemma concat3_small x b : nlen b < DIV0_ARENA_BLOCK_SIZE -> nibbles_concat3 NIBBLES_EMPTY x b = x :: b.
Proof. intros H. apply in_arena_small. unfold nlen in *. cbn [app length]. lia. Qed.

(** ** Bytes and nibbles *)

Lemma nibble_pair hi lo : nibble hi -> nibble lo -> w8 (Z.lor (Z.shiftl hi 4) lo) = hi * 16 + lo.
Proof.
  unfold nibble. intros H L. rewrite Z.shiftl_mul_pow2 by lia. rewrite lor_add by lia. change (2 ^ 4) with 16.
  apply w8_small. unfold u8. lia.
Qed.

Lemma high_nibble hi lo : nibble hi -> nibble lo -> Z.land (Z.shiftr (hi * 16 + lo) 4) 15 = hi.
Proof.
  unfold nibble. intros H L. rewrite Z.shiftr_div_pow2 by lia. change (2 ^ 4) with 16. rewrite Z.div_add_l, (Z.div_small lo), Z.add_0_r by lia.
  change 15 with (Z.ones 4). rewrite Z.land_ones by lia. apply Z.mod_small. lia.
Qed.

Lemma low_nibble hi lo : nibble lo -> Z.land (hi * 16 + lo) 15 = lo.
Proof.
  unfold nibble. intros L. change 15 with (Z.ones 4). rewrite Z.land_ones by lia. change (2 ^ 4) with 16.
  rewrite Z.add_comm, Z_mod_plus_full. apply Z.mod_small. lia.
Qed.

Lemma byte_nibbles b : u8 b -> nibble (Z.land (Z.shiftr b 4) 15) /\ nibble (Z.land b 15) /\ b = Z.land (Z.shiftr b 4) 15 * 16 + Z.land b 15.
Proof.
  unfold u8, nibble. intros H. change 15 with (Z.ones 4). rewrite !Z.land_ones by lia. rewrite Z.shiftr_div_pow2 by lia. change (2 ^ 4) with 16.
  pose proof (Z.mod_pos_bound b 16). pose proof (Z.div_mod b 16). rewrite (Z.mod_small (b / 16) 16); [split; [|split]; try lia|].
  split; [apply Z.div_pos; lia | apply Z.div_lt_upper_bound; lia].
Qed.

(** The pairs of an even sequence. *)
Fixpoint pack (n : nibbles_t) : list Z :=
  match n with hi :: lo :: n' => hi * 16 + lo :: pack n' | _ => [] end.

Definition unpack (bs : list Z) : nibbles_t := flat_map (fun b => [Z.land (Z.shiftr b 4) 15; Z.land b 15]) bs.

(** Induction in steps of two. *)
Lemma pairs_ind {A} (P : list A -> Prop) : P [] -> (forall x, P [x]) -> (forall x y l, P l -> P (x :: y :: l)) -> forall l, P l.
Proof.
  intros H0 H1 H2 l. enough (P l /\ forall x, P (x :: l)) by tauto.
  induction l as [|y l [IH1 IH2]]; [split; [exact H0 | exact H1]|]. split; [apply IH2|]. intros x. apply H2, IH1.
Qed.

Lemma unpack_pack n : nibbles_ok n -> Nat.even (length n) = true -> unpack (pack n) = n.
Proof.
  intros H. induction n as [|x|x y l IH] using pairs_ind; intros E; [reflexivity|discriminate|]. inversion H as [|? ? X H']; subst. inversion H' as [|? ? Y H'']; subst.
  cbn [pack unpack flat_map app]. rewrite high_nibble, low_nibble by assumption. do 2 f_equal. apply IH; assumption.
Qed.

Lemma pack_unpack bs : bytes_ok bs -> pack (unpack bs) = bs.
Proof.
  intros H. induction H as [|b bs B _ IH]; [reflexivity|]. cbn [unpack flat_map app pack]. destruct (byte_nibbles b B) as (_ & _ & E). rewrite <- E.
  f_equal. exact IH.
Qed.

Lemma length_pack n : length (pack n) = (length n / 2)%nat.
Proof.
  induction n as [|x|x y l IH] using pairs_ind; [reflexivity|reflexivity|]. cbn [pack length]. rewrite IH.
  replace (S (S (length l))) with (length l + 1 * 2)%nat by lia. rewrite Nat.div_add by lia. lia.
Qed.

Lemma length_unpack bs : length (unpack bs) = (2 * length bs)%nat.
Proof. unfold unpack. induction bs as [|b bs IH]; [reflexivity|]. cbn [flat_map app length]. rewrite IH. lia. Qed.

Lemma unpack_ok bs : bytes_ok bs -> nibbles_ok (unpack bs).
Proof.
  intros H. induction H as [|b bs B _ IH]; [constructor|]. destruct (byte_nibbles b B) as (X & Y & _).
  constructor; [exact X|]. constructor; [exact Y | exact IH].
Qed.

Lemma pack_ok n : nibbles_ok n -> bytes_ok (pack n).
Proof.
  intros H. induction n as [|x|x y l IH] using pairs_ind; [constructor|constructor|]. inversion H as [|? ? X H']; subst. inversion H' as [|? ? Y H'']; subst.
  cbn [pack]. constructor; [unfold nibble, u8 in *; lia | apply IH; assumption].
Qed.

Lemma from_bytes_small bs : Z.of_nat (length bs) * 2 <= DIV0_ARENA_BLOCK_SIZE -> nibbles_from_bytes bs = unpack bs.
Proof.
  intros H. unfold nibbles_from_bytes, DIV0_ARENA_BLOCK_SIZE in *. destruct (Z.eqb_spec (Z.of_nat (length bs)) 0) as [E|E]; [destruct bs; [reflexivity|cbn in E; lia]|].
  unfold mul64. rewrite w64_small by (unfold u64; lia). rewrite alloc_small by (unfold DIV0_ARENA_BLOCK_SIZE; lia). reflexivity.
Qed.

Lemma unpack_inj a b : bytes_ok a -> bytes_ok b -> unpack a = unpack b -> a = b.
Proof. intros A B E. rewrite <- (pack_unpack a A), <- (pack_unpack b B), E. reflexivity. Qed.

(** ** Hex prefix *)

(** The encoding on lists, of the Yellow Paper's appendix C. *)
Definition hp (n : nibbles_t) (is_leaf : bool) : list Z :=
  let leaf := if is_leaf then 32 else 0 in
  if Nat.odd (length n) then leaf + 16 + aget n 0 :: pack (skipn 1 n) else leaf :: pack n.

Lemma length_hp n is_leaf : Z.of_nat (length (hp n is_leaf)) <= 1 + (nlen n + 1) / 2.
Proof.
  unfold hp, nlen. cbv zeta. destruct (Nat.odd (length n)); cbn [length]; rewrite length_pack, ?length_skipn, Nat2Z.inj_succ, Nat2Z.inj_div; change (Z.of_nat 2) with 2.
  - assert (Z.of_nat (length n - 1) / 2 <= (Z.of_nat (length n) + 1) / 2) by (apply Z.div_le_mono; lia). lia.
  - assert (Z.of_nat (length n) / 2 <= (Z.of_nat (length n) + 1) / 2) by (apply Z.div_le_mono; lia). lia.
Qed.

Lemma hp_ok n is_leaf : nibbles_ok n -> bytes_ok (hp n is_leaf).
Proof.
  intros H. unfold hp. cbv zeta. destruct (Nat.odd (length n)) eqn:O; (constructor; [|apply pack_ok; try apply Forall_skipn; exact H]).
  - destruct n as [|x n]; [discriminate|]. inversion H as [|? ? X _]; subst. change (aget (x :: n) 0) with x. unfold nibble, u8 in *. destruct is_leaf; lia.
  - unfold u8. destruct is_leaf; lia.
Qed.

Lemma append_pairs_spec n d c : nibbles_ok n -> Z.of_nat (length d) + Z.of_nat (length n / 2) <= c <= DIV0_ARENA_BLOCK_SIZE ->
  append_pairs n (filled d c) = filled (d ++ pack n) c.
Proof.
  intros H. revert d. induction n as [|x|x y l IH] using pairs_ind; intros d L; try (cbn; rewrite app_nil_r; reflexivity).
  inversion H as [|? ? X H']; subst. inversion H' as [|? ? Y H'']; subst. cbn [append_pairs pack]. rewrite nibble_pair by assumption.
  assert (E : (length (x :: y :: l) / 2 = S (length l / 2))%nat) by (cbn [length]; replace (S (S (length l))) with (length l + 1 * 2)%nat by lia; rewrite Nat.div_add by lia; lia).
  rewrite E in L. unfold append_byte, bytes_append_byte. change (snd (bytes_append (filled d c) [x * 16 + y])) with (append (filled d c) [x * 16 + y]).
  rewrite append_filled by (cbn [length]; lia). rewrite IH; [rewrite <- app_assoc; reflexivity | exact H'' | rewrite length_app; cbn [length]; lia].
Qed.

Lemma odd_mod n : (nlen n mod 2 =? 1) = Nat.odd (length n).
Proof.
  unfold nlen. rewrite Zmod_odd. replace (Z.odd (Z.of_nat (length n))) with (Nat.odd (length n)); [destruct (Nat.odd _); reflexivity|].
  induction (length n) as [|k IH]; [reflexivity|]. rewrite Nat2Z.inj_succ, Z.odd_succ, Nat.odd_succ, <- Nat.negb_odd, <- Z.negb_odd, IH. reflexivity.
Qed.

Lemma hex_prefix_encode_spec n is_leaf : nibbles_ok n -> nlen n <= DIV0_ARENA_BLOCK_SIZE ->
  hex_prefix_encode n is_leaf = filled (hp n is_leaf) (1 + (nlen n + 1) / 2).
Proof.
  intros H L. unfold hex_prefix_encode. rewrite odd_mod. assert (B : 0 < 1 + (nlen n + 1) / 2 <= DIV0_ARENA_BLOCK_SIZE).
  { unfold DIV0_ARENA_BLOCK_SIZE, nlen in *. assert (0 <= (Z.of_nat (length n) + 1) / 2) by (apply Z.div_pos; lia).
    assert ((Z.of_nat (length n) + 1) / 2 < 65536) by (apply Z.div_lt_upper_bound; lia). lia. }
  unfold bytes_reserve, bytes_init_arena. cbn [b_capacity b_alloc b_data]. destruct (Z.leb_spec (1 + (nlen n + 1) / 2) 0); [lia|]. rewrite alloc_small by exact B.
  change (Bytes [] (1 + (nlen n + 1) / 2) true) with (filled [] (1 + (nlen n + 1) / 2)). set (c := 1 + (nlen n + 1) / 2) in *.
  assert (A : forall x, append_byte (filled [] c) x = filled [x] c) by (intros x; apply append_filled; cbn [length]; lia).
  pose proof (length_hp n is_leaf) as LH. fold c in LH. unfold hp in *. cbv zeta in *. destruct (Nat.odd (length n)) eqn:O; cbn [length] in LH; rewrite length_pack in LH; rewrite A.
  - destruct n as [|x n]; [discriminate|]. inversion H as [|? ? X H']; subst. change (aget (x :: n) 0) with x in *. cbn [skipn] in *.
    replace (w8 (Z.lor (Z.shiftl (Z.lor (if is_leaf then HP_FLAG_LEAF else 0) HP_FLAG_ODD) 4) x)) with ((if is_leaf then 32 else 0) + 16 + x).
    + rewrite append_pairs_spec; [reflexivity | exact H' | cbn [length]; lia].
    + destruct is_leaf; [change (Z.lor HP_FLAG_LEAF HP_FLAG_ODD) with 3 | change (Z.lor 0 HP_FLAG_ODD) with 1]; rewrite nibble_pair by (exact X || (unfold nibble; lia)); lia.
  - replace (w8 (Z.shiftl (Z.lor (if is_leaf then HP_FLAG_LEAF else 0) 0) 4)) with (if is_leaf then 32 else 0) by (destruct is_leaf; reflexivity).
    rewrite append_pairs_spec; [reflexivity | exact H | cbn [length]; lia].
Qed.

(** The flags of the first byte. *)
Lemma first_flags f x : 0 <= f < 4 -> nibble x -> Z.land (Z.shiftr (f * 16 + x) 4) 3 = f /\ Z.land (f * 16 + x) 15 = x.
Proof.
  intros F X. split; [|apply low_nibble, X]. unfold nibble in X. rewrite Z.shiftr_div_pow2 by lia. change (2 ^ 4) with 16.
  rewrite Z.div_add_l, (Z.div_small x), Z.add_0_r by lia. change 3 with (Z.ones 2). rewrite Z.land_ones by lia. apply Z.mod_small. lia.
Qed.

Lemma unpack_pack_flat n : nibbles_ok n -> Nat.even (length n) = true ->
  flat_map (fun b => [Z.land (Z.shiftr b 4) 15; Z.land b 15]) (pack n) = n.
Proof. apply unpack_pack. Qed.

Lemma hex_prefix_decode_spec n is_leaf : nibbles_ok n -> nlen n <= DIV0_ARENA_BLOCK_SIZE ->
  hex_prefix_decode (hp n is_leaf) = HexPrefixResult n is_leaf true.
Proof.
  intros H L. unfold hp, nlen, DIV0_ARENA_BLOCK_SIZE in *. cbv zeta. destruct (Nat.odd (length n)) eqn:O; unfold hex_prefix_decode.
  - destruct n as [|x n]; [discriminate|]. inversion H as [|? ? X H']; subst. change (aget (x :: n) 0) with x. cbn [skipn length] in *.
    assert (E : Nat.even (length n) = true) by (rewrite Nat.odd_succ in O; exact O).
    assert (LP : (2 * (length n / 2) = length n)%nat) by (apply Nat.even_spec in E as [k ->]; rewrite (Nat.mul_comm 2 k), Nat.div_mul by lia; lia).
    destruct (first_flags (if is_leaf then 3 else 1) x ltac:(destruct is_leaf; lia) X) as [F1 F2].
    replace ((if is_leaf then 3 else 1) * 16 + x) with ((if is_leaf then 32 else 0) + 16 + x) in F1, F2 by (destruct is_leaf; lia).
    rewrite F1, F2. replace (negb (Z.land (if is_leaf then 3 else 1) HP_FLAG_ODD =? 0)) with true by (destruct is_leaf; reflexivity).
    replace (negb (Z.land (if is_leaf then 3 else 1) HP_FLAG_LEAF =? 0)) with is_leaf by (destruct is_leaf; reflexivity).
    cbv zeta. rewrite length_pack. unfold add64, mul64. rewrite (w64_small (_ * 2)), w64_small by (unfold u64; lia).
    destruct (Z.eqb_spec (1 + Z.of_nat (length n / 2) * 2) 0); [lia|]. rewrite alloc_small by (unfold DIV0_ARENA_BLOCK_SIZE; lia).
    cbn [negb app]. rewrite unpack_pack_flat by assumption. reflexivity.
  - assert (E : Nat.even (length n) = true) by (rewrite <- Nat.negb_odd, O; reflexivity).
    assert (LP : (2 * (length n / 2) = length n)%nat) by (apply Nat.even_spec in E as [k ->]; rewrite (Nat.mul_comm 2 k), Nat.div_mul by lia; lia).
    replace (Z.land (Z.shiftr (if is_leaf then 32 else 0) 4) 3) with (if is_leaf then 2 else 0) by (destruct is_leaf; reflexivity).
    replace (negb (Z.land (if is_leaf then 2 else 0) HP_FLAG_ODD =? 0)) with false by (destruct is_leaf; reflexivity).
    replace (negb (Z.land (if is_leaf then 2 else 0) HP_FLAG_LEAF =? 0)) with is_leaf by (destruct is_leaf; reflexivity).
    cbv zeta. rewrite length_pack. unfold mul64. rewrite w64_small by (unfold u64; lia).
    destruct (Z.eqb_spec (Z.of_nat (length n / 2) * 2) 0) as [N|N]; [destruct n; [reflexivity|cbn [length] in *; lia]|].
    rewrite alloc_small by (unfold DIV0_ARENA_BLOCK_SIZE; lia). cbn [negb app]. rewrite unpack_pack_flat by assumption. reflexivity.
Qed.

(** ** Order *)

Lemma nibbles_equal_spec a b : nibbles_equal a b = true <-> a = b.
Proof.
  unfold nibbles_equal. revert b. induction a as [|x a IH]; intros [|y b]; cbn [nibbles_cmp]; try (split; discriminate || reflexivity).
  destruct (Z.ltb_spec x y); [split; [discriminate | intros [= -> ->]; lia]|]. destruct (Z.gtb_spec x y); [split; [discriminate | intros [= -> ->]; lia]|].
  rewrite IH. split; [intros ->; f_equal; lia | intros [= _ ->]; reflexivity].
Qed.

Lemma to_bytes_pack n : nibbles_ok n -> nibbles_to_bytes n = pack n.
Proof.
  intros H. unfold nibbles_to_bytes. induction n as [|x|x y l IH] using pairs_ind; [reflexivity|reflexivity|].
  inversion H as [|? ? X H']; subst. inversion H' as [|? ? Y H'']; subst.
  assert (E : (length (x :: y :: l) / 2 = S (length l / 2))%nat) by (cbn [length]; replace (S (S (length l))) with (length l + 1 * 2)%nat by lia; rewrite Nat.div_add by lia; lia).
  rewrite E. cbn [seq map pack]. f_equal; [apply nibble_pair; assumption|]. rewrite <- seq_shift, map_map, <- IH by exact H''. apply map_ext. intros i.
  replace (S i * 2)%nat with (S (S (i * 2))) by lia. reflexivity.
Qed.
