(* ===== verification/Trie.v ===== *)
(** The Merkle Patricia trie: include/div0/trie/node.h and mpt.h, src/trie/node.c,
    mpt.c and the in-memory backend of mpt_memory.c.

    A node is a value of [mpt_node_t]; the pointer in a reference is the node
    itself, since a node that stays reachable has one parent. [hash_valid] and
    [cached_hash] are one option. A stored value is [None] when its [data] is
    null, and [Some []] for the sentinel of an empty value. A list builder that
    writes outside its allocation is the fault [OutOfBounds]; recursion takes
    fuel. [alloc_node] succeeds as malloc does. *)
From Stdlib Require Import ZArith Lia List Bool.
From S2P Require Import Prelude Types Effects Arena Stack Bytes Rlp Account Nibbles.
Import ListNotations.
#[local] Open Scope Z_scope.
#[local] Open Scope word_scope.

(** * node.h *)

Inductive ref_data_t := Embedded (bytes : list Z) | Hashed (h : hash_t).

Record node_ref_t (N : Type) := NodeRef { ref_data : ref_data_t; ref_node : option N }.
Arguments NodeRef {N}. Arguments ref_data {N}. Arguments ref_node {N}.

Inductive mpt_node_t :=
| MPT_NODE_EMPTY (cached_hash : option hash_t)
| MPT_NODE_LEAF (cached_hash : option hash_t) (path : nibbles_t) (value : option (list Z))
| MPT_NODE_EXTENSION (cached_hash : option hash_t) (path : nibbles_t) (child : node_ref_t mpt_node_t)
| MPT_NODE_BRANCH (cached_hash : option hash_t) (children : list (node_ref_t mpt_node_t)) (value : option (list Z)).

#[local] Abbreviation ref_t := (node_ref_t mpt_node_t).

Definition node_ref_is_null (r : ref_t) : bool :=
  match ref_node r, ref_data r with
  | Some _, _ => false
  | None, Hashed h => hash_is_zero h
  | None, Embedded bytes => Z.of_nat (length bytes) =? 0
  end.

Definition node_ref_null : ref_t := NodeRef (Embedded []) None.

Definition mpt_node_is_leaf (n : mpt_node_t) : bool := match n with MPT_NODE_LEAF _ _ _ => true | _ => false end.
Definition mpt_node_is_extension (n : mpt_node_t) : bool := match n with MPT_NODE_EXTENSION _ _ _ => true | _ => false end.
Definition mpt_node_is_branch (n : mpt_node_t) : bool := match n with MPT_NODE_BRANCH _ _ _ => true | _ => false end.
Definition mpt_node_is_empty (n : mpt_node_t) : bool := match n with MPT_NODE_EMPTY _ => true | _ => false end.

Definition cached (n : mpt_node_t) : option hash_t :=
  match n with MPT_NODE_EMPTY c | MPT_NODE_LEAF c _ _ | MPT_NODE_EXTENSION c _ _ | MPT_NODE_BRANCH c _ _ => c end.

Definition with_cache (n : mpt_node_t) (c : option hash_t) : mpt_node_t :=
  match n with
  | MPT_NODE_EMPTY _ => MPT_NODE_EMPTY c
  | MPT_NODE_LEAF _ p v => MPT_NODE_LEAF c p v
  | MPT_NODE_EXTENSION _ p r => MPT_NODE_EXTENSION c p r
  | MPT_NODE_BRANCH _ l v => MPT_NODE_BRANCH c l v
  end.

Definition mpt_node_invalidate_hash (n : mpt_node_t) : mpt_node_t := with_cache n None.

(** * node.c *)

Definition mpt_node_empty : mpt_node_t := MPT_NODE_EMPTY (Some MPT_EMPTY_ROOT).
Definition mpt_node_leaf (path : nibbles_t) (value : option (list Z)) : mpt_node_t := MPT_NODE_LEAF None path value.
Definition mpt_node_extension (path : nibbles_t) (child : ref_t) : mpt_node_t := MPT_NODE_EXTENSION None path child.
Definition mpt_node_branch : mpt_node_t := MPT_NODE_BRANCH None (repeat node_ref_null 16) None.

Definition encode_node_ref (r : ref_t) : bytes_t :=
  if node_ref_is_null r then rlp_encode_bytes []
  else
    match ref_data r with
    | Hashed h => rlp_encode_bytes h
    | Embedded bytes => snd (bytes_from_data bytes_init_arena bytes)
    end.

(** The bytes of a value; a null one has size 0. *)
Definition value_bytes (v : option (list Z)) : list Z := match v with Some bytes => bytes | None => [] end.

(** A list of encoded items in a string of the estimated size. *)
Definition encode_items (items : list bytes_t) : option bytes_t :=
  let est_size := fold_left (fun size i => size +64 b_size i) items 9 in
  let result := reserve bytes_init_arena est_size in
  let '(builder, result) := rlp_list_start result in
  rlp_list_end builder (fold_left rlp_list_append items result).

Definition mpt_node_encode (n : mpt_node_t) : option bytes_t :=
  match n with
  | MPT_NODE_EMPTY _ => Some (append_byte (reserve bytes_init_arena 1) 128)
  | MPT_NODE_LEAF _ path value =>
      encode_items [rlp_encode_bytes (b_data (hex_prefix_encode path true)); rlp_encode_bytes (value_bytes value)]
  | MPT_NODE_EXTENSION _ path child =>
      encode_items [rlp_encode_bytes (b_data (hex_prefix_encode path false)); encode_node_ref child]
  | MPT_NODE_BRANCH _ children value =>
      encode_items (map encode_node_ref children ++ [rlp_encode_bytes (value_bytes value)])
  end.

Definition mpt_branch_child_count (children : list ref_t) : nat :=
  length (filter (fun r => negb (node_ref_is_null r)) children).

(** * Faults *)

Definition try {A B} (x : A + fault) (k : A -> B + fault) : B + fault := match x with inl a => k a | inr f => inr f end.
Declare Scope trie_scope.
Notation "'let?' x := m 'in' k" := (try m (fun x => k)) (at level 10, x name, m at level 100, k at level 200) : trie_scope.

#[local] Open Scope trie_scope.

Section Trie.
Variable keccak256 : list Z -> hash_t.

Definition encoded (n : mpt_node_t) : list Z + fault :=
  match mpt_node_encode n with Some b => inl (b_data b) | None => inr OutOfBounds end.

(** The node with its cache filled, and the hash. *)
Definition mpt_node_hash (n : mpt_node_t) : (mpt_node_t * hash_t) + fault :=
  match cached n with
  | Some h => inl (n, h)
  | None =>
      match n with
      | MPT_NODE_EMPTY _ => inl (with_cache n (Some MPT_EMPTY_ROOT), MPT_EMPTY_ROOT)
      | _ => let? e := encoded n in inl (with_cache n (Some (keccak256 e)), keccak256 e)
      end
  end.

Definition mpt_node_ref (n : mpt_node_t) : ref_t + fault :=
  match n with
  | MPT_NODE_EMPTY _ => inl node_ref_null
  | _ =>
      let? e := encoded n in
      inl (NodeRef (if Z.of_nat (length e) <? 32 then Embedded e else Hashed (keccak256 e)) (Some n))
  end.

(** * mpt.c *)

Definition find_divergence (path key : nibbles_t) (offset : nat) : nat := nibbles_common_prefix path (skipn offset key).

Definition copy_value (value : list Z) : option (list Z) :=
  if Z.of_nat (length value) >? 0 then
    let result := snd (bytes_from_data bytes_init_arena value) in
    if b_alloc result then Some (b_data result) else None
  else Some [].

Definition child_at (children : list ref_t) (nibble : Z) : ref_t := nth (Z.to_nat nibble) children node_ref_null.
Definition set_child (children : list ref_t) (nibble : Z) (r : ref_t) : list ref_t := list_set children (Z.to_nat nibble) r.
Definition null_children : list ref_t := repeat node_ref_null 16.

Inductive delete_result_t := DELETE_NOT_FOUND | DELETE_UPDATED | DELETE_REMOVED.

(** ** Insertion

    The key ends at an existing node. *)
Definition insert_here (node : mpt_node_t) (value : list Z) : mpt_node_t + fault :=
  match node with
  | MPT_NODE_EMPTY c => inl (MPT_NODE_EMPTY c)
  | MPT_NODE_LEAF _ path old =>
      match path with
      | [] => inl (MPT_NODE_LEAF None path (copy_value value))
      | old_nibble :: _ =>
          let? r := mpt_node_ref (mpt_node_leaf (nibbles_slice path 1 SIZE_MAX) old) in
          inl (MPT_NODE_BRANCH None (set_child null_children old_nibble r) (copy_value value))
      end
  | MPT_NODE_BRANCH _ children _ => inl (MPT_NODE_BRANCH None children (copy_value value))
  | MPT_NODE_EXTENSION _ path child =>
      match path with
      | [] => inr OutOfBounds
      | ext_nibble :: _ =>
          let? r := (if nlen path >? 1 then mpt_node_ref (mpt_node_extension (nibbles_slice path 1 SIZE_MAX) child) else inl child) in
          inl (MPT_NODE_BRANCH None (set_child null_children ext_nibble r) (copy_value value))
      end
  end.

(** A branch that holds what is left of an existing leaf and of the new key,
    both after [match_len] common nibbles. *)
Definition split_leaf (path : nibbles_t) (old : option (list Z)) (key : nibbles_t) (offset match_len : nat) (value : list Z) : mpt_node_t + fault :=
  let? side :=
    (if (match_len <? length path)%nat then
       let? r := mpt_node_ref (mpt_node_leaf (nibbles_slice path (match_len + 1) SIZE_MAX) old) in
       inl (set_child null_children (aget path match_len) r, None)
     else inl (null_children, old)) in
  let '(children, branch_value) := side in
  if (offset + match_len <? length key)%nat then
    let? r := mpt_node_ref (mpt_node_leaf (nibbles_slice key (offset + match_len + 1) SIZE_MAX) (copy_value value)) in
    inl (MPT_NODE_BRANCH None (set_child children (aget key (offset + match_len)) r) branch_value)
  else inl (MPT_NODE_BRANCH None children (copy_value value)).

Definition insert_leaf (path : nibbles_t) (old : option (list Z)) (key : nibbles_t) (offset : nat) (value : list Z) : mpt_node_t + fault :=
  let match_len := find_divergence path key offset in
  if (match_len =? length path)%nat && (offset + match_len =? length key)%nat then inl (MPT_NODE_LEAF None path (copy_value value))
  else
    let? branch := split_leaf path old key offset match_len value in
    if (0 <? match_len)%nat then
      let? r := mpt_node_ref branch in
      inl (mpt_node_extension (nibbles_slice path 0 (Z.of_nat match_len)) r)
    else inl branch.

(** The new key leaves an extension after [match_len] of its nibbles. *)
Definition split_extension (path : nibbles_t) (child : ref_t) (key : nibbles_t) (offset match_len : nat) (value : list Z) : mpt_node_t + fault :=
  let? rest :=
    (if (match_len + 1 <? length path)%nat
     then mpt_node_ref (mpt_node_extension (nibbles_slice path (match_len + 1) SIZE_MAX) child)
     else inl child) in
  let children := set_child null_children (aget path match_len) rest in
  let? branch :=
    (if (offset + match_len <? length key)%nat then
       let? r := mpt_node_ref (mpt_node_leaf (nibbles_slice key (offset + match_len + 1) SIZE_MAX) (copy_value value)) in
       inl (MPT_NODE_BRANCH None (set_child children (aget key (offset + match_len)) r) None)
     else inl (MPT_NODE_BRANCH None children (copy_value value))) in
  if (0 <? match_len)%nat then
    let? r := mpt_node_ref branch in
    inl (mpt_node_extension (nibbles_slice path 0 (Z.of_nat match_len)) r)
  else inl branch.

Fixpoint insert_recursive (fuel : nat) (node : option mpt_node_t) (key : nibbles_t) (offset : nat) (value : list Z) : mpt_node_t + fault :=
  match fuel with
  | O => inr OutOfFuel
  | S fuel' =>
      match node with
      | None | Some (MPT_NODE_EMPTY _) =>
          if (length key <=? offset)%nat then inl (mpt_node_leaf NIBBLES_EMPTY (copy_value value))
          else inl (mpt_node_leaf (nibbles_slice key offset SIZE_MAX) (copy_value value))
      | Some node =>
          if (length key <=? offset)%nat then insert_here node value
          else
            match node with
            | MPT_NODE_EMPTY _ => inl node
            | MPT_NODE_LEAF _ path old => insert_leaf path old key offset value
            | MPT_NODE_EXTENSION _ path child =>
                let match_len := find_divergence path key offset in
                if (match_len =? length path)%nat then
                  match ref_node child with
                  | Some c =>
                      let? c := insert_recursive fuel' (Some c) key (offset + match_len) value in
                      let? r := mpt_node_ref c in
                      inl (MPT_NODE_EXTENSION None path r)
                  | None => inl (mpt_node_invalidate_hash node)
                  end
                else split_extension path child key offset match_len value
            | MPT_NODE_BRANCH _ children v =>
                let nibble := aget key offset in
                let r := child_at children nibble in
                if node_ref_is_null r then
                  let? r := mpt_node_ref (mpt_node_leaf (nibbles_slice key (offset + 1) SIZE_MAX) (copy_value value)) in
                  inl (MPT_NODE_BRANCH None (set_child children nibble r) v)
                else
                  match ref_node r with
                  | Some c =>
                      let? c := insert_recursive fuel' (Some c) key (offset + 1) value in
                      let? r := mpt_node_ref c in
                      inl (MPT_NODE_BRANCH None (set_child children nibble r) v)
                  | None => inl (MPT_NODE_BRANCH None children v)
                  end
            end
      end
  end.

(** ** Deletion *)

Fixpoint find_single_from (children : list ref_t) (i : Z) (found : option Z) : option Z :=
  match children with
  | [] => found
  | r :: children' =>
      if node_ref_is_null r then find_single_from children' (i + 1) found
      else match found with Some _ => None | None => find_single_from children' (i + 1) (Some i) end
  end.

(** [None] stands for -1. *)
Definition find_single_child (children : list ref_t) : option Z := find_single_from children 0 None.

Definition collapse_branch (children : list ref_t) (value : option (list Z)) : mpt_node_t + fault :=
  let branch := MPT_NODE_BRANCH None children value in
  match find_single_child children with
  | None =>
      match value with
      | Some _ => if (mpt_branch_child_count children =? 0)%nat then inl (mpt_node_leaf NIBBLES_EMPTY value) else inl branch
      | None => inl branch
      end
  | Some nibble =>
      match value with
      | Some _ => inl branch
      | None =>
          match ref_node (child_at children nibble) with
          | None => inl branch
          | Some (MPT_NODE_LEAF _ path v) => inl (mpt_node_leaf (nibbles_concat3 NIBBLES_EMPTY nibble path) v)
          | Some (MPT_NODE_EXTENSION _ path r) => inl (mpt_node_extension (nibbles_concat3 NIBBLES_EMPTY nibble path) r)
          | Some child => let? r := mpt_node_ref child in inl (mpt_node_extension [nibble] r)
          end
      end
  end.

(** The loop that compares a leaf's path with the rest of the key. *)
Definition path_matches (path key : nibbles_t) (offset : nat) : bool :=
  forallb (fun i => aget path i =? aget key (offset + i)) (seq 0 (length path)).

Definition remaining_len (key : nibbles_t) (offset : nat) : Z := nlen key -64 Z.of_nat offset.

(** An extension whose child was updated. *)
Definition merge_extension (path : nibbles_t) (new_child : mpt_node_t) : mpt_node_t + fault :=
  match new_child with
  | MPT_NODE_LEAF _ p v => inl (mpt_node_leaf (nibbles_concat path p) v)
  | MPT_NODE_EXTENSION _ p r => inl (mpt_node_extension (nibbles_concat path p) r)
  | _ => let? r := mpt_node_ref new_child in inl (MPT_NODE_EXTENSION None path r)
  end.

Fixpoint delete_recursive (fuel : nat) (node : option mpt_node_t) (key : nibbles_t) (offset : nat) : (delete_result_t * option mpt_node_t) + fault :=
  match fuel with
  | O => inr OutOfFuel
  | S fuel' =>
      match node with
      | None | Some (MPT_NODE_EMPTY _) => inl (DELETE_NOT_FOUND, node)
      | Some (MPT_NODE_LEAF _ path _) =>
          if negb (remaining_len key offset =? nlen path) then inl (DELETE_NOT_FOUND, node)
          else if negb (path_matches path key offset) then inl (DELETE_NOT_FOUND, node)
          else inl (DELETE_REMOVED, None)
      | Some (MPT_NODE_EXTENSION _ path child) =>
          let match_len := find_divergence path key offset in
          if negb (match_len =? length path)%nat then inl (DELETE_NOT_FOUND, node)
          else
            let? result := delete_recursive fuel' (ref_node child) key (offset + match_len) in
            match result with
            | (DELETE_NOT_FOUND, _) => inl (DELETE_NOT_FOUND, node)
            | (DELETE_REMOVED, _) => inl (DELETE_REMOVED, None)
            | (DELETE_UPDATED, None) => inl (DELETE_REMOVED, None)
            | (DELETE_UPDATED, Some new_child) => let? n := merge_extension path new_child in inl (DELETE_UPDATED, Some n)
            end
      | Some (MPT_NODE_BRANCH _ children value) =>
          if (length key <=? offset)%nat then
            match value with
            | None => inl (DELETE_NOT_FOUND, node)
            | Some _ => let? n := collapse_branch children None in inl (DELETE_UPDATED, Some n)
            end
          else
            let nibble := aget key offset in
            let r := child_at children nibble in
            if node_ref_is_null r then inl (DELETE_NOT_FOUND, node)
            else
              match ref_node r with
              | None => inl (DELETE_NOT_FOUND, node)
              | Some child =>
                  let? result := delete_recursive fuel' (Some child) key (offset + 1) in
                  match result with
                  | (DELETE_NOT_FOUND, _) => inl (DELETE_NOT_FOUND, node)
                  | (res, new_child) =>
                      let? children :=
                        (match res, new_child with
                         | DELETE_REMOVED, _ | _, None => inl (set_child children nibble node_ref_null)
                         | _, Some c => let? r := mpt_node_ref c in inl (set_child children nibble r)
                         end) in
                      let? n := collapse_branch children value in
                      inl (DELETE_UPDATED, Some n)
                  end
              end
      end
  end.

(** ** Lookup *)

Fixpoint get_loop (fuel : nat) (node : option mpt_node_t) (key : nibbles_t) (offset : nat) : option (list Z) + fault :=
  match fuel with
  | O => inr OutOfFuel
  | S fuel' =>
      match node with
      | None | Some (MPT_NODE_EMPTY _) => inl None
      | Some (MPT_NODE_LEAF _ path value) =>
          if (remaining_len key offset =? nlen path) && path_matches path key offset then inl value else inl None
      | Some (MPT_NODE_EXTENSION _ path child) =>
          let match_len := find_divergence path key offset in
          if negb (match_len =? length path)%nat then inl None
          else
            match ref_node child with
            | Some c => get_loop fuel' (Some c) key (offset + match_len)
            | None => inl None
            end
      | Some (MPT_NODE_BRANCH _ children value) =>
          if (length key <=? offset)%nat then inl value
          else
            let r := child_at children (aget key offset) in
            if node_ref_is_null r then inl None
            else
              match ref_node r with
              | Some c => get_loop fuel' (Some c) key (offset + 1)
              | None => inl None
              end
      end
  end.

Fixpoint contains_loop (fuel : nat) (node : option mpt_node_t) (key : nibbles_t) (offset : nat) : bool + fault :=
  match fuel with
  | O => inr OutOfFuel
  | S fuel' =>
      match node with
      | None | Some (MPT_NODE_EMPTY _) => inl false
      | Some (MPT_NODE_LEAF _ path _) =>
          if negb (remaining_len key offset =? nlen path) then inl false else inl (path_matches path key offset)
      | Some (MPT_NODE_EXTENSION _ path child) =>
          let match_len := find_divergence path key offset in
          if negb (match_len =? length path)%nat then inl false
          else
            match ref_node child with
            | Some c => contains_loop fuel' (Some c) key (offset + match_len)
            | None => inl false
            end
      | Some (MPT_NODE_BRANCH _ children value) =>
          if (length key <=? offset)%nat then inl (match value with Some _ => true | None => false end)
          else
            let r := child_at children (aget key offset) in
            if node_ref_is_null r then inl false
            else
              match ref_node r with
              | Some c => contains_loop fuel' (Some c) key (offset + 1)
              | None => inl false
              end
      end
  end.

(** ** mpt_memory.c and the public functions *)

Record mpt_t := Mpt { root : option mpt_node_t }.

Definition mpt_memory_backend_create : mpt_t := Mpt None.
Definition memory_get_root (t : mpt_t) : option mpt_node_t := root t.
Definition memory_set_root (t : mpt_t) (r : option mpt_node_t) : mpt_t := Mpt r.
Definition memory_alloc_node : mpt_node_t := mpt_node_empty.
Definition memory_get_node_by_hash (t : mpt_t) (h : hash_t) : option mpt_node_t := None.
Definition memory_store_node (n : mpt_node_t) : (mpt_node_t * hash_t) + fault := mpt_node_hash n.
Definition memory_begin_batch (t : mpt_t) : mpt_t := t.
Definition memory_commit_batch (t : mpt_t) : mpt_t := t.
Definition memory_rollback_batch (t : mpt_t) : mpt_t := t.
Definition memory_clear (t : mpt_t) : mpt_t := Mpt None.

(** One call per nibble is enough, see [TrieSpec]. *)
Definition depth_fuel (key : nibbles_t) : nat := S (length key).

Definition mpt_insert (t : mpt_t) (key value : list Z) : mpt_t + fault :=
  let key_nibbles := nibbles_from_bytes key in
  let? new_root := insert_recursive (depth_fuel key_nibbles) (memory_get_root t) key_nibbles 0 value in
  inl (memory_set_root t (Some new_root)).

Definition mpt_get (t : mpt_t) (key : list Z) : option (list Z) + fault :=
  let key_nibbles := nibbles_from_bytes key in
  get_loop (depth_fuel key_nibbles) (memory_get_root t) key_nibbles 0.

Definition mpt_contains (t : mpt_t) (key : list Z) : bool + fault :=
  let key_nibbles := nibbles_from_bytes key in
  contains_loop (depth_fuel key_nibbles) (memory_get_root t) key_nibbles 0.

Definition mpt_delete (t : mpt_t) (key : list Z) : (mpt_t * bool) + fault :=
  match memory_get_root t with
  | None | Some (MPT_NODE_EMPTY _) => inl (t, false)
  | Some r =>
      let key_nibbles := nibbles_from_bytes key in
      let? result := delete_recursive (depth_fuel key_nibbles) (Some r) key_nibbles 0 in
      match result with
      | (DELETE_NOT_FOUND, _) => inl (t, false)
      | (_, new_root) => inl (memory_set_root t new_root, true)
      end
  end.

Definition mpt_root_hash (t : mpt_t) : (mpt_t * hash_t) + fault :=
  match memory_get_root t with
  | None | Some (MPT_NODE_EMPTY _) => inl (t, MPT_EMPTY_ROOT)
  | Some r => let? nh := mpt_node_hash r in inl (memory_set_root t (Some (fst nh)), snd nh)
  end.

Definition mpt_is_empty (t : mpt_t) : bool :=
  match memory_get_root t with None | Some (MPT_NODE_EMPTY _) => true | _ => false end.

Definition mpt_clear (t : mpt_t) : mpt_t := memory_clear t.
End Trie.
