(* ===== verification/TrieSpec.v ===== *)
(** The trie as a finite map: what a node contains, its invariant, and that
    lookup, insertion and deletion act on the contents as they should. *)
From Stdlib Require Import ZArith Lia List Bool.
From S2P Require Import Prelude Types Effects Arena Stack Bytes Rlp RlpSpec Account Nibbles Trie.
Import ListNotations.
#[local] Open Scope Z_scope.
#[local] Open Scope word_scope.
#[local] Open Scope trie_scope.

#[local] Abbreviation ref_t := (node_ref_t mpt_node_t).

(** * Contents *)

(** [has n k v]: below [n], the rest [k] of a key leads to the value [v]. *)
Inductive has : mpt_node_t -> nibbles_t -> list Z -> Prop :=
| has_leaf c p v : has (MPT_NODE_LEAF c p (Some v)) p v
| has_extension c p r n k v : ref_node r = Some n -> has n k v -> has (MPT_NODE_EXTENSION c p r) (p ++ k) v
| has_value c cs v : has (MPT_NODE_BRANCH c cs (Some v)) [] v
| has_child c cs w i n k v : nibble i -> ref_node (child_at cs i) = Some n -> has n k v -> has (MPT_NODE_BRANCH c cs w) (i :: k) v.

(** ** Branches *)

Lemma length_null : length null_children = 16%nat.
Proof. reflexivity. Qed.

Lemma child_null i : child_at null_children i = node_ref_null.
Proof. unfold child_at, null_children. destruct (Nat.lt_ge_cases (Z.to_nat i) 16) as [L|L]; [apply nth_repeat_lt, L | apply nth_overflow, L]. Qed.

Lemma child_set cs i j r : length cs = 16%nat -> nibble i -> nibble j -> child_at (set_child cs i r) j = if i =? j then r else child_at cs j.
Proof.
  unfold nibble. intros L I J. unfold child_at, set_child. assert (Li : (Z.to_nat i < length cs)%nat) by lia. pose proof (nth_error_list_set cs (Z.to_nat i) (Z.to_nat j) r Li) as E.
  assert (Lj : (Z.to_nat j < length (list_set cs (Z.to_nat i) r))%nat) by (rewrite length_list_set; lia).
  rewrite (nth_error_nth' _ node_ref_null Lj) in E. destruct (Z.eqb_spec i j) as [->|N].
  - rewrite Nat.eqb_refl in E. congruence.
  - destruct (Nat.eqb_spec (Z.to_nat i) (Z.to_nat j)); [lia|]. rewrite (nth_error_nth' _ node_ref_null) in E by lia. congruence.
Qed.

Lemma has_branch_iff c cs w k v : has (MPT_NODE_BRANCH c cs w) k v <->
  match k with [] => w = Some v | i :: k' => nibble i /\ exists n, ref_node (child_at cs i) = Some n /\ has n k' v end.
Proof.
  split; [intros H; inversion H; subst; eauto|]. destruct k as [|i k].
  - intros ->. constructor.
  - intros (I & n & R & H). econstructor; eassumption.
Qed.

Lemma has_null_branch c w k v : has (MPT_NODE_BRANCH c null_children w) k v <-> k = [] /\ w = Some v.
Proof.
  rewrite has_branch_iff. destruct k as [|i k]; [tauto|]. rewrite child_null. split; [intros (_ & n & [=] & _) | intros [[=] _]].
Qed.

Lemma has_ext_iff c p r k v : has (MPT_NODE_EXTENSION c p r) k v <-> exists n k', ref_node r = Some n /\ k = p ++ k' /\ has n k' v.
Proof.
  split; [intros H; inversion H; subst; eauto 6|]. intros (n & k' & R & -> & H). econstructor; eassumption.
Qed.

Lemma has_leaf_iff c p w k v : has (MPT_NODE_LEAF c p w) k v <-> k = p /\ w = Some v.
Proof. split; [intros H; inversion H; subst; auto | intros [-> ->]; constructor]. Qed.

Lemma has_fun n k v v' : has n k v -> has n k v' -> v = v'.
Proof.
  intros H. revert v'. induction H as [c p v|c p r n k v R H IH|c cs v|c cs w i n k v I R H IH]; intros v' K.
  - apply has_leaf_iff in K as [_ [= ->]]. reflexivity.
  - apply has_ext_iff in K as (n' & k' & R' & E%app_inv_head & K). apply IH. congruence.
  - apply has_branch_iff in K as [= ->]. reflexivity.
  - apply has_branch_iff in K as (_ & n' & R' & K). apply IH. congruence.
Qed.

(** * Encodings *)

Section Encodings.
Variable keccak256 : list Z -> hash_t.

Definition enc_ref (r : ref_t) : list Z :=
  if node_ref_is_null r then [128] else match ref_data r with Hashed h => enc_str h | Embedded bytes => bytes end.

Definition enc_node (n : mpt_node_t) : list Z :=
  match n with
  | MPT_NODE_EMPTY _ => [128]
  | MPT_NODE_LEAF _ p v => enc_list (enc_str (hp p true) ++ enc_str (value_bytes v))
  | MPT_NODE_EXTENSION _ p r => enc_list (enc_str (hp p false) ++ enc_ref r)
  | MPT_NODE_BRANCH _ cs v => enc_list (concat (map enc_ref cs) ++ enc_str (value_bytes v))
  end.

Definition mkref (n : mpt_node_t) : ref_t :=
  NodeRef (if Z.of_nat (length (enc_node n)) <? 32 then Embedded (enc_node n) else Hashed (keccak256 (enc_node n))) (Some n).

(** ** The list builder has room for what it was sized for *)

Lemma fold_sizes items g : u64 g -> fold_left (fun size i => size +64 b_size i) items g = w64 (g + Z.of_nat (length (concat (map b_data items)))).
Proof.
  revert g. induction items as [|i items IH]; intros g G; cbn [fold_left map concat].
  - rewrite Z.add_0_r, w64_small by exact G. reflexivity.
  - rewrite IH by apply w64_range. unfold add64. rewrite w64_add_l, length_app. unfold b_size. f_equal. lia.
Qed.

Lemma fold_append items d c : Z.of_nat (length d) + Z.of_nat (length (concat (map b_data items))) <= c <= DIV0_ARENA_BLOCK_SIZE ->
  fold_left rlp_list_append items (filled d c) = filled (d ++ concat (map b_data items)) c.
Proof.
  revert d. induction items as [|i items IH]; intros d L; cbn [fold_left map concat] in *; [rewrite app_nil_r; reflexivity|].
  rewrite length_app in L. unfold rlp_list_append at 2. rewrite append_filled by lia. rewrite IH by (rewrite length_app; lia). rewrite <- app_assoc. reflexivity.
Qed.

Lemma encode_items_spec items : Z.of_nat (length (concat (map b_data items))) + 9 <= DIV0_ARENA_BLOCK_SIZE ->
  exists c, encode_items items = Some (filled (enc_list (concat (map b_data items))) c).
Proof.
  intros L. unfold encode_items. rewrite fold_sizes by (unfold u64; lia). set (p := concat (map b_data items)) in *. unfold DIV0_ARENA_BLOCK_SIZE in L.
  rewrite w64_small by (unfold u64; lia). exists (9 + Z.of_nat (length p)). cbv zeta.
  rewrite reserve_fresh by (unfold DIV0_ARENA_BLOCK_SIZE; lia). change (Bytes [] (9 + Z.of_nat (length p)) true) with (filled [] (9 + Z.of_nat (length p))).
  rewrite rlp_list_start_spec by (unfold DIV0_ARENA_BLOCK_SIZE; cbn [length]; lia). cbv iota beta. cbn [app].
  rewrite fold_append by (fold p; change (length reserved) with 9%nat; unfold DIV0_ARENA_BLOCK_SIZE; lia). fold p.
  apply (rlp_list_end_spec []). unfold DIV0_ARENA_BLOCK_SIZE. cbn [app]. rewrite length_app. change (length reserved) with 9%nat. lia.
Qed.

(** ** References *)

(** A reference takes at most 33 bytes. *)
Definition ref_ok (r : ref_t) : Prop := bytes_ok (enc_ref r) /\ 1 <= Z.of_nat (length (enc_ref r)) <= 33 /\ b_data (encode_node_ref r) = enc_ref r.

Lemma enc_str_nil : enc_str [] = [128].
Proof. reflexivity. Qed.

Lemma null_ref_ok : ref_ok node_ref_null.
Proof. split; [repeat constructor; unfold u8; lia|]. split; [cbn; lia | reflexivity]. Qed.

Hypothesis keccak_wf : forall bs, bytes_ok bs -> wf_hash (keccak256 bs).

Lemma mkref_ok n : bytes_ok (enc_node n) -> 1 <= Z.of_nat (length (enc_node n)) -> ref_ok (mkref n).
Proof.
  intros B L. unfold ref_ok, enc_ref, encode_node_ref, mkref. cbn [node_ref_is_null ref_node ref_data].
  destruct (Z.ltb_spec (Z.of_nat (length (enc_node n))) 32) as [S|S].
  - split; [exact B|]. split; [lia|]. unfold bytes_from_data, bytes_init_arena. destruct (Z.eqb_spec (Z.of_nat (length (enc_node n))) 0); [lia|].
    unfold bytes_reserve. cbn [b_capacity b_alloc b_data]. destruct (Z.leb_spec (Z.of_nat (length (enc_node n))) 0); [lia|].
    rewrite alloc_small by (unfold DIV0_ARENA_BLOCK_SIZE; lia). reflexivity.
  - pose proof (keccak_wf _ B) as W. split; [apply bytes_ok_enc_hash, W|]. rewrite length_enc_hash by exact W. split; [lia|]. apply rlp_encode_hash_spec, W.
Qed.

Lemma refs_length cs : Forall ref_ok cs -> Z.of_nat (length (concat (map enc_ref cs))) <= 33 * Z.of_nat (length cs).
Proof. induction 1 as [|r cs (_ & R & _) _ IH]; cbn [map concat length]; [lia|]. rewrite length_app. lia. Qed.

Lemma refs_bytes cs : Forall ref_ok cs -> bytes_ok (concat (map enc_ref cs)).
Proof. induction 1 as [|r cs (R & _ & _) _ IH]; cbn [map concat]; [constructor|]. apply Forall_app. split; assumption. Qed.

Lemma refs_encode cs : Forall ref_ok cs -> concat (map b_data (map encode_node_ref cs)) = concat (map enc_ref cs).
Proof. induction 1 as [|r cs (_ & _ & R) _ IH]; cbn [map concat]; [reflexivity|]. rewrite R, IH. reflexivity. Qed.

(** * The invariant *)

Definition KEY_MAX : nat := Z.to_nat 8192.
Definition VALUE_MAX : Z := 32768.

Definition value_ok (v : list Z) : Prop := bytes_ok v /\ Z.of_nat (length v) <= VALUE_MAX.

Definition entries (cs : list ref_t) (w : option (list Z)) : nat :=
  (mpt_branch_child_count cs + match w with Some _ => 1 | None => 0 end)%nat.

(** [wf B n]: keys below [n] have at most [B] nibbles left; extensions lead to
    branches, branches have two entries, and references are up to date. *)
Inductive wf : nat -> mpt_node_t -> Prop :=
| wf_leaf B c p v : nibbles_ok p -> (length p <= B)%nat -> value_ok v -> wf B (MPT_NODE_LEAF c p (Some v))
| wf_extension B c p n : nibbles_ok p -> (0 < length p <= B)%nat -> mpt_node_is_branch n = true -> wf (B - length p) n ->
    wf B (MPT_NODE_EXTENSION c p (mkref n))
| wf_branch B c cs w : length cs = 16%nat -> Forall (fun r => r = node_ref_null \/ exists n, r = mkref n) cs ->
    (forall n, In (mkref n) cs -> (0 < B)%nat) -> (forall n, In (mkref n) cs -> wf (B - 1) n) ->
    (forall v, w = Some v -> value_ok v) -> (2 <= entries cs w)%nat ->
    wf B (MPT_NODE_BRANCH c cs w).

Lemma enc_str_nonempty v : Z.of_nat (length v) < 2 ^ 64 -> 1 <= Z.of_nat (length (enc_str v)).
Proof. intros L. pose proof (length_enc_str v L). destruct v; [rewrite enc_str_nil; cbn; lia | cbn [length] in *; lia]. Qed.

Lemma value_length v : value_ok v -> 1 <= Z.of_nat (length (enc_str v)) <= VALUE_MAX + 9 /\ bytes_ok (enc_str v).
Proof.
  intros [B L]. unfold VALUE_MAX in *. pose proof (length_enc_str v ltac:(lia)) as E. pose proof (enc_str_nonempty v ltac:(lia)).
  split; [lia | apply bytes_ok_enc_str; [exact B | lia]].
Qed.

Lemma path_length p is_leaf : nibbles_ok p -> (length p <= KEY_MAX)%nat ->
  1 <= Z.of_nat (length (enc_str (hp p is_leaf))) <= 4200 /\ bytes_ok (enc_str (hp p is_leaf)) /\
  b_data (rlp_encode_bytes (b_data (hex_prefix_encode p is_leaf))) = enc_str (hp p is_leaf).
Proof.
  intros P L. unfold KEY_MAX in L. pose proof (length_hp p is_leaf) as LH. unfold nlen in LH.
  assert (Z.of_nat (length (hp p is_leaf)) <= 4100).
  { assert ((Z.of_nat (length p) + 1) / 2 <= (8192 + 1) / 2) by (apply Z.div_le_mono; lia). change ((8192 + 1) / 2) with 4096 in *. lia. }
  pose proof (length_enc_str (hp p is_leaf) ltac:(lia)). pose proof (enc_str_nonempty (hp p is_leaf) ltac:(lia)). pose proof (hp_ok p is_leaf P) as HB.
  split; [lia|]. split; [apply bytes_ok_enc_str; [exact HB | lia]|].
  rewrite hex_prefix_encode_spec by (exact P || (unfold nlen, DIV0_ARENA_BLOCK_SIZE; lia)). cbn [b_data filled].
  apply rlp_encode_bytes_data; [exact HB | unfold DIV0_ARENA_BLOCK_SIZE; lia].
Qed.

Lemma value_data v : value_ok v -> b_data (rlp_encode_bytes v) = enc_str v.
Proof.
  intros V. destruct (value_length v V) as [L _]. apply rlp_encode_bytes_data; [apply V | unfold VALUE_MAX, DIV0_ARENA_BLOCK_SIZE in *; lia].
Qed.

(** Well-formed nodes have encodings, so references to them can be built. *)
Definition encodes (n : mpt_node_t) : Prop :=
  encoded n = inl (enc_node n) /\ bytes_ok (enc_node n) /\ 1 <= Z.of_nat (length (enc_node n)).

Lemma encodes_items n items p : mpt_node_encode n = encode_items items -> concat (map b_data items) = p -> enc_node n = enc_list p ->
  bytes_ok p -> Z.of_nat (length p) + 9 <= DIV0_ARENA_BLOCK_SIZE -> encodes n.
Proof.
  intros E P N B L. unfold DIV0_ARENA_BLOCK_SIZE in L. destruct (encode_items_spec items) as [c C]; [rewrite P; exact L|]. unfold encodes, encoded. rewrite E, C, P, N.
  split; [reflexivity|]. split; [apply bytes_ok_enc_list; [exact B | lia]|]. unfold enc_list. rewrite length_app.
  pose proof (length_header 192 (Z.of_nat (length p)) ltac:(lia)). lia.
Qed.

Lemma leaf_encodes c p v : nibbles_ok p -> (length p <= KEY_MAX)%nat -> value_ok v -> encodes (MPT_NODE_LEAF c p (Some v)).
Proof.
  intros P L V. destruct (path_length p true P L) as (L1 & B1 & E1). destruct (value_length v V) as [L2 B2].
  eapply encodes_items; [reflexivity| |reflexivity|apply Forall_app; split; eassumption|].
  - cbn [map concat value_bytes]. rewrite E1, (value_data v V), app_nil_r. reflexivity.
  - rewrite length_app. unfold VALUE_MAX, DIV0_ARENA_BLOCK_SIZE in *. cbn [value_bytes]. lia.
Qed.

Lemma extension_encodes c p r : nibbles_ok p -> (length p <= KEY_MAX)%nat -> ref_ok r -> encodes (MPT_NODE_EXTENSION c p r).
Proof.
  intros P L (B2 & L2 & E2). destruct (path_length p false P L) as (L1 & B1 & E1).
  eapply encodes_items; [reflexivity| |reflexivity|apply Forall_app; split; eassumption|].
  - cbn [map concat]. rewrite E1, E2, app_nil_r. reflexivity.
  - rewrite length_app. unfold DIV0_ARENA_BLOCK_SIZE. lia.
Qed.

Lemma branch_encodes c cs w : length cs = 16%nat -> Forall ref_ok cs -> (forall v, w = Some v -> value_ok v) -> encodes (MPT_NODE_BRANCH c cs w).
Proof.
  intros L R V. pose proof (refs_length cs R) as L1. rewrite L in L1. assert (V' : value_ok (value_bytes w)) by (destruct w; [auto | split; [constructor|discriminate]]).
  destruct (value_length _ V') as [L2 B2].
  eapply encodes_items; [reflexivity| |reflexivity|apply Forall_app; split; [apply refs_bytes, R | exact B2]|].
  - rewrite map_app, concat_app, refs_encode by exact R. cbn [map concat]. rewrite (value_data _ V'), app_nil_r. reflexivity.
  - rewrite length_app. unfold VALUE_MAX, DIV0_ARENA_BLOCK_SIZE in *. lia.
Qed.

Lemma encodes_ref n : encodes n -> ref_ok (mkref n).
Proof. intros (_ & B & L). apply mkref_ok; assumption. Qed.

Lemma wf_encodes B n : wf B n -> (B <= KEY_MAX)%nat -> encodes n.
Proof.
  induction 1 as [B c p v P L V|B c p n P L N H IH|B c cs w L R HB H IH V E]; intros BM.
  - apply leaf_encodes; [exact P | lia | exact V].
  - apply extension_encodes; [exact P | lia | apply encodes_ref, IH; lia].
  - apply branch_encodes; [exact L | | exact V]. rewrite Forall_forall in *. intros r Hr. destruct (R r Hr) as [->|[n ->]]; [apply null_ref_ok|].
    apply encodes_ref. apply (IH n Hr). lia.
Qed.

Lemma encodes_mkref n : encodes n -> mpt_node_is_empty n = false -> mpt_node_ref keccak256 n = inl (mkref n).
Proof. intros (E & _ & _) N. unfold mpt_node_ref. rewrite E. destruct n; [discriminate|reflexivity..]. Qed.

Lemma wf_ref B n : wf B n -> (B <= KEY_MAX)%nat -> mpt_node_ref keccak256 n = inl (mkref n).
Proof. intros W L. apply encodes_mkref; [eapply wf_encodes; eassumption | inversion W; reflexivity]. Qed.

(** * Building branches *)

Lemma mkref_inj n m : mkref n = mkref m -> n = m.
Proof. unfold mkref. congruence. Qed.

Lemma mkref_not_null n : mkref n <> node_ref_null.
Proof. discriminate. Qed.

(** The children of a branch with [B] nibbles left. *)
Record children_ok (B : nat) (cs : list ref_t) : Prop := {
  co_length : length cs = 16%nat;
  co_refs : Forall (fun r => r = node_ref_null \/ exists n, r = mkref n) cs;
  co_left : forall n, In (mkref n) cs -> (0 < B)%nat;
  co_wf : forall n, In (mkref n) cs -> wf (B - 1) n }.

Lemma wf_branch_iff B c cs w : wf B (MPT_NODE_BRANCH c cs w) <->
  children_ok B cs /\ (forall v, w = Some v -> value_ok v) /\ (2 <= entries cs w)%nat.
Proof.
  split; [intros H; inversion H; subst; split; [split|]; auto|]. intros ([] & V & E). constructor; assumption.
Qed.

Lemma wf_ext_iff B c p r : wf B (MPT_NODE_EXTENSION c p r) <->
  exists n, r = mkref n /\ nibbles_ok p /\ (0 < length p <= B)%nat /\ mpt_node_is_branch n = true /\ wf (B - length p) n.
Proof.
  split; [intros H; inversion H; subst; eauto 8|]. intros (n & -> & P & L & N & W). constructor; assumption.
Qed.

Lemma wf_leaf_iff B c p w : wf B (MPT_NODE_LEAF c p w) <-> exists v, w = Some v /\ nibbles_ok p /\ (length p <= B)%nat /\ value_ok v.
Proof. split; [intros H; inversion H; subst; eauto 6|]. intros (v & -> & P & L & V). constructor; assumption. Qed.

Lemma children_null B : children_ok B null_children.
Proof.
  split; [reflexivity| |..].
  - apply Forall_forall. intros r Hr. apply repeat_spec in Hr. left. exact Hr.
  - intros n Hn. apply repeat_spec in Hn. discriminate.
  - intros n Hn. apply repeat_spec in Hn. discriminate.
Qed.

Lemma In_list_set {A} (l : list A) i x y : In y (list_set l i x) -> y = x \/ In y l.
Proof. revert i. induction l as [|h l IH]; intros [|i]; cbn; intros H; auto; destruct H as [->|H]; auto. destruct (IH i H); auto. Qed.

Lemma children_set B cs i n : children_ok B cs -> (0 < B)%nat -> wf (B - 1) n -> children_ok B (set_child cs i (mkref n)).
Proof.
  intros [L R LB W] P N. unfold set_child. split.
  - rewrite length_list_set. exact L.
  - apply Forall_list_set; eauto.
  - intros m Hm. exact P.
  - intros m Hm. apply In_list_set in Hm as [E|Hm]; [apply mkref_inj in E; subst; exact N | auto].
Qed.

Lemma children_clear B cs i : children_ok B cs -> children_ok B (set_child cs i node_ref_null).
Proof.
  intros [L R LB W]. unfold set_child. split.
  - rewrite length_list_set. exact L.
  - apply Forall_list_set; auto.
  - intros m Hm. apply In_list_set in Hm as [E|Hm]; [discriminate | eauto].
  - intros m Hm. apply In_list_set in Hm as [E|Hm]; [discriminate | auto].
Qed.

(** A child of a branch is null or a reference to a well-formed node. *)
Lemma child_cases B cs i : children_ok B cs -> nibble i ->
  child_at cs i = node_ref_null \/ exists n, child_at cs i = mkref n /\ (0 < B)%nat /\ wf (B - 1) n.
Proof.
  intros [L R LB W] I. unfold nibble in I. assert (H : In (child_at cs i) cs) by (apply nth_In; lia). rewrite Forall_forall in R.
  destruct (R _ H) as [E|[n E]]; [left; exact E|]. right. exists n. rewrite E in H. eauto.
Qed.

Lemma count_list_set (l : list ref_t) i r : (i < length l)%nat ->
  (mpt_branch_child_count (list_set l i r) + (if node_ref_is_null (nth i l node_ref_null) then 0 else 1) =
   mpt_branch_child_count l + (if node_ref_is_null r then 0 else 1))%nat.
Proof.
  unfold mpt_branch_child_count. revert i. induction l as [|h l IH]; intros [|i] L; cbn [list_set filter nth length] in *; try lia.
  - destruct (node_ref_is_null h), (node_ref_is_null r); cbn [negb length]; lia.
  - specialize (IH i ltac:(lia)). destruct (node_ref_is_null h); cbn [negb length]; lia.
Qed.

Lemma count_set cs i r : length cs = 16%nat -> nibble i ->
  (mpt_branch_child_count (set_child cs i r) + (if node_ref_is_null (child_at cs i) then 0 else 1) =
   mpt_branch_child_count cs + (if node_ref_is_null r then 0 else 1))%nat.
Proof. intros L I. unfold nibble in I. apply count_list_set. lia. Qed.

Lemma count_add cs i n : length cs = 16%nat -> nibble i -> child_at cs i = node_ref_null ->
  mpt_branch_child_count (set_child cs i (mkref n)) = S (mpt_branch_child_count cs).
Proof.
  intros L I E. pose proof (count_set cs i (mkref n) L I) as C. rewrite E in C. change (node_ref_is_null node_ref_null) with true in C.
  change (node_ref_is_null (mkref n)) with false in C. cbv iota in C. lia.
Qed.

Lemma count_keep cs i n m : length cs = 16%nat -> nibble i -> child_at cs i = mkref m ->
  mpt_branch_child_count (set_child cs i (mkref n)) = mpt_branch_child_count cs.
Proof.
  intros L I E. pose proof (count_set cs i (mkref n) L I) as C. rewrite E in C. change (node_ref_is_null (mkref m)) with false in C.
  change (node_ref_is_null (mkref n)) with false in C. cbv iota in C. lia.
Qed.

Lemma count_clear cs i m : length cs = 16%nat -> nibble i -> child_at cs i = mkref m ->
  S (mpt_branch_child_count (set_child cs i node_ref_null)) = mpt_branch_child_count cs.
Proof.
  intros L I E. pose proof (count_set cs i node_ref_null L I) as C. rewrite E in C. change (node_ref_is_null (mkref m)) with false in C.
  change (node_ref_is_null node_ref_null) with true in C. cbv iota in C. lia.
Qed.

Lemma count_null : mpt_branch_child_count null_children = 0%nat.
Proof. reflexivity. Qed.

Lemma length_set cs i r : length (set_child cs i r) = length cs.
Proof. apply length_list_set. Qed.

Lemma has_set c cs i n w k v : length cs = 16%nat -> nibble i ->
  has (MPT_NODE_BRANCH c (set_child cs i (mkref n)) w) k v <->
  match k with
  | [] => w = Some v
  | j :: k' => if i =? j then has n k' v else has (MPT_NODE_BRANCH c cs w) k v
  end.
Proof.
  intros L I. rewrite has_branch_iff. destruct k as [|j k]; [reflexivity|]. destruct (Z.eqb_spec i j) as [<-|N].
  - rewrite child_set, Z.eqb_refl by assumption. split; [intros (_ & m & [= <-] & H); exact H | intros H; split; [exact I | exists n; auto]].
  - rewrite has_branch_iff. split; intros (J & m & R & H); (split; [exact J|]); exists m; rewrite child_set, (proj2 (Z.eqb_neq i j) N) in * by assumption; auto.
Qed.

Lemma has_clear c cs i w k v : length cs = 16%nat -> nibble i ->
  has (MPT_NODE_BRANCH c (set_child cs i node_ref_null) w) k v <->
  has (MPT_NODE_BRANCH c cs w) k v /\ forall k', k <> i :: k'.
Proof.
  intros L I. rewrite !has_branch_iff. destruct k as [|j k]; [split; [intros H; split; [exact H|discriminate] | tauto]|]. destruct (Z.eqb_spec i j) as [<-|N].
  - rewrite child_set, Z.eqb_refl by assumption. split; [intros (_ & m & [=] & _) | intros (_ & H); exfalso; exact (H k eq_refl)].
  - split.
    + intros (J & m & R & H). rewrite child_set, (proj2 (Z.eqb_neq i j) N) in R by assumption. split; [split; [exact J|]; eauto | congruence].
    + intros ((J & m & R & H) & _). split; [exact J|]. exists m. rewrite child_set, (proj2 (Z.eqb_neq i j) N) by assumption. auto.
Qed.

(** * Paths *)

Lemma prefix_split path k : exists a p' k', path = a ++ p' /\ k = a ++ k' /\ length a = nibbles_common_prefix path k /\
  match p', k' with x :: _, y :: _ => x <> y | _, _ => True end.
Proof.
  revert k. induction path as [|x path IH]; intros [|y k]; cbn [nibbles_common_prefix]; try (exists []; eexists _, _; repeat split; fail).
  destruct (Z.eqb_spec x y) as [<-|N]; [|exists []; eexists _, _; repeat split; exact N].
  destruct (IH k) as (a & p' & k' & -> & -> & L & M). exists (x :: a), p', k'. cbn [app length]. rewrite <- L. auto.
Qed.

Lemma prefix_app a b : nibbles_common_prefix a (a ++ b) = length a.
Proof. induction a as [|x a IH]; cbn [app nibbles_common_prefix length]; [destruct b; reflexivity|]. rewrite Z.eqb_refl, IH. reflexivity. Qed.

Lemma prefix_full path k : nibbles_common_prefix path k = length path -> exists k', k = path ++ k'.
Proof.
  revert k. induction path as [|x path IH]; intros [|y k]; cbn [nibbles_common_prefix length]; try discriminate; try (eexists; reflexivity).
  destruct (Z.eqb_spec x y) as [<-|N]; [|discriminate]. intros [= E]. destruct (IH k E) as [k' ->]. exists k'. reflexivity.
Qed.

(** The extension below its first nibble. *)
Definition ext_rest (p : nibbles_t) (m : mpt_node_t) : mpt_node_t :=
  match p with [] => m | _ => MPT_NODE_EXTENSION None p (mkref m) end.

Lemma ext_rest_wf B p m : nibbles_ok p -> (length p <= B)%nat -> mpt_node_is_branch m = true -> wf (B - length p) m -> wf B (ext_rest p m).
Proof.
  intros P L N W. destruct p as [|x p]; cbn [ext_rest length] in *; [rewrite Nat.sub_0_r in W; exact W|]. constructor; [exact P | cbn [length]; lia | exact N | exact W].
Qed.

Lemma ext_rest_has p m k v : has (ext_rest p m) k v <-> exists k', k = p ++ k' /\ has m k' v.
Proof.
  destruct p as [|x p]; cbn [ext_rest].
  - split; [intros H; exists k; auto | intros (k' & -> & H); exact H].
  - rewrite has_ext_iff. split; [intros (n & k' & [= <-] & -> & H); eauto | intros (k' & -> & H); exists m, k'; auto].
Qed.

(** Positions in a key of which [a] has been matched after [offset]. *)
Lemma key_at (key : nibbles_t) offset (a : nibbles_t) y k1 : skipn offset key = a ++ y :: k1 ->
  aget key (offset + length a) = y /\ skipn (offset + length a + 1) key = k1 /\ (offset + length a < length key)%nat.
Proof.
  intros E. assert (A : aget key (offset + length a) = nth (length a) (skipn offset key) 0).
  { rewrite nth_skipn. reflexivity. }
  assert (S1 : skipn (offset + length a + 1) key = skipn (length a + 1) (skipn offset key)).
  { rewrite skipn_skipn. f_equal. lia. }
  assert (L : length (skipn offset key) = (length key - offset)%nat) by apply length_skipn.
  rewrite E in A, S1, L. rewrite app_nth2, Nat.sub_diag in A by lia. rewrite skipn_app, (skipn_all2 a) in S1 by lia.
  replace (length a + 1 - length a)%nat with 1%nat in S1 by lia. rewrite length_app in L. cbn [length] in L. cbn [nth skipn app] in A, S1.
  split; [exact A|]. split; [exact S1 | lia].
Qed.

Lemma key_end (key : nibbles_t) offset (a : nibbles_t) : skipn offset key = a -> (offset <= length key)%nat -> (offset + length a = length key)%nat.
Proof. intros <- L. rewrite length_skipn. lia. Qed.

Lemma slice_key (key : nibbles_t) start : (length key <= KEY_MAX)%nat -> nibbles_slice key start SIZE_MAX = skipn start key.
Proof. intros L. apply slice_end. unfold nlen, KEY_MAX, DIV0_ARENA_BLOCK_SIZE in *. lia. Qed.

Lemma slice_front (a b : nibbles_t) : (length (a ++ b) <= KEY_MAX)%nat -> nibbles_slice (a ++ b) 0 (Z.of_nat (length a)) = a.
Proof.
  intros L. rewrite slice_prefix; [rewrite firstn_app, firstn_all, Nat.sub_diag; apply app_nil_r | unfold nlen, KEY_MAX, DIV0_ARENA_BLOCK_SIZE in *; lia | rewrite length_app; lia].
Qed.

Lemma copy_value_ok v : value_ok v -> copy_value v = Some v.
Proof.
  intros [_ L]. unfold copy_value, VALUE_MAX in *. destruct v as [|x v]; [reflexivity|]. set (w := x :: v) in *.
  assert (0 < Z.of_nat (length w)) by (unfold w; cbn [length]; lia). destruct (Z.gtb_spec (Z.of_nat (length w)) 0); [|lia].
  unfold bytes_from_data, bytes_init_arena, bytes_reserve. cbn [b_capacity b_alloc b_data]. destruct (Z.eqb_spec (Z.of_nat (length w)) 0); [lia|].
  destruct (Z.leb_spec (Z.of_nat (length w)) 0); [lia|]. rewrite alloc_small by (unfold DIV0_ARENA_BLOCK_SIZE; lia). reflexivity.
Qed.

(** * Insertion *)

(** The contents of [n'] are [P] with [v] at [k]. *)
Definition updated (P : nibbles_t -> list Z -> Prop) (k : nibbles_t) (v : list Z) (n' : mpt_node_t) : Prop :=
  forall k' v', has n' k' v' <-> (k' = k /\ v' = v) \/ (k' <> k /\ P k' v').

Lemma leaf_wf B p v : nibbles_ok p -> (length p <= B)%nat -> value_ok v -> wf B (mpt_node_leaf p (Some v)).
Proof. apply wf_leaf. Qed.

Lemma leaf_ref B p v : nibbles_ok p -> (length p <= B)%nat -> (B <= KEY_MAX)%nat -> value_ok v ->
  mpt_node_ref keccak256 (mpt_node_leaf p (Some v)) = inl (mkref (mpt_node_leaf p (Some v))).
Proof. intros P L M V. apply (wf_ref B); [apply leaf_wf; assumption | exact M]. Qed.

(** A branch with one child and a value, and one with two children. *)
Lemma branch1_wf B i n v : nibble i -> (0 < B)%nat -> wf (B - 1) n -> value_ok v -> wf B (MPT_NODE_BRANCH None (set_child null_children i (mkref n)) (Some v)).
Proof.
  intros I P W V. apply wf_branch_iff. split; [apply children_set; auto using children_null|]. split; [intros ? [= <-]; exact V|].
  unfold entries. rewrite count_add, count_null by (reflexivity || assumption || apply child_null). lia.
Qed.

Lemma branch2_wf B i n j m : nibble i -> nibble j -> i <> j -> (0 < B)%nat -> wf (B - 1) n -> wf (B - 1) m ->
  wf B (MPT_NODE_BRANCH None (set_child (set_child null_children i (mkref n)) j (mkref m)) None).
Proof.
  intros I J N P W W'. apply wf_branch_iff. split; [auto using children_set, children_null|]. split; [discriminate|].
  assert (E : child_at (set_child null_children i (mkref n)) j = node_ref_null).
  { rewrite child_set, child_null, (proj2 (Z.eqb_neq i j) N) by (reflexivity || assumption). reflexivity. }
  unfold entries. rewrite count_add, count_add, count_null by (exact J || exact I || exact E || apply child_null || (rewrite ?length_set; reflexivity)). lia.
Qed.

Lemma has_branch1 i n w k v : nibble i -> has (MPT_NODE_BRANCH None (set_child null_children i (mkref n)) w) k v <->
  match k with [] => w = Some v | j :: k' => j = i /\ has n k' v end.
Proof.
  intros I. rewrite has_set by (reflexivity || exact I). destruct k as [|j k]; [reflexivity|].
  destruct (Z.eqb_spec i j) as [<-|N]; [tauto|]. rewrite has_null_branch. split; [intros [[=] _] | intros [-> _]; contradiction].
Qed.

Lemma has_branch2 i n j m w k v : nibble i -> nibble j -> i <> j ->
  has (MPT_NODE_BRANCH None (set_child (set_child null_children i (mkref n)) j (mkref m)) w) k v <->
  match k with [] => w = Some v | x :: k' => x = i /\ has n k' v \/ x = j /\ has m k' v end.
Proof.
  intros I J N. rewrite has_set by (rewrite ?length_set; reflexivity || assumption). destruct k as [|x k]; [reflexivity|].
  destruct (Z.eqb_spec j x) as [<-|N']; [split; [tauto | intros [[E _]|[_ H]]; [congruence | exact H]]|]. rewrite has_branch1 by exact I. split; [tauto | intros [H|[E _]]; [exact H | congruence]].
Qed.

Section Insert.
Variable value : list Z.
Hypothesis value_wf : value_ok value.

Lemma path_tail (x : Z) p : (length (x :: p) <= KEY_MAX)%nat -> nibbles_slice (x :: p) 1 SIZE_MAX = p.
Proof. intros L. rewrite slice_key by exact L. reflexivity. Qed.

(** The rest of an extension as a reference. *)
Lemma rest_ref B x p m : (B <= KEY_MAX)%nat -> nibbles_ok (x :: p) -> (length (x :: p) <= B)%nat -> mpt_node_is_branch m = true -> wf (B - length (x :: p)) m ->
  (if nlen (x :: p) >? 1 then mpt_node_ref keccak256 (mpt_node_extension (nibbles_slice (x :: p) 1 SIZE_MAX) (mkref m)) else inl (mkref m)) =
    inl (mkref (ext_rest p m)) /\ wf (B - 1) (ext_rest p m).
Proof.
  intros M P L N W. inversion P as [|? ? X P']; subst. cbn [length] in *.
  assert (W' : wf (B - 1) (ext_rest p m)) by (apply ext_rest_wf; [exact P' | lia | exact N | replace (B - 1 - length p)%nat with (B - S (length p))%nat by lia; exact W]).
  split; [|exact W']. rewrite path_tail by (cbn [length]; lia). unfold nlen. cbn [length]. destruct p as [|y p]; [reflexivity|]. cbn [length].
  destruct (Z.gtb_spec (Z.of_nat (S (S (length p)))) 1); [|lia]. apply (wf_ref (B - 1)); [exact W' | lia].
Qed.

Lemma insert_here_spec B n : wf B n -> (B <= KEY_MAX)%nat ->
  exists n', insert_here keccak256 n value = inl n' /\ wf B n' /\ updated (has n) [] value n'.
Proof.
  intros W M. destruct n as [c|c p w|c p r|c cs w]; cbn [insert_here]; rewrite ?(copy_value_ok value value_wf).
  - inversion W.
  - apply wf_leaf_iff in W as (v & -> & P & L & V). destruct p as [|x p].
    + eexists. split; [reflexivity|]. split; [constructor; assumption|]. intros k' v'. rewrite !has_leaf_iff. split; [intros [-> [= ->]]; auto|].
      intros [[-> ->]|[N [-> _]]]; [auto | contradiction].
    + inversion P as [|? ? X P']; subst. cbn [length] in L. rewrite path_tail by (cbn [length]; lia). rewrite (leaf_ref (B - 1)) by (assumption || lia).
      eexists. split; [reflexivity|]. split; [apply branch1_wf; [exact X | lia | apply leaf_wf; assumption || lia | exact value_wf]|].
      intros k' v'. rewrite has_branch1, has_leaf_iff by exact X. destruct k' as [|j k'].
      * split; [intros [= ->]; auto | intros [[_ ->]|[N _]]; [reflexivity | contradiction]].
      * unfold mpt_node_leaf. rewrite has_leaf_iff. split; [intros (-> & -> & E); right; split; [discriminate | auto] | intros [[[=] _]|[_ [[= -> ->] E]]]; auto].
  - apply wf_ext_iff in W as (m & -> & P & L & N & W). destruct p as [|x p]; [cbn in L; lia|]. destruct (rest_ref B x p m M P ltac:(lia) N W) as [-> W'].
    inversion P as [|? ? X P']; subst. eexists. split; [reflexivity|]. split; [apply branch1_wf; [exact X | lia | exact W' | exact value_wf]|].
    intros k' v'. rewrite has_branch1, has_ext_iff by exact X. destruct k' as [|j k'].
    + split; [intros [= ->]; auto | intros [[_ ->]|[F _]]; [reflexivity | contradiction]].
    + rewrite ext_rest_has. split.
      * intros (-> & k2 & -> & H). right. split; [discriminate|]. exists m, k2. auto.
      * intros [[[=] _]|(_ & m' & k2 & [= <-] & [= -> ->] & H)]. eauto.
  - apply wf_branch_iff in W as (C & V & E). eexists. split; [reflexivity|]. split.
    + apply wf_branch_iff. split; [exact C|]. split; [intros ? [= <-]; exact value_wf|]. unfold entries in *. destruct w; lia.
    + intros k' v'. rewrite !has_branch_iff. destruct k' as [|j k'].
      * split; [intros [= ->]; auto | intros [[_ ->]|[F _]]; [reflexivity | contradiction]].
      * split; [intros H; right; split; [discriminate | exact H] | intros [[[=] _]|[_ H]]; exact H].
Qed.

(** ** Splitting a leaf *)

Lemma split_leaf_spec B a p' k' old key offset : (B <= KEY_MAX)%nat -> (length key <= KEY_MAX)%nat -> skipn offset key = a ++ k' -> (offset <= length key)%nat ->
  nibbles_ok (a ++ p') -> nibbles_ok (a ++ k') -> (length (a ++ p') <= B)%nat -> (length (a ++ k') <= B)%nat -> value_ok old ->
  match p', k' with x :: _, y :: _ => x <> y | [], [] => False | _, _ => True end ->
  exists b, split_leaf keccak256 (a ++ p') (Some old) key offset (length a) value = inl b /\ mpt_node_is_branch b = true /\ wf (B - length a) b /\
    updated (fun k v => k = p' /\ v = old) k' value b.
Proof.
  intros M KM K OL P Q LP LQ V D. rewrite length_app in LP, LQ. apply Forall_app in P as [_ P]. apply Forall_app in Q as [_ Q].
  pose proof (length_skipn offset key) as LK. rewrite K, length_app in LK.
  unfold split_leaf. rewrite (copy_value_ok value value_wf). rewrite length_app. destruct p' as [|x p]; destruct k' as [|y k]; cbn [length] in *; try contradiction.
  - rewrite Nat.add_0_r, Nat.ltb_irrefl. cbn [try]. destruct (key_at key offset a y k K) as (Ky & Ks & Kl). rewrite (proj2 (Nat.ltb_lt _ _) Kl), slice_key, Ks, Ky by exact KM.
    inversion Q as [|? ? Y Q']; subst. rewrite (leaf_ref (B - length a - 1)) by (assumption || lia). eexists. split; [reflexivity|]. split; [reflexivity|].
    split; [apply branch1_wf; [exact Y | lia | apply leaf_wf; assumption || lia | exact V]|]. intros k' v'. rewrite has_branch1 by exact Y. destruct k' as [|j k'].
    + split; [intros [= ->]; right; split; [discriminate|auto] | intros [[[=] _]|(_ & _ & ->)]; reflexivity].
    + unfold mpt_node_leaf. rewrite has_leaf_iff. split; [intros (-> & -> & [= ->]); auto | intros [[[= -> ->] ->]|(_ & [=] & _)]; auto].
  - rewrite (proj2 (Nat.ltb_lt _ _)) by lia. destruct (key_at (a ++ x :: p) 0 a x p eq_refl) as (Px & Ps & _). cbn [plus] in Px, Ps. rewrite slice_key, Ps, Px by (rewrite length_app; cbn [length]; lia).
    inversion P as [|? ? X P']; subst. rewrite (leaf_ref (B - length a - 1)) by (assumption || lia). cbn [try].
    rewrite (proj2 (Nat.ltb_ge _ _)) by lia. eexists. split; [reflexivity|]. split; [reflexivity|].
    split; [apply branch1_wf; [exact X | lia | apply leaf_wf; assumption || lia | exact value_wf]|]. intros k' v'. rewrite has_branch1 by exact X. destruct k' as [|j k'].
    + split; [intros [= ->]; auto | intros [[_ ->]|(F & _)]; [reflexivity | contradiction]].
    + unfold mpt_node_leaf. rewrite has_leaf_iff. split; [intros (-> & -> & [= ->]); right; split; [discriminate|auto] | intros [[[=] _]|(_ & [= -> ->] & ->)]; auto].
  - rewrite (proj2 (Nat.ltb_lt _ _)) by lia. destruct (key_at (a ++ x :: p) 0 a x p eq_refl) as (Px & Ps & _). cbn [plus] in Px, Ps. rewrite slice_key, Ps, Px by (rewrite length_app; cbn [length]; lia).
    destruct (key_at key offset a y k K) as (Ky & Ks & Kl). inversion P as [|? ? X P']; subst. inversion Q as [|? ? Y Q']; subst.
    rewrite (leaf_ref (B - length a - 1) p) by (assumption || lia). cbn [try]. rewrite (proj2 (Nat.ltb_lt _ _) Kl), slice_key by exact KM.
    rewrite (leaf_ref (B - length a - 1)) by (assumption || lia). cbn [try]. eexists. split; [reflexivity|]. split; [reflexivity|].
    split; [apply branch2_wf; [assumption..| lia | apply leaf_wf; assumption || lia | apply leaf_wf; assumption || lia]|].
    intros k' v'. rewrite has_branch2 by assumption. destruct k' as [|j k'].
    + split; [discriminate | intros [[[=] _]|(_ & [=] & _)]].
    + unfold mpt_node_leaf. rewrite !has_leaf_iff. split.
      * intros [(-> & -> & [= ->])|(-> & -> & [= ->])]; [right; split; [congruence|auto] | auto].
      * intros [[[= -> ->] ->]|(_ & [= -> ->] & ->)]; auto.
Qed.

(** ** A common prefix in front of a branch *)

Lemma wrap_spec B (a rest : nibbles_t) b : (B <= KEY_MAX)%nat -> (length (a ++ rest) <= KEY_MAX)%nat -> nibbles_ok a -> (length a <= B)%nat ->
  mpt_node_is_branch b = true -> wf (B - length a) b ->
  (if (0 <? length a)%nat then let? r := mpt_node_ref keccak256 b in inl (mpt_node_extension (nibbles_slice (a ++ rest) 0 (Z.of_nat (length a))) r) else inl b) =
    inl (ext_rest a b) /\ wf B (ext_rest a b).
Proof.
  intros M L A LA N W. split; [|apply ext_rest_wf; assumption]. rewrite slice_front by exact L. destruct a as [|x a]; [reflexivity|].
  cbn [length Nat.ltb Nat.leb ext_rest]. rewrite (wf_ref _ b W) by lia. reflexivity.
Qed.

Lemma wrap_updated P a k v b : updated P k v b -> updated (fun k v => exists k2, k = a ++ k2 /\ P k2 v) (a ++ k) v (ext_rest a b).
Proof.
  intros U k' v'. rewrite ext_rest_has. split.
  - intros (k2 & -> & H). apply U in H as [[-> ->]|[N H]]; [auto|]. right. split; [intros E; apply app_inv_head in E; contradiction | eauto].
  - intros [[-> ->]|(N & k2 & -> & H)]; [exists k; split; [reflexivity | apply U; auto]|]. exists k2. split; [reflexivity|]. apply U. right.
    split; [intros ->; contradiction | exact H].
Qed.

Lemma updated_ext (P Q : nibbles_t -> list Z -> Prop) k v n : (forall k' v', k' <> k -> P k' v' <-> Q k' v') -> updated P k v n -> updated Q k v n.
Proof. intros E U k' v'. rewrite (U k' v'). split; (intros [H|[N H]]; [auto|]; right; split; [exact N | apply E; assumption]). Qed.

Lemma insert_leaf_spec B c p old key offset : (B <= KEY_MAX)%nat -> (length key <= KEY_MAX)%nat -> nibbles_ok key -> (offset <= length key)%nat ->
  (length (skipn offset key) <= B)%nat -> wf B (MPT_NODE_LEAF c p old) ->
  exists n', insert_leaf keccak256 p old key offset value = inl n' /\ wf B n' /\ updated (has (MPT_NODE_LEAF c p old)) (skipn offset key) value n'.
Proof.
  intros M KM Q OL LK W. apply wf_leaf_iff in W as (v & -> & P & L & V). unfold insert_leaf, find_divergence.
  destruct (prefix_split p (skipn offset key)) as (a & p' & k' & E1 & E2 & LA & D). rewrite <- LA. cbv zeta. pose proof (length_skipn offset key) as LS.
  assert (QS : nibbles_ok (skipn offset key)) by apply Forall_skipn, Q. rewrite E2 in *. subst p. rewrite !length_app in *.
  destruct (Nat.eqb_spec (length a) (length a + length p')) as [Ea|Na]; destruct (Nat.eqb_spec (offset + length a) (length key)) as [Ek|Nk]; cbn [andb].
  1:{ assert (p' = []) as -> by (destruct p'; [reflexivity|cbn in Ea; lia]). assert (k' = []) as -> by (destruct k'; [reflexivity|cbn in *; lia]).
      rewrite app_nil_r in *. rewrite (copy_value_ok value value_wf). eexists. split; [reflexivity|]. split; [apply wf_leaf; [exact P | lia | exact value_wf]|].
      intros k' v'. rewrite !has_leaf_iff. split; [intros [-> [= ->]]; auto | intros [[-> ->]|(F & -> & _)]; [auto | contradiction]]. }
  all: destruct (split_leaf_spec B a p' k' v key offset M KM E2 OL P QS ltac:(rewrite length_app; lia) ltac:(rewrite length_app; lia) V) as (b & Sb & Nb & Wb & Ub);
    [destruct p', k'; cbn [length] in *; try lia; exact D || exact I|]; rewrite Sb; cbn [try];
    destruct (wrap_spec B a p' b M ltac:(rewrite length_app; lia) ltac:(apply Forall_app in P; apply P) ltac:(lia) Nb Wb) as [-> W'];
    (eexists; split; [reflexivity|]; split; [exact W'|]; eapply updated_ext; [|exact (wrap_updated _ a k' value b Ub)];
     intros k2 v2 _; rewrite has_leaf_iff; split; [intros (k3 & -> & -> & ->); auto | intros [-> [= ->]]; eauto]).
Qed.

Lemma split_extension_spec B c a x p m key offset k' : (B <= KEY_MAX)%nat -> (length key <= KEY_MAX)%nat -> nibbles_ok key -> (offset <= length key)%nat ->
  skipn offset key = a ++ k' -> (length (a ++ k') <= B)%nat -> match k' with y :: _ => x <> y | [] => True end ->
  wf B (MPT_NODE_EXTENSION c (a ++ x :: p) (mkref m)) ->
  exists n', split_extension keccak256 (a ++ x :: p) (mkref m) key offset (length a) value = inl n' /\ wf B n' /\
    updated (has (MPT_NODE_EXTENSION c (a ++ x :: p) (mkref m))) (a ++ k') value n'.
Proof.
  intros M KM Q OL K LK D W. apply wf_ext_iff in W as (m' & Em & P & L & N & W). apply mkref_inj in Em. subst m'.
  pose proof (length_skipn offset key) as LS. assert (QS : nibbles_ok (skipn offset key)) by apply Forall_skipn, Q. rewrite K in *. rewrite !length_app in *. cbn [length] in *.
  apply Forall_app in P as [PA P]. apply Forall_app in QS as [_ QS]. inversion P as [|? ? X P']; subst.
  assert (W' : wf (B - length a - 1) (ext_rest p m)).
  { apply ext_rest_wf; [exact P' | lia | exact N |]. replace (B - length a - 1 - length p)%nat with (B - (length a + S (length p)))%nat by lia. exact W. }
  unfold split_extension. rewrite (copy_value_ok value value_wf), length_app. cbn [length].
  destruct (key_at (a ++ x :: p) 0 a x p eq_refl) as (Px & Ps & _). cbn [plus] in Px, Ps. rewrite slice_key, Ps, Px by (rewrite length_app; cbn [length]; lia).
  assert (R : (if (length a + 1 <? length a + S (length p))%nat then mpt_node_ref keccak256 (mpt_node_extension p (mkref m)) else inl (mkref m)) = inl (mkref (ext_rest p m))).
  { destruct p as [|z p]; cbn [length ext_rest] in *; [rewrite (proj2 (Nat.ltb_ge _ _)) by lia; reflexivity|]. rewrite (proj2 (Nat.ltb_lt _ _)) by lia. apply (wf_ref _ _ W'). lia. }
  rewrite R. cbn [try].
  assert (G : exists b, (if (offset + length a <? length key)%nat then
      let? r := mpt_node_ref keccak256 (mpt_node_leaf (nibbles_slice key (offset + length a + 1) SIZE_MAX) (Some value)) in
      inl (MPT_NODE_BRANCH None (set_child (set_child null_children x (mkref (ext_rest p m))) (aget key (offset + length a)) r) None)
    else inl (MPT_NODE_BRANCH None (set_child null_children x (mkref (ext_rest p m))) (Some value))) = inl b /\
    mpt_node_is_branch b = true /\ wf (B - length a) b /\ updated (fun k v => exists k2, k = x :: p ++ k2 /\ has m k2 v) k' value b).
  { destruct k' as [|y k]; cbn [length] in *.
    - rewrite (proj2 (Nat.ltb_ge _ _)) by lia. eexists. split; [reflexivity|]. split; [reflexivity|]. split; [apply branch1_wf; [exact X | lia | exact W' | exact value_wf]|].
      intros k' v'. rewrite has_branch1 by exact X. destruct k' as [|j k'].
      + split; [intros [= ->]; auto | intros [[_ ->]|(F & _)]; [reflexivity | contradiction]].
      + rewrite ext_rest_has. split; [intros (-> & k2 & -> & H); right; split; [discriminate | eauto] | intros [[[=] _]|(_ & k2 & [= -> ->] & H)]; eauto].
    - destruct (key_at key offset a y k K) as (Ky & Ks & Kl). rewrite (proj2 (Nat.ltb_lt _ _) Kl), slice_key, Ks, Ky by exact KM. inversion QS as [|? ? Y Q']; subst.
      rewrite (leaf_ref (B - length a - 1)) by (assumption || lia). cbn [try]. eexists. split; [reflexivity|]. split; [reflexivity|].
      split; [apply branch2_wf; [assumption..| lia | exact W' | apply leaf_wf; assumption || lia]|].
      intros k' v'. rewrite has_branch2 by assumption. destruct k' as [|j k'].
      + split; [discriminate | intros [[[=] _]|(_ & k2 & [=] & _)]].
      + unfold mpt_node_leaf. rewrite ext_rest_has, has_leaf_iff. split.
        * intros [(-> & k2 & -> & H)|(-> & -> & [= ->])]; [right; split; [congruence | eauto] | auto].
        * intros [[[= -> ->] ->]|(_ & k2 & [= -> ->] & H)]; [auto | left; eauto]. }
  destruct G as (b & -> & Nb & Wb & Ub). cbn [try].
  destruct (wrap_spec B a (x :: p) b M ltac:(rewrite length_app; cbn [length]; lia) PA ltac:(lia) Nb Wb) as [-> Wn].
  eexists. split; [reflexivity|]. split; [exact Wn|]. eapply updated_ext; [|exact (wrap_updated _ a k' value b Ub)].
  intros k2 v2 _. rewrite has_ext_iff. split.
  - intros (k3 & -> & k4 & -> & H). exists m, k4. rewrite <- app_assoc. auto.
  - intros (n & k3 & [= <-] & -> & H). exists (x :: p ++ k3). rewrite <- app_assoc. split; [reflexivity | eauto].
Qed.

Lemma skipn_past_prefix (key : nibbles_t) offset a k' : skipn offset key = a ++ k' -> skipn (offset + length a) key = k'.
Proof. intros E. rewrite Nat.add_comm, <- skipn_skipn, E, skipn_app, skipn_all, Nat.sub_diag. reflexivity. Qed.

Lemma skipn_le (key : nibbles_t) offset a k' : skipn offset key = a ++ k' -> (offset <= length key)%nat -> (offset + length a <= length key)%nat.
Proof. intros E L. pose proof (length_skipn offset key) as S. rewrite E, length_app in S. lia. Qed.

(** Insertion below an extension and below a branch. *)
Lemma below_extension c p n n' k v : updated (has n) k v n' ->
  updated (has (MPT_NODE_EXTENSION c p (mkref n))) (p ++ k) v (MPT_NODE_EXTENSION None p (mkref n')).
Proof.
  intros U k' v'. rewrite !has_ext_iff. split.
  - intros (m & k2 & [= <-] & -> & H). apply U in H as [[-> ->]|[N H]]; [auto|]. right. split; [intros E; apply app_inv_head in E; contradiction | exists n, k2; auto].
  - intros [[-> ->]|(N & m & k2 & [= <-] & -> & H)]; exists n'; [exists k | exists k2]; (split; [reflexivity|]; split; [reflexivity|]; apply U); [auto|].
    right. split; [intros ->; contradiction | exact H].
Qed.

Lemma below_branch c cs w y n' k v : length cs = 16%nat -> nibble y ->
  (forall k' v', has n' k' v' <-> (k' = k /\ v' = v) \/ (k' <> k /\ has (MPT_NODE_BRANCH c cs w) (y :: k') v')) ->
  updated (has (MPT_NODE_BRANCH c cs w)) (y :: k) v (MPT_NODE_BRANCH None (set_child cs y (mkref n')) w).
Proof.
  intros L Y U k' v'. rewrite has_set by assumption. destruct k' as [|j k'].
  - rewrite has_branch_iff. split; [intros ->; right; split; [discriminate|reflexivity] | intros [[[=] _]|[_ H]]; exact H].
  - destruct (Z.eqb_spec y j) as [<-|N].
    + rewrite U. split; (intros [[E ->]|[F H]]; [left; split; congruence | right; split; congruence]).
    + split; [intros H; right; split; [congruence|] | intros [[[= -> _] _]|[_ H]]; [contradiction|]]; rewrite has_branch_iff in *; exact H.
Qed.

Lemma insert_spec fuel : forall B n key offset, (length (skipn offset key) < fuel)%nat -> (B <= KEY_MAX)%nat -> (length key <= KEY_MAX)%nat -> nibbles_ok key ->
  (offset <= length key)%nat -> (length (skipn offset key) <= B)%nat -> wf B n ->
  exists n', insert_recursive keccak256 fuel (Some n) key offset value = inl n' /\ wf B n' /\ updated (has n) (skipn offset key) value n' /\
    (mpt_node_is_branch n = true -> mpt_node_is_branch n' = true).
Proof.
  induction fuel as [|fuel IH]; intros B n key offset F M KM Q OL LK W; [lia|].
  assert (IR : insert_recursive keccak256 (S fuel) (Some n) key offset value =
    if (length key <=? offset)%nat then insert_here keccak256 n value else
      match n with
      | MPT_NODE_EMPTY _ => inl n
      | MPT_NODE_LEAF _ path old => insert_leaf keccak256 path old key offset value
      | _ => insert_recursive keccak256 (S fuel) (Some n) key offset value
      end) by (destruct n; [inversion W|..]; cbn [insert_recursive]; destruct (length key <=? offset)%nat; reflexivity).
  rewrite IR. clear IR. destruct (Nat.leb_spec (length key) offset) as [E|E].
  { assert (skipn offset key = []) as -> by (apply skipn_all2; lia). destruct (insert_here_spec B n W M) as (n' & H & W' & U). exists n'. split; [exact H|].
    split; [exact W'|]. split; [exact U|]. intros Nb. destruct n; try discriminate. cbn [insert_here] in H. injection H as <-. reflexivity. }
  destruct n as [c|c p old|c p r|c cs w].
  - inversion W.
  - destruct (insert_leaf_spec B c p old key offset M KM Q OL LK W) as (n' & H & W' & U). exists n'. split; [exact H|]. split; [exact W'|]. split; [exact U | discriminate].
  - cbn [insert_recursive]. rewrite (proj2 (Nat.leb_gt _ _) E). unfold find_divergence. destruct (Nat.eqb_spec (nibbles_common_prefix p (skipn offset key)) (length p)) as [D|D].
    + destruct (prefix_full _ _ D) as [k' K]. rewrite D. apply wf_ext_iff in W as (n & -> & P & L & N & W). cbn [ref_node mkref].
      pose proof (skipn_past_prefix key offset p k' K) as K'. pose proof (skipn_le key offset p k' K OL). rewrite K, length_app in F, LK.
      destruct (IH (B - length p)%nat n key (offset + length p)%nat) as (n' & H1 & W1 & U1 & N1); [rewrite K'; lia | lia | exact KM | exact Q | lia | rewrite K'; lia | exact W|].
      rewrite H1. cbn [try]. rewrite (wf_ref _ n' W1) by lia. cbn [try]. eexists. split; [reflexivity|]. rewrite K' in U1. rewrite K.
      split; [apply wf_extension; [exact P | lia | exact (N1 N) | exact W1]|]. split; [apply below_extension, U1 | discriminate].
    + destruct (prefix_split p (skipn offset key)) as (a & p' & k' & E1 & E2 & LA & Dv). rewrite <- LA in *. destruct p' as [|x p'].
      { rewrite app_nil_r in E1. subst a. contradiction. }
      pose proof W as W0. apply wf_ext_iff in W0 as (n & -> & _). subst p. rewrite E2 in *.
      destruct (split_extension_spec B c a x p' n key offset k' M KM Q OL E2 LK ltac:(destruct k'; auto) W) as (n' & H1 & W1 & U1).
      exists n'. split; [exact H1|]. split; [exact W1|]. split; [exact U1 | discriminate].
  - cbn [insert_recursive]. rewrite (proj2 (Nat.leb_gt _ _) E). apply wf_branch_iff in W as (C & V & En). pose proof (co_length _ _ C) as LC.
    destruct (skipn offset key) as [|y k1] eqn:K; [pose proof (length_skipn offset key) as LS; rewrite K in LS; cbn in LS; lia|].
    destruct (key_at key offset [] y k1 K) as (Ky & Ks & _). cbn [length] in Ky, Ks, F, LK. rewrite Nat.add_0_r in Ky, Ks. rewrite Ky.
    assert (Y : nibble y /\ nibbles_ok k1) by (assert (X : nibbles_ok (y :: k1)) by (rewrite <- K; apply Forall_skipn, Q); inversion X; auto). destruct Y as [Y Y1].
    destruct (child_cases B cs y C Y) as [Ec|(n & Ec & PB & Wn)]; rewrite Ec.
    + change (node_ref_is_null node_ref_null) with true. cbv iota. rewrite slice_key, Ks, (copy_value_ok value value_wf) by exact KM.
      rewrite (leaf_ref (B - 1)) by (assumption || lia). cbn [try]. eexists. split; [reflexivity|]. split; [|split; [|reflexivity]].
      * apply wf_branch_iff. split; [apply children_set; [exact C | lia | apply leaf_wf; assumption || lia]|]. split; [exact V|]. unfold entries in *. rewrite count_add by assumption. lia.
      * apply below_branch; [exact LC | exact Y|]. intros k' v'. unfold mpt_node_leaf. rewrite has_leaf_iff, has_branch_iff, Ec.
        split; [intros [-> [= ->]]; auto | intros [[-> ->]|(_ & _ & m & [=] & _)]; auto].
    + change (node_ref_is_null (mkref n)) with false. cbv iota. cbn [ref_node mkref].
      destruct (IH (B - 1)%nat n key (offset + 1)%nat) as (n' & H1 & W1 & U1 & N1); [rewrite Ks; lia | lia | exact KM | exact Q | lia | rewrite Ks; lia | exact Wn|].
      rewrite H1. cbn [try]. rewrite (wf_ref _ n' W1) by lia. cbn [try]. eexists. split; [reflexivity|]. split; [|split; [|reflexivity]].
      * apply wf_branch_iff. split; [apply children_set; assumption|]. split; [exact V|]. unfold entries in *. rewrite (count_keep cs y n' n) by assumption. lia.
      * apply below_branch; [exact LC | exact Y|]. rewrite Ks in U1. intros k' v'. rewrite (U1 k' v'), has_branch_iff, Ec. cbn [ref_node mkref].
        split; (intros [H|[Nk H]]; [auto | right; split; [exact Nk|]]); [split; [exact Y | eauto] | destruct H as (_ & m & [= <-] & H); exact H].
Qed.
End Insert.
End Encodings.
