(* ===== verification/TrieMap.v ===== *)
(** Lookup and deletion in the trie, the operations on whole tries, and that
    the root hash depends on the contents only. *)
From Stdlib Require Import ZArith Lia List Bool.
From S2P Require Import Prelude Types Effects Arena Stack Bytes Rlp RlpSpec Account Nibbles Trie TrieSpec.
Import ListNotations.
#[local] Open Scope Z_scope.
#[local] Open Scope word_scope.
#[local] Open Scope trie_scope.

#[local] Abbreviation ref_t := (node_ref_t mpt_node_t).

(** * Comparing a path with the rest of a key *)

Lemma path_matches_spec (p key : nibbles_t) offset : (offset <= length key)%nat -> (length key <= KEY_MAX)%nat ->
  (remaining_len key offset =? nlen p) && path_matches p key offset = true <-> skipn offset key = p.
Proof.
  intros OL KM. unfold remaining_len, nlen, sub64, KEY_MAX in *. rewrite w64_small by (unfold u64; lia). rewrite andb_true_iff, Z.eqb_eq. unfold path_matches. rewrite forallb_forall.
  split.
  - intros [L H]. apply (nth_ext _ _ 0 0); [rewrite length_skipn; lia|]. intros i Hi. rewrite length_skipn in Hi. specialize (H i ltac:(apply in_seq; lia)).
    apply Z.eqb_eq in H. rewrite nth_skipn. symmetry. exact H.
  - intros <-. rewrite length_skipn. split; [lia|]. intros i _. apply Z.eqb_eq. unfold aget. rewrite nth_skipn. reflexivity.
Qed.

Lemma leaf_test (p key : nibbles_t) offset : (offset <= length key)%nat -> (length key <= KEY_MAX)%nat ->
  (remaining_len key offset =? nlen p) && path_matches p key offset = nibbles_equal (skipn offset key) p.
Proof.
  intros OL KM. apply eq_true_iff_eq. rewrite path_matches_spec, nibbles_equal_spec by assumption. reflexivity.
Qed.

Section Map.
Variable keccak256 : list Z -> hash_t.
Hypothesis keccak_wf : forall bs, bytes_ok bs -> wf_hash (keccak256 bs).
#[local] Abbreviation wf := (wf keccak256).
#[local] Abbreviation mkref := (mkref keccak256).
#[local] Abbreviation children_ok := (children_ok keccak256).

(** * Lookup *)

Lemma get_spec fuel : forall B n key offset, (length (skipn offset key) < fuel)%nat -> (length key <= KEY_MAX)%nat -> nibbles_ok key ->
  (offset <= length key)%nat -> wf B n -> exists o, get_loop fuel (Some n) key offset = inl o /\ forall v, o = Some v <-> has n (skipn offset key) v.
Proof.
  induction fuel as [|fuel IH]; intros B n key offset F KM Q OL W; [lia|]. destruct n as [c|c p old|c p r|c cs w]; cbn [get_loop].
  - inversion W.
  - rewrite leaf_test by assumption. apply wf_leaf_iff in W as (v & -> & _). destruct (nibbles_equal (skipn offset key) p) eqn:E.
    + apply nibbles_equal_spec in E. eexists. split; [reflexivity|]. intros v'. rewrite has_leaf_iff. tauto.
    + eexists. split; [reflexivity|]. intros v'. rewrite has_leaf_iff, <- nibbles_equal_spec, E. split; [discriminate | intros [[=] _]].
  - apply wf_ext_iff in W as (n & -> & P & L & N & W). unfold find_divergence. destruct (Nat.eqb_spec (nibbles_common_prefix p (skipn offset key)) (length p)) as [D|D]; cbn [negb].
    + destruct (prefix_full _ _ D) as [k' K]. rewrite D. cbn [ref_node mkref]. pose proof (skipn_past_prefix key offset p k' K) as K'. pose proof (skipn_le key offset p k' K OL).
      rewrite K, length_app in F. destruct (IH (B - length p)%nat n key (offset + length p)%nat) as (o & H1 & U); [rewrite K'; lia | exact KM | exact Q | lia | exact W|].
      exists o. split; [exact H1|]. intros v. rewrite (U v), K', K, has_ext_iff. split; [intros H'; exists n, k'; auto|].
      intros (m & k2 & [= <-] & E%app_inv_head & H'). subst k2. exact H'.
    + eexists. split; [reflexivity|]. intros v. split; [discriminate|]. rewrite has_ext_iff. intros (m & k2 & _ & E & _). rewrite E, prefix_app in D. contradiction.
  - apply wf_branch_iff in W as (C & V & En). destruct (Nat.leb_spec (length key) offset) as [E|E].
    { exists w. split; [reflexivity|]. intros v. rewrite skipn_all2 by lia. rewrite has_branch_iff. reflexivity. }
    destruct (skipn offset key) as [|y k1] eqn:K; [pose proof (length_skipn offset key) as LS; rewrite K in LS; cbn in LS; lia|].
    destruct (key_at key offset [] y k1 K) as (Ky & Ks & _). cbn [length] in Ky, Ks, F. rewrite Nat.add_0_r in Ky, Ks. rewrite Ky.
    assert (Y : nibble y) by (assert (X : nibbles_ok (y :: k1)) by (rewrite <- K; apply Forall_skipn, Q); inversion X; auto).
    destruct (child_cases keccak256 B cs y C Y) as [Ec|(n & Ec & PB & Wn)]; rewrite Ec.
    + change (node_ref_is_null node_ref_null) with true. cbv iota. eexists. split; [reflexivity|]. intros v. rewrite has_branch_iff, Ec. split; [discriminate | intros (_ & m & [=] & _)].
    + change (node_ref_is_null (mkref n)) with false. cbv iota. cbn [ref_node mkref].
      destruct (IH (B - 1)%nat n key (offset + 1)%nat) as (o & H1 & U); [rewrite Ks; lia | exact KM | exact Q | lia | exact Wn|]. exists o. split; [exact H1|].
      intros v. rewrite (U v), Ks, has_branch_iff, Ec. cbn [ref_node mkref]. split; [intros H; split; [exact Y | eauto] | intros (_ & m & [= <-] & H); exact H].
Qed.

(** [mpt_contains] walks as [mpt_get] does. *)
Lemma contains_get fuel : forall B n key offset, wf B n ->
  contains_loop fuel (Some n) key offset = try (get_loop fuel (Some n) key offset) (fun o => inl (match o with Some _ => true | None => false end)).
Proof.
  induction fuel as [|fuel IH]; intros B n key offset W; [reflexivity|]. destruct n as [c|c p old|c p r|c cs w]; cbn [get_loop contains_loop].
  - reflexivity.
  - apply wf_leaf_iff in W as (v & -> & _). destruct (_ =? _); cbn [andb negb]; [|reflexivity]. destruct (path_matches _ _ _); reflexivity.
  - apply wf_ext_iff in W as (n & -> & P & L & N & W). destruct (negb _); [reflexivity|]. cbn [ref_node mkref]. eapply IH, W.
  - apply wf_branch_iff in W as (C & V & En). destruct (_ <=? _)%nat; [reflexivity|]. unfold child_at. destruct (nth_in_or_default (Z.to_nat (aget key offset)) cs node_ref_null) as [Hin|E0]; [|rewrite E0; reflexivity].
    pose proof (co_refs _ _ _ C) as R. rewrite Forall_forall in R. destruct (R _ Hin) as [->|[n En']]; [reflexivity|]. rewrite En' in *.
    change (node_ref_is_null (mkref n)) with false. cbn [ref_node mkref]. eapply IH, (co_wf _ _ _ C n Hin).
Qed.

(** * Counting children *)

Lemma count_zero (l : list ref_t) : mpt_branch_child_count l = 0%nat -> forall i, node_ref_is_null (nth i l node_ref_null) = true.
Proof.
  unfold mpt_branch_child_count. induction l as [|r l IH]; intros C [|i]; try reflexivity; cbn [filter] in C; destruct (node_ref_is_null r) eqn:E; cbn [negb length] in C; try lia.
  - exact E.
  - apply IH, C.
Qed.

Lemma single_found l : forall i j, find_single_from l i (Some j) = if (mpt_branch_child_count l =? 0)%nat then Some j else None.
Proof.
  unfold mpt_branch_child_count. induction l as [|r l IH]; intros i j; [reflexivity|]. cbn [find_single_from filter]. destruct (node_ref_is_null r); [apply IH | reflexivity].
Qed.

Lemma single_from l : forall i, match find_single_from l i None with
  | Some j => exists m, j = i + Z.of_nat m /\ (m < length l)%nat /\ mpt_branch_child_count l = 1%nat /\ node_ref_is_null (nth m l node_ref_null) = false
  | None => mpt_branch_child_count l <> 1%nat
  end.
Proof.
  induction l as [|r l IH]; intros i; [discriminate|]. cbn [find_single_from]. unfold mpt_branch_child_count in *. cbn [filter]. destruct (node_ref_is_null r) eqn:E; cbn [negb].
  - specialize (IH (i + 1)). destruct (find_single_from l (i + 1) None) as [j|]; [|exact IH]. destruct IH as (m & -> & L & C & N).
    exists (S m). cbn [length nth]. split; [lia|]. split; [lia|]. auto.
  - rewrite single_found. unfold mpt_branch_child_count. destruct (Nat.eqb_spec (length (filter (fun r => negb (node_ref_is_null r)) l)) 0) as [C|C].
    + exists 0%nat. cbn [length nth]. split; [lia|]. split; [lia|]. split; [lia | exact E].
    + cbn [length]. lia.
Qed.

Lemma null_is_null B cs i : children_ok B cs -> nibble i -> node_ref_is_null (child_at cs i) = true -> child_at cs i = node_ref_null.
Proof. intros C I E. destruct (child_cases keccak256 B cs i C I) as [H|(n & H & _)]; [exact H|]. rewrite H in E. discriminate. Qed.

Lemma single_child B cs : children_ok B cs -> match find_single_child cs with
  | Some j => nibble j /\ mpt_branch_child_count cs = 1%nat /\ exists n, child_at cs j = mkref n /\ (0 < B)%nat /\ wf (B - 1) n /\
      forall w k v, has (MPT_NODE_BRANCH None cs w) k v <-> match k with [] => w = Some v | i :: k' => i = j /\ has n k' v end
  | None => mpt_branch_child_count cs <> 1%nat
  end.
Proof.
  intros C. pose proof (single_from cs 0) as S. unfold find_single_child. destruct (find_single_from cs 0 None) as [j|]; [|exact S]. destruct S as (m & -> & L & Cn & N).
  pose proof (co_length _ _ _ C) as LC. assert (J : nibble (0 + Z.of_nat m)) by (unfold nibble; lia). split; [exact J|]. split; [exact Cn|]. cbn [Z.add] in *.
  assert (Em : nth m cs node_ref_null = child_at cs (Z.of_nat m)) by (unfold child_at; rewrite Nat2Z.id; reflexivity). rewrite Em in N.
  destruct (child_cases keccak256 B cs _ C J) as [Ec|(n & Ec & PB & Wn)]; [rewrite Ec in N; discriminate|]. exists n. split; [exact Ec|]. split; [exact PB|]. split; [exact Wn|].
  intros w k v. rewrite has_branch_iff. destruct k as [|i k]; [reflexivity|]. split.
  - intros (I & n' & R & H). destruct (Z.eq_dec i (Z.of_nat m)) as [->|Ni]; [rewrite Ec in R; injection R as <-; auto|]. exfalso.
    pose proof (count_clear keccak256 cs (Z.of_nat m) n LC J Ec) as Cc. rewrite Cn in Cc. injection Cc as Cc. pose proof (count_zero _ Cc (Z.to_nat i)) as Z0.
    change (node_ref_is_null (child_at (set_child cs (Z.of_nat m) node_ref_null) i) = true) in Z0. rewrite child_set, (proj2 (Z.eqb_neq _ _) (not_eq_sym Ni)) in Z0 by assumption.
    apply (null_is_null B cs i C I) in Z0. rewrite Z0 in R. discriminate.
  - intros [-> H]. split; [exact J|]. exists n. rewrite Ec. auto.
Qed.

(** A branch with no children holds its value only. *)
Lemma no_children B cs w k v : children_ok B cs -> mpt_branch_child_count cs = 0%nat -> has (MPT_NODE_BRANCH None cs w) k v <-> k = [] /\ w = Some v.
Proof.
  intros C Z0. rewrite has_branch_iff. destruct k as [|i k]; [tauto|]. split; [|intros [[=] _]]. intros (I & n & R & _).
  pose proof (null_is_null B cs i C I (count_zero _ Z0 _)) as E. rewrite E in R. discriminate.
Qed.

(** * Deletion *)

Lemma collapse_spec B cs w : children_ok B cs -> (forall v, w = Some v -> value_ok v) -> (1 <= entries cs w)%nat -> (B <= KEY_MAX)%nat ->
  exists n', collapse_branch keccak256 cs w = inl n' /\ wf B n' /\ forall k v, has n' k v <-> has (MPT_NODE_BRANCH None cs w) k v.
Proof.
  intros C V En M. unfold collapse_branch, entries in *. pose proof (single_child B cs C) as S.
  assert (Keep : (2 <= entries cs w)%nat -> wf B (MPT_NODE_BRANCH None cs w)) by (intros E2; apply wf_branch_iff; auto).
  unfold entries in Keep. destruct (find_single_child cs) as [j|].
  - destruct S as (J & Cn & n & Ec & PB & Wn & H). destruct w as [v|]; [eexists; split; [reflexivity|]; split; [apply Keep; lia | reflexivity]|].
    rewrite Ec. cbn [ref_node mkref]. destruct n as [c|c p o|c p r|c cs' o].
    + inversion Wn.
    + apply wf_leaf_iff in Wn as (v & -> & P & L & Vv). rewrite concat3_small by (unfold nlen, KEY_MAX, DIV0_ARENA_BLOCK_SIZE in *; lia). eexists. split; [reflexivity|].
      split; [apply wf_leaf; [constructor; assumption | cbn [length]; lia | exact Vv]|]. intros k v'. rewrite H. unfold mpt_node_leaf. rewrite has_leaf_iff. destruct k as [|i k].
      * split; [intros [[=] _] | discriminate].
      * rewrite has_leaf_iff. split; [intros [[= -> ->] E]; auto | intros (-> & -> & E); auto].
    + apply wf_ext_iff in Wn as (n & -> & P & L & N & Wn). rewrite concat3_small by (unfold nlen, KEY_MAX, DIV0_ARENA_BLOCK_SIZE in *; lia). eexists. split; [reflexivity|].
      split; [apply wf_extension; [constructor; assumption | cbn [length]; lia | exact N | cbn [length]; replace (B - Datatypes.S (length p))%nat with (B - 1 - length p)%nat by lia; exact Wn]|].
      intros k v'. rewrite H. unfold mpt_node_extension. rewrite has_ext_iff. destruct k as [|i k].
      * split; [intros (m & k' & _ & [=] & _) | discriminate].
      * rewrite has_ext_iff. split; [intros (m & k' & E & [= -> ->] & H'); eauto 6 | intros (-> & m & k' & E & -> & H'); exists m, k'; auto].
    + rewrite (wf_ref keccak256 keccak_wf (B - 1) _ Wn) by lia. cbn [try]. eexists. split; [reflexivity|].
      split; [apply wf_extension; [constructor; [exact J | constructor] | cbn [length]; lia | reflexivity | exact Wn]|].
      intros k v'. rewrite H. unfold mpt_node_extension. rewrite has_ext_iff. destruct k as [|i k].
      * split; [intros (m & k' & _ & [=] & _) | discriminate].
      * split; [intros (m & k' & [= <-] & [= -> ->] & H'); auto | intros (-> & H'); eexists _, k; split; [reflexivity | auto]].
  - destruct w as [v|]; [|eexists; split; [reflexivity|]; split; [apply Keep; lia | reflexivity]]. destruct (Nat.eqb_spec (mpt_branch_child_count cs) 0) as [C0|C0].
    + eexists. split; [reflexivity|]. split; [apply wf_leaf; [constructor | cbn; lia | auto]|]. intros k v'. rewrite (no_children B cs _ k v' C C0). unfold mpt_node_leaf. apply has_leaf_iff.
    + eexists. split; [reflexivity|]. split; [apply Keep; lia | reflexivity].
Qed.

(** The contents of [n'] are those of [n] without the key [k]. *)
Definition removed (n : mpt_node_t) (k : nibbles_t) (n' : mpt_node_t) : Prop := forall k' v', has n' k' v' <-> k' <> k /\ has n k' v'.

Definition deleted (B : nat) (n : mpt_node_t) (k : nibbles_t) (r : delete_result_t * option mpt_node_t) : Prop :=
  match r with
  | (DELETE_NOT_FOUND, o) => o = Some n /\ forall v, ~ has n k v
  | (DELETE_REMOVED, None) => (exists v, has n k v) /\ forall k' v', has n k' v' -> k' = k
  | (DELETE_UPDATED, Some n') => (exists v, has n k v) /\ wf B n' /\ removed n k n'
  | _ => False
  end.

Lemma merge_spec B p n c : nibbles_ok p -> (0 < length p <= B)%nat -> (B <= KEY_MAX)%nat -> wf (B - length p) n ->
  exists n', merge_extension keccak256 p n = inl n' /\ wf B n' /\ forall k v, has n' k v <-> has (MPT_NODE_EXTENSION c p (mkref n)) k v.
Proof.
  intros P L M W. destruct n as [c'|c' q o|c' q r|c' cs o]; cbn [merge_extension].
  - inversion W.
  - apply wf_leaf_iff in W as (v & -> & Q & Lq & V). rewrite concat_small by (unfold nlen, KEY_MAX, DIV0_ARENA_BLOCK_SIZE in *; lia). eexists. split; [reflexivity|].
    split; [apply wf_leaf; [apply Forall_app; split; assumption | rewrite length_app; lia | exact V]|]. intros k v'. unfold mpt_node_leaf. rewrite has_leaf_iff, has_ext_iff. split.
    + intros [-> E]. eexists _, q. split; [reflexivity|]. split; [reflexivity|]. apply has_leaf_iff. auto.
    + intros (m & k' & [= <-] & -> & H). apply has_leaf_iff in H as [-> E]. auto.
  - apply wf_ext_iff in W as (n & -> & Q & Lq & N & W). rewrite concat_small by (unfold nlen, KEY_MAX, DIV0_ARENA_BLOCK_SIZE in *; lia). eexists. split; [reflexivity|]. split.
    + apply wf_extension; [apply Forall_app; split; assumption | rewrite length_app; lia | exact N | rewrite length_app; replace (B - (length p + length q))%nat with (B - length p - length q)%nat by lia; exact W].
    + intros k v. unfold mpt_node_extension. rewrite !has_ext_iff. split.
      * intros (m & k' & [= <-] & -> & H). eexists _, (q ++ k'). split; [reflexivity|]. split; [rewrite app_assoc; reflexivity|]. apply has_ext_iff. exists n, k'. auto.
      * intros (m & k' & [= <-] & -> & H). apply has_ext_iff in H as (m & k2 & E & -> & H). exists m, k2. rewrite app_assoc. auto.
  - rewrite (wf_ref keccak256 keccak_wf _ _ W) by lia. cbn [try]. eexists. split; [reflexivity|]. split; [apply wf_extension; [exact P | lia | reflexivity | exact W]|].
    intros k v. rewrite !has_ext_iff. reflexivity.
Qed.

(** A branch after one of its children was removed or replaced. *)
Lemma branch_deleted B c cs w y n k1 (cs' : list ref_t) : (B <= KEY_MAX)%nat -> children_ok B cs -> (forall v, w = Some v -> value_ok v) -> (2 <= entries cs w)%nat ->
  nibble y -> child_at cs y = mkref n -> (exists v, has n k1 v) ->
  (cs' = set_child cs y node_ref_null /\ (forall k' v', has n k' v' -> k' = k1) \/ exists n', cs' = set_child cs y (mkref n') /\ (0 < B)%nat /\ wf (B - 1) n' /\ removed n k1 n') ->
  exists n', collapse_branch keccak256 cs' w = inl n' /\ deleted B (MPT_NODE_BRANCH c cs w) (y :: k1) (DELETE_UPDATED, Some n').
Proof.
  intros M C V En Y Ec [v0 H0] D. pose proof (co_length _ _ _ C) as LC.
  assert (P : children_ok B cs' /\ (1 <= entries cs' w)%nat /\ removed (MPT_NODE_BRANCH c cs w) (y :: k1) (MPT_NODE_BRANCH None cs' w)).
  { destruct D as [(-> & U)|(n' & -> & PB & W' & U)].
    - split; [apply children_clear, C|]. split; [unfold entries in *; pose proof (count_clear keccak256 cs y n LC Y Ec); lia|].
      intros k' v'. rewrite has_clear by assumption. rewrite !has_branch_iff. destruct k' as [|j k']; [split; [intros [H _]; split; [discriminate | exact H] | intros [_ H]; split; [exact H | discriminate]]|]. split.
      + intros [H N]. split; [|exact H]. intros [= -> ->]. exact (N _ eq_refl).
      + intros [N H]. split; [exact H|]. intros k2 [= -> ->]. destruct H as (_ & m & R & H). rewrite Ec in R. injection R as <-. apply U in H. congruence.
    - split; [apply children_set; assumption|]. split; [unfold entries in *; rewrite (count_keep keccak256 cs y n' n) by assumption; lia|].
      intros k' v'. rewrite has_set by assumption. destruct k' as [|j k']; [rewrite has_branch_iff; split; [intros H; split; [discriminate | exact H] | intros [_ H]; exact H]|].
      destruct (Z.eqb_spec y j) as [<-|N].
      + rewrite (U k' v'), has_branch_iff, Ec. cbn [ref_node mkref]. split; [intros [N H]; split; [congruence | split; [exact Y | eauto]] | intros (N & _ & m & [= <-] & H); split; [congruence | exact H]].
      + rewrite !has_branch_iff. split; [intros H; split; [congruence | exact H] | intros [_ H]; exact H]. }
  destruct P as (C' & E' & R'). destruct (collapse_spec B cs' w C' V E' M) as (n' & Hc & W' & Hh). exists n'. split; [exact Hc|]. split; [|split; [exact W'|]].
  - exists v0. apply has_branch_iff. split; [exact Y|]. exists n. rewrite Ec. auto.
  - intros k' v'. rewrite Hh. apply R'.
Qed.

Lemma delete_spec fuel : forall B n key offset, (length (skipn offset key) < fuel)%nat -> (B <= KEY_MAX)%nat -> (length key <= KEY_MAX)%nat -> nibbles_ok key ->
  (offset <= length key)%nat -> wf B n -> exists r, delete_recursive keccak256 fuel (Some n) key offset = inl r /\ deleted B n (skipn offset key) r.
Proof.
  induction fuel as [|fuel IH]; intros B n key offset F M KM Q OL W; [lia|]. destruct n as [c|c p old|c p r|c cs w]; cbn [delete_recursive].
  - inversion W.
  - apply wf_leaf_iff in W as (v & -> & _). pose proof (leaf_test p key offset OL KM) as T. destruct (remaining_len key offset =? nlen p); cbn [negb andb] in *.
    2:{ eexists. split; [reflexivity|]. split; [reflexivity|]. intros v' H. apply has_leaf_iff in H as [H _]. apply nibbles_equal_spec in H. congruence. }
    destruct (path_matches p key offset); cbn [negb].
    + symmetry in T. apply nibbles_equal_spec in T. eexists. split; [reflexivity|]. rewrite T. split; [exists v; constructor | intros k' v' H; apply has_leaf_iff in H; apply H].
    + eexists. split; [reflexivity|]. split; [reflexivity|]. intros v' H. apply has_leaf_iff in H as [H _]. apply nibbles_equal_spec in H. congruence.
  - apply wf_ext_iff in W as (n & -> & P & L & N & W). unfold find_divergence. destruct (Nat.eqb_spec (nibbles_common_prefix p (skipn offset key)) (length p)) as [D|D]; cbn [negb].
    2:{ eexists. split; [reflexivity|]. split; [reflexivity|]. intros v H. apply has_ext_iff in H as (m & k2 & _ & E & _). rewrite E, prefix_app in D. contradiction. }
    destruct (prefix_full _ _ D) as [k' K]. rewrite D. cbn [ref_node mkref]. pose proof (skipn_past_prefix key offset p k' K) as K'. pose proof (skipn_le key offset p k' K OL).
    rewrite K, length_app in F. destruct (IH (B - length p)%nat n key (offset + length p)%nat) as (r & H1 & U); [rewrite K'; lia | lia | exact KM | exact Q | lia | exact W|].
    rewrite H1. cbn [try]. rewrite K' in U. rewrite K. assert (Up : forall v, has (MPT_NODE_EXTENSION c p (mkref n)) (p ++ k') v <-> has n k' v).
    { intros v. rewrite has_ext_iff. split; [intros (m & k2 & [= <-] & E%app_inv_head & Hm); subst; exact Hm | intros Hm; exists n, k'; auto]. }
    destruct r as [[| |] [n'|]]; cbn [deleted] in U; try contradiction.
    + destruct U as [_ U]. eexists. split; [reflexivity|]. split; [reflexivity|]. intros v Hv. apply Up in Hv. exact (U v Hv).
    + destruct U as [[=] _].
    + destruct U as ([v Hv] & W' & R). destruct (merge_spec B p n' None P L M W') as (m & -> & Wm & Hm). cbn [try]. eexists. split; [reflexivity|].
      split; [exists v; apply Up, Hv|]. split; [exact Wm|]. intros k2 v2. rewrite Hm, !has_ext_iff. split.
      * intros (m' & k3 & [= <-] & -> & H3). apply R in H3 as [N3 H3]. split; [intros E; apply app_inv_head in E; contradiction | exists n, k3; auto].
      * intros (N3 & m' & k3 & [= <-] & -> & H3). exists n', k3. split; [reflexivity|]. split; [reflexivity|]. apply R. split; [intros ->; contradiction | exact H3].
    + destruct U as [[v Hv] U]. eexists. split; [reflexivity|]. split; [exists v; apply Up, Hv|]. intros k2 v2 H2. apply has_ext_iff in H2 as (m & k3 & [= <-] & -> & H3). apply U in H3. congruence.
  - apply wf_branch_iff in W as (C & V & En). destruct (Nat.leb_spec (length key) offset) as [E|E].
    { rewrite skipn_all2 by lia. destruct w as [v|].
      - destruct (collapse_spec B cs None C ltac:(discriminate) ltac:(unfold entries in *; lia) M) as (n' & -> & W' & Hh). cbn [try]. eexists. split; [reflexivity|].
        split; [exists v; constructor|]. split; [exact W'|]. intros k' v'. rewrite Hh, !has_branch_iff. destruct k' as [|j k']; [split; [discriminate | intros [N _]; contradiction]|].
        split; [intros H; split; [discriminate | exact H] | intros [_ H]; exact H].
      - eexists. split; [reflexivity|]. split; [reflexivity|]. intros v H. apply has_branch_iff in H. discriminate. }
    destruct (skipn offset key) as [|y k1] eqn:K; [pose proof (length_skipn offset key) as LS; rewrite K in LS; cbn in LS; lia|].
    destruct (key_at key offset [] y k1 K) as (Ky & Ks & _). cbn [length] in Ky, Ks, F. rewrite Nat.add_0_r in Ky, Ks. rewrite Ky.
    assert (Y : nibble y) by (assert (X : nibbles_ok (y :: k1)) by (rewrite <- K; apply Forall_skipn, Q); inversion X; auto).
    destruct (child_cases keccak256 B cs y C Y) as [Ec|(n & Ec & PB & Wn)]; rewrite Ec.
    + change (node_ref_is_null node_ref_null) with true. cbv iota. eexists. split; [reflexivity|]. split; [reflexivity|]. intros v H. apply has_branch_iff in H as (_ & m & R & _).
      rewrite Ec in R. discriminate.
    + change (node_ref_is_null (mkref n)) with false. cbv iota. cbn [ref_node mkref].
      destruct (IH (B - 1)%nat n key (offset + 1)%nat) as (r & H1 & U); [rewrite Ks; lia | lia | exact KM | exact Q | lia | exact Wn|]. rewrite H1, Ks in *. cbn [try].
      destruct r as [[| |] [n'|]]; cbn [deleted] in U; try contradiction.
      * destruct U as [_ U]. eexists. split; [reflexivity|]. split; [reflexivity|]. intros v H. apply has_branch_iff in H as (_ & m & R & H). rewrite Ec in R. injection R as <-. exact (U v H).
      * destruct U as [[=] _].
      * destruct U as (Ex & W' & R). rewrite (wf_ref keccak256 keccak_wf _ _ W') by lia. cbn [try].
        destruct (branch_deleted B c cs w y n k1 (set_child cs y (mkref n')) M C V En Y Ec Ex ltac:(right; eauto)) as (m & -> & Dm). cbn [try]. eexists. split; [reflexivity | exact Dm].
      * destruct U as [Ex U]. cbn [try].
        destruct (branch_deleted B c cs w y n k1 (set_child cs y node_ref_null) M C V En Y Ec Ex ltac:(left; eauto)) as (m & -> & Dm). cbn [try]. eexists. split; [reflexivity | exact Dm].
Qed.

(** * Contents determine the encoding *)

Lemma all_null_count (l : list ref_t) : (forall i, (i < length l)%nat -> nth i l node_ref_null = node_ref_null) -> mpt_branch_child_count l = 0%nat.
Proof.
  unfold mpt_branch_child_count. induction l as [|r l IH]; intros H; [reflexivity|]. cbn [filter]. pose proof (H 0%nat ltac:(cbn; lia)) as E. cbn [nth] in E. subst r.
  cbn [node_ref_is_null node_ref_null ref_node ref_data negb]. apply IH. intros i L. exact (H (S i) ltac:(cbn; lia)).
Qed.

Lemma children_null_count cs : length cs = 16%nat -> (forall i, nibble i -> child_at cs i = node_ref_null) -> mpt_branch_child_count cs = 0%nat.
Proof.
  intros L H. apply all_null_count. intros i Li. specialize (H (Z.of_nat i) ltac:(unfold nibble; lia)). unfold child_at in H. rewrite Nat2Z.id in H. exact H.
Qed.

Lemma others_null_count cs x : length cs = 16%nat -> (forall i, nibble i -> i <> x -> child_at cs i = node_ref_null) -> (mpt_branch_child_count cs <= 1)%nat.
Proof.
  intros L H. assert (D : nibble x \/ ~ nibble x) by (unfold nibble; lia). destruct D as [X|X].
  - assert (Z0 : mpt_branch_child_count (set_child cs x node_ref_null) = 0%nat).
    { apply children_null_count; [rewrite length_set; exact L|]. intros i I. rewrite child_set by assumption. destruct (Z.eqb_spec x i) as [->|N]; [reflexivity | apply H; auto]. }
    pose proof (count_set cs x node_ref_null L X) as C. rewrite Z0 in C. destruct (node_ref_is_null (child_at cs x)); cbn [node_ref_is_null node_ref_null ref_node ref_data] in C; lia.
  - rewrite children_null_count; [lia | exact L|]. intros i I. apply H; [exact I | intros ->; contradiction].
Qed.

Lemma wf_inhabited B n : wf B n -> exists k v, has n k v.
Proof.
  induction 1 as [B c p v P L V|B c p n P L N H (k & v & IH)|B c cs w L R HB H IH V E].
  - exists p, v. constructor.
  - exists (p ++ k), v. econstructor; [reflexivity | exact IH].
  - destruct w as [v|]; [exists [], v; constructor|]. unfold entries in E.
    assert (D : (exists i n, nibble i /\ child_at cs i = mkref n) \/ forall i, nibble i -> child_at cs i = node_ref_null).
    { assert (G : forall m, (m <= 16)%nat -> (exists i n, nibble i /\ child_at cs i = mkref n) \/ forall i, 0 <= i < Z.of_nat m -> child_at cs i = node_ref_null).
      { induction m as [|m IHm]; intros Lm; [right; lia|]. destruct (IHm ltac:(lia)) as [G|G]; [left; exact G|]. assert (Hin : In (child_at cs (Z.of_nat m)) cs) by (apply nth_In; lia).
        rewrite Forall_forall in R. destruct (R _ Hin) as [E1|[n E1]]; [right|left; exists (Z.of_nat m), n; split; [unfold nibble; lia | exact E1]].
        intros i I. destruct (Z.eq_dec i (Z.of_nat m)) as [->|Ni]; [exact E1 | apply G; lia]. }
      destruct (G 16%nat (le_n _)) as [G'|G']; [left; exact G' | right; exact G']. }
    destruct D as [(i & n & I & Ec)|D]; [|rewrite (children_null_count cs L D) in E; lia].
    assert (Hin : In (mkref n) cs) by (rewrite <- Ec; apply nth_In; unfold nibble in I; lia). destruct (IH n Hin) as (k & v & Hk).
    exists (i :: k), v. econstructor; [exact I | rewrite Ec; reflexivity | exact Hk].
Qed.

(** The keys of a branch have no first nibble in common. *)
Lemma branch_spread B n x : wf B n -> mpt_node_is_branch n = true -> ~ forall k v, has n k v -> exists k', k = x :: k'.
Proof.
  intros W N H. destruct n as [| | |c cs w]; try discriminate. apply wf_branch_iff in W as (C & V & E). unfold entries in E. destruct w as [v|].
  - destruct (H [] v ltac:(constructor)) as [k' [=]].
  - assert (mpt_branch_child_count cs <= 1)%nat; [|lia]. apply (others_null_count cs x (co_length _ _ _ C)). intros i I Ni.
    destruct (child_cases keccak256 B cs i C I) as [Ec|(n & Ec & _ & Wn)]; [exact Ec|]. destruct (wf_inhabited _ n Wn) as (k & v & Hk).
    destruct (H (i :: k) v) as [k' [= E1 _]]; [econstructor; [exact I | rewrite Ec; reflexivity | exact Hk]|]. contradiction.
Qed.

Lemma branch_not_single B n k0 : wf B n -> mpt_node_is_branch n = true -> ~ forall k v, has n k v -> k = k0.
Proof.
  intros W N H. destruct k0 as [|x k0]; [|apply (branch_spread B n x W N); intros k v Hk; rewrite (H k v Hk); eauto].
  destruct n as [| | |c cs w]; try discriminate. apply wf_branch_iff in W as (C & V & E). unfold entries in E.
  rewrite (children_null_count cs (co_length _ _ _ C)) in E; [destruct w; lia|]. intros i I.
  destruct (child_cases keccak256 B cs i C I) as [Ec|(n & Ec & _ & Wn)]; [exact Ec|]. destruct (wf_inhabited _ n Wn) as (k & v & Hk).
  specialize (H (i :: k) v ltac:(econstructor; [exact I | rewrite Ec; reflexivity | exact Hk])). discriminate.
Qed.

Definition same (n m : mpt_node_t) : Prop := forall k v, has n k v <-> has m k v.

Lemma same_sym n m : same n m -> same m n.
Proof. intros S k v. symmetry. apply S. Qed.

Lemma enc_mkref n m : enc_node n = enc_node m -> enc_ref (mkref n) = enc_ref (mkref m).
Proof. intros E. unfold enc_ref, TrieSpec.mkref. cbn [node_ref_is_null ref_node ref_data]. rewrite E. reflexivity. Qed.

(** A leaf is no branch and no extension. *)
Lemma single_leaf B n p : wf B n -> (forall k v, has n k v -> k = p) -> mpt_node_is_leaf n = true.
Proof.
  intros W H. destruct n as [c|c q o|c q r|c cs w]; [inversion W | reflexivity | | exfalso; exact (branch_not_single B _ p W eq_refl H)].
  exfalso. apply wf_ext_iff in W as (m & -> & P & L & N & W). destruct (wf_inhabited _ m W) as (k0 & v0 & H0).
  apply (branch_not_single _ m k0 W N). intros k v Hk.
  assert (E1 : q ++ k = p) by (apply (H _ v); econstructor; [reflexivity | exact Hk]). assert (E2 : q ++ k0 = p) by (apply (H _ v0); econstructor; [reflexivity | exact H0]).
  rewrite <- E2 in E1. apply app_inv_head in E1. exact E1.
Qed.

(** Two extensions with the same contents have the same path. *)
Lemma same_path B B' c p n c' p' n' : wf B (MPT_NODE_EXTENSION c p (mkref n)) -> wf B' (MPT_NODE_EXTENSION c' p' (mkref n')) ->
  same (MPT_NODE_EXTENSION c p (mkref n)) (MPT_NODE_EXTENSION c' p' (mkref n')) -> exists q, p' = p ++ q.
Proof.
  intros W W' S. apply wf_ext_iff in W as (m & E & P & L & N & W). apply mkref_inj in E. subst m. apply wf_ext_iff in W' as (m & E & P' & L' & N' & W'). apply mkref_inj in E. subst m.
  destruct (prefix_split p p') as (a & q & q' & -> & -> & _ & D). destruct q as [|x q]; [exists q'; rewrite app_nil_r; reflexivity|]. exfalso. destruct q' as [|y q'].
  - rewrite app_nil_r in *. apply (branch_spread _ n' x W' N'). intros k v Hk.
    assert (H : has (MPT_NODE_EXTENSION c (a ++ x :: q) (mkref n)) (a ++ k) v) by (apply S; econstructor; [reflexivity | exact Hk]).
    apply has_ext_iff in H as (m & k' & _ & E & _). rewrite <- app_assoc in E. apply app_inv_head in E. exists (q ++ k'). exact E.
  - destruct (wf_inhabited _ n W) as (k & v & Hk).
    assert (H : has (MPT_NODE_EXTENSION c' (a ++ y :: q') (mkref n')) ((a ++ x :: q) ++ k) v) by (apply S; econstructor; [reflexivity | exact Hk]).
    apply has_ext_iff in H as (m & k' & _ & E & _). rewrite <- !app_assoc in E. apply app_inv_head in E. injection E as E _. contradiction.
Qed.

Lemma same_child c p n c' n' : same (MPT_NODE_EXTENSION c p (mkref n)) (MPT_NODE_EXTENSION c' p (mkref n')) -> same n n'.
Proof.
  intros S k v. specialize (S (p ++ k) v). rewrite !has_ext_iff in S. split; intros H.
  - destruct S as [S _]. destruct S as (m & k' & [= <-] & E%app_inv_head & H'); [exists n, k; auto|]. subst k'. exact H'.
  - destruct S as [_ S]. destruct S as (m & k' & [= <-] & E%app_inv_head & H'); [exists n', k; auto|]. subst k'. exact H'.
Qed.

Lemma encoding_canonical B n : wf B n -> forall B' n', wf B' n' -> same n n' -> enc_node n = enc_node n'.
Proof.
  induction 1 as [B c p v P L V|B c p n P L N W IH|B c cs w L R HB W IH V E]; intros B' n' W' S.
  - assert (Lf : mpt_node_is_leaf n' = true) by (apply (single_leaf B' n' p W'); intros k v' Hk; apply S in Hk; apply has_leaf_iff in Hk; apply Hk).
    destruct n' as [|c' p' o| |]; try discriminate. apply wf_leaf_iff in W' as (v' & -> & _). specialize (S p v). rewrite !has_leaf_iff in S.
    destruct S as [S _]. destruct (S ltac:(auto)) as [-> [= ->]]. reflexivity.
  - assert (W0 : wf B (MPT_NODE_EXTENSION c p (mkref n))) by (constructor; assumption). destruct p as [|x p]; [cbn in L; lia|]. destruct n' as [c'|c' p' o|c' p' r|c' cs' w'].
    + inversion W'.
    + exfalso. assert (Lf : mpt_node_is_leaf (MPT_NODE_EXTENSION c (x :: p) (mkref n)) = true); [|discriminate].
      apply (single_leaf B _ p' W0). intros k v Hk. apply S in Hk. apply has_leaf_iff in Hk. apply Hk.
    + pose proof W' as W1. apply wf_ext_iff in W1 as (m & -> & P' & L' & N' & W1). destruct (same_path _ _ _ _ _ _ _ _ W0 W' S) as [q E1].
      destruct (same_path _ _ _ _ _ _ _ _ W' W0 (same_sym _ _ S)) as [q' E2]. assert (q = []) as -> by (rewrite E1 in E2; rewrite <- app_assoc in E2; rewrite <- (app_nil_r (x :: p)) in E2 at 1; apply app_inv_head in E2; destruct q; [reflexivity | discriminate]).
      rewrite app_nil_r in E1. subst p'. pose proof (same_child _ _ _ _ _ S) as Sc. cbn [enc_node]. rewrite (enc_mkref n m (IH _ m W1 Sc)). reflexivity.
    + exfalso. apply (branch_spread B' _ x W' eq_refl). intros k v Hk. apply S in Hk. apply has_ext_iff in Hk as (m & k' & _ & -> & _). cbn [app]. eauto.
  - assert (W0 : wf B (MPT_NODE_BRANCH c cs w)) by (constructor; assumption). destruct n' as [c'|c' p' o|c' p' r|c' cs' w'].
    + inversion W'.
    + exfalso. apply (branch_not_single B _ p' W0 eq_refl). intros k v Hk. apply S in Hk. apply has_leaf_iff in Hk. apply Hk.
    + exfalso. apply wf_ext_iff in W' as (m & -> & P' & L' & N' & W'). destruct p' as [|x p']; [cbn in L'; lia|]. apply (branch_spread B _ x W0 eq_refl).
      intros k v Hk. apply S in Hk. apply has_ext_iff in Hk as (m' & k' & _ & -> & _). cbn [app]. eauto.
    + apply wf_branch_iff in W' as (C' & V' & E'). assert (C : children_ok B cs) by (split; assumption). pose proof (co_length _ _ _ C') as Lc'.
      assert (Ew : w = w').
      { destruct w as [v|]; [|destruct w' as [v|]; [|reflexivity]].
        - specialize (S [] v). rewrite !has_branch_iff in S. symmetry. apply S. reflexivity.
        - specialize (S [] v). rewrite !has_branch_iff in S. apply S. reflexivity. }
      assert (Ec : map enc_ref cs = map enc_ref cs').
      { apply (nth_ext _ _ [128] [128]); [rewrite !length_map; lia|]. intros i Hi. rewrite length_map in Hi. change [128] with (enc_ref node_ref_null). rewrite !map_nth.
        assert (I : nibble (Z.of_nat i)) by (unfold nibble; lia). pose proof (child_cases keccak256 B cs _ C I) as D. pose proof (child_cases keccak256 B' cs' _ C' I) as D'.
        assert (Si : forall k v, has (MPT_NODE_BRANCH c cs w) (Z.of_nat i :: k) v <-> has (MPT_NODE_BRANCH c' cs' w') (Z.of_nat i :: k) v) by (intros; apply S).
        setoid_rewrite has_branch_iff in Si. unfold child_at in *. rewrite Nat2Z.id in *. destruct D as [D|(m & D & _ & Wm)]; destruct D' as [D'|(m' & D' & _ & Wm')]; rewrite D, D' in *; [reflexivity|..].
        - exfalso. destruct (wf_inhabited _ m' Wm') as (k & v & Hk). destruct (proj2 (Si k v)) as (_ & x & [=] & _). split; [exact I | exists m'; auto].
        - exfalso. destruct (wf_inhabited _ m Wm) as (k & v & Hk). destruct (proj1 (Si k v)) as (_ & x & [=] & _). split; [exact I | exists m; auto].
        - apply enc_mkref. assert (Hin : In (mkref m) cs) by (rewrite <- D; apply nth_In; lia). apply (IH m Hin _ m' Wm'). intros k v. split; intros Hk.
          + destruct (proj1 (Si k v)) as (_ & x & [= <-] & Hx); [split; [exact I | exists m; auto] | exact Hx].
          + destruct (proj2 (Si k v)) as (_ & x & [= <-] & Hx); [split; [exact I | exists m'; auto] | exact Hx]. }
      cbn [enc_node]. rewrite Ec, Ew. reflexivity.
Qed.

(** * Whole tries *)

(** ** Caches: every node that insertion or deletion builds starts without one *)

Lemma insert_here_uncached n v n' : insert_here keccak256 n v = inl n' -> mpt_node_is_empty n = false -> cached n' = None.
Proof.
  destruct n as [c|c p o|c p r|c cs w]; cbn [insert_here]; intros H E; try discriminate.
  - destruct p as [|x p]; [injection H as <-; reflexivity|]. destruct (mpt_node_ref _ _); [injection H as <-; reflexivity | discriminate].
  - destruct p as [|x p]; [discriminate|]. destruct (nlen (x :: p) >? 1); [destruct (mpt_node_ref _ _)|]; try discriminate; injection H as <-; reflexivity.
  - injection H as <-. reflexivity.
Qed.

Lemma insert_leaf_uncached p o key offset v n' : insert_leaf keccak256 p o key offset v = inl n' -> cached n' = None.
Proof.
  unfold insert_leaf, split_leaf. cbv zeta. destruct (_ && _); [intros [= <-]; reflexivity|]. destruct (_ <? length p)%nat; [destruct (mpt_node_ref _ _) as [r|]; [|discriminate]|]; cbn [try];
  (destruct (_ <? length key)%nat; [destruct (mpt_node_ref _ _); [|discriminate]|]; cbn [try];
    (destruct (0 <? _)%nat; [destruct (mpt_node_ref _ _); [|discriminate]|]; cbn [try]; intros [= <-]; reflexivity)).
Qed.

Lemma split_extension_uncached p r key offset m v n' : split_extension keccak256 p r key offset m v = inl n' -> cached n' = None.
Proof.
  unfold split_extension. destruct (_ <? length p)%nat; [destruct (mpt_node_ref _ _) as [r'|]; [|discriminate]|]; cbn [try]; cbv zeta;
  (destruct (_ <? length key)%nat; [destruct (mpt_node_ref _ _); [|discriminate]|]; cbn [try];
    (destruct (0 <? _)%nat; [destruct (mpt_node_ref _ _); [|discriminate]|]; cbn [try]; intros [= <-]; reflexivity)).
Qed.

Lemma insert_uncached fuel n key offset v n' : insert_recursive keccak256 fuel (Some n) key offset v = inl n' -> mpt_node_is_empty n = false -> cached n' = None.
Proof.
  destruct fuel as [|fuel]; [discriminate|]. cbn [insert_recursive]. destruct n as [c|c p o|c p r|c cs w]; intros H E; try discriminate; (destruct (_ <=? _)%nat; [exact (insert_here_uncached _ _ _ H E)|]).
  - exact (insert_leaf_uncached _ _ _ _ _ _ H).
  - cbv zeta in H. destruct (_ =? _)%nat; [|exact (split_extension_uncached _ _ _ _ _ _ _ H)]. destruct (ref_node r); [|injection H as <-; reflexivity].
    destruct (insert_recursive _ _ _ _ _ _); [|discriminate]. cbn [try] in H. destruct (mpt_node_ref _ _); [injection H as <-; reflexivity | discriminate].
  - cbv zeta in H. destruct (node_ref_is_null _); [destruct (mpt_node_ref _ _); [injection H as <-; reflexivity | discriminate]|]. destruct (ref_node _); [|injection H as <-; reflexivity].
    destruct (insert_recursive _ _ _ _ _ _); [|discriminate]. cbn [try] in H. destruct (mpt_node_ref _ _); [injection H as <-; reflexivity | discriminate].
Qed.

Lemma collapse_uncached cs w n' : collapse_branch keccak256 cs w = inl n' -> cached n' = None.
Proof.
  unfold collapse_branch. cbv zeta. destruct (find_single_child cs) as [j|].
  - destruct w; [intros [= <-]; reflexivity|]. destruct (ref_node _) as [[c|c p o|c p r|c cs' o]|]; try (intros [= <-]; reflexivity);
      (destruct (mpt_node_ref _ _); [intros [= <-]; reflexivity | discriminate]).
  - destruct w; [destruct (_ =? _)%nat|]; intros [= <-]; reflexivity.
Qed.

Lemma delete_uncached fuel n key offset n' : delete_recursive keccak256 fuel (Some n) key offset = inl (DELETE_UPDATED, Some n') -> cached n' = None.
Proof.
  destruct fuel as [|fuel]; [discriminate|]. cbn [delete_recursive]. destruct n as [c|c p o|c p r|c cs w]; try discriminate.
  - destruct (negb _); [discriminate|]. destruct (negb _); discriminate.
  - cbv zeta. destruct (negb _); [discriminate|]. destruct (delete_recursive _ _ _ _ _) as [[[| |] [m|]]|]; cbn [try]; try discriminate.
    destruct m as [c'|c' q v|c' q r'|c' cs' v]; cbn [merge_extension]; try (intros [= <-]; reflexivity); (destruct (mpt_node_ref _ _); [intros [= <-]; reflexivity | discriminate]).
  - destruct (_ <=? _)%nat.
    + destruct w; [|discriminate]. destruct (collapse_branch _ _ _) eqn:H; [|discriminate]. intros [= <-]. exact (collapse_uncached _ _ _ H).
    + cbv zeta. destruct (node_ref_is_null _); [discriminate|]. destruct (ref_node _); [|discriminate]. destruct (delete_recursive _ _ _ _ _) as [[res o]|]; [|discriminate]. cbn [try].
      destruct res; [discriminate|destruct o as [x|]; [destruct (mpt_node_ref _ _); [|discriminate]|]|]; cbn [try];
        (destruct (collapse_branch _ _ _) eqn:H; [|discriminate]; cbn [try]; intros [= <-]; exact (collapse_uncached _ _ _ H)).
Qed.

(** ** The invariant and the contents of a trie *)

Definition trie_ok (t : mpt_t) : Prop :=
  match root t with
  | None => True
  | Some n => wf KEY_MAX n /\ forall h, cached n = Some h -> h = keccak256 (enc_node n)
  end.

Definition at_key (t : mpt_t) (k : nibbles_t) (v : list Z) : Prop := match root t with None => False | Some n => has n k v end.

(** The key [key] has the value [v]. *)
Definition holds (t : mpt_t) (key v : list Z) : Prop := at_key t (unpack key) v.

Definition root_of (t : mpt_t) : hash_t := match root t with None => MPT_EMPTY_ROOT | Some n => keccak256 (enc_node n) end.

Definition key_ok (key : list Z) : Prop := bytes_ok key /\ Z.of_nat (length key) <= 4096.

Lemma key_nibbles key : key_ok key -> nibbles_from_bytes key = unpack key /\ nibbles_ok (unpack key) /\ (length (unpack key) <= KEY_MAX)%nat.
Proof.
  intros [B L]. split; [apply from_bytes_small; unfold DIV0_ARENA_BLOCK_SIZE; lia|]. split; [apply unpack_ok, B|]. rewrite length_unpack. unfold KEY_MAX. lia.
Qed.

Lemma holds_fun t key v v' : holds t key v -> holds t key v' -> v = v'.
Proof. unfold holds, at_key. destruct (root t); [apply has_fun | contradiction]. Qed.

Lemma create_ok : trie_ok mpt_memory_backend_create.
Proof. exact I. Qed.

Lemma mpt_get_spec t key : trie_ok t -> key_ok key -> exists o, mpt_get t key = inl o /\ forall v, o = Some v <-> holds t key v.
Proof.
  intros T K. destruct (key_nibbles key K) as (E & Q & L). unfold mpt_get, holds, at_key, memory_get_root, depth_fuel. rewrite E. unfold trie_ok in T.
  destruct (root t) as [n|].
  - destruct T as [W _]. apply (get_spec _ KEY_MAX n (unpack key) 0); [cbn [skipn]; lia | exact L | exact Q | lia | exact W].
  - exists None. split; [reflexivity|]. intros v. split; [discriminate | contradiction].
Qed.

Lemma mpt_insert_spec t key value : trie_ok t -> key_ok key -> value_ok value ->
  exists t', mpt_insert keccak256 t key value = inl t' /\ trie_ok t' /\
    forall k v, at_key t' k v <-> (k = unpack key /\ v = value) \/ (k <> unpack key /\ at_key t k v).
Proof.
  intros T K V. destruct (key_nibbles key K) as (E & Q & L). unfold mpt_insert, depth_fuel, memory_get_root. rewrite E. unfold trie_ok, at_key in *. destruct (root t) as [n|].
  - destruct T as [W _]. destruct (insert_spec keccak256 keccak_wf value V (S (length (unpack key))) KEY_MAX n (unpack key) 0) as (n' & H & W' & U & _);
      [cbn [skipn]; lia | lia | exact L | exact Q | lia | exact L | exact W|]. rewrite H. cbn [try]. eexists. split; [reflexivity|]. cbn [root memory_set_root].
    split; [|exact U]. split; [exact W'|]. rewrite (insert_uncached _ _ _ _ _ _ H) by (inversion W; reflexivity). discriminate.
  - cbn [insert_recursive]. rewrite (copy_value_ok value V).
    assert (R : (if (length (unpack key) <=? 0)%nat then inl (mpt_node_leaf NIBBLES_EMPTY (Some value)) else
      inl (mpt_node_leaf (nibbles_slice (unpack key) 0 SIZE_MAX) (Some value))) = @inl _ fault (mpt_node_leaf (unpack key) (Some value))).
    { rewrite slice_key by exact L. destruct (unpack key); reflexivity. }
    rewrite R. cbn [try]. eexists. split; [reflexivity|]. cbn [root memory_set_root]. split; [split; [apply leaf_wf; assumption | discriminate]|].
    intros k v. unfold mpt_node_leaf. rewrite has_leaf_iff. split; [intros [-> [= ->]]; auto | intros [[-> ->]|[_ []]]; auto].
Qed.

Lemma mpt_delete_spec t key : trie_ok t -> key_ok key ->
  exists t' found, mpt_delete keccak256 t key = inl (t', found) /\ trie_ok t' /\ (found = true <-> exists v, holds t key v) /\
    forall k v, at_key t' k v <-> k <> unpack key /\ at_key t k v.
Proof.
  intros T K. destruct (key_nibbles key K) as (E & Q & L). unfold mpt_delete, depth_fuel, memory_get_root. rewrite E. pose proof T as T0. unfold trie_ok, holds, at_key in *.
  destruct (root t) as [n|] eqn:Rt.
  2:{ exists t, false. rewrite Rt. split; [reflexivity|]. split; [exact I|]. split; [split; [discriminate | intros [v []]]|]. intros k v. tauto. }
  destruct T as [W _]. destruct (delete_spec (S (length (unpack key))) KEY_MAX n (unpack key) 0) as (r & H & D); [cbn [skipn]; lia | lia | exact L | exact Q | lia | exact W|].
  cbn [skipn] in D. assert (NE : mpt_node_is_empty n = false) by (inversion W; reflexivity).
  replace (match n with MPT_NODE_EMPTY _ => inl (t, false) | _ => try (delete_recursive keccak256 (S (length (unpack key))) (Some n) (unpack key) 0)
      (fun result => match result with (DELETE_NOT_FOUND, _) => inl (t, false) | (_, new_root) => inl (memory_set_root t new_root, true) end) end)
    with (try (delete_recursive keccak256 (S (length (unpack key))) (Some n) (unpack key) 0)
      (fun result => match result with (DELETE_NOT_FOUND, _) => inl (t, false) | (_, new_root) => inl (memory_set_root t new_root, true) end)) by (destruct n; [discriminate|reflexivity..]).
  rewrite H. cbn [try]. destruct r as [[| |] [n'|]]; cbn [deleted] in D; try contradiction.
  - destruct D as [_ D]. exists t, false. rewrite Rt. split; [reflexivity|]. split; [exact T0|]. split; [split; [discriminate | intros [v Hv]; exfalso; exact (D v Hv)]|].
    intros k v. split; [intros Hk; split; [intros ->; exact (D v Hk) | exact Hk] | intros [_ Hk]; exact Hk].
  - destruct D as [[=] _].
  - destruct D as (Ex & W' & R). eexists _, true. split; [reflexivity|]. cbn [root memory_set_root]. split; [split; [exact W' | rewrite (delete_uncached _ _ _ _ _ H); discriminate]|].
    split; [split; auto | exact R].
  - destruct D as [Ex U]. eexists _, true. split; [reflexivity|]. cbn [root memory_set_root]. split; [exact I|]. split; [split; auto|]. intros k v. split; [contradiction|]. intros [N Hk]. exact (N (U k v Hk)).
Qed.

Lemma has_with_cache n c k v : has (with_cache n c) k v <-> has n k v.
Proof. destruct n; cbn [with_cache]; [split; intros H; inversion H | rewrite !has_leaf_iff | rewrite !has_ext_iff | rewrite !has_branch_iff]; reflexivity. Qed.

Lemma mpt_root_hash_spec t : trie_ok t ->
  exists t', mpt_root_hash keccak256 t = inl (t', root_of t) /\ trie_ok t' /\ root_of t' = root_of t /\ forall k v, at_key t' k v <-> at_key t k v.
Proof.
  intros T. unfold mpt_root_hash, root_of, memory_get_root, trie_ok, at_key in *. destruct (root t) as [n|] eqn:R.
  2:{ exists t. rewrite R. repeat split; auto. }
  destruct T as [W C]. assert (NE : mpt_node_is_empty n = false) by (inversion W; reflexivity).
  assert (G : exists n', mpt_node_hash keccak256 n = inl (n', keccak256 (enc_node n)) /\ exists c, n' = with_cache n c /\ forall h, c = Some h -> h = keccak256 (enc_node n)).
  { unfold mpt_node_hash. destruct (cached n) as [h|] eqn:Cn.
    - exists n. rewrite (C h eq_refl). split; [reflexivity|]. exists (Some h). split; [destruct n; cbn in Cn |- *; congruence | intros ? [= <-]; auto].
    - destruct (wf_encodes keccak256 keccak_wf _ _ W ltac:(lia)) as (E & _ & _). exists (with_cache n (Some (keccak256 (enc_node n)))).
      split; [rewrite E; destruct n; [discriminate|reflexivity..] | eexists; split; [reflexivity | congruence]]. }
  destruct G as (n' & -> & c & -> & Hc). exists (Mpt (Some (with_cache n c))). split; [destruct n; [discriminate|reflexivity..]|]. cbn [root].
  assert (En : enc_node (with_cache n c) = enc_node n) by (destruct n; reflexivity). rewrite En. split; [split|split].
  - destruct n; cbn [with_cache]; [inversion W | apply wf_leaf_iff, (wf_leaf_iff keccak256 _ cached_hash), W | apply wf_ext_iff, (wf_ext_iff keccak256 _ cached_hash), W | apply wf_branch_iff, (wf_branch_iff keccak256 _ cached_hash), W].
  - intros h Hh. apply Hc. rewrite <- Hh. destruct n; reflexivity.
  - reflexivity.
  - intros k v. apply has_with_cache.
Qed.

(** Tries with the same contents have the same root hash. *)
Lemma root_canonical t t' : trie_ok t -> trie_ok t' -> (forall k v, at_key t k v <-> at_key t' k v) -> root_of t = root_of t'.
Proof.
  unfold trie_ok, at_key, root_of. destruct (root t) as [n|], (root t') as [n'|]; intros T T' S; [|exfalso|exfalso|reflexivity].
  - f_equal. apply (encoding_canonical KEY_MAX n (proj1 T) KEY_MAX n' (proj1 T') S).
  - destruct (wf_inhabited _ n (proj1 T)) as (k & v & H). apply (S k v). exact H.
  - destruct (wf_inhabited _ n' (proj1 T')) as (k & v & H). apply (S k v). exact H.
Qed.
End Map.
