(* ===== verification/TrieTheorems.v ===== *)
(** The properties of the trie: it is a finite map for every sequence of
    operations, its root hash is a function of that map, and paths survive the
    hex-prefix encoding. *)
From Stdlib Require Import ZArith Lia List Bool.
From S2P Require Import Prelude Types Effects Arena Stack Bytes Rlp RlpSpec Account Nibbles Trie TrieSpec TrieMap.
Import ListNotations.
#[local] Open Scope Z_scope.
#[local] Open Scope trie_scope.

(** * Operations on tries *)

Inductive trie_call := Insert (key value : list Z) | Delete (key : list Z) | Get (key : list Z) | Contains (key : list Z) | IsEmpty | RootHash | Clear.

Inductive trie_result := Nothing | Found (b : bool) | Value (v : option (list Z)).

Definition trie_call_ok (c : trie_call) : Prop :=
  match c with
  | Insert key value => key_ok key /\ value_ok value
  | Delete key | Get key | Contains key => key_ok key
  | IsEmpty | RootHash | Clear => True
  end.

(** On lists of pairs, the latest first. *)
Definition table := list (list Z * list Z).

Fixpoint find (m : table) (key : list Z) : option (list Z) :=
  match m with [] => None | (k, v) :: m' => if bytes_eqb k key then Some v else find m' key end.
Definition drop (m : table) (key : list Z) : table := filter (fun p => negb (bytes_eqb (fst p) key)) m.
Definition present (m : table) (key : list Z) : bool := match find m key with Some _ => true | None => false end.

Definition trie_meaning (m : table) (c : trie_call) : table * trie_result :=
  match c with
  | Insert key value => ((key, value) :: drop m key, Nothing)
  | Delete key => (drop m key, Found (present m key))
  | Get key => (m, Value (find m key))
  | Contains key => (m, Found (present m key))
  | IsEmpty => (m, Found (match m with [] => true | _ => false end))
  | RootHash => (m, Nothing)
  | Clear => ([], Nothing)
  end.

Fixpoint trie_meanings (m : table) (cs : list trie_call) : table * list trie_result :=
  match cs with
  | [] => (m, [])
  | c :: cs' => let '(m, r) := trie_meaning m c in let '(m, rs) := trie_meanings m cs' in (m, r :: rs)
  end.

Section Calls.
Variable keccak256 : list Z -> hash_t.

Definition trie_dispatch (t : mpt_t) (c : trie_call) : (mpt_t * trie_result) + fault :=
  match c with
  | Insert key value => let? t := mpt_insert keccak256 t key value in inl (t, Nothing)
  | Delete key => let? r := mpt_delete keccak256 t key in inl (fst r, Found (snd r))
  | Get key => let? o := mpt_get t key in inl (t, Value o)
  | Contains key => let? b := mpt_contains t key in inl (t, Found b)
  | IsEmpty => inl (t, Found (mpt_is_empty t))
  | RootHash => let? r := mpt_root_hash keccak256 t in inl (fst r, Nothing)
  | Clear => inl (mpt_clear t, Nothing)
  end.

Fixpoint trie_dispatch_all (t : mpt_t) (cs : list trie_call) : (mpt_t * list trie_result) + fault :=
  match cs with
  | [] => inl (t, [])
  | c :: cs' => let? r := trie_dispatch t c in let? rs := trie_dispatch_all (fst r) cs' in inl (fst rs, snd r :: snd rs)
  end.
End Calls.

(** * Tables *)

Lemma find_drop m key k : find (drop m key) k = if bytes_eqb key k then None else find m k.
Proof.
  induction m as [|[x v] m IH]; cbn [drop filter find fst]; [destruct (bytes_eqb key k); reflexivity|]. fold (drop m key). destruct (bytes_eqb x key) eqn:E; cbn [negb].
  - apply bytes_eqb_eq in E. subst x. rewrite IH. destruct (bytes_eqb key k); reflexivity.
  - cbn [find]. rewrite IH. destruct (bytes_eqb x k) eqn:Ex; [|reflexivity]. apply bytes_eqb_eq in Ex. subst x. destruct (bytes_eqb key k) eqn:Ek; [|reflexivity].
    apply bytes_eqb_eq in Ek. subst k. rewrite (proj2 (bytes_eqb_eq _ _) eq_refl) in E. discriminate.
Qed.

Lemma find_empty m : (forall k, find m k = None) -> m = [].
Proof. destruct m as [|[k v] m]; [reflexivity|]. intros H. specialize (H k). cbn [find] in H. rewrite (proj2 (bytes_eqb_eq _ _) eq_refl) in H. discriminate. Qed.

(** * The simulation *)

Section Simulation.
Variable keccak256 : list Z -> hash_t.
Hypothesis keccak_wf : forall bs, bytes_ok bs -> wf_hash (keccak256 bs).

(** The trie holds the entries of the table, under the nibbles of their keys. *)
Record represents (t : mpt_t) (m : table) : Prop := {
  rp_ok : trie_ok keccak256 t;
  rp_keys : forall key v, find m key = Some v -> key_ok key;
  rp_entries : forall k v, at_key t k v <-> exists key, k = unpack key /\ find m key = Some v }.

Lemma represents_holds t m key v : represents t m -> key_ok key -> holds t key v <-> find m key = Some v.
Proof.
  intros R [B _]. unfold holds. rewrite (rp_entries _ _ R). split; [|intros F; exists key; auto]. intros (key' & E & F).
  apply unpack_inj in E; [subst key'; exact F | exact B | apply (rp_keys _ _ R key' v F)].
Qed.

Lemma create_represents : represents mpt_memory_backend_create [].
Proof. split; [exact I | discriminate|]. intros k v. split; [intros [] | intros (key & _ & F); discriminate]. Qed.

Lemma get_represents t m key : represents t m -> key_ok key -> mpt_get t key = inl (find m key).
Proof.
  intros R K. destruct (mpt_get_spec keccak256 t key (rp_ok _ _ R) K) as (o & -> & H). f_equal. destruct (find m key) as [v|] eqn:E.
  - apply H, (represents_holds t m); assumption.
  - destruct o as [v|]; [|reflexivity]. pose proof (proj1 (represents_holds t m key v R K) (proj1 (H v) eq_refl)). congruence.
Qed.

Lemma contains_represents t m key : represents t m -> key_ok key -> mpt_contains t key = inl (present m key).
Proof.
  intros R K. pose proof (get_represents t m key R K) as G. unfold mpt_contains, mpt_get in *. pose proof (rp_ok _ _ R) as T. unfold trie_ok, memory_get_root in *. unfold present. destruct (root t) as [n|].
  - rewrite (contains_get keccak256 _ KEY_MAX) by apply T. rewrite G. reflexivity.
  - cbn in G |- *. injection G as <-. reflexivity.
Qed.

(** Deletion of [k], then insertion of [v] when there is one. *)
Lemma drop_represents t m t' key : represents t m -> key_ok key -> trie_ok keccak256 t' -> (forall k v, at_key t' k v <-> k <> unpack key /\ at_key t k v) -> represents t' (drop m key).
Proof.
  intros R K T U. split; [exact T | |].
  - intros k v. rewrite find_drop. destruct (bytes_eqb key k); [discriminate | apply (rp_keys _ _ R)].
  - intros k v. rewrite U, (rp_entries _ _ R). split.
    + intros [N (x & -> & F)]. exists x. split; [reflexivity|]. rewrite find_drop. destruct (bytes_eqb key x) eqn:E; [|exact F]. apply bytes_eqb_eq in E. subst x. contradiction.
    + intros (x & -> & F). rewrite find_drop in F. destruct (bytes_eqb key x) eqn:E; [discriminate|]. split; [|exists x; auto]. intros X.
      apply unpack_inj in X; [|apply (rp_keys _ _ R x v F) | apply K]. subst x. rewrite (proj2 (bytes_eqb_eq _ _) eq_refl) in E. discriminate.
Qed.

Lemma insert_represents t m t' key value : represents t m -> key_ok key -> trie_ok keccak256 t' ->
  (forall k v, at_key t' k v <-> (k = unpack key /\ v = value) \/ (k <> unpack key /\ at_key t k v)) -> represents t' ((key, value) :: drop m key).
Proof.
  intros R K T U. split; [exact T | |].
  - intros k v. cbn [find]. rewrite find_drop. destruct (bytes_eqb key k) eqn:E; [|apply (rp_keys _ _ R)]. apply bytes_eqb_eq in E. subst k. intros _. exact K.
  - intros k v. rewrite U. split.
    + intros [[-> ->]|[N A]]; [exists key; cbn [find]; rewrite (proj2 (bytes_eqb_eq _ _) eq_refl); auto|]. apply (rp_entries _ _ R) in A as (x & -> & F). exists x. split; [reflexivity|].
      cbn [find]. rewrite find_drop. destruct (bytes_eqb key x) eqn:E; [|exact F]. apply bytes_eqb_eq in E. subst x. contradiction.
    + intros (x & -> & F). cbn [find] in F. rewrite find_drop in F. destruct (bytes_eqb key x) eqn:E; [apply bytes_eqb_eq in E; subst x; injection F as <-; auto|]. right. split.
      * intros X. apply unpack_inj in X; [|apply (rp_keys _ _ R x v F) | apply K]. subst x. rewrite (proj2 (bytes_eqb_eq _ _) eq_refl) in E. discriminate.
      * apply (rp_entries _ _ R). exists x. auto.
Qed.

Lemma empty_represents t m : represents t m -> mpt_is_empty t = match m with [] => true | _ => false end.
Proof.
  intros R. pose proof (rp_ok _ _ R) as T. pose proof (rp_entries _ _ R) as En. unfold mpt_is_empty, memory_get_root, trie_ok, at_key in *. destruct (root t) as [n|].
  - assert (NE : mpt_node_is_empty n = false) by (destruct T as [W _]; inversion W; reflexivity). destruct (wf_inhabited keccak256 _ n (proj1 T)) as (k & v & H). apply En in H as (key & _ & F).
    destruct m; [discriminate|]. destruct n; [discriminate | reflexivity..].
  - rewrite (find_empty m); [reflexivity|]. intros k. destruct (find m k) as [v|] eqn:F; [|reflexivity]. destruct (proj2 (En (unpack k) v)). exists k. auto.
Qed.

Lemma step_represents t m c : represents t m -> trie_call_ok c ->
  exists t', trie_dispatch keccak256 t c = inl (t', snd (trie_meaning m c)) /\ represents t' (fst (trie_meaning m c)).
Proof.
  intros R C. pose proof (rp_ok _ _ R) as T. destruct c as [key value|key|key|key| | |]; cbn [trie_call_ok trie_dispatch trie_meaning fst snd] in *.
  - destruct C as [K V]. destruct (mpt_insert_spec keccak256 keccak_wf t key value T K V) as (t' & -> & T' & U). exists t'. split; [reflexivity | exact (insert_represents t m t' key value R K T' U)].
  - destruct (mpt_delete_spec keccak256 keccak_wf t key T C) as (t' & found & -> & T' & F & U). exists t'. split; [|exact (drop_represents t m t' key R C T' U)]. cbn [try fst snd]. do 3 f_equal.
    apply eq_true_iff_eq. rewrite F. unfold present. split; [intros [v Hv]; rewrite (proj1 (represents_holds t m key v R C) Hv); reflexivity|].
    destruct (find m key) as [v|] eqn:E; [|discriminate]. intros _. exists v. apply (represents_holds t m key v R C), E.
  - rewrite (get_represents t m) by assumption. exists t. split; [reflexivity | exact R].
  - rewrite (contains_represents t m) by assumption. exists t. split; [reflexivity | exact R].
  - rewrite (empty_represents t m R). exists t. split; [reflexivity | exact R].
  - destruct (mpt_root_hash_spec keccak256 keccak_wf t T) as (t' & -> & T' & _ & U). exists t'. split; [reflexivity|]. split; [exact T' | apply (rp_keys _ _ R)|]. intros k v. rewrite U. apply (rp_entries _ _ R).
  - exists mpt_memory_backend_create. split; [reflexivity | exact create_represents].
Qed.

Lemma all_represents cs : forall t m, represents t m -> Forall trie_call_ok cs ->
  exists t', trie_dispatch_all keccak256 t cs = inl (t', snd (trie_meanings m cs)) /\ represents t' (fst (trie_meanings m cs)).
Proof.
  induction cs as [|c cs IH]; intros t m R F; cbn [trie_dispatch_all trie_meanings]; [exists t; auto|]. inversion F as [|? ? C F' E]; subst. destruct (step_represents t m c R C) as (t1 & -> & R1). cbn [try fst snd].
  destruct (trie_meaning m c) as [m1 r]. cbn [fst snd] in *. destruct (IH t1 m1 R1 F') as (t' & -> & R'). exists t'. destruct (trie_meanings m1 cs). auto.
Qed.
End Simulation.

(** * A hash for the examples: the first 32 bytes, filled up with zeros *)

Definition pad_keccak (bs : list Z) : hash_t := firstn 32 (map w8 bs ++ repeat 0 32).

Lemma pad_keccak_wf bs : wf_hash (pad_keccak bs).
Proof.
  unfold pad_keccak. split; [rewrite length_firstn, length_app, repeat_length; unfold HASH_SIZE; lia|]. apply Forall_firstn, Forall_app. split.
  - apply Forall_map, Forall_forall. intros x _. apply w8_range.
  - apply Forall_forall. intros x I. apply repeat_spec in I. subst x. unfold u8. lia.
Qed.

(** * Properties *)

(** C8: a trie is a finite map. Every sequence of insertions, deletions,
    lookups, emptiness tests, root computations and clearings, with keys of at
    most 4096 bytes and values of at most 32768 bytes, runs without a fault and
    returns what the same sequence returns on a table of pairs. *)
Theorem trie_is_map (keccak256 : list Z -> hash_t) cs : (forall bs, bytes_ok bs -> wf_hash (keccak256 bs)) -> Forall trie_call_ok cs ->
  exists t, trie_dispatch_all keccak256 mpt_memory_backend_create cs = inl (t, snd (trie_meanings [] cs)).
Proof.
  intros K F. destruct (all_represents keccak256 K cs _ _ (create_represents keccak256) F) as (t & E & _). exists t. exact E.
Qed.

Ltac small_bytes := repeat (first [apply Forall_nil | apply Forall_cons; [unfold u8; lia|]]).
Ltac small_calls := repeat (first [apply Forall_nil | apply Forall_cons; [cbn [trie_call_ok]; repeat (first [exact I | apply conj]); first [small_bytes; fail | vm_compute; congruence]|]]).

Definition sample_calls : list trie_call :=
  [Insert [18; 52] [1]; Insert [18; 53] [2]; Insert [18] [3]; RootHash; Delete [18; 52]; Get [18; 53]; Get [18; 52]; Contains [18]; IsEmpty].

Lemma sample_calls_ok : Forall trie_call_ok sample_calls.
Proof. small_calls. Qed.

Lemma trie_is_map_witness : exists t, trie_dispatch_all pad_keccak mpt_memory_backend_create sample_calls =
  inl (t, [Nothing; Nothing; Nothing; Nothing; Found true; Value (Some [2]); Value None; Found true; Found false]).
Proof. apply (trie_is_map pad_keccak sample_calls); [intros bs _; apply pad_keccak_wf | exact sample_calls_ok]. Defined.

(** C9: the root hash is canonical. Two sequences of operations that leave the
    same map, in whatever order they wrote, deleted and hashed, leave tries
    with the same root hash. *)
Theorem root_hash_canonical (keccak256 : list Z -> hash_t) cs cs' : (forall bs, bytes_ok bs -> wf_hash (keccak256 bs)) ->
  Forall trie_call_ok cs -> Forall trie_call_ok cs' -> (forall key, find (fst (trie_meanings [] cs)) key = find (fst (trie_meanings [] cs')) key) ->
  exists t t' rs rs' s s' h, trie_dispatch_all keccak256 mpt_memory_backend_create cs = inl (t, rs) /\ trie_dispatch_all keccak256 mpt_memory_backend_create cs' = inl (t', rs') /\
    mpt_root_hash keccak256 t = inl (s, h) /\ mpt_root_hash keccak256 t' = inl (s', h).
Proof.
  intros K F F' E. destruct (all_represents keccak256 K cs _ _ (create_represents keccak256) F) as (t & H & R). destruct (all_represents keccak256 K cs' _ _ (create_represents keccak256) F') as (t' & H' & R').
  destruct (mpt_root_hash_spec keccak256 K t (rp_ok _ _ _ R)) as (s & Hs & _). destruct (mpt_root_hash_spec keccak256 K t' (rp_ok _ _ _ R')) as (s' & Hs' & _).
  exists t, t', (snd (trie_meanings [] cs)), (snd (trie_meanings [] cs')), s, s', (root_of keccak256 t). split; [exact H|]. split; [exact H'|]. split; [exact Hs|]. rewrite Hs'. do 2 f_equal. symmetry. apply root_canonical; [apply R | apply R'|].
  intros k v. rewrite (rp_entries _ _ _ R), (rp_entries _ _ _ R'). split; intros (key & -> & X); exists key; split; try reflexivity; congruence.
Qed.

Lemma root_hash_canonical_witness : exists t t' rs rs' s s' h,
  trie_dispatch_all pad_keccak mpt_memory_backend_create [Insert [18; 52] [1]; Insert [18] [3]; Delete [18; 52]; Insert [18; 53] [2]] = inl (t, rs) /\
  trie_dispatch_all pad_keccak mpt_memory_backend_create [Insert [18] [3]; RootHash; Insert [18; 53] [2]] = inl (t', rs') /\
  mpt_root_hash pad_keccak t = inl (s, h) /\ mpt_root_hash pad_keccak t' = inl (s', h).
Proof.
  apply root_hash_canonical; [intros bs _; apply pad_keccak_wf | small_calls | small_calls|].
  intros key. cbn [trie_meanings trie_meaning fst drop filter bytes_eqb negb find]. cbn. destruct (bytes_eqb [18; 53] key) eqn:E; [|destruct (bytes_eqb [18] key); reflexivity]. reflexivity.
Defined.

(** Paths survive their encodings. A path of at most 65536 nibbles that is
    written in hex-prefix form reads back with its kind, and a key becomes
    nibbles and bytes again without loss. *)
Theorem path_roundtrip (n : nibbles_t) (is_leaf : bool) (key : list Z) : nibbles_ok n -> nlen n <= DIV0_ARENA_BLOCK_SIZE -> bytes_ok key -> Z.of_nat (length key) * 2 <= DIV0_ARENA_BLOCK_SIZE ->
  hex_prefix_decode (b_data (hex_prefix_encode n is_leaf)) = HexPrefixResult n is_leaf true /\ nibbles_to_bytes (nibbles_from_bytes key) = key.
Proof.
  intros N L B K. split; [rewrite hex_prefix_encode_spec by assumption; apply hex_prefix_decode_spec; assumption|].
  rewrite from_bytes_small by exact K. rewrite to_bytes_pack by (apply unpack_ok, B). apply pack_unpack, B.
Qed.

Lemma path_roundtrip_witness : hex_prefix_decode (b_data (hex_prefix_encode [1; 2; 15] true)) = HexPrefixResult [1; 2; 15] true true /\ nibbles_to_bytes (nibbles_from_bytes [18; 255]) = [18; 255].
Proof.
  apply path_roundtrip; [|vm_compute; congruence| |vm_compute; congruence].
  - repeat (apply Forall_cons; [unfold nibble; lia|]). apply Forall_nil.
  - small_bytes.
Defined.
