(* ===== verification/WorldState.v ===== *)
(** The world state: include/div0/state/world_state.h, snapshot.h and
    src/state/world_state.c.

    Accounts live in a trie, the storage of each account in a trie of its own
    that is reached through a table of pointers into the arena; a pointer is an
    index into [storage_heap]. The hash tables are those of [HashTable];
    Keccak is a parameter. A function
    that works on a trie can end in a fault of the trie code, which
    [WorldSpec] rules out. *)
From Stdlib Require Import ZArith Lia List Bool.
From S2P Require Import Prelude Uint256 Types Effects Arena Stack Bytes Rlp Account StateAccess HashTable Nibbles Trie.
Import ListNotations.
#[local] Open Scope Z_scope.
#[local] Open Scope word_scope.
#[local] Open Scope trie_scope.

(** * Keys of the hash tables *)

Definition FNV1A_OFFSET_BASIS : Z := 14695981039346656037.
Definition FNV1A_PRIME : Z := 1099511628211.

Definition fnv1a_hash_append (hash : Z) (data : list Z) : Z :=
  fold_left (fun hash b => Z.lxor hash b *64 FNV1A_PRIME) data hash.
Definition fnv1a_hash (data : list Z) : Z := fnv1a_hash_append FNV1A_OFFSET_BASIS data.
Definition address_hash (addr : address_t) : Z := fnv1a_hash addr.

Record warm_slot_key_t := SlotKey { key_addr : address_t; key_slot : uint256_t }.

Definition warm_slot_key_hash (key : warm_slot_key_t) : Z :=
  fnv1a_hash_append (fnv1a_hash (key_addr key)) (uint256_to_bytes_be (key_slot key)).

Definition warm_slot_key_eq (a b : warm_slot_key_t) : bool :=
  if negb (address_equal (key_addr a) (key_addr b)) then false else uint256_eq (key_slot a) (key_slot b).

#[export] Instance address_key : HashKey address_t := {| key_hash := address_hash; key_eq := address_equal; key_eq_spec := bytes_eqb_eq |}.

Lemma slot_key_eq_spec x y : warm_slot_key_eq x y = true <-> x = y.
Proof.
  unfold warm_slot_key_eq, address_equal, uint256_eq. destruct x as [a [p q r s]], y as [b [p' q' r' s']]. cbn [key_addr key_slot limb0 limb1 limb2 limb3].
  destruct (bytes_eqb a b) eqn:E; cbn [negb].
  - apply bytes_eqb_eq in E. subst b. rewrite Z.eqb_eq, !Z.lor_eq_0_iff, !Z.lxor_eq_0_iff. split; [intros [[[-> ->] ->] ->]; reflexivity | intros [= -> -> -> ->]; auto].
  - split; [discriminate|]. intros [= -> _ _ _ _]. rewrite (proj2 (bytes_eqb_eq b b) eq_refl) in E. discriminate.
Qed.

#[export] Instance slot_key : HashKey warm_slot_key_t := {| key_hash := warm_slot_key_hash; key_eq := warm_slot_key_eq; key_eq_spec := slot_key_eq_spec |}.

(** * The structure *)

Section World.
Context {M : Type -> Type -> Type} {HT : HashTables M}.
Variable keccak256 : list Z -> hash_t.

Record world_state_t := WorldState {
  state_trie : mpt_t;
  storage_tries : M address_t nat;
  code_store : M address_t (list Z);
  warm_addresses : M address_t unit;
  warm_slots : M warm_slot_key_t unit;
  original_storage : M warm_slot_key_t uint256_t;
  dirty_storage : M address_t unit;
  all_accounts : M address_t unit;
  all_storage_slots : M warm_slot_key_t unit;
  snapshot_counter : Z;
  storage_heap : list mpt_t }.

Definition world_state_create : world_state_t :=
  WorldState mpt_memory_backend_create hm_init hm_init hm_init hm_init hm_init hm_init hm_init hm_init 0 [].

Definition set_state_trie (ws : world_state_t) (t : mpt_t) : world_state_t :=
  WorldState t (storage_tries ws) (code_store ws) (warm_addresses ws) (warm_slots ws) (original_storage ws) (dirty_storage ws)
    (all_accounts ws) (all_storage_slots ws) (snapshot_counter ws) (storage_heap ws).
Definition set_storage_tries (ws : world_state_t) (m : M address_t nat) (h : list mpt_t) : world_state_t :=
  WorldState (state_trie ws) m (code_store ws) (warm_addresses ws) (warm_slots ws) (original_storage ws) (dirty_storage ws)
    (all_accounts ws) (all_storage_slots ws) (snapshot_counter ws) h.
Definition set_code_store (ws : world_state_t) (m : M address_t (list Z)) : world_state_t :=
  WorldState (state_trie ws) (storage_tries ws) m (warm_addresses ws) (warm_slots ws) (original_storage ws) (dirty_storage ws)
    (all_accounts ws) (all_storage_slots ws) (snapshot_counter ws) (storage_heap ws).
Definition set_warm (ws : world_state_t) (a : M address_t unit) (s : M warm_slot_key_t unit) : world_state_t :=
  WorldState (state_trie ws) (storage_tries ws) (code_store ws) a s (original_storage ws) (dirty_storage ws)
    (all_accounts ws) (all_storage_slots ws) (snapshot_counter ws) (storage_heap ws).
Definition set_original (ws : world_state_t) (m : M warm_slot_key_t uint256_t) : world_state_t :=
  WorldState (state_trie ws) (storage_tries ws) (code_store ws) (warm_addresses ws) (warm_slots ws) m (dirty_storage ws)
    (all_accounts ws) (all_storage_slots ws) (snapshot_counter ws) (storage_heap ws).
Definition set_tracking (ws : world_state_t) (dirty accts : M address_t unit) (slots : M warm_slot_key_t unit) : world_state_t :=
  WorldState (state_trie ws) (storage_tries ws) (code_store ws) (warm_addresses ws) (warm_slots ws) (original_storage ws) dirty
    accts slots (snapshot_counter ws) (storage_heap ws).
Definition set_counter (ws : world_state_t) (n : Z) : world_state_t :=
  WorldState (state_trie ws) (storage_tries ws) (code_store ws) (warm_addresses ws) (warm_slots ws) (original_storage ws) (dirty_storage ws)
    (all_accounts ws) (all_storage_slots ws) n (storage_heap ws).

(** * Keys of the tries *)

Definition address_to_key (addr : address_t) : hash_t := keccak256 addr.
Definition slot_to_key (slot : uint256_t) : hash_t := keccak256 (uint256_to_bytes_be slot).

(** * Accounts *)

(** The keys of one address, collected at most 64 at a time. *)
Fixpoint erase_slots_loop (fuel : nat) (all_slots : M warm_slot_key_t unit) (addr : address_t) : M warm_slot_key_t unit + fault :=
  match fuel with
  | O => inr OutOfFuel
  | S fuel' =>
      let found := filter (fun k => address_equal (key_addr k) addr) (map fst (hm_items all_slots)) in
      let to_erase := firstn 64 found in
      let more_to_erase := (64 <? length found)%nat in
      let all_slots := fold_left (fun m k => hm_erase m k) to_erase all_slots in
      if more_to_erase then erase_slots_loop fuel' all_slots addr else inl all_slots
  end.

Definition erase_slots_for_address (all_slots : M warm_slot_key_t unit) (addr : address_t) : M warm_slot_key_t unit + fault :=
  erase_slots_loop (S (length (hm_items all_slots))) all_slots addr.

(** [None] stands for the result [false]. *)
Definition world_state_get_account (ws : world_state_t) (addr : address_t) : option account_t + fault :=
  let? value := mpt_get (state_trie ws) (address_to_key addr) in
  match value with
  | None => inl None
  | Some data => inl (account_rlp_decode data)
  end.

(** The account, or an empty one. *)
Definition account_or_empty (ws : world_state_t) (addr : address_t) : account_t + fault :=
  let? acc := world_state_get_account ws addr in
  inl (match acc with Some acc => acc | None => account_empty end).

Definition world_state_set_account (ws : world_state_t) (addr : address_t) (acc : account_t) : (world_state_t * bool) + fault :=
  let key := address_to_key addr in
  if Account.account_is_empty acc then
    let? r := mpt_delete keccak256 (state_trie ws) key in
    let ws := set_state_trie ws (fst r) in
    let? slots := erase_slots_for_address (all_storage_slots ws) addr in
    inl (set_tracking ws (dirty_storage ws) (hm_erase (all_accounts ws) addr) slots, true)
  else
    let ws := set_tracking ws (dirty_storage ws) (hs_insert (all_accounts ws) addr) (all_storage_slots ws) in
    match account_rlp_encode acc with
    | None => inr OutOfBounds
    | Some encoded =>
        if negb (b_alloc encoded) then inl (ws, false)
        else
          let? t := mpt_insert keccak256 (state_trie ws) key (b_data encoded) in
          inl (set_state_trie ws t, true)
    end.

(** A call that ignores the result. *)
Definition put_account (ws : world_state_t) (addr : address_t) (acc : account_t) : world_state_t + fault :=
  let? r := world_state_set_account ws addr acc in inl (fst r).

Definition ws_account_exists (ws : world_state_t) (addr : address_t) : bool + fault :=
  let? value := mpt_get (state_trie ws) (address_to_key addr) in
  inl (match value with Some _ => true | None => false end).

Definition ws_account_is_empty (ws : world_state_t) (addr : address_t) : bool + fault :=
  let? acc := world_state_get_account ws addr in
  inl (match acc with Some acc => Account.account_is_empty acc | None => true end).

Definition ws_create_contract (ws : world_state_t) (addr : address_t) : world_state_t + fault :=
  let? ex := ws_account_exists ws addr in
  if ex then inl ws
  else
    let acc := account_empty in
    put_account ws addr (Account 1 (acc_balance acc) (acc_storage_root acc) (acc_code_hash acc)).

Definition ws_delete_account (ws : world_state_t) (addr : address_t) : world_state_t + fault :=
  let? r := mpt_delete keccak256 (state_trie ws) (address_to_key addr) in
  let ws := set_state_trie ws (fst r) in
  let ws := set_storage_tries ws (hm_erase (storage_tries ws) addr) (storage_heap ws) in
  inl (set_code_store ws (hm_erase (code_store ws) addr)).

Definition with_balance (acc : account_t) (b : uint256_t) : account_t := Account (acc_nonce acc) b (acc_storage_root acc) (acc_code_hash acc).
Definition with_nonce (acc : account_t) (n : Z) : account_t := Account n (acc_balance acc) (acc_storage_root acc) (acc_code_hash acc).
Definition with_root (acc : account_t) (r : hash_t) : account_t := Account (acc_nonce acc) (acc_balance acc) r (acc_code_hash acc).
Definition with_code_hash (acc : account_t) (h : hash_t) : account_t := Account (acc_nonce acc) (acc_balance acc) (acc_storage_root acc) h.

Definition ws_get_balance (ws : world_state_t) (addr : address_t) : uint256_t + fault :=
  let? acc := world_state_get_account ws addr in
  inl (match acc with Some acc => acc_balance acc | None => uint256_zero end).

Definition ws_set_balance (ws : world_state_t) (addr : address_t) (balance : uint256_t) : world_state_t + fault :=
  let? acc := account_or_empty ws addr in
  put_account ws addr (with_balance acc balance).

Definition ws_add_balance (ws : world_state_t) (addr : address_t) (amount : uint256_t) : (world_state_t * bool) + fault :=
  let? acc := account_or_empty ws addr in
  let new_balance := uint256_add (acc_balance acc) amount in
  if uint256_lt new_balance (acc_balance acc) then inl (ws, false)
  else let? ws := put_account ws addr (with_balance acc new_balance) in inl (ws, true).

Definition ws_sub_balance (ws : world_state_t) (addr : address_t) (amount : uint256_t) : (world_state_t * bool) + fault :=
  let? acc := world_state_get_account ws addr in
  match acc with
  | None => inl (ws, uint256_is_zero amount)
  | Some acc =>
      if uint256_lt (acc_balance acc) amount then inl (ws, false)
      else let? ws := put_account ws addr (with_balance acc (uint256_sub (acc_balance acc) amount)) in inl (ws, true)
  end.

Definition ws_get_nonce (ws : world_state_t) (addr : address_t) : Z + fault :=
  let? acc := world_state_get_account ws addr in
  inl (match acc with Some acc => acc_nonce acc | None => 0 end).

Definition ws_set_nonce (ws : world_state_t) (addr : address_t) (nonce : Z) : world_state_t + fault :=
  let? acc := account_or_empty ws addr in
  put_account ws addr (with_nonce acc nonce).

Definition ws_increment_nonce (ws : world_state_t) (addr : address_t) : (world_state_t * Z) + fault :=
  let? acc := account_or_empty ws addr in
  let old_nonce := acc_nonce acc in
  if UINT64_MAX - 1 <=? acc_nonce acc then inl (ws, old_nonce)
  else let? ws := put_account ws addr (with_nonce acc (acc_nonce acc +64 1)) in inl (ws, old_nonce).

(** * Code *)

Definition ws_get_code (ws : world_state_t) (addr : address_t) : list Z :=
  match hm_get (code_store ws) addr with Some code => code | None => [] end.

Definition ws_get_code_size (ws : world_state_t) (addr : address_t) : Z := Z.of_nat (length (ws_get_code ws addr)).

Definition ws_get_code_hash (ws : world_state_t) (addr : address_t) : hash_t + fault :=
  let? acc := world_state_get_account ws addr in
  inl (match acc with Some acc => acc_code_hash acc | None => EMPTY_CODE_HASH end).

Definition ws_set_code (ws : world_state_t) (addr : address_t) (code : list Z) : world_state_t + fault :=
  let code_len := Z.of_nat (length code) in
  let code_bytes := if code_len >? 0 then snd (bytes_from_data bytes_init_arena code) else bytes_init_arena in
  let ws := set_code_store ws (hm_insert (code_store ws) addr (b_data code_bytes)) in
  let? acc := account_or_empty ws addr in
  put_account ws addr (with_code_hash acc (if code_len =? 0 then EMPTY_CODE_HASH else keccak256 code)).

(** * Storage *)

Definition ws_get_storage (ws : world_state_t) (addr : address_t) (slot : uint256_t) : uint256_t + fault :=
  match hm_get (storage_tries ws) addr with
  | None => inl uint256_zero
  | Some p =>
      match nth_error (storage_heap ws) p with
      | None => inr OutOfBounds
      | Some storage =>
          let? value := mpt_get storage (slot_to_key slot) in
          match value with
          | None | Some [] => inl uint256_zero
          | Some data => inl (uint256_from_bytes_be data)
          end
      end
  end.

Definition ws_get_original_storage (ws : world_state_t) (addr : address_t) (slot : uint256_t) : uint256_t + fault :=
  match hm_get (original_storage ws) (SlotKey addr slot) with
  | Some v => inl v
  | None => ws_get_storage ws addr slot
  end.

(** The pointer, and the state in which it is valid. *)
Definition world_state_get_storage_trie (ws : world_state_t) (addr : address_t) : world_state_t * nat :=
  match hm_get (storage_tries ws) addr with
  | Some p => (ws, p)
  | None =>
      let p := length (storage_heap ws) in
      (set_storage_tries ws (hm_insert (storage_tries ws) addr p) (storage_heap ws ++ [mpt_memory_backend_create]), p)
  end.

(** The loop over leading zero bytes. *)
Fixpoint strip_zeros (bs : list Z) : list Z :=
  match bs with b :: bs' => if b =? 0 then strip_zeros bs' else bs | [] => [] end.

Definition ws_set_storage (ws : world_state_t) (addr : address_t) (slot value : uint256_t) : world_state_t + fault :=
  let slot_key := SlotKey addr slot in
  let? ws :=
    (if hm_contains (original_storage ws) slot_key then inl ws
     else let? original := ws_get_storage ws addr slot in inl (set_original ws (hm_insert (original_storage ws) slot_key original))) in
  let slots :=
    if uint256_is_zero value then hm_erase (all_storage_slots ws) slot_key else hs_insert (all_storage_slots ws) slot_key in
  let ws := set_tracking ws (hs_insert (dirty_storage ws) addr) (all_accounts ws) slots in
  let '(ws, p) := world_state_get_storage_trie ws addr in
  match nth_error (storage_heap ws) p with
  | None => inr OutOfBounds
  | Some storage =>
      let key := slot_to_key slot in
      let? storage :=
        (if uint256_is_zero value then let? r := mpt_delete keccak256 storage key in inl (fst r)
         else mpt_insert keccak256 storage key (strip_zeros (uint256_to_bytes_be value))) in
      inl (set_storage_tries ws (storage_tries ws) (list_set (storage_heap ws) p storage))
  end.

(** * Access lists, transactions and snapshots *)

Definition ws_is_address_warm (ws : world_state_t) (addr : address_t) : bool := hm_contains (warm_addresses ws) addr.

Definition ws_warm_address (ws : world_state_t) (addr : address_t) : world_state_t * bool :=
  if hm_contains (warm_addresses ws) addr then (ws, false)
  else (set_warm ws (hs_insert (warm_addresses ws) addr) (warm_slots ws), true).

Definition ws_is_slot_warm (ws : world_state_t) (addr : address_t) (slot : uint256_t) : bool := hm_contains (warm_slots ws) (SlotKey addr slot).

Definition ws_warm_slot (ws : world_state_t) (addr : address_t) (slot : uint256_t) : world_state_t * bool :=
  let key := SlotKey addr slot in
  if hm_contains (warm_slots ws) key then (ws, false)
  else (set_warm ws (warm_addresses ws) (hs_insert (warm_slots ws) key), true).

Definition ws_begin_transaction (ws : world_state_t) : world_state_t :=
  let ws := set_warm ws (hm_clear (warm_addresses ws)) (hm_clear (warm_slots ws)) in
  set_original ws (hm_clear (original_storage ws)).

Definition ws_snapshot (ws : world_state_t) : world_state_t * Z :=
  let n := snapshot_counter ws +64 1 in (set_counter ws n, n).
Definition ws_revert_to_snapshot (ws : world_state_t) (snapshot_id : Z) : world_state_t := ws.
Definition ws_commit_snapshot (ws : world_state_t) (snapshot_id : Z) : world_state_t := ws.

(** * The root *)

(** One round of the loop over the dirty addresses. *)
Definition update_storage_root (ws : world_state_t) (addr : address_t) : world_state_t + fault :=
  match hm_get (storage_tries ws) addr with
  | None => inl ws
  | Some p =>
      match nth_error (storage_heap ws) p with
      | None => inr OutOfBounds
      | Some storage =>
          let? acc := account_or_empty ws addr in
          let? r := mpt_root_hash keccak256 storage in
          let ws := set_storage_tries ws (storage_tries ws) (list_set (storage_heap ws) p (fst r)) in
          put_account ws addr (with_root acc (snd r))
      end
  end.

Definition world_state_root (ws : world_state_t) : (world_state_t * hash_t) + fault :=
  let? ws := fold_left (fun ws a => let? ws := ws in update_storage_root ws (fst a)) (hm_items (dirty_storage ws)) (inl ws) in
  let ws := set_tracking ws (hm_clear (dirty_storage ws)) (all_accounts ws) (all_storage_slots ws) in
  let? r := mpt_root_hash keccak256 (state_trie ws) in
  inl (set_state_trie ws (fst r), snd r).

Definition world_state_clear (ws : world_state_t) : world_state_t :=
  WorldState (mpt_clear (state_trie ws)) (hm_clear (storage_tries ws)) (hm_clear (code_store ws)) (hm_clear (warm_addresses ws)) (hm_clear (warm_slots ws))
    (hm_clear (original_storage ws)) (hm_clear (dirty_storage ws)) (hm_clear (all_accounts ws)) (hm_clear (all_storage_slots ws)) (snapshot_counter ws) (storage_heap ws).

(** * Export

    [account_snapshot_t] without the two lengths, which are those of the lists. *)
Record storage_entry_t := StorageEntry { se_slot : uint256_t; se_value : uint256_t }.
Record account_snapshot_t := AccountSnapshot {
  as_address : address_t; as_balance : uint256_t; as_nonce : Z; as_code : list Z; as_storage : list storage_entry_t }.

Definition sizeof_account_snapshot : Z := 112.
Definition sizeof_storage_entry : Z := 64.

(** Phase 1; [None] is a failed allocation. *)
Fixpoint snapshot_accounts (ws : world_state_t) (addrs : list address_t) : option (list account_snapshot_t) + fault :=
  match addrs with
  | [] => inl (Some [])
  | addr :: addrs' =>
      let? acc := world_state_get_account ws addr in
      match acc with
      | None => snapshot_accounts ws addrs'
      | Some acc =>
          let code := match hm_get (code_store ws) addr with Some code => code | None => [] end in
          if (0 <? length code)%nat && negb (alloc_succeeds (Z.of_nat (length code))) then inl None
          else
            let? rest := snapshot_accounts ws addrs' in
            inl (match rest with Some rest => Some (AccountSnapshot addr (acc_balance acc) (acc_nonce acc) code [] :: rest) | None => None end)
      end
  end.

(** The first account with this address. *)
Fixpoint account_index (accs : list account_snapshot_t) (addr : address_t) : option nat :=
  match accs with
  | [] => None
  | acc :: accs' => if address_equal addr (as_address acc) then Some O else option_map S (account_index accs' addr)
  end.

(** Phase 2. *)
Definition count_slots (accs : list account_snapshot_t) (slots : list warm_slot_key_t) (counts : list nat) : list nat :=
  fold_left (fun counts key => match account_index accs (key_addr key) with
    | Some i => list_set counts i (S (nth i counts O))
    | None => counts end) slots counts.

(** Phase 4: the entries are added at the position the counter names, which has
    to be below the number that phase 3 allocated. *)
Fixpoint fill_slots (ws : world_state_t) (capacity : list nat) (slots : list warm_slot_key_t) (accs : list account_snapshot_t) : list account_snapshot_t + fault :=
  match slots with
  | [] => inl accs
  | key :: slots' =>
      match account_index accs (key_addr key) with
      | None => fill_slots ws capacity slots' accs
      | Some i =>
          match nth_error accs i with
          | None => inr OutOfBounds
          | Some acc =>
              let? value := ws_get_storage ws (as_address acc) (key_slot key) in
              if uint256_is_zero value then fill_slots ws capacity slots' accs
              else if (nth i capacity O <=? length (as_storage acc))%nat then inr OutOfBounds
              else
                let acc := AccountSnapshot (as_address acc) (as_balance acc) (as_nonce acc) (as_code acc) (as_storage acc ++ [StorageEntry (key_slot key) value]) in
                fill_slots ws capacity slots' (list_set accs i acc)
          end
      end
  end.

Definition world_state_snapshot (ws : world_state_t) : option (list account_snapshot_t) + fault :=
  let all_accts := map fst (hm_items (all_accounts ws)) in
  let all_slots := map fst (hm_items (all_storage_slots ws)) in
  let account_count := Z.of_nat (length all_accts) in
  if account_count =? 0 then inl (Some [])
  else if negb (alloc_succeeds (w64 (account_count * sizeof_account_snapshot))) then inl None
  else
    let? accs := snapshot_accounts ws all_accts in
    match accs with
    | None => inl None
    | Some accs =>
        let valid_count := Z.of_nat (length accs) in
        if valid_count =? 0 then inl (Some [])
        else if negb (alloc_succeeds (w64 (valid_count * 8))) then inl None
        else
          let slot_counts := count_slots accs all_slots (map (fun _ => O) accs) in
          if negb (forallb (fun n => (n =? 0)%nat || alloc_succeeds (w64 (Z.of_nat n * sizeof_storage_entry))) slot_counts) then inl None
          else let? accs := fill_slots ws slot_counts all_slots accs in inl (Some accs)
    end.

(** * The function table

    The interface has no faults; [or_else] gives the value that stands for one. *)
Definition or_else {A} (d : A) (x : A + fault) : A := match x with inl a => a | inr _ => d end.

Definition WORLD_STATE_VTABLE : StateAccess world_state_t := {|
  account_exists ws a := or_else false (ws_account_exists ws a);
  StateAccess.account_is_empty ws a := or_else true (ws_account_is_empty ws a);
  create_contract ws a := or_else ws (ws_create_contract ws a);
  delete_account ws a := or_else ws (ws_delete_account ws a);
  get_balance ws a := or_else uint256_zero (ws_get_balance ws a);
  set_balance ws a b := or_else ws (ws_set_balance ws a b);
  add_balance ws a v := or_else (ws, false) (ws_add_balance ws a v);
  sub_balance ws a v := or_else (ws, false) (ws_sub_balance ws a v);
  get_nonce ws a := or_else 0 (ws_get_nonce ws a);
  set_nonce ws a n := or_else ws (ws_set_nonce ws a n);
  increment_nonce ws a := or_else (ws, 0) (ws_increment_nonce ws a);
  get_code := ws_get_code;
  get_code_size := ws_get_code_size;
  get_code_hash ws a := or_else hash_zero (ws_get_code_hash ws a);
  set_code ws a c := or_else ws (ws_set_code ws a c);
  get_storage ws a k := or_else uint256_zero (ws_get_storage ws a k);
  get_original_storage ws a k := or_else uint256_zero (ws_get_original_storage ws a k);
  set_storage ws a k v := or_else ws (ws_set_storage ws a k v);
  is_address_warm := ws_is_address_warm;
  warm_address := ws_warm_address;
  is_slot_warm := ws_is_slot_warm;
  warm_slot := ws_warm_slot;
  begin_transaction := ws_begin_transaction;
  snapshot := ws_snapshot;
  revert_to_snapshot := ws_revert_to_snapshot;
  commit_snapshot := ws_commit_snapshot;
  state_root ws := or_else (ws, hash_zero) (world_state_root ws);
  get_jumpdest_analysis := None;
  set_jumpdest_analysis := None |}.
End World.
