(* ===== verification/WorldSpec.v ===== *)
(** What the operations of the world state do: its invariant, and for each
    operation that it ends without a fault, keeps the invariant, and which
    accounts, slots and codes it changes. *)
From Stdlib Require Import ZArith Lia List Bool.
From S2P Require Import Prelude Uint256 Types Effects Arena Stack Bytes Rlp RlpSpec Account StateAccess HashTable Nibbles Trie TrieSpec TrieMap WorldState.
Import ListNotations.
#[local] Open Scope Z_scope.
#[local] Open Scope word_scope.
#[local] Open Scope trie_scope.

#[local] Abbreviation empty_acc := Account.account_is_empty.

(** * Bytes *)

Lemma strip_zeros_min v : wf256 v -> strip_zeros (uint256_to_bytes_be v) = min_be (val v).
Proof.
  intros W. assert (E : forall bs, strip_zeros bs = skip_zeros bs) by (induction bs as [|b bs IH]; cbn; [reflexivity | rewrite IH; reflexivity]).
  rewrite E, uint256_to_bytes_be_spec by exact W. rewrite be_val_skip_zeros by apply be_bytes_ok. rewrite be_val_be_bytes. f_equal.
  apply Z.mod_small. exact (val_range _ W).
Qed.

Lemma min_be_small x : 0 < x < 2 ^ 256 -> value_ok (min_be x) /\ min_be x <> [] /\ uint256_from_bytes_be (min_be x) = of_Z256 x.
Proof.
  intros R. destruct (min_be_head x ltac:(lia)) as (b & bs & E & N & B). rewrite <- E in B. split; [split; [exact B|]|].
  - rewrite length_min_be. pose proof (nbytes_le x 32 ltac:(lia) ltac:(lia)). unfold VALUE_MAX. lia.
  - split; [rewrite E; discriminate|]. rewrite uint256_from_bytes_be_spec by exact B. rewrite be_val_min_be by lia. reflexivity.
Qed.

Lemma from_data_small code : 0 < Z.of_nat (length code) <= 65536 -> b_data (snd (bytes_from_data bytes_init_arena code)) = code.
Proof.
  intros L. unfold bytes_from_data, bytes_reserve, alloc_succeeds, DIV0_ARENA_BLOCK_SIZE. cbn [bytes_init_arena b_capacity b_alloc].
  destruct (Z.eqb_spec (Z.of_nat (length code)) 0); [lia|]. destruct (Z.leb_spec (Z.of_nat (length code)) 0); [lia|].
  rewrite (proj2 (Z.ltb_lt _ _)), (proj2 (Z.leb_le _ _)) by lia. reflexivity.
Qed.

Lemma option_ext {A} (o o' : option A) : (forall x, o = Some x <-> o' = Some x) -> o = o'.
Proof. intros H. destruct o as [x|]; [symmetry; apply H; reflexivity|]. destruct o' as [x|]; [apply H; reflexivity | reflexivity]. Qed.

(** * The tracked slots *)

Section World.
Context {M : Type -> Type -> Type} {HT : HashTables M} {HL : HashTableLaws M}.
Variable keccak256 : list Z -> hash_t.
Hypothesis keccak_wf : forall bs, wf_hash (keccak256 bs).
#[local] Abbreviation world := (@world_state_t M).
#[local] Abbreviation trie_ok := (trie_ok keccak256).

Lemma existsb_key {K} `{HashKey K} (k : K) ks : existsb (fun x => key_eq x k) ks = true <-> In k ks.
Proof.
  rewrite existsb_exists. split; [intros (x & I & E); apply key_eq_spec in E; subst; exact I | intros I; exists k; split; [exact I | apply key_eq_refl]].
Qed.

Lemma erase_loop_spec fuel : forall (m : M warm_slot_key_t unit) addr, (length (hm_items m) < fuel)%nat ->
  exists m', erase_slots_loop fuel m addr = inl m' /\ forall k, hm_get m' k = if address_equal (key_addr k) addr then None else hm_get m k.
Proof.
  induction fuel as [|fuel IH]; intros m addr F; [lia|]. cbn [erase_slots_loop]. set (found := filter _ _). set (m1 := fold_left _ _ _).
  assert (Found : forall k, In k found <-> hm_contains m k = true /\ address_equal (key_addr k) addr = true) by (intros k; unfold found; rewrite filter_In, in_keys; reflexivity).
  assert (G : forall k, hm_get m1 k = if existsb (fun x => key_eq x k) (firstn 64 found) then None else hm_get m k) by (intros k; apply get_erase_all).
  destruct (Nat.ltb_spec 64 (length found)) as [L|L].
  - assert (A : forall k, hm_get m1 k = if existsb (fun x => key_eq x k) (firstn 64 found) && address_equal (key_addr k) addr then None else hm_get m k).
    { intros k. rewrite G. destruct (existsb _ _) eqn:E; [|reflexivity]. apply existsb_key in E. rewrite <- (firstn_skipn 64 found) in Found.
      rewrite (proj2 (proj1 (Found k) (in_or_app _ _ _ (or_introl E)))). reflexivity. }
    destruct (IH m1 addr) as (m' & -> & H).
    + destruct found as [|k ks]; [cbn in L; lia|]. assert (length (hm_items m1) < length (hm_items m))%nat; [|lia]. apply (items_smaller m m1 k).
      * apply Found. left. reflexivity.
      * unfold hm_contains. rewrite G. cbn [firstn existsb]. rewrite key_eq_refl. reflexivity.
      * intros x. unfold hm_contains. rewrite G. destruct (existsb _ _); [discriminate | auto].
    + exists m'. split; [reflexivity|]. intros k. rewrite H, A. destruct (address_equal (key_addr k) addr); [reflexivity|]. rewrite andb_false_r. reflexivity.
  - exists m1. split; [reflexivity|]. intros k. rewrite G, firstn_all2 by exact L. destruct (existsb _ _) eqn:E.
    + apply existsb_key, Found in E as [_ ->]. reflexivity.
    + destruct (address_equal (key_addr k) addr) eqn:Ea; [|reflexivity]. destruct (hm_get m k) as [u|] eqn:Em; [|reflexivity]. exfalso.
      assert (I : In k found) by (apply Found; unfold hm_contains; rewrite Em; auto). apply existsb_key in I. congruence.
Qed.

Lemma erase_slots_spec (m : M warm_slot_key_t unit) addr :
  exists m', erase_slots_for_address m addr = inl m' /\ forall k, hm_get m' k = if address_equal (key_addr k) addr then None else hm_get m k.
Proof. apply erase_loop_spec. lia. Qed.

(** * The invariant *)

(** Keys are hashes of addresses, of slots. *)
Definition account_value (k : nibbles_t) (v : list Z) : Prop :=
  exists a acc, k = unpack (keccak256 a) /\ account_ok acc /\ empty_acc acc = false /\ v = enc_list (account_payload acc).
Definition slot_value (k : nibbles_t) (v : list Z) : Prop := exists j x, k = unpack (keccak256 (uint256_to_bytes_be j)) /\ 0 < x < 2 ^ 256 /\ v = min_be x.
Definition trie_of (P : nibbles_t -> list Z -> Prop) (t : mpt_t) : Prop := trie_ok t /\ forall k v, at_key t k v -> P k v.

Record world_ok (ws : world) : Prop := {
  wo_accounts : trie_of account_value (state_trie ws);
  wo_storage : Forall (trie_of slot_value) (storage_heap ws);
  wo_pointers : forall a p, hm_get (storage_tries ws) a = Some p -> (p < length (storage_heap ws))%nat;
  wo_separate : forall a b p, hm_get (storage_tries ws) a = Some p -> hm_get (storage_tries ws) b = Some p -> a = b;
  wo_code : forall a c, hm_get (code_store ws) a = Some c -> bytes_ok c /\ Z.of_nat (length c) <= 65536;
  wo_original : forall k v, hm_get (original_storage ws) k = Some v -> wf256 v }.

Lemma hash_key_ok bs : key_ok (keccak256 bs).
Proof. destruct (keccak_wf bs) as [L B]. split; [exact B|]. rewrite L. unfold HASH_SIZE. lia. Qed.

Lemma keccak_bytes bs : bytes_ok bs -> wf_hash (keccak256 bs).
Proof. intros _. apply keccak_wf. Qed.

Lemma other_key x y : bytes_eqb (keccak256 x) (keccak256 y) = false -> unpack (keccak256 y) <> unpack (keccak256 x).
Proof.
  intros E X. apply unpack_inj in X; [|apply keccak_wf|apply keccak_wf]. rewrite X, (proj2 (bytes_eqb_eq _ _) eq_refl) in E. discriminate.
Qed.

(** * Tries whose values are of one kind *)

Lemma trie_of_get P t bs : trie_of P t -> exists o, mpt_get t (keccak256 bs) = inl o /\ forall v, o = Some v -> P (unpack (keccak256 bs)) v.
Proof.
  intros [T V]. destruct (mpt_get_spec keccak256 t (keccak256 bs) T (hash_key_ok bs)) as (o & E & H). exists o. split; [exact E|].
  intros v Ev. apply V, H, Ev.
Qed.

Lemma trie_of_insert P t bs v : trie_of P t -> P (unpack (keccak256 bs)) v -> value_ok v -> exists t', mpt_insert keccak256 t (keccak256 bs) v = inl t' /\ trie_of P t' /\
  forall bs', mpt_get t' (keccak256 bs') = if bytes_eqb (keccak256 bs) (keccak256 bs') then inl (Some v) else mpt_get t (keccak256 bs').
Proof.
  intros [T V] Pv Wv. destruct (mpt_insert_spec keccak256 keccak_bytes t _ v T (hash_key_ok bs) Wv) as (t' & E & T' & U). exists t'. split; [exact E|].
  split; [split; [exact T'|]; intros k w Hk; apply U in Hk as [[-> ->]|[_ Hk]]; [exact Pv | exact (V k w Hk)]|].
  intros bs'. destruct (mpt_get_spec keccak256 t' _ T' (hash_key_ok bs')) as (o' & -> & H'). destruct (bytes_eqb _ _) eqn:Eb.
  - apply bytes_eqb_eq in Eb. rewrite <- Eb in H'. f_equal. apply H'. apply U. left. auto.
  - destruct (mpt_get_spec keccak256 t _ T (hash_key_ok bs')) as (o & -> & H). f_equal.
    pose proof (other_key _ _ Eb) as N. apply option_ext. intros w. rewrite H', H. unfold holds. rewrite (U _ w). tauto.
Qed.

Lemma trie_of_delete P t bs : trie_of P t -> exists t' found, mpt_delete keccak256 t (keccak256 bs) = inl (t', found) /\ trie_of P t' /\
  forall bs', mpt_get t' (keccak256 bs') = if bytes_eqb (keccak256 bs) (keccak256 bs') then inl None else mpt_get t (keccak256 bs').
Proof.
  intros [T V]. destruct (mpt_delete_spec keccak256 keccak_bytes t _ T (hash_key_ok bs)) as (t' & found & E & T' & _ & U). exists t', found. split; [exact E|].
  split; [split; [exact T'|]; intros k w Hk; apply U in Hk as [_ Hk]; exact (V k w Hk)|].
  intros bs'. destruct (mpt_get_spec keccak256 t' _ T' (hash_key_ok bs')) as (o' & -> & H'). destruct (bytes_eqb _ _) eqn:Eb.
  - apply bytes_eqb_eq in Eb. rewrite <- Eb in H'. f_equal. destruct o' as [w|]; [|reflexivity]. destruct (proj1 (U _ w) (proj1 (H' w) eq_refl)) as [[] _]. reflexivity.
  - destruct (mpt_get_spec keccak256 t _ T (hash_key_ok bs')) as (o & -> & H). f_equal.
    pose proof (other_key _ _ Eb) as N. apply option_ext. intros w. rewrite H', H. unfold holds. rewrite (U _ w). tauto.
Qed.

Lemma trie_of_root P t : trie_of P t -> exists t', mpt_root_hash keccak256 t = inl (t', root_of keccak256 t) /\ trie_of P t' /\
  root_of keccak256 t' = root_of keccak256 t /\ (forall k v, at_key t' k v <-> at_key t k v) /\ forall bs, mpt_get t' (keccak256 bs) = mpt_get t (keccak256 bs).
Proof.
  intros [T V]. destruct (mpt_root_hash_spec keccak256 keccak_bytes t T) as (t' & E & T' & R & U). exists t'. split; [exact E|].
  split; [split; [exact T' | intros k v Hk; apply (V k), U, Hk]|]. split; [exact R|]. split; [exact U|]. intros bs.
  destruct (mpt_get_spec keccak256 t' _ T' (hash_key_ok bs)) as (o' & -> & H'). destruct (mpt_get_spec keccak256 t _ T (hash_key_ok bs)) as (o & -> & H). f_equal. apply option_ext. intros w. rewrite H', H. unfold holds. rewrite (U _ w). tauto.
Qed.

(** * What a world state holds *)

Definition same_key (x y : list Z) : bool := bytes_eqb (keccak256 x) (keccak256 y).

Lemma same_key_refl x : same_key x x = true.
Proof. apply bytes_eqb_eq. reflexivity. Qed.

Definition acct (ws : world) (a : address_t) : option account_t := or_else None (world_state_get_account keccak256 ws a).
Definition slot_at (ws : world) (a : address_t) (k : uint256_t) : uint256_t := or_else uint256_zero (ws_get_storage keccak256 ws a k).
Definition acct_or (ws : world) (a : address_t) : account_t := match acct ws a with Some acc => acc | None => account_empty end.

Lemma get_account_spec ws a : world_ok ws ->
  world_state_get_account keccak256 ws a = inl (acct ws a) /\ (forall acc, acct ws a = Some acc -> account_ok acc /\ empty_acc acc = false) /\
  mpt_get (state_trie ws) (keccak256 a) = inl (option_map (fun acc => enc_list (account_payload acc)) (acct ws a)).
Proof.
  intros W. unfold acct, world_state_get_account, address_to_key. destruct (trie_of_get _ _ a (wo_accounts ws W)) as (o & -> & H). cbn [try].
  destruct o as [v|]; cbn [or_else]; [|split; [reflexivity|]; split; [discriminate | reflexivity]].
  destruct (H v eq_refl) as (a' & acc & _ & A & N & ->). rewrite account_decode_encode by exact A. split; [reflexivity|]. split; [intros ? [= <-]; auto | reflexivity].
Qed.

Lemma acct_or_ok ws a : world_ok ws -> account_or_empty keccak256 ws a = inl (acct_or ws a) /\ account_ok (acct_or ws a).
Proof.
  intros W. destruct (get_account_spec ws a W) as (E & H & _). unfold account_or_empty, acct_or. rewrite E. cbn [try]. split; [reflexivity|].
  destruct (acct ws a) as [acc|]; [apply (H acc eq_refl) | apply account_empty_ok].
Qed.

(** ** Accounts *)

(** The parts that updates of accounts leave alone. *)
Record same_rest (ws ws' : world) : Prop := {
  sr_tries : storage_tries ws' = storage_tries ws;
  sr_heap : storage_heap ws' = storage_heap ws;
  sr_code : code_store ws' = code_store ws;
  sr_warm : warm_addresses ws' = warm_addresses ws;
  sr_warm_slots : warm_slots ws' = warm_slots ws;
  sr_original : original_storage ws' = original_storage ws;
  sr_dirty : dirty_storage ws' = dirty_storage ws;
  sr_counter : snapshot_counter ws' = snapshot_counter ws }.

Lemma world_ok_rest ws ws' : world_ok ws -> same_rest ws ws' -> trie_of account_value (state_trie ws') -> world_ok ws'.
Proof. intros [A1 A2 A3 A4 A5 A6] [R1 R2 R3 R4 R5 R6 R7 R8] T. split; rewrite ?R1, ?R2, ?R3, ?R6; assumption. Qed.

Lemma acct_get ws ws' a b o : (forall c, mpt_get (state_trie ws') (keccak256 c) = if same_key a c then inl o else mpt_get (state_trie ws) (keccak256 c)) ->
  acct ws' b = if same_key a b then match o with Some d => account_rlp_decode d | None => None end else acct ws b.
Proof. intros H. unfold acct, world_state_get_account, address_to_key. rewrite H. destruct (same_key a b); [|reflexivity]. destruct o; reflexivity. Qed.

Definition tracks (ws ws' : world) (a : address_t) (acc : account_t) : Prop :=
  (forall b, hm_contains (all_accounts ws') b = if empty_acc acc then negb (address_equal a b) && hm_contains (all_accounts ws) b else address_equal a b || hm_contains (all_accounts ws) b) /\
  (forall k, hm_contains (all_storage_slots ws') k = negb (empty_acc acc && address_equal (key_addr k) a) && hm_contains (all_storage_slots ws) k).

(** The state [ws'] is [ws] with the account at [a] replaced. *)
Record account_update (ws : world) (a : address_t) (acc : account_t) (ws' : world) : Prop := {
  au_ok : world_ok ws';
  au_acct : forall b, acct ws' b = if same_key a b then (if empty_acc acc then None else Some acc) else acct ws b;
  au_rest : same_rest ws ws';
  au_tracks : tracks ws ws' a acc }.

Lemma set_account_spec ws a acc : world_ok ws -> account_ok acc ->
  exists ws', world_state_set_account keccak256 ws a acc = inl (ws', true) /\ account_update ws a acc ws'.
Proof.
  intros W A. unfold world_state_set_account, address_to_key. destruct (empty_acc acc) eqn:E.
  - destruct (trie_of_delete _ _ a (wo_accounts ws W)) as (t' & found & -> & T' & G). cbn [try].
    destruct (erase_slots_spec (all_storage_slots ws) a) as (m' & Em & Hm). change (all_storage_slots (set_state_trie ws (fst (t', found)))) with (all_storage_slots ws).
    rewrite Em. cbn [try]. eexists. split; [reflexivity|]. assert (R : same_rest ws (set_tracking (set_state_trie ws (fst (t', found))) (dirty_storage ws) (hm_erase (all_accounts ws) a) m')) by (split; reflexivity).
    split; [exact (world_ok_rest _ _ W R T') | | exact R |].
    + intros b. rewrite E. apply (acct_get ws _ a b None). exact G.
    + split; rewrite E; [intros b; exact (contains_erase (all_accounts ws) a b)|]. intros k. unfold hm_contains. cbn [all_storage_slots set_tracking andb]. rewrite Hm. destruct (address_equal (key_addr k) a); reflexivity.
  - rewrite account_encode_spec by exact A. cbn [b_alloc filled negb b_data].
    assert (V : account_value (unpack (keccak256 a)) (enc_list (account_payload acc))) by (exists a, acc; auto).
    assert (VO : value_ok (enc_list (account_payload acc))).
    { pose proof (length_payload acc A) as L. split.
      - destruct A. apply bytes_ok_enc_list; [|lia]. unfold account_payload. auto 6 with rlp.
      - unfold enc_list. rewrite length_app. pose proof (length_header 192 (Z.of_nat (length (account_payload acc))) ltac:(lia)) as LH. unfold VALUE_MAX. lia. }
    change (state_trie (set_tracking ws (dirty_storage ws) (hs_insert (all_accounts ws) a) (all_storage_slots ws))) with (state_trie ws).
    destruct (trie_of_insert _ _ a _ (wo_accounts ws W) V VO) as (t' & -> & T' & G). cbn [try]. eexists. split; [reflexivity|].
    assert (R : same_rest ws (set_state_trie (set_tracking ws (dirty_storage ws) (hs_insert (all_accounts ws) a) (all_storage_slots ws)) t')) by (split; reflexivity).
    split; [exact (world_ok_rest _ _ W R T') | | exact R |].
    + intros b. rewrite E. rewrite <- (account_decode_encode acc A). apply (acct_get ws _ a b (Some _)). exact G.
    + split; rewrite E; [intros b; exact (contains_insert (all_accounts ws) a b) | reflexivity].
Qed.

Lemma put_account_spec ws a acc : world_ok ws -> account_ok acc -> exists ws', put_account keccak256 ws a acc = inl ws' /\ account_update ws a acc ws'.
Proof. intros W A. destruct (set_account_spec ws a acc W A) as (ws' & E & U). exists ws'. unfold put_account. rewrite E. auto. Qed.

Lemma slot_at_rest ws ws' a k : same_rest ws ws' -> slot_at ws' a k = slot_at ws a k.
Proof. intros [R1 R2 _ _ _ _ _ _]. unfold slot_at, ws_get_storage. rewrite R1, R2. reflexivity. Qed.

Lemma get_code_rest ws ws' a : same_rest ws ws' -> ws_get_code ws' a = ws_get_code ws a.
Proof. intros R. unfold ws_get_code. rewrite (sr_code _ _ R). reflexivity. Qed.

Lemma exists_spec ws a : world_ok ws -> ws_account_exists keccak256 ws a = inl (match acct ws a with Some _ => true | None => false end).
Proof. intros W. destruct (get_account_spec ws a W) as (_ & _ & E). unfold ws_account_exists, address_to_key. rewrite E. cbn [try]. destruct (acct ws a); reflexivity. Qed.

(** ** Storage *)

Definition slot_bytes (k : uint256_t) : list Z := uint256_to_bytes_be k.

(** The word a value of a storage trie stands for. *)
Definition word_of (value : option (list Z)) : uint256_t := match value with None | Some [] => uint256_zero | Some data => uint256_from_bytes_be data end.

Definition slot_in (t : mpt_t) (k : uint256_t) : uint256_t := or_else uint256_zero (try (mpt_get t (keccak256 (slot_bytes k))) (fun o => inl (word_of o))).

Lemma slot_in_spec t k : trie_of slot_value t ->
  try (mpt_get t (keccak256 (slot_bytes k))) (fun o => inl (word_of o)) = inl (slot_in t k) /\ wf256 (slot_in t k).
Proof.
  intros T. unfold slot_in. destruct (trie_of_get _ t (slot_bytes k) T) as (o & -> & H). cbn [try or_else]. split; [reflexivity|].
  destruct o as [v|]; [|apply wf_zero]. destruct (H v eq_refl) as (j & x & _ & R & ->). destruct (min_be_small x R) as (_ & N & E). cbn [word_of].
  destruct (min_be x) as [|b bs]; [congruence|]. rewrite E. apply wf_of_Z256.
Qed.

Lemma slot_in_get t t' k o : (forall bs, mpt_get t' (keccak256 bs) = if same_key (slot_bytes k) bs then inl o else mpt_get t (keccak256 bs)) ->
  forall j, slot_in t' j = if same_key (slot_bytes k) (slot_bytes j) then word_of o else slot_in t j.
Proof. intros H j. unfold slot_in. rewrite H. destruct (same_key _ _); reflexivity. Qed.

(** The storage trie of an address. *)
Definition trie_at (ws : world) (a : address_t) : option mpt_t := match hm_get (storage_tries ws) a with Some p => nth_error (storage_heap ws) p | None => None end.

Lemma pointer_valid ws a p : world_ok ws -> hm_get (storage_tries ws) a = Some p -> exists t, nth_error (storage_heap ws) p = Some t /\ trie_of slot_value t.
Proof.
  intros W E. pose proof (wo_pointers ws W a p E) as L. destruct (nth_error (storage_heap ws) p) as [t|] eqn:N; [|apply nth_error_None in N; lia].
  exists t. split; [reflexivity|]. pose proof (wo_storage ws W) as F. rewrite Forall_forall in F. apply F, (nth_error_In _ _ N).
Qed.

Lemma slot_at_trie ws a k : world_ok ws -> slot_at ws a k = match trie_at ws a with Some t => slot_in t k | None => uint256_zero end.
Proof.
  intros W. unfold slot_at, ws_get_storage, trie_at, slot_to_key. destruct (hm_get (storage_tries ws) a) as [p|] eqn:E; [|reflexivity].
  destruct (pointer_valid ws a p W E) as (t & -> & T). unfold slot_in. fold (slot_bytes k). destruct (mpt_get t _) as [[[|b bs]|]|]; reflexivity.
Qed.

Lemma get_storage_spec ws a k : world_ok ws -> ws_get_storage keccak256 ws a k = inl (slot_at ws a k) /\ wf256 (slot_at ws a k).
Proof.
  intros W. assert (S : ws_get_storage keccak256 ws a k = match hm_get (storage_tries ws) a with None => inl uint256_zero | Some p => match nth_error (storage_heap ws) p with
      None => inr OutOfBounds | Some t => try (mpt_get t (keccak256 (slot_bytes k))) (fun o => inl (word_of o)) end end).
  { unfold ws_get_storage, slot_to_key. destruct (hm_get (storage_tries ws) a); [|reflexivity]. destruct (nth_error _ _) as [t|]; [|reflexivity]. fold (slot_bytes k). destruct (mpt_get t _) as [[[|b bs]|]|]; reflexivity. }
  unfold slot_at. rewrite S. destruct (hm_get (storage_tries ws) a) as [p|] eqn:E; [|split; [reflexivity | apply wf_zero]].
  destruct (pointer_valid ws a p W E) as (t & -> & T). destruct (slot_in_spec t k T) as (-> & V). split; [reflexivity | exact V].
Qed.

(** The trie of [a] replaced. *)
Lemma heap_update ws a p t' : world_ok ws -> hm_get (storage_tries ws) a = Some p -> trie_of slot_value t' ->
  let ws' := set_storage_tries ws (storage_tries ws) (list_set (storage_heap ws) p t') in
  world_ok ws' /\ forall b, trie_at ws' b = if address_equal a b then Some t' else trie_at ws b.
Proof.
  intros W E T ws'. pose proof (wo_pointers ws W a p E) as L. split.
  - destruct W as [A1 A2 A3 A4 A5 A6]. split; cbn [ws' state_trie storage_heap storage_tries code_store original_storage set_storage_tries]; try assumption.
    + apply Forall_list_set; assumption.
    + intros b q Hb. rewrite length_list_set. exact (A3 b q Hb).
  - intros b. unfold trie_at, ws'. cbn [storage_tries storage_heap set_storage_tries]. change (address_equal a b) with (key_eq a b). destruct (key_eq_case a b) as [[-> <-]|[-> N]].
    + rewrite E, nth_error_list_set, Nat.eqb_refl by exact L. reflexivity.
    + destruct (hm_get (storage_tries ws) b) as [q|] eqn:Eb; [|reflexivity]. rewrite nth_error_list_set by exact L.
      destruct (Nat.eqb_spec p q) as [<-|_]; [|reflexivity]. exfalso. exact (N (wo_separate ws W a b p E Eb)).
Qed.

(** The parts that storage operations leave alone. *)
Record same_accounts (ws ws' : world) : Prop := {
  sa_trie : state_trie ws' = state_trie ws;
  sa_code : code_store ws' = code_store ws;
  sa_warm : warm_addresses ws' = warm_addresses ws;
  sa_warm_slots : warm_slots ws' = warm_slots ws;
  sa_accounts : all_accounts ws' = all_accounts ws;
  sa_counter : snapshot_counter ws' = snapshot_counter ws }.

Lemma acct_same ws ws' a : state_trie ws' = state_trie ws -> acct ws' a = acct ws a.
Proof. intros E. unfold acct, world_state_get_account. rewrite E. reflexivity. Qed.

Lemma storage_trie_spec ws a : world_ok ws -> exists ws' p t, world_state_get_storage_trie ws a = (ws', p) /\ world_ok ws' /\
  hm_get (storage_tries ws') a = Some p /\ nth_error (storage_heap ws') p = Some t /\ trie_of slot_value t /\ (forall k, slot_in t k = slot_at ws a k) /\
  (forall b k, slot_at ws' b k = slot_at ws b k) /\ same_accounts ws ws' /\ original_storage ws' = original_storage ws /\
  dirty_storage ws' = dirty_storage ws /\ all_storage_slots ws' = all_storage_slots ws /\ (forall b, hm_contains (storage_tries ws') b = address_equal a b || hm_contains (storage_tries ws) b).
Proof.
  intros W. unfold world_state_get_storage_trie. destruct (hm_get (storage_tries ws) a) as [p|] eqn:E.
  - destruct (pointer_valid ws a p W E) as (t & N & T). exists ws, p, t. split; [reflexivity|]. split; [exact W|]. split; [exact E|]. split; [exact N|]. split; [exact T|].
    split; [intros k; rewrite slot_at_trie by exact W; unfold trie_at; rewrite E, N; reflexivity|]. repeat split. intros b. change (address_equal a b) with (key_eq a b).
    destruct (key_eq_case a b) as [[-> <-]|[-> _]]; [unfold hm_contains; rewrite E; reflexivity | reflexivity].
  - set (ws' := set_storage_tries _ _ _). pose proof W as [A1 A2 A3 A4 A5 A6]. assert (G : forall b, hm_get (storage_tries ws') b = if key_eq a b then Some (length (storage_heap ws)) else hm_get (storage_tries ws) b).
    { intros b. unfold ws'. cbn [storage_tries set_storage_tries]. rewrite get_insert, E. reflexivity. }
    assert (T0 : trie_of slot_value mpt_memory_backend_create) by (split; [exact I | intros k v []]).
    assert (W' : world_ok ws').
    { split; try assumption.
      - unfold ws'. cbn [storage_heap set_storage_tries]. apply Forall_app. split; [exact A2 | constructor; [exact T0 | constructor]].
      - intros b q. rewrite G. unfold ws'. cbn [storage_heap set_storage_tries]. rewrite length_app. cbn [length]. destruct (key_eq a b); [intros [= <-]; lia|]. intros Hb. specialize (A3 b q Hb). lia.
      - intros b c q. rewrite !G. destruct (key_eq_case a b) as [[-> <-]|[-> Nb]], (key_eq_case a c) as [[-> <-]|[-> Nc]]; [reflexivity| | |apply A4].
        + intros [= <-] Hc. specialize (A3 c _ Hc). lia.
        + intros Hb [= <-]. specialize (A3 b _ Hb). lia. }
    assert (O : forall b, b <> a -> trie_at ws' b = trie_at ws b).
    { intros b Nb. unfold trie_at. rewrite G. destruct (key_eq_case a b) as [[_ X]|[-> _]]; [congruence|]. destruct (hm_get (storage_tries ws) b) as [q|] eqn:Eb; [|reflexivity].
      unfold ws'. cbn [storage_heap set_storage_tries]. apply nth_error_app1, (A3 b q Eb). }
    assert (Nn : nth_error (storage_heap ws') (length (storage_heap ws)) = Some mpt_memory_backend_create).
    { unfold ws'. cbn [storage_heap set_storage_tries]. rewrite nth_error_app2, Nat.sub_diag by lia. reflexivity. }
    assert (Ga : hm_get (storage_tries ws') a = Some (length (storage_heap ws))) by (rewrite G, key_eq_refl; reflexivity).
    exists ws', (length (storage_heap ws)), mpt_memory_backend_create. split; [reflexivity|]. split; [exact W'|]. split; [exact Ga|]. split; [exact Nn|]. split; [exact T0|].
    split; [intros k; rewrite slot_at_trie by exact W; unfold trie_at; rewrite E; reflexivity|]. split; [|repeat split; intros b; unfold hm_contains; rewrite G; change (address_equal a b) with (key_eq a b); destruct (key_eq a b); reflexivity].
    intros b k. rewrite !slot_at_trie by assumption. destruct (key_eq_case b a) as [[_ ->]|[_ Nb]]; [|rewrite O by exact Nb; reflexivity].
    unfold trie_at. rewrite Ga, Nn, E. reflexivity.
Qed.

(** The state [ws'] is [ws] after [value] was written to the slot [k] of [a]. *)
Record storage_update (ws : world) (a : address_t) (k value : uint256_t) (ws' : world) : Prop := {
  su_ok : world_ok ws';
  su_slot : forall b j, slot_at ws' b j = if address_equal a b && same_key (slot_bytes k) (slot_bytes j) then value else slot_at ws b j;
  su_rest : same_accounts ws ws';
  su_original : forall key, hm_get (original_storage ws') key =
    if key_eq (SlotKey a k) key then Some (match hm_get (original_storage ws) key with Some v => v | None => slot_at ws a k end) else hm_get (original_storage ws) key;
  su_dirty : forall b, hm_contains (dirty_storage ws') b = address_equal a b || hm_contains (dirty_storage ws) b;
  su_tracks : forall key, hm_contains (all_storage_slots ws') key =
    if key_eq (SlotKey a k) key then negb (uint256_is_zero value) else hm_contains (all_storage_slots ws) key;
  su_tries : forall b, hm_contains (storage_tries ws') b = address_equal a b || hm_contains (storage_tries ws) b }.

(** Recording the value before the first write. *)
Definition record_original (ws : world) (a : address_t) (k : uint256_t) : M warm_slot_key_t uint256_t :=
  if hm_contains (original_storage ws) (SlotKey a k) then original_storage ws else hm_insert (original_storage ws) (SlotKey a k) (slot_at ws a k).

Lemma record_original_get ws a k key : hm_get (record_original ws a k) key =
  if key_eq (SlotKey a k) key then Some (match hm_get (original_storage ws) key with Some v => v | None => slot_at ws a k end) else hm_get (original_storage ws) key.
Proof.
  unfold record_original, hm_contains. destruct (hm_get (original_storage ws) (SlotKey a k)) as [v|] eqn:E.
  - destruct (key_eq_case (SlotKey a k) key) as [[-> <-]|[-> _]]; [rewrite E; reflexivity | reflexivity].
  - rewrite get_insert, E. destruct (key_eq_case (SlotKey a k) key) as [[-> <-]|[-> _]]; [rewrite E; reflexivity | reflexivity].
Qed.

Lemma write_trie t k value : trie_of slot_value t -> wf256 value -> exists t',
  (if uint256_is_zero value then try (mpt_delete keccak256 t (slot_to_key keccak256 k)) (fun r => inl (fst r))
   else mpt_insert keccak256 t (slot_to_key keccak256 k) (strip_zeros (uint256_to_bytes_be value))) = inl t' /\ trie_of slot_value t' /\
  forall j, slot_in t' j = if same_key (slot_bytes k) (slot_bytes j) then value else slot_in t j.
Proof.
  intros T V. unfold slot_to_key. fold (slot_bytes k). rewrite uint256_is_zero_spec by exact V. destruct (Z.eqb_spec (val value) 0) as [Z0|NZ].
  - destruct (trie_of_delete _ t (slot_bytes k) T) as (t' & found & -> & T' & G). exists t'. split; [reflexivity|]. split; [exact T'|].
    intros j. rewrite (slot_in_get t t' k None G j). destruct (same_key _ _); [|reflexivity]. apply val_inj; [apply wf_zero | exact V|]. rewrite Z0. reflexivity.
  - rewrite strip_zeros_min by exact V. pose proof (val_range _ V) as R. destruct (min_be_small (val value) ltac:(lia)) as (VO & NE & FB).
    destruct (trie_of_insert _ t (slot_bytes k) (min_be (val value)) T ltac:(exists k, (val value); split; [reflexivity|]; split; [lia | reflexivity]) VO) as (t' & -> & T' & G). exists t'.
    split; [reflexivity|]. split; [exact T'|]. intros j. rewrite (slot_in_get t t' k _ G j). destruct (same_key _ _); [|reflexivity]. cbn [word_of].
    destruct (min_be (val value)) as [|b bs]; [congruence|]. rewrite FB. apply of_Z256_val, V.
Qed.

Lemma set_storage_spec ws a k value : world_ok ws -> wf256 value -> exists ws', ws_set_storage keccak256 ws a k value = inl ws' /\ storage_update ws a k value ws'.
Proof.
  intros W V. unfold ws_set_storage. cbv zeta.
  pose proof (record_original_get ws a k) as RO. destruct (get_storage_spec ws a k W) as [GS WS].
  assert (S1 : (if hm_contains (original_storage ws) (SlotKey a k) then inl ws else
      try (ws_get_storage keccak256 ws a k) (fun original => inl (set_original ws (hm_insert (original_storage ws) (SlotKey a k) original)))) = inl (set_original ws (record_original ws a k))).
  { unfold record_original. destruct (hm_contains _ _); [destruct ws; reflexivity|]. rewrite GS. reflexivity. }
  rewrite S1. cbn [try]. clear S1. set (ws2 := set_tracking _ _ _ _).
  assert (W2 : world_ok ws2).
  { destruct W as [A1 A2 A3 A4 A5 A6]. split; try assumption. intros key v. unfold ws2. cbn [original_storage set_tracking set_original]. rewrite RO.
    destruct (key_eq _ _); [|apply A6]. intros [= <-]. destruct (hm_get (original_storage ws) key) as [v0|] eqn:E; [exact (A6 key v0 E) | exact WS]. }
  destruct (storage_trie_spec ws2 a W2) as (ws3 & p & t & -> & W3 & P & N & T & Tk & Sl & SA & O3 & D3 & T3 & HT3). rewrite N.
  destruct (write_trie t k value T V) as (t' & E4 & T' & H4). unfold slot_to_key in E4 |- *. rewrite E4. cbn [try]. eexists. split; [reflexivity|].
  destruct (heap_update ws3 a p t' W3 P T') as [W5 TA]. destruct SA as [SA1 SA2 SA3 SA4 SA5 SA6]. split; [exact W5| |split; assumption|..].
  - intros b j. rewrite slot_at_trie by exact W5. rewrite TA. change (address_equal a b) with (key_eq a b). destruct (key_eq_case a b) as [[-> <-]|[-> _]]; cbn [andb].
    + rewrite H4, Tk. reflexivity.
    + rewrite <- slot_at_trie by exact W3. rewrite Sl. reflexivity.
  - intros key. cbn [original_storage set_storage_tries]. rewrite O3. apply RO.
  - intros b. cbn [dirty_storage set_storage_tries]. rewrite D3. exact (contains_insert (dirty_storage ws) a b).
  - intros key. cbn [all_storage_slots set_storage_tries]. rewrite T3. unfold ws2. cbn [all_storage_slots set_tracking set_original].
    destruct (uint256_is_zero value); cbn [negb]; [rewrite contains_erase | rewrite contains_insert]; destruct (key_eq (SlotKey a k) key); reflexivity.
  - intros b. exact (HT3 b).
Qed.

(** ** Code *)

Definition code_size_ok (code : list Z) : Prop := bytes_ok code /\ Z.of_nat (length code) <= 65536.

Definition code_hash_of (code : list Z) : hash_t := if Z.of_nat (length code) =? 0 then EMPTY_CODE_HASH else keccak256 code.

(** Insertion does not replace the code that is there. *)
Definition store_code (ws : world) (a : address_t) (code : list Z) : world := set_code_store ws (hm_insert (code_store ws) a code).

Lemma store_code_ok ws a code : world_ok ws -> code_size_ok code -> world_ok (store_code ws a code).
Proof.
  intros [A1 A2 A3 A4 A5 A6] C. split; try assumption. intros b c. cbn [store_code code_store set_code_store]. rewrite get_insert.
  destruct (key_eq_case a b) as [[-> <-]|[-> _]]; [|apply A5]. destruct (hm_get (code_store ws) a) as [c0|] eqn:E; intros [= <-]; [exact (A5 a c0 E) | exact C].
Qed.

Lemma code_hash_wf_of code : wf_hash (code_hash_of code).
Proof. unfold code_hash_of. destruct (_ =? 0); [apply wf_empty_code | apply keccak_wf]. Qed.

Lemma set_code_spec ws a code : world_ok ws -> code_size_ok code -> exists ws', ws_set_code keccak256 ws a code = inl ws' /\
  account_update (store_code ws a code) a (with_code_hash (acct_or ws a) (code_hash_of code)) ws'.
Proof.
  intros W C. unfold ws_set_code. cbv zeta. assert (E : b_data (if Z.of_nat (length code) >? 0 then snd (bytes_from_data bytes_init_arena code) else bytes_init_arena) = code).
  { rewrite Z.gtb_ltb. destruct (Z.ltb_spec 0 (Z.of_nat (length code))) as [L|L]; [apply from_data_small; destruct C; lia|]. destruct code; [reflexivity | cbn in L; lia]. }
  rewrite E. clear E. change (set_code_store ws (hm_insert (code_store ws) a code)) with (store_code ws a code).
  destruct (acct_or_ok _ a (store_code_ok ws a code W C)) as [-> A]. cbn [try]. apply put_account_spec; [apply store_code_ok; assumption|].
  destruct A as [B1 B2 B3 B4]. split; try assumption. apply code_hash_wf_of.
Qed.

(** ** Creation and removal *)

Lemma world_create_ok : world_ok world_state_create.
Proof.
  split; cbn; try (intros; rewrite get_init in *; discriminate); [|constructor]. split; [exact I | intros k v []].
Qed.

Lemma acct_create a : acct world_state_create a = None.
Proof. reflexivity. Qed.

(** The account, its storage and its code are gone. *)
Record removed_at (ws : world) (a : address_t) (ws' : world) : Prop := {
  ra_ok : world_ok ws';
  ra_acct : forall b, acct ws' b = if same_key a b then None else acct ws b;
  ra_slot : forall b k, slot_at ws' b k = if address_equal a b then uint256_zero else slot_at ws b k;
  ra_code : forall b, hm_get (code_store ws') b = if address_equal a b then None else hm_get (code_store ws) b;
  ra_original : original_storage ws' = original_storage ws;
  ra_warm : warm_addresses ws' = warm_addresses ws /\ warm_slots ws' = warm_slots ws;
  ra_dirty : dirty_storage ws' = dirty_storage ws;
  ra_tracks : all_accounts ws' = all_accounts ws /\ all_storage_slots ws' = all_storage_slots ws;
  ra_counter : snapshot_counter ws' = snapshot_counter ws;
  ra_tries : forall b, hm_contains (storage_tries ws') b = negb (address_equal a b) && hm_contains (storage_tries ws) b }.

Lemma delete_account_spec ws a : world_ok ws -> exists ws', ws_delete_account keccak256 ws a = inl ws' /\ removed_at ws a ws'.
Proof.
  intros W. unfold ws_delete_account, address_to_key. destruct (trie_of_delete _ _ a (wo_accounts ws W)) as (t' & found & -> & T' & G). cbn [try fst]. eexists. split; [reflexivity|].
  set (ws' := set_code_store _ _). pose proof W as [A1 A2 A3 A4 A5 A6].
  assert (GT : forall b, hm_get (storage_tries ws') b = if key_eq a b then None else hm_get (storage_tries ws) b) by (intros b; apply get_erase).
  assert (GC : forall b, hm_get (code_store ws') b = if key_eq a b then None else hm_get (code_store ws) b) by (intros b; apply get_erase).
  assert (W' : world_ok ws').
  { split; try assumption.
    - intros b p. rewrite GT. destruct (key_eq a b); [discriminate | apply A3].
    - intros b c p. rewrite !GT. destruct (key_eq a b), (key_eq a c); try discriminate. apply A4.
    - intros b c. rewrite GC. destruct (key_eq a b); [discriminate | apply A5]. }
  split; [exact W'| |..]; try (split; reflexivity); try reflexivity.
  - intros b. apply (acct_get ws ws' a b None). exact G.
  - intros b k. rewrite !slot_at_trie by assumption. unfold trie_at. rewrite GT. change (address_equal a b) with (key_eq a b). destruct (key_eq a b); reflexivity.
  - exact GC.
  - intros b. exact (contains_erase (storage_tries ws) a b).
Qed.

(** ** The root *)

(** Empty accounts are not kept. *)
Definition kept (acc : account_t) : option account_t := if empty_acc acc then None else Some acc.

(** The account of [a] with the root of its storage trie, when it has one. *)
Definition refreshed (ws : world) (a : address_t) : option account_t :=
  match trie_at ws a with None => acct ws a | Some t => kept (with_root (acct_or ws a) (root_of keccak256 t)) end.

Lemma root_of_wf t : wf_hash (root_of keccak256 t).
Proof. unfold root_of. destruct (root t); [apply keccak_wf | apply wf_empty_root]. Qed.

(** Storage as a client sees it, and the roots of the storage tries. *)
Record same_storage (ws ws' : world) : Prop := {
  ss_slot : forall a k, slot_at ws' a k = slot_at ws a k;
  ss_root : forall a, option_map (root_of keccak256) (trie_at ws' a) = option_map (root_of keccak256) (trie_at ws a);
  ss_code : code_store ws' = code_store ws;
  ss_warm : warm_addresses ws' = warm_addresses ws /\ warm_slots ws' = warm_slots ws;
  ss_original : original_storage ws' = original_storage ws;
  ss_counter : snapshot_counter ws' = snapshot_counter ws }.

Lemma same_storage_refl ws : same_storage ws ws.
Proof. repeat split. Qed.

Lemma same_storage_trans ws ws' ws'' : same_storage ws ws' -> same_storage ws' ws'' -> same_storage ws ws''.
Proof.
  intros [A1 A2 A3 A4 A5 A6] [B1 B2 B3 B4 B5 B6]. split; [intros a k; rewrite B1; apply A1 | intros a; rewrite B2; apply A2 | congruence | destruct A4, B4; split; congruence | congruence | congruence].
Qed.

Lemma same_storage_rest ws ws' : same_rest ws ws' -> same_storage ws ws'.
Proof.
  intros R. pose proof R as [R1 R2 R3 R4 R5 R6 R7 R8]. split; auto; [intros a k; apply slot_at_rest, R|]. intros a. unfold trie_at. rewrite R1, R2. reflexivity.
Qed.

Lemma acct_key ws a b : same_key a b = true -> acct ws a = acct ws b.
Proof. intros E. apply bytes_eqb_eq in E. unfold acct, world_state_get_account, address_to_key. rewrite E. reflexivity. Qed.

Lemma refresh_spec ws a : world_ok ws -> exists ws', update_storage_root keccak256 ws a = inl ws' /\ world_ok ws' /\
  (forall b, acct ws' b = if same_key a b then refreshed ws a else acct ws b) /\ same_storage ws ws'.
Proof.
  intros W. unfold update_storage_root, refreshed, trie_at. destruct (hm_get (storage_tries ws) a) as [p|] eqn:P.
  - destruct (pointer_valid ws a p W P) as (t & N & T). rewrite N. destruct (acct_or_ok ws a W) as [-> A]. cbn [try].
    destruct (trie_of_root _ t T) as (t' & -> & T' & RT & _ & GT). cbn [try fst snd]. destruct (heap_update ws a p t' W P T') as [W1 TA]. set (ws1 := set_storage_tries _ _ _) in *.
    destruct (put_account_spec ws1 a (with_root (acct_or ws a) (root_of keccak256 t)) W1) as (ws' & E & [U1 U2 U3 U4]); [destruct A; split; try assumption; apply root_of_wf|].
    exists ws'. split; [exact E|]. split; [exact U1|]. split; [intros b; rewrite U2; reflexivity|]. apply (same_storage_trans ws ws1); [|apply same_storage_rest, U3].
    assert (TT : trie_at ws a = Some t) by (unfold trie_at; rewrite P; exact N). split; try (split; reflexivity); try reflexivity.
    + intros b k. rewrite !slot_at_trie, TA by assumption. change (address_equal a b) with (key_eq a b). destruct (key_eq_case a b) as [[-> <-]|[-> _]]; [|reflexivity].
      rewrite TT. unfold slot_in. rewrite GT. reflexivity.
    + intros b. rewrite TA. change (address_equal a b) with (key_eq a b). destruct (key_eq_case a b) as [[-> <-]|[-> _]]; [|reflexivity]. rewrite TT. cbn [option_map]. rewrite RT. reflexivity.
  - exists ws. split; [reflexivity|]. split; [exact W|]. split; [|apply same_storage_refl]. intros b. destruct (same_key a b) eqn:E; [|reflexivity]. symmetry. apply acct_key, E.
Qed.

Lemma refreshed_other ws ws' a : acct ws' a = acct ws a -> same_storage ws ws' -> refreshed ws' a = refreshed ws a.
Proof.
  intros E S. pose proof (ss_root _ _ S a) as R. unfold refreshed, acct_or. rewrite E. destruct (trie_at ws' a), (trie_at ws a); try discriminate; [|reflexivity]. injection R as ->. reflexivity.
Qed.

(** All the addresses of a list, whose keys are distinct. *)
Lemma refresh_all (L : list address_t) : forall ws, world_ok ws -> (forall x y : address_t, In x L -> In y L -> same_key x y = true -> x = y) -> NoDup L ->
  exists ws', fold_left (fun s a => try s (fun s => update_storage_root keccak256 s a)) L (inl ws) = inl ws' /\ world_ok ws' /\ same_storage ws ws' /\
    forall b : address_t, (forall x : address_t, In x L -> same_key x b = true -> x = b) -> acct ws' b = if existsb (key_eq b) L then refreshed ws b else acct ws b.
Proof.
  induction L as [|a L IH]; intros ws W D ND; cbn [fold_left].
  - exists ws. split; [reflexivity|]. split; [exact W|]. split; [apply same_storage_refl | reflexivity].
  - destruct (refresh_spec ws a W) as (ws1 & E1 & W1 & A1 & S1). cbn [try]. rewrite E1. inversion ND as [|? ? Na ND' Eq]; subst.
    destruct (IH ws1 W1 ltac:(intros x y Hx Hy; apply D; right; assumption) ND') as (ws' & E2 & W2 & S2 & A2). exists ws'.
    split; [exact E2|]. split; [exact W2|]. split; [exact (same_storage_trans _ _ _ S1 S2)|]. intros b Db. rewrite A2 by (intros x Hx; apply Db; right; exact Hx).
    cbn [existsb]. destruct (key_eq_case b a) as [[-> ->]|[-> Nb]]; cbn [orb].
    + assert (F : existsb (key_eq a) L = false). { apply not_true_iff_false. intros H. apply existsb_exists in H as (x & Hx & Ex). apply key_eq_spec in Ex. subst x. contradiction. }
      rewrite F, A1, same_key_refl. reflexivity.
    + assert (K : same_key a b = false) by (apply not_true_iff_false; intros K; apply Nb; symmetry; apply (Db a); [left; reflexivity | exact K]).
      rewrite A1, K. destruct (existsb (key_eq b) L); [|reflexivity]. apply refreshed_other; [rewrite A1, K; reflexivity | exact S1].
Qed.

(** Without that, no fault still. *)
Lemma refresh_all_ok (L : list address_t) : forall ws, world_ok ws ->
  exists ws', fold_left (fun s a => try s (fun s => update_storage_root keccak256 s a)) L (inl ws) = inl ws' /\ world_ok ws'.
Proof.
  induction L as [|a L IH]; intros ws W; cbn [fold_left]; [exists ws; auto|]. destruct (refresh_spec ws a W) as (ws1 & E1 & W1 & _). cbn [try]. rewrite E1. apply IH, W1.
Qed.

(** The keys of the dirty addresses are distinct. *)
Definition dirty_separate (ws : world) : Prop := forall a b : address_t, hm_contains (dirty_storage ws) a = true -> hm_contains (dirty_storage ws) b = true -> same_key a b = true -> a = b.

Lemma fold_left_keys (L : list (address_t * unit)) s :
  fold_left (fun ws a => try ws (fun ws => update_storage_root keccak256 ws (fst a))) L s = fold_left (fun ws a => try ws (fun ws : world => update_storage_root keccak256 ws a)) (map fst L) s.
Proof. revert s. induction L as [|x L IH]; intros s; [reflexivity|]. cbn [fold_left map]. apply IH. Qed.

Lemma root_spec ws : world_ok ws -> dirty_separate ws -> exists ws', world_state_root keccak256 ws = inl (ws', root_of keccak256 (state_trie ws')) /\ world_ok ws' /\ same_storage ws ws' /\
  (forall b : address_t, (forall x : address_t, hm_contains (dirty_storage ws) x = true -> same_key x b = true -> x = b) -> acct ws' b = if hm_contains (dirty_storage ws) b then refreshed ws b else acct ws b) /\
  (forall b, hm_contains (dirty_storage ws') b = false).
Proof.
  intros W D. unfold world_state_root. rewrite fold_left_keys. destruct (refresh_all (map fst (hm_items (dirty_storage ws))) ws W) as (ws1 & Ef & W1 & S1 & A1).
  - intros x y Hx Hy. apply D; apply in_keys; assumption.
  - apply items_nodup.
  - rewrite Ef. cbn [try]. set (ws2 := set_tracking _ _ _ _). assert (W2 : world_ok ws2) by (destruct W1; split; assumption).
    destruct (trie_of_root _ _ (wo_accounts ws2 W2)) as (t' & -> & T' & RT & _ & G). cbn [try fst snd]. exists (set_state_trie ws2 t').
    split; [cbn [state_trie set_state_trie]; rewrite RT; reflexivity|]. split; [destruct W2; split; assumption|].
    split; [destruct S1 as [Q1 Q2 Q3 Q4 Q5 Q6]; split; assumption|]. split; [|intros b; unfold hm_contains; cbn [dirty_storage set_state_trie set_tracking ws2]; rewrite get_clear; reflexivity].
    intros b Db. assert (E : acct (set_state_trie ws2 t') b = acct ws1 b) by (unfold acct, world_state_get_account, address_to_key; cbn [state_trie set_state_trie]; rewrite G; reflexivity).
    rewrite E, A1 by (intros x Hx; apply Db, in_keys, Hx). assert (B : existsb (key_eq b) (map fst (hm_items (dirty_storage ws))) = hm_contains (dirty_storage ws) b).
    { apply eq_true_iff_eq. rewrite existsb_exists, <- in_keys. split; [intros (x & Hx & Ex); apply key_eq_spec in Ex; subst x; exact Hx | intros Hb; exists b; split; [exact Hb | apply key_eq_refl]]. }
    rewrite B. reflexivity.
Qed.

Lemma root_total ws : world_ok ws -> exists ws' h, world_state_root keccak256 ws = inl (ws', h) /\ world_ok ws'.
Proof.
  intros W. unfold world_state_root. rewrite fold_left_keys. destruct (refresh_all_ok (map fst (hm_items (dirty_storage ws))) ws W) as (ws1 & E1 & W1). rewrite E1. cbn [try].
  set (ws2 := set_tracking _ _ _ _). assert (W2 : world_ok ws2) by (destruct W1; split; assumption).
  destruct (trie_of_root _ _ (wo_accounts ws2 W2)) as (t' & -> & T' & _). cbn [try fst snd]. eexists _, _. split; [reflexivity|]. destruct W2; split; assumption.
Qed.
End World.
