(* ===== verification/WorldLaws.v ===== *)
(** The world state satisfies the laws of the state interface that the
    interpreter and the block executor are proved against. *)
From Stdlib Require Import ZArith Lia List Bool.
From S2P Require Import Prelude Uint256 Types Effects Arith Arena Stack Bytes RlpSpec Account StateAccess HashTable Nibbles Trie TrieSpec TrieMap WorldState WorldSpec.
From S2P Require Import Frame Evm EvmSafe Execution Executor ExecutorSafe.
Import ListNotations.
#[local] Open Scope Z_scope.
#[local] Open Scope word_scope.

Section Laws.
Context {M : Type -> Type -> Type} {HT : HashTables M} {HL : HashTableLaws M}.
Variable keccak256 : list Z -> hash_t.
Hypothesis keccak_wf : forall bs, wf_hash (keccak256 bs).
#[local] Abbreviation world := (@world_state_t M).
#[local] Abbreviation world_ok := (@world_ok M HT keccak256).
#[local] Abbreviation acct := (acct keccak256).
#[local] Abbreviation acct_or := (acct_or keccak256).
#[local] Abbreviation slot_at := (slot_at keccak256).

(** ** Results of the readers *)

Lemma read_account {A} ws a (f : option account_t -> A) : world_ok ws -> try (world_state_get_account keccak256 ws a) (fun o => inl (f o)) = inl (f (acct ws a)).
Proof. intros W. destruct (get_account_spec keccak256 keccak_wf ws a W) as (-> & _). reflexivity. Qed.

Lemma get_balance_eq ws a : world_ok ws -> ws_get_balance keccak256 ws a = inl (acc_balance (acct_or ws a)).
Proof. intros W. unfold ws_get_balance, WorldSpec.acct_or. rewrite read_account by exact W. destruct (acct ws a); reflexivity. Qed.

Lemma get_nonce_eq ws a : world_ok ws -> ws_get_nonce keccak256 ws a = inl (acc_nonce (acct_or ws a)).
Proof. intros W. unfold ws_get_nonce, WorldSpec.acct_or. rewrite read_account by exact W. destruct (acct ws a); reflexivity. Qed.

Lemma get_code_hash_eq ws a : world_ok ws -> ws_get_code_hash keccak256 ws a = inl (acc_code_hash (acct_or ws a)).
Proof. intros W. unfold ws_get_code_hash, WorldSpec.acct_or. rewrite read_account by exact W. destruct (acct ws a); reflexivity. Qed.

Lemma get_original_eq ws a k : world_ok ws -> ws_get_original_storage keccak256 ws a k =
  inl (match hm_get (original_storage ws) (SlotKey a k) with Some v => v | None => slot_at ws a k end).
Proof. intros W. unfold ws_get_original_storage. destruct (hm_get _ _); [reflexivity | apply (get_storage_spec keccak256 keccak_wf ws a k W)]. Qed.

Lemma acct_or_wf ws a : world_ok ws -> account_ok (acct_or ws a).
Proof. intros W. apply (acct_or_ok keccak256 keccak_wf ws a W). Qed.

(** ** Updates of one field of an account *)

Lemma add_balance_spec ws a v : world_ok ws -> wf256 v -> let acc := acct_or ws a in
  if 2 ^ 256 <=? val (acc_balance acc) + val v then ws_add_balance keccak256 ws a v = inl (ws, false)
  else exists ws', ws_add_balance keccak256 ws a v = inl (ws', true) /\ account_update keccak256 ws a (with_balance acc (uint256_add (acc_balance acc) v)) ws'.
Proof.
  intros W V acc. pose proof (acct_or_wf ws a W) as A. destruct A as [A1 A2 A3 A4]. fold acc in A1, A2, A3, A4. unfold ws_add_balance. destruct (acct_or_ok keccak256 keccak_wf ws a W) as [-> _]. cbn [try]. fold acc.
  assert (WA : wf256 (uint256_add (acc_balance acc) v)) by (rewrite uint256_add_spec by assumption; apply wf_of_Z256).
  rewrite uint256_lt_spec by assumption. rewrite uint256_add_spec, val_of_Z256 by assumption. pose proof (val_range _ A2). pose proof (val_range _ V).
  destruct (Z.leb_spec (2 ^ 256) (val (acc_balance acc) + val v)) as [L|L].
  - rewrite (proj2 (Z.ltb_lt _ _)); [reflexivity|]. rewrite <- (Z.mod_unique (val (acc_balance acc) + val v) (2 ^ 256) 1 (val (acc_balance acc) + val v - 2 ^ 256)); lia.
  - rewrite Z.mod_small by lia. destruct (Z.ltb_spec (val (acc_balance acc) + val v) (val (acc_balance acc))); [lia|].
    rewrite <- uint256_add_spec by assumption. destruct (put_account_spec keccak256 keccak_wf ws a (with_balance acc (uint256_add (acc_balance acc) v)) W) as (ws' & -> & U); [split; assumption|].
    exists ws'. split; [reflexivity | exact U].
Qed.

Lemma sub_balance_spec ws a v : world_ok ws -> wf256 v -> let acc := acct_or ws a in
  if val (acc_balance acc) <? val v then ws_sub_balance keccak256 ws a v = inl (ws, false)
  else exists ws', ws_sub_balance keccak256 ws a v = inl (ws', true) /\
    match acct ws a with None => ws' = ws | Some _ => account_update keccak256 ws a (with_balance acc (uint256_sub (acc_balance acc) v)) ws' end.
Proof.
  intros W V acc. pose proof (acct_or_wf ws a W) as A. destruct A as [A1 A2 A3 A4]. fold acc in A1, A2, A3, A4. unfold ws_sub_balance. destruct (get_account_spec keccak256 keccak_wf ws a W) as (-> & _). cbn [try].
  unfold acc, WorldSpec.acct_or in *. pose proof (val_range _ V). destruct (acct ws a) as [x|].
  - rewrite uint256_lt_spec by assumption. destruct (Z.ltb_spec (val (acc_balance x)) (val v)) as [L|L]; [reflexivity|].
    destruct (put_account_spec keccak256 keccak_wf ws a (with_balance x (uint256_sub (acc_balance x) v)) W) as (ws' & -> & U); [split; try assumption; cbn [with_balance acc_balance]; rewrite uint256_sub_spec by assumption; apply wf_of_Z256|].
    exists ws'. split; [reflexivity | exact U].
  - rewrite uint256_is_zero_spec by exact V. change (val (acc_balance account_empty)) with 0. destruct (Z.ltb_spec 0 (val v)) as [L|L].
    + destruct (Z.eqb_spec (val v) 0); [lia | reflexivity].
    + exists ws. destruct (Z.eqb_spec (val v) 0); [auto | lia].
Qed.

Lemma increment_spec ws a : world_ok ws -> let acc := acct_or ws a in
  if UINT64_MAX - 1 <=? acc_nonce acc then ws_increment_nonce keccak256 ws a = inl (ws, acc_nonce acc)
  else exists ws', ws_increment_nonce keccak256 ws a = inl (ws', acc_nonce acc) /\ account_update keccak256 ws a (with_nonce acc (acc_nonce acc + 1)) ws'.
Proof.
  intros W acc. unfold ws_increment_nonce. destruct (acct_or_ok keccak256 keccak_wf ws a W) as [-> A]. cbn [try]. fold acc in A |- *. destruct A as [A1 A2 A3 A4].
  destruct (Z.leb_spec (UINT64_MAX - 1) (acc_nonce acc)) as [L|L]; [reflexivity|]. unfold u64, UINT64_MAX in *. unfold add64. rewrite w64_small by (unfold u64; lia).
  destruct (put_account_spec keccak256 keccak_wf ws a (with_nonce acc (acc_nonce acc + 1)) W) as (ws' & -> & U); [split; try assumption; cbn [with_nonce acc_nonce]; unfold u64; lia|]. exists ws'. split; [reflexivity | exact U].
Qed.

Lemma create_contract_spec ws a : world_ok ws -> match acct ws a with
  | Some _ => ws_create_contract keccak256 ws a = inl ws
  | None => exists ws', ws_create_contract keccak256 ws a = inl ws' /\ account_update keccak256 ws a (with_nonce account_empty 1) ws' end.
Proof.
  intros W. unfold ws_create_contract. rewrite exists_spec by assumption. cbn [try]. destruct (acct ws a); [reflexivity|]. apply put_account_spec; [assumption..|].
  destruct account_empty_ok. split; try assumption. split; reflexivity || discriminate.
Qed.

(** ** The instances *)

#[local] Instance world_access : StateAccess world := WORLD_STATE_VTABLE keccak256.

(** The parts that [world_ok] speaks of. *)
Lemma world_ok_frame ws ws' : world_ok ws -> state_trie ws' = state_trie ws -> storage_heap ws' = storage_heap ws -> storage_tries ws' = storage_tries ws ->
  code_store ws' = code_store ws -> (forall k v, hm_get (original_storage ws') k = Some v -> wf256 v) -> world_ok ws'.
Proof. intros [A1 A2 A3 A4 A5 A6] E1 E2 E3 E4 O. split; rewrite ?E1, ?E2, ?E3, ?E4; assumption. Qed.

Lemma world_eq_frame ws ws' : state_trie ws' = state_trie ws -> storage_heap ws' = storage_heap ws -> storage_tries ws' = storage_tries ws ->
  code_store ws' = code_store ws -> world_eq ws ws'.
Proof.
  intros E1 E2 E3 E4. repeat split; intros; cbn.
  - unfold ws_get_balance, world_state_get_account. rewrite E1. reflexivity.
  - unfold ws_get_nonce, world_state_get_account. rewrite E1. reflexivity.
  - unfold ws_get_code. rewrite E4. reflexivity.
  - unfold ws_get_storage. rewrite E2, E3. reflexivity.
Qed.

(** Warming touches the access lists only. *)
Lemma warm_frame ws x y : world_ok ws -> world_ok (set_warm ws x y) /\ world_eq ws (set_warm ws x y).
Proof. intros W. split; [apply (world_ok_frame ws); try reflexivity; [exact W | apply W] | apply world_eq_frame; reflexivity]. Qed.

Lemma code_ok ws a : world_ok ws -> code_size_ok (ws_get_code ws a).
Proof.
  intros W. unfold ws_get_code. destruct (hm_get (code_store ws) a) as [c|] eqn:E; [exact (wo_code _ ws W a c E)|]. split; [constructor | cbn; lia].
Qed.

Lemma storage_after ws a k v : world_ok ws -> wf256 v -> exists ws', set_storage ws a k v = ws' /\ storage_update keccak256 ws a k v ws'.
Proof. intros W V. destruct (set_storage_spec keccak256 keccak_wf ws a k v W V) as (ws' & E & U). exists ws'. cbn. rewrite E. auto. Qed.

Lemma storage_read ws a k : world_ok ws -> get_storage ws a k = slot_at ws a k /\ wf256 (slot_at ws a k).
Proof. intros W. cbn. destruct (get_storage_spec keccak256 keccak_wf ws a k W) as [-> V]. auto. Qed.

Lemma original_read ws a k : world_ok ws -> get_original_storage ws a k = match hm_get (original_storage ws) (SlotKey a k) with Some v => v | None => slot_at ws a k end.
Proof. intros W. cbn. rewrite get_original_eq by exact W. reflexivity. Qed.

(** Changes of a balance. *)
Lemma add_after ws a v : world_ok ws -> wf256 v -> world_ok (fst (add_balance ws a v)).
Proof.
  intros W V. pose proof (add_balance_spec ws a v W V) as S. cbn in S |- *. destruct (_ <=? _); [rewrite S; auto|]. destruct S as (ws' & -> & [U1 _ _ _]). exact U1.
Qed.

Lemma sub_after ws a v : world_ok ws -> wf256 v -> world_ok (fst (sub_balance ws a v)).
Proof.
  intros W V. pose proof (sub_balance_spec ws a v W V) as S. cbn in S |- *. destruct (_ <? _); [rewrite S; auto|]. destruct S as (ws' & -> & U). cbn [or_else fst].
  destruct (acct ws a); [destruct U as [U1 _ _ _]; exact U1 | rewrite U; auto].
Qed.

(** No update of an account touches the codes. *)
Lemma put_account_code ws a acc : code_store (or_else ws (put_account keccak256 ws a acc)) = code_store ws.
Proof.
  unfold put_account, world_state_set_account. destruct (Account.account_is_empty acc).
  - destruct (mpt_delete _ _ _) as [r|]; [|reflexivity]. cbn [try]. destruct (erase_slots_for_address _ _); reflexivity.
  - destruct (account_rlp_encode acc) as [e|]; [|reflexivity]. destruct (negb _); [reflexivity|]. destruct (mpt_insert _ _ _ _); reflexivity.
Qed.

Lemma put_account_code_bool ws a acc : code_store (fst (or_else (ws, false) (try (put_account keccak256 ws a acc) (fun ws => inl (ws, true))))) = code_store ws.
Proof. pose proof (put_account_code ws a acc) as H. destruct (put_account keccak256 ws a acc); [exact H | reflexivity]. Qed.

#[local] Obligation Tactic := idtac.

Program Definition world_laws : StateLaws world := {| state_ok := world_ok |}.
Next Obligation. intros s a W. cbn. rewrite get_balance_eq by exact W. apply acct_or_wf, W. Qed.
Next Obligation. intros s a k W. destruct (storage_read s a k W) as [-> V]. exact V. Qed.
Next Obligation. intros s a W. apply code_ok, W. Qed.
Next Obligation. intros s a W. split; [reflexivity|]. destruct (code_ok s a W) as [_ L]. cbn. unfold ws_get_code_size. lia. Qed.
Next Obligation. intros s a W. cbn. rewrite get_code_hash_eq by exact W. apply acct_or_wf, W. Qed.
Next Obligation.
  intros s a k W. rewrite original_read by exact W. destruct (hm_get _ _) as [v|] eqn:E; [exact (wo_original _ s W _ v E) | apply storage_read, W].
Qed.
Next Obligation. intros s a W. cbn. unfold ws_warm_address. destruct (hm_contains _ _); cbn [fst]; [split; [exact W | reflexivity] | apply warm_frame, W]. Qed.
Next Obligation.
  intros s a. cbn. unfold ws_warm_address. destruct (hm_contains (warm_addresses s) a) eqn:E; cbn [fst]; [rewrite E; reflexivity|].
  cbn [warm_addresses set_warm]. rewrite contains_insert, key_eq_refl. reflexivity.
Qed.
Next Obligation. intros s a k W. cbn. unfold ws_warm_slot. destruct (hm_contains _ _); cbn [fst]; [split; [exact W | reflexivity] | apply warm_frame, W]. Qed.
Next Obligation.
  intros s a k. cbn. unfold ws_warm_slot. destruct (hm_contains (warm_slots s) _) eqn:E; cbn [fst]; [rewrite E; reflexivity|].
  cbn [warm_slots set_warm]. rewrite contains_insert, key_eq_refl. reflexivity.
Qed.
Next Obligation. intros s a k v W V. destruct (storage_after s a k v W V) as (ws' & -> & U). apply U. Qed.
Next Obligation.
  intros s a k v W V. destruct (storage_after s a k v W V) as (ws' & -> & [U1 U2 _ _ _ _ _]). destruct (storage_read ws' a k U1) as [-> _]. rewrite U2.
  change (address_equal a a) with (key_eq a a). rewrite key_eq_refl, same_key_refl. reflexivity.
Qed.
Next Obligation.
  intros s a k v a' k' W V N. destruct (storage_after s a k v W V) as (ws' & -> & [U1 U2 _ _ _ _ _]). destruct (storage_read ws' a' k' U1) as [-> _]. rewrite U2.
  destruct (storage_read s a' k' W) as [-> _]. change (address_equal a a') with (key_eq a a'). destruct (key_eq_case a a') as [[_ <-]|[-> _]]; [contradiction | reflexivity].
Qed.
Next Obligation.
  intros s a k v W V. destruct (storage_after s a k v W V) as (ws' & -> & [U1 _ _ U4 _ _ _]). rewrite !original_read by assumption. rewrite U4, key_eq_refl. reflexivity.
Qed.
Next Obligation. exact add_after. Qed.
Next Obligation. exact sub_after. Qed.
Next Obligation.
  intros s a v b _. cbn. unfold ws_get_code. f_equal. unfold ws_add_balance. destruct (account_or_empty keccak256 s a) as [acc|]; [|reflexivity]. cbn [try].
  destruct (uint256_lt _ _); [reflexivity|]. rewrite put_account_code_bool. reflexivity.
Qed.
Next Obligation.
  intros s a v b _. cbn. unfold ws_get_code. f_equal. unfold ws_sub_balance. destruct (world_state_get_account keccak256 s a) as [[acc|]|]; [|reflexivity..]. cbn [try].
  destruct (uint256_lt _ _); [reflexivity|]. rewrite put_account_code_bool. reflexivity.
Qed.
Next Obligation. discriminate. Qed.
Next Obligation. discriminate. Qed.

#[local] Existing Instance world_laws.

Program Definition world_block_laws : BlockLaws world := {| nonce_u64 := _ |}.
Next Obligation. intros s a W. cbn. rewrite get_nonce_eq by exact W. apply acct_or_wf, W. Qed.
Next Obligation.
  intros s W. apply (world_ok_frame s); try reflexivity; [exact W|]. intros k v. cbn. rewrite get_clear. discriminate.
Qed.
Next Obligation.
  intros s a W. pose proof (increment_spec s a W) as S. cbn in S |- *. destruct (_ <=? _); [rewrite S; exact W|]. destruct S as (ws' & -> & U). apply U.
Qed.
Next Obligation.
  intros s a W. pose proof (create_contract_spec s a W) as S. cbn. destruct (acct s a); [rewrite S; exact W|]. destruct S as (ws' & -> & U). apply U.
Qed.
Next Obligation. intros s a c W C L. cbn. destruct (set_code_spec keccak256 keccak_wf s a c W (conj C L)) as (ws' & -> & U). apply U. Qed.
Next Obligation. intros s W. apply (world_ok_frame s); try reflexivity; [exact W | apply W]. Qed.
Next Obligation. intros s n W. exact W. Qed.
Next Obligation. intros s n W. exact W. Qed.
Next Obligation. intros s W. cbn. destruct (root_total keccak256 keccak_wf s W) as (ws' & h & -> & W'). exact W'. Qed.
End Laws.
