(* ===== verification/WorldView.v ===== *)
(** The contract of the world state. [documented] is what
    include/div0/state/state_access.h promises of the calls of its vtable: maps
    from addresses to accounts and codes and from addresses and slots to words,
    two sets, and snapshots that can be restored. [meaning] is what the calls do
    in src/state/world_state.c, on maps, without tries, hashes, encodings,
    pointers or tables; the implementation is shown to return the same results
    for every sequence of calls. The two agree on the calls that are
    [permitted]. The last part is that the state root is a function of the
    accounts and slots. *)
From Stdlib Require Import ZArith Lia List Bool.
From S2P Require Import Prelude Uint256 Types Effects Arena Stack Bytes RlpSpec Account StateAccess HashTable Nibbles Trie TrieSpec.
From S2P Require Import TrieMap WorldState WorldSpec WorldLaws.
Import ListNotations.
#[local] Open Scope Z_scope.
#[local] Open Scope trie_scope.

(** * Calls *)

Inductive call :=
  | AccountExists (a : address_t) | AccountIsEmpty (a : address_t) | CreateContract (a : address_t) | DeleteAccount (a : address_t)
  | GetBalance (a : address_t) | SetBalance (a : address_t) (v : uint256_t) | AddBalance (a : address_t) (v : uint256_t) | SubBalance (a : address_t) (v : uint256_t)
  | GetNonce (a : address_t) | SetNonce (a : address_t) (n : Z) | IncrementNonce (a : address_t)
  | GetCode (a : address_t) | GetCodeHash (a : address_t) | SetCode (a : address_t) (code : list Z)
  | GetStorage (a : address_t) (k : uint256_t) | GetOriginalStorage (a : address_t) (k : uint256_t) | SetStorage (a : address_t) (k v : uint256_t)
  | IsAddressWarm (a : address_t) | WarmAddress (a : address_t) | IsSlotWarm (a : address_t) (k : uint256_t) | WarmSlot (a : address_t) (k : uint256_t)
  | BeginTransaction | Snapshot | RevertToSnapshot (n : Z) | CommitSnapshot (n : Z).

Inductive result := NoResult | Flag (b : bool) | Word (v : uint256_t) | Number (n : Z) | Data (d : list Z).

Definition call_ok (c : call) : Prop :=
  match c with
  | AccountExists a | AccountIsEmpty a | CreateContract a | DeleteAccount a | GetBalance a | GetNonce a | IncrementNonce a
  | GetCode a | GetCodeHash a | IsAddressWarm a | WarmAddress a => wf_address a
  | SetBalance a v | AddBalance a v | SubBalance a v => wf_address a /\ wf256 v
  | SetNonce a n => wf_address a /\ u64 n
  | SetCode a code => wf_address a /\ code_size_ok code
  | GetStorage a k | GetOriginalStorage a k | IsSlotWarm a k | WarmSlot a k => wf_address a /\ wf256 k
  | SetStorage a k v => wf_address a /\ wf256 k /\ wf256 v
  | BeginTransaction | Snapshot | RevertToSnapshot _ | CommitSnapshot _ => True
  end.

(** * What the calls do *)

Record view := View {
  v_account : address_t -> option account_t;
  v_slot : address_t -> uint256_t -> uint256_t;
  v_original : address_t -> uint256_t -> option uint256_t;
  v_code : address_t -> option (list Z);
  v_warm : address_t -> bool;
  v_warm_slot : address_t -> uint256_t -> bool;
  v_snapshots : Z;
  (** addresses with a storage trie, and with writes that no root has covered *)
  v_trie : address_t -> bool;
  v_dirty : address_t -> bool }.

Definition empty_view : view :=
  View (fun _ => None) (fun _ _ => uint256_zero) (fun _ _ => None) (fun _ => None) (fun _ => false) (fun _ _ => false) 0 (fun _ => false) (fun _ => false).

Definition upd {A} (a : address_t) (x : A) (f : address_t -> A) : address_t -> A := fun b => if address_equal a b then x else f b.
Definition upd2 {A} (a : address_t) (k : uint256_t) (x : A) (f : address_t -> uint256_t -> A) : address_t -> uint256_t -> A :=
  fun b j => if warm_slot_key_eq (SlotKey a k) (SlotKey b j) then x else f b j.

Section Spec.
Variable keccak256 : list Z -> hash_t.

Definition account_in (s : view) (a : address_t) : account_t := match v_account s a with Some acc => acc | None => account_empty end.

(** An account is written; an empty one is removed. *)
Definition put (s : view) (a : address_t) (acc : account_t) : view :=
  View (upd a (kept acc) (v_account s)) (v_slot s) (v_original s) (v_code s) (v_warm s) (v_warm_slot s) (v_snapshots s) (v_trie s) (v_dirty s).

Definition original_in (s : view) (a : address_t) (k : uint256_t) : uint256_t := match v_original s a k with Some v => v | None => v_slot s a k end.

Definition meaning (s : view) (c : call) : view * result :=
  match c with
  | AccountExists a => (s, Flag (match v_account s a with Some _ => true | None => false end))
  | AccountIsEmpty a => (s, Flag (match v_account s a with Some _ => false | None => true end))
  | CreateContract a => (match v_account s a with Some _ => s | None => put s a (with_nonce account_empty 1) end, NoResult)
  | DeleteAccount a =>
      (View (upd a None (v_account s)) (upd a (fun _ => uint256_zero) (v_slot s)) (v_original s) (upd a None (v_code s)) (v_warm s) (v_warm_slot s) (v_snapshots s)
        (upd a false (v_trie s)) (v_dirty s), NoResult)
  | GetBalance a => (s, Word (acc_balance (account_in s a)))
  | SetBalance a v => (put s a (with_balance (account_in s a) v), NoResult)
  | AddBalance a v =>
      let sum := val (acc_balance (account_in s a)) + val v in
      if 2 ^ 256 <=? sum then (s, Flag false) else (put s a (with_balance (account_in s a) (of_Z256 sum)), Flag true)
  | SubBalance a v =>
      let difference := val (acc_balance (account_in s a)) - val v in
      if difference <? 0 then (s, Flag false)
      else (match v_account s a with Some acc => put s a (with_balance acc (of_Z256 difference)) | None => s end, Flag true)
  | GetNonce a => (s, Number (acc_nonce (account_in s a)))
  | SetNonce a n => (put s a (with_nonce (account_in s a) n), NoResult)
  | IncrementNonce a =>
      let n := acc_nonce (account_in s a) in
      ((if 2 ^ 64 - 2 <=? n then s else put s a (with_nonce (account_in s a) (n + 1))), Number n)
  | GetCode a => (s, Data (match v_code s a with Some code => code | None => [] end))
  | GetCodeHash a => (s, Data (acc_code_hash (account_in s a)))
  | SetCode a code =>
      let s' := put s a (with_code_hash (account_in s a) (code_hash_of keccak256 code)) in
      let kept_code := match v_code s a with Some old => old | None => code end in
      (View (v_account s') (v_slot s) (v_original s) (upd a (Some kept_code) (v_code s)) (v_warm s) (v_warm_slot s) (v_snapshots s) (v_trie s) (v_dirty s), NoResult)
  | GetStorage a k => (s, Word (v_slot s a k))
  | GetOriginalStorage a k => (s, Word (original_in s a k))
  | SetStorage a k v =>
      (View (v_account s) (upd2 a k v (v_slot s)) (upd2 a k (Some (original_in s a k)) (v_original s)) (v_code s) (v_warm s) (v_warm_slot s) (v_snapshots s)
        (upd a true (v_trie s)) (upd a true (v_dirty s)), NoResult)
  | IsAddressWarm a => (s, Flag (v_warm s a))
  | WarmAddress a => (View (v_account s) (v_slot s) (v_original s) (v_code s) (upd a true (v_warm s)) (v_warm_slot s) (v_snapshots s) (v_trie s) (v_dirty s), Flag (negb (v_warm s a)))
  | IsSlotWarm a k => (s, Flag (v_warm_slot s a k))
  | WarmSlot a k => (View (v_account s) (v_slot s) (v_original s) (v_code s) (v_warm s) (upd2 a k true (v_warm_slot s)) (v_snapshots s) (v_trie s) (v_dirty s), Flag (negb (v_warm_slot s a k)))
  | BeginTransaction => (View (v_account s) (v_slot s) (fun _ _ => None) (v_code s) (fun _ => false) (fun _ _ => false) (v_snapshots s) (v_trie s) (v_dirty s), NoResult)
  | Snapshot => (View (v_account s) (v_slot s) (v_original s) (v_code s) (v_warm s) (v_warm_slot s) (w64 (v_snapshots s + 1)) (v_trie s) (v_dirty s), Number (w64 (v_snapshots s + 1)))
  | RevertToSnapshot _ | CommitSnapshot _ => (s, NoResult)
  end.

Fixpoint meanings (s : view) (cs : list call) : view * list result :=
  match cs with
  | [] => (s, [])
  | c :: cs' => let '(s, r) := meaning s c in let '(s, rs) := meanings s cs' in (s, r :: rs)
  end.

(** * What the interface documents

    The state as include/div0/state/state_access.h describes it: what is there
    now, the storage at the start of the transaction, the accounts deleted since
    then, the last snapshot identifier and the states that snapshots saved. *)

Record holdings := Holdings {
  h_account : address_t -> option account_t;
  h_slot : address_t -> uint256_t -> uint256_t;
  h_code : address_t -> option (list Z);
  h_warm : address_t -> bool;
  h_warm_slot : address_t -> uint256_t -> bool }.

Record contract := Contract {
  now : holdings; at_start : address_t -> uint256_t -> uint256_t; deleted : address_t -> bool; last_id : Z; saved : list (Z * holdings) }.

Definition no_holdings : holdings := Holdings (fun _ => None) (fun _ _ => uint256_zero) (fun _ => None) (fun _ => false) (fun _ _ => false).
Definition new_contract : contract := Contract no_holdings (fun _ _ => uint256_zero) (fun _ => false) 0 [].

Definition set_now (d : contract) (h : holdings) : contract := Contract h (at_start d) (deleted d) (last_id d) (saved d).

Definition held_account (d : contract) (a : address_t) : account_t := match h_account (now d) a with Some acc => acc | None => account_empty end.

(** EIP-161: an account that becomes empty is removed. *)
Definition put_held (d : contract) (a : address_t) (acc : account_t) : contract :=
  let h := now d in
  set_now d (Holdings (upd a (if Account.account_is_empty acc then None else Some acc) (h_account h)) (h_slot h) (h_code h) (h_warm h) (h_warm_slot h)).

Fixpoint find_saved (n : Z) (l : list (Z * holdings)) : option holdings :=
  match l with [] => None | (m, h) :: l => if n =? m then Some h else find_saved n l end.

Definition documented (d : contract) (c : call) : contract * result :=
  let h := now d in
  match c with
  | AccountExists a => (d, Flag (match h_account h a with Some _ => true | None => false end))
  | AccountIsEmpty a => (d, Flag (match h_account h a with Some _ => false | None => true end))
  | CreateContract a => (match h_account h a with Some _ => d | None => put_held d a (with_nonce account_empty 1) end, NoResult)
  | DeleteAccount a =>
      (Contract (Holdings (upd a None (h_account h)) (upd a (fun _ => uint256_zero) (h_slot h)) (upd a None (h_code h)) (h_warm h) (h_warm_slot h))
         (at_start d) (upd a true (deleted d)) (last_id d) (saved d), NoResult)
  | GetBalance a => (d, Word (acc_balance (held_account d a)))
  | SetBalance a v => (put_held d a (with_balance (held_account d a) v), NoResult)
  | AddBalance a v =>
      let sum := val (acc_balance (held_account d a)) + val v in
      if 2 ^ 256 <=? sum then (d, Flag false) else (put_held d a (with_balance (held_account d a) (of_Z256 sum)), Flag true)
  | SubBalance a v =>
      let difference := val (acc_balance (held_account d a)) - val v in
      if difference <? 0 then (d, Flag false)
      else (match h_account h a with Some acc => put_held d a (with_balance acc (of_Z256 difference)) | None => d end, Flag true)
  | GetNonce a => (d, Number (acc_nonce (held_account d a)))
  | SetNonce a n => (put_held d a (with_nonce (held_account d a) n), NoResult)
  | IncrementNonce a => (** up to the limit of EIP-2681 *)
      let n := acc_nonce (held_account d a) in
      ((if 2 ^ 64 - 2 <=? n then d else put_held d a (with_nonce (held_account d a) (n + 1))), Number n)
  | GetCode a => (d, Data (match h_code h a with Some code => code | None => [] end))
  | GetCodeHash a => (d, Data (acc_code_hash (held_account d a)))
  | SetCode a code =>
      let d := put_held d a (with_code_hash (held_account d a) (code_hash_of keccak256 code)) in
      let h := now d in
      (set_now d (Holdings (h_account h) (h_slot h) (upd a (Some code) (h_code h)) (h_warm h) (h_warm_slot h)), NoResult)
  | GetStorage a k => (d, Word (h_slot h a k))
  | GetOriginalStorage a k => (d, Word (at_start d a k))
  | SetStorage a k v => (set_now d (Holdings (h_account h) (upd2 a k v (h_slot h)) (h_code h) (h_warm h) (h_warm_slot h)), NoResult)
  | IsAddressWarm a => (d, Flag (h_warm h a))
  | WarmAddress a => (set_now d (Holdings (h_account h) (h_slot h) (h_code h) (upd a true (h_warm h)) (h_warm_slot h)), Flag (negb (h_warm h a)))
  | IsSlotWarm a k => (d, Flag (h_warm_slot h a k))
  | WarmSlot a k => (set_now d (Holdings (h_account h) (h_slot h) (h_code h) (h_warm h) (upd2 a k true (h_warm_slot h))), Flag (negb (h_warm_slot h a k)))
  | BeginTransaction =>
      (Contract (Holdings (h_account h) (h_slot h) (h_code h) (fun _ => false) (fun _ _ => false)) (h_slot h) (fun _ => false) (last_id d) (saved d), NoResult)
  | Snapshot =>
      let id := w64 (last_id d + 1) in (Contract h (at_start d) (deleted d) id ((id, h) :: saved d), Number id)
  | RevertToSnapshot n => (match find_saved n (saved d) with Some h => set_now d h | None => d end, NoResult)
  | CommitSnapshot n => (Contract h (at_start d) (deleted d) (last_id d) (filter (fun x => negb (n =? fst x)) (saved d)), NoResult)
  end.

Fixpoint documented_all (d : contract) (cs : list call) : contract * list result :=
  match cs with
  | [] => (d, [])
  | c :: cs' => let '(d, r) := documented d c in let '(d, rs) := documented_all d cs' in (d, r :: rs)
  end.

(** The calls on which the code keeps the documentation: it restores no
    snapshot, keeps the first code of an account, and forgets the storage that
    an account deleted in this transaction had at its start. *)
Definition permitted (d : contract) (c : call) : bool :=
  match c with
  | RevertToSnapshot _ => false
  | SetCode a code => match h_code (now d) a with None => true | Some old => bytes_eqb old code end
  | GetOriginalStorage a _ => negb (deleted d a)
  | _ => true
  end.

Fixpoint permitted_all (d : contract) (cs : list call) : bool :=
  match cs with [] => true | c :: cs' => permitted d c && permitted_all (fst (documented d c)) cs' end.

(** Where the two agree. *)
Record keeps_contract (s : view) (d : contract) : Prop := {
  kc_account : forall a, v_account s a = h_account (now d) a;
  kc_slot : forall a k, v_slot s a k = h_slot (now d) a k;
  kc_original : forall a k, deleted d a = false -> original_in s a k = at_start d a k;
  kc_code : forall a, v_code s a = h_code (now d) a;
  kc_warm : forall a, v_warm s a = h_warm (now d) a;
  kc_warm_slot : forall a k, v_warm_slot s a k = h_warm_slot (now d) a k;
  kc_id : v_snapshots s = last_id d }.

Lemma kept_empty acc : kept acc = if Account.account_is_empty acc then None else Some acc.
Proof. reflexivity. Qed.

Lemma keeps_put s d a acc : keeps_contract s d -> keeps_contract (put s a acc) (put_held d a acc).
Proof.
  intros [K1 K2 K3 K4 K5 K6 K7]. split; cbn; auto. intros b. rewrite kept_empty. unfold upd. destruct (address_equal a b); [reflexivity | apply K1].
Qed.

Lemma keeps_account s d a : keeps_contract s d -> account_in s a = held_account d a.
Proof. intros K. unfold account_in, held_account. rewrite (kc_account s d K). reflexivity. Qed.

Lemma keeps_code s d a code : keeps_contract s d -> permitted d (SetCode a code) = true ->
  keeps_contract (fst (meaning s (SetCode a code))) (fst (documented d (SetCode a code))).
Proof.
  intros K P. cbn [meaning documented fst permitted] in *. rewrite (keeps_account s d a K). set (acc := with_code_hash _ _). pose proof (keeps_put s d a acc K) as [P1 _ _ _ _ _ _].
  destruct K as [K1 K2 K3 K4 K5 K6 K7]. split; cbn; auto. intros b. unfold upd. destruct (address_equal a b); [|apply K4].
  rewrite K4. destruct (h_code (now d) a) as [old|]; [apply bytes_eqb_eq in P; subst old|]; reflexivity.
Qed.

(** A write of storage keeps what the slots had at the start. *)
Lemma keeps_storage s d a k v : keeps_contract s d ->
  keeps_contract (fst (meaning s (SetStorage a k v))) (fst (documented d (SetStorage a k v))).
Proof.
  intros [K1 K2 K3 K4 K5 K6 K7]. split; cbn; auto.
  - intros b j. unfold upd2. destruct (warm_slot_key_eq _ _); [reflexivity | apply K2].
  - intros b j D. unfold original_in at 1. cbn. unfold upd2. change (warm_slot_key_eq (SlotKey a k) (SlotKey b j)) with (key_eq (SlotKey a k) (SlotKey b j)).
    destruct (key_eq_case (SlotKey a k) (SlotKey b j)) as [[-> E]|[-> _]]; [injection E as <- <-; apply K3, D | apply (K3 b j D)].
Qed.

Lemma keeps_step s d c : keeps_contract s d -> permitted d c = true ->
  snd (meaning s c) = snd (documented d c) /\ keeps_contract (fst (meaning s c)) (fst (documented d c)).
Proof.
  intros K P. pose proof K as [K1 K2 K3 K4 K5 K6 K7]. pose proof (fun a => keeps_account s d a K) as Ka.
  destruct c; try (apply (conj eq_refl), keeps_storage, K); try (apply (conj eq_refl), keeps_code; assumption); cbn [meaning documented permitted fst snd] in *; rewrite ?K1, ?K2, ?K4, ?K5, ?K6, ?K7, ?Ka; auto using keeps_put.
  - split; [reflexivity|]. destruct (h_account _ _); auto using keeps_put.
  - split; [reflexivity|]. split; cbn; auto; intros b; unfold upd; try (destruct (address_equal a b); auto; fail).
    intros k. unfold original_in. cbn. destruct (address_equal a b); [discriminate|]. apply (K3 b k).
  - destruct (_ <=? _); cbn [fst snd]; auto using keeps_put.
  - destruct (_ <? 0); cbn [fst snd]; [auto|]. split; [reflexivity|]. destruct (h_account _ _); auto using keeps_put.
  - split; [reflexivity|]. destruct (_ <=? _); auto using keeps_put.
  - apply negb_true_iff in P. rewrite K3 by exact P. auto.
  - split; [reflexivity|]. split; cbn; auto. intros b. unfold upd. destruct (address_equal a b); auto.
  - split; [reflexivity|]. split; cbn; auto. intros b j. unfold upd2. destruct (warm_slot_key_eq _ _); auto.
  - split; [reflexivity|]. split; cbn; auto.
  - split; [reflexivity|]. split; cbn; auto.
  - discriminate.
  - split; [reflexivity|]. split; cbn; auto.
Qed.

Lemma keeps_all cs : forall s d, keeps_contract s d -> permitted_all d cs = true -> snd (meanings s cs) = snd (documented_all d cs).
Proof.
  induction cs as [|c cs IH]; intros s d K P; [reflexivity|]. cbn [permitted_all meanings documented_all] in *. apply andb_true_iff in P as [P P'].
  destruct (keeps_step s d c K P) as [E K']. destruct (meaning s c) as [s1 r], (documented d c) as [d1 r']. cbn [fst snd] in *. specialize (IH s1 d1 K' P').
  destruct (meanings s1 cs), (documented_all d1 cs). cbn [snd] in *. congruence.
Qed.

Lemma new_keeps : keeps_contract empty_view new_contract.
Proof. split; reflexivity. Qed.

(** * The implementation *)

Context {M : Type -> Type -> Type} {HT : HashTables M}.
#[local] Abbreviation world := (@world_state_t M).

Definition map_fault {A B} (f : A -> B) (x : A + fault) : B + fault := let? a := x in inl (f a).
Definition reads {A} (ws : world) (f : A -> result) (x : A + fault) : (world * result) + fault := map_fault (fun a => (ws, f a)) x.
Definition writes (x : world + fault) : (world * result) + fault := map_fault (fun ws => (ws, NoResult)) x.
Definition writes_and {A} (f : A -> result) (x : (world * A) + fault) : (world * result) + fault := map_fault (fun p => (fst p, f (snd p))) x.

(** The entries of [WORLD_STATE_VTABLE]. *)
Definition perform (ws : world) (c : call) : (world * result) + fault :=
  match c with
  | AccountExists a => reads ws Flag (ws_account_exists keccak256 ws a)
  | AccountIsEmpty a => reads ws Flag (ws_account_is_empty keccak256 ws a)
  | CreateContract a => writes (ws_create_contract keccak256 ws a)
  | DeleteAccount a => writes (ws_delete_account keccak256 ws a)
  | GetBalance a => reads ws Word (ws_get_balance keccak256 ws a)
  | SetBalance a v => writes (ws_set_balance keccak256 ws a v)
  | AddBalance a v => writes_and Flag (ws_add_balance keccak256 ws a v)
  | SubBalance a v => writes_and Flag (ws_sub_balance keccak256 ws a v)
  | GetNonce a => reads ws Number (ws_get_nonce keccak256 ws a)
  | SetNonce a n => writes (ws_set_nonce keccak256 ws a n)
  | IncrementNonce a => writes_and Number (ws_increment_nonce keccak256 ws a)
  | GetCode a => inl (ws, Data (ws_get_code ws a))
  | GetCodeHash a => reads ws Data (ws_get_code_hash keccak256 ws a)
  | SetCode a code => writes (ws_set_code keccak256 ws a code)
  | GetStorage a k => reads ws Word (ws_get_storage keccak256 ws a k)
  | GetOriginalStorage a k => reads ws Word (ws_get_original_storage keccak256 ws a k)
  | SetStorage a k v => writes (ws_set_storage keccak256 ws a k v)
  | IsAddressWarm a => inl (ws, Flag (ws_is_address_warm ws a))
  | WarmAddress a => writes_and Flag (inl (ws_warm_address ws a))
  | IsSlotWarm a k => inl (ws, Flag (ws_is_slot_warm ws a k))
  | WarmSlot a k => writes_and Flag (inl (ws_warm_slot ws a k))
  | BeginTransaction => writes (inl (ws_begin_transaction ws))
  | Snapshot => writes_and Number (inl (ws_snapshot ws))
  | RevertToSnapshot n => writes (inl (ws_revert_to_snapshot ws n))
  | CommitSnapshot n => writes (inl (ws_commit_snapshot ws n))
  end.

Fixpoint perform_all (ws : world) (cs : list call) : (world * list result) + fault :=
  match cs with
  | [] => inl (ws, [])
  | c :: cs' => let? r := perform ws c in let? rs := perform_all (fst r) cs' in inl (fst rs, snd r :: snd rs)
  end.
End Spec.

(** * Refinement *)

Section Refinement.
Context {M : Type -> Type -> Type} {HT : HashTables M} {HL : HashTableLaws M}.
Variable keccak256 : list Z -> hash_t.
Hypothesis keccak_wf : forall bs, wf_hash (keccak256 bs).
(** No two addresses and no two slots with the same hash. *)
Hypothesis address_keys : forall a b, wf_address a -> wf_address b -> keccak256 a = keccak256 b -> a = b.
Hypothesis slot_keys : forall k j, wf256 k -> wf256 j -> keccak256 (uint256_to_bytes_be k) = keccak256 (uint256_to_bytes_be j) -> k = j.
#[local] Abbreviation world := (@world_state_t M).

Lemma address_key_eq a b : wf_address a -> wf_address b -> same_key keccak256 a b = address_equal a b.
Proof.
  intros A B. apply eq_true_iff_eq. unfold same_key, address_equal. rewrite !bytes_eqb_eq. split; [apply address_keys; assumption | intros ->; reflexivity].
Qed.

Lemma slot_key_eq k j : wf256 k -> wf256 j -> same_key keccak256 (slot_bytes k) (slot_bytes j) = uint256_eq k j.
Proof.
  intros K J. apply eq_true_iff_eq. unfold same_key. rewrite bytes_eqb_eq, uint256_eq_spec, Z.eqb_eq by assumption. split; [intros E; f_equal; apply slot_keys; assumption | intros E; rewrite (val_inj k j K J E); reflexivity].
Qed.

(** Only addresses and words occur as keys. *)
Record grounded (ws : world) : Prop := {
  gr_account : forall b, acct keccak256 ws b <> None -> exists a, wf_address a /\ same_key keccak256 a b = true;
  gr_slot : forall a j, slot_at keccak256 ws a j <> uint256_zero -> wf_address a /\ exists k, wf256 k /\ same_key keccak256 (slot_bytes k) (slot_bytes j) = true;
  gr_dirty : forall a, hm_contains (dirty_storage ws) a = true -> wf_address a }.

Lemma grounded_frame ws ws' : grounded ws -> (forall a, acct keccak256 ws' a = acct keccak256 ws a) -> (forall a k, slot_at keccak256 ws' a k = slot_at keccak256 ws a k) ->
  dirty_storage ws' = dirty_storage ws -> grounded ws'.
Proof. intros [G1 G2 G3] A S D. split; [intros b; rewrite A; apply G1 | intros a j; rewrite S; apply G2 | rewrite D; exact G3]. Qed.

Record simulates (ws : world) (s : view) : Prop := {
  sm_ok : world_ok keccak256 ws;
  sm_account : forall a, wf_address a -> acct keccak256 ws a = v_account s a;
  sm_slot : forall a k, wf_address a -> wf256 k -> slot_at keccak256 ws a k = v_slot s a k;
  sm_original : forall a k, hm_get (original_storage ws) (SlotKey a k) = v_original s a k;
  sm_code : forall a, hm_get (code_store ws) a = v_code s a;
  sm_warm : forall a, hm_contains (warm_addresses ws) a = v_warm s a;
  sm_warm_slot : forall a k, hm_contains (warm_slots ws) (SlotKey a k) = v_warm_slot s a k;
  sm_snapshots : snapshot_counter ws = v_snapshots s;
  sm_trie : forall a, hm_contains (storage_tries ws) a = v_trie s a;
  sm_dirty : forall a, hm_contains (dirty_storage ws) a = v_dirty s a;
  sm_grounded : grounded ws }.

Lemma create_simulates : simulates world_state_create empty_view.
Proof.
  split; try (intros; cbn; rewrite ?get_init; reflexivity); try (intros; unfold hm_contains; cbn; rewrite get_init; reflexivity).
  - apply world_create_ok.
  - intros a k _ _. unfold slot_at, ws_get_storage. cbn. rewrite get_init. reflexivity.
  - split; [intros b []; reflexivity | intros a j []; unfold slot_at, ws_get_storage; cbn; rewrite get_init; reflexivity|]. intros a. unfold hm_contains. cbn. rewrite get_init. discriminate.
Qed.

Lemma account_in_eq ws s a : simulates ws s -> wf_address a -> acct_or keccak256 ws a = account_in s a.
Proof. intros S A. unfold acct_or, account_in. rewrite (sm_account ws s S a A). reflexivity. Qed.

Lemma put_simulates ws s a acc ws' : simulates ws s -> wf_address a -> account_update keccak256 ws a acc ws' -> simulates ws' (put s a acc).
Proof.
  intros [S1 S2 S3 S4 S5 S6 S7 S8 S9 S10 S11] A [U1 U2 U3 _]. pose proof U3 as [R1 R2 R3 R4 R5 R6 R7 R8]. split; cbn [put v_account v_slot v_original v_code v_warm v_warm_slot v_snapshots v_trie v_dirty];
    rewrite ?R1, ?R3, ?R4, ?R5, ?R6, ?R7, ?R8; try assumption.
  - intros b B. rewrite U2, address_key_eq, S2 by assumption. reflexivity.
  - intros b k B K. rewrite (slot_at_rest keccak256 ws ws') by exact U3. apply S3; assumption.
  - destruct S11 as [G1 G2 G3]. split; [|intros b j; rewrite (slot_at_rest keccak256 ws ws') by exact U3; apply G2 | rewrite R7; exact G3].
    intros b. rewrite U2. destruct (same_key keccak256 a b) eqn:E; [intros _; exists a; auto | apply G1].
Qed.

(** A write of one account, as the operations make it. *)
Lemma writes_account ws s a acc : simulates ws s -> wf_address a -> account_ok acc -> exists ws', put_account keccak256 ws a acc = inl ws' /\ simulates ws' (put s a acc).
Proof.
  intros S A C. destruct (put_account_spec keccak256 keccak_wf ws a acc (sm_ok _ _ S) C) as (ws' & E & U). exists ws'. split; [exact E | exact (put_simulates ws s a acc ws' S A U)].
Qed.

(** The step of the simulation: the call ends with the result of the
    specification, in states that correspond. *)
Definition agrees (ws : world) (s : view) (c : call) : Prop :=
  exists ws', perform keccak256 ws c = inl (ws', snd (meaning keccak256 s c)) /\ simulates ws' (fst (meaning keccak256 s c)).

Lemma agrees_read {A} ws s c (f : A -> result) x a : simulates ws s -> meaning keccak256 s c = (s, f a) -> perform keccak256 ws c = reads ws f x -> x = inl a -> agrees ws s c.
Proof. intros S E D X. exists ws. rewrite D, X, E. split; [reflexivity | exact S]. Qed.

Lemma agrees_account ws s c : simulates ws s -> call_ok c -> match c with
  AccountExists _ | AccountIsEmpty _ | GetBalance _ | GetNonce _ | GetCode _ | GetCodeHash _ | GetStorage _ _ | GetOriginalStorage _ _ | IsAddressWarm _ | IsSlotWarm _ _ => agrees ws s c | _ => True end.
Proof.
  intros S C. pose proof (sm_ok _ _ S) as W. destruct c; try exact I; cbn [call_ok] in C.
  - eapply (agrees_read ws s _ Flag); [exact S | reflexivity | reflexivity|]. rewrite exists_spec by assumption. rewrite (sm_account _ _ S a C). reflexivity.
  - eapply (agrees_read ws s _ Flag); [exact S | reflexivity | reflexivity|]. unfold ws_account_is_empty. destruct (get_account_spec keccak256 keccak_wf ws a W) as (-> & H & _). cbn [try].
    rewrite <- (sm_account _ _ S a C). destruct (acct keccak256 ws a) as [acc|]; [rewrite (proj2 (H acc eq_refl)); reflexivity | reflexivity].
  - eapply (agrees_read ws s _ Word); [exact S | reflexivity | reflexivity|]. rewrite get_balance_eq, (account_in_eq ws s) by assumption. reflexivity.
  - eapply (agrees_read ws s _ Number); [exact S | reflexivity | reflexivity|]. rewrite get_nonce_eq, (account_in_eq ws s) by assumption. reflexivity.
  - exists ws. split; [cbn [perform meaning fst snd]; unfold ws_get_code; rewrite (sm_code _ _ S a); reflexivity | exact S].
  - eapply (agrees_read ws s _ Data); [exact S | reflexivity | reflexivity|]. rewrite get_code_hash_eq, (account_in_eq ws s) by assumption. reflexivity.
  - eapply (agrees_read ws s _ Word); [exact S | reflexivity | reflexivity|]. destruct C as [A K]. destruct (get_storage_spec keccak256 keccak_wf ws a k W) as [-> _]. rewrite (sm_slot _ _ S a k A K). reflexivity.
  - eapply (agrees_read ws s _ Word); [exact S | reflexivity | reflexivity|]. destruct C as [A K]. rewrite get_original_eq by assumption. rewrite (sm_slot _ _ S a k A K), (sm_original _ _ S a k). reflexivity.
  - exists ws. split; [cbn [perform meaning fst snd]; unfold ws_is_address_warm; rewrite (sm_warm _ _ S a); reflexivity | exact S].
  - exists ws. split; [cbn [perform meaning fst snd]; unfold ws_is_slot_warm; rewrite (sm_warm_slot _ _ S a k); reflexivity | exact S].
Qed.

(** The balance, the nonce or the code hash of an account replaced. *)
Lemma with_ok acc b n h : account_ok acc -> wf256 b -> u64 n -> wf_hash h -> account_ok (with_balance acc b) /\ account_ok (with_nonce acc n) /\ account_ok (with_code_hash acc h).
Proof. intros [A1 A2 A3 A4] B N H. split; [|split]; split; assumption. Qed.

Lemma account_in_ok ws s a : simulates ws s -> wf_address a -> account_ok (account_in s a).
Proof. intros S A. rewrite <- (account_in_eq ws s a S A). apply acct_or_wf; [exact keccak_wf | apply S]. Qed.

Lemma agrees_put ws s c a f : simulates ws s -> wf_address a -> account_ok (f (account_in s a)) -> meaning keccak256 s c = (put s a (f (account_in s a)), NoResult) ->
  perform keccak256 ws c = writes (try (account_or_empty keccak256 ws a) (fun x => put_account keccak256 ws a (f x))) -> agrees ws s c.
Proof.
  intros S A F E D. destruct (acct_or_ok keccak256 keccak_wf ws a (sm_ok _ _ S)) as [EA _]. rewrite EA in D. cbn [try] in D. rewrite (account_in_eq ws s a S A) in D.
  destruct (writes_account ws s a _ S A F) as (ws' & EP & S'). exists ws'. rewrite D, EP, E. split; [reflexivity | exact S'].
Qed.

Lemma agrees_balance ws s c : simulates ws s -> call_ok c -> match c with
  CreateContract _ | SetBalance _ _ | AddBalance _ _ | SubBalance _ _ | SetNonce _ _ | IncrementNonce _ => agrees ws s c | _ => True end.
Proof.
  intros S C. pose proof (sm_ok _ _ S) as W. destruct c; try exact I; cbn [call_ok] in C.
  - pose proof (create_contract_spec keccak256 keccak_wf ws a W) as E. rewrite (sm_account _ _ S a C) in E. unfold agrees. cbn [perform meaning fst snd].
    destruct (v_account s a); [exists ws; rewrite E; split; [reflexivity | exact S]|]. destruct E as (ws' & -> & U). exists ws'. split; [reflexivity | exact (put_simulates ws s _ _ _ S C U)].
  - destruct C as [A V]. apply (agrees_put ws s _ a (fun x => with_balance x v) S A); try reflexivity. apply (with_ok _ v 0 hash_zero); auto using u64_0, wf_hash_zero. eapply account_in_ok; eassumption.
  - destruct C as [A V]. pose proof (add_balance_spec keccak256 keccak_wf ws a v W V) as E. cbv zeta in E. rewrite (account_in_eq ws s a S A) in E. unfold agrees. cbn [perform meaning].
    destruct (_ <=? _); [rewrite E; exists ws; split; [reflexivity | exact S]|]. destruct E as (ws' & -> & U). exists ws'. split; [reflexivity|].
    rewrite uint256_add_spec in U by (assumption || apply (account_in_ok ws s a S A)). exact (put_simulates ws s _ _ _ S A U).
  - destruct C as [A V]. pose proof (sub_balance_spec keccak256 keccak_wf ws a v W V) as E. cbv zeta in E. rewrite (account_in_eq ws s a S A), (sm_account _ _ S a A) in E. unfold agrees. cbn [perform meaning].
    pose proof (account_in_ok ws s a S A) as O. replace (val (acc_balance (account_in s a)) - val v <? 0) with (val (acc_balance (account_in s a)) <? val v) by (apply eq_true_iff_eq; rewrite !Z.ltb_lt; lia).
    destruct (_ <? _); [rewrite E; exists ws; split; [reflexivity | exact S]|]. destruct E as (ws' & -> & U). exists ws'. split; [reflexivity|]. cbn [fst snd].
    unfold account_in in *. destruct (v_account s a); [|rewrite U; exact S]. rewrite uint256_sub_spec in U by (assumption || apply O). exact (put_simulates ws s _ _ _ S A U).
  - destruct C as [A N]. apply (agrees_put ws s _ a (fun x => with_nonce x n) S A); try reflexivity. apply (with_ok _ uint256_zero n hash_zero); auto using wf_zero, wf_hash_zero. eapply account_in_ok; eassumption.
  - pose proof (increment_spec keccak256 keccak_wf ws a W) as E. cbv zeta in E. rewrite (account_in_eq ws s a S C) in E. unfold agrees. cbn [perform meaning fst snd]. change (UINT64_MAX - 1) with (2 ^ 64 - 2) in E.
    destruct (_ <=? _); [rewrite E; exists ws; split; [reflexivity | exact S]|]. destruct E as (ws' & -> & U). exists ws'. split; [reflexivity | exact (put_simulates ws s _ _ _ S C U)].
Qed.

Lemma agrees_rest ws s c : simulates ws s -> call_ok c -> match c with
  DeleteAccount _ | SetCode _ _ | SetStorage _ _ _ | WarmAddress _ | WarmSlot _ _ | BeginTransaction | Snapshot | RevertToSnapshot _ | CommitSnapshot _ => agrees ws s c | _ => True end.
Proof.
  intros S C. pose proof S as [S1 S2 S3 S4 S5 S6 S7 S8 S9 S10 S11]. destruct c; try exact I; cbn [call_ok] in C; unfold agrees; cbn [perform meaning fst snd].
  - destruct (delete_account_spec keccak256 keccak_wf ws a S1) as (ws' & -> & [U1 U2 U3 U4 U5 [U6 U7] U8 U9 U10 U11]). exists ws'. split; [reflexivity|]. split; cbn [v_account v_slot v_original v_code v_warm v_warm_slot v_snapshots v_trie v_dirty].
    + exact U1.
    + intros b B. rewrite U2, address_key_eq, S2 by assumption. reflexivity.
    + intros b k B K. rewrite U3, S3 by assumption. unfold upd. destruct (address_equal a b); reflexivity.
    + rewrite U5. exact S4.
    + intros b. rewrite U4, S5. reflexivity.
    + rewrite U6. exact S6.
    + rewrite U7. exact S7.
    + rewrite U10. exact S8.
    + intros b. rewrite U11, S9. unfold upd. destruct (address_equal a b); reflexivity.
    + rewrite U8. exact S10.
    + destruct S11 as [G1 G2 G3]. split; [intros b; rewrite U2; destruct (same_key _ _ _); [congruence | apply G1] | intros b j; rewrite U3; destruct (address_equal a b); [congruence | apply G2] | rewrite U8; exact G3].
  - destruct C as [A C]. destruct (set_code_spec keccak256 keccak_wf ws a code S1 C) as (ws' & -> & U). exists ws'. split; [reflexivity|].
    rewrite (account_in_eq ws s a S A) in U. assert (S' : simulates (store_code ws a code) (View (v_account s) (v_slot s) (v_original s)
      (upd a (Some (match v_code s a with Some old => old | None => code end)) (v_code s)) (v_warm s) (v_warm_slot s) (v_snapshots s) (v_trie s) (v_dirty s))).
    { split; try assumption; [apply store_code_ok; assumption| |apply (grounded_frame ws); auto]. intros b. cbn [v_code store_code code_store set_code_store]. rewrite get_insert, !S5. unfold upd. change (address_equal a b) with (key_eq a b).
      destruct (key_eq a b); [destruct (v_code s a); reflexivity | reflexivity]. }
    exact (put_simulates _ _ _ _ _ S' A U).
  - destruct C as (A & K & V). destruct (set_storage_spec keccak256 keccak_wf ws a k v S1 V) as (ws' & -> & [U1 U2 U3 U4 U5 _ U7]). destruct U3 as [R1 R2 R3 R4 R5 R6]. exists ws'. split; [reflexivity|].
    split; cbn [v_account v_slot v_original v_code v_warm v_warm_slot v_snapshots v_trie v_dirty]; rewrite ?R2, ?R3, ?R4, ?R6; try assumption.
    + intros b B. rewrite (acct_same keccak256 ws ws' b R1). apply S2, B.
    + intros b j B J. rewrite U2, S3, slot_key_eq by assumption. unfold upd2, warm_slot_key_eq. cbn [key_addr key_slot]. destruct (address_equal a b); reflexivity.
    + intros b j. rewrite U4. unfold upd2, original_in. change (warm_slot_key_eq (SlotKey a k) (SlotKey b j)) with (key_eq (SlotKey a k) (SlotKey b j)).
      destruct (key_eq_case (SlotKey a k) (SlotKey b j)) as [[-> E]|[-> _]]; [|apply S4]. injection E as <- <-. rewrite S4, S3 by assumption. reflexivity.
    + intros b. rewrite U7, S9. unfold upd. destruct (address_equal a b); reflexivity.
    + intros b. rewrite U5, S10. unfold upd. destruct (address_equal a b); reflexivity.
    + destruct S11 as [G1 G2 G3]. split.
      * intros b. rewrite (acct_same keccak256 ws ws' b R1). apply G1.
      * intros b j. rewrite U2. destruct (address_equal a b) eqn:E; cbn [andb]; [|apply G2]. apply bytes_eqb_eq in E. subst b. destruct (same_key _ _ _) eqn:E; [|apply G2]. intros _. split; [exact A | exists k; auto].
      * intros b. rewrite U5. intros D. apply orb_true_iff in D as [D|D]; [apply bytes_eqb_eq in D; subst b; exact A | exact (G3 b D)].
  - unfold ws_warm_address. rewrite S6. destruct (v_warm s a) eqn:E.
    + exists ws. split; [reflexivity|]. split; try assumption; try (apply (grounded_frame ws); [exact S11 | reflexivity..]). intros b. rewrite S6. cbn [v_warm]. unfold upd. change (address_equal a b) with (key_eq a b). destruct (key_eq_case a b) as [[-> <-]|[-> _]]; [exact E | reflexivity].
    + eexists. split; [reflexivity|]. split; try assumption; try (apply (grounded_frame ws); [exact S11 | reflexivity..]); [apply (warm_frame keccak256 ws); exact S1|]. intros b. cbn [warm_addresses set_warm v_warm fst]. rewrite contains_insert, S6. unfold upd. change (address_equal a b) with (key_eq a b). destruct (key_eq a b); reflexivity.
  - unfold ws_warm_slot. rewrite S7. destruct (v_warm_slot s a k) eqn:E.
    + exists ws. split; [reflexivity|]. split; try assumption; try (apply (grounded_frame ws); [exact S11 | reflexivity..]). intros b j. rewrite S7. cbn [v_warm_slot]. unfold upd2. change (warm_slot_key_eq (SlotKey a k) (SlotKey b j)) with (key_eq (SlotKey a k) (SlotKey b j)).
      destruct (key_eq_case (SlotKey a k) (SlotKey b j)) as [[-> X]|[-> _]]; [injection X as <- <-; exact E | reflexivity].
    + eexists. split; [reflexivity|]. split; try assumption; try (apply (grounded_frame ws); [exact S11 | reflexivity..]); [apply (warm_frame keccak256 ws); exact S1|]. intros b j. cbn [warm_slots set_warm v_warm_slot fst]. rewrite contains_insert, S7. unfold upd2.
      change (warm_slot_key_eq (SlotKey a k) (SlotKey b j)) with (key_eq (SlotKey a k) (SlotKey b j)). destruct (key_eq _ _); reflexivity.
  - eexists. split; [reflexivity|]. split; try assumption; try (apply (grounded_frame ws); [exact S11 | reflexivity..]); unfold hm_contains; cbn; intros; rewrite ?get_clear; try reflexivity. apply (world_ok_frame keccak256 ws); try reflexivity; [exact S1|].
    intros k v. cbn. rewrite get_clear. discriminate.
  - rewrite <- S8. eexists. split; [reflexivity|]. split; try assumption; try (apply (grounded_frame ws); [exact S11 | reflexivity..]); [|reflexivity]. apply (world_ok_frame keccak256 ws); try reflexivity; [exact S1 | apply S1].
  - exists ws. split; [reflexivity | exact S].
  - exists ws. split; [reflexivity | exact S].
Qed.

Lemma agrees_all ws s c : simulates ws s -> call_ok c -> agrees ws s c.
Proof.
  intros S C. pose proof (agrees_account ws s c S C). pose proof (agrees_balance ws s c S C). pose proof (agrees_rest ws s c S C). destruct c; assumption.
Qed.

Lemma perform_simulates cs : forall ws s, simulates ws s -> Forall call_ok cs ->
  exists ws', perform_all keccak256 ws cs = inl (ws', snd (meanings keccak256 s cs)) /\ simulates ws' (fst (meanings keccak256 s cs)).
Proof.
  induction cs as [|c cs IH]; intros ws s S F; cbn [perform_all meanings]; [exists ws; split; [reflexivity | exact S]|]. inversion F as [|? ? C F' E]; subst.
  destruct (agrees_all ws s c S C) as (ws1 & -> & S1). cbn [try fst snd]. destruct (meaning keccak256 s c) as [s1 r]. cbn [fst snd] in *. destruct (IH ws1 s1 S1 F') as (ws' & -> & S'). exists ws'.
  destruct (meanings keccak256 s1 cs) as [s2 rs]. split; [reflexivity | exact S'].
Qed.
End Refinement.

(** * The state root

    The state root depends on what the world state holds, and on nothing else:
    not on the order of the writes, the layout of the tables, the positions of
    the storage tries or the hashes that nodes have cached. *)

Section Root.
Context {M : Type -> Type -> Type} {HT : HashTables M} {HL : HashTableLaws M}.
Variable keccak256 : list Z -> hash_t.
Hypothesis keccak_wf : forall bs, wf_hash (keccak256 bs).
#[local] Abbreviation world := (@world_state_t M).
#[local] Abbreviation world_ok := (@world_ok M HT keccak256).
#[local] Abbreviation acct := (acct keccak256).
#[local] Abbreviation slot_at := (slot_at keccak256).
#[local] Abbreviation slot_in := (slot_in keccak256).
#[local] Abbreviation trie_of := (trie_of keccak256).
#[local] Abbreviation root_of := (root_of keccak256).

Lemma at_key_get P t bs v : trie_of P t -> at_key t (unpack (keccak256 bs)) v <-> mpt_get t (keccak256 bs) = inl (Some v).
Proof.
  intros [T _]. destruct (mpt_get_spec keccak256 t _ T (hash_key_ok keccak256 keccak_wf bs)) as (o & E & H). rewrite E. change (at_key t (unpack (keccak256 bs)) v) with (holds t (keccak256 bs) v).
  rewrite <- H. split; [intros ->; reflexivity | intros [= ->]; reflexivity].
Qed.

Lemma same_contents P t t' : trie_of P t -> trie_of P t' -> (forall k v, at_key t k v -> at_key t' k v) -> (forall k v, at_key t' k v -> at_key t k v) -> root_of t = root_of t'.
Proof. intros [T _] [T' _] A B. apply (root_canonical keccak256 t t' T T'). intros k v. split; auto. Qed.

(** *** Storage tries *)

Lemma slot_in_some t j x : trie_of (slot_value keccak256) t -> 0 < x < 2 ^ 256 ->
  mpt_get t (keccak256 (slot_bytes j)) = inl (Some (min_be x)) <-> slot_in t j = of_Z256 x.
Proof.
  intros T R. unfold WorldSpec.slot_in. destruct (trie_of_get keccak256 keccak_wf _ t (slot_bytes j) T) as (o & -> & H). cbn [try or_else].
  destruct (min_be_small x R) as (_ & N & E). split.
  - intros [= ->]. cbn [word_of]. destruct (min_be x); [congruence | exact E].
  - intros W. assert (V : val (word_of o) = x) by (rewrite W, val_of_Z256; apply Z.mod_small; lia). destruct o as [v|]; [|change (val (word_of None)) with 0 in V; lia].
    destruct (H v eq_refl) as (j' & y & _ & Ry & ->). destruct (min_be_small y Ry) as (_ & Ny & Ey). cbn [word_of] in V. destruct (min_be y) as [|b bs] eqn:Eb; [congruence|].
    rewrite Ey, val_of_Z256, Z.mod_small in V by lia. subst y. rewrite Eb. reflexivity.
Qed.

Lemma slots_incl t t' : trie_of (slot_value keccak256) t -> trie_of (slot_value keccak256) t' -> (forall j, slot_in t' j = slot_in t j) -> forall k v, at_key t k v -> at_key t' k v.
Proof.
  intros T T' E k v H. destruct (proj2 T k v H) as (j & x & -> & R & ->). apply (at_key_get _ t (slot_bytes j) _ T) in H. apply (at_key_get _ t' (slot_bytes j) _ T').
  apply slot_in_some; [exact T' | exact R|]. rewrite E. apply slot_in_some; assumption.
Qed.

Lemma storage_root_determined t t' : trie_of (slot_value keccak256) t -> trie_of (slot_value keccak256) t' -> (forall j, slot_in t j = slot_in t' j) -> root_of t = root_of t'.
Proof. intros T T' E. apply (same_contents _ t t' T T'); apply slots_incl; auto. Qed.

(** *** The account trie *)

Lemma accounts_incl (ws ws' : world) : world_ok ws -> world_ok ws' -> (forall a, acct ws' a = acct ws a) -> forall k v, at_key (state_trie ws) k v -> at_key (state_trie ws') k v.
Proof.
  intros W W' E k v H. destruct (proj2 (wo_accounts _ ws W) k v H) as (a & acc & -> & _). apply (at_key_get _ _ a _ (wo_accounts _ ws W)) in H. apply (at_key_get _ _ a _ (wo_accounts _ ws' W')).
  destruct (get_account_spec keccak256 keccak_wf ws a W) as (_ & _ & G). destruct (get_account_spec keccak256 keccak_wf ws' a W') as (_ & _ & ->). rewrite E, <- G. exact H.
Qed.

Lemma account_root_determined (ws ws' : world) : world_ok ws -> world_ok ws' -> (forall a, acct ws a = acct ws' a) -> root_of (state_trie ws) = root_of (state_trie ws').
Proof. intros W W' E. apply (same_contents _ _ _ (wo_accounts _ ws W) (wo_accounts _ ws' W')); apply accounts_incl; auto. Qed.

(** *** The state root *)

(** The same accounts and slots. *)
Record same_world (ws ws' : world) : Prop := {
  sw_acct : forall a, acct ws a = acct ws' a;
  sw_slot : forall a k, slot_at ws a k = slot_at ws' a k }.

(** A world state of which no root was taken: accounts have the root of the
    empty trie, and the addresses with storage are marked for the next root. *)
Record unrooted (ws : world) : Prop := {
  ur_root : forall a acc, acct ws a = Some acc -> acc_storage_root acc = MPT_EMPTY_ROOT;
  ur_dirty : forall a k, slot_at ws a k <> uint256_zero -> hm_contains (dirty_storage ws) a = true;
  ur_wf : forall a, hm_contains (dirty_storage ws) a = true -> wf_address a }.

Lemma trie_at_some ws a : world_ok ws -> match trie_at ws a with
  | Some t => hm_contains (storage_tries ws) a = true /\ trie_of (slot_value keccak256) t
  | None => hm_contains (storage_tries ws) a = false end.
Proof.
  intros W. unfold trie_at, hm_contains. destruct (hm_get (storage_tries ws) a) as [p|] eqn:E; [|reflexivity]. destruct (pointer_valid keccak256 ws a p W E) as (t & -> & T). auto.
Qed.

(** The account of [a] in the state whose root is taken. *)
Definition rooted (ws : world) (a : address_t) : option account_t := if hm_contains (dirty_storage ws) a then refreshed keccak256 ws a else acct ws a.

Lemma empty_trie_of : trie_of (slot_value keccak256) mpt_memory_backend_create /\ root_of mpt_memory_backend_create = MPT_EMPTY_ROOT.
Proof. split; [split; [exact I | intros k v []] | reflexivity]. Qed.

(** It is the account with the root of a trie of its slots, even where there is
    no trie because the slots are all zero. *)
Lemma rooted_spec ws a : world_ok ws -> unrooted ws -> exists t, trie_of (slot_value keccak256) t /\ (forall j, slot_in t j = slot_at ws a j) /\
  rooted ws a = match acct ws a with None => None | Some acc => kept (with_root acc (root_of t)) end.
Proof.
  intros W [U1 U2 _]. unfold rooted, refreshed, acct_or. destruct empty_trie_of as [T0 R0].
  assert (None_ : (forall j, slot_at ws a j = uint256_zero) -> exists t, trie_of (slot_value keccak256) t /\ (forall j, slot_in t j = slot_at ws a j) /\
    acct ws a = match acct ws a with None => None | Some acc => kept (with_root acc (root_of t)) end).
  { intros Z. exists mpt_memory_backend_create. split; [exact T0|]. split; [intros j; rewrite Z; reflexivity|]. rewrite R0.
    destruct (acct ws a) as [acc|] eqn:E; [|reflexivity]. destruct (get_account_spec keccak256 keccak_wf ws a W) as (_ & H & _). destruct (H acc E) as [_ H'].
    replace (with_root acc MPT_EMPTY_ROOT) with acc by (rewrite <- (U1 a acc E); destruct acc; reflexivity). unfold kept. rewrite H'. reflexivity. }
  pose proof (trie_at_some ws a W) as H. pose proof (fun j => slot_at_trie keccak256 ws a j W) as Sl. destruct (hm_contains (dirty_storage ws) a) eqn:D.
  - destruct (trie_at ws a) as [t|]; [|apply None_; exact Sl]. exists t. split; [apply H|]. split; [intros j; symmetry; apply Sl|]. destruct (acct ws a); reflexivity.
  - apply None_. intros j. destruct (uint256_eq (slot_at ws a j) uint256_zero) eqn:E; [|rewrite (U2 a j) in D; [discriminate|]; intros X; rewrite X in E; discriminate].
    rewrite uint256_eq_spec in E by (apply wf_zero || apply (get_storage_spec keccak256 keccak_wf ws a j W)). apply Z.eqb_eq, val_inj in E; [exact E | apply (get_storage_spec keccak256 keccak_wf ws a j W) | apply wf_zero].
Qed.

Lemma rooted_same ws ws' a : world_ok ws -> world_ok ws' -> unrooted ws -> unrooted ws' -> same_world ws ws' -> rooted ws a = rooted ws' a.
Proof.
  intros W W' U U' [A S]. destruct (rooted_spec ws a W U) as (t & T & St & ->). destruct (rooted_spec ws' a W' U') as (t' & T' & St' & ->).
  rewrite A, (storage_root_determined t t' T T'); [reflexivity|]. intros j. rewrite St, St'. apply S.
Qed.

(** An address with the key of a dirty one stands for it. *)
Lemma dirty_key ws b : (exists x, hm_contains (dirty_storage ws) x = true /\ same_key keccak256 x b = true) \/
  (forall x : address_t, hm_contains (dirty_storage ws) x = true -> same_key keccak256 x b = true -> False).
Proof.
  destruct (existsb (fun x => same_key keccak256 x b) (map fst (hm_items (@dirty_storage M ws)))) eqn:E.
  - left. apply existsb_exists in E as (x & I & K). exists x. split; [apply in_keys, I | exact K].
  - right. intros x C K. apply not_true_iff_false in E. apply E, existsb_exists. exists x. split; [apply in_keys, C | exact K].
Qed.

(** No two addresses with the same hash. *)
Hypothesis address_keys : forall a b, wf_address a -> wf_address b -> keccak256 a = keccak256 b -> a = b.

Lemma unrooted_separate ws : unrooted ws -> dirty_separate keccak256 ws.
Proof. intros U a b A B E. apply bytes_eqb_eq in E. apply address_keys; [exact (ur_wf _ U a A) | exact (ur_wf _ U b B) | exact E]. Qed.

Lemma root_determined ws ws' : world_ok ws -> world_ok ws' -> unrooted ws -> unrooted ws' -> same_world ws ws' ->
  exists s s' h, world_state_root keccak256 ws = inl (s, h) /\ world_state_root keccak256 ws' = inl (s', h).
Proof.
  intros W W' U U' E. destruct (root_spec keccak256 keccak_wf ws W (unrooted_separate ws U)) as (s & R & O & _ & A & _).
  destruct (root_spec keccak256 keccak_wf ws' W' (unrooted_separate ws' U')) as (s' & R' & O' & _ & A' & _).
  exists s, s', (root_of (state_trie s)). split; [exact R|]. rewrite R'. f_equal. f_equal. symmetry. apply account_root_determined; [exact O | exact O'|].
  assert (K : forall x, wf_address x -> acct s x = acct s' x).
  { intros x X. assert (Y : forall w, unrooted w -> forall y : address_t, hm_contains (dirty_storage w) y = true -> same_key keccak256 y x = true -> y = x).
    { intros w Uw y D Ey. apply bytes_eqb_eq in Ey. apply address_keys; [exact (ur_wf _ Uw y D) | exact X | exact Ey]. }
    rewrite A by exact (Y ws U). rewrite A' by exact (Y ws' U'). exact (rooted_same ws ws' x W W' U U' E). }
  intros b. destruct (dirty_key ws b) as [(x & C & Kx)|N]; [rewrite <- (acct_key keccak256 s x b Kx), <- (acct_key keccak256 s' x b Kx); apply K, (ur_wf _ U x C)|].
  destruct (dirty_key ws' b) as [(x & C & Kx)|N']; [rewrite <- (acct_key keccak256 s x b Kx), <- (acct_key keccak256 s' x b Kx); apply K, (ur_wf _ U' x C)|].
  rewrite A by (intros x C Kx; destruct (N x C Kx)). rewrite A' by (intros x C Kx; destruct (N' x C Kx)).
  assert (D : forall w, (forall x : address_t, hm_contains (dirty_storage w) x = true -> same_key keccak256 x b = true -> False) -> hm_contains (@dirty_storage M w) b = false).
  { intros w Nw. destruct (hm_contains (dirty_storage w) b) eqn:Db; [|reflexivity]. destruct (Nw b Db). apply bytes_eqb_eq. reflexivity. }
  rewrite (D ws N), (D ws' N'). apply (sw_acct _ _ E).
Qed.
End Root.
