(* ===== verification/WorldExport.v ===== *)
(** The exported state: [world_state_snapshot] lists every tracked account that
    exists once, with exactly its tracked slots that are not zero, and stays
    inside the arrays it allocates. *)
From Stdlib Require Import ZArith Lia List Bool.
From S2P Require Import Prelude Uint256 Types Effects Arena Stack Bytes RlpSpec Account StateAccess HashTable Nibbles Trie TrieSpec TrieMap WorldState WorldSpec.
Import ListNotations.
#[local] Open Scope Z_scope.
#[local] Open Scope trie_scope.

(** * Positions of accounts *)

Lemma address_equal_spec a b : address_equal a b = true <-> a = b.
Proof. apply bytes_eqb_eq. Qed.

Lemma account_index_some accs a i : account_index accs a = Some i -> exists acc, nth_error accs i = Some acc /\ as_address acc = a.
Proof.
  revert i; induction accs as [|acc accs IH]; intros i; cbn [account_index]; [discriminate|]. destruct (address_equal a (as_address acc)) eqn:E.
  - intros [= <-]. apply address_equal_spec in E. exists acc. auto.
  - destruct (account_index accs a) as [j|]; [|discriminate]. intros [= <-]. apply IH. reflexivity.
Qed.

Lemma account_index_nth accs a i acc : NoDup (map as_address accs) -> nth_error accs i = Some acc -> as_address acc = a -> account_index accs a = Some i.
Proof.
  revert i; induction accs as [|x accs IH]; intros i D N A; [destruct i; discriminate|]. inversion D as [|? ? Nx D' Eq]; subst. cbn [account_index]. destruct i as [|i]; cbn [nth_error] in N.
  - injection N as ->. rewrite (proj2 (address_equal_spec _ _) eq_refl). reflexivity.
  - destruct (address_equal _ _) eqn:E; [|rewrite (IH i D' N eq_refl); reflexivity]. apply address_equal_spec in E. exfalso. apply Nx. rewrite <- E. apply in_map, (nth_error_In _ _ N).
Qed.

Section Exported_state.
Context {M : Type -> Type -> Type} {HT : HashTables M} {HL : HashTableLaws M}.
Variable keccak256 : list Z -> hash_t.
Hypothesis keccak_wf : forall bs, wf_hash (keccak256 bs).
#[local] Abbreviation world := (@world_state_t M).
#[local] Abbreviation slot_at := (slot_at keccak256).
#[local] Abbreviation acct := (acct keccak256).

(** * Counting *)

Definition of_address (a : address_t) (slots : list warm_slot_key_t) : list warm_slot_key_t := filter (fun key => address_equal (key_addr key) a) slots.

Lemma count_slots_spec accs slots : forall counts i acc, NoDup (map as_address accs) -> length counts = length accs -> nth_error accs i = Some acc ->
  nth i (count_slots accs slots counts) O = (nth i counts O + length (of_address (as_address acc) slots))%nat.
Proof.
  induction slots as [|key slots IH]; intros counts i acc D L N; cbn [count_slots fold_left of_address filter length]; [lia|].
  fold (count_slots accs slots). destruct (account_index accs (key_addr key)) as [j|] eqn:E.
  - destruct (account_index_some _ _ _ E) as (x & Nj & Ex). assert (Lj : (j < length counts)%nat) by (rewrite L; apply nth_error_Some; rewrite Nj; discriminate).
    pose proof (IH (list_set counts j (S (nth j counts O))) i acc D ltac:(rewrite length_list_set; exact L) N) as H. unfold count_slots in H. rewrite H. clear H.
    assert (Ni : nth i (list_set counts j (S (nth j counts O))) O = if Nat.eqb j i then S (nth j counts O) else nth i counts O).
    { assert (X : forall (l : list nat) k, nth k l O = match nth_error l k with Some v => v | None => O end) by (intros l k; rewrite <- (nth_default_eq k l O); reflexivity).
      rewrite X, nth_error_list_set by exact Lj. destruct (Nat.eqb j i); [reflexivity | rewrite X; reflexivity]. }
    rewrite Ni. destruct (Nat.eqb_spec j i) as [<-|Nji].
    + rewrite Nj in N. injection N as <-. rewrite <- Ex, (proj2 (address_equal_spec _ _) eq_refl). cbn [length]. unfold of_address. lia.
    + destruct (address_equal (key_addr key) (as_address acc)) eqn:Ea; [|unfold of_address; lia]. apply address_equal_spec in Ea. exfalso. apply Nji. symmetry in Ea. pose proof (account_index_nth accs _ i acc D N Ea). congruence.
  - pose proof (IH counts i acc D L N) as H. unfold count_slots in H. rewrite H. destruct (address_equal (key_addr key) (as_address acc)) eqn:Ea; [|unfold of_address; lia].
    apply address_equal_spec in Ea. symmetry in Ea. pose proof (account_index_nth accs _ i acc D N Ea). congruence.
Qed.

(** * Filling *)

(** The entries of one account. *)
Definition entries_of (ws : world) (a : address_t) (slots : list warm_slot_key_t) : list storage_entry_t :=
  map (fun key => StorageEntry (key_slot key) (slot_at ws a (key_slot key))) (filter (fun key => negb (uint256_is_zero (slot_at ws a (key_slot key)))) (of_address a slots)).

Definition extended (ws : world) (slots : list warm_slot_key_t) (acc : account_snapshot_t) : account_snapshot_t :=
  AccountSnapshot (as_address acc) (as_balance acc) (as_nonce acc) (as_code acc) (as_storage acc ++ entries_of ws (as_address acc) slots).

Definition room (capacity : list nat) (slots : list warm_slot_key_t) (accs : list account_snapshot_t) : Prop :=
  forall i acc, nth_error accs i = Some acc -> (length (as_storage acc) + length (of_address (as_address acc) slots) <= nth i capacity O)%nat.

Lemma entries_cons_other ws a key slots : address_equal (key_addr key) a = false -> entries_of ws a (key :: slots) = entries_of ws a slots.
Proof. intros E. unfold entries_of, of_address. cbn [filter]. rewrite E. reflexivity. Qed.

Lemma entries_cons ws a key slots : address_equal (key_addr key) a = true -> entries_of ws a (key :: slots) =
  if uint256_is_zero (slot_at ws a (key_slot key)) then entries_of ws a slots else StorageEntry (key_slot key) (slot_at ws a (key_slot key)) :: entries_of ws a slots.
Proof. intros E. unfold entries_of, of_address. cbn [filter]. rewrite E. cbn [filter]. destruct (uint256_is_zero _); reflexivity. Qed.

Lemma map_ext_nth {A B} (f g : A -> B) l l' : length l = length l' -> (forall i x y, nth_error l i = Some x -> nth_error l' i = Some y -> f x = g y) -> map f l = map g l'.
Proof.
  revert l'; induction l as [|x l IH]; intros [|y l'] L H; try discriminate; [reflexivity|]. cbn [map]. f_equal; [apply (H O); reflexivity|]. apply IH; [cbn in L; lia | intros i; apply (H (S i))].
Qed.

Lemma map_extended_same ws slots key accs : (forall acc, In acc accs -> entries_of ws (as_address acc) (key :: slots) = entries_of ws (as_address acc) slots) ->
  map (extended ws (key :: slots)) accs = map (extended ws slots) accs.
Proof. intros H. apply map_ext_in. intros acc I. unfold extended. rewrite H by exact I. reflexivity. Qed.

Lemma fill_slots_spec ws capacity slots : world_ok keccak256 ws -> forall accs, NoDup (map as_address accs) -> room capacity slots accs ->
  fill_slots keccak256 ws capacity slots accs = inl (map (extended ws slots) accs).
Proof.
  intros W. induction slots as [|key slots IH]; intros accs D R; cbn [fill_slots].
  - f_equal. rewrite <- (map_id accs) at 1. apply map_ext. intros [a b n c st]. unfold extended. cbn. rewrite app_nil_r. reflexivity.
  - assert (Room : room capacity slots accs).
    { intros i acc N. specialize (R i acc N). unfold of_address in *. cbn [filter] in R. destruct (address_equal _ _); cbn [length] in R; lia. }
    destruct (account_index accs (key_addr key)) as [i|] eqn:E.
    + destruct (account_index_some _ _ _ E) as (acc & N & A). rewrite N. destruct (get_storage_spec keccak256 keccak_wf ws (as_address acc) (key_slot key) W) as [-> _]. cbn [try].
      assert (Other : forall j x, nth_error accs j = Some x -> j <> i -> address_equal (key_addr key) (as_address x) = false).
      { intros j x Nj Nji. apply not_true_iff_false. intros X. apply address_equal_spec in X. symmetry in X. pose proof (account_index_nth accs _ j x D Nj X). congruence. }
      assert (Same : address_equal (key_addr key) (as_address acc) = true) by (apply address_equal_spec; auto).
      destruct (uint256_is_zero (slot_at ws (as_address acc) (key_slot key))) eqn:Z0.
      * rewrite IH by assumption. f_equal. symmetry. apply map_extended_same. intros x I. apply In_nth_error in I as [j Nj]. destruct (Nat.eq_dec j i) as [->|Nji].
        -- rewrite N in Nj. injection Nj as <-. rewrite entries_cons, Z0 by exact Same. reflexivity.
        -- apply entries_cons_other, (Other j x Nj Nji).
      * pose proof (R i acc N) as Ri. unfold of_address in Ri. cbn [filter] in Ri. rewrite Same in Ri. cbn [length] in Ri.
        destruct (Nat.leb_spec (nth i capacity O) (length (as_storage acc))) as [L|_]; [lia|]. set (acc' := AccountSnapshot _ _ _ _ _).
        assert (Li : (i < length accs)%nat) by (apply nth_error_Some; rewrite N; discriminate).
        assert (ND : map as_address (list_set accs i acc') = map as_address accs).
        { apply map_ext_nth; [apply length_list_set|]. intros j x y. rewrite nth_error_list_set by exact Li. destruct (Nat.eqb_spec i j) as [<-|_]; [|congruence]. intros [= <-] Ny. rewrite N in Ny. injection Ny as <-. reflexivity. }
        rewrite IH; [|rewrite ND; exact D|].
        -- f_equal. apply map_ext_nth; [apply length_list_set|]. intros j x y. rewrite nth_error_list_set by exact Li. destruct (Nat.eqb_spec i j) as [<-|Nij].
           ++ intros [= <-] Ny. rewrite N in Ny. injection Ny as <-. unfold extended, acc'. cbn [as_address as_balance as_nonce as_code as_storage]. rewrite entries_cons, Z0, <- app_assoc by exact Same. reflexivity.
           ++ intros Nx Ny. rewrite Nx in Ny. injection Ny as <-. unfold extended. rewrite entries_cons_other; [reflexivity|]. apply (Other j x Nx). congruence.
        -- intros j x. rewrite nth_error_list_set by exact Li. destruct (Nat.eqb_spec i j) as [<-|_]; [|apply Room]. intros [= <-]. unfold acc'. cbn [as_address as_storage]. rewrite length_app. cbn [length]. unfold of_address. lia.
    + rewrite IH by assumption. f_equal. symmetry. apply map_extended_same. intros x I. apply entries_cons_other. apply not_true_iff_false. intros X. apply address_equal_spec in X. apply In_nth_error in I as [j Nj].
      symmetry in X. pose proof (account_index_nth accs _ j x D Nj X). congruence.
Qed.

(** * Accounts *)

Definition bare (ws : world) (a : address_t) : list account_snapshot_t :=
  match acct ws a with Some acc => [AccountSnapshot a (acc_balance acc) (acc_nonce acc) (ws_get_code ws a) []] | None => [] end.

Lemma snapshot_accounts_spec ws addrs : world_ok keccak256 ws -> snapshot_accounts keccak256 ws addrs = inl (Some (flat_map (bare ws) addrs)).
Proof.
  intros W. induction addrs as [|a addrs IH]; cbn [snapshot_accounts flat_map]; [reflexivity|]. destruct (get_account_spec keccak256 keccak_wf ws a W) as (-> & _). cbn [try].
  unfold bare at 1. destruct (acct ws a) as [acc|]; [|exact IH]. rewrite IH. fold (ws_get_code ws a).
  assert (C : Z.of_nat (length (ws_get_code ws a)) <= 65536).
  { unfold ws_get_code. destruct (hm_get (code_store ws) a) as [c|] eqn:E; [apply (wo_code _ ws W a c E) | cbn; lia]. }
  destruct (Nat.ltb_spec 0 (length (ws_get_code ws a))) as [L|L]; [|reflexivity]. unfold alloc_succeeds, DIV0_ARENA_BLOCK_SIZE.
  rewrite (proj2 (Z.ltb_lt _ _)), (proj2 (Z.leb_le _ _)) by lia. reflexivity.
Qed.

Lemma bare_in ws addrs x : In x (flat_map (bare ws) addrs) <-> In (as_address x) addrs /\ In x (bare ws (as_address x)).
Proof.
  rewrite in_flat_map. split; [|intros [I B]; eauto]. intros (a & I & B). assert (E : as_address x = a) by (unfold bare in B; destruct (acct ws a); [destruct B as [<-|[]]; reflexivity | destruct B]).
  rewrite E. auto.
Qed.

Lemma bare_nodup ws addrs : NoDup addrs -> NoDup (map as_address (flat_map (bare ws) addrs)).
Proof.
  induction 1 as [|a addrs N D IH]; cbn [flat_map map]; [constructor|]. rewrite map_app. unfold bare at 1. destruct (acct ws a); [|exact IH]. cbn [map app as_address]. constructor; [|exact IH].
  intros I. apply in_map_iff in I as (x & E & I). apply bare_in in I as [I _]. rewrite E in I. contradiction.
Qed.

(** * The whole export *)

Definition slot_list (ws : world) : list warm_slot_key_t := map fst (hm_items (all_storage_slots ws)).
Definition account_list (ws : world) : list address_t := map fst (hm_items (all_accounts ws)).

Definition exported (ws : world) : list account_snapshot_t := map (extended ws (slot_list ws)) (flat_map (bare ws) (account_list ws)).

(** More accounts, or more slots of one account, than an arena block holds. *)
Definition too_large (ws : world) : Prop :=
  585 < Z.of_nat (length (account_list ws)) \/ exists a, 1024 < Z.of_nat (length (of_address a (slot_list ws))).

Lemma bare_length ws addrs : (length (flat_map (bare ws) addrs) <= length addrs)%nat.
Proof. induction addrs as [|a addrs IH]; cbn [flat_map length]; [lia|]. rewrite length_app. unfold bare at 1. destruct (acct ws a); cbn [length]; lia. Qed.

Lemma alloc_fits n size : 0 < n < 2 ^ 32 -> 0 < size <= 4096 -> alloc_succeeds (w64 (n * size)) = (n * size <=? 65536).
Proof.
  intros N S. unfold alloc_succeeds, DIV0_ARENA_BLOCK_SIZE. rewrite w64_small by (unfold u64; nia). rewrite (proj2 (Z.ltb_lt _ _)) by nia. reflexivity.
Qed.

Lemma forallb_false {A} (f : A -> bool) l : forallb f l = false -> exists x, In x l /\ f x = false.
Proof.
  induction l as [|x l IH]; [discriminate|]. cbn [forallb]. destruct (f x) eqn:E; [|intros _; exists x; split; [left; reflexivity | exact E]].
  intros H. destruct (IH H) as (y & I & Ey). exists y. split; [right; exact I | exact Ey].
Qed.

Lemma nth_zeros {A} (l : list A) i : nth i (map (fun _ => O) l) O = O.
Proof. revert i; induction l as [|x l IH]; intros [|i]; try reflexivity. apply IH. Qed.

Lemma length_count_slots accs slots : forall counts, length (count_slots accs slots counts) = length counts.
Proof.
  induction slots as [|k slots IH]; intros cs; [reflexivity|]. cbn [count_slots fold_left]. destruct (account_index accs (key_addr k)) as [n|]; [|apply (IH cs)].
  etransitivity; [apply (IH (list_set cs n (S (nth n cs O))))|]. apply length_list_set.
Qed.

Lemma snapshot_spec ws : world_ok keccak256 ws -> Z.of_nat (length (account_list ws)) < 2 ^ 32 -> Z.of_nat (length (slot_list ws)) < 2 ^ 32 ->
  exists r, world_state_snapshot keccak256 ws = inl r /\ match r with Some accs => accs = exported ws | None => too_large ws end.
Proof.
  intros W LA LS. unfold world_state_snapshot. cbv zeta. fold (account_list ws) (slot_list ws). pose proof (items_nodup (all_accounts ws)) as D. fold (account_list ws) in D. unfold exported, too_large.
  destruct (Z.eqb_spec (Z.of_nat (length (account_list ws))) 0) as [Z0|NZ]; [eexists; split; [reflexivity|]; destruct (account_list ws); [reflexivity | cbn in Z0; lia]|].
  unfold sizeof_account_snapshot. rewrite alloc_fits by lia. destruct (Z.leb_spec (Z.of_nat (length (account_list ws)) * 112) 65536) as [F|F]; cbn [negb]; [|eexists; split; [reflexivity|]; left; lia].
  rewrite snapshot_accounts_spec by exact W. cbn [try]. set (accs := flat_map (bare ws) (account_list ws)). pose proof (bare_length ws (account_list ws)) as BL. fold accs in BL.
  pose proof (bare_nodup ws (account_list ws) D) as ND. fold accs in ND.
  destruct (Z.eqb_spec (Z.of_nat (length accs)) 0) as [Z1|NZ1]; [eexists; split; [reflexivity|]; destruct accs; [reflexivity | cbn in Z1; lia]|].
  rewrite alloc_fits by lia. destruct (Z.leb_spec (Z.of_nat (length accs) * 8) 65536) as [F1|F1]; cbn [negb]; [|lia].
  set (counts := count_slots _ _ _). assert (Counts : forall i acc, nth_error accs i = Some acc -> nth i counts O = length (of_address (as_address acc) (slot_list ws))).
  { intros i acc N. unfold counts. rewrite (count_slots_spec accs (slot_list ws) _ i acc ND ltac:(apply length_map) N). rewrite nth_zeros. reflexivity. }
  destruct (forallb _ counts) eqn:FB; cbn [negb].
  - rewrite fill_slots_spec; [|exact W|exact ND|].
    + eexists. split; reflexivity.
    + intros i acc N. rewrite (Counts i acc N). assert (E : as_storage acc = []).
      { apply nth_error_In in N. apply bare_in in N as [_ N]. unfold bare in N. destruct (acct ws (as_address acc)); [destruct N as [<-|[]]; reflexivity | destruct N]. }
      rewrite E. cbn [length]. lia.
  - eexists. split; [reflexivity|]. right. assert (LC : length counts = length accs) by (unfold counts; rewrite length_count_slots; apply length_map).
    destruct (forallb_false _ _ FB) as (n & I & En). apply orb_false_iff in En as [N0 En]. apply Nat.eqb_neq in N0. apply (In_nth _ _ O) in I as (i & Hi & <-). rewrite LC in Hi.
    destruct (nth_error accs i) as [acc|] eqn:N; [|apply nth_error_None in N; lia]. rewrite (Counts i acc N) in En, N0. exists (as_address acc).
    assert (LF : (length (of_address (as_address acc) (slot_list ws)) <= length (slot_list ws))%nat) by apply filter_length_le.
    unfold sizeof_storage_entry in En. rewrite alloc_fits in En by lia. apply Z.leb_gt in En. lia.
Qed.

(** ** What is in it *)

Lemma entries_in ws a k v : In (StorageEntry k v) (entries_of ws a (slot_list ws)) <-> hm_contains (all_storage_slots ws) (SlotKey a k) = true /\ v = slot_at ws a k /\ uint256_is_zero v = false.
Proof.
  unfold entries_of, of_address. rewrite in_map_iff. split.
  - intros ([b j] & E & I). injection E as <- <-. apply filter_In in I as [I Z0]. apply filter_In in I as [I A]. apply address_equal_spec in A. cbn [key_addr key_slot] in *. subst b.
    apply in_keys in I. apply negb_true_iff in Z0. auto.
  - intros (C & -> & Z0). exists (SlotKey a k). split; [reflexivity|]. apply filter_In. cbn [key_addr key_slot]. rewrite Z0. split; [|reflexivity]. apply filter_In. split; [apply in_keys, C | apply address_equal_spec; reflexivity].
Qed.

Lemma exported_in ws x : In x (exported ws) <-> hm_contains (all_accounts ws) (as_address x) = true /\ exists acc, acct ws (as_address x) = Some acc /\
  x = AccountSnapshot (as_address x) (acc_balance acc) (acc_nonce acc) (ws_get_code ws (as_address x)) (entries_of ws (as_address x) (slot_list ws)).
Proof.
  unfold exported. rewrite in_map_iff. split.
  - intros (y & <- & I). apply bare_in in I as [I B]. apply in_keys in I. cbn [extended as_address]. split; [exact I|]. unfold bare in B.
    destruct (acct ws (as_address y)) as [acc|]; [|destruct B]. destruct B as [B|[]]. exists acc. split; [reflexivity|]. rewrite <- B. reflexivity.
  - intros (C & acc & E & X). exists (AccountSnapshot (as_address x) (acc_balance acc) (acc_nonce acc) (ws_get_code ws (as_address x)) []). split; [symmetry; exact X|].
    apply bare_in. cbn [as_address]. split; [apply in_keys, C|]. unfold bare. rewrite E. left. reflexivity.
Qed.

Lemma exported_nodup ws : NoDup (map as_address (exported ws)).
Proof. unfold exported. rewrite map_map. cbn [extended as_address]. apply bare_nodup, items_nodup. Qed.
End Exported_state.
