(* ===== verification/WorldTheorems.v ===== *)
(** The properties of the world state: refinement of its contract, canonical
    state roots, the block executor on it, and the exported state. *)
From Stdlib Require Import ZArith Lia List Bool.
From S2P Require Import Prelude Uint256 Types Effects Arith Gas Arena Stack Bytes RlpSpec Account StateAccess HashTable Nibbles Trie TrieSpec TrieMap TrieTheorems.
From S2P Require Import Frame Evm EvmSafe Execution MemState EvmTheorems Executor ExecutorSafe ExecTheorems.
From S2P Require Import WorldState WorldSpec WorldLaws WorldView WorldExport.
Import ListNotations.
#[local] Open Scope Z_scope.
#[local] Open Scope trie_scope.

(** * The hash of the examples has no collisions on addresses and slots *)

Lemma pad_short bs : bytes_ok bs -> (length bs <= 32)%nat -> pad_keccak bs = bs ++ repeat 0 (32 - length bs).
Proof.
  intros B L. unfold pad_keccak. assert (E : map w8 bs = bs).
  { rewrite <- (map_id bs) at 2. apply map_ext_Forall. eapply Forall_impl; [|exact B]. intros x X. apply Z.mod_small. exact X. }
  rewrite E, firstn_app, firstn_all2 by exact L. f_equal. replace 32%nat with ((32 - length bs) + length bs)%nat at 2 by lia. rewrite repeat_app, firstn_app, repeat_length.
  rewrite Nat.sub_diag, app_nil_r. apply firstn_all2. rewrite repeat_length. lia.
Qed.

Lemma pad_inj x y : bytes_ok x -> bytes_ok y -> length x = length y -> (length x <= 32)%nat -> pad_keccak x = pad_keccak y -> x = y.
Proof.
  intros X Y L B E. rewrite !pad_short in E by (assumption || lia). rewrite <- (firstn_all x), <- (firstn_all y). apply (f_equal (firstn (length x))) in E.
  rewrite !firstn_app, Nat.sub_diag in E. rewrite L in E at 3 4. rewrite Nat.sub_diag in E. cbn [firstn] in E. rewrite !app_nil_r in E. exact E.
Qed.

Lemma pad_addresses a b : wf_address a -> wf_address b -> pad_keccak a = pad_keccak b -> a = b.
Proof. intros [La Ba] [Lb Bb]. apply pad_inj; try assumption; unfold ADDRESS_SIZE in *; [congruence | rewrite La; lia]. Qed.

Lemma pad_slots k j : wf256 k -> wf256 j -> pad_keccak (uint256_to_bytes_be k) = pad_keccak (uint256_to_bytes_be j) -> k = j.
Proof.
  intros K J E. rewrite <- (from_to_bytes k K), <- (from_to_bytes j J). f_equal. rewrite !uint256_to_bytes_be_spec in * by assumption.
  apply pad_inj in E; [exact E | apply be_bytes_ok | apply be_bytes_ok | rewrite !length_be_bytes; reflexivity | rewrite length_be_bytes; lia].
Qed.

(** * Refinement *)


Definition addr (n : Z) : address_t := address_from_uint256 (uint256_from_u64 n).
Definition word (n : Z) : uint256_t := uint256_from_u64 n.

Lemma addr_wf n : u64 n -> wf_address (addr n).
Proof. intros N. apply wf_address_from, wf_from_u64, N. Qed.

Ltac good_word := apply wf_from_u64; split; reflexivity || discriminate.
Ltac good_call := cbn [call_ok]; repeat (first [exact I | good_word | apply addr_wf; split; reflexivity || discriminate | split; reflexivity || discriminate | apply conj | small_bytes; fail | vm_compute; congruence]).
Ltac good_calls := repeat (first [apply Forall_nil | apply Forall_cons; [good_call|]]).




(** The documentation and the code part where a snapshot is restored: the
    balance written after it is still there. *)
Definition reverted_history : list call := [Snapshot; SetBalance (addr 7) (word 5); RevertToSnapshot 1; GetBalance (addr 7)].

Example revert_keeps_balance : snd (documented_all pad_keccak new_contract reverted_history) = [Number 1; NoResult; NoResult; Word (word 0)] /\
  snd (meanings pad_keccak empty_view reverted_history) = [Number 1; NoResult; NoResult; Word (word 5)].
Proof. split; reflexivity. Qed.

(** * State roots *)

(** The same accounts and slots. *)
Definition same_holdings (s s' : view) : Prop :=
  (forall a, wf_address a -> v_account s a = v_account s' a) /\ (forall a k, wf_address a -> wf256 k -> v_slot s a k = v_slot s' a k).

(** As long as no root is taken, accounts have the root of the empty trie and
    every address with storage is marked. *)
Definition unrooted_view (s : view) : Prop :=
  (forall a acc, v_account s a = Some acc -> acc_storage_root acc = MPT_EMPTY_ROOT) /\ (forall a k, v_slot s a k <> uint256_zero -> v_dirty s a = true).

Lemma unrooted_put s a acc : unrooted_view s -> acc_storage_root acc = MPT_EMPTY_ROOT -> unrooted_view (put s a acc).
Proof.
  intros [U1 U2] R. split; [|exact U2]. intros b acc'. cbn [v_account put]. unfold upd. destruct (address_equal a b); [|apply U1]. unfold kept. destruct (Account.account_is_empty acc); [discriminate|].
  intros [= <-]. exact R.
Qed.

Lemma unrooted_in s a : unrooted_view s -> acc_storage_root (account_in s a) = MPT_EMPTY_ROOT.
Proof. intros [U _]. unfold account_in. destruct (v_account s a) as [acc|] eqn:E; [exact (U a acc E) | reflexivity]. Qed.

Lemma unrooted_step keccak256 s c : unrooted_view s -> unrooted_view (fst (meaning keccak256 s c)).
Proof.
  intros U. pose proof U as [U1 U2]. pose proof (fun a => unrooted_in s a U) as R. destruct c; cbn [meaning fst]; try exact U; try (apply unrooted_put; [exact U | apply R]).
  - destruct (v_account s a); [exact U | apply unrooted_put; [exact U | reflexivity]].
  - split; cbn [v_account v_slot v_dirty]; unfold upd; intros b x; destruct (address_equal a b); [discriminate | apply U1 | congruence | apply U2].
  - destruct (_ <=? _); [exact U | apply unrooted_put; [exact U | apply R]].
  - destruct (_ <? 0); [exact U|]. cbn [fst]. destruct (v_account s a) as [acc|] eqn:E; [|exact U]. apply unrooted_put; [exact U | exact (U1 a acc E)].
  - destruct (_ <=? _); [exact U | apply unrooted_put; [exact U | apply R]].
  - split; [exact U1|]. cbn [v_slot v_dirty]. intros b j. unfold upd2, upd, warm_slot_key_eq. cbn [key_addr key_slot]. destruct (address_equal a b); [reflexivity | apply U2].
Qed.

Lemma unrooted_all keccak256 cs : forall s, unrooted_view s -> unrooted_view (fst (meanings keccak256 s cs)).
Proof.
  induction cs as [|c cs IH]; intros s U; [exact U|]. cbn [meanings]. pose proof (unrooted_step keccak256 s c U) as U'. destruct (meaning keccak256 s c) as [s1 r]. specialize (IH s1 U').
  destruct (meanings keccak256 s1 cs). exact IH.
Qed.

Lemma unrooted_empty : unrooted_view empty_view.
Proof. split; [discriminate | intros a k []; reflexivity]. Qed.

Section Roots.
Context {M : Type -> Type -> Type} {HT : HashTables M} {HL : HashTableLaws M}.
Variable keccak256 : list Z -> hash_t.
Hypothesis keccak_wf : forall bs, wf_hash (keccak256 bs).
Hypothesis address_keys : forall a b, wf_address a -> wf_address b -> keccak256 a = keccak256 b -> a = b.

Lemma acct_same_view (ws ws' : @world_state_t M) s s' b : simulates keccak256 ws s -> simulates keccak256 ws' s' -> same_holdings s s' ->
  acct keccak256 ws b <> None -> acct keccak256 ws b = acct keccak256 ws' b.
Proof.
  intros S S' [H _] N. destruct (gr_account _ _ (sm_grounded _ _ _ S) b N) as (a & A & K). rewrite <- (acct_key keccak256 ws a b K), <- (acct_key keccak256 ws' a b K).
  rewrite (sm_account _ _ _ S a A), (sm_account _ _ _ S' a A). apply H, A.
Qed.

Lemma slot_same_view (ws ws' : @world_state_t M) s s' a j : simulates keccak256 ws s -> simulates keccak256 ws' s' -> same_holdings s s' ->
  slot_at keccak256 ws a j <> uint256_zero -> slot_at keccak256 ws a j = slot_at keccak256 ws' a j.
Proof.
  intros S S' [_ H] N. destruct (gr_slot _ _ (sm_grounded _ _ _ S) a j N) as (A & k & K & E). apply bytes_eqb_eq in E.
  assert (X : forall w : @world_state_t M, slot_at keccak256 w a j = slot_at keccak256 w a k).
  { intros w. unfold slot_at, ws_get_storage, slot_to_key. fold (slot_bytes j) (slot_bytes k). rewrite E. reflexivity. }
  rewrite !X, (sm_slot _ _ _ S a k A K), (sm_slot _ _ _ S' a k A K). apply H; assumption.
Qed.

Lemma same_holdings_sym s s' : same_holdings s s' -> same_holdings s' s.
Proof. intros [A B]. split; intros; symmetry; auto. Qed.

Lemma views_same_world (ws ws' : @world_state_t M) s s' : simulates keccak256 ws s -> simulates keccak256 ws' s' -> same_holdings s s' -> same_world keccak256 ws ws'.
Proof.
  intros S S' H. pose proof (same_holdings_sym s s' H) as H'. split.
  - intros a. destruct (acct keccak256 ws a) eqn:E; [rewrite <- E; apply (acct_same_view ws ws' s s' a S S' H); congruence|].
    destruct (acct keccak256 ws' a) eqn:E'; [|reflexivity]. rewrite <- E, <- E'. symmetry. apply (acct_same_view ws' ws s' s a S' S H'). congruence.
  - intros a k. destruct (uint256_eq (slot_at keccak256 ws a k) uint256_zero) eqn:E.
    + rewrite uint256_eq_spec in E by (apply wf_zero || apply (get_storage_spec keccak256 keccak_wf ws a k (sm_ok _ _ _ S))). apply Z.eqb_eq in E.
      apply val_inj in E; [|apply (get_storage_spec keccak256 keccak_wf ws a k (sm_ok _ _ _ S)) | apply wf_zero]. rewrite E.
      destruct (uint256_eq (slot_at keccak256 ws' a k) uint256_zero) eqn:E'.
      * rewrite uint256_eq_spec in E' by (apply wf_zero || apply (get_storage_spec keccak256 keccak_wf ws' a k (sm_ok _ _ _ S'))). apply Z.eqb_eq in E'.
        apply val_inj in E'; [|apply (get_storage_spec keccak256 keccak_wf ws' a k (sm_ok _ _ _ S')) | apply wf_zero]. symmetry. exact E'.
      * rewrite <- E. symmetry. apply (slot_same_view ws' ws s' s a k S' S H'). intros X. rewrite X in E'. discriminate.
    + apply (slot_same_view ws ws' s s' a k S S' H). intros X. rewrite X in E. discriminate.
Qed.

Lemma simulates_unrooted (ws : @world_state_t M) s : simulates keccak256 ws s -> unrooted_view s -> unrooted keccak256 ws.
Proof.
  intros S [U1 U2]. pose proof (sm_grounded _ _ _ S) as [G1 G2 G3]. split; [| |exact G3].
  - intros b acc E. destruct (G1 b) as (a & A & K); [congruence|]. rewrite <- (acct_key keccak256 ws a b K), (sm_account _ _ _ S a A) in E. exact (U1 a acc E).
  - intros a j N. destruct (G2 a j N) as (A & k & K & E). apply bytes_eqb_eq in E. rewrite (sm_dirty _ _ _ S). apply (U2 a k). rewrite <- (sm_slot _ _ _ S a k A K).
    unfold slot_at, ws_get_storage, slot_to_key in *. fold (slot_bytes j) in N. fold (slot_bytes k). rewrite E. exact N.
Qed.
End Roots.

(** C10: the state root is canonical. Two histories of calls on new world
    states that leave the same accounts and slots, in whatever order and through
    whatever intermediate values, storage that was written and cleared again and
    accounts that were deleted included, give the same state root, whatever the
    layout of the tables, the tries that exist, their positions and the hashes
    that nodes have cached. The root is the first that is taken. *)
Theorem state_root_canonical {M} {HT : HashTables M} {HL : HashTableLaws M} (keccak256 : list Z -> hash_t) cs cs' : (forall bs, wf_hash (keccak256 bs)) ->
  (forall a b, wf_address a -> wf_address b -> keccak256 a = keccak256 b -> a = b) ->
  (forall k j, wf256 k -> wf256 j -> keccak256 (uint256_to_bytes_be k) = keccak256 (uint256_to_bytes_be j) -> k = j) ->
  Forall call_ok cs -> Forall call_ok cs' -> same_holdings (fst (meanings keccak256 empty_view cs)) (fst (meanings keccak256 empty_view cs')) ->
  exists ws ws' rs rs' s s' h, perform_all keccak256 (world_state_create (M := M)) cs = inl (ws, rs) /\ perform_all keccak256 (world_state_create (M := M)) cs' = inl (ws', rs') /\
    world_state_root keccak256 ws = inl (s, h) /\ world_state_root keccak256 ws' = inl (s', h).
Proof.
  intros K A S F F' H. destruct (perform_simulates keccak256 K A S cs _ _ (create_simulates keccak256) F) as (ws & E & R).
  destruct (perform_simulates keccak256 K A S cs' _ _ (create_simulates keccak256) F') as (ws' & E' & R').
  destruct (root_determined keccak256 K A ws ws' (sm_ok _ _ _ R) (sm_ok _ _ _ R') (simulates_unrooted keccak256 ws _ R (unrooted_all keccak256 cs _ unrooted_empty))
    (simulates_unrooted keccak256 ws' _ R' (unrooted_all keccak256 cs' _ unrooted_empty)) (views_same_world keccak256 K ws ws' _ _ R R' H)) as (s & s' & h & Hs & Hs').
  exists ws, ws', (snd (meanings keccak256 empty_view cs)), (snd (meanings keccak256 empty_view cs')), s, s', h. auto.
Qed.

(** The second history writes and clears slots of an account the first never
    touches, and writes another value first. *)
Definition first_history : list call := [SetBalance (addr 7) (word 3); SetStorage (addr 7) (word 1) (word 9); SetStorage (addr 8) (word 2) (word 4)].
Definition second_history : list call :=
  [SetStorage (addr 8) (word 2) (word 6); SetStorage (addr 9) (word 1) (word 5); SetStorage (addr 7) (word 1) (word 9); AddBalance (addr 7) (word 3);
   SetStorage (addr 8) (word 2) (word 4); SetStorage (addr 9) (word 1) (word 0)].

Lemma histories_hold a7 a8 a9 : (forall b, address_equal a7 b = true -> address_equal a8 b = false /\ address_equal a9 b = false) ->
  (forall b, address_equal a8 b = true -> address_equal a9 b = false) ->
  same_holdings (fst (meanings pad_keccak empty_view [SetBalance a7 (word 3); SetStorage a7 (word 1) (word 9); SetStorage a8 (word 2) (word 4)]))
    (fst (meanings pad_keccak empty_view [SetStorage a8 (word 2) (word 6); SetStorage a9 (word 1) (word 5); SetStorage a7 (word 1) (word 9); AddBalance a7 (word 3);
       SetStorage a8 (word 2) (word 4); SetStorage a9 (word 1) (word 0)])).
Proof.
  intros X Y. split; [reflexivity|].
  intros b k _ _. cbn. change (2 ^ 256 <=? val uint256_zero + val (word 3)) with false. cbn. unfold upd2, warm_slot_key_eq. cbn [key_addr key_slot].
  pose proof (X b) as Xb. pose proof (Y b) as Yb. destruct (address_equal a7 b), (address_equal a8 b), (address_equal a9 b); cbn [negb]; try reflexivity;
    try (destruct (Xb eq_refl); discriminate); try discriminate (Yb eq_refl).
  - destruct (uint256_eq (word 2) k); reflexivity.
  - destruct (uint256_eq (word 1) k); reflexivity.
Qed.

Lemma state_root_canonical_witness : exists ws ws' rs rs' s s' h, perform_all pad_keccak (world_state_create (M := pairs)) first_history = inl (ws, rs) /\ perform_all pad_keccak (world_state_create (M := pairs)) second_history = inl (ws', rs') /\ world_state_root pad_keccak ws = inl (s, h) /\ world_state_root pad_keccak ws' = inl (s', h).
Proof.
  apply (state_root_canonical pad_keccak first_history second_history pad_keccak_wf pad_addresses pad_slots); [good_calls | good_calls|].
  apply histories_hold; intros b E; apply bytes_eqb_eq in E; subst b; vm_compute; auto.
Defined.

(** * The block executor on the world state *)

(** The interpreter and the block executor are safe on the world state. On
    any well-formed world state a block run ends, unless a message of it is to
    blame for a fault, and leaves a well-formed world state: every trie canonical, every account and slot decodable, every
    storage pointer valid and unshared. Each transaction has a receipt or a
    rejection and the gas of the block is accounted for. *)
Theorem block_run_on_world_state {M} {HT : HashTables M} {HL : HashTableLaws M} (keccak256 : list Z -> hash_t) exec (e : evm_t (@world_state_t M)) (ws : @world_state_t M) txs
  (K : forall bs, wf_hash (keccak256 bs)) : block_ok (exec_block exec) -> @evm_ok _ (WORLD_STATE_VTABLE keccak256) (world_laws keccak256 K) e -> world_ok keccak256 ws -> Forall btx_ok txs ->
  exists n res, (forall rounds fuel, (n <= rounds)%nat -> (n <= fuel)%nat -> block_executor_run (SA := WORLD_STATE_VTABLE keccak256) keccak256 rounds fuel exec e ws txs = res) /\
    match res with
    | inr f => excused (SA := WORLD_STATE_VTABLE keccak256) keccak256 exec (BlockRun e ws 0 0 [] []) txs f
    | inl (_, _, None) => 65536 < Z.of_nat (length txs) * 96
    | inl (e', ws', Some b) =>
        world_ok keccak256 ws' /\ (length (res_receipts b) + length (res_rejected b) = length txs)%nat /\
        running 0 (res_receipts b) (res_gas_used b) /\ res_gas_used b <= Frame.gas_limit (exec_block exec)
    end.
Proof.
  intros X He W B. destruct (@block_run_spec _ (WORLD_STATE_VTABLE keccak256) (world_laws keccak256 K) (world_block_laws keccak256 K) keccak256 (fun bs _ => K bs) exec X e ws txs He W B) as (n & res & Hn & R).
  exists n, res. split; [exact Hn|]. destruct res as [[[e' ws'] [b|]]|f]; cbn in R; [|tauto|exact R]. destruct R as (_ & R1 & R). split; [exact R1 | tauto].
Qed.

Definition sample_world_evm : evm_t (@world_state_t pairs) := evm_set_state (evm_init FORK_SHANGHAI) (Some world_state_create).

Lemma sample_world_evm_ok : @evm_ok _ (WORLD_STATE_VTABLE pad_keccak) (world_laws pad_keccak pad_keccak_wf) sample_world_evm.
Proof.
  split; try reflexivity; try apply init_block_ok; try apply init_tx_ok.
  - split; [constructor | cbn; lia].
  - intros st [= <-]. apply world_create_ok.
Qed.

Lemma block_run_on_world_state_witness : exists n res, (forall rounds fuel, (n <= rounds)%nat -> (n <= fuel)%nat ->
  block_executor_run (SA := WORLD_STATE_VTABLE pad_keccak) pad_keccak rounds fuel sample_exec sample_world_evm world_state_create [plain_btx 0 21000; plain_btx 0 20000] = res) /\ res <> inr OutOfFuel.
Proof.
  destruct (block_run_on_world_state pad_keccak sample_exec sample_world_evm world_state_create [plain_btx 0 21000; plain_btx 0 20000] pad_keccak_wf sample_block_ok sample_world_evm_ok
    (world_create_ok pad_keccak)) as (n & res & H & R).
  - apply Forall_cons; [|apply Forall_cons; [|apply Forall_nil]]; apply plain_btx_ok; split; reflexivity || discriminate.
  - exists n, res. split; [exact H|]. intros ->. exact (excused_fuel _ _ _ _ R).
Defined.

(** * The exported state *)

(** C11: the export is exact. [world_state_snapshot] stays inside the arrays it
    allocates; when it succeeds, every tracked account that exists is listed
    once, with its balance, nonce and code, and its entries are exactly its
    tracked slots that are not zero, with their values. It fails only beyond
    585 accounts or 1024 slots of one account, which do not fit an arena block. *)
Theorem snapshot_exact {M} {HT : HashTables M} {HL : HashTableLaws M} (keccak256 : list Z -> hash_t) (ws : @world_state_t M) : (forall bs, wf_hash (keccak256 bs)) -> world_ok keccak256 ws ->
  Z.of_nat (length (account_list ws)) < 2 ^ 32 -> Z.of_nat (length (slot_list ws)) < 2 ^ 32 ->
  exists r, world_state_snapshot keccak256 ws = inl r /\
    match r with
    | None => too_large ws
    | Some accs => NoDup (map as_address accs) /\
        (forall x, In x accs -> world_state_get_account keccak256 ws (as_address x) = inl (acct keccak256 ws (as_address x)) /\ as_balance x = acc_balance (acct_or keccak256 ws (as_address x)) /\
          as_nonce x = acc_nonce (acct_or keccak256 ws (as_address x)) /\ as_code x = ws_get_code ws (as_address x) /\
          forall k v, In (StorageEntry k v) (as_storage x) <-> hm_contains (all_storage_slots ws) (SlotKey (as_address x) k) = true /\ ws_get_storage keccak256 ws (as_address x) k = inl v /\ uint256_is_zero v = false) /\
        (forall a, hm_contains (all_accounts ws) a = true /\ ws_account_exists keccak256 ws a = inl true <-> In a (map as_address accs))
    end.
Proof.
  intros K W LA LS. destruct (snapshot_spec keccak256 K ws W LA LS) as (r & E & R). exists r. split; [exact E|]. destruct r as [accs|]; [|exact R]. subst accs. split; [apply exported_nodup|]. split.
  - intros x I. apply exported_in in I as (_ & acc & A & X). destruct (get_account_spec keccak256 K ws (as_address x) W) as (G & _ & _). split; [exact G|]. unfold acct_or. rewrite A.
    rewrite X. cbn [as_balance as_nonce as_code as_storage as_address]. repeat (split; [reflexivity|]). intros k v. rewrite entries_in. destruct (get_storage_spec keccak256 K ws (as_address x) k W) as [-> _].
    split; intros (C & V & Z0); (split; [exact C|]; split; [congruence | exact Z0]).
  - intros a. rewrite (exists_spec keccak256 K ws a W), in_map_iff. split.
    + intros [C X]. destruct (acct keccak256 ws a) as [acc|] eqn:A; [|discriminate]. eexists (AccountSnapshot a (acc_balance acc) (acc_nonce acc) (ws_get_code ws a) (entries_of keccak256 ws a (slot_list ws))).
      split; [reflexivity|]. apply exported_in. cbn [as_address]. split; [exact C|]. exists acc. auto.
    + intros (x & <- & I). apply exported_in in I as (C & acc & -> & _). auto.
Qed.

(** The world state after some calls. *)
Definition after (cs : list call) : @world_state_t pairs := match perform_all pad_keccak world_state_create cs with inl (ws, _) => ws | inr _ => world_state_create end.

Lemma after_ok cs : Forall call_ok cs -> world_ok pad_keccak (after cs).
Proof.
  intros F. destruct (perform_simulates pad_keccak pad_keccak_wf pad_addresses pad_slots cs _ _ (create_simulates pad_keccak) F) as (ws & E & S). unfold after.
  replace (perform_all pad_keccak world_state_create cs) with (inl (ws, snd (meanings pad_keccak empty_view cs)) : (@world_state_t pairs * list result) + fault). apply S.
Qed.

Lemma snapshot_exact_witness : exists accs, world_state_snapshot pad_keccak (after first_history) = inl (Some accs) /\ NoDup (map as_address accs) /\ In (addr 7) (map as_address accs).
Proof.
  destruct (snapshot_exact pad_keccak (after first_history) pad_keccak_wf) as (r & E & R); [apply after_ok; good_calls | vm_compute; reflexivity | vm_compute; reflexivity|].
  assert (N : match r with Some _ => true | None => false end = true).
  { enough (X : match world_state_snapshot pad_keccak (after first_history) with inl (Some _) => true | _ => false end = true) by (rewrite E in X; exact X). vm_compute. reflexivity. }
  destruct r as [accs|]; [|discriminate]. exists accs. split; [exact E|]. split; [apply R|]. apply R. split; vm_compute; reflexivity.
Defined.

(** * Where the contract differs from what a state should do *)

(** Code cannot be replaced. Once an address has code, [ws_set_code]
    updates the account's code hash but leaves the stored code as it was, so
    the two no longer belong together. *)
Theorem stale_code {M} {HT : HashTables M} {HL : HashTableLaws M} (keccak256 : list Z -> hash_t) (ws : @world_state_t M) a old code : (forall bs, wf_hash (keccak256 bs)) -> world_ok keccak256 ws ->
  hm_get (code_store ws) a = Some old -> code_size_ok code ->
  exists ws', ws_set_code keccak256 ws a code = inl ws' /\ ws_get_code ws' a = old /\ ws_get_code_hash keccak256 ws' a = inl (if Z.of_nat (length code) =? 0 then EMPTY_CODE_HASH else keccak256 code).
Proof.
  intros K W O C. destruct (set_code_spec keccak256 K ws a code W C) as (ws' & E & [U1 U2 U3 _]). exists ws'. split; [exact E|]. split.
  - rewrite (get_code_rest _ ws' a U3). unfold ws_get_code, store_code. cbn [code_store set_code_store]. rewrite get_insert, key_eq_refl, O. reflexivity.
  - rewrite get_code_hash_eq by assumption. unfold acct_or. rewrite U2, same_key_refl. fold (code_hash_of keccak256 code). set (acc := with_code_hash _ _).
    destruct (Account.account_is_empty acc) eqn:Em; [|reflexivity]. unfold Account.account_is_empty in Em. destruct (negb _); [discriminate|]. destruct (negb _); [discriminate|].
    apply bytes_eqb_eq in Em. cbn [acc with_code_hash acc_code_hash account_empty] in Em |- *. rewrite Em. reflexivity.
Qed.

Lemma stale_code_witness : exists ws, ws_set_code pad_keccak (after [SetCode (addr 7) [1]]) (addr 7) [2] = inl ws /\ ws_get_code ws (addr 7) = [1] /\ ws_get_code_hash pad_keccak ws (addr 7) = inl (pad_keccak [2]).
Proof.
  apply (stale_code pad_keccak (after [SetCode (addr 7) [1]]) (addr 7) [1] [2] pad_keccak_wf); [apply after_ok; good_calls | vm_compute; reflexivity|].
  split; [small_bytes | vm_compute; congruence].
Defined.

(** An account that becomes empty leaves the account trie and the tracking, but
    its storage stays: when the address is used again the old values are
    there, and the export does not list them. *)
Lemma emptied_account_keeps_storage : let ws := after [SetBalance (addr 7) (word 1); SetStorage (addr 7) (word 1) (word 9); SubBalance (addr 7) (word 1); AddBalance (addr 7) (word 2)] in
  ws_get_storage pad_keccak ws (addr 7) (word 1) = inl (word 9) /\
  match world_state_snapshot pad_keccak ws with inl (Some [x]) => as_address x = addr 7 /\ as_storage x = [] | _ => False end.
Proof. cbv zeta. split; vm_compute; [|split]; reflexivity. Qed.

(** A snapshot that is reverted to changes nothing back. *)
Lemma revert_does_nothing : snd (meanings pad_keccak empty_view [SetBalance (addr 7) (word 1); Snapshot; AddBalance (addr 7) (word 2); RevertToSnapshot 1; GetBalance (addr 7)]) =
  [NoResult; Number 1; Flag true; NoResult; Word (word 3)].
Proof. vm_compute. reflexivity. Qed.
