(* ===== verification/Hex.v ===== *)
(** Hexadecimal text: include/div0/util/hex.h, src/util/hex.c, and the parsers
    of words, addresses and hashes that use it.

    A C string is the list of its characters up to the terminating NUL, a
    character the [Z] of its byte; reading at the length of the string gives
    the NUL. A decoder that fails after it has started leaves what it had
    written, so the decoders return the output next to their result. *)
From Stdlib Require Import ZArith Lia List Bool String Ascii.
From S2P Require Import Prelude Uint256 Types.
Import ListNotations.
#[local] Open Scope Z_scope.
#[local] Open Scope word_scope.

Definition cstr : Type := list Z.

(** A string literal of the source. *)
Definition lit (s : string) : cstr := map (fun c => Z.of_nat (nat_of_ascii c)) (list_ascii_of_string s).

Definition strlen (s : cstr) : Z := Z.of_nat (List.length s).

(** * Definitions of hex.h and hex.c *)

Definition HEX_CHARS : list Z := lit "0123456789abcdef".

Definition hex_char_to_nibble (c : Z) : option Z :=
  if (48 <=? c) && (c <=? 57) then Some (w8 (c - 48))
  else if (97 <=? c) && (c <=? 102) then Some (w8 (c - 97 + 10))
  else if (65 <=? c) && (c <=? 70) then Some (w8 (c - 65 + 10))
  else None.

Definition skip_0x_prefix (hex : cstr) : cstr :=
  if (aget hex 0 =? 48) && negb (aget hex 1 =? 0) && ((aget hex 1 =? 120) || (aget hex 1 =? 88)) then skipn 2 hex else hex.

(** The loop over pairs of digits, from index [i], [n] bytes to go. *)
Fixpoint hex_decode_loop (hex : cstr) (n i : nat) (out : list Z) : bool * list Z :=
  match n with
  | O => (true, out)
  | S n' =>
      match hex_char_to_nibble (aget hex (i * 2)) with
      | None => (false, out)
      | Some high =>
          match hex_char_to_nibble (aget hex (i * 2 + 1)) with
          | None => (false, out)
          | Some low => hex_decode_loop hex n' (S i) (aset out i (w8 (Z.lor (Z.shiftl high 4) low)))
          end
      end
  end.

(** [out_len] is the length of [out]; a null [hex] is [None]. *)
Definition hex_decode (hex : option cstr) (out : list Z) : bool * list Z :=
  match hex with
  | None => (false, out)
  | Some hex =>
      let hex := skip_0x_prefix hex in
      if negb (strlen hex =? Z.of_nat (List.length out) *64 2) then (false, out) else hex_decode_loop hex (List.length out) 0 out
  end.

Fixpoint decode_u64_loop (digits : cstr) (value : Z) : option Z :=
  match digits with
  | [] => Some value
  | c :: rest =>
      match hex_char_to_nibble c with
      | None => None
      | Some nibble => decode_u64_loop rest (Z.lor (value <<64 4) nibble)
      end
  end.

(** [None]: the function fails and does not write its output. *)
Definition hex_decode_u64 (hex : option cstr) : option Z :=
  match hex with
  | None => None
  | Some hex =>
      let hex := skip_0x_prefix hex in
      if (strlen hex =? 0) || (strlen hex >? 16) then None else decode_u64_loop hex 0
  end.

(** The loop over the limbs with its carry, then [limbs[0] |= nibble]. *)
Definition shift_in_nibble (out : uint256_t) (nibble : Z) : uint256_t :=
  let l := fst (for_ 0 4 (fun limb lc =>
             let '(limbs, carry) := lc in
             let new_carry := aget limbs limb >>64 60 in
             (aset limbs limb (Z.lor (aget limbs limb <<64 4) carry), new_carry)) (limbs out, 0)) in
  of_limbs (aset l 0 (Z.lor (aget l 0) nibble)).

Fixpoint decode_uint256_loop (digits : cstr) (out : uint256_t) : bool * uint256_t :=
  match digits with
  | [] => (true, out)
  | c :: rest =>
      match hex_char_to_nibble c with
      | None => (false, out)
      | Some nibble => decode_uint256_loop rest (shift_in_nibble out nibble)
      end
  end.

Definition hex_decode_uint256 (hex : option cstr) (out : uint256_t) : bool * uint256_t :=
  match hex with
  | None => (false, out)
  | Some hex =>
      let hex := skip_0x_prefix hex in
      if (strlen hex =? 0) || (strlen hex >? 64) then (false, out) else decode_uint256_loop hex uint256_zero
  end.

Definition hex_strlen (hex : option cstr) : Z := match hex with None => 0 | Some hex => strlen (skip_0x_prefix hex) end.

(** [HEX_CHARS[(b >> 4) & 0x0F]] and [HEX_CHARS[b & 0x0F]]. *)
Definition high_char (b : Z) : Z := aget HEX_CHARS (Z.to_nat (Z.land (Z.shiftr b 4) 15)).
Definition low_char (b : Z) : Z := aget HEX_CHARS (Z.to_nat (Z.land b 15)).

(** The two characters of each byte. *)
Definition hex_pairs (data : list Z) : cstr := flat_map (fun b => [high_char b; low_char b]) data.

(** The encoders give the string they write before its NUL. *)
Definition hex_encode (data : list Z) : cstr := lit "0x" ++ hex_pairs data.

(** [while (tmp > 0)], at most 16 rounds for 64 bits. *)
Fixpoint count_nibbles (fuel : nat) (tmp : Z) : nat :=
  match fuel with
  | O => O
  | S fuel' => if tmp >? 0 then S (count_nibbles fuel' (tmp >>64 4)) else O
  end.

Definition hex_encode_u64 (value : Z) : cstr :=
  if value =? 0 then lit "0x0"
  else
    let nibbles := count_nibbles 16 value in
    lit "0x" ++ map (fun i => aget HEX_CHARS (Z.to_nat (Z.land (value >>64 ((Z.of_nat nibbles - 1 - Z.of_nat i) * 4)) 15))) (seq 0 nibbles).

(** [while (start < 32 && bytes[start] == 0)] on the bytes from [start]. *)
Fixpoint skip_zero_bytes (bytes : list Z) : list Z :=
  match bytes with
  | b :: rest => if b =? 0 then skip_zero_bytes rest else bytes
  | [] => []
  end.

Definition hex_encode_uint256 (value : uint256_t) : cstr :=
  if uint256_is_zero value then lit "0x0"
  else
    match skip_zero_bytes (uint256_to_bytes_be value) with
    | [] => lit "0x"
    | first :: rest => lit "0x" ++ (if first <? 16 then [low_char first] else [high_char first; low_char first]) ++ hex_pairs rest
    end.

Definition hex_encode_uint256_padded (value : uint256_t) : cstr := lit "0x" ++ hex_pairs (uint256_to_bytes_be value).
Definition hex_encode_address (addr : address_t) : cstr := lit "0x" ++ hex_pairs addr.
Definition hex_encode_hash (hash : hash_t) : cstr := lit "0x" ++ hex_pairs hash.

(** * uint256.c, address.c, hash.c *)

Definition uint256_from_hex (hex : option cstr) : bool * uint256_t :=
  match hex_decode hex (repeat 0 UINT256_BYTES) with
  | (false, _) => (false, uint256_zero)
  | (true, bytes) => (true, uint256_from_bytes_be bytes)
  end.

Definition address_from_hex (hex : option cstr) : bool * address_t := hex_decode hex address_zero.
Definition hash_from_hex (hex : option cstr) : bool * hash_t := hex_decode hex hash_zero.

(** * bytes32.h, bytes32.c *)

Definition BYTES32_SIZE : nat := 32.
Definition bytes32_t : Type := list Z.
Definition bytes32_zero : bytes32_t := repeat 0 BYTES32_SIZE.

Fixpoint bytes32_is_zero (b : bytes32_t) : bool :=
  match b with
  | [] => true
  | x :: rest => if negb (x =? 0) then false else bytes32_is_zero rest
  end.

Definition bytes32_equal (a b : bytes32_t) : bool := bytes_eqb a b.
Definition bytes32_from_bytes (data : list Z) : bytes32_t := firstn BYTES32_SIZE data.

(** A null [data] is the empty one. *)
Definition bytes32_from_bytes_padded (data : list Z) : bytes32_t :=
  if (List.length data =? 0)%nat then bytes32_zero
  else
    let copy_len := if (List.length data <? BYTES32_SIZE)%nat then List.length data else BYTES32_SIZE in
    firstn copy_len data ++ skipn copy_len bytes32_zero.

Definition bytes32_to_uint256 (b : bytes32_t) : uint256_t := uint256_from_bytes_be b.
Definition bytes32_from_uint256 (value : uint256_t) : bytes32_t := uint256_to_bytes_be value.
