(* ===== verification/HexSpec.v ===== *)
(** Hexadecimal text, specified: what the decoders of [Hex] accept and the value
    they give, also where they fail half-way; what the encoders write, that it
    fits the buffers of the callers, and that it is read back. *)
From Stdlib Require Import ZArith Lia List Bool String.
From S2P Require Import Prelude Uint256 Types Hex.
Import ListNotations.
#[local] Open Scope Z_scope.
#[local] Open Scope word_scope.

(** * Digits *)

Definition digit (d : Z) : Prop := 0 <= d < 16.

Definition digit_char (d : Z) : Z := aget HEX_CHARS (Z.to_nat d).

(** The number a digit string stands for. *)
Definition hex_val (ds : list Z) : Z := fold_left (fun v d => v * 16 + d) ds 0.

(** The digits of the longest prefix of digit characters. *)
Fixpoint digits_of (s : cstr) : list Z :=
  match s with
  | [] => []
  | c :: rest => match hex_char_to_nibble c with None => [] | Some d => d :: digits_of rest end
  end.

Definition all_hex (s : cstr) : bool := (List.length (digits_of s) =? List.length s)%nat.

Lemma nibble_range c d : hex_char_to_nibble c = Some d -> digit d.
Proof.
  unfold hex_char_to_nibble, digit. destruct ((48 <=? c) && (c <=? 57)) eqn:A; [|destruct ((97 <=? c) && (c <=? 102)) eqn:B; [|destruct ((65 <=? c) && (c <=? 70)) eqn:C; [|discriminate]]];
    intros [= <-]; rewrite w8_small by (unfold u8; lia); lia.
Qed.

Lemma digit_cases (P : Z -> Prop) : (forall n, In n (seq 0 16) -> P (Z.of_nat n)) -> forall d, digit d -> P d.
Proof. intros H d D. rewrite <- (Z2Nat.id d) by (unfold digit in D; lia). apply H, in_seq. unfold digit in D. lia. Qed.

Lemma nibble_digit_char d : digit d -> hex_char_to_nibble (digit_char d) = Some d.
Proof. revert d. apply digit_cases. rewrite <- Forall_forall. repeat constructor. Qed.

(** Hexadecimal characters are printable and neither NUL nor the [x] of a prefix. *)
Lemma digit_char_range d : digit d -> 48 <= digit_char d <= 102.
Proof. revert d. apply digit_cases. rewrite <- Forall_forall. repeat (apply Forall_cons; [vm_compute; split; discriminate|]). apply Forall_nil. Qed.

Lemma digits_of_range s : Forall digit (digits_of s).
Proof. induction s as [|c s IH]; cbn [digits_of]; [constructor|]. destruct (hex_char_to_nibble c) eqn:E; constructor; eauto using nibble_range. Qed.

Lemma digits_of_chars ds : Forall digit ds -> digits_of (map digit_char ds) = ds.
Proof. induction 1 as [|d ds D _ IH]; cbn [map digits_of]; [reflexivity|]. rewrite nibble_digit_char, IH by exact D. reflexivity. Qed.

Lemma all_hex_chars ds : Forall digit ds -> all_hex (map digit_char ds) = true.
Proof. intros D. unfold all_hex. rewrite digits_of_chars, length_map by exact D. apply Nat.eqb_refl. Qed.

Lemma all_hex_cons c s : all_hex (c :: s) = match hex_char_to_nibble c with None => false | Some _ => all_hex s end.
Proof. unfold all_hex. cbn [digits_of List.length]. destruct (hex_char_to_nibble c); reflexivity. Qed.

Lemma hex_fold ds acc : fold_left (fun v d => v * 16 + d) ds acc = acc * 16 ^ Z.of_nat (List.length ds) + hex_val ds.
Proof.
  unfold hex_val. revert acc; induction ds as [|d ds IH]; intros acc; [cbn; lia|]. cbn [fold_left List.length]. rewrite (IH (acc * 16 + d)), (IH (0 * 16 + d)), Nat2Z.inj_succ, Z.pow_succ_r by lia. ring.
Qed.

Lemma hex_val_cons d ds : hex_val (d :: ds) = d * 16 ^ Z.of_nat (List.length ds) + hex_val ds.
Proof. exact (hex_fold ds (0 * 16 + d)). Qed.

Lemma hex_val_app a b : hex_val (a ++ b) = hex_val a * 16 ^ Z.of_nat (List.length b) + hex_val b.
Proof. unfold hex_val at 1. rewrite fold_left_app. apply hex_fold. Qed.

Lemma hex_val_range ds : Forall digit ds -> 0 <= hex_val ds < 16 ^ Z.of_nat (List.length ds).
Proof.
  induction 1 as [|d ds D _ IH]; [cbn; lia|]. rewrite hex_val_cons. cbn [List.length]. rewrite Nat2Z.inj_succ, Z.pow_succ_r by lia. unfold digit in D. nia.
Qed.

(** * Decoding to integers *)

Lemma decode_u64_loop_spec s : forall v, 0 <= v -> v * 16 ^ strlen s < 2 ^ 64 -> (forall k, (k <= List.length s)%nat -> v * 16 ^ Z.of_nat k + 16 ^ Z.of_nat k <= 2 ^ 64) ->
  decode_u64_loop s v = if all_hex s then Some (v * 16 ^ strlen s + hex_val (digits_of s)) else None.
Proof.
  unfold strlen. induction s as [|c s IH]; intros v V L K; cbn [decode_u64_loop].
  - cbn. f_equal. lia.
  - rewrite all_hex_cons. cbn [digits_of]. destruct (hex_char_to_nibble c) as [d|] eqn:E; [|reflexivity]. pose proof (nibble_range c d E) as D. unfold digit in D.
    pose proof (K 1%nat ltac:(cbn [List.length]; lia)) as K1. rewrite shl64_lor by lia. unfold shl64. rewrite Z.shiftl_mul_pow2, w64_small by (unfold u64; lia).
    rewrite IH; try lia.
    + destruct (all_hex s) eqn:A; [|reflexivity]. rewrite hex_val_cons. unfold all_hex in A. apply Nat.eqb_eq in A. rewrite A. cbn [List.length]. rewrite Nat2Z.inj_succ, Z.pow_succ_r by lia. f_equal. ring.
    + pose proof (K (S (List.length s)) ltac:(cbn [List.length]; lia)) as Kn. rewrite Nat2Z.inj_succ, Z.pow_succ_r in Kn by lia. assert (0 < 16 ^ Z.of_nat (List.length s)) by (apply Z.pow_pos_nonneg; lia). nia.
    + intros k Hk. pose proof (K (S k) ltac:(cbn [List.length]; lia)) as Kn. rewrite Nat2Z.inj_succ, Z.pow_succ_r in Kn by lia. assert (0 < 16 ^ Z.of_nat k) by (apply Z.pow_pos_nonneg; lia). nia.
Qed.

(** [hex_decode_u64] accepts one to sixteen digits after an optional prefix. *)
Lemma hex_decode_u64_spec s : hex_decode_u64 (Some s) =
  let d := skip_0x_prefix s in if (1 <=? strlen d) && (strlen d <=? 16) && all_hex d then Some (hex_val (digits_of d)) else None.
Proof.
  cbn [hex_decode_u64]. set (d := skip_0x_prefix s). assert (0 <= strlen d) by (unfold strlen; lia).
  destruct (Z.eqb_spec (strlen d) 0) as [E|N]; cbn [orb].
  - rewrite (proj2 (Z.leb_gt 1 _)) by lia. reflexivity.
  - rewrite (proj2 (Z.leb_le 1 _)) by lia. cbn [andb]. destruct (Z.gtb_spec (strlen d) 16) as [G|G]; [rewrite (proj2 (Z.leb_gt _ 16)) by lia; reflexivity|].
    rewrite (proj2 (Z.leb_le _ 16)) by lia. cbn [andb]. rewrite decode_u64_loop_spec; try lia; [destruct (all_hex d); f_equal; lia|].
    intros k Hk. rewrite Z.mul_0_l, Z.add_0_l. change (2 ^ 64) with (16 ^ 16). apply Z.pow_le_mono_r; unfold strlen in G; lia.
Qed.

Lemma shift_in_nibble_spec x d : wf256 x -> digit d -> shift_in_nibble x d = of_Z256 (val x * 16 + d).
Proof.
  intros (H0&H1&H2&H3) D. unfold digit in D. destruct x as [a b c e]. cbn [limb0 limb1 limb2 limb3] in *. unfold shift_in_nibble. rewrite !for_S, for_0.
  cbn [limbs limb0 limb1 limb2 limb3 aget nth aset fst of_limbs].
  assert (C : forall y, u64 y -> 0 <= y >>64 60 < 2 ^ 4) by (intros y Y; unfold shr64; apply shr_range; [lia | exact Y | lia]).
  rewrite Z.lor_0_r, !shl64_lor by (try lia; apply C; assumption).
  pose proof (C a H0). pose proof (C b H1). pose proof (C c H2). pose proof (C e H3).
  pose proof (shl_lo_hi a 4 ltac:(lia)) as A. pose proof (shl_lo_hi b 4 ltac:(lia)) as B. pose proof (shl_lo_hi c 4 ltac:(lia)) as Cc. pose proof (shl_lo_hi e 4 ltac:(lia)) as E.
  rewrite !Z.shiftl_mul_pow2 in A, B, Cc, E by lia. unfold shl64, shr64 in *. change (64 - 4) with 60 in *. rewrite !Z.shiftl_mul_pow2 by lia.
  assert (M : forall y, w64 (y * 2 ^ 4) + 16 <= 2 ^ 64).
  { intros y. unfold w64. change (2 ^ 64) with (2 ^ 60 * 2 ^ 4). rewrite Z.mul_mod_distr_r by lia. pose proof (Z.mod_pos_bound y (2 ^ 60) ltac:(lia)). lia. }
  pose proof (M a). pose proof (M b). pose proof (M c). pose proof (M e). pose proof (w64_range (a * 2 ^ 4)). pose proof (w64_range (b * 2 ^ 4)). pose proof (w64_range (c * 2 ^ 4)). pose proof (w64_range (e * 2 ^ 4)).
  unfold u64 in *. unfold of_limbs, aget. cbn [nth]. apply eq_of_Z256; [apply wf_U256; unfold u64; lia|]. unfold val. cbn [limb0 limb1 limb2 limb3].
  apply Z.mod_unique_pos with (q := Z.shiftr e 60); [lia|]. lia.
Qed.

Lemma decode_uint256_loop_spec s : forall x, wf256 x ->
  decode_uint256_loop s x = (all_hex s, of_Z256 (val x * 16 ^ Z.of_nat (List.length (digits_of s)) + hex_val (digits_of s))).
Proof.
  induction s as [|c s IH]; intros x W; cbn [decode_uint256_loop].
  - cbn [digits_of List.length]. change (hex_val []) with 0. rewrite Z.mul_1_r, Z.add_0_r, of_Z256_val by exact W. reflexivity.
  - rewrite all_hex_cons. cbn [digits_of]. destruct (hex_char_to_nibble c) as [d|] eqn:E.
    + rewrite IH, shift_in_nibble_spec by (try apply wf_of_Z256; eauto using nibble_range; rewrite shift_in_nibble_spec by eauto using nibble_range; apply wf_of_Z256).
      f_equal. rewrite val_of_Z256, hex_val_cons. cbn [List.length]. rewrite Nat2Z.inj_succ, Z.pow_succ_r by lia.
      rewrite <- of_Z256_mod, <- (of_Z256_mod (_ + (_ + _))). f_equal. rewrite Zplus_mod, Zmult_mod_idemp_l, <- Zplus_mod. f_equal. ring.
    + cbn [List.length]. change (hex_val []) with 0. rewrite Z.mul_1_r, Z.add_0_r, of_Z256_val by exact W. reflexivity.
Qed.

(** [hex_decode_uint256] on every input: an empty or too long string leaves the
    output alone; otherwise the output becomes the value of the digits before
    the first character that is not one, and the result says if all were. *)
Lemma hex_decode_uint256_spec s out : hex_decode_uint256 (Some s) out =
  let d := skip_0x_prefix s in if (1 <=? strlen d) && (strlen d <=? 64) then (all_hex d, of_Z256 (hex_val (digits_of d))) else (false, out).
Proof.
  cbn [hex_decode_uint256]. set (d := skip_0x_prefix s). assert (0 <= strlen d) by (unfold strlen; lia).
  destruct (Z.eqb_spec (strlen d) 0) as [E|N]; cbn [orb].
  - rewrite (proj2 (Z.leb_gt 1 _)) by lia. reflexivity.
  - rewrite (proj2 (Z.leb_le 1 _)) by lia. cbn [andb]. destruct (Z.gtb_spec (strlen d) 64) as [G|G]; [rewrite (proj2 (Z.leb_gt _ 64)) by lia; reflexivity|].
    rewrite (proj2 (Z.leb_le _ 64)), decode_uint256_loop_spec by (try apply wf_zero; lia). reflexivity.
Qed.

(** * Decoding to bytes *)

(** The digit characters after the prefix, as the encoders write them. *)
Lemma skip_prefix_lit ds : skip_0x_prefix (lit "0x" ++ ds) = ds.
Proof. reflexivity. Qed.

Lemma skip_prefix_digits ds : Forall digit ds -> skip_0x_prefix (map digit_char ds) = map digit_char ds.
Proof.
  intros D. unfold skip_0x_prefix, aget. destruct ds as [|a [|b ds]]; cbn [map nth]; [reflexivity | rewrite andb_false_r; reflexivity |].
  inversion D as [|? ? _ D']; subst. inversion D' as [|? ? B _]; subst. assert (N : (digit_char b =? 120) || (digit_char b =? 88) = false).
  { clear D D'. revert b B. refine (digit_cases _ _). rewrite <- Forall_forall. repeat (apply Forall_cons; [reflexivity|]). apply Forall_nil. }
  rewrite N, andb_false_r. reflexivity.
Qed.

(** The digits of bytes. *)
Definition byte_digits (bs : list Z) : list Z := flat_map (fun b => [b / 16; b mod 16]) bs.

Lemma byte_digits_ok bs : bytes_ok bs -> Forall digit (byte_digits bs).
Proof.
  induction 1 as [|b bs B _ IH]; [constructor|]. cbn [byte_digits flat_map app]. unfold u8 in B. change (2 ^ 8) with 256 in B. repeat constructor; try exact IH; try (apply Z.div_pos; lia); try (apply Z.div_lt_upper_bound; lia); apply Z.mod_pos_bound; lia.
Qed.

Lemma length_byte_digits bs : List.length (byte_digits bs) = (2 * List.length bs)%nat.
Proof. induction bs as [|b bs IH]; [reflexivity|]. cbn [byte_digits flat_map app List.length]. fold (byte_digits bs). lia. Qed.

Lemma hex_val_byte_digits bs : hex_val (byte_digits bs) = be_val bs.
Proof.
  induction bs as [|b bs IH]; [reflexivity|]. cbn [byte_digits flat_map app]. fold (byte_digits bs). rewrite !hex_val_cons, IH, be_val_cons. cbn [List.length]. rewrite Nat2Z.inj_succ, Z.pow_succ_r, length_byte_digits by lia.
  replace (16 ^ Z.of_nat (2 * List.length bs)) with (2 ^ (8 * Z.of_nat (List.length bs))) by (change 16 with (2 ^ 4); rewrite <- Z.pow_mul_r by lia; f_equal; lia).
  rewrite (Z.div_mod b 16) at 3 by lia. ring.
Qed.

Lemma high_char_spec b : u8 b -> high_char b = digit_char (b / 16).
Proof.
  intros B. unfold high_char, digit_char. rewrite Z.shiftr_div_pow2 by lia. change 15 with (Z.ones 4). rewrite Z.land_ones by lia. rewrite Z.mod_small; [reflexivity|].
  unfold u8 in B. split; [apply Z.div_pos; lia | apply Z.div_lt_upper_bound; lia].
Qed.

Lemma low_char_spec b : low_char b = digit_char (b mod 16).
Proof. unfold low_char, digit_char. change 15 with (Z.ones 4). rewrite Z.land_ones by lia. reflexivity. Qed.

Lemma hex_pairs_spec bs : bytes_ok bs -> hex_pairs bs = map digit_char (byte_digits bs).
Proof. induction 1 as [|b bs B _ IH]; [reflexivity|]. unfold hex_pairs in *. cbn [flat_map app byte_digits map]. rewrite IH, high_char_spec, low_char_spec by exact B. reflexivity. Qed.

Lemma length_hex_pairs bs : List.length (hex_pairs bs) = (2 * List.length bs)%nat.
Proof. induction bs as [|b bs IH]; [reflexivity|]. unfold hex_pairs in *. cbn [flat_map app List.length]. lia. Qed.

Lemma hex_encode_digits bs : bytes_ok bs -> hex_encode bs = lit "0x" ++ map digit_char (byte_digits bs).
Proof. intros B. unfold hex_encode. rewrite hex_pairs_spec by exact B. reflexivity. Qed.

Lemma aget_app_2 (p : list Z) a b r : aget (p ++ a :: b :: r) (List.length p) = a /\ aget (p ++ a :: b :: r) (List.length p + 1) = b.
Proof. unfold aget. split; [rewrite nth_middle; reflexivity|]. rewrite app_nth2 by lia. replace (_ - _)%nat with 1%nat by lia. reflexivity. Qed.

Lemma aset_app (p : list Z) x q v : aset (p ++ x :: q) (List.length p) v = p ++ v :: q.
Proof. induction p as [|y p IH]; cbn; [reflexivity|]. rewrite IH. reflexivity. Qed.

Lemma hex_decode_loop_pairs bs : bytes_ok bs -> forall pre prebs rest, List.length pre = (List.length prebs * 2)%nat -> List.length rest = List.length bs ->
  hex_decode_loop (pre ++ map digit_char (byte_digits bs)) (List.length bs) (List.length prebs) (prebs ++ rest) = (true, prebs ++ bs).
Proof.
  induction 1 as [|b bs B Bs IH]; intros pre prebs rest L R; cbn [List.length hex_decode_loop].
  - destruct rest; [reflexivity | discriminate].
  - destruct rest as [|x rest]; [discriminate|]. cbn [byte_digits flat_map app map]. fold (byte_digits bs). rewrite <- L.
    destruct (aget_app_2 pre (digit_char (b / 16)) (digit_char (b mod 16)) (map digit_char (byte_digits bs))) as [-> ->].
    pose proof (byte_digits_ok [b] (Forall_cons _ B (Forall_nil _))) as D. inversion D as [|? ? D1 D']; subst. inversion D' as [|? ? D2 _]; subst.
    rewrite !nibble_digit_char by assumption. rewrite aset_app.
    assert (V : w8 (Z.lor (Z.shiftl (b / 16) 4) (b mod 16)) = b).
    { rewrite Z.shiftl_mul_pow2, lor_add by (unfold digit in D2; lia). change (2 ^ 4) with 16. rewrite <- (Z.mul_comm 16), <- Z.div_mod by lia. apply w8_small, B. }
    rewrite V. specialize (IH (pre ++ [digit_char (b / 16); digit_char (b mod 16)]) (prebs ++ [b]) rest).
    rewrite <- !app_assoc in IH. replace (List.length (prebs ++ [b])) with (S (List.length prebs)) in IH by (rewrite length_app; cbn [List.length]; lia). apply IH; [rewrite !length_app; cbn [List.length]; lia | cbn [List.length] in R; lia].
Qed.

(** Bytes survive the text form, whatever the output held before. *)
Lemma hex_decode_encode bs out : bytes_ok bs -> List.length out = List.length bs -> Z.of_nat (List.length bs) < 2 ^ 63 -> hex_decode (Some (hex_encode bs)) out = (true, bs).
Proof.
  intros B L S. rewrite hex_encode_digits by exact B. cbn [hex_decode]. rewrite skip_prefix_lit. unfold strlen. rewrite length_map, length_byte_digits, L. unfold mul64. rewrite w64_small by (unfold u64; lia).
  rewrite (proj2 (Z.eqb_eq _ _)) by lia. cbn [negb]. exact (hex_decode_loop_pairs bs B [] [] out eq_refl L).
Qed.

(** Whatever a decoder writes stays within bytes. *)
Lemma hex_decode_loop_wf hex : forall n i out, bytes_ok out -> bytes_ok (snd (hex_decode_loop hex n i out)) /\ List.length (snd (hex_decode_loop hex n i out)) = List.length out.
Proof.
  induction n as [|n IH]; intros i out B; cbn [hex_decode_loop]; [auto|]. destruct (hex_char_to_nibble _); [|auto]. destruct (hex_char_to_nibble _); [|auto].
  destruct (IH (S i) (aset out i (w8 (Z.lor (Z.shiftl z 4) z0))) (Forall_aset _ _ _ _ B (w8_range _))) as [P Q]. rewrite length_aset in Q. auto.
Qed.

Lemma hex_decode_wf hex out : bytes_ok out -> bytes_ok (snd (hex_decode hex out)) /\ List.length (snd (hex_decode hex out)) = List.length out.
Proof. intros B. destruct hex as [s|]; cbn [hex_decode]; [|auto]. destruct (negb _); [auto|]. apply hex_decode_loop_wf, B. Qed.

Lemma hex_decode_uint256_wf hex out : wf256 out -> wf256 (snd (hex_decode_uint256 hex out)).
Proof. intros W. destruct hex as [s|]; [|exact W]. rewrite hex_decode_uint256_spec. cbv zeta. destruct (_ && _); [apply wf_of_Z256 | exact W]. Qed.

Lemma hex_decode_u64_wf hex v : hex_decode_u64 hex = Some v -> u64 v.
Proof.
  destruct hex as [s|]; [|discriminate]. rewrite hex_decode_u64_spec. cbv zeta. set (d := skip_0x_prefix s). destruct (_ && all_hex d) eqn:E; [|discriminate]. intros [= <-].
  apply andb_true_iff in E as [E A]. apply andb_true_iff in E as [_ E%Z.leb_le]. unfold all_hex in A. apply Nat.eqb_eq in A.
  pose proof (hex_val_range (digits_of d) (digits_of_range d)) as R. rewrite A in R. unfold u64. split; [lia|]. eapply Z.lt_le_trans; [apply R|]. change (2 ^ 64) with (16 ^ 16). apply Z.pow_le_mono_r; unfold strlen in E; lia.
Qed.

(** * Numbers as text *)

(** [s] is the prefixed text of [v] with [n] digits at most: no leading zeros
    unless the number is zero, which is a single one. *)
Definition numeral (n : Z) (v : Z) (s : cstr) : Prop :=
  exists ds, s = lit "0x" ++ map digit_char ds /\ Forall digit ds /\ 1 <= Z.of_nat (List.length ds) <= n /\ hex_val ds = v /\ (hd 0 ds = 0 -> ds = [0]).

Definition hex_digits (n : nat) (v : Z) : list Z := map (fun i => v / 16 ^ (Z.of_nat n - 1 - Z.of_nat i) mod 16) (seq 0 n).

Lemma hex_digits_S n v : hex_digits (S n) v = hex_digits n (v / 16) ++ [v mod 16].
Proof.
  unfold hex_digits. rewrite seq_S, map_app. cbn [map Nat.add]. f_equal.
  - apply map_ext_in. intros i I. apply in_seq in I. rewrite Z.div_div by (try apply Z.pow_pos_nonneg; lia). rewrite <- Z.pow_succ_r by lia. do 3 f_equal. lia.
  - replace (Z.of_nat (S n) - 1 - Z.of_nat n) with 0 by lia. rewrite Z.div_1_r. reflexivity.
Qed.

Lemma hex_digits_ok n v : Forall digit (hex_digits n v).
Proof. unfold hex_digits. apply Forall_forall. intros d I. apply in_map_iff in I as (i & <- & _). apply Z.mod_pos_bound. lia. Qed.

Lemma hex_val_digits n : forall v, hex_val (hex_digits n v) = v mod 16 ^ Z.of_nat n.
Proof.
  induction n as [|n IH]; intros v; [symmetry; apply Z.mod_1_r|]. rewrite hex_digits_S, hex_val_app, IH. cbn [List.length]. change (16 ^ Z.of_nat 1) with 16. change (hex_val [v mod 16]) with (v mod 16).
  rewrite Nat2Z.inj_succ, Z.pow_succ_r, Z.rem_mul_r by (try apply Z.pow_nonzero; try apply Z.pow_pos_nonneg; lia). ring.
Qed.

Lemma count_nibbles_spec fuel : forall v, 0 < v < 16 ^ Z.of_nat fuel ->
  let n := count_nibbles fuel v in (1 <= n <= fuel)%nat /\ 16 ^ (Z.of_nat n - 1) <= v < 16 ^ Z.of_nat n.
Proof.
  induction fuel as [|fuel IH]; intros v H; [change (16 ^ Z.of_nat 0) with 1 in H; lia|]. cbn [count_nibbles]. rewrite (proj2 (Z.gtb_lt _ _)) by lia. unfold shr64. rewrite Z.shiftr_div_pow2 by lia. change (2 ^ 4) with 16.
  rewrite Nat2Z.inj_succ, Z.pow_succ_r in H by lia. pose proof (Z.div_mod v 16 ltac:(lia)). pose proof (Z.mod_pos_bound v 16 ltac:(lia)).
  destruct (Z.lt_ge_cases v 16) as [L|L].
  - rewrite Z.div_small by lia. replace (count_nibbles fuel 0) with O by (destruct fuel; reflexivity). cbv zeta. cbn [Z.of_nat]. change (16 ^ (Z.pos (Pos.of_succ_nat 0) - 1)) with 1. change (16 ^ Z.pos (Pos.of_succ_nat 0)) with 16. lia.
  - assert (Q : 0 < v / 16 < 16 ^ Z.of_nat fuel) by lia. specialize (IH _ Q). cbv zeta in *. destruct IH as [I1 I2]. split; [lia|]. rewrite Nat2Z.inj_succ, Z.pow_succ_r by lia.
    replace (Z.succ (Z.of_nat (count_nibbles fuel (v / 16))) - 1) with (Z.succ (Z.of_nat (count_nibbles fuel (v / 16)) - 1)) by lia. rewrite Z.pow_succ_r by lia. lia.
Qed.

Lemma hex_encode_u64_numeral v : u64 v -> numeral 16 v (hex_encode_u64 v).
Proof.
  intros U. unfold numeral, hex_encode_u64. destruct (Z.eqb_spec v 0) as [->|N].
  - exists [0]. repeat split; try (repeat constructor; unfold digit; lia); cbn; lia.
  - unfold u64 in U. pose proof (count_nibbles_spec 16 v ltac:(change (16 ^ Z.of_nat 16) with (2 ^ 64); lia)) as C. cbv zeta in C. set (n := count_nibbles 16 v) in *. destruct C as [C1 C2].
    exists (hex_digits n v). repeat split.
    + f_equal. unfold hex_digits. rewrite map_map. apply map_ext_in. intros i I. apply in_seq in I. unfold digit_char, shr64. rewrite Z.shiftr_div_pow2 by lia. change 15 with (Z.ones 4). rewrite Z.land_ones by lia.
      replace (2 ^ ((Z.of_nat n - 1 - Z.of_nat i) * 4)) with (16 ^ (Z.of_nat n - 1 - Z.of_nat i)); [reflexivity|]. change 16 with (2 ^ 4). rewrite <- Z.pow_mul_r by lia. f_equal. lia.
    + apply hex_digits_ok.
    + unfold hex_digits. rewrite length_map, length_seq. lia.
    + unfold hex_digits. rewrite length_map, length_seq. lia.
    + rewrite hex_val_digits. apply Z.mod_small. lia.
    + intros E. exfalso. destruct n as [|n]; [lia|]. unfold hex_digits in E. cbn [seq map hd] in E. replace (Z.of_nat (S n) - 1 - Z.of_nat 0) with (Z.of_nat (S n) - 1) in E by lia.
      set (p := Z.of_nat (S n) - 1) in *. replace (Z.of_nat (S n)) with (Z.succ p) in C2 by lia. rewrite Z.pow_succ_r in C2 by lia. assert (0 < 16 ^ p) by (apply Z.pow_pos_nonneg; lia).
      assert (1 <= v / 16 ^ p) by (apply Z.div_le_lower_bound; lia). assert (v / 16 ^ p < 16) by (apply Z.div_lt_upper_bound; lia). rewrite Z.mod_small in E by lia. lia.
Qed.

Lemma skip_zero_bytes_spec bs : bytes_ok bs -> bytes_ok (skip_zero_bytes bs) /\ (List.length (skip_zero_bytes bs) <= List.length bs)%nat /\ be_val (skip_zero_bytes bs) = be_val bs /\ (skip_zero_bytes bs = [] \/ hd 0 (skip_zero_bytes bs) <> 0).
Proof.
  induction 1 as [|b bs B Bs IH]; cbn [skip_zero_bytes]; [split; [constructor|]; auto|]. destruct (Z.eqb_spec b 0) as [->|N].
  - destruct IH as (I1 & I2 & I3 & I4). split; [exact I1|]. split; [cbn [List.length]; lia|]. split; [rewrite be_val_cons, I3; lia | exact I4].
  - split; [constructor; assumption|]. auto.
Qed.

Lemma hex_encode_uint256_numeral v : wf256 v -> numeral 64 (val v) (hex_encode_uint256 v).
Proof.
  intros W. unfold hex_encode_uint256. rewrite uint256_is_zero_spec by exact W. destruct (Z.eqb_spec (val v) 0) as [->|N].
  - exists [0]. repeat split; try (repeat constructor; unfold digit; lia); cbn; lia.
  - rewrite uint256_to_bytes_be_spec by exact W. pose proof (skip_zero_bytes_spec (be_bytes 32 (val v)) (be_bytes_ok _ _)) as (B & L & V & H). rewrite length_be_bytes in L. rewrite be_val_be_bytes, Z.mod_small in V by (pose proof (val_range v W); lia).
    destruct (skip_zero_bytes (be_bytes 32 (val v))) as [|b rest]; [change (be_val []) with 0 in V; lia|]. destruct H as [H|H]; [discriminate|]. cbn [hd] in H. cbn [List.length] in L.
    inversion B as [|? ? Bb Br]; subst. rewrite hex_pairs_spec, high_char_spec, low_char_spec by assumption. pose proof (byte_digits_ok (b :: rest) B) as D. cbn [byte_digits flat_map app] in D. fold (byte_digits rest) in D.
    pose proof (hex_val_byte_digits (b :: rest)) as E. cbn [byte_digits flat_map app] in E. fold (byte_digits rest) in E. rewrite V, hex_val_cons in E. unfold u8 in Bb. destruct (Z.ltb_spec b 16) as [Lb|Lb].
    + rewrite Z.mod_small, Z.div_small in * by lia. inversion D as [|? ? _ D']; subst. exists (b :: byte_digits rest). cbn [List.length hd]. rewrite length_byte_digits. repeat split; auto; lia.
    + exists (b / 16 :: b mod 16 :: byte_digits rest). cbn [List.length hd]. rewrite length_byte_digits. repeat split; auto; try lia; [rewrite hex_val_cons; exact E|]. intros Q. exfalso. assert (1 <= b / 16) by (apply Z.div_le_lower_bound; lia). lia.
Qed.

(** Reading numerals back. *)
Lemma decode_u64_numeral v s : numeral 16 v s -> hex_decode_u64 (Some s) = Some v.
Proof.
  intros (ds & -> & D & L & V & _). rewrite hex_decode_u64_spec. cbv zeta. rewrite skip_prefix_lit, all_hex_chars, digits_of_chars, V by exact D. unfold strlen. rewrite length_map, !(proj2 (Z.leb_le _ _)) by lia. reflexivity.
Qed.

Lemma decode_uint256_digits ds out : Forall digit ds -> 1 <= Z.of_nat (List.length ds) <= 64 -> hex_decode_uint256 (Some (lit "0x" ++ map digit_char ds)) out = (true, of_Z256 (hex_val ds)).
Proof.
  intros D L. rewrite hex_decode_uint256_spec. cbv zeta. rewrite skip_prefix_lit, all_hex_chars, digits_of_chars by exact D. unfold strlen. rewrite length_map, !(proj2 (Z.leb_le _ _)) by lia. reflexivity.
Qed.

Lemma decode_encode_u64 v : u64 v -> hex_decode_u64 (Some (hex_encode_u64 v)) = Some v.
Proof. intros U. apply decode_u64_numeral, hex_encode_u64_numeral, U. Qed.

Lemma decode_encode_uint256 v out : wf256 v -> hex_decode_uint256 (Some (hex_encode_uint256 v)) out = (true, v).
Proof. intros W. destruct (hex_encode_uint256_numeral v W) as (ds & -> & D & L & V & _). rewrite decode_uint256_digits, V, of_Z256_val by assumption. reflexivity. Qed.

Lemma decode_encode_padded v out : wf256 v -> hex_decode_uint256 (Some (hex_encode_uint256_padded v)) out = (true, v).
Proof.
  intros W. unfold hex_encode_uint256_padded. rewrite uint256_to_bytes_be_spec, hex_pairs_spec by auto using be_bytes_ok. rewrite decode_uint256_digits; [|apply byte_digits_ok, be_bytes_ok|rewrite length_byte_digits, length_be_bytes; lia].
  rewrite hex_val_byte_digits, be_val_be_bytes, of_Z256_mod, of_Z256_val by exact W. reflexivity.
Qed.

(** * Characters and lengths *)

Definition plain_char (c : Z) : Prop := 48 <= c <= 120.

Lemma plain_digits ds : Forall digit ds -> Forall plain_char (lit "0x" ++ map digit_char ds).
Proof.
  intros D. apply Forall_app. split; [change (lit "0x") with [48; 120]; repeat constructor; unfold plain_char; lia|]. apply Forall_map. eapply Forall_impl; [|exact D]. intros d Dd. pose proof (digit_char_range d Dd). unfold plain_char. lia.
Qed.

Lemma plain_numeral n v s : numeral n v s -> Forall plain_char s /\ strlen s <= n + 2.
Proof. intros (ds & -> & D & L & _). split; [apply plain_digits, D|]. unfold strlen. rewrite length_app, length_map. change (List.length (lit "0x")) with 2%nat. lia. Qed.

Lemma plain_encode bs : bytes_ok bs -> Forall plain_char (hex_encode bs).
Proof. intros B. rewrite hex_encode_digits by exact B. apply plain_digits, byte_digits_ok, B. Qed.

Lemma length_hex_encode bs : strlen (hex_encode bs) = 2 + 2 * Z.of_nat (List.length bs).
Proof. unfold strlen, hex_encode. rewrite length_app, length_hex_pairs. change (List.length (lit "0x")) with 2%nat. lia. Qed.
