(* ===== verification/Json.v ===== *)
(** JSON: include/div0/json/json.h, parse.h, write.h and src/json/parse.c,
    write.c, over the yyjson library.

    yyjson is a parameter: the classes [Yyjson] and [YyjsonMut] list the
    functions the program calls, with pointers to values as abstract types (a
    pointer that may be null is an option). What is assumed of these functions
    is stated in [JsonSpec]. Strings that leave yyjson are C strings, which end
    at their first NUL. *)
From Stdlib Require Import ZArith Lia List Bool String.
From S2P Require Import Prelude Uint256 Types Arena Bytes Hex.
Import ListNotations.
#[local] Open Scope Z_scope.
#[local] Open Scope word_scope.

(** * json.h *)

Inductive json_error_t :=
| JSON_OK
| JSON_ERR_PARSE
| JSON_ERR_MISSING_FIELD
| JSON_ERR_INVALID_TYPE
| JSON_ERR_INVALID_HEX
| JSON_ERR_OVERFLOW
| JSON_ERR_ALLOC
| JSON_ERR_IO.

Record json_result_t := JsonResult { json_error : json_error_t; json_detail : option cstr }.

Definition json_ok : json_result_t := JsonResult JSON_OK None.
Definition json_err (code : json_error_t) (detail : cstr) : json_result_t := JsonResult code (Some detail).

Definition json_error_eqb (a b : json_error_t) : bool :=
  match a, b with
  | JSON_OK, JSON_OK | JSON_ERR_PARSE, JSON_ERR_PARSE | JSON_ERR_MISSING_FIELD, JSON_ERR_MISSING_FIELD
  | JSON_ERR_INVALID_TYPE, JSON_ERR_INVALID_TYPE | JSON_ERR_INVALID_HEX, JSON_ERR_INVALID_HEX
  | JSON_ERR_OVERFLOW, JSON_ERR_OVERFLOW | JSON_ERR_ALLOC, JSON_ERR_ALLOC | JSON_ERR_IO, JSON_ERR_IO => true
  | _, _ => false
  end.

Definition json_is_ok (r : json_result_t) : bool := json_error_eqb (json_error r) JSON_OK.
Definition json_is_err (r : json_result_t) : bool := negb (json_error_eqb (json_error r) JSON_OK).

Definition json_error_name (err : json_error_t) : cstr :=
  match err with
  | JSON_OK => lit "OK"
  | JSON_ERR_PARSE => lit "PARSE_ERROR"
  | JSON_ERR_MISSING_FIELD => lit "MISSING_FIELD"
  | JSON_ERR_INVALID_TYPE => lit "INVALID_TYPE"
  | JSON_ERR_INVALID_HEX => lit "INVALID_HEX"
  | JSON_ERR_OVERFLOW => lit "OVERFLOW"
  | JSON_ERR_ALLOC => lit "ALLOC_ERROR"
  | JSON_ERR_IO => lit "IO_ERROR"
  end.

(** * The reading half of yyjson *)

(** [read_err] is the message of [yyjson_read_err] with whether its code is
    [YYJSON_READ_ERROR_FILE_OPEN]. [yyjson_slot_after] is [val + 1]. *)
Class Yyjson := {
  yyjson_val : Type;
  yyjson_doc : Type;
  json_text : Type;
  file_system : Type;
  yyjson_read_opts : json_text -> yyjson_doc + cstr;
  yyjson_read_file : file_system -> cstr -> yyjson_doc + (bool * cstr);
  yyjson_doc_get_root : yyjson_doc -> option yyjson_val;
  yyjson_is_null : option yyjson_val -> bool;
  yyjson_is_bool : option yyjson_val -> bool;
  yyjson_is_num : option yyjson_val -> bool;
  yyjson_is_str : option yyjson_val -> bool;
  yyjson_is_obj : option yyjson_val -> bool;
  yyjson_is_arr : option yyjson_val -> bool;
  yyjson_obj_get : option yyjson_val -> cstr -> option yyjson_val;
  yyjson_arr_get : option yyjson_val -> Z -> option yyjson_val;
  yyjson_arr_size : option yyjson_val -> Z;
  yyjson_obj_size : option yyjson_val -> Z;
  yyjson_get_str : option yyjson_val -> option cstr;
  yyjson_get_len : option yyjson_val -> Z;
  yyjson_get_bool : option yyjson_val -> bool;
  yyjson_get_uint : option yyjson_val -> Z;
  yyjson_get_sint : option yyjson_val -> Z;
  unsafe_yyjson_get_first : yyjson_val -> yyjson_val;
  unsafe_yyjson_get_next : yyjson_val -> yyjson_val;
  yyjson_slot_after : yyjson_val -> yyjson_val }.

(** * parse.h, parse.c *)

Section Parse.
Context {Y : Yyjson}.

Record json_doc_t := JsonDoc { jdoc : option yyjson_doc }.

(** The text is not null; the output document is the given one or the new one. *)
Definition json_parse (json : json_text) : json_doc_t * json_result_t :=
  match yyjson_read_opts json with
  | inr msg => (JsonDoc None, json_err JSON_ERR_PARSE msg)
  | inl d => (JsonDoc (Some d), json_ok)
  end.

Definition json_parse_file (fs : file_system) (path : cstr) : json_doc_t * json_result_t :=
  match yyjson_read_file fs path with
  | inr (true, msg) => (JsonDoc None, json_err JSON_ERR_IO msg)
  | inr (false, msg) => (JsonDoc None, json_err JSON_ERR_PARSE msg)
  | inl d => (JsonDoc (Some d), json_ok)
  end.

Definition json_doc_free (doc : json_doc_t) : json_doc_t := match jdoc doc with Some _ => JsonDoc None | None => doc end.

Definition json_doc_root (doc : json_doc_t) : option yyjson_val :=
  match jdoc doc with None => None | Some d => yyjson_doc_get_root d end.

Definition json_is_null (val : option yyjson_val) : bool := yyjson_is_null val.
Definition json_is_bool (val : option yyjson_val) : bool := yyjson_is_bool val.
Definition json_is_num (val : option yyjson_val) : bool := yyjson_is_num val.
Definition json_is_str (val : option yyjson_val) : bool := yyjson_is_str val.
Definition json_is_obj (val : option yyjson_val) : bool := yyjson_is_obj val.
Definition json_is_arr (val : option yyjson_val) : bool := yyjson_is_arr val.
Definition json_obj_get (obj : option yyjson_val) (key : cstr) : option yyjson_val := yyjson_obj_get obj key.
Definition json_arr_get (arr : option yyjson_val) (idx : Z) : option yyjson_val := yyjson_arr_get arr idx.
Definition json_arr_len (arr : option yyjson_val) : Z := yyjson_arr_size arr.
Definition json_obj_size (obj : option yyjson_val) : Z := yyjson_obj_size obj.
Definition json_get_str (val : option yyjson_val) : option cstr := yyjson_get_str val.
Definition json_get_str_len (val : option yyjson_val) : Z := yyjson_get_len val.
Definition json_get_bool (val : option yyjson_val) : bool := yyjson_get_bool val.
Definition json_get_u64 (val : option yyjson_val) : Z := yyjson_get_uint val.
Definition json_get_i64 (val : option yyjson_val) : Z := yyjson_get_sint val.

(** [val == nullptr || !yyjson_is_str(val)] *)
Definition not_a_string (val : option yyjson_val) : bool := match val with None => true | Some _ => negb (yyjson_is_str val) end.

(** Failing leaves a [uint64_t] or [bytes_t] output as it was ([None]); the
    others come back as the decoder left them. *)
Definition json_get_hex_u64 (obj : option yyjson_val) (key : cstr) : option Z :=
  let val := yyjson_obj_get obj key in
  if not_a_string val then None else hex_decode_u64 (yyjson_get_str val).

Definition json_get_hex_uint256 (obj : option yyjson_val) (key : cstr) (out : uint256_t) : bool * uint256_t :=
  let val := yyjson_obj_get obj key in
  if not_a_string val then (false, out) else hex_decode_uint256 (yyjson_get_str val) out.

Definition json_get_hex_address (obj : option yyjson_val) (key : cstr) (out : address_t) : bool * address_t :=
  let val := yyjson_obj_get obj key in
  if not_a_string val then (false, out) else hex_decode (yyjson_get_str val) out.

Definition json_get_hex_hash (obj : option yyjson_val) (key : cstr) (out : hash_t) : bool * hash_t :=
  let val := yyjson_obj_get obj key in
  if not_a_string val then (false, out) else hex_decode (yyjson_get_str val) out.

(** The common end of [json_get_hex_bytes] and [json_val_hex_bytes]. *)
Definition hex_bytes_of (str : option cstr) : option (list Z) :=
  let hex_len := hex_strlen str in
  if hex_len =? 0 then Some []
  else if negb (hex_len mod 2 =? 0) then None
  else
    let byte_len := hex_len / 2 in
    if negb (alloc_succeeds byte_len) then None
    else match hex_decode str (repeat 0 (Z.to_nat byte_len)) with (true, data) => Some data | (false, _) => None end.

Definition json_get_hex_bytes (obj : option yyjson_val) (key : cstr) : option (list Z) :=
  let val := yyjson_obj_get obj key in
  if not_a_string val then None else hex_bytes_of (yyjson_get_str val).

Definition json_val_hex_u64 (val : option yyjson_val) : option Z :=
  if not_a_string val then None else hex_decode_u64 (yyjson_get_str val).

Definition json_val_hex_uint256 (val : option yyjson_val) (out : uint256_t) : bool * uint256_t :=
  if not_a_string val then (false, out) else hex_decode_uint256 (yyjson_get_str val) out.

Definition json_val_hex_address (val : option yyjson_val) (out : address_t) : bool * address_t :=
  if not_a_string val then (false, out) else hex_decode (yyjson_get_str val) out.

Definition json_val_hex_hash (val : option yyjson_val) (out : hash_t) : bool * hash_t :=
  if not_a_string val then (false, out) else hex_decode (yyjson_get_str val) out.

Definition json_val_hex_bytes (val : option yyjson_val) : option (list Z) :=
  if not_a_string val then None else hex_bytes_of (yyjson_get_str val).

(** Iterators; [cur] is only read while [idx < max], and is not null then. *)
Record json_obj_iter_t := ObjIter { oi_cur : option yyjson_val; oi_idx : Z; oi_max : Z }.

Definition json_obj_iter (obj : option yyjson_val) : json_obj_iter_t :=
  match obj with
  | None => ObjIter None 0 0
  | Some o =>
      if negb (yyjson_is_obj obj) then ObjIter None 0 0
      else
        let max := yyjson_obj_size obj in
        ObjIter (if max >? 0 then Some (unsafe_yyjson_get_first o) else None) 0 max
  end.

Definition json_obj_iter_next (iter : json_obj_iter_t) : option (option cstr * yyjson_val * json_obj_iter_t) :=
  if oi_idx iter >=? oi_max iter then None
  else
    match oi_cur iter with
    | None => None
    | Some cur =>
        let val := yyjson_slot_after cur in
        Some (yyjson_get_str (Some cur), val, ObjIter (Some (unsafe_yyjson_get_next val)) (oi_idx iter +64 1) (oi_max iter))
    end.

Record json_arr_iter_t := ArrIter { ai_cur : option yyjson_val; ai_idx : Z; ai_max : Z }.

Definition json_arr_iter (arr : option yyjson_val) : json_arr_iter_t :=
  match arr with
  | None => ArrIter None 0 0
  | Some a =>
      if negb (yyjson_is_arr arr) then ArrIter None 0 0
      else
        let max := yyjson_arr_size arr in
        ArrIter (if max >? 0 then Some (unsafe_yyjson_get_first a) else None) 0 max
  end.

Definition json_arr_iter_next (iter : json_arr_iter_t) : option (yyjson_val * json_arr_iter_t) :=
  if ai_idx iter >=? ai_max iter then None
  else
    match ai_cur iter with
    | None => None
    | Some cur => Some (cur, ArrIter (Some (unsafe_yyjson_get_next cur)) (ai_idx iter +64 1) (ai_max iter))
    end.

(** What [while (json_obj_iter_next(&iter, &key, &val))] runs over: the bodies
    of the program's loops do not touch the iterator or the document. One
    round per entry, and a last one that returns false. *)
Fixpoint obj_iterate (fuel : nat) (iter : json_obj_iter_t) : list (option cstr * yyjson_val) :=
  match fuel with
  | O => []
  | S fuel' => match json_obj_iter_next iter with None => [] | Some (key, val, iter) => (key, val) :: obj_iterate fuel' iter end
  end.

Definition obj_entries (obj : option yyjson_val) : list (option cstr * yyjson_val) :=
  let iter := json_obj_iter obj in obj_iterate (S (Z.to_nat (oi_max iter))) iter.

Fixpoint arr_iterate (fuel : nat) (iter : json_arr_iter_t) : list yyjson_val :=
  match fuel with
  | O => []
  | S fuel' => match json_arr_iter_next iter with None => [] | Some (val, iter) => val :: arr_iterate fuel' iter end
  end.

Definition arr_entries (arr : option yyjson_val) : list yyjson_val :=
  let iter := json_arr_iter arr in arr_iterate (S (Z.to_nat (ai_max iter))) iter.

End Parse.

(** * The writing half of yyjson *)

(** Each function returns the document it leaves behind. [yyjson_mut_obj_add_val]
    and its relatives keep the pointer to the key they are given, which is a
    literal in every call; [yyjson_mut_strcpy] copies. A failed write gives the
    message of [yyjson_write_err]. *)
Class YyjsonMut {Y : Yyjson} := {
  mut_doc : Type;
  mut_val : Type;
  stream : Type;
  yyjson_mut_doc_new : option mut_doc;
  yyjson_mut_null : mut_doc -> mut_doc * option mut_val;
  yyjson_mut_bool : mut_doc -> bool -> mut_doc * option mut_val;
  yyjson_mut_uint : mut_doc -> Z -> mut_doc * option mut_val;
  yyjson_mut_sint : mut_doc -> Z -> mut_doc * option mut_val;
  yyjson_mut_strcpy : mut_doc -> cstr -> mut_doc * option mut_val;
  yyjson_mut_strncpy : mut_doc -> list Z -> mut_doc * option mut_val;
  yyjson_mut_obj : mut_doc -> mut_doc * option mut_val;
  yyjson_mut_arr : mut_doc -> mut_doc * option mut_val;
  yyjson_mut_obj_add : mut_doc -> option mut_val -> option mut_val -> option mut_val -> mut_doc * bool;
  yyjson_mut_obj_add_null : mut_doc -> option mut_val -> cstr -> mut_doc * bool;
  yyjson_mut_obj_add_bool : mut_doc -> option mut_val -> cstr -> bool -> mut_doc * bool;
  yyjson_mut_obj_add_uint : mut_doc -> option mut_val -> cstr -> Z -> mut_doc * bool;
  yyjson_mut_obj_add_strcpy : mut_doc -> option mut_val -> cstr -> cstr -> mut_doc * bool;
  yyjson_mut_obj_add_val : mut_doc -> option mut_val -> cstr -> option mut_val -> mut_doc * bool;
  yyjson_mut_arr_append : mut_doc -> option mut_val -> option mut_val -> mut_doc * bool;
  yyjson_mut_doc_set_root : mut_doc -> mut_val -> mut_doc;
  yyjson_mut_write_opts : mut_doc -> bool -> option json_text;
  yyjson_mut_write_file : file_system -> cstr -> mut_doc -> bool -> file_system * option cstr;
  yyjson_mut_write_fp : file_system -> stream -> mut_doc -> bool -> file_system * option cstr }.

(** * write.h, write.c *)

Section Write.
Context {Y : Yyjson} {YM : YyjsonMut}.

(** A call that works on the document of a writer. *)
Definition W (A : Type) : Type := mut_doc -> mut_doc * A.
Definition w_ret {A} (a : A) : W A := fun d => (d, a).
Definition w_bind {A B} (m : W A) (k : A -> W B) : W B := fun d => let '(d, a) := m d in k a d.

(** The writer is not null; [None] is a result that is not [JSON_OK]. *)
Definition json_writer_init : option mut_doc * json_result_t :=
  match yyjson_mut_doc_new with
  | None => (None, json_err JSON_ERR_ALLOC (lit "failed to create document"))
  | Some d => (Some d, json_ok)
  end.

Definition json_write_null : W (option mut_val) := yyjson_mut_null.
Definition json_write_bool (val : bool) : W (option mut_val) := fun d => yyjson_mut_bool d val.
Definition json_write_u64 (val : Z) : W (option mut_val) := fun d => yyjson_mut_uint d val.
Definition json_write_i64 (val : Z) : W (option mut_val) := fun d => yyjson_mut_sint d val.
Definition json_write_str (str : cstr) : W (option mut_val) := fun d => yyjson_mut_strcpy d str.
Definition json_write_strn (str : list Z) : W (option mut_val) := fun d => yyjson_mut_strncpy d str.
Definition json_write_obj : W (option mut_val) := yyjson_mut_obj.
Definition json_write_arr : W (option mut_val) := yyjson_mut_arr.

Definition json_obj_add (obj : option mut_val) (key : cstr) (val : option mut_val) : W bool :=
  match obj, val with
  | Some _, Some _ =>
      w_bind (fun d => yyjson_mut_strcpy d key) (fun key_val =>
        match key_val with None => w_ret false | Some _ => fun d => yyjson_mut_obj_add d obj key_val val end)
  | _, _ => w_ret false
  end.

Definition json_obj_add_null (obj : option mut_val) (key : cstr) : W bool := fun d => yyjson_mut_obj_add_null d obj key.
Definition json_obj_add_bool (obj : option mut_val) (key : cstr) (val : bool) : W bool := fun d => yyjson_mut_obj_add_bool d obj key val.
Definition json_obj_add_u64 (obj : option mut_val) (key : cstr) (val : Z) : W bool := fun d => yyjson_mut_obj_add_uint d obj key val.
Definition json_obj_add_str (obj : option mut_val) (key : cstr) (val : cstr) : W bool := fun d => yyjson_mut_obj_add_strcpy d obj key val.

Definition json_arr_append (arr val : option mut_val) : W bool :=
  match arr, val with
  | Some _, Some _ => fun d => yyjson_mut_arr_append d arr val
  | _, _ => w_ret false
  end.

Definition json_write_hex_u64 (val : Z) : W (option mut_val) := fun d => yyjson_mut_strcpy d (hex_encode_u64 val).
Definition json_write_hex_uint256 (val : uint256_t) : W (option mut_val) := fun d => yyjson_mut_strcpy d (hex_encode_uint256 val).
Definition json_write_hex_uint256_padded (val : uint256_t) : W (option mut_val) := fun d => yyjson_mut_strcpy d (hex_encode_uint256_padded val).
Definition json_write_hex_address (addr : address_t) : W (option mut_val) := fun d => yyjson_mut_strcpy d (hex_encode addr).
Definition json_write_hex_hash (hash : hash_t) : W (option mut_val) := fun d => yyjson_mut_strcpy d (hex_encode hash).

(** [malloc] succeeds. *)
Definition json_write_hex_bytes (data : list Z) : W (option mut_val) :=
  if Z.of_nat (List.length data) =? 0 then fun d => yyjson_mut_strcpy d (lit "0x") else fun d => yyjson_mut_strcpy d (hex_encode data).

(** The common body of the [json_obj_add_hex_...] functions. *)
Definition add_written (write : W (option mut_val)) (obj : option mut_val) (key : cstr) : W bool :=
  w_bind write (fun v => match v with None => w_ret false | Some _ => fun d => yyjson_mut_obj_add_val d obj key v end).

Definition json_obj_add_hex_u64 (obj : option mut_val) (key : cstr) (val : Z) : W bool := add_written (json_write_hex_u64 val) obj key.
Definition json_obj_add_hex_uint256 (obj : option mut_val) (key : cstr) (val : uint256_t) : W bool := add_written (json_write_hex_uint256 val) obj key.
Definition json_obj_add_hex_uint256_padded (obj : option mut_val) (key : cstr) (val : uint256_t) : W bool :=
  add_written (json_write_hex_uint256_padded val) obj key.
Definition json_obj_add_hex_address (obj : option mut_val) (key : cstr) (addr : address_t) : W bool := add_written (json_write_hex_address addr) obj key.
Definition json_obj_add_hex_hash (obj : option mut_val) (key : cstr) (hash : hash_t) : W bool := add_written (json_write_hex_hash hash) obj key.
Definition json_obj_add_hex_bytes (obj : option mut_val) (key : cstr) (data : list Z) : W bool := add_written (json_write_hex_bytes data) obj key.

(** ** Output *)

Inductive json_write_flags_t := JSON_WRITE_COMPACT | JSON_WRITE_PRETTY.

(** [true] for [YYJSON_WRITE_PRETTY]. *)
Definition convert_flags (flags : json_write_flags_t) : bool := match flags with JSON_WRITE_PRETTY => true | JSON_WRITE_COMPACT => false end.

Definition json_write_string (d : mut_doc) (root : option mut_val) (flags : json_write_flags_t) : mut_doc * option json_text :=
  match root with
  | None => (d, None)
  | Some r => let d := yyjson_mut_doc_set_root d r in (d, yyjson_mut_write_opts d (convert_flags flags))
  end.

Definition json_write_file (fs : file_system) (d : mut_doc) (root : option mut_val) (path : cstr) (flags : json_write_flags_t) : file_system * json_result_t :=
  match root with
  | None => (fs, json_err JSON_ERR_IO (lit "null input"))
  | Some r =>
      match yyjson_mut_write_file fs path (yyjson_mut_doc_set_root d r) (convert_flags flags) with
      | (fs, Some msg) => (fs, json_err JSON_ERR_IO msg)
      | (fs, None) => (fs, json_ok)
      end
  end.

Definition json_write_fp (fs : file_system) (d : mut_doc) (root : option mut_val) (fp : stream) (flags : json_write_flags_t) : file_system * json_result_t :=
  match root with
  | None => (fs, json_err JSON_ERR_IO (lit "null input"))
  | Some r =>
      match yyjson_mut_write_fp fs fp (yyjson_mut_doc_set_root d r) (convert_flags flags) with
      | (fs, Some msg) => (fs, json_err JSON_ERR_IO msg)
      | (fs, None) => (fs, json_ok)
      end
  end.

End Write.

Declare Scope json_scope.
Delimit Scope json_scope with json.
Notation "'let*' x := m 'in' k" := (w_bind m (fun x => k)) (at level 10, x name, m at level 100, k at level 200) : json_scope.
Notation "m ;;; k" := (w_bind m (fun _ => k)) (at level 61, right associativity) : json_scope.
