(* ===== verification/T8nAlloc.v ===== *)
(** The state files of the transition tool: include/div0/t8n/alloc.h and
    src/t8n/alloc.c, over the JSON layer of [Json]. *)
From Stdlib Require Import ZArith Lia List Bool String.
From S2P Require Import Prelude Uint256 Types Arena Hex Json WorldState.
Import ListNotations.
#[local] Open Scope Z_scope.
#[local] Open Scope word_scope.
#[local] Open Scope json_scope.

(** * Results of the parsers

    A parser gives its output, or the error it returns; no caller looks at the
    output after an error. *)
Definition parsed (A : Type) : Type := (A + json_result_t)%type.

Definition fails {A} (code : json_error_t) (detail : string) : parsed A := inr (json_err code (lit detail)).

Definition andthen {A B} (m : parsed A) (k : A -> parsed B) : parsed B := match m with inl a => k a | inr e => inr e end.

Notation "'let!' x := m 'in' k" := (andthen m (fun x => k)) (at level 10, x name, m at level 100, k at level 200) : json_scope.
Notation "'let!' ' p := m 'in' k" := (andthen m (fun x => let p := x in k)) (at level 10, p pattern, m at level 100, k at level 200) : json_scope.

(** [if (!b) return json_err(code, detail);] *)
Definition require {A} (b : bool) (code : json_error_t) (detail : string) (k : parsed A) : parsed A := if b then k else fails code detail.

(** A loop over the entries of an array or object that returns on the first error. *)
Fixpoint parse_each {A B} (f : A -> parsed B) (l : list A) : parsed (list B) :=
  match l with
  | [] => inl []
  | x :: rest => let! y := f x in let! ys := parse_each f rest in inl (y :: ys)
  end.

Definition or_default {A} (m : option A) (old : A) : A := match m with Some v => v | None => old end.

Section Fields.
Context {Y : Yyjson}.

(** [!(x == nullptr || !typed(x))] *)
Definition present (x : option yyjson_val) (typed : option yyjson_val -> bool) : bool := match x with None => false | Some _ => typed x end.

(** [if (!json_get_hex_u64(obj, key, &field)) return json_err(...)] *)
Definition required_u64 {A} (obj : option yyjson_val) (key : string) (detail : string) (k : Z -> parsed A) : parsed A :=
  match json_get_hex_u64 obj (lit key) with Some v => k v | None => fails JSON_ERR_MISSING_FIELD detail end.

Definition required_address {A} (obj : option yyjson_val) (key : string) (detail : string) (k : address_t -> parsed A) : parsed A :=
  let '(ok, a) := json_get_hex_address obj (lit key) address_zero in require ok JSON_ERR_MISSING_FIELD detail (k a).

End Fields.

Section Alloc.
Context {Y : Yyjson}.

(** The loop over the storage object; entries with the value zero are
    overwritten by the next one. *)
Fixpoint parse_storage_entries (l : list (option cstr * yyjson_val)) : parsed (list storage_entry_t) :=
  match l with
  | [] => inl []
  | (slot_hex, value_val) :: rest =>
      let '(ok, slot) := hex_decode_uint256 slot_hex uint256_zero in
      require ok JSON_ERR_INVALID_HEX "invalid storage slot key"
        (let '(ok, value) := json_val_hex_uint256 (Some value_val) uint256_zero in
         require ok JSON_ERR_INVALID_HEX "invalid storage value"
           (let! entries := parse_storage_entries rest in
            inl (if negb (uint256_is_zero value) then StorageEntry slot value :: entries else entries)))
  end.

Definition parse_storage (storage_val : option yyjson_val) : parsed (list storage_entry_t) :=
  if present storage_val json_is_obj then
    let storage_count := json_obj_size storage_val in
    if storage_count >? 0 then
      require (alloc_succeeds (storage_count *64 sizeof_storage_entry)) JSON_ERR_ALLOC "failed to allocate storage"
        (parse_storage_entries (obj_entries storage_val))
    else inl []
  else inl [].

(** One round of the loop over the accounts. *)
Definition parse_account (entry : option cstr * yyjson_val) : parsed account_snapshot_t :=
  let '(addr_hex, v) := entry in
  let account_val := Some v in
  let '(ok, address) := hex_decode addr_hex address_zero in
  require ok JSON_ERR_INVALID_HEX "invalid address key"
    (require (json_is_obj account_val) JSON_ERR_INVALID_TYPE "account must be an object"
      (let '(ok, balance) := json_get_hex_uint256 account_val (lit "balance") uint256_zero in
       require ok JSON_ERR_MISSING_FIELD "missing balance field"
         (let nonce := or_default (json_get_hex_u64 account_val (lit "nonce")) 0 in
          let code := or_default (json_get_hex_bytes account_val (lit "code")) [] in
          let! storage := parse_storage (json_obj_get account_val (lit "storage")) in
          inl (AccountSnapshot address balance nonce code storage)))).

Definition t8n_parse_alloc_value (root : option yyjson_val) : parsed (list account_snapshot_t) :=
  require (present root json_is_obj) JSON_ERR_INVALID_TYPE "alloc must be an object"
    (let count := json_obj_size root in
     if count =? 0 then inl []
     else
       require (alloc_succeeds (count *64 sizeof_account_snapshot)) JSON_ERR_ALLOC "failed to allocate accounts"
         (parse_each parse_account (obj_entries root))).

(** Parse the document, hand its root to a parser, free it. *)
Definition parse_document {A} (doc : json_doc_t * json_result_t) (parse_value : option yyjson_val -> parsed A) : parsed A :=
  let '(doc, result) := doc in
  if json_is_err result then inr result else parse_value (json_doc_root doc).

Definition t8n_parse_alloc (json : json_text) : parsed (list account_snapshot_t) := parse_document (json_parse json) t8n_parse_alloc_value.

Definition t8n_parse_alloc_file (fs : file_system) (path : cstr) : parsed (list account_snapshot_t) :=
  parse_document (json_parse_file fs path) t8n_parse_alloc_value.

(** * Serialization *)

Context {YM : YyjsonMut}.

Fixpoint write_storage (l : list storage_entry_t) (storage : option mut_val) : W unit :=
  match l with
  | [] => w_ret tt
  | entry :: rest =>
      (if uint256_is_zero (se_value entry) then w_ret true
       else
         let* value := json_write_hex_uint256_padded (se_value entry) in
         json_obj_add storage (hex_encode_uint256_padded (se_slot entry)) value) ;;;
      write_storage rest storage
  end.

Definition t8n_write_alloc_account (account : account_snapshot_t) : W (option mut_val) :=
  let* obj := json_write_obj in
  match obj with
  | None => w_ret None
  | Some _ =>
      json_obj_add_hex_uint256 obj (lit "balance") (as_balance account) ;;;
      (if negb (as_nonce account =? 0) then json_obj_add_hex_u64 obj (lit "nonce") (as_nonce account) else w_ret true) ;;;
      (if Z.of_nat (List.length (as_code account)) >? 0 then json_obj_add_hex_bytes obj (lit "code") (as_code account) else w_ret true) ;;;
      (if Z.of_nat (List.length (as_storage account)) >? 0 then
         let* storage := json_write_obj in
         write_storage (as_storage account) storage ;;;
         json_obj_add obj (lit "storage") storage
       else w_ret true) ;;;
      w_ret obj
  end.

Fixpoint write_accounts (l : list account_snapshot_t) (root : option mut_val) : W (option mut_val) :=
  match l with
  | [] => w_ret root
  | account :: rest =>
      let* account_obj := t8n_write_alloc_account account in
      match account_obj with
      | None => w_ret None
      | Some _ => json_obj_add root (hex_encode (as_address account)) account_obj ;;; write_accounts rest root
      end
  end.

Definition t8n_write_alloc (snapshot : list account_snapshot_t) : W (option mut_val) :=
  let* root := json_write_obj in
  match root with
  | None => w_ret None
  | Some _ => write_accounts snapshot root
  end.

End Alloc.
