(* ===== verification/T8nEnv.v ===== *)
(** The block environment files of the transition tool: include/div0/t8n/env.h
    and src/t8n/env.c. *)
From Stdlib Require Import ZArith Lia List Bool String.
From S2P Require Import Prelude Uint256 Types Arena Hex Json T8nAlloc.
Import ListNotations.
#[local] Open Scope Z_scope.
#[local] Open Scope word_scope.
#[local] Open Scope json_scope.

(** * env.h *)

Record t8n_block_hash_t := BlockHash { bh_number : Z; bh_hash : hash_t }.
Record t8n_withdrawal_t := Withdrawal { wd_index : Z; wd_validator_index : Z; wd_address : address_t; wd_amount : Z }.
Record t8n_ommer_t := Ommer { om_coinbase : address_t; om_delta : Z }.

Definition sizeof_block_hash : Z := 64.
Definition sizeof_withdrawal : Z := 48.
Definition sizeof_ommer : Z := 32.

(** Each optional field with its [has_] flag; the arrays with their lengths. *)
Record t8n_env_t := Env {
  env_coinbase : address_t; env_gas_limit : Z; env_number : Z; env_timestamp : Z;
  env_difficulty : bool * uint256_t; env_prev_randao : bool * uint256_t; env_base_fee : bool * uint256_t;
  env_excess_blob_gas : bool * Z; env_blob_gas_used : bool * Z; env_parent_beacon_root : bool * hash_t;
  env_parent_base_fee : bool * uint256_t; env_parent_gas_used : bool * Z; env_parent_gas_limit : bool * Z;
  env_parent_excess_blob_gas : bool * Z; env_parent_blob_gas_used : bool * Z;
  env_block_hashes : list t8n_block_hash_t; env_withdrawals : list t8n_withdrawal_t; env_ommers : list t8n_ommer_t }.

(** The structure filled with zeros. *)
Definition t8n_env_init : t8n_env_t :=
  let no_word := (false, uint256_zero) in let no_u64 := (false, 0) in
  Env address_zero 0 0 0 no_word no_word no_word no_u64 no_u64 (false, hash_zero) no_word no_u64 no_u64 no_u64 no_u64 [] [] [].

(** * strtoull in base 10

    White space, an optional sign and digits; a value out of range saturates,
    a minus sign negates modulo 2^64, and without digits nothing is read.
    The rest of the string is what [*end] points to. *)
Definition is_space (c : Z) : bool := (c =? 32) || (9 <=? c) && (c <=? 13).
Definition is_dec (c : Z) : bool := (48 <=? c) && (c <=? 57).

Fixpoint skip_spaces (s : cstr) : cstr :=
  match s with
  | c :: rest => if is_space c then skip_spaces rest else s
  | [] => []
  end.

Fixpoint read_decimal (s : cstr) (v : Z) : Z * cstr :=
  match s with
  | c :: rest => if is_dec c then read_decimal rest (v * 10 + (c - 48)) else (v, s)
  | [] => (v, [])
  end.

Definition strtoull_10 (s : cstr) : Z * cstr :=
  let t := skip_spaces s in
  let '(negative, digits) :=
    match t with
    | 45 :: rest => (true, rest)
    | 43 :: rest => (false, rest)
    | _ => (false, t)
    end in
  if is_dec (aget digits 0) then
    let '(v, rest) := read_decimal digits 0 in
    (if v >? UINT64_MAX then UINT64_MAX else if negative then w64 (- v) else v, rest)
  else (0, s).

(** * env.c *)

Section Env.
Context {Y : Yyjson}.

Definition block_number (num_str : option cstr) : parsed Z :=
  match hex_decode_u64 num_str with
  | Some number => inl number
  | None =>
      let '(number, end_) := strtoull_10 (or_default num_str []) in
      require (strlen end_ =? 0) JSON_ERR_INVALID_HEX "invalid block number key" (inl number)
  end.

Definition parse_block_hash (entry : option cstr * yyjson_val) : parsed t8n_block_hash_t :=
  let '(num_str, hash_val) := entry in
  let! number := block_number num_str in
  let '(ok, hash) := json_val_hex_hash (Some hash_val) hash_zero in
  require ok JSON_ERR_INVALID_HEX "invalid block hash value" (inl (BlockHash number hash)).

Definition parse_block_hashes (obj : option yyjson_val) : parsed (list t8n_block_hash_t) :=
  let hashes := json_obj_get obj (lit "blockHashes") in
  if negb (present hashes json_is_obj) then inl []
  else
    let count := json_obj_size hashes in
    if count =? 0 then inl []
    else
      require (alloc_succeeds (count *64 sizeof_block_hash)) JSON_ERR_ALLOC "failed to allocate block hashes"
        (parse_each parse_block_hash (obj_entries hashes)).

Definition parse_withdrawal (v : yyjson_val) : parsed t8n_withdrawal_t :=
  let w_val := Some v in
  require (json_is_obj w_val) JSON_ERR_INVALID_TYPE "withdrawal must be an object"
    (required_u64 w_val "index" "missing withdrawal index" (fun index =>
     required_u64 w_val "validatorIndex" "missing withdrawal validatorIndex" (fun validator_index =>
     required_address w_val "address" "missing withdrawal address" (fun address =>
     required_u64 w_val "amount" "missing withdrawal amount" (fun amount =>
     inl (Withdrawal index validator_index address amount)))))).

Definition parse_withdrawals (obj : option yyjson_val) : parsed (list t8n_withdrawal_t) :=
  let withdrawals := json_obj_get obj (lit "withdrawals") in
  if negb (present withdrawals json_is_arr) then inl []
  else
    let count := json_arr_len withdrawals in
    if count =? 0 then inl []
    else
      require (alloc_succeeds (count *64 sizeof_withdrawal)) JSON_ERR_ALLOC "failed to allocate withdrawals"
        (parse_each parse_withdrawal (arr_entries withdrawals)).

Definition parse_ommer (v : yyjson_val) : parsed t8n_ommer_t :=
  let o_val := Some v in
  require (json_is_obj o_val) JSON_ERR_INVALID_TYPE "ommer must be an object"
    (required_address o_val "address" "missing ommer address" (fun coinbase =>
     required_u64 o_val "delta" "missing ommer delta" (fun delta =>
     inl (Ommer coinbase delta)))).

Definition parse_ommers (obj : option yyjson_val) : parsed (list t8n_ommer_t) :=
  let ommers := json_obj_get obj (lit "ommers") in
  if negb (present ommers json_is_arr) then inl []
  else
    let count := json_arr_len ommers in
    if count =? 0 then inl []
    else
      require (alloc_succeeds (count *64 sizeof_ommer)) JSON_ERR_ALLOC "failed to allocate ommers"
        (parse_each parse_ommer (arr_entries ommers)).

(** [out->has_x = json_get_hex_...(root, key, &out->x)] on a zeroed field. *)
Definition optional_word (root : option yyjson_val) (key : string) : bool * uint256_t := json_get_hex_uint256 root (lit key) uint256_zero.
Definition optional_u64 (root : option yyjson_val) (key : string) : bool * Z :=
  match json_get_hex_u64 root (lit key) with Some v => (true, v) | None => (false, 0) end.
Definition optional_hash (root : option yyjson_val) (key : string) : bool * hash_t := json_get_hex_hash root (lit key) hash_zero.

Definition t8n_parse_env_value (root : option yyjson_val) : parsed t8n_env_t :=
  require (present root json_is_obj) JSON_ERR_INVALID_TYPE "env must be an object"
    (required_address root "currentCoinbase" "missing currentCoinbase" (fun coinbase =>
     required_u64 root "currentGasLimit" "missing currentGasLimit" (fun gas_limit =>
     required_u64 root "currentNumber" "missing currentNumber" (fun number =>
     required_u64 root "currentTimestamp" "missing currentTimestamp" (fun timestamp =>
     let difficulty := optional_word root "currentDifficulty" in
     let prev_randao := optional_word root "currentRandom" in
     let prev_randao := if negb (fst prev_randao) then json_get_hex_uint256 root (lit "prevRandao") (snd prev_randao) else prev_randao in
     let base_fee := optional_word root "currentBaseFee" in
     let excess_blob_gas := optional_u64 root "currentExcessBlobGas" in
     let blob_gas_used := optional_u64 root "currentBlobGasUsed" in
     let parent_beacon_root := optional_hash root "parentBeaconBlockRoot" in
     let parent_base_fee := optional_word root "parentBaseFee" in
     let parent_gas_used := optional_u64 root "parentGasUsed" in
     let parent_gas_limit := optional_u64 root "parentGasLimit" in
     let parent_excess_blob_gas := optional_u64 root "parentExcessBlobGas" in
     let parent_blob_gas_used := optional_u64 root "parentBlobGasUsed" in
     let! block_hashes := parse_block_hashes root in
     let! withdrawals := parse_withdrawals root in
     let! ommers := parse_ommers root in
     inl (Env coinbase gas_limit number timestamp difficulty prev_randao base_fee excess_blob_gas blob_gas_used parent_beacon_root
            parent_base_fee parent_gas_used parent_gas_limit parent_excess_blob_gas parent_blob_gas_used block_hashes withdrawals ommers)))))).

Definition t8n_parse_env (json : json_text) : parsed t8n_env_t := parse_document (json_parse json) t8n_parse_env_value.
Definition t8n_parse_env_file (fs : file_system) (path : cstr) : parsed t8n_env_t := parse_document (json_parse_file fs path) t8n_parse_env_value.

End Env.
