(* ===== verification/T8nTxs.v ===== *)
(** The transaction files of the transition tool: include/div0/t8n/txs.h and
    src/t8n/txs.c. *)
From Stdlib Require Import ZArith Lia List Bool String.
From S2P Require Import Prelude Uint256 Types Arena Transaction TxRlp Hex Json T8nAlloc.
Import ListNotations.
#[local] Open Scope Z_scope.
#[local] Open Scope word_scope.
#[local] Open Scope json_scope.

Definition sizeof_access_list_entry : Z := 40.
Definition sizeof_uint256 : Z := 32.
Definition sizeof_authorization : Z := 112.
Definition sizeof_transaction : Z := 320.

Section Txs.
Context {Y : Yyjson}.

(** * Lists inside transactions *)

Definition parse_storage_key (v : yyjson_val) : parsed uint256_t :=
  let '(ok, key) := json_val_hex_uint256 (Some v) uint256_zero in require ok JSON_ERR_INVALID_HEX "invalid storage key" (inl key).

(** [access_list_entry_alloc_keys] needs no memory for an empty list. *)
Definition parse_storage_keys (keys_val : option yyjson_val) : parsed (list uint256_t) :=
  if present keys_val json_is_arr then
    let key_count := json_arr_len keys_val in
    require (if key_count =? 0 then true else alloc_succeeds (key_count *64 sizeof_uint256)) JSON_ERR_ALLOC "failed to allocate storage keys"
      (parse_each parse_storage_key (arr_entries keys_val))
  else inl [].

Definition parse_access_list_entry (v : yyjson_val) : parsed access_list_entry_t :=
  let entry_val := Some v in
  require (json_is_obj entry_val) JSON_ERR_INVALID_TYPE "access list entry must be an object"
    (required_address entry_val "address" "missing access list entry address" (fun address =>
     let! keys := parse_storage_keys (json_obj_get entry_val (lit "storageKeys")) in
     inl (AccessEntry address keys))).

Definition parse_access_list (arr : option yyjson_val) : parsed access_list_t :=
  if negb (present arr json_is_arr) then inl access_list_init
  else
    let count := json_arr_len arr in
    if count =? 0 then inl access_list_init
    else
      require (alloc_succeeds (count *64 sizeof_access_list_entry)) JSON_ERR_ALLOC "failed to allocate access list"
        (parse_each parse_access_list_entry (arr_entries arr)).

(** The parity from [yParity] or the low bit of [v], else [old]. *)
Definition parse_parity (obj : option yyjson_val) (old : Z) : Z :=
  match json_get_hex_u64 obj (lit "yParity") with
  | Some y => w8 y
  | None => match json_get_hex_u64 obj (lit "v") with Some y => w8 (Z.land y 1) | None => old end
  end.

Definition required_word {A} (obj : option yyjson_val) (key : string) (detail : string) (k : uint256_t -> parsed A) : parsed A :=
  let '(ok, x) := json_get_hex_uint256 obj (lit key) uint256_zero in require ok JSON_ERR_MISSING_FIELD detail (k x).

Definition parse_authorization (v : yyjson_val) : parsed authorization_t :=
  let auth_val := Some v in
  require (json_is_obj auth_val) JSON_ERR_INVALID_TYPE "authorization must be an object"
    (let chain_id := or_default (json_get_hex_u64 auth_val (lit "chainId")) 0 in
     required_address auth_val "address" "missing authorization address" (fun address =>
     required_u64 auth_val "nonce" "missing authorization nonce" (fun nonce =>
     let y_parity := parse_parity auth_val 0 in
     required_word auth_val "r" "missing authorization r" (fun r =>
     required_word auth_val "s" "missing authorization s" (fun s =>
     inl (Authorization chain_id address nonce y_parity r s)))))).

Definition parse_authorization_list (arr : option yyjson_val) : parsed authorization_list_t :=
  if negb (present arr json_is_arr) then inl authorization_list_init
  else
    let count := json_arr_len arr in
    if count =? 0 then inl authorization_list_init
    else
      require (alloc_succeeds (count *64 sizeof_authorization)) JSON_ERR_ALLOC "failed to allocate authorization list"
        (parse_each parse_authorization (arr_entries arr)).

Definition parse_blob_hash (v : yyjson_val) : parsed hash_t :=
  let '(ok, hash) := json_val_hex_hash (Some v) hash_zero in require ok JSON_ERR_INVALID_HEX "invalid blob hash" (inl hash).

Definition parse_blob_hashes (arr : option yyjson_val) : parsed (list hash_t) :=
  if negb (present arr json_is_arr) then inl []
  else
    let count := json_arr_len arr in
    if count =? 0 then inl []
    else
      require (alloc_succeeds (count *64 SIZEOF_HASH)) JSON_ERR_ALLOC "failed to allocate blob hashes"
        (parse_each parse_blob_hash (arr_entries arr)).

(** * Fields the formats share

    A call whose result is ignored, on a field that was initialised to zero. *)
Definition u64_field (obj : option yyjson_val) (key : string) : Z := or_default (json_get_hex_u64 obj (lit key)) 0.
Definition word_field (obj : option yyjson_val) (key : string) : uint256_t := snd (json_get_hex_uint256 obj (lit key) uint256_zero).

Definition gas_field (obj : option yyjson_val) : Z :=
  let gas_limit := u64_field obj "gas" in
  match json_get_hex_u64 obj (lit "gas") with
  | Some g => g
  | None => or_default (json_get_hex_u64 obj (lit "gasLimit")) gas_limit
  end.

Definition data_field (obj : option yyjson_val) : list Z :=
  let data := or_default (json_get_hex_bytes obj (lit "input")) [] in
  if Z.of_nat (List.length data) =? 0 then or_default (json_get_hex_bytes obj (lit "data")) data else data.

Definition to_field (obj : option yyjson_val) : parsed (option address_t) :=
  let to_val := json_obj_get obj (lit "to") in
  match to_val with
  | None => inl None
  | Some _ =>
      if json_is_null to_val then inl None
      else
        require (alloc_succeeds SIZEOF_ADDRESS) JSON_ERR_ALLOC "failed to allocate to address"
          (let '(ok, a) := json_val_hex_address to_val address_zero in require ok JSON_ERR_INVALID_HEX "invalid to address" (inl (Some a)))
  end.

(** * Transactions *)

Definition t8n_parse_tx (v : option yyjson_val) : parsed transaction_t :=
  let obj := v in
  require (present obj json_is_obj) JSON_ERR_INVALID_TYPE "transaction must be an object"
    (let tx_type := u64_field obj "type" in
     if tx_type =? 0 then
       let! to := to_field obj in
       inl (TX_LEGACY (LegacyTx (u64_field obj "nonce") (word_field obj "gasPrice") (gas_field obj) to (word_field obj "value") (data_field obj)
              (u64_field obj "v") (word_field obj "r") (word_field obj "s")))
     else if tx_type =? 1 then
       let! to := to_field obj in
       let! access_list := parse_access_list (json_obj_get obj (lit "accessList")) in
       inl (TX_EIP2930 (Eip2930Tx (u64_field obj "chainId") (u64_field obj "nonce") (word_field obj "gasPrice") (gas_field obj) to
              (word_field obj "value") (data_field obj) access_list (parse_parity obj 0) (word_field obj "r") (word_field obj "s")))
     else if tx_type =? 2 then
       let! to := to_field obj in
       let! access_list := parse_access_list (json_obj_get obj (lit "accessList")) in
       inl (TX_EIP1559 (Eip1559Tx (u64_field obj "chainId") (u64_field obj "nonce") (word_field obj "maxPriorityFeePerGas") (word_field obj "maxFeePerGas")
              (gas_field obj) to (word_field obj "value") (data_field obj) access_list (parse_parity obj 0) (word_field obj "r") (word_field obj "s")))
     else if tx_type =? 3 then
       required_address obj "to" "blob transaction requires to address" (fun to =>
       let! access_list := parse_access_list (json_obj_get obj (lit "accessList")) in
       let max_fee_per_blob_gas := word_field obj "maxFeePerBlobGas" in
       let! hashes := parse_blob_hashes (json_obj_get obj (lit "blobVersionedHashes")) in
       inl (TX_EIP4844 (Eip4844Tx (u64_field obj "chainId") (u64_field obj "nonce") (word_field obj "maxPriorityFeePerGas") (word_field obj "maxFeePerGas")
              (gas_field obj) to (word_field obj "value") (data_field obj) access_list max_fee_per_blob_gas hashes (parse_parity obj 0)
              (word_field obj "r") (word_field obj "s"))))
     else if tx_type =? 4 then
       required_address obj "to" "EIP-7702 transaction requires to address" (fun to =>
       let! access_list := parse_access_list (json_obj_get obj (lit "accessList")) in
       let! auths := parse_authorization_list (json_obj_get obj (lit "authorizationList")) in
       inl (TX_EIP7702 (Eip7702Tx (u64_field obj "chainId") (u64_field obj "nonce") (word_field obj "maxPriorityFeePerGas") (word_field obj "maxFeePerGas")
              (gas_field obj) to (word_field obj "value") (data_field obj) access_list auths (parse_parity obj 0)
              (word_field obj "r") (word_field obj "s"))))
     else fails JSON_ERR_INVALID_TYPE "unsupported transaction type").

Definition t8n_parse_txs_value (arr : option yyjson_val) : parsed (list transaction_t) :=
  require (present arr json_is_arr) JSON_ERR_INVALID_TYPE "txs must be an array"
    (let count := json_arr_len arr in
     if count =? 0 then inl []
     else
       require (alloc_succeeds (count *64 sizeof_transaction)) JSON_ERR_ALLOC "failed to allocate transactions"
         (parse_each (fun v => t8n_parse_tx (Some v)) (arr_entries arr))).

Definition t8n_parse_txs (json : json_text) : parsed (list transaction_t) := parse_document (json_parse json) t8n_parse_txs_value.
Definition t8n_parse_txs_file (fs : file_system) (path : cstr) : parsed (list transaction_t) := parse_document (json_parse_file fs path) t8n_parse_txs_value.

(** * Serialization *)

Context {YM : YyjsonMut}.

(** [false] when a key cannot be created, which ends the function with null. *)
Fixpoint write_keys (keys : list uint256_t) (keys_arr : option mut_val) : W bool :=
  match keys with
  | [] => w_ret true
  | k :: rest =>
      let* key := json_write_hex_uint256_padded k in
      match key with None => w_ret false | Some _ => json_arr_append keys_arr key ;;; write_keys rest keys_arr end
  end.

Fixpoint write_entries (l : list access_list_entry_t) (arr : option mut_val) : W (option mut_val) :=
  match l with
  | [] => w_ret arr
  | entry :: rest =>
      let* entry_obj := json_write_obj in
      match entry_obj with
      | None => w_ret None
      | Some _ =>
          json_obj_add_hex_address entry_obj (lit "address") (ent_address entry) ;;;
          let* keys_arr := json_write_arr in
          match keys_arr with
          | None => w_ret None
          | Some _ =>
              let* ok := write_keys (ent_keys entry) keys_arr in
              if ok then
                json_obj_add entry_obj (lit "storageKeys") keys_arr ;;;
                json_arr_append arr entry_obj ;;;
                write_entries rest arr
              else w_ret None
          end
      end
  end.

Definition write_access_list (l : access_list_t) : W (option mut_val) :=
  let* arr := json_write_arr in
  match arr with None => w_ret None | Some _ => write_entries l arr end.

Fixpoint write_hashes (l : list hash_t) (arr : option mut_val) : W (option mut_val) :=
  match l with
  | [] => w_ret arr
  | h :: rest =>
      let* hash := json_write_hex_hash h in
      match hash with None => w_ret None | Some _ => json_arr_append arr hash ;;; write_hashes rest arr end
  end.

Definition write_blob_hashes (hashes : list hash_t) : W (option mut_val) :=
  let* arr := json_write_arr in
  match arr with None => w_ret None | Some _ => write_hashes hashes arr end.

Fixpoint write_authorizations (l : authorization_list_t) (arr : option mut_val) : W (option mut_val) :=
  match l with
  | [] => w_ret arr
  | auth :: rest =>
      let* auth_obj := json_write_obj in
      match auth_obj with
      | None => w_ret None
      | Some _ =>
          json_obj_add_hex_u64 auth_obj (lit "chainId") (auth_chain_id auth) ;;;
          json_obj_add_hex_address auth_obj (lit "address") (auth_address auth) ;;;
          json_obj_add_hex_u64 auth_obj (lit "nonce") (auth_nonce auth) ;;;
          json_obj_add_hex_u64 auth_obj (lit "yParity") (auth_y_parity auth) ;;;
          json_obj_add_hex_uint256 auth_obj (lit "r") (auth_r auth) ;;;
          json_obj_add_hex_uint256 auth_obj (lit "s") (auth_s auth) ;;;
          json_arr_append arr auth_obj ;;;
          write_authorizations rest arr
      end
  end.

Definition write_authorization_list (l : authorization_list_t) : W (option mut_val) :=
  let* arr := json_write_arr in
  match arr with None => w_ret None | Some _ => write_authorizations l arr end.

Definition write_to (obj : option mut_val) (to : option address_t) : W bool :=
  match to with
  | Some a => json_obj_add_hex_address obj (lit "to") a
  | None => json_obj_add_null obj (lit "to")
  end.

Definition t8n_write_tx (tx : transaction_t) : W (option mut_val) :=
  let* obj := json_write_obj in
  match obj with
  | None => w_ret None
  | Some _ =>
      json_obj_add_hex_u64 obj (lit "type") (tx_type tx) ;;;
      match tx with
      | TX_LEGACY t =>
          json_obj_add_hex_u64 obj (lit "nonce") (leg_nonce t) ;;;
          json_obj_add_hex_uint256 obj (lit "gasPrice") (leg_gas_price t) ;;;
          json_obj_add_hex_u64 obj (lit "gas") (leg_gas_limit t) ;;;
          write_to obj (leg_to t) ;;;
          json_obj_add_hex_uint256 obj (lit "value") (leg_value t) ;;;
          json_obj_add_hex_bytes obj (lit "input") (leg_data t) ;;;
          json_obj_add_hex_u64 obj (lit "v") (leg_v t) ;;;
          json_obj_add_hex_uint256 obj (lit "r") (leg_r t) ;;;
          json_obj_add_hex_uint256 obj (lit "s") (leg_s t)
      | TX_EIP2930 t =>
          json_obj_add_hex_u64 obj (lit "chainId") (t1_chain_id t) ;;;
          json_obj_add_hex_u64 obj (lit "nonce") (t1_nonce t) ;;;
          json_obj_add_hex_uint256 obj (lit "gasPrice") (t1_gas_price t) ;;;
          json_obj_add_hex_u64 obj (lit "gas") (t1_gas_limit t) ;;;
          write_to obj (t1_to t) ;;;
          json_obj_add_hex_uint256 obj (lit "value") (t1_value t) ;;;
          json_obj_add_hex_bytes obj (lit "input") (t1_data t) ;;;
          let* access_list := write_access_list (t1_access_list t) in
          json_obj_add obj (lit "accessList") access_list ;;;
          json_obj_add_hex_u64 obj (lit "yParity") (t1_y_parity t) ;;;
          json_obj_add_hex_uint256 obj (lit "r") (t1_r t) ;;;
          json_obj_add_hex_uint256 obj (lit "s") (t1_s t)
      | TX_EIP1559 t =>
          json_obj_add_hex_u64 obj (lit "chainId") (t2_chain_id t) ;;;
          json_obj_add_hex_u64 obj (lit "nonce") (t2_nonce t) ;;;
          json_obj_add_hex_uint256 obj (lit "maxPriorityFeePerGas") (t2_max_priority_fee_per_gas t) ;;;
          json_obj_add_hex_uint256 obj (lit "maxFeePerGas") (t2_max_fee_per_gas t) ;;;
          json_obj_add_hex_u64 obj (lit "gas") (t2_gas_limit t) ;;;
          write_to obj (t2_to t) ;;;
          json_obj_add_hex_uint256 obj (lit "value") (t2_value t) ;;;
          json_obj_add_hex_bytes obj (lit "input") (t2_data t) ;;;
          let* access_list := write_access_list (t2_access_list t) in
          json_obj_add obj (lit "accessList") access_list ;;;
          json_obj_add_hex_u64 obj (lit "yParity") (t2_y_parity t) ;;;
          json_obj_add_hex_uint256 obj (lit "r") (t2_r t) ;;;
          json_obj_add_hex_uint256 obj (lit "s") (t2_s t)
      | TX_EIP4844 t =>
          json_obj_add_hex_u64 obj (lit "chainId") (t3_chain_id t) ;;;
          json_obj_add_hex_u64 obj (lit "nonce") (t3_nonce t) ;;;
          json_obj_add_hex_uint256 obj (lit "maxPriorityFeePerGas") (t3_max_priority_fee_per_gas t) ;;;
          json_obj_add_hex_uint256 obj (lit "maxFeePerGas") (t3_max_fee_per_gas t) ;;;
          json_obj_add_hex_u64 obj (lit "gas") (t3_gas_limit t) ;;;
          json_obj_add_hex_address obj (lit "to") (t3_to t) ;;;
          json_obj_add_hex_uint256 obj (lit "value") (t3_value t) ;;;
          json_obj_add_hex_bytes obj (lit "input") (t3_data t) ;;;
          json_obj_add_hex_uint256 obj (lit "maxFeePerBlobGas") (t3_max_fee_per_blob_gas t) ;;;
          let* hashes := write_blob_hashes (t3_blob_versioned_hashes t) in
          json_obj_add obj (lit "blobVersionedHashes") hashes ;;;
          let* access_list := write_access_list (t3_access_list t) in
          json_obj_add obj (lit "accessList") access_list ;;;
          json_obj_add_hex_u64 obj (lit "yParity") (t3_y_parity t) ;;;
          json_obj_add_hex_uint256 obj (lit "r") (t3_r t) ;;;
          json_obj_add_hex_uint256 obj (lit "s") (t3_s t)
      | TX_EIP7702 t =>
          json_obj_add_hex_u64 obj (lit "chainId") (t4_chain_id t) ;;;
          json_obj_add_hex_u64 obj (lit "nonce") (t4_nonce t) ;;;
          json_obj_add_hex_uint256 obj (lit "maxPriorityFeePerGas") (t4_max_priority_fee_per_gas t) ;;;
          json_obj_add_hex_uint256 obj (lit "maxFeePerGas") (t4_max_fee_per_gas t) ;;;
          json_obj_add_hex_u64 obj (lit "gas") (t4_gas_limit t) ;;;
          json_obj_add_hex_address obj (lit "to") (t4_to t) ;;;
          json_obj_add_hex_uint256 obj (lit "value") (t4_value t) ;;;
          json_obj_add_hex_bytes obj (lit "input") (t4_data t) ;;;
          let* access_list := write_access_list (t4_access_list t) in
          json_obj_add obj (lit "accessList") access_list ;;;
          let* auths := write_authorization_list (t4_authorization_list t) in
          json_obj_add obj (lit "authorizationList") auths ;;;
          json_obj_add_hex_u64 obj (lit "yParity") (t4_y_parity t) ;;;
          json_obj_add_hex_uint256 obj (lit "r") (t4_r t) ;;;
          json_obj_add_hex_uint256 obj (lit "s") (t4_s t)
      end ;;;
      w_ret obj
  end.

Fixpoint write_transactions (l : list transaction_t) (arr : option mut_val) : W (option mut_val) :=
  match l with
  | [] => w_ret arr
  | tx :: rest =>
      let* tx_obj := t8n_write_tx tx in
      match tx_obj with None => w_ret None | Some _ => json_arr_append arr tx_obj ;;; write_transactions rest arr end
  end.

Definition t8n_write_txs (txs : list transaction_t) : W (option mut_val) :=
  let* arr := json_write_arr in
  match arr with None => w_ret None | Some _ => write_transactions txs arr end.

End Txs.
