(* ===== verification/T8nResult.v ===== *)
(** The result files of the transition tool: include/div0/t8n/result.h and
    src/t8n/result.c. *)
From Stdlib Require Import ZArith Lia List Bool String.
From S2P Require Import Prelude Uint256 Types Hex Json.
Import ListNotations.
#[local] Open Scope Z_scope.
#[local] Open Scope json_scope.

(** * result.h *)

Record t8n_log_t := T8nLog { tl_address : address_t; tl_topics : list hash_t; tl_data : list Z }.

Record t8n_receipt_t := T8nReceipt {
  tr_type : Z; tr_tx_hash : hash_t; tr_transaction_index : Z; tr_gas_used : Z; tr_cumulative_gas : Z; tr_status : bool;
  tr_bloom : list Z; tr_logs : list t8n_log_t; tr_contract_address : option address_t }.

Record t8n_rejected_tx_t := T8nRejected { rj_index : Z; rj_error : cstr }.

(** Each optional field with its [has_] flag; [tx_hashes] is never written. *)
Record t8n_result_t := T8nResult {
  rs_state_root : hash_t; rs_tx_root : hash_t; rs_receipts_root : hash_t; rs_logs_hash : hash_t; rs_logs_bloom : list Z;
  rs_gas_used : Z; rs_blob_gas_used : bool * Z; rs_receipts : list t8n_receipt_t; rs_tx_hashes : list hash_t;
  rs_rejected : list t8n_rejected_tx_t; rs_current_difficulty : bool * uint256_t; rs_current_base_fee : bool * uint256_t;
  rs_withdrawals_root : bool * hash_t; rs_current_excess_blob_gas : bool * Z; rs_requests_hash : bool * hash_t }.

Definition BLOOM_SIZE : nat := 256.

Definition t8n_result_init : t8n_result_t :=
  T8nResult hash_zero hash_zero hash_zero hash_zero (repeat 0 BLOOM_SIZE) 0 (false, 0) [] [] [] (false, uint256_zero) (false, uint256_zero)
    (false, hash_zero) (false, 0) (false, hash_zero).

(** * result.c *)

Section Result.
Context {Y : Yyjson} {YM : YyjsonMut}.

Fixpoint write_topics (l : list hash_t) (arr : option mut_val) : W unit :=
  match l with
  | [] => w_ret tt
  | h :: rest => (let* topic := json_write_hex_hash h in json_arr_append arr topic) ;;; write_topics rest arr
  end.

Definition t8n_write_log (log : t8n_log_t) : W (option mut_val) :=
  let* obj := json_write_obj in
  match obj with
  | None => w_ret None
  | Some _ =>
      json_obj_add_hex_address obj (lit "address") (tl_address log) ;;;
      let* topics_arr := json_write_arr in
      write_topics (tl_topics log) topics_arr ;;;
      json_obj_add obj (lit "topics") topics_arr ;;;
      json_obj_add_hex_bytes obj (lit "data") (tl_data log) ;;;
      w_ret obj
  end.

(** A loop that appends what [write] makes and gives up when that is null. *)
Fixpoint append_each {A} (write : A -> W (option mut_val)) (l : list A) (arr : option mut_val) : W bool :=
  match l with
  | [] => w_ret true
  | x :: rest =>
      let* obj := write x in
      match obj with None => w_ret false | Some _ => json_arr_append arr obj ;;; append_each write rest arr end
  end.

Definition t8n_write_receipt (receipt : t8n_receipt_t) : W (option mut_val) :=
  let* obj := json_write_obj in
  match obj with
  | None => w_ret None
  | Some _ =>
      json_obj_add_hex_u64 obj (lit "type") (tr_type receipt) ;;;
      json_obj_add_hex_hash obj (lit "transactionHash") (tr_tx_hash receipt) ;;;
      json_obj_add_hex_u64 obj (lit "transactionIndex") (tr_transaction_index receipt) ;;;
      json_obj_add_hex_u64 obj (lit "gasUsed") (tr_gas_used receipt) ;;;
      json_obj_add_hex_u64 obj (lit "cumulativeGasUsed") (tr_cumulative_gas receipt) ;;;
      json_obj_add_hex_u64 obj (lit "status") (if tr_status receipt then 1 else 0) ;;;
      json_obj_add_hex_bytes obj (lit "logsBloom") (tr_bloom receipt) ;;;
      let* logs_arr := json_write_arr in
      let* ok := append_each t8n_write_log (tr_logs receipt) logs_arr in
      if ok then
        json_obj_add obj (lit "logs") logs_arr ;;;
        match tr_contract_address receipt with
        | Some a => json_obj_add_hex_address obj (lit "contractAddress") a
        | None => w_ret true
        end ;;;
        w_ret obj
      else w_ret None
  end.

Fixpoint write_rejected (l : list t8n_rejected_tx_t) (arr : option mut_val) : W unit :=
  match l with
  | [] => w_ret tt
  | r :: rest =>
      (let* rej_obj := json_write_obj in
       json_obj_add_u64 rej_obj (lit "index") (rj_index r) ;;;
       json_obj_add_str rej_obj (lit "error") (rj_error r) ;;;
       json_arr_append arr rej_obj) ;;;
      write_rejected rest arr
  end.

(** [if (result->has_x) json_obj_add_...(w, obj, key, x);] *)
Definition add_if {A} (x : bool * A) (add : A -> W bool) : W bool := if fst x then add (snd x) else w_ret true.

Definition t8n_write_result (result : t8n_result_t) : W (option mut_val) :=
  let* obj := json_write_obj in
  match obj with
  | None => w_ret None
  | Some _ =>
      json_obj_add_hex_hash obj (lit "stateRoot") (rs_state_root result) ;;;
      json_obj_add_hex_hash obj (lit "txRoot") (rs_tx_root result) ;;;
      json_obj_add_hex_hash obj (lit "receiptsRoot") (rs_receipts_root result) ;;;
      json_obj_add_hex_hash obj (lit "logsHash") (rs_logs_hash result) ;;;
      json_obj_add_hex_bytes obj (lit "logsBloom") (rs_logs_bloom result) ;;;
      json_obj_add_hex_u64 obj (lit "gasUsed") (rs_gas_used result) ;;;
      add_if (rs_blob_gas_used result) (json_obj_add_hex_u64 obj (lit "blobGasUsed")) ;;;
      let* receipts_arr := json_write_arr in
      let* ok := append_each t8n_write_receipt (rs_receipts result) receipts_arr in
      if ok then
        json_obj_add obj (lit "receipts") receipts_arr ;;;
        (if Z.of_nat (List.length (rs_rejected result)) >? 0 then
           let* rejected_arr := json_write_arr in
           write_rejected (rs_rejected result) rejected_arr ;;;
           json_obj_add obj (lit "rejected") rejected_arr
         else w_ret true) ;;;
        add_if (rs_current_difficulty result) (json_obj_add_hex_uint256 obj (lit "currentDifficulty")) ;;;
        add_if (rs_current_base_fee result) (json_obj_add_hex_uint256 obj (lit "currentBaseFee")) ;;;
        add_if (rs_withdrawals_root result) (json_obj_add_hex_hash obj (lit "withdrawalsRoot")) ;;;
        add_if (rs_current_excess_blob_gas result) (json_obj_add_hex_u64 obj (lit "currentExcessBlobGas")) ;;;
        add_if (rs_requests_hash result) (json_obj_add_hex_hash obj (lit "requestsHash")) ;;;
        w_ret obj
      else w_ret None
  end.

End Result.
