(* ===== verification/JsonSpec.v ===== *)
(** JSON documents as trees: what the program relies on of yyjson, and rules
    for code that reads and builds documents.

    [shows v t] says that the value at [v] of a parsed document is the tree
    [t]. [holds d l] says that the document [d] under construction contains the
    detached values [l], each a pointer with its tree; no value is part of
    another, so changing one leaves the others alone. *)
From Stdlib Require Import ZArith Lia List Bool String Permutation.
From S2P Require Import Prelude Uint256 Types Arena Hex HexSpec Json T8nAlloc.
Import ListNotations.
#[local] Open Scope Z_scope.
#[local] Open Scope json_scope.
#[local] Set Warnings "-register-all".

(** * Trees *)

(** Numbers are kept in the three forms of yyjson, reals by their bits. *)
Inductive json :=
| JNull
| JBool (b : bool)
| JUint (n : Z)
| JSint (n : Z)
| JReal (bits : Z)
| JStr (s : list Z)
| JArr (l : list json)
| JObj (m : list (list Z * json)).

Definition is_JNull (t : json) : bool := match t with JNull => true | _ => false end.
Definition is_JStr (t : json) : bool := match t with JStr _ => true | _ => false end.
Definition is_JArr (t : json) : bool := match t with JArr _ => true | _ => false end.
Definition is_JObj (t : json) : bool := match t with JObj _ => true | _ => false end.

(** The characters before the first NUL. *)
Fixpoint c_string (s : list Z) : cstr :=
  match s with
  | [] => []
  | c :: rest => if c =? 0 then [] else c :: c_string rest
  end.

(** The linear search of [yyjson_obj_get]. *)
Fixpoint find_key (m : list (list Z * json)) (key : cstr) : option json :=
  match m with
  | [] => None
  | (k, t) :: rest => if bytes_eqb k key then Some t else find_key rest key
  end.

(** What is written is text that can be read back: strings of ASCII
    characters, no NUL, and unsigned numbers. *)
Definition ascii_char (c : Z) : Prop := 1 <= c < 128.

Inductive printable : json -> Prop :=
| printable_null : printable JNull
| printable_bool b : printable (JBool b)
| printable_uint n : u64 n -> printable (JUint n)
| printable_str s : Forall ascii_char s -> printable (JStr s)
| printable_arr l : Forall printable l -> printable (JArr l)
| printable_obj m : Forall (fun kt => Forall ascii_char (fst kt) /\ printable (snd kt)) m -> printable (JObj m).

Definition printable_member (kt : list Z * json) : Prop := Forall ascii_char (fst kt) /\ printable (snd kt).

Lemma ascii_check s : forallb (fun c => (1 <=? c) && (c <? 128)) s = true -> Forall ascii_char s.
Proof. intros H. apply Forall_forall. intros c I. rewrite forallb_forall in H. specialize (H c I). unfold ascii_char. lia. Qed.

Lemma printable_field key t : forallb (fun c => (1 <=? c) && (c <? 128)) (lit key) = true -> printable t -> printable_member (lit key, t).
Proof. intros K T. split; [apply ascii_check, K | exact T]. Qed.

Create HintDb json_db.
#[export] Hint Constructors printable : json_db.

(** * What reading relies on *)

Section Walks.
Context {Y : Yyjson}.
Variable shows : yyjson_val -> json -> Prop.

(** The entries behind a pointer to the first key, or the first element. *)
Fixpoint obj_walk (p : yyjson_val) (m : list (list Z * json)) : Prop :=
  match m with
  | [] => True
  | (k, t) :: rest =>
      yyjson_get_str (Some p) = Some (c_string k) /\ shows (yyjson_slot_after p) t /\ obj_walk (unsafe_yyjson_get_next (yyjson_slot_after p)) rest
  end.

Fixpoint arr_walk (p : yyjson_val) (l : list json) : Prop :=
  match l with
  | [] => True
  | t :: rest => shows p t /\ arr_walk (unsafe_yyjson_get_next p) rest
  end.
End Walks.

Class YyjsonLaws {Y : Yyjson} := {
  shows : yyjson_val -> json -> Prop;
  is_null_shows : forall v t, shows v t -> yyjson_is_null (Some v) = is_JNull t;
  is_str_shows : forall v t, shows v t -> yyjson_is_str (Some v) = is_JStr t;
  is_obj_shows : forall v t, shows v t -> yyjson_is_obj (Some v) = is_JObj t;
  is_arr_shows : forall v t, shows v t -> yyjson_is_arr (Some v) = is_JArr t;
  get_str_shows : forall v s, shows v (JStr s) -> yyjson_get_str (Some v) = Some (c_string s);
  obj_get_shows : forall v m key, shows v (JObj m) ->
    match find_key m key with
    | Some t => exists u, yyjson_obj_get (Some v) key = Some u /\ shows u t
    | None => yyjson_obj_get (Some v) key = None
    end;
  obj_size_shows : forall v m, shows v (JObj m) -> yyjson_obj_size (Some v) = Z.of_nat (List.length m);
  arr_size_shows : forall v l, shows v (JArr l) -> yyjson_arr_size (Some v) = Z.of_nat (List.length l);
  obj_first_shows : forall v m, shows v (JObj m) -> obj_walk shows (unsafe_yyjson_get_first v) m;
  arr_first_shows : forall v l, shows v (JArr l) -> arr_walk shows (unsafe_yyjson_get_first v) l }.

(** * What building relies on *)

(** [makes new t]: the call gives a new value [t] and keeps what was there. *)
Definition makes {Y : Yyjson} {YM : YyjsonMut} (holds : mut_doc -> list (mut_val * json) -> Prop) (new : mut_doc -> mut_doc * option mut_val) (t : json) : Prop :=
  forall d l, holds d l -> exists d' p, new d = (d', Some p) /\ holds d' ((p, t) :: l).

(** Memory for the document is always available. A text or file that was
    written is read back as the tree that was its root. *)
Class YyjsonMutLaws {Y : Yyjson} {YM : YyjsonMut} {YL : YyjsonLaws} := {
  holds : mut_doc -> list (mut_val * json) -> Prop;
  holds_perm : forall d l l', Permutation l l' -> holds d l -> holds d l';
  doc_new_holds : exists d, yyjson_mut_doc_new = Some d /\ holds d [];
  obj_makes : makes holds yyjson_mut_obj (JObj []);
  arr_makes : makes holds yyjson_mut_arr (JArr []);
  strcpy_makes : forall s, makes holds (fun d => yyjson_mut_strcpy d s) (JStr s);
  obj_add_holds : forall d o m k s v t l, holds d ((o, JObj m) :: (k, JStr s) :: (v, t) :: l) ->
    exists d', yyjson_mut_obj_add d (Some o) (Some k) (Some v) = (d', true) /\ holds d' ((o, JObj (m ++ [(s, t)])) :: l);
  obj_add_val_holds : forall d o m key v t l, holds d ((o, JObj m) :: (v, t) :: l) ->
    exists d', yyjson_mut_obj_add_val d (Some o) key (Some v) = (d', true) /\ holds d' ((o, JObj (m ++ [(key, t)])) :: l);
  obj_add_null_holds : forall d o m key l, holds d ((o, JObj m) :: l) ->
    exists d', yyjson_mut_obj_add_null d (Some o) key = (d', true) /\ holds d' ((o, JObj (m ++ [(key, JNull)])) :: l);
  obj_add_uint_holds : forall d o m key n l, holds d ((o, JObj m) :: l) ->
    exists d', yyjson_mut_obj_add_uint d (Some o) key n = (d', true) /\ holds d' ((o, JObj (m ++ [(key, JUint n)])) :: l);
  obj_add_strcpy_holds : forall d o m key s l, holds d ((o, JObj m) :: l) ->
    exists d', yyjson_mut_obj_add_strcpy d (Some o) key s = (d', true) /\ holds d' ((o, JObj (m ++ [(key, JStr s)])) :: l);
  arr_append_holds : forall d a xs v t l, holds d ((a, JArr xs) :: (v, t) :: l) ->
    exists d', yyjson_mut_arr_append d (Some a) (Some v) = (d', true) /\ holds d' ((a, JArr (xs ++ [t])) :: l);
  write_opts_holds : forall d p t l pretty, holds d ((p, t) :: l) -> printable t ->
    exists text doc v, yyjson_mut_write_opts (yyjson_mut_doc_set_root d p) pretty = Some text /\
      yyjson_read_opts text = inl doc /\ yyjson_doc_get_root doc = Some v /\ shows v t;
  write_file_holds : forall d p t l fs fs' path pretty, holds d ((p, t) :: l) -> printable t ->
    yyjson_mut_write_file fs path (yyjson_mut_doc_set_root d p) pretty = (fs', None) ->
    exists doc v, yyjson_read_file fs' path = inl doc /\ yyjson_doc_get_root doc = Some v /\ shows v t }.

(** * Rules for reading *)

Section Reading.
Context {Y : Yyjson} {YL : YyjsonLaws}.

Lemma c_string_ascii s : Forall ascii_char s -> c_string s = s.
Proof. induction 1 as [|c s C _ IH]; cbn [c_string]; [reflexivity|]. unfold ascii_char in C. rewrite (proj2 (Z.eqb_neq _ _)), IH by lia. reflexivity. Qed.

Lemma obj_iterate_spec m : forall fuel p i n, obj_walk shows p m -> 0 <= i -> i + Z.of_nat (List.length m) = n -> n < 2 ^ 64 -> (List.length m < fuel)%nat ->
  exists vs, obj_iterate fuel (ObjIter (Some p) i n) = combine (map (fun kt => Some (c_string (fst kt))) m) vs /\ Forall2 (fun v kt => shows v (snd kt)) vs m.
Proof.
  induction m as [|[k t] m IH]; intros fuel p i n P I N U F; (destruct fuel as [|fuel]; [cbn [List.length] in F; lia|]); cbn [obj_iterate List.length] in *; unfold json_obj_iter_next; cbn [oi_idx oi_max oi_cur].
  - rewrite (proj2 (Z.geb_le _ _)) by lia. exists []. split; constructor.
  - rewrite Z.geb_leb, (proj2 (Z.leb_gt _ _)) by lia. destruct P as (K & S & P). rewrite K. unfold add64. rewrite w64_small by (unfold u64; lia).
    destruct (IH fuel _ (i + 1) n P ltac:(lia) ltac:(lia) U ltac:(lia)) as (vs & -> & F2). exists (yyjson_slot_after p :: vs). split; [reflexivity|]. constructor; assumption.
Qed.

(** The loops over an object see its entries in order. *)
Lemma obj_entries_spec v m : shows v (JObj m) -> Z.of_nat (List.length m) < 2 ^ 64 ->
  exists vs, obj_entries (Some v) = combine (map (fun kt => Some (c_string (fst kt))) m) vs /\ Forall2 (fun v kt => shows v (snd kt)) vs m.
Proof.
  intros S U. unfold obj_entries, json_obj_iter. rewrite (is_obj_shows v _ S), (obj_size_shows v m S). cbn [negb is_JObj oi_max]. rewrite Nat2Z.id. destruct m as [|kt m].
  - exists []. split; constructor.
  - rewrite (proj2 (Z.gtb_lt _ _)) by (cbn [List.length]; lia). apply obj_iterate_spec; [apply (obj_first_shows v _ S) | lia | lia | exact U | lia].
Qed.

Lemma arr_iterate_spec l : forall fuel p i n, arr_walk shows p l -> 0 <= i -> i + Z.of_nat (List.length l) = n -> n < 2 ^ 64 -> (List.length l < fuel)%nat ->
  Forall2 shows (arr_iterate fuel (ArrIter (Some p) i n)) l.
Proof.
  induction l as [|t l IH]; intros fuel p i n P I N U F; (destruct fuel as [|fuel]; [cbn [List.length] in F; lia|]); cbn [arr_iterate List.length] in *; unfold json_arr_iter_next; cbn [ai_idx ai_max ai_cur].
  - rewrite (proj2 (Z.geb_le _ _)) by lia. constructor.
  - rewrite Z.geb_leb, (proj2 (Z.leb_gt _ _)) by lia. destruct P as [S P]. unfold add64. rewrite w64_small by (unfold u64; lia). constructor; [exact S|]. apply IH; [exact P | lia | lia | exact U | lia].
Qed.

Lemma arr_entries_spec v l : shows v (JArr l) -> Z.of_nat (List.length l) < 2 ^ 64 -> Forall2 shows (arr_entries (Some v)) l.
Proof.
  intros S U. unfold arr_entries, json_arr_iter. rewrite (is_arr_shows v _ S), (arr_size_shows v l S). cbn [negb is_JArr ai_max]. rewrite Nat2Z.id. destruct l as [|t l]; [constructor|].
  rewrite (proj2 (Z.gtb_lt _ _)) by (cbn [List.length]; lia). apply arr_iterate_spec; [apply (arr_first_shows v _ S) | lia | lia | exact U | lia].
Qed.

(** Reading a string value. *)
Lemma string_value v s : shows v (JStr s) -> not_a_string (Some v) = false /\ yyjson_get_str (Some v) = Some (c_string s).
Proof. intros S. unfold not_a_string. rewrite (is_str_shows v _ S). cbn [is_JStr negb]. split; [reflexivity | apply get_str_shows, S]. Qed.

(** Hexadecimal text is made of ASCII characters. *)
Lemma ascii_plain s : Forall plain_char s -> Forall ascii_char s.
Proof. apply Forall_impl. unfold plain_char, ascii_char. lia. Qed.

Lemma ascii_numeral n v s : numeral n v s -> Forall ascii_char s.
Proof. intros N. apply ascii_plain, (plain_numeral n v s N). Qed.

Lemma ascii_encode bs : bytes_ok bs -> Forall ascii_char (hex_encode bs).
Proof. intros B. apply ascii_plain, plain_encode, B. Qed.

Lemma ascii_padded x : wf256 x -> Forall ascii_char (hex_encode_uint256_padded x).
Proof. intros W. unfold hex_encode_uint256_padded. rewrite uint256_to_bytes_be_spec by exact W. apply (ascii_encode (be_bytes 32 (val x))), be_bytes_ok. Qed.

Lemma ascii_word x : wf256 x -> Forall ascii_char (hex_encode_uint256 x).
Proof. intros W. exact (ascii_numeral _ _ _ (hex_encode_uint256_numeral x W)). Qed.

Lemma ascii_u64 n : u64 n -> Forall ascii_char (hex_encode_u64 n).
Proof. intros U. exact (ascii_numeral _ _ _ (hex_encode_u64_numeral n U)). Qed.

Lemma printable_word x : wf256 x -> printable (JStr (hex_encode_uint256 x)).
Proof. intros W. constructor. apply ascii_word, W. Qed.

Lemma printable_padded x : wf256 x -> printable (JStr (hex_encode_uint256_padded x)).
Proof. intros W. constructor. apply ascii_padded, W. Qed.

Lemma printable_u64 n : u64 n -> printable (JStr (hex_encode_u64 n)).
Proof. intros W. constructor. apply ascii_u64, W. Qed.

Lemma printable_bytes bs : bytes_ok bs -> printable (JStr (hex_encode bs)).
Proof. intros W. constructor. apply ascii_encode, W. Qed.

(** String values that hold a padded word or bytes. *)
Lemma value_padded v x out : shows v (JStr (hex_encode_uint256_padded x)) -> wf256 x -> json_val_hex_uint256 (Some v) out = (true, x).
Proof. intros S W. unfold json_val_hex_uint256. destruct (string_value v _ S) as [-> ->]. rewrite c_string_ascii by (apply ascii_padded, W). apply decode_encode_padded, W. Qed.

Lemma value_bytes v bs out : shows v (JStr (hex_encode bs)) -> bytes_ok bs -> List.length out = List.length bs -> (List.length bs <= 32)%nat -> not_a_string (Some v) = false /\ hex_decode (yyjson_get_str (Some v)) out = (true, bs).
Proof. intros S B L L'. destruct (string_value v _ S) as [-> ->]. split; [reflexivity|]. rewrite c_string_ascii by (apply ascii_encode, B). apply hex_decode_encode; [exact B | exact L | lia]. Qed.

Lemma hex_bytes_encode bs : bytes_ok bs -> Z.of_nat (List.length bs) <= DIV0_ARENA_BLOCK_SIZE -> hex_bytes_of (Some (hex_encode bs)) = Some bs.
Proof.
  unfold DIV0_ARENA_BLOCK_SIZE. intros B L. unfold hex_bytes_of, hex_strlen. assert (E : strlen (skip_0x_prefix (hex_encode bs)) = Z.of_nat (List.length bs) * 2).
  { rewrite hex_encode_digits, skip_prefix_lit by exact B. unfold strlen. rewrite length_map, length_byte_digits. lia. }
  rewrite E. destruct (Z.eqb_spec (Z.of_nat (List.length bs) * 2) 0) as [Z0|N]; [destruct bs; [reflexivity | cbn [List.length] in Z0; lia]|].
  rewrite Z_mod_mult, Z.div_mul by lia. cbn [Z.eqb negb]. unfold alloc_succeeds, DIV0_ARENA_BLOCK_SIZE. rewrite (proj2 (Z.ltb_lt _ _)), (proj2 (Z.leb_le _ _)) by lia. cbn [andb negb].
  rewrite hex_decode_encode; [reflexivity | exact B | rewrite repeat_length; lia | lia].
Qed.

(** The fields of an object. *)
Section Fields_of.
Variables (v : yyjson_val) (m : list (list Z * json)).
Hypothesis S : shows v (JObj m).

Lemma field_missing key : find_key m key = None -> yyjson_obj_get (Some v) key = None.
Proof. intros F. pose proof (obj_get_shows v m key S) as G. rewrite F in G. exact G. Qed.

Lemma field_present key t : find_key m key = Some t -> exists u, yyjson_obj_get (Some v) key = Some u /\ shows u t.
Proof. intros F. pose proof (obj_get_shows v m key S) as G. rewrite F in G. exact G. Qed.

Lemma field_string key s : find_key m key = Some (JStr s) ->
  not_a_string (yyjson_obj_get (Some v) key) = false /\ yyjson_get_str (yyjson_obj_get (Some v) key) = Some (c_string s).
Proof. intros F. destruct (field_present key _ F) as (u & -> & U). apply string_value, U. Qed.

Lemma field_u64 key n : find_key m key = Some (JStr (hex_encode_u64 n)) -> u64 n -> json_get_hex_u64 (Some v) key = Some n.
Proof.
  intros F U. unfold json_get_hex_u64. destruct (field_string key _ F) as [-> ->]. rewrite c_string_ascii by (apply ascii_u64, U). apply decode_encode_u64, U.
Qed.

Lemma field_no_u64 key : find_key m key = None -> json_get_hex_u64 (Some v) key = None.
Proof. intros F. unfold json_get_hex_u64. rewrite field_missing by exact F. reflexivity. Qed.

Lemma field_no_bytes key : find_key m key = None -> json_get_hex_bytes (Some v) key = None.
Proof. intros F. unfold json_get_hex_bytes. rewrite field_missing by exact F. reflexivity. Qed.

Lemma field_word key x out : find_key m key = Some (JStr (hex_encode_uint256 x)) -> wf256 x -> json_get_hex_uint256 (Some v) key out = (true, x).
Proof. intros F W. unfold json_get_hex_uint256. destruct (field_string key _ F) as [-> ->]. rewrite c_string_ascii by (apply ascii_word, W). apply decode_encode_uint256, W. Qed.

Lemma field_address key a out : find_key m key = Some (JStr (hex_encode a)) -> wf_address a -> List.length out = ADDRESS_SIZE -> json_get_hex_address (Some v) key out = (true, a).
Proof.
  intros F [L B] O. unfold json_get_hex_address. destruct (field_present key _ F) as (u & -> & U). unfold ADDRESS_SIZE in *. destruct (value_bytes u a out U B) as [-> ->]; [lia | lia | reflexivity].
Qed.

Lemma field_bytes key bs : find_key m key = Some (JStr (hex_encode bs)) -> bytes_ok bs -> Z.of_nat (List.length bs) <= DIV0_ARENA_BLOCK_SIZE -> json_get_hex_bytes (Some v) key = Some bs.
Proof. intros F B L. unfold json_get_hex_bytes. destruct (field_string key _ F) as [-> ->]. rewrite c_string_ascii by (apply ascii_encode, B). apply hex_bytes_encode; assumption. Qed.

Lemma is_object : present (Some v) json_is_obj = true.
Proof. exact (is_obj_shows v _ S). Qed.
End Fields_of.

End Reading.

#[export] Hint Resolve printable_word printable_padded printable_u64 printable_bytes : json_db.

(** Members of an object one after the other. *)
Ltac members := repeat (apply Forall_cons || apply Forall_nil || (apply Forall_app; split)); try (apply printable_field; [reflexivity|]); eauto with json_db.

(** * Rules for building *)

Section Building.
Context {Y : Yyjson} {YM : YyjsonMut} {YL : YyjsonLaws} {YML : YyjsonMutLaws}.

(** From a document that holds [l], the code ends with a value and a document
    that holds what [Q] says. *)
Definition builds {A} (m : W A) (l : list (mut_val * json)) (Q : A -> list (mut_val * json) -> Prop) : Prop :=
  forall d, holds d l -> exists d' a l', m d = (d', a) /\ holds d' l' /\ Q a l'.

Lemma builds_ret {A} (a : A) l (Q : A -> list (mut_val * json) -> Prop) : Q a l -> builds (w_ret a) l Q.
Proof. intros H d D. exists d, a, l. auto. Qed.

Lemma builds_bind {A B} (m : W A) (k : A -> W B) l Q : builds m l (fun a l' => builds (k a) l' Q) -> builds (w_bind m k) l Q.
Proof. intros H d D. destruct (H d D) as (d1 & a & l1 & E & D1 & K). unfold w_bind. rewrite E. exact (K d1 D1). Qed.

Lemma builds_weaken {A} (m : W A) l (Q Q' : A -> list (mut_val * json) -> Prop) : builds m l Q' -> (forall a l', Q' a l' -> Q a l') -> builds m l Q.
Proof. intros H I d D. destruct (H d D) as (d1 & a & l1 & E & D1 & K). exists d1, a, l1. auto. Qed.

Lemma builds_make new t l (Q : option mut_val -> list (mut_val * json) -> Prop) : makes holds new t -> (forall p, Q (Some p) ((p, t) :: l)) -> builds new l Q.
Proof. intros M H d D. destruct (M d l D) as (d' & p & E & D'). exists d', (Some p), ((p, t) :: l). auto. Qed.

Lemma builds_obj l (Q : option mut_val -> list (mut_val * json) -> Prop) : (forall p, Q (Some p) ((p, JObj []) :: l)) -> builds json_write_obj l Q.
Proof. apply builds_make, obj_makes. Qed.

Lemma builds_arr l (Q : option mut_val -> list (mut_val * json) -> Prop) : (forall p, Q (Some p) ((p, JArr []) :: l)) -> builds json_write_arr l Q.
Proof. apply builds_make, arr_makes. Qed.

Lemma builds_str s l (Q : option mut_val -> list (mut_val * json) -> Prop) : (forall p, Q (Some p) ((p, JStr s) :: l)) -> builds (fun d => yyjson_mut_strcpy d s) l Q.
Proof. apply (builds_make _ (JStr s)), strcpy_makes. Qed.

(** A finished child goes into the object or array below it. *)
Lemma builds_obj_add o v key t m l (Q : bool -> list (mut_val * json) -> Prop) : Q true ((o, JObj (m ++ [(key, t)])) :: l) ->
  builds (json_obj_add (Some o) key (Some v)) ((v, t) :: (o, JObj m) :: l) Q.
Proof.
  intros H d D. unfold json_obj_add, w_bind. destruct (strcpy_makes key d _ D) as (d1 & k & -> & D1).
  apply (holds_perm _ _ ((o, JObj m) :: (k, JStr key) :: (v, t) :: l)) in D1; [|exact (perm_trans (perm_skip _ (perm_swap _ _ _)) (perm_swap _ _ _))].
  destruct (obj_add_holds _ _ _ _ _ _ _ _ D1) as (d2 & -> & D2). eauto 6.
Qed.

Lemma builds_arr_append a v t xs l (Q : bool -> list (mut_val * json) -> Prop) : Q true ((a, JArr (xs ++ [t])) :: l) ->
  builds (json_arr_append (Some a) (Some v)) ((v, t) :: (a, JArr xs) :: l) Q.
Proof. intros H d D. unfold json_arr_append. apply (holds_perm _ _ _ (perm_swap _ _ _)) in D. destruct (arr_append_holds _ _ _ _ _ _ D) as (d2 & -> & D2). eauto 6. Qed.

Lemma builds_add_text s o key m l (Q : bool -> list (mut_val * json) -> Prop) : Q true ((o, JObj (m ++ [(key, JStr s)])) :: l) ->
  builds (add_written (fun d => yyjson_mut_strcpy d s) (Some o) key) ((o, JObj m) :: l) Q.
Proof.
  intros H. unfold add_written. apply builds_bind, builds_str. intros p d D. apply (holds_perm _ _ _ (perm_swap _ _ _)) in D. destruct (obj_add_val_holds _ _ _ key _ _ _ D) as (d2 & -> & D2). eauto 6.
Qed.

Lemma builds_add_bytes bs o key m l (Q : bool -> list (mut_val * json) -> Prop) : Q true ((o, JObj (m ++ [(key, JStr (hex_encode bs))])) :: l) ->
  builds (json_obj_add_hex_bytes (Some o) key bs) ((o, JObj m) :: l) Q.
Proof. intros H. unfold json_obj_add_hex_bytes, json_write_hex_bytes. destruct (Z.eqb_spec (Z.of_nat (List.length bs)) 0) as [E|_]; [destruct bs; [|discriminate]|]; apply builds_add_text, H. Qed.

Lemma builds_add_null o key m l (Q : bool -> list (mut_val * json) -> Prop) : Q true ((o, JObj (m ++ [(key, JNull)])) :: l) -> builds (json_obj_add_null (Some o) key) ((o, JObj m) :: l) Q.
Proof. intros H d D. unfold json_obj_add_null. destruct (obj_add_null_holds _ _ _ key _ D) as (d2 & -> & D2). eauto 6. Qed.

Lemma builds_add_uint o key n m l (Q : bool -> list (mut_val * json) -> Prop) : Q true ((o, JObj (m ++ [(key, JUint n)])) :: l) -> builds (json_obj_add_u64 (Some o) key n) ((o, JObj m) :: l) Q.
Proof. intros H d D. unfold json_obj_add_u64. destruct (obj_add_uint_holds _ _ _ key n _ D) as (d2 & -> & D2). eauto 6. Qed.

Lemma builds_add_str o key s m l (Q : bool -> list (mut_val * json) -> Prop) : Q true ((o, JObj (m ++ [(key, JStr s)])) :: l) -> builds (json_obj_add_str (Some o) key s) ((o, JObj m) :: l) Q.
Proof. intros H d D. unfold json_obj_add_str. destruct (obj_add_strcpy_holds _ _ _ key s _ D) as (d2 & -> & D2). eauto 6. Qed.

(** [writes m t]: the code makes one new value, the tree [t]. *)
Definition writes (m : W (option mut_val)) (t : json) : Prop := forall l, builds m l (fun r l' => exists p, r = Some p /\ l' = (p, t) :: l).

Lemma writes_builds m t l (Q : option mut_val -> list (mut_val * json) -> Prop) : writes m t -> (forall p, Q (Some p) ((p, t) :: l)) -> builds m l Q.
Proof. intros M H. eapply builds_weaken; [apply M|]. cbn. intros a l' (p & -> & ->). apply H. Qed.

End Building.

(** Run the next call of a writer. *)
Ltac build :=
  lazymatch goal with
  | |- builds (w_bind _ _) _ _ => apply builds_bind; build
  | |- builds (w_ret _) _ _ => apply builds_ret
  | |- builds json_write_obj _ _ => let p := fresh "p" in apply builds_obj; intros p
  | |- builds json_write_arr _ _ => let p := fresh "p" in apply builds_arr; intros p
  | |- builds (json_obj_add (Some _) _ (Some _)) _ _ => apply builds_obj_add
  | |- builds (json_arr_append (Some _) (Some _)) _ _ => apply builds_arr_append
  | |- builds (json_obj_add_hex_bytes _ _ _) _ _ => apply builds_add_bytes
  | |- builds (json_obj_add_null _ _) _ _ => apply builds_add_null
  | |- builds (json_obj_add_u64 _ _ _) _ _ => apply builds_add_uint
  | |- builds (json_obj_add_str _ _ _) _ _ => apply builds_add_str
  | |- builds (json_obj_add_hex_u64 _ _ _) _ _ => apply builds_add_text
  | |- builds (json_obj_add_hex_uint256 _ _ _) _ _ => apply builds_add_text
  | |- builds (json_obj_add_hex_address _ _ _) _ _ => apply builds_add_text
  | |- builds (json_obj_add_hex_hash _ _ _) _ _ => apply builds_add_text
  | |- builds (json_write_hex_hash _) _ _ => let p := fresh "p" in apply builds_str; intros p
  | |- builds (json_write_hex_uint256_padded _) _ _ => let p := fresh "p" in apply builds_str; intros p
  end.
