(* ===== verification/JsonModel.v ===== *)
(** A model of yyjson in which its laws hold: values of a parsed document are
    cursors into the sequence of their siblings, documents under construction
    keep a table of detached trees, and the text of a document is its tree.
    The examples run on it. *)
From Stdlib Require Import ZArith Lia List Bool String Permutation.
From S2P Require Import Prelude Types Hex Json JsonSpec.
Import ListNotations.
#[local] Open Scope Z_scope.

(** * Reading *)

(** A pointer and what follows it; keys and values alternate in an object. *)
Definition cursor : Type := list json.

Definition at_cursor {A} (v : option cursor) (f : json -> A) (default : A) : A :=
  match v with Some (t :: _) => f t | _ => default end.

Definition files : Type := list (cstr * json).

Fixpoint read_files (fs : files) (path : cstr) : option json :=
  match fs with
  | [] => None
  | (p, t) :: rest => if bytes_eqb p path then Some t else read_files rest path
  end.

#[export] Instance model_yyjson : Yyjson := {|
  yyjson_val := cursor;
  yyjson_doc := json;
  json_text := json;
  file_system := files;
  yyjson_read_opts t := inl t;
  yyjson_read_file fs path := match read_files fs path with Some t => inl t | None => inr (true, lit "no such file") end;
  yyjson_doc_get_root t := Some [t];
  yyjson_is_null v := at_cursor v is_JNull false;
  yyjson_is_bool v := at_cursor v (fun t => match t with JBool _ => true | _ => false end) false;
  yyjson_is_num v := at_cursor v (fun t => match t with JUint _ | JSint _ | JReal _ => true | _ => false end) false;
  yyjson_is_str v := at_cursor v is_JStr false;
  yyjson_is_obj v := at_cursor v is_JObj false;
  yyjson_is_arr v := at_cursor v is_JArr false;
  yyjson_obj_get v key := at_cursor v (fun t => match t with JObj m => option_map (fun t => [t]) (find_key m key) | _ => None end) None;
  yyjson_arr_get v i := at_cursor v (fun t => match t with JArr l => option_map (fun t => [t]) (nth_error l (Z.to_nat i)) | _ => None end) None;
  yyjson_arr_size v := at_cursor v (fun t => match t with JArr l => Z.of_nat (List.length l) | _ => 0 end) 0;
  yyjson_obj_size v := at_cursor v (fun t => match t with JObj m => Z.of_nat (List.length m) | _ => 0 end) 0;
  yyjson_get_str v := at_cursor v (fun t => match t with JStr s => Some (c_string s) | _ => None end) None;
  yyjson_get_len v := at_cursor v (fun t => match t with JStr s => Z.of_nat (List.length s) | _ => 0 end) 0;
  yyjson_get_bool v := at_cursor v (fun t => match t with JBool b => b | _ => false end) false;
  yyjson_get_uint v := at_cursor v (fun t => match t with JUint n => n | _ => 0 end) 0;
  yyjson_get_sint v := at_cursor v (fun t => match t with JSint n => n | _ => 0 end) 0;
  unsafe_yyjson_get_first v := match v with JObj m :: _ => flat_map (fun kt => [JStr (fst kt); snd kt]) m | JArr l :: _ => l | _ => [] end;
  unsafe_yyjson_get_next v := tl v;
  yyjson_slot_after v := tl v |}.

Definition cursor_shows (v : cursor) (t : json) : Prop := hd_error v = Some t.

#[export] Instance model_laws : YyjsonLaws.
Proof.
  refine {| shows := (cursor_shows : @yyjson_val model_yyjson -> json -> Prop) |}; intros v.
  1-4: intros t S; destruct v; [discriminate|]; injection S as ->; reflexivity.
  2: intros m key S; destruct v as [|x v]; [discriminate|]; injection S as ->; cbn; destruct (find_key m key) as [u|]; [exists [u]; split; reflexivity | reflexivity].
  all: intros t S; destruct v as [|x v]; try discriminate S; injection S as ->; try reflexivity; cbn.
  - induction t as [|[k u] t IH]; cbn; [exact I|]. split; [reflexivity|]. split; [reflexivity | exact IH].
  - induction t as [|u t IH]; cbn; [exact I|]. split; [reflexivity | exact IH].
Defined.

(** * Building *)

Record forest := Forest { next_id : nat; trees : list (nat * json) }.

Definition plant (d : forest) (t : json) : forest * option nat := (Forest (S (next_id d)) ((next_id d, t) :: trees d), Some (next_id d)).

Fixpoint lookup (l : list (nat * json)) (p : nat) : option json :=
  match l with [] => None | (q, t) :: rest => if Nat.eqb q p then Some t else lookup rest p end.

Definition remove (l : list (nat * json)) (p : nat) : list (nat * json) := filter (fun qt => negb (Nat.eqb (fst qt) p)) l.

(** Replace the tree at [o] by what [f] makes of it; the given values become
    part of it. *)
Definition graft (d : forest) (o : option nat) (used : list nat) (f : json -> option json) : forest * bool :=
  match o with
  | None => (d, false)
  | Some o =>
      match lookup (trees d) o with
      | None => (d, false)
      | Some t => match f t with None => (d, false) | Some t' => (Forest (next_id d) ((o, t') :: fold_left remove used (remove (trees d) o)), true) end
      end
  end.

Definition add_member (key : list Z) (u t : json) : option json := match t with JObj m => Some (JObj (m ++ [(key, u)])) | _ => None end.

Definition model_add (d : forest) (o k v : option nat) : forest * bool :=
  match k, v with
  | Some k, Some v =>
      match lookup (trees d) k, lookup (trees d) v with
      | Some (JStr s), Some u => graft d o [k; v] (add_member s u)
      | _, _ => (d, false)
      end
  | _, _ => (d, false)
  end.

Definition model_add_val (d : forest) (o : option nat) (key : cstr) (v : option nat) : forest * bool :=
  match v with
  | Some v => match lookup (trees d) v with Some u => graft d o [v] (add_member key u) | None => (d, false) end
  | None => (d, false)
  end.

Definition model_append (d : forest) (a v : option nat) : forest * bool :=
  match v with
  | Some v => match lookup (trees d) v with Some u => graft d a [v] (fun t => match t with JArr xs => Some (JArr (xs ++ [u])) | _ => None end) | None => (d, false) end
  | None => (d, false)
  end.

(** A document whose root was chosen has it first. *)
Definition set_root (d : forest) (p : nat) : forest := match lookup (trees d) p with Some t => Forest (next_id d) ((p, t) :: remove (trees d) p) | None => d end.
Definition root_of (d : forest) : option json := option_map snd (hd_error (trees d)).

#[export] Instance model_yyjson_mut : YyjsonMut := {|
  mut_doc := forest;
  mut_val := nat;
  stream := cstr;
  yyjson_mut_doc_new := Some (Forest 0 []);
  yyjson_mut_null d := plant d JNull;
  yyjson_mut_bool d b := plant d (JBool b);
  yyjson_mut_uint d n := plant d (JUint n);
  yyjson_mut_sint d n := plant d (JSint n);
  yyjson_mut_strcpy d s := plant d (JStr s);
  yyjson_mut_strncpy d s := plant d (JStr s);
  yyjson_mut_obj d := plant d (JObj []);
  yyjson_mut_arr d := plant d (JArr []);
  yyjson_mut_obj_add := model_add;
  yyjson_mut_obj_add_null d o key := graft d o [] (add_member key JNull);
  yyjson_mut_obj_add_bool d o key b := graft d o [] (add_member key (JBool b));
  yyjson_mut_obj_add_uint d o key n := graft d o [] (add_member key (JUint n));
  yyjson_mut_obj_add_strcpy d o key s := graft d o [] (add_member key (JStr s));
  yyjson_mut_obj_add_val := model_add_val;
  yyjson_mut_arr_append := model_append;
  yyjson_mut_doc_set_root := set_root;
  yyjson_mut_write_opts d _ := root_of d;
  yyjson_mut_write_file (fs : files) path d _ := match root_of d with Some t => ((path, t) :: fs, None) | None => (fs, Some (lit "no root")) end;
  yyjson_mut_write_fp (fs : files) out d _ := match root_of d with Some t => ((out, t) :: fs, None) | None => (fs, Some (lit "no root")) end |}.

(** The live trees are the table, up to order; the next pointer is new. *)
Definition forest_holds (d : forest) (l : list (nat * json)) : Prop :=
  Permutation (trees d) l /\ NoDup (map fst (trees d)) /\ Forall (fun qt => (fst qt < next_id d)%nat) (trees d).

Lemma lookup_in l p t : NoDup (map fst l) -> In (p, t) l -> lookup l p = Some t.
Proof.
  induction l as [|[q u] l IH]; cbn; [tauto|]. intros D [E|I]; inversion D; subst.
  - injection E as -> ->. rewrite Nat.eqb_refl. reflexivity.
  - destruct (Nat.eqb_spec q p) as [->|_]; [|auto]. exfalso. apply (in_map fst) in I. contradiction.
Qed.

Lemma remove_perm l l' p t : Permutation l ((p, t) :: l') -> NoDup (map fst l) -> Permutation (remove l p) l'.
Proof.
  intros P D. unfold remove. assert (X : Permutation (filter (fun qt => negb (Nat.eqb (fst qt) p)) l) (filter (fun qt => negb (Nat.eqb (fst qt) p)) ((p, t) :: l'))).
  { clear D. induction P; cbn [filter]; repeat (destruct (negb _)); eauto using perm_skip, perm_swap, perm_trans, Permutation_refl. }
  rewrite X. cbn [filter fst]. rewrite Nat.eqb_refl. cbn [negb]. assert (E : filter (fun qt => negb (Nat.eqb (fst qt) p)) l' = l'); [|rewrite E; reflexivity].
  apply (Permutation_map fst) in P. apply (Permutation_NoDup P) in D. cbn in D. inversion D as [|? ? N _]; subst. clear - N. induction l' as [|[q u] l' IH]; cbn [filter fst map] in *; [reflexivity|].
  destruct (Nat.eqb_spec q p) as [->|_]; [exfalso; apply N; left; reflexivity|]. cbn [negb]. rewrite IH; [reflexivity|]. intros I. apply N. right. exact I.
Qed.

Lemma remove_wf d p : NoDup (map fst (trees d)) -> Forall (fun qt => (fst qt < next_id d)%nat) (trees d) ->
  NoDup (map fst (remove (trees d) p)) /\ Forall (fun qt => (fst qt < next_id d)%nat) (remove (trees d) p) /\ ~ In p (map fst (remove (trees d) p)).
Proof.
  intros D F. unfold remove. split; [|split].
  - generalize (trees d) D. intros l Dl. induction l as [|[q u] l IH]; cbn [filter fst map] in *; [constructor|]. inversion Dl as [|? ? N D']; subst. destruct (negb (Nat.eqb q p)); cbn [map fst]; [|auto]. constructor; [|auto].
    intros I. apply N. apply in_map_iff in I as (x & <- & I). apply filter_In in I as [I _]. apply in_map, I.
  - apply Forall_forall. intros x I. apply filter_In in I as [I _]. rewrite Forall_forall in F. auto.
  - intros I. apply in_map_iff in I as (x & E & I). apply filter_In in I as [_ I]. rewrite E, Nat.eqb_refl in I. discriminate.
Qed.

Lemma plant_makes t : makes (YM := model_yyjson_mut) forest_holds (fun d => plant d t) t.
Proof.
  intros [n ts] l (P & D & F). exists (Forest (S n) ((n, t) :: ts)), n. split; [reflexivity|]. cbn in *. split; [apply perm_skip, P|]. split.
  - constructor; [|exact D]. intros I. apply in_map_iff in I as (x & E & I). rewrite Forall_forall in F. specialize (F x I). cbn in *. lia.
  - constructor; [cbn; lia|]. eapply Forall_impl; [|exact F]. cbn. lia.
Qed.

(** Removing some of the pointers of a table. *)
Lemma removes_perm used : forall ts l, NoDup (map fst ts) -> Permutation ts (used ++ l) -> Permutation (fold_left remove (map fst used) ts) l.
Proof.
  induction used as [|[p t] used IH]; intros ts l D P; cbn [map fold_left fst app] in *; [exact P|].
  apply IH; [|apply (remove_perm _ _ p t P D)]. apply (remove_wf (Forest (S (list_max (map fst ts))) ts) p); [exact D|]. cbn. apply Forall_forall. intros x I.
  pose proof (proj1 (list_max_le (map fst ts) (list_max (map fst ts))) ltac:(lia)) as M. rewrite Forall_forall in M. specialize (M (fst x) (in_map fst _ _ I)). lia.
Qed.

Lemma graft_holds d o t t' used l f : forest_holds d ((o, t) :: used ++ l) -> f t = Some t' ->
  exists d', graft d (Some o) (map fst used) f = (d', true) /\ forest_holds d' ((o, t') :: l).
Proof.
  intros (P & D & F) E. unfold graft. rewrite (lookup_in _ o t D) by (apply (Permutation_in _ (Permutation_sym P)); left; reflexivity). rewrite E. eexists. split; [reflexivity|].
  assert (R : Permutation (fold_left remove (map fst used) (remove (trees d) o)) l).
  { apply removes_perm; [apply (remove_wf d o D F) | apply (remove_perm _ _ o t P D)]. }
  assert (Dl : NoDup (map fst ((o, t) :: used ++ l))) by (apply (Permutation_NoDup (Permutation_map fst P)), D).
  assert (Fl : Forall (fun qt => (fst qt < next_id d)%nat) ((o, t) :: used ++ l)) by (apply (Permutation_Forall P), F).
  cbn [map fst] in Dl. rewrite map_app in Dl. inversion Dl as [|? ? N Dr]; subst. apply NoDup_app_remove_l in Dr. inversion Fl as [|? ? Fo Fr]; subst. apply Forall_app in Fr as [_ Fr].
  split; [apply perm_skip, R|]. cbn [trees next_id map fst]. split.
  - constructor; [|apply (Permutation_NoDup (Permutation_map fst (Permutation_sym R))), Dr]. intros I. apply (Permutation_in _ (Permutation_map fst R)) in I. apply N, in_or_app. right. exact I.
  - constructor; [exact Fo|]. apply (Permutation_Forall (Permutation_sym R)), Fr.
Qed.

Lemma holds_lookup d l p t : forest_holds d l -> In (p, t) l -> lookup (trees d) p = Some t.
Proof. intros (P & D & _) I. apply lookup_in; [exact D|]. apply (Permutation_in _ (Permutation_sym P)), I. Qed.

Lemma set_root_spec d p t l : forest_holds d ((p, t) :: l) -> root_of (set_root d p) = Some t.
Proof. intros H. unfold set_root. rewrite (holds_lookup d _ p t H) by (left; reflexivity). reflexivity. Qed.

#[export] Instance model_mut_laws : YyjsonMutLaws.
Proof.
  refine {| holds := (forest_holds : @mut_doc _ model_yyjson_mut -> _) |}.
  - intros d l l' P (Q & R). split; [exact (perm_trans Q P) | exact R].
  - exists (Forest 0 []). split; [reflexivity|]. split; [constructor|]. split; constructor.
  - exact (plant_makes (JObj [])).
  - exact (plant_makes (JArr [])).
  - intros s. exact (plant_makes (JStr s)).
  - intros d o m k s v t l H. cbn. unfold model_add. rewrite (holds_lookup d _ k (JStr s) H), (holds_lookup d _ v t H) by (cbn; auto). exact (graft_holds d o _ _ [(k, JStr s); (v, t)] l (add_member s t) H eq_refl).
  - intros d o m key v t l H. cbn. unfold model_add_val. rewrite (holds_lookup d _ v t H) by (cbn; auto). exact (graft_holds d o _ _ [(v, t)] l (add_member key t) H eq_refl).
  - intros d o m key l H. exact (graft_holds d o _ _ [] l (add_member key JNull) H eq_refl).
  - intros d o m key n l H. exact (graft_holds d o _ _ [] l (add_member key (JUint n)) H eq_refl).
  - intros d o m key s l H. exact (graft_holds d o _ _ [] l (add_member key (JStr s)) H eq_refl).
  - intros d a xs v t l H. cbn. unfold model_append. rewrite (holds_lookup d _ v t H) by (cbn; auto).
    exact (graft_holds d a _ _ [(v, t)] l (fun x => match x with JArr xs => Some (JArr (xs ++ [t])) | _ => None end) H eq_refl).
  - intros d p t l pretty H _. exists t, t, [t]. cbn. rewrite (set_root_spec d p t l H). repeat split.
  - intros d p t l fs fs' path pretty H _. cbn. rewrite (set_root_spec d p t l H). intros [= <-]. exists t, [t]. cbn. rewrite (proj2 (bytes_eqb_eq path path) eq_refl). repeat split.
Defined.
