(* ===== verification/FilesSpec.v ===== *)
(** Files as trees: what [t8n_write_alloc] and [t8n_write_txs] build, and that
    the parsers read it back. *)
From Stdlib Require Import ZArith Lia List Bool String.
From S2P Require Import Prelude Uint256 Types Arena Nibbles Hex HexSpec Json WorldState T8nAlloc JsonSpec Transaction TxRlp T8nTxs.
Import ListNotations.
#[local] Open Scope Z_scope.
#[local] Open Scope json_scope.

(** * Parsers on lists *)

Lemma parse_each_spec {A B} (f : A -> parsed B) xs ys : Forall2 (fun x y => f x = inl y) xs ys -> parse_each f xs = inl ys.
Proof. induction 1 as [|x y xs ys E _ IH]; cbn [parse_each]; [reflexivity|]. rewrite E. cbn [andthen]. rewrite IH. reflexivity. Qed.

(** Entries of an object, matched with their trees. *)
Lemma Forall2_combine {A B C D} (P : A * B -> D -> Prop) (f : C -> A) (Q : B -> C -> Prop) (g : C -> D) cs vs :
  Forall2 Q vs cs -> (forall v c, In c cs -> Q v c -> P (f c, v) (g c)) -> Forall2 P (combine (map f cs) vs) (map g cs).
Proof. induction 1 as [|v c vs cs H _ IH]; intros I; cbn [map combine]; constructor; [apply I; [left; reflexivity | exact H]|]. apply IH. intros v' c' J. apply I. right. exact J. Qed.

Lemma Forall2_map_r {A B C} (R : A -> C -> Prop) (f : B -> C) xs ys : Forall2 R xs (map f ys) -> Forall2 (fun x y => R x (f y)) xs ys.
Proof. revert xs; induction ys as [|y ys IH]; intros xs H; inversion H; subst; constructor; auto. Qed.

Lemma alloc_count n size : 0 < n -> 0 < size -> n * size <= DIV0_ARENA_BLOCK_SIZE -> alloc_succeeds (mul64 n size) = true.
Proof. unfold DIV0_ARENA_BLOCK_SIZE, mul64. intros N S L. rewrite w64_small by (unfold u64; nia). apply alloc_small. unfold DIV0_ARENA_BLOCK_SIZE. nia. Qed.

(** * Trees of accounts *)

Definition nonzero (e : storage_entry_t) : bool := negb (uint256_is_zero (se_value e)).

Definition storage_members (l : list storage_entry_t) : list (list Z * json) :=
  map (fun e => (hex_encode_uint256_padded (se_slot e), JStr (hex_encode_uint256_padded (se_value e)))) (filter nonzero l).

Definition account_members (a : account_snapshot_t) : list (list Z * json) :=
  [(lit "balance", JStr (hex_encode_uint256 (as_balance a)))] ++
  (if as_nonce a =? 0 then [] else [(lit "nonce", JStr (hex_encode_u64 (as_nonce a)))]) ++
  (match as_code a with [] => [] | _ => [(lit "code", JStr (hex_encode (as_code a)))] end) ++
  (match as_storage a with [] => [] | _ => [(lit "storage", JObj (storage_members (as_storage a)))] end).

Definition account_json (a : account_snapshot_t) : json := JObj (account_members a).

Definition alloc_members (l : list account_snapshot_t) : list (list Z * json) := map (fun a => (hex_encode (as_address a), account_json a)) l.
Definition alloc_json (l : list account_snapshot_t) : json := JObj (alloc_members l).

(** Accounts that the file format can carry: fields in range, code that fits a
    block of the arena, at most 1024 slots. Slots with the value zero are not
    written. *)
Record wf_snapshot (a : account_snapshot_t) : Prop := {
  ws_address : wf_address (as_address a); ws_balance : wf256 (as_balance a); ws_nonce : u64 (as_nonce a);
  ws_code : bytes_ok (as_code a) /\ Z.of_nat (List.length (as_code a)) <= DIV0_ARENA_BLOCK_SIZE;
  ws_storage : Forall (fun e => wf256 (se_slot e) /\ wf256 (se_value e)) (as_storage a) /\
               Z.of_nat (List.length (filter nonzero (as_storage a))) * sizeof_storage_entry <= DIV0_ARENA_BLOCK_SIZE }.

Definition without_zeros (a : account_snapshot_t) : account_snapshot_t :=
  AccountSnapshot (as_address a) (as_balance a) (as_nonce a) (as_code a) (filter nonzero (as_storage a)).

Lemma filter_nonzero_wf es : Forall (fun e => wf256 (se_slot e) /\ wf256 (se_value e)) es -> Forall (fun e => wf256 (se_slot e) /\ wf256 (se_value e) /\ nonzero e = true) (filter nonzero es).
Proof. intros W. rewrite Forall_forall in *. intros e I. apply filter_In in I as [I N]. destruct (W e I). auto. Qed.

Lemma printable_alloc accs : Forall wf_snapshot accs -> printable (alloc_json accs).
Proof.
  intros W. constructor. apply Forall_map. eapply Forall_impl; [|exact W]. clear. intros a [[_ Ba] B N [Cb _] [Sw _]]. split; [apply ascii_encode, Ba|]. constructor. unfold account_members.
  destruct (as_nonce a =? 0), (as_code a) as [|c cs] eqn:E, (as_storage a) as [|e es] eqn:F; members; constructor; unfold storage_members; apply Forall_map; apply filter_nonzero_wf in Sw;
    (eapply Forall_impl; [|exact Sw]); intros x (X1 & X2 & _); (split; [apply ascii_padded, X1 | apply printable_padded, X2]).
Qed.

(** * Writing *)

Section Write_alloc.
Context {Y : Yyjson} {YM : YyjsonMut} {YL : YyjsonLaws} {YML : YyjsonMutLaws}.

Lemma write_storage_builds es : forall s m l (Q : unit -> list (mut_val * json) -> Prop), Q tt ((s, JObj (m ++ storage_members es)) :: l) ->
  builds (write_storage es (Some s)) ((s, JObj m) :: l) Q.
Proof.
  induction es as [|e es IH]; intros s m l Q H; cbn [write_storage].
  - build. cbn in H. rewrite app_nil_r in H. exact H.
  - unfold storage_members in H. cbn [filter] in H. unfold nonzero at 1 in H. apply builds_bind. destruct (uint256_is_zero (se_value e)); cbn [negb map] in H.
    + build. apply IH, H.
    + build. build. apply IH. rewrite <- app_assoc. exact H.
Qed.

Lemma write_account_writes a : writes (t8n_write_alloc_account a) (account_json a).
Proof.
  intros l. unfold t8n_write_alloc_account. build. build. apply builds_bind.
  assert (N : forall m (Q : bool -> list (mut_val * json) -> Prop), Q true ((p, JObj (m ++ (if as_nonce a =? 0 then [] else [(lit "nonce", JStr (hex_encode_u64 (as_nonce a)))]))) :: l) ->
    builds (if negb (as_nonce a =? 0) then json_obj_add_hex_u64 (Some p) (lit "nonce") (as_nonce a) else w_ret true) ((p, JObj m) :: l) Q).
  { intros m Q H. destruct (as_nonce a =? 0); cbn [negb]; build; [rewrite app_nil_r in H|]; exact H. }
  assert (C : forall m (Q : bool -> list (mut_val * json) -> Prop), Q true ((p, JObj (m ++ (match as_code a with [] => [] | _ => [(lit "code", JStr (hex_encode (as_code a)))] end))) :: l) ->
    builds (if Z.of_nat (List.length (as_code a)) >? 0 then json_obj_add_hex_bytes (Some p) (lit "code") (as_code a) else w_ret true) ((p, JObj m) :: l) Q).
  { intros m Q H. destruct (as_code a); cbn [List.length]; [|rewrite (proj2 (Z.gtb_lt _ _)) by lia]; [apply builds_ret; rewrite app_nil_r in H|build]; exact H. }
  assert (S : forall m (Q : bool -> list (mut_val * json) -> Prop), Q true ((p, JObj (m ++ (match as_storage a with [] => [] | _ => [(lit "storage", JObj (storage_members (as_storage a)))] end))) :: l) ->
    builds (if Z.of_nat (List.length (as_storage a)) >? 0 then let* storage := json_write_obj in write_storage (as_storage a) storage ;;; json_obj_add (Some p) (lit "storage") storage else w_ret true) ((p, JObj m) :: l) Q).
  { intros m Q H. destruct (as_storage a) eqn:E; cbn [List.length]; [|rewrite (proj2 (Z.gtb_lt _ _)) by lia]; [apply builds_ret; rewrite app_nil_r in H; exact H|].
    build. apply builds_bind, write_storage_builds. build. exact H. }
  apply N, builds_bind, C, builds_bind, S, builds_ret. exists p. split; [reflexivity|]. unfold account_json, account_members. rewrite <- !app_assoc. reflexivity.
Qed.

Lemma write_accounts_builds accs : forall r m l (Q : option mut_val -> list (mut_val * json) -> Prop), Q (Some r) ((r, JObj (m ++ alloc_members accs)) :: l) ->
  builds (write_accounts accs (Some r)) ((r, JObj m) :: l) Q.
Proof.
  induction accs as [|a accs IH]; intros r m l Q H; cbn [write_accounts].
  - build. cbn in H. rewrite app_nil_r in H. exact H.
  - apply builds_bind. eapply writes_builds; [apply write_account_writes|]. intros p. cbv beta iota. build. apply IH. rewrite <- app_assoc. exact H.
Qed.

Lemma write_alloc_writes accs : writes (t8n_write_alloc accs) (alloc_json accs).
Proof. intros l. unfold t8n_write_alloc. build. apply write_accounts_builds. exists p. auto. Qed.

End Write_alloc.

(** * Reading back *)

Section Read_alloc.
Context {Y : Yyjson} {YL : YyjsonLaws}.

Lemma parse_storage_entries_spec es : forall vs, Forall (fun e => wf256 (se_slot e) /\ wf256 (se_value e) /\ nonzero e = true) es ->
  Forall2 (fun v e => shows v (JStr (hex_encode_uint256_padded (se_value e)))) vs es ->
  parse_storage_entries (combine (map (fun e => Some (hex_encode_uint256_padded (se_slot e))) es) vs) = inl es.
Proof.
  induction es as [|e es IH]; intros vs W F; [destruct vs; reflexivity|]. inversion W as [|? ? (Ws & Wv & Nz) W']; subst. inversion F as [|v ? vs' ? Sv F']; subst. cbn [map combine parse_storage_entries].
  rewrite decode_encode_padded, (value_padded v _ _ Sv) by assumption. cbn [require andthen]. rewrite (IH vs' W' F'). cbn [andthen]. unfold nonzero in Nz. rewrite Nz. destruct e. reflexivity.
Qed.

Lemma parse_storage_spec v es : shows v (JObj (storage_members es)) -> Forall (fun e => wf256 (se_slot e) /\ wf256 (se_value e)) es ->
  Z.of_nat (List.length (filter nonzero es)) * sizeof_storage_entry <= DIV0_ARENA_BLOCK_SIZE -> parse_storage (Some v) = inl (filter nonzero es).
Proof.
  intros S W L. unfold parse_storage. rewrite (is_object v _ S). unfold json_obj_size. rewrite (obj_size_shows v _ S). unfold storage_members at 1 2. rewrite length_map.
  apply filter_nonzero_wf in W. unfold storage_members in S. set (nz := filter nonzero es) in *. destruct (Z.gtb_spec (Z.of_nat (List.length nz)) 0) as [G|G]; [|destruct nz; [reflexivity | cbn [List.length] in G; lia]].
  rewrite alloc_count by (unfold sizeof_storage_entry in *; lia). cbn [require].
  destruct (obj_entries_spec v _ S) as (vs & -> & F); [rewrite length_map; unfold sizeof_storage_entry, DIV0_ARENA_BLOCK_SIZE in *; lia|]. rewrite map_map. cbn [fst].
  rewrite (map_ext_in _ (fun e => Some (hex_encode_uint256_padded (se_slot e)))).
  - apply parse_storage_entries_spec; [exact W | exact (Forall2_map_r _ _ _ _ F)].
  - intros e I. rewrite Forall_forall in W. destruct (W e I) as (Ws & _). rewrite c_string_ascii by (apply ascii_padded, Ws). reflexivity.
Qed.

Lemma parse_account_spec v a : wf_snapshot a -> shows v (account_json a) -> parse_account (Some (hex_encode (as_address a)), v) = inl (without_zeros a).
Proof.
  intros [[La Ba] B N [Cb Cl] [Sw Sl]] S. unfold parse_account. rewrite hex_decode_encode by (try exact Ba; unfold ADDRESS_SIZE in La; rewrite La; reflexivity). cbn [require].
  unfold json_is_obj. rewrite (is_obj_shows v _ S). cbn [require is_JObj account_json]. unfold account_json in S. set (m := account_members a) in *.
  rewrite (field_word v m S (lit "balance") (as_balance a)) by (reflexivity || exact B). cbn [require].
  assert (En : or_default (json_get_hex_u64 (Some v) (lit "nonce")) 0 = as_nonce a).
  { destruct (Z.eqb_spec (as_nonce a) 0) as [E|E].
    - rewrite (field_no_u64 v m S); [symmetry; exact E|]. unfold m, account_members. rewrite E. destruct (as_code a), (as_storage a); reflexivity.
    - rewrite (field_u64 v m S (lit "nonce") (as_nonce a)); [reflexivity| |exact N]. unfold m, account_members. rewrite (proj2 (Z.eqb_neq _ _) E). reflexivity. }
  assert (Ec : or_default (json_get_hex_bytes (Some v) (lit "code")) [] = as_code a).
  { destruct (as_code a) as [|c cs] eqn:E.
    - rewrite (field_no_bytes v m S); [reflexivity|]. unfold m, account_members. rewrite E. destruct (as_nonce a =? 0), (as_storage a); reflexivity.
    - rewrite (field_bytes v m S (lit "code") (c :: cs)); [reflexivity| |assumption|assumption]. unfold m, account_members. rewrite E. destruct (as_nonce a =? 0); reflexivity. }
  rewrite En, Ec. assert (Es : parse_storage (json_obj_get (Some v) (lit "storage")) = inl (filter nonzero (as_storage a))).
  { unfold json_obj_get. destruct (as_storage a) as [|e es] eqn:E.
    - rewrite (field_missing v m S); [reflexivity|]. unfold m, account_members. rewrite E. destruct (as_nonce a =? 0), (as_code a); reflexivity.
    - destruct (field_present v m S (lit "storage") (JObj (storage_members (e :: es)))) as (u & -> & U); [unfold m, account_members; rewrite E; destruct (as_nonce a =? 0), (as_code a); reflexivity|].
      apply parse_storage_spec; assumption. }
  rewrite Es. reflexivity.
Qed.

Lemma parse_alloc_spec v accs : Forall wf_snapshot accs -> Z.of_nat (List.length accs) * sizeof_account_snapshot <= DIV0_ARENA_BLOCK_SIZE -> shows v (alloc_json accs) ->
  t8n_parse_alloc_value (Some v) = inl (map without_zeros accs).
Proof.
  intros W L S. unfold t8n_parse_alloc_value. unfold alloc_json in S. rewrite (is_object v _ S). cbn [require]. unfold json_obj_size. rewrite (obj_size_shows v _ S).
  destruct accs as [|a accs]; [reflexivity|]. unfold alloc_members at 1 2. rewrite length_map. rewrite (proj2 (Z.eqb_neq _ _)) by (cbn [List.length]; lia).
  rewrite alloc_count by (unfold sizeof_account_snapshot in *; cbn [List.length] in *; lia). cbn [require]. set (l := a :: accs) in *.
  destruct (obj_entries_spec v _ S) as (vs & -> & F); [unfold alloc_members; rewrite length_map; unfold sizeof_account_snapshot, DIV0_ARENA_BLOCK_SIZE in *; lia|].
  apply parse_each_spec. unfold alloc_members in *. rewrite map_map. cbn [fst].
  apply (Forall2_combine _ (fun a => Some (c_string (hex_encode (as_address a)))) (fun v a => shows v (account_json a))).
  - exact (Forall2_map_r _ _ _ _ F).
  - intros x c I Sx. rewrite Forall_forall in W. pose proof (W c I) as Wc. rewrite c_string_ascii by (apply ascii_encode, (proj2 (ws_address c Wc))). apply parse_account_spec; assumption.
Qed.

End Read_alloc.

(** * Transaction files

    Transaction files as trees: what [t8n_write_txs] builds and that the parser
    reads it back, for all five formats. *)

(** ** Trees *)

Definition hex_u64 (n : Z) : json := JStr (hex_encode_u64 n).
Definition hex_word (x : uint256_t) : json := JStr (hex_encode_uint256 x).
Definition hex_bytes (bs : list Z) : json := JStr (hex_encode bs).

Definition keys_json (keys : list uint256_t) : json := JArr (map (fun k => JStr (hex_encode_uint256_padded k)) keys).
Definition entry_json (e : access_list_entry_t) : json := JObj [(lit "address", hex_bytes (ent_address e)); (lit "storageKeys", keys_json (ent_keys e))].
Definition access_list_json (l : access_list_t) : json := JArr (map entry_json l).

Definition auth_json (a : authorization_t) : json :=
  JObj [(lit "chainId", hex_u64 (auth_chain_id a)); (lit "address", hex_bytes (auth_address a)); (lit "nonce", hex_u64 (auth_nonce a));
        (lit "yParity", hex_u64 (auth_y_parity a)); (lit "r", hex_word (auth_r a)); (lit "s", hex_word (auth_s a))].
Definition auths_json (l : authorization_list_t) : json := JArr (map auth_json l).
Definition hashes_json (l : list hash_t) : json := JArr (map hex_bytes l).
Definition to_json (to : option address_t) : json := match to with Some a => hex_bytes a | None => JNull end.

Definition tx_members (tx : transaction_t) : list (list Z * json) :=
  (lit "type", hex_u64 (tx_type tx)) ::
  match tx with
  | TX_LEGACY t =>
      [(lit "nonce", hex_u64 (leg_nonce t)); (lit "gasPrice", hex_word (leg_gas_price t)); (lit "gas", hex_u64 (leg_gas_limit t)); (lit "to", to_json (leg_to t));
       (lit "value", hex_word (leg_value t)); (lit "input", hex_bytes (leg_data t)); (lit "v", hex_u64 (leg_v t)); (lit "r", hex_word (leg_r t)); (lit "s", hex_word (leg_s t))]
  | TX_EIP2930 t =>
      [(lit "chainId", hex_u64 (t1_chain_id t)); (lit "nonce", hex_u64 (t1_nonce t)); (lit "gasPrice", hex_word (t1_gas_price t)); (lit "gas", hex_u64 (t1_gas_limit t));
       (lit "to", to_json (t1_to t)); (lit "value", hex_word (t1_value t)); (lit "input", hex_bytes (t1_data t)); (lit "accessList", access_list_json (t1_access_list t));
       (lit "yParity", hex_u64 (t1_y_parity t)); (lit "r", hex_word (t1_r t)); (lit "s", hex_word (t1_s t))]
  | TX_EIP1559 t =>
      [(lit "chainId", hex_u64 (t2_chain_id t)); (lit "nonce", hex_u64 (t2_nonce t)); (lit "maxPriorityFeePerGas", hex_word (t2_max_priority_fee_per_gas t));
       (lit "maxFeePerGas", hex_word (t2_max_fee_per_gas t)); (lit "gas", hex_u64 (t2_gas_limit t)); (lit "to", to_json (t2_to t)); (lit "value", hex_word (t2_value t));
       (lit "input", hex_bytes (t2_data t)); (lit "accessList", access_list_json (t2_access_list t)); (lit "yParity", hex_u64 (t2_y_parity t));
       (lit "r", hex_word (t2_r t)); (lit "s", hex_word (t2_s t))]
  | TX_EIP4844 t =>
      [(lit "chainId", hex_u64 (t3_chain_id t)); (lit "nonce", hex_u64 (t3_nonce t)); (lit "maxPriorityFeePerGas", hex_word (t3_max_priority_fee_per_gas t));
       (lit "maxFeePerGas", hex_word (t3_max_fee_per_gas t)); (lit "gas", hex_u64 (t3_gas_limit t)); (lit "to", hex_bytes (t3_to t)); (lit "value", hex_word (t3_value t));
       (lit "input", hex_bytes (t3_data t)); (lit "maxFeePerBlobGas", hex_word (t3_max_fee_per_blob_gas t)); (lit "blobVersionedHashes", hashes_json (t3_blob_versioned_hashes t));
       (lit "accessList", access_list_json (t3_access_list t)); (lit "yParity", hex_u64 (t3_y_parity t)); (lit "r", hex_word (t3_r t)); (lit "s", hex_word (t3_s t))]
  | TX_EIP7702 t =>
      [(lit "chainId", hex_u64 (t4_chain_id t)); (lit "nonce", hex_u64 (t4_nonce t)); (lit "maxPriorityFeePerGas", hex_word (t4_max_priority_fee_per_gas t));
       (lit "maxFeePerGas", hex_word (t4_max_fee_per_gas t)); (lit "gas", hex_u64 (t4_gas_limit t)); (lit "to", hex_bytes (t4_to t)); (lit "value", hex_word (t4_value t));
       (lit "input", hex_bytes (t4_data t)); (lit "accessList", access_list_json (t4_access_list t)); (lit "authorizationList", auths_json (t4_authorization_list t));
       (lit "yParity", hex_u64 (t4_y_parity t)); (lit "r", hex_word (t4_r t)); (lit "s", hex_word (t4_s t))]
  end.

Definition tx_json (tx : transaction_t) : json := JObj (tx_members tx).
Definition txs_json (l : list transaction_t) : json := JArr (map tx_json l).

(** ** Writing *)

Section Write_txs.
Context {Y : Yyjson} {YM : YyjsonMut} {YL : YyjsonLaws} {YML : YyjsonMutLaws}.

Lemma write_keys_builds keys : forall a xs l (Q : bool -> list (mut_val * json) -> Prop), Q true ((a, JArr (xs ++ map (fun k => JStr (hex_encode_uint256_padded k)) keys)) :: l) ->
  builds (write_keys keys (Some a)) ((a, JArr xs) :: l) Q.
Proof.
  induction keys as [|k keys IH]; intros a xs l Q H; cbn [write_keys]; [build; cbn in H; rewrite app_nil_r in H; exact H|].
  build. cbv beta iota. build. apply IH. rewrite <- app_assoc. exact H.
Qed.

Lemma write_entries_builds es : forall a xs l (Q : option mut_val -> list (mut_val * json) -> Prop), Q (Some a) ((a, JArr (xs ++ map entry_json es)) :: l) ->
  builds (write_entries es (Some a)) ((a, JArr xs) :: l) Q.
Proof.
  induction es as [|e es IH]; intros a xs l Q H; cbn [write_entries]; [build; cbn in H; rewrite app_nil_r in H; exact H|].
  build. cbv beta iota. build. build. cbv beta iota. apply builds_bind, write_keys_builds. cbv beta iota. build. build. apply IH. rewrite <- app_assoc. exact H.
Qed.

Lemma write_access_list_writes es : writes (write_access_list es) (access_list_json es).
Proof. intros l. unfold write_access_list. build. cbv beta iota. apply write_entries_builds. exists p. auto. Qed.

Lemma write_hashes_builds hs : forall a xs l (Q : option mut_val -> list (mut_val * json) -> Prop), Q (Some a) ((a, JArr (xs ++ map hex_bytes hs)) :: l) ->
  builds (write_hashes hs (Some a)) ((a, JArr xs) :: l) Q.
Proof.
  induction hs as [|h hs IH]; intros a xs l Q H; cbn [write_hashes]; [build; cbn in H; rewrite app_nil_r in H; exact H|].
  build. cbv beta iota. build. apply IH. rewrite <- app_assoc. exact H.
Qed.

Lemma write_blob_hashes_writes hs : writes (write_blob_hashes hs) (hashes_json hs).
Proof. intros l. unfold write_blob_hashes. build. cbv beta iota. apply write_hashes_builds. exists p. auto. Qed.

Lemma write_authorizations_builds auths : forall a xs l (Q : option mut_val -> list (mut_val * json) -> Prop), Q (Some a) ((a, JArr (xs ++ map auth_json auths)) :: l) ->
  builds (write_authorizations auths (Some a)) ((a, JArr xs) :: l) Q.
Proof.
  induction auths as [|x auths IH]; intros a xs l Q H; cbn [write_authorizations]; [build; cbn in H; rewrite app_nil_r in H; exact H|].
  build. cbv beta iota. do 7 build. apply IH. rewrite <- app_assoc. exact H.
Qed.

Lemma write_authorization_list_writes auths : writes (write_authorization_list auths) (auths_json auths).
Proof. intros l. unfold write_authorization_list. build. cbv beta iota. apply write_authorizations_builds. exists p. auto. Qed.

Lemma write_to_builds o to m l (Q : bool -> list (mut_val * json) -> Prop) : Q true ((o, JObj (m ++ [(lit "to", to_json to)])) :: l) -> builds (write_to (Some o) to) ((o, JObj m) :: l) Q.
Proof. intros H. unfold write_to. destruct to as [a|]; build; exact H. Qed.

Ltac build_tx :=
  repeat lazymatch goal with
  | |- builds (w_bind (write_to _ _) _) _ _ => apply builds_bind, write_to_builds
  | |- builds (w_bind (write_access_list _) _) _ _ => apply builds_bind; eapply writes_builds; [apply write_access_list_writes|]; intros ?
  | |- builds (w_bind (write_blob_hashes _) _) _ _ => apply builds_bind; eapply writes_builds; [apply write_blob_hashes_writes|]; intros ?
  | |- builds (w_bind (write_authorization_list _) _) _ _ => apply builds_bind; eapply writes_builds; [apply write_authorization_list_writes|]; intros ?
  | |- builds _ _ _ => build
  end.

Lemma write_tx_writes tx : writes (t8n_write_tx tx) (tx_json tx).
Proof.
  intros l. unfold t8n_write_tx. build. cbv beta iota. build. apply builds_bind.
  destruct tx as [t|t|t|t|t]; build_tx; exists p; (split; [reflexivity|]); cbn [app]; reflexivity.
Qed.

Lemma write_transactions_builds txs : forall a xs l (Q : option mut_val -> list (mut_val * json) -> Prop), Q (Some a) ((a, JArr (xs ++ map tx_json txs)) :: l) ->
  builds (write_transactions txs (Some a)) ((a, JArr xs) :: l) Q.
Proof.
  induction txs as [|t txs IH]; intros a xs l Q H; cbn [write_transactions]; [build; cbn in H; rewrite app_nil_r in H; exact H|].
  apply builds_bind. eapply writes_builds; [apply write_tx_writes|]. intros p. cbv beta iota. build. apply IH. rewrite <- app_assoc. exact H.
Qed.

Lemma write_txs_writes txs : writes (t8n_write_txs txs) (txs_json txs).
Proof. intros l. unfold t8n_write_txs. build. cbv beta iota. apply write_transactions_builds. exists p. auto. Qed.

End Write_txs.

(** ** Reading back *)

(** What the arrays of the parser hold: 64 KB each. *)
Definition fits (n : nat) (size : Z) : Prop := Z.of_nat n * size <= DIV0_ARENA_BLOCK_SIZE.
Definition fits_access (l : access_list_t) : Prop := fits (List.length l) sizeof_access_list_entry /\ Forall (fun e => fits (List.length (ent_keys e)) sizeof_uint256) l.

Definition fits_tx (tx : transaction_t) : Prop :=
  fits (List.length (transaction_data tx)) 1 /\
  match tx with
  | TX_LEGACY _ => True
  | TX_EIP2930 t => fits_access (t1_access_list t)
  | TX_EIP1559 t => fits_access (t2_access_list t)
  | TX_EIP4844 t => fits_access (t3_access_list t) /\ fits (List.length (t3_blob_versioned_hashes t)) SIZEOF_HASH
  | TX_EIP7702 t => fits_access (t4_access_list t) /\ fits (List.length (t4_authorization_list t)) sizeof_authorization
  end.

Section Read_txs.
Context {Y : Yyjson} {YL : YyjsonLaws}.

(** An array whose elements are parsed one by one. *)
Lemma parse_array_spec {A} (f : yyjson_val -> parsed A) (g : A -> json) v xs : shows v (JArr (map g xs)) -> Z.of_nat (List.length xs) < 2 ^ 64 ->
  (forall u x, In x xs -> shows u (g x) -> f u = inl x) -> parse_each f (arr_entries (Some v)) = inl xs.
Proof.
  intros S L H. pose proof (Forall2_map_r _ _ _ _ (arr_entries_spec v _ S ltac:(rewrite length_map; exact L))) as F. apply parse_each_spec.
  clear S L. revert F H. generalize (arr_entries (Some v)). induction 1 as [|u x us xs U _ IH]; intros H; constructor; [apply H; [left; reflexivity | exact U]|]. apply IH. intros u' x' I. apply H. right. exact I.
Qed.

(** The common shape of the array parsers: absent or empty arrays need no memory. *)
Lemma parse_list_spec {A} (f : yyjson_val -> parsed A) (g : A -> json) v xs size (e : parsed (list A)) : shows v (JArr (map g xs)) -> 0 < size -> fits (List.length xs) size ->
  (forall u x, In x xs -> shows u (g x) -> f u = inl x) ->
  present (Some v) json_is_arr = true /\ json_arr_len (Some v) = Z.of_nat (List.length xs) /\
  (if Z.of_nat (List.length xs) =? 0 then inl [] else if alloc_succeeds (mul64 (Z.of_nat (List.length xs)) size) then parse_each f (arr_entries (Some v)) else e) = inl xs.
Proof.
  unfold fits, DIV0_ARENA_BLOCK_SIZE. intros S P L H. split; [exact (is_arr_shows v _ S)|]. split; [unfold json_arr_len; rewrite (arr_size_shows v _ S), length_map; reflexivity|].
  destruct (Z.eqb_spec (Z.of_nat (List.length xs)) 0) as [E|E]; [destruct xs; [reflexivity | discriminate]|]. rewrite alloc_count by (unfold DIV0_ARENA_BLOCK_SIZE; lia). apply (parse_array_spec f g); [exact S | nia | exact H].
Qed.

Lemma parse_keys_spec v keys : shows v (keys_json keys) -> Forall wf256 keys -> fits (List.length keys) sizeof_uint256 -> parse_storage_keys (Some v) = inl keys.
Proof.
  intros S W L. unfold parse_storage_keys. destruct (parse_list_spec parse_storage_key _ v keys sizeof_uint256 (inl []) S ltac:(reflexivity) L) as (-> & -> & E).
  - intros u x I U. rewrite Forall_forall in W. unfold parse_storage_key. rewrite (value_padded u x _ U (W x I)). reflexivity.
  - destruct (Z.of_nat (List.length keys) =? 0) eqn:Z0; cbn [require].
    + destruct keys; [|discriminate]. unfold keys_json in S. apply (parse_array_spec _ (fun k => JStr (hex_encode_uint256_padded k)) v [] S ltac:(reflexivity)). intros u x [].
    + apply Z.eqb_neq in Z0. rewrite alloc_count in * by (unfold fits, sizeof_uint256 in *; lia). exact E.
Qed.

Lemma parse_entry_spec v e : shows v (entry_json e) -> wf_entry e -> fits (List.length (ent_keys e)) sizeof_uint256 -> parse_access_list_entry v = inl e.
Proof.
  intros S [Wa Wk] L. unfold parse_access_list_entry. unfold json_is_obj. rewrite (is_obj_shows v _ S). cbn [require is_JObj entry_json]. unfold required_address.
  rewrite (field_address v _ S (lit "address") (ent_address e)) by (reflexivity || exact Wa). cbn [require]. unfold json_obj_get.
  destruct (field_present v _ S (lit "storageKeys") (keys_json (ent_keys e)) eq_refl) as (u & -> & U). rewrite (parse_keys_spec u _ U Wk L). cbn [andthen]. destruct e. reflexivity.
Qed.

Lemma parse_access_list_spec v l : shows v (access_list_json l) -> Forall wf_entry l -> fits_access l -> parse_access_list (Some v) = inl l.
Proof.
  intros S W [L F]. unfold parse_access_list. destruct (parse_list_spec parse_access_list_entry _ v l sizeof_access_list_entry (fails JSON_ERR_ALLOC "failed to allocate access list") S ltac:(reflexivity) L) as (-> & -> & E); [|exact E].
  intros u x I U. rewrite Forall_forall in W, F. apply parse_entry_spec; auto.
Qed.

Lemma value_hash u h : shows u (hex_bytes h) -> wf_hash h -> json_val_hex_hash (Some u) hash_zero = (true, h).
Proof. intros U [L B]. unfold json_val_hex_hash. unfold HASH_SIZE in L. destruct (value_bytes u h hash_zero U B) as [-> ->]; [rewrite L; reflexivity | lia | reflexivity]. Qed.

Lemma parse_blob_hashes_spec v l : shows v (hashes_json l) -> Forall wf_hash l -> fits (List.length l) SIZEOF_HASH -> parse_blob_hashes (Some v) = inl l.
Proof.
  intros S W L. unfold parse_blob_hashes. destruct (parse_list_spec parse_blob_hash _ v l SIZEOF_HASH (fails JSON_ERR_ALLOC "failed to allocate blob hashes") S ltac:(reflexivity) L) as (-> & -> & E); [|exact E].
  intros u h I U. rewrite Forall_forall in W. unfold parse_blob_hash. rewrite (value_hash u h U (W h I)). reflexivity.
Qed.

(** Fields of an object by their literal names. *)
Section Tx_fields.
Variables (v : yyjson_val) (m : list (list Z * json)).
Hypothesis S : shows v (JObj m).

Lemma u64_field_spec key n : find_key m (lit key) = Some (hex_u64 n) -> u64 n -> u64_field (Some v) key = n.
Proof. intros F U. unfold u64_field. rewrite (field_u64 v m S _ n F U). reflexivity. Qed.

Lemma word_field_spec key x : find_key m (lit key) = Some (hex_word x) -> wf256 x -> word_field (Some v) key = x.
Proof. intros F W. unfold word_field. rewrite (field_word v m S _ x _ F W). reflexivity. Qed.

Lemma gas_field_spec n : find_key m (lit "gas") = Some (hex_u64 n) -> u64 n -> gas_field (Some v) = n.
Proof. intros F U. unfold gas_field. rewrite (field_u64 v m S _ n F U). reflexivity. Qed.

Lemma data_field_spec bs : find_key m (lit "input") = Some (hex_bytes bs) -> find_key m (lit "data") = None -> bytes_ok bs -> fits (List.length bs) 1 -> data_field (Some v) = bs.
Proof.
  unfold fits. intros F N B L. unfold data_field. rewrite (field_bytes v m S _ bs F B), (field_no_bytes v m S _ N) by lia. cbn [or_default]. destruct (_ =? 0); reflexivity.
Qed.

Lemma to_field_spec to : find_key m (lit "to") = Some (to_json to) -> wf_to to -> to_field (Some v) = inl to.
Proof.
  intros F W. unfold to_field, json_obj_get. destruct (field_present v m S _ _ F) as (u & -> & U). unfold json_is_null. rewrite (is_null_shows u _ U). destruct to as [a|]; cbn [to_json is_JNull hex_bytes]; [|reflexivity].
  cbn [require]. destruct W as [L B]. unfold json_val_hex_address, ADDRESS_SIZE in *. destruct (value_bytes u a address_zero U B) as [-> ->]; [rewrite L; reflexivity | lia | reflexivity].
Qed.

Lemma required_to_spec {A} a detail (k : address_t -> parsed A) : find_key m (lit "to") = Some (hex_bytes a) -> wf_address a -> required_address (Some v) "to" detail k = k a.
Proof. intros F W. unfold required_address. rewrite (field_address v m S _ a _ F W) by reflexivity. reflexivity. Qed.

Lemma parity_spec n old : find_key m (lit "yParity") = Some (hex_u64 n) -> u8 n -> parse_parity (Some v) old = n.
Proof. intros F U. unfold parse_parity. rewrite (field_u64 v m S _ n F) by (unfold u8, u64 in *; lia). apply w8_small, U. Qed.

Lemma access_field_spec l : find_key m (lit "accessList") = Some (access_list_json l) -> Forall wf_entry l -> fits_access l -> parse_access_list (json_obj_get (Some v) (lit "accessList")) = inl l.
Proof. intros F W L. unfold json_obj_get. destruct (field_present v m S _ _ F) as (u & -> & U). apply parse_access_list_spec; assumption. Qed.
End Tx_fields.

Lemma parse_auth_spec v a : shows v (auth_json a) -> wf_auth a -> parse_authorization v = inl a.
Proof.
  intros S [Wc Wa Wn Wp Wr Ws]. unfold parse_authorization. unfold json_is_obj. rewrite (is_obj_shows v _ S). cbn [require is_JObj auth_json]. unfold auth_json in S.
  fold (u64_field (Some v) "chainId"). rewrite (u64_field_spec v _ S "chainId" (auth_chain_id a)) by (reflexivity || assumption).
  unfold required_address, required_u64, required_word. rewrite (field_address v _ S (lit "address") (auth_address a)) by (reflexivity || assumption). cbn [require].
  rewrite (field_u64 v _ S (lit "nonce") (auth_nonce a)), (parity_spec v _ S (auth_y_parity a)) by (reflexivity || assumption).
  rewrite (field_word v _ S (lit "r") (auth_r a)), (field_word v _ S (lit "s") (auth_s a)) by (reflexivity || assumption). destruct a. reflexivity.
Qed.

Lemma parse_auths_spec v l : shows v (auths_json l) -> Forall wf_auth l -> fits (List.length l) sizeof_authorization -> parse_authorization_list (Some v) = inl l.
Proof.
  intros S W L. unfold parse_authorization_list. destruct (parse_list_spec parse_authorization _ v l sizeof_authorization (fails JSON_ERR_ALLOC "failed to allocate authorization list") S ltac:(reflexivity) L) as (-> & -> & E); [|exact E].
  intros u x I U. rewrite Forall_forall in W. apply parse_auth_spec; auto.
Qed.

(** Rewrite the fields of a transaction that is shown by its tree. *)
Ltac read_tx v S :=
  rewrite ?(gas_field_spec v _ S _ eq_refl), ?(data_field_spec v _ S _ eq_refl eq_refl), ?(parity_spec v _ S _ _ eq_refl) by assumption;
  repeat match goal with
  | |- context [u64_field (Some v) ?k] => erewrite (u64_field_spec v _ S k) by (reflexivity || assumption)
  | |- context [word_field (Some v) ?k] => erewrite (word_field_spec v _ S k) by (reflexivity || assumption)
  end.

Lemma parse_tx_spec v tx : shows v (tx_json tx) -> wf_transaction tx -> fits_tx tx -> t8n_parse_tx (Some v) = inl tx.
Proof.
  intros S W [D L]. unfold t8n_parse_tx. unfold tx_json in S. rewrite (is_object v _ S). cbn [require]. rewrite (u64_field_spec v _ S "type" (tx_type tx)) by (try reflexivity; destruct tx; split; reflexivity || discriminate).
  destruct tx as [t|t|t|t|t]; cbn [tx_type Z.eqb Pos.eqb transaction_data] in *; destruct W; destruct t.
  - rewrite (to_field_spec v _ S _ eq_refl) by assumption. cbn [andthen]. read_tx v S. reflexivity.
  - rewrite (to_field_spec v _ S _ eq_refl), (access_field_spec v _ S _ eq_refl) by assumption. cbn [andthen]. read_tx v S. reflexivity.
  - rewrite (to_field_spec v _ S _ eq_refl), (access_field_spec v _ S _ eq_refl) by assumption. cbn [andthen]. read_tx v S. reflexivity.
  - destruct L as [La Lh]. rewrite (required_to_spec v _ S _ _ _ eq_refl), (access_field_spec v _ S _ eq_refl) by assumption. cbn [andthen]. unfold json_obj_get.
    destruct (field_present v _ S (lit "blobVersionedHashes") _ eq_refl) as (u & -> & U). rewrite (parse_blob_hashes_spec u _ U) by assumption. cbn [andthen]. read_tx v S. reflexivity.
  - destruct L as [La Lh]. rewrite (required_to_spec v _ S _ _ _ eq_refl), (access_field_spec v _ S _ eq_refl) by assumption. cbn [andthen]. unfold json_obj_get.
    destruct (field_present v _ S (lit "authorizationList") _ eq_refl) as (u & -> & U). rewrite (parse_auths_spec u _ U) by assumption. cbn [andthen]. read_tx v S. reflexivity.
Qed.

Lemma parse_txs_spec v txs : shows v (txs_json txs) -> Forall (fun tx => wf_transaction tx /\ fits_tx tx) txs -> fits (List.length txs) sizeof_transaction -> t8n_parse_txs_value (Some v) = inl txs.
Proof.
  intros S W L. unfold t8n_parse_txs_value. destruct (parse_list_spec (fun v => t8n_parse_tx (Some v)) _ v txs sizeof_transaction (fails JSON_ERR_ALLOC "failed to allocate transactions") S ltac:(reflexivity) L) as (-> & -> & E); [|exact E].
  intros u x I U. rewrite Forall_forall in W. destruct (W x I). apply parse_tx_spec; assumption.
Qed.

End Read_txs.

(** ** The trees can be printed *)

Lemma printable_list {A} (g : A -> json) xs : (forall x, In x xs -> printable (g x)) -> printable (JArr (map g xs)).
Proof. intros H. constructor. apply Forall_map, Forall_forall, H. Qed.

Lemma printable_address a : wf_address a -> printable (hex_bytes a).
Proof. intros [_ B]. apply printable_bytes, B. Qed.

Lemma printable_to to : wf_to to -> printable (to_json to).
Proof. destruct to as [a|]; cbn; [apply printable_address | constructor]. Qed.

Lemma printable_parity n : u8 n -> printable (hex_u64 n).
Proof. intros U. apply printable_u64. unfold u8, u64 in *. lia. Qed.

#[local] Hint Unfold hex_u64 hex_word hex_bytes : json_db.
#[local] Hint Resolve printable_address printable_to printable_parity : json_db.

Lemma printable_access l : Forall wf_entry l -> printable (access_list_json l).
Proof.
  intros W. apply printable_list. intros e I. rewrite Forall_forall in W. destruct (W e I) as [Wa Wk]. constructor. members. apply printable_list. intros k J. rewrite Forall_forall in Wk. auto with json_db.
Qed.

Lemma printable_hashes l : Forall wf_hash l -> printable (hashes_json l).
Proof. intros W. apply printable_list. intros h I. rewrite Forall_forall in W. apply printable_bytes, (proj2 (W h I)). Qed.

Lemma printable_auths l : Forall wf_auth l -> printable (auths_json l).
Proof. intros W. apply printable_list. intros a I. rewrite Forall_forall in W. destruct (W a I). constructor. members. Qed.

#[local] Hint Resolve printable_access printable_hashes printable_auths : json_db.

Lemma printable_tx tx : wf_transaction tx -> printable (tx_json tx).
Proof.
  intros W. constructor. apply Forall_cons; [apply printable_field; [reflexivity|]; apply printable_u64; destruct tx; split; reflexivity || discriminate|].
  destruct tx as [t|t|t|t|t]; destruct W; members.
Qed.

Lemma printable_txs txs : Forall wf_transaction txs -> printable (txs_json txs).
Proof. intros W. apply printable_list. intros tx I. rewrite Forall_forall in W. apply printable_tx, W, I. Qed.
