(* ===== verification/T8nCommand.v ===== *)
(** The transition tool: src/cli/t8n/t8n_command.c and t8n_command.h.

    [cmd_t8n] from its parsed options on: loading the inputs, building the
    state, running the block, assembling and writing the result. The options
    come from the argparse library, standard input is the text that was read
    ([None] when reading fails), and progress messages are left out. *)
From Stdlib Require Import ZArith Lia List Bool String.
From S2P Require Import Prelude Uint256 Types Effects Arena Account StateAccess HashTable WorldState Transaction TxRlp Frame Evm Executor.
From S2P Require Import Hex Json T8nAlloc T8nEnv T8nTxs T8nResult.
Import ListNotations.
#[local] Open Scope Z_scope.
#[local] Open Scope word_scope.
#[local] Open Scope json_scope.

(** * exit_codes.h, t8n_command.h *)

Definition DIV0_EXIT_SUCCESS : Z := 0.
Definition DIV0_EXIT_GENERAL_ERROR : Z := 1.
Definition DIV0_EXIT_EVM_ERROR : Z := 2.
Definition DIV0_EXIT_CONFIG_ERROR : Z := 3.
Definition DIV0_EXIT_JSON_ERROR : Z := 10.
Definition DIV0_EXIT_IO_ERROR : Z := 11.

Record t8n_options_t := Options {
  opt_input_alloc : cstr; opt_input_env : cstr; opt_input_txs : cstr; opt_output_basedir : cstr; opt_output_result : cstr; opt_output_alloc : cstr;
  opt_output_body : option cstr; opt_fork : cstr; opt_chain_id : Z; opt_reward : Z; opt_verbose : bool }.

Definition t8n_options_init : t8n_options_t :=
  Options (lit "alloc.json") (lit "env.json") (lit "txs.json") (lit ".") (lit "result.json") (lit "alloc.json") None (lit "Shanghai") 1 0 true.

(** * Helpers *)

Definition MAX_PATH_LEN : Z := 4096.

(** [strcmp(a, b) == 0] *)
Definition is_stdin (path : cstr) : bool := bytes_eqb path (lit "stdin").
Definition is_stdout (path : cstr) : bool := bytes_eqb path (lit "stdout").

Definition parse_fork (name : cstr) : fork_t :=
  if bytes_eqb name (lit "Shanghai") then FORK_SHANGHAI
  else if bytes_eqb name (lit "Cancun") then FORK_CANCUN
  else if bytes_eqb name (lit "Prague") then FORK_PRAGUE
  else FORK_UNKNOWN.

(** The values of the enumeration. *)
Definition fork_number (f : fork_t) : Z := match f with FORK_SHANGHAI => 0 | FORK_CANCUN => 1 | FORK_PRAGUE => 2 | FORK_UNKNOWN => -1 end.

(** [None]: the callback returns false. *)
Fixpoint get_block_hash_cb (hashes : list t8n_block_hash_t) (block_number : Z) : option hash_t :=
  match hashes with
  | [] => None
  | h :: rest => if bh_number h =? block_number then Some (bh_hash h) else get_block_hash_cb rest block_number
  end.

Definition build_path (basedir filename : cstr) : option cstr :=
  if strlen basedir +64 1 +64 strlen filename +64 1 >? MAX_PATH_LEN then None else Some (basedir ++ [47] ++ filename).

(** * Building the state *)

Section State.
Context {St : Type} {SA : StateAccess St}.

Definition build_account (state : St) (acc : account_snapshot_t) : St :=
  let a := as_address acc in
  let state := set_balance state a (as_balance acc) in
  let state := if as_nonce acc >? 0 then set_nonce state a (as_nonce acc) else state in
  let state := if Z.of_nat (List.length (as_code acc)) >? 0 then set_code state a (as_code acc) else state in
  fold_left (fun state e => set_storage state a (se_slot e) (se_value e)) (as_storage acc) state.

Definition build_state_from_snapshot (state : St) (snapshot : list account_snapshot_t) : St := fold_left build_account snapshot state.

(** [if (opts.reward >= 0)] *)
Definition apply_reward (state : St) (coinbase : address_t) (reward : Z) : St :=
  if reward >=? 0 then set_balance state coinbase (uint256_add (get_balance state coinbase) (uint256_from_u64 (w64 reward))) else state.
End State.

Definition block_context_of (env : t8n_env_t) (chain : Z) : block_context_t :=
  BlockContext (env_number env) (env_timestamp env) (env_gas_limit env) (w64 chain)
    (if fst (env_base_fee env) then snd (env_base_fee env) else uint256_zero) uint256_zero
    (if fst (env_prev_randao env) then snd (env_prev_randao env) else uint256_zero)
    (env_coinbase env) (Some (get_block_hash_cb (env_block_hashes env))).

(** * The result *)

Definition sizeof_block_tx : Z := 40.
Definition sizeof_t8n_receipt : Z := 384.
Definition sizeof_t8n_rejected : Z := 16.

(** An array of [count] entries that is filled without a test of its pointer. *)
Definition unchecked_array {A} (count size : Z) (a : A) : A + fault :=
  if count =? 0 then inl a else if alloc_succeeds (count *64 size) then inl a else inr OutOfBounds.

Definition copy_receipt (i : nat) (r : exec_receipt_t) : t8n_receipt_t :=
  T8nReceipt (rcp_tx_type r) (rcp_tx_hash r) (Z.of_nat i) (rcp_gas_used r) (rcp_cumulative_gas r) (rcp_success r) (repeat 0 BLOOM_SIZE) [] (rcp_created_address r).

Fixpoint copy_receipts (i : nat) (l : list exec_receipt_t) : list t8n_receipt_t :=
  match l with [] => [] | r :: rest => copy_receipt i r :: copy_receipts (S i) rest end.

Definition build_result (fork : fork_t) (env : t8n_env_t) (r : block_exec_result_t) : t8n_result_t + fault :=
  match unchecked_array (Z.of_nat (List.length (res_receipts r))) sizeof_t8n_receipt (copy_receipts 0 (res_receipts r)) with
  | inr f => inr f
  | inl receipts =>
      match unchecked_array (Z.of_nat (List.length (res_rejected r))) sizeof_t8n_rejected (map (fun x => T8nRejected (rej_index x) (lit (rej_error_message x))) (res_rejected r)) with
      | inr f => inr f
      | inl rejected =>
          let blobs := (fork_number fork >=? fork_number FORK_CANCUN) && fst (env_excess_blob_gas env) in
          inl (T8nResult (res_state_root r) hash_zero hash_zero hash_zero (repeat 0 BLOOM_SIZE) (res_gas_used r)
                 (if blobs then (true, res_blob_gas_used r) else (false, 0)) receipts [] rejected
                 (if fst (env_difficulty env) then (true, snd (env_difficulty env)) else (false, uint256_zero))
                 (true, if fst (env_base_fee env) then snd (env_base_fee env) else uint256_from_u64 7)
                 (true, MPT_EMPTY_ROOT)
                 (if blobs then (true, snd (env_excess_blob_gas env)) else (false, 0)) (false, hash_zero))
      end
  end.

(** * Inputs *)

Section Inputs.
Context {Y : Yyjson}.

Definition inputs_t : Type := (list account_snapshot_t * t8n_env_t * list transaction_t)%type.

(** An error of a parser ends the command. *)
Definition or_json_error {A B} (m : parsed A) (k : A -> B + Z) : B + Z := match m with inl a => k a | inr _ => inr DIV0_EXIT_JSON_ERROR end.

(** The value of a key of the combined document, which must be there. *)
Definition section_of {B} (root : option yyjson_val) (key : string) (k : option yyjson_val -> B + Z) : B + Z :=
  match json_obj_get root (lit key) with None => inr DIV0_EXIT_JSON_ERROR | v => k v end.

Definition load_stdin (stdin : option json_text) : inputs_t + Z :=
  match stdin with
  | None => inr DIV0_EXIT_IO_ERROR
  | Some text =>
      let '(doc, result) := json_parse text in
      if json_is_err result then inr DIV0_EXIT_JSON_ERROR
      else
        let root := json_doc_root doc in
        if negb (json_is_obj root) then inr DIV0_EXIT_JSON_ERROR
        else
          section_of root "alloc" (fun alloc_val => or_json_error (t8n_parse_alloc_value alloc_val) (fun pre_state =>
          section_of root "env" (fun env_val => or_json_error (t8n_parse_env_value env_val) (fun env =>
          section_of root "txs" (fun txs_val => or_json_error (t8n_parse_txs_value txs_val) (fun txs =>
          inl (pre_state, env, txs)))))))
  end.

Definition load_files (opts : t8n_options_t) (fs : file_system) : inputs_t + Z :=
  or_json_error (t8n_parse_alloc_file fs (opt_input_alloc opts)) (fun pre_state =>
  or_json_error (t8n_parse_env_file fs (opt_input_env opts)) (fun env =>
  or_json_error (t8n_parse_txs_file fs (opt_input_txs opts)) (fun txs =>
  inl (pre_state, env, txs)))).

Definition load_inputs (opts : t8n_options_t) (fs : file_system) (stdin : option json_text) : inputs_t + Z :=
  if is_stdin (opt_input_alloc opts) && is_stdin (opt_input_env opts) && is_stdin (opt_input_txs opts) then load_stdin stdin else load_files opts fs.
End Inputs.

(** * The command *)

Section Command.
Context {Y : Yyjson} {YM : YyjsonMut} {M : Type -> Type -> Type} {HT : HashTables M}.
Variable keccak256 : list Z -> hash_t.
Variable ecdsa_recover : list Z -> Z -> list Z -> option (list Z).
Variable stdout : stream.
#[local] Abbreviation world := (@world_state_t M).
#[local] Instance world_access : StateAccess world := WORLD_STATE_VTABLE keccak256.

Definition write_json_to_output (fs : file_system) (basedir filename : cstr) (root : option mut_val) (d : mut_doc) : file_system * Z :=
  if is_stdout filename then
    let '(fs, r) := json_write_fp fs d root stdout JSON_WRITE_PRETTY in
    (fs, if json_is_err r then DIV0_EXIT_IO_ERROR else DIV0_EXIT_SUCCESS)
  else
    match build_path basedir filename with
    | None => (fs, DIV0_EXIT_CONFIG_ERROR)
    | Some path =>
        let '(fs, r) := json_write_file fs d root path JSON_WRITE_PRETTY in
        (fs, if json_is_err r then DIV0_EXIT_IO_ERROR else DIV0_EXIT_SUCCESS)
    end.

Definition write_result_output (fs : file_system) (basedir filename : cstr) (result : t8n_result_t) : file_system * Z :=
  match json_writer_init with
  | (None, _) => (fs, DIV0_EXIT_JSON_ERROR)
  | (Some d, _) =>
      match t8n_write_result result d with
      | (_, None) => (fs, DIV0_EXIT_JSON_ERROR)
      | (d, root) => write_json_to_output fs basedir filename root d
      end
  end.

Definition write_alloc_output (fs : file_system) (basedir filename : cstr) (ws : world) : (file_system * Z) + fault :=
  match world_state_snapshot keccak256 ws with
  | inr f => inr f
  | inl None => inl (fs, DIV0_EXIT_GENERAL_ERROR)
  | inl (Some snapshot) =>
      match json_writer_init with
      | (None, _) => inl (fs, DIV0_EXIT_JSON_ERROR)
      | (Some d, _) =>
          match t8n_write_alloc snapshot d with
          | (_, None) => inl (fs, DIV0_EXIT_JSON_ERROR)
          | (d, root) => inl (write_json_to_output fs basedir filename root d)
          end
      end
  end.

(** The three parts of the combined document; [None] when one is null. *)
Definition combined (result : t8n_result_t) (snapshot : list account_snapshot_t) : W (option mut_val) :=
  let* root := json_write_obj in
  match root with
  | None => w_ret None
  | Some _ =>
      let* result_obj := t8n_write_result result in
      match result_obj with
      | None => w_ret None
      | Some _ =>
          json_obj_add root (lit "result") result_obj ;;;
          let* alloc_obj := t8n_write_alloc snapshot in
          match alloc_obj with
          | None => w_ret None
          | Some _ => json_obj_add root (lit "alloc") alloc_obj ;;; json_obj_add_str root (lit "body") (lit "0x") ;;; w_ret root
          end
      end
  end.

Definition write_combined_stdout (fs : file_system) (result : t8n_result_t) (ws : world) : (file_system * Z) + fault :=
  match world_state_snapshot keccak256 ws with
  | inr f => inr f
  | inl None => inl (fs, DIV0_EXIT_GENERAL_ERROR)
  | inl (Some snapshot) =>
      match json_writer_init with
      | (None, _) => inl (fs, DIV0_EXIT_JSON_ERROR)
      | (Some d, _) =>
          match combined result snapshot d with
          | (_, None) => inl (fs, DIV0_EXIT_JSON_ERROR)
          | (d, root) =>
              let '(fs, r) := json_write_fp fs d root stdout JSON_WRITE_PRETTY in
              inl (fs, if json_is_err r then DIV0_EXIT_IO_ERROR else DIV0_EXIT_SUCCESS)
          end
      end
  end.

(** The senders, in an array that is filled without a test of its pointer. *)
Fixpoint recover_senders (i : nat) (txs : list transaction_t) : list block_tx_t + fault :=
  match txs with
  | [] => inl []
  | tx :: rest =>
      match transaction_recover_sender keccak256 ecdsa_recover tx with
      | None => inr OutOfBounds
      | Some r =>
          let btx := match r with Some a => BlockTx tx a true (Z.of_nat i) | None => BlockTx tx address_zero false (Z.of_nat i) end in
          match recover_senders (S i) rest with inl l => inl (btx :: l) | inr f => inr f end
      end
  end.

Definition block_transactions (txs : list transaction_t) : list block_tx_t + fault :=
  match unchecked_array (Z.of_nat (List.length txs)) sizeof_block_tx tt with inr f => inr f | inl _ => recover_senders 0 txs end.

(** From the inputs to the result and the state after the block. [inr] of the
    inner sum is an exit code. *)
Definition run_block (rounds fuel : nat) (opts : t8n_options_t) (inputs : inputs_t) : ((t8n_result_t * world) + Z) + fault :=
  let '(pre_state, env, txs) := inputs in
  let fork := parse_fork (opt_fork opts) in
  let ws := build_state_from_snapshot (world_state_create : world) pre_state in
  let block_ctx := block_context_of env (opt_chain_id opts) in
  match block_transactions txs with
  | inr f => inr f
  | inl block_txs =>
      match block_executor_run keccak256 rounds fuel (BlockExecutor block_ctx (w64 (opt_chain_id opts))) (evm_init fork) ws block_txs with
      | inr f => inr f
      | inl (_, _, None) => inl (inr DIV0_EXIT_EVM_ERROR)
      | inl (_, ws, Some exec_result) =>
          let ws := apply_reward ws (env_coinbase env) (opt_reward opts) in
          match build_result fork env exec_result with
          | inr f => inr f
          | inl result => inl (inl (result, ws))
          end
      end
  end.

Definition write_outputs (opts : t8n_options_t) (fs : file_system) (result : t8n_result_t) (ws : world) : (file_system * Z) + fault :=
  if is_stdout (opt_output_result opts) && is_stdout (opt_output_alloc opts) then write_combined_stdout fs result ws
  else
    let '(fs, exit_code) := write_result_output fs (opt_output_basedir opts) (opt_output_result opts) result in
    if negb (exit_code =? DIV0_EXIT_SUCCESS) then inl (fs, exit_code)
    else write_alloc_output fs (opt_output_basedir opts) (opt_output_alloc opts) ws.

(** The exit code and the files after the command. *)
Definition cmd_t8n (rounds fuel : nat) (opts : t8n_options_t) (fs : file_system) (stdin : option json_text) : (file_system * Z) + fault :=
  match parse_fork (opt_fork opts) with
  | FORK_UNKNOWN => inl (fs, DIV0_EXIT_CONFIG_ERROR)
  | _ =>
      match load_inputs opts fs stdin with
      | inr code => inl (fs, code)
      | inl inputs =>
          match run_block rounds fuel opts inputs with
          | inr f => inr f
          | inl (inr code) => inl (fs, code)
          | inl (inl (result, ws)) => write_outputs opts fs result ws
          end
      end
  end.

End Command.
