(* ===== verification/ImportSpec.v ===== *)
(** Importing a state file: [build_state_from_snapshot] on a new world state
    gives exactly the listed accounts. *)
From Stdlib Require Import ZArith Lia List Bool.
From S2P Require Import Prelude Uint256 Types Effects Arena Stack Bytes RlpSpec Account StateAccess HashTable Nibbles Trie TrieSpec.
From S2P Require Import TrieMap WorldState WorldSpec WorldLaws WorldView T8nCommand.
Import ListNotations.
#[local] Open Scope Z_scope.
#[local] Open Scope trie_scope.

(** * The calls of an import *)

Definition account_calls (x : account_snapshot_t) : list call :=
  let a := as_address x in
  [SetBalance a (as_balance x)] ++ (if as_nonce x >? 0 then [SetNonce a (as_nonce x)] else []) ++
  (if Z.of_nat (length (as_code x)) >? 0 then [SetCode a (as_code x)] else []) ++ map (fun e => SetStorage a (se_slot e) (se_value e)) (as_storage x).

(** The value of a slot after the writes of a list of entries. *)
Definition slot_of (es : list storage_entry_t) (k v : uint256_t) : uint256_t := fold_left (fun v e => if uint256_eq (se_slot e) k then se_value e else v) es v.

Record importable (x : account_snapshot_t) : Prop := {
  im_address : wf_address (as_address x); im_balance : wf256 (as_balance x); im_nonce : u64 (as_nonce x); im_code : code_size_ok (as_code x);
  im_storage : Forall (fun e => wf256 (se_slot e) /\ wf256 (se_value e)) (as_storage x) }.

Lemma account_calls_ok x : importable x -> Forall call_ok (account_calls x).
Proof.
  intros [A B N C S]. unfold account_calls. apply Forall_app. split; [apply Forall_cons; [split; assumption | apply Forall_nil]|]. apply Forall_app. split; [destruct (_ >? 0); [apply Forall_cons; [split; assumption|]|]; apply Forall_nil|].
  apply Forall_app. split; [destruct (_ >? 0); [apply Forall_cons; [split; assumption|]|]; apply Forall_nil|]. apply Forall_map. eapply Forall_impl; [|exact S]. intros e [K V]. cbn. auto.
Qed.

(** ** The calls on plain maps *)

Section Views.
Variable keccak256 : list Z -> hash_t.
#[local] Abbreviation after s cs := (fst (meanings keccak256 s cs)).

Lemma after_app s cs cs' : after s (cs ++ cs') = after (after s cs) cs'.
Proof.
  revert s; induction cs as [|c cs IH]; intros s; cbn [meanings app]; [reflexivity|]. destruct (meaning keccak256 s c) as [s1 r]. specialize (IH s1).
  destruct (meanings keccak256 s1 (cs ++ cs')), (meanings keccak256 s1 cs). exact IH.
Qed.

Lemma after_cons s c cs : after s (c :: cs) = after (fst (meaning keccak256 s c)) cs.
Proof. cbn [meanings]. destruct (meaning keccak256 s c) as [s1 r]. cbn [fst]. destruct (meanings keccak256 s1 cs). reflexivity. Qed.

(** An account whose storage no root has covered yet. *)
Definition bare_account (balance : uint256_t) (nonce : Z) (code_hash : hash_t) : account_t := Account nonce balance MPT_EMPTY_ROOT code_hash.

Lemma is_zero_eq b : wf256 b -> uint256_is_zero b = true -> b = uint256_zero.
Proof. intros B E. rewrite uint256_is_zero_spec in E by exact B. apply Z.eqb_eq in E. apply val_inj; [exact B | apply wf_zero | exact E]. Qed.

(** Writing such an account, also one that is removed as empty. *)
Lemma account_in_put s a n b h : wf256 b -> account_in (put s a (bare_account b n h)) a = bare_account b n h.
Proof.
  intros B. unfold account_in, put. cbn [v_account]. unfold upd, address_equal. rewrite (proj2 (bytes_eqb_eq a a) eq_refl). unfold kept, Account.account_is_empty. cbn [bare_account acc_nonce acc_balance acc_code_hash].
  destruct (Z.eqb_spec n 0) as [->|_]; cbn [negb]; [|reflexivity]. destruct (uint256_is_zero b) eqn:Z0; cbn [negb]; [|reflexivity]. unfold hash_equal. destruct (bytes_eqb h EMPTY_CODE_HASH) eqn:H; [|reflexivity].
  apply bytes_eqb_eq in H. apply (is_zero_eq b B) in Z0. subst. reflexivity.
Qed.

Lemma account_in_other s a b acc : a <> b -> account_in (put s a acc) b = account_in s b /\ v_account (put s a acc) b = v_account s b.
Proof. intros N. unfold account_in, put. cbn [v_account]. unfold upd. destruct (address_equal a b) eqn:E; [apply bytes_eqb_eq in E; contradiction | auto]. Qed.

(** The writes of the entries of an account. *)
Lemma after_entries a es : forall s, let s' := after s (map (fun e => SetStorage a (se_slot e) (se_value e)) es) in
  v_account s' = v_account s /\ v_code s' = v_code s /\ (forall k, v_slot s' a k = slot_of es k (v_slot s a k)) /\ (forall b k, a <> b -> v_slot s' b k = v_slot s b k).
Proof.
  induction es as [|e es IH]; intros s; cbv zeta; cbn [map]; [cbn; auto|]. rewrite after_cons. specialize (IH (fst (meaning keccak256 s (SetStorage a (se_slot e) (se_value e))))). cbv zeta in IH. destruct IH as (I1 & I2 & I3 & I4). cbn [meaning fst v_account v_code v_slot] in *.
  split; [exact I1|]. split; [exact I2|]. split.
  - intros k. rewrite I3. unfold slot_of. cbn [fold_left]. f_equal. unfold upd2, warm_slot_key_eq. cbn [key_addr key_slot]. unfold address_equal. rewrite (proj2 (bytes_eqb_eq a a) eq_refl). reflexivity.
  - intros b k N. rewrite I4 by exact N. unfold upd2, warm_slot_key_eq. cbn [key_addr key_slot]. destruct (address_equal a b) eqn:E; [apply bytes_eqb_eq in E; contradiction | reflexivity].
Qed.

(** Nothing is known of [a] yet. *)
Definition vacant (s : view) (a : address_t) : Prop := v_account s a = None /\ v_code s a = None /\ forall k, v_slot s a k = uint256_zero.

Definition imported (s : view) (x : account_snapshot_t) : Prop :=
  account_in s (as_address x) = bare_account (as_balance x) (as_nonce x) (code_hash_of keccak256 (as_code x)) /\
  match v_code s (as_address x) with Some c => c | None => [] end = as_code x /\ forall k, v_slot s (as_address x) k = slot_of (as_storage x) k uint256_zero.

Definition same_at (s s' : view) (b : address_t) : Prop := v_account s' b = v_account s b /\ v_code s' b = v_code s b /\ forall k, v_slot s' b k = v_slot s b k.

Lemma same_at_trans s s' s'' b : same_at s s' b -> same_at s' s'' b -> same_at s s'' b.
Proof. intros (A & C & K) (A' & C' & K'). split; [congruence|]. split; [congruence|]. intros k. rewrite K'. apply K. Qed.

Lemma same_at_imported s s' x : same_at s s' (as_address x) -> imported s x -> imported s' x.
Proof. intros (A & C & K) (I1 & I2 & I3). unfold imported, account_in in *. rewrite A, C. split; [exact I1|]. split; [exact I2|]. intros k. rewrite K. apply I3. Qed.

Lemma put_other s a b acc : a <> b -> same_at s (put s a acc) b.
Proof. intros N. split; [apply account_in_other, N|]. split; reflexivity. Qed.

(** One account. *)
Lemma after_account s x : importable x -> vacant s (as_address x) ->
  imported (after s (account_calls x)) x /\ forall b, as_address x <> b -> same_at s (after s (account_calls x)) b.
Proof.
  intros [A B N C S] (V1 & V2 & V3). unfold account_calls. set (a := as_address x) in *. rewrite !after_app.
  set (s1 := after s [SetBalance a (as_balance x)]).
  assert (H1 : account_in s1 a = bare_account (as_balance x) 0 EMPTY_CODE_HASH) by (unfold s1; cbn [meanings meaning fst]; replace (account_in s a) with account_empty by (unfold account_in; rewrite V1; reflexivity); apply account_in_put, B).
  assert (O1 : forall b, a <> b -> same_at s s1 b) by (intros b Nb; apply put_other, Nb).
  set (s2 := after s1 (if as_nonce x >? 0 then [SetNonce a (as_nonce x)] else [])).
  assert (H2 : account_in s2 a = bare_account (as_balance x) (as_nonce x) EMPTY_CODE_HASH /\ v_code s2 a = None /\ (forall k, v_slot s2 a k = uint256_zero) /\ forall b, a <> b -> same_at s s2 b).
  { unfold s2. destruct (Z.gtb_spec (as_nonce x) 0) as [G|G].
    - cbn [meanings meaning fst]. rewrite H1. split; [apply account_in_put, B|]. split; [exact V2|]. split; [exact V3|]. intros b Nb. eapply same_at_trans; [apply O1, Nb | apply put_other, Nb].
    - cbn [meanings fst]. replace (as_nonce x) with 0 by (unfold u64 in N; lia). split; [exact H1|]. split; [exact V2|]. split; [exact V3 | exact O1]. }
  destruct H2 as (H2 & C2 & K2 & O2). set (s3 := after s2 (if Z.of_nat (length (as_code x)) >? 0 then [SetCode a (as_code x)] else [])).
  assert (H3 : account_in s3 a = bare_account (as_balance x) (as_nonce x) (code_hash_of keccak256 (as_code x)) /\ match v_code s3 a with Some c => c | None => [] end = as_code x /\
    (forall k, v_slot s3 a k = uint256_zero) /\ forall b, a <> b -> same_at s s3 b).
  { unfold s3, code_hash_of. destruct (Z.gtb_spec (Z.of_nat (length (as_code x))) 0) as [G|G].
    - rewrite (proj2 (Z.eqb_neq _ _)) by lia. cbn [meanings meaning fst]. rewrite H2, C2. cbn [v_code]. unfold code_hash_of. rewrite (proj2 (Z.eqb_neq _ _)) by lia.
      split; [exact (account_in_put s2 a (as_nonce x) (as_balance x) (keccak256 (as_code x)) B)|]. split; [unfold upd, address_equal; rewrite (proj2 (bytes_eqb_eq a a) eq_refl); reflexivity|]. split; [exact K2|].
      intros b Nb. eapply same_at_trans; [apply O2, Nb|]. destruct (put_other s2 a b (with_code_hash (bare_account (as_balance x) (as_nonce x) EMPTY_CODE_HASH) (keccak256 (as_code x))) Nb) as (P1 & _ & P3).
      split; [exact P1|]. split; [|exact P3]. cbn [v_code]. unfold upd. destruct (address_equal a b) eqn:E; [apply bytes_eqb_eq in E; contradiction | reflexivity].
    - assert (E : as_code x = []) by (destruct (as_code x); [reflexivity | cbn in G; lia]). rewrite E. cbn [meanings fst length]. rewrite C2. split; [exact H2|]. split; [reflexivity|]. split; [exact K2 | exact O2]. }
  destruct H3 as (H3 & C3 & K3 & O3). pose proof (after_entries a (as_storage x) s3) as E. cbv zeta in E. destruct E as (E1 & E2 & E3 & E4). split.
  - unfold imported. fold a. unfold account_in in *. rewrite E1, E2. split; [exact H3|]. split; [exact C3|]. intros k. rewrite E3, K3. reflexivity.
  - intros b Nb. eapply same_at_trans; [apply O3, Nb|]. split; [rewrite E1; reflexivity|]. split; [rewrite E2; reflexivity|]. intros k. apply E4, Nb.
Qed.

(** All accounts of a snapshot with distinct addresses. *)
Lemma after_accounts accs : forall s, Forall importable accs -> NoDup (map as_address accs) -> Forall (fun x => vacant s (as_address x)) accs ->
  Forall (imported (after s (flat_map account_calls accs))) accs /\ forall b, ~ In b (map as_address accs) -> same_at s (after s (flat_map account_calls accs)) b.
Proof.
  induction accs as [|x accs IH]; intros s I D V; cbn [flat_map map] in *; [split; [constructor|]; intros b _; split; [reflexivity|]; split; reflexivity|].
  inversion I as [|? ? Ix I']; subst. inversion D as [|? ? Nx D']; subst. inversion V as [|? ? Vx V']; subst. rewrite after_app. destruct (after_account s x Ix Vx) as [A1 A2]. set (s1 := after s (account_calls x)) in *.
  assert (V1 : Forall (fun y => vacant s1 (as_address y)) accs).
  { rewrite Forall_forall in *. intros y J. destruct (A2 (as_address y)) as (P & Q & R); [intros E; apply Nx; rewrite E; apply in_map, J|]. destruct (V' y J) as (W1 & W2 & W3). split; [congruence|]. split; [congruence|]. intros k. rewrite R. apply W3. }
  destruct (IH s1 I' D' V1) as [B1 B2]. split.
  - constructor; [apply (same_at_imported s1); [apply B2, Nx | exact A1] | exact B1].
  - intros b Nb. eapply same_at_trans; [apply A2; intros E; apply Nb; left; exact E | apply B2; intros J; apply Nb; right; exact J].
Qed.
End Views.

(** * The import itself *)

Section Importing.
Context {M : Type -> Type -> Type} {HT : HashTables M} {HL : HashTableLaws M}.
Variable keccak256 : list Z -> hash_t.
Hypothesis keccak_wf : forall bs, wf_hash (keccak256 bs).
Hypothesis address_keys : forall a b, wf_address a -> wf_address b -> keccak256 a = keccak256 b -> a = b.
Hypothesis slot_keys : forall k j, wf256 k -> wf256 j -> keccak256 (uint256_to_bytes_be k) = keccak256 (uint256_to_bytes_be j) -> k = j.
#[local] Abbreviation world := (@world_state_t M).
#[local] Abbreviation build := (build_state_from_snapshot (SA := WORLD_STATE_VTABLE keccak256)).

Lemma perform_app (ws : world) cs cs' : perform_all keccak256 ws (cs ++ cs') = (let? r := perform_all keccak256 ws cs in let? r' := perform_all keccak256 (fst r) cs' in inl (fst r', snd r ++ snd r')).
Proof.
  revert ws; induction cs as [|c cs IH]; intros ws; cbn [app perform_all try fst snd]; [destruct (perform_all keccak256 ws cs') as [[? ?]|]; reflexivity|].
  destruct (perform keccak256 ws c) as [[ws1 r]|f]; cbn [try fst snd]; [|reflexivity]. rewrite IH. destruct (perform_all keccak256 ws1 cs) as [[ws2 rs]|f]; cbn [try fst snd]; [|reflexivity].
  destruct (perform_all keccak256 ws2 cs') as [[? ?]|]; reflexivity.
Qed.

(** The calls end, in the state [ws']. *)
Definition runs (ws : world) (cs : list call) (ws' : world) : Prop := exists rs, perform_all keccak256 ws cs = inl (ws', rs).

Lemma runs_app (ws ws' : world) cs cs' : runs ws (cs ++ cs') ws' -> exists ws1, runs ws cs ws1 /\ runs ws1 cs' ws'.
Proof.
  intros [rs E]. rewrite perform_app in E. unfold runs. destruct (perform_all keccak256 ws cs) as [[ws1 r1]|f]; cbn [try fst snd] in E; [|discriminate]. exists ws1. split; [eauto|].
  destruct (perform_all keccak256 ws1 cs') as [[ws2 r2]|f]; cbn [try fst snd] in E; [|discriminate]. injection E as -> _. eauto.
Qed.

Lemma runs_cons (ws ws' : world) c cs : runs ws (c :: cs) ws' -> exists ws1 r, perform keccak256 ws c = inl (ws1, r) /\ runs ws1 cs ws'.
Proof.
  intros [rs E]. cbn [perform_all] in E. unfold runs. destruct (perform keccak256 ws c) as [[ws1 r1]|f]; cbn [try fst snd] in E; [|discriminate]. exists ws1, r1. split; [reflexivity|].
  destruct (perform_all keccak256 ws1 cs) as [[ws2 r2]|f]; cbn [try fst snd] in E; [|discriminate]. injection E as -> _. eauto.
Qed.

Lemma runs_nil (ws ws' : world) : runs ws [] ws' -> ws' = ws.
Proof. intros [rs E]. cbn in E. congruence. Qed.

Lemma written (x : world + fault) (ws ws' : world) r : WorldView.writes x = inl (ws', r) -> or_else ws x = ws'.
Proof. destruct x; cbn; [intros [= -> _]; reflexivity | discriminate]. Qed.

Lemma build_entries a es : forall ws ws' : world, runs ws (map (fun e => SetStorage a (se_slot e) (se_value e)) es) ws' ->
  fold_left (fun st e => set_storage (StateAccess := WORLD_STATE_VTABLE keccak256) st a (se_slot e) (se_value e)) es ws = ws'.
Proof.
  induction es as [|e es IH]; intros ws ws' R; cbn [map fold_left] in *; [symmetry; apply runs_nil, R|]. apply runs_cons in R as (ws1 & r & E & R). apply IH.
  replace (set_storage ws a (se_slot e) (se_value e)) with ws1 by (symmetry; exact (written _ ws ws1 r E)). exact R.
Qed.

Lemma build_account_runs x (ws ws' : world) : runs ws (account_calls x) ws' -> build_account (SA := WORLD_STATE_VTABLE keccak256) ws x = ws'.
Proof.
  unfold account_calls, build_account. intros R. apply runs_app in R as (w1 & R1 & R). apply runs_app in R as (w2 & R2 & R). apply runs_app in R as (w3 & R3 & R4).
  apply runs_cons in R1 as (w & r & E & R1). apply runs_nil in R1. rewrite R1 in *. clear R1 w1. assert (E1 : set_balance (StateAccess := WORLD_STATE_VTABLE keccak256) ws (as_address x) (as_balance x) = w) by exact (written _ ws w r E). cbv zeta. rewrite E1.
  assert (E2 : (if as_nonce x >? 0 then set_nonce (StateAccess := WORLD_STATE_VTABLE keccak256) w (as_address x) (as_nonce x) else w) = w2).
  { destruct (as_nonce x >? 0); [apply runs_cons in R2 as (w' & r' & E' & R2)|]; apply runs_nil in R2; rewrite R2; [exact (written _ w w' r' E') | reflexivity]. }
  rewrite E2. assert (E3 : (if Z.of_nat (length (as_code x)) >? 0 then set_code (StateAccess := WORLD_STATE_VTABLE keccak256) w2 (as_address x) (as_code x) else w2) = w3).
  { destruct (Z.of_nat (length (as_code x)) >? 0); [apply runs_cons in R3 as (w' & r' & E' & R3)|]; apply runs_nil in R3; rewrite R3; [exact (written _ w2 w' r' E') | reflexivity]. }
  rewrite E3. apply build_entries, R4.
Qed.

Lemma build_runs accs : forall ws ws' : world, runs ws (flat_map account_calls accs) ws' -> build ws accs = ws'.
Proof.
  induction accs as [|x accs IH]; intros ws ws' R; cbn [flat_map] in R; [symmetry; apply runs_nil, R|]. apply runs_app in R as (w1 & R1 & R). unfold build_state_from_snapshot. cbn [fold_left].
  rewrite (build_account_runs x ws w1 R1). apply IH, R.
Qed.

(** The state that is built corresponds to the plain maps of the snapshot. *)
Lemma build_simulates accs : Forall importable accs -> simulates keccak256 (build (world_state_create : world) accs) (fst (meanings keccak256 empty_view (flat_map account_calls accs))).
Proof.
  intros I. assert (F : Forall call_ok (flat_map account_calls accs)) by (apply Forall_flat_map; eapply Forall_impl; [|exact I]; intros x; apply account_calls_ok).
  destruct (perform_simulates keccak256 keccak_wf address_keys slot_keys _ _ _ (create_simulates keccak256) F) as (ws & E & S). rewrite (build_runs accs world_state_create ws (ex_intro _ _ E)). exact S.
Qed.

End Importing.
