(* ===== verification/ParseSafe.v ===== *)
(** Whatever the document, what the parsers accept is well formed: every number
    within its C type, every address and hash of its length, code and data
    within a block of the arena. No law of yyjson is needed for that. *)
From Stdlib Require Import ZArith Lia List Bool String.
From S2P Require Import Prelude Uint256 Types Arena Transaction TxRlp Hex HexSpec Json WorldState T8nAlloc T8nEnv T8nTxs.
Import ListNotations.
#[local] Open Scope Z_scope.
#[local] Open Scope json_scope.

(** [m] fails or gives something in [P]. *)
Definition gives {A} (m : parsed A) (P : A -> Prop) : Prop := match m with inl a => P a | inr _ => True end.

Lemma gives_fails {A} code detail (P : A -> Prop) : gives (fails code detail) P.
Proof. exact I. Qed.

Lemma gives_bind {A B} (m : parsed A) (k : A -> parsed B) P Q : gives m P -> (forall a, P a -> gives (k a) Q) -> gives (andthen m k) Q.
Proof. destruct m; cbn; auto. Qed.

Lemma gives_require {A} b code detail (k : parsed A) P : (b = true -> gives k P) -> gives (require b code detail k) P.
Proof. unfold require. destruct b; [auto | intros _; exact I]. Qed.

Lemma gives_each {A B} (f : A -> parsed B) P l : (forall x, gives (f x) P) -> gives (parse_each f l) (Forall P).
Proof. intros H. induction l as [|x l IH]; cbn [parse_each]; [constructor|]. eapply gives_bind; [apply H|]. intros y Hy. eapply gives_bind; [exact IH|]. intros ys Hys. constructor; assumption. Qed.

(** The arrays: absent, empty, too large or parsed one by one. *)
Lemma gives_array {A B} (f : A -> parsed B) P (present_ empty ok : bool) code detail l :
  (forall x, gives (f x) P) -> gives (if negb present_ then inl [] else if empty then inl [] else require ok code detail (parse_each f l)) (Forall P).
Proof. intros H. destruct (negb present_); [constructor|]. destruct empty; [constructor|]. apply gives_require. intros _. apply gives_each, H. Qed.

Section Wf.
Context {Y : Yyjson}.

Lemma get_u64_wf obj key v : json_get_hex_u64 obj key = Some v -> u64 v.
Proof. unfold json_get_hex_u64. destruct (not_a_string _); [discriminate | apply hex_decode_u64_wf]. Qed.

Lemma u64_or_default m : (forall v, m = Some v -> u64 v) -> u64 (or_default m 0).
Proof. destruct m as [v|]; cbn; [intros H; apply H; reflexivity | intros _; apply u64_0]. Qed.

Lemma get_word_wf obj key out : wf256 out -> wf256 (snd (json_get_hex_uint256 obj key out)).
Proof. intros W. unfold json_get_hex_uint256. destruct (not_a_string _); [exact W | apply hex_decode_uint256_wf, W]. Qed.

Lemma val_word_wf val out : wf256 out -> wf256 (snd (json_val_hex_uint256 val out)).
Proof. intros W. unfold json_val_hex_uint256. destruct (not_a_string _); [exact W | apply hex_decode_uint256_wf, W]. Qed.

Lemma get_address_wf obj key out : wf_address out -> wf_address (snd (json_get_hex_address obj key out)).
Proof. intros [L B]. unfold json_get_hex_address. destruct (not_a_string _); [split; assumption|]. destruct (hex_decode_wf (yyjson_get_str (yyjson_obj_get obj key)) out B) as [P Q]. split; [exact (eq_trans Q L) | exact P]. Qed.

Lemma val_address_wf val out : wf_address out -> wf_address (snd (json_val_hex_address val out)).
Proof. intros [L B]. unfold json_val_hex_address. destruct (not_a_string _); [split; assumption|]. destruct (hex_decode_wf (yyjson_get_str val) out B) as [P Q]. split; [exact (eq_trans Q L) | exact P]. Qed.

Lemma val_hash_wf val out : wf_hash out -> wf_hash (snd (json_val_hex_hash val out)).
Proof. intros [L B]. unfold json_val_hex_hash. destruct (not_a_string _); [split; assumption|]. destruct (hex_decode_wf (yyjson_get_str val) out B) as [P Q]. split; [exact (eq_trans Q L) | exact P]. Qed.

Definition data_ok (d : list Z) : Prop := bytes_ok d /\ Z.of_nat (List.length d) <= DIV0_ARENA_BLOCK_SIZE.

Lemma data_ok_nil : data_ok [].
Proof. split; [constructor | discriminate]. Qed.

Lemma hex_bytes_wf str d : hex_bytes_of str = Some d -> data_ok d.
Proof.
  unfold hex_bytes_of. destruct (hex_strlen str =? 0); [intros [= <-]; apply data_ok_nil|]. destruct (negb (_ =? 0)); [discriminate|]. destruct (alloc_succeeds (hex_strlen str / 2)) eqn:A; [|discriminate]. cbn [negb].
  set (n := Z.to_nat _). pose proof (hex_decode_wf str (repeat 0 n)) as H. destruct (hex_decode str (repeat 0 n)) as [[] data] eqn:E; [|discriminate]. intros [= <-]. cbn [snd] in H.
  destruct H as [B L]; [clear; induction n; constructor; [split; reflexivity || discriminate | assumption]|]. rewrite repeat_length in L. split; [exact B|]. rewrite L. unfold alloc_succeeds in A. unfold n. lia.
Qed.

Lemma get_bytes_wf obj key d : json_get_hex_bytes obj key = Some d -> data_ok d.
Proof. unfold json_get_hex_bytes. destruct (not_a_string _); [discriminate | apply hex_bytes_wf]. Qed.

Lemma gives_required_u64 {A} obj key detail (k : Z -> parsed A) P : (forall v, u64 v -> gives (k v) P) -> gives (required_u64 obj key detail k) P.
Proof. intros H. unfold required_u64. destruct (json_get_hex_u64 obj (lit key)) eqn:E; [apply H, (get_u64_wf _ _ _ E) | exact I]. Qed.

Lemma gives_required_address {A} obj key detail (k : address_t -> parsed A) P : (forall a, wf_address a -> gives (k a) P) -> gives (required_address obj key detail k) P.
Proof.
  intros H. unfold required_address. pose proof (get_address_wf obj (lit key) address_zero wf_address_zero) as W. destruct (json_get_hex_address _ _ _) as [ok a]. apply gives_require. intros _. apply H, W.
Qed.

Lemma gives_required_word {A} obj key detail (k : uint256_t -> parsed A) P : (forall x, wf256 x -> gives (k x) P) -> gives (required_word obj key detail k) P.
Proof.
  intros H. unfold required_word. pose proof (get_word_wf obj (lit key) uint256_zero wf_zero) as W. destruct (json_get_hex_uint256 _ _ _) as [ok a]. apply gives_require. intros _. apply H, W.
Qed.

(** * State files *)

Record snapshot_ok (x : account_snapshot_t) : Prop := {
  so_address : wf_address (as_address x); so_balance : wf256 (as_balance x); so_nonce : u64 (as_nonce x); so_code : data_ok (as_code x);
  so_storage : Forall (fun e => wf256 (se_slot e) /\ wf256 (se_value e) /\ uint256_is_zero (se_value e) = false) (as_storage x) }.

Lemma parse_entries_wf l : gives (parse_storage_entries l) (Forall (fun e => wf256 (se_slot e) /\ wf256 (se_value e) /\ uint256_is_zero (se_value e) = false)).
Proof.
  induction l as [|[k v] l IH]; cbn [parse_storage_entries]; [constructor|]. pose proof (hex_decode_uint256_wf k uint256_zero wf_zero) as W. destruct (hex_decode_uint256 k uint256_zero) as [ok slot]. apply gives_require. intros _.
  pose proof (val_word_wf (Some v) uint256_zero wf_zero) as W'. destruct (json_val_hex_uint256 (Some v) uint256_zero) as [ok' value]. apply gives_require. intros _. eapply gives_bind; [exact IH|]. intros es Hes. cbn [snd] in *.
  destruct (uint256_is_zero value) eqn:E; cbn [negb gives]; [exact Hes|]. constructor; [auto | exact Hes].
Qed.

Lemma parse_account_wf e : gives (parse_account e) snapshot_ok.
Proof.
  destruct e as [key v]. unfold parse_account. pose proof (hex_decode_wf key address_zero (proj2 wf_address_zero)) as [Wb Wl]. destruct (hex_decode key address_zero) as [ok address]. cbn [snd] in *.
  apply gives_require. intros _. apply gives_require. intros _. pose proof (get_word_wf (Some v) (lit "balance") uint256_zero wf_zero) as W. destruct (json_get_hex_uint256 _ _ _) as [ok' balance]. apply gives_require. intros _. cbv zeta.
  eapply gives_bind with (P := Forall (fun e => wf256 (se_slot e) /\ wf256 (se_value e) /\ uint256_is_zero (se_value e) = false)).
  - unfold parse_storage. destruct (present _ _); [|constructor]. destruct (_ >? 0); [|constructor]. apply gives_require. intros _. apply parse_entries_wf.
  - intros st Hst. split; cbn [as_address as_balance as_nonce as_code as_storage]; [split; [rewrite Wl; reflexivity | exact Wb] | exact W | apply u64_or_default, get_u64_wf| |exact Hst].
    destruct (json_get_hex_bytes (Some v) (lit "code")) eqn:E; [apply (get_bytes_wf _ _ _ E) | apply data_ok_nil].
Qed.

Lemma parse_alloc_value_wf root : gives (t8n_parse_alloc_value root) (Forall snapshot_ok).
Proof. unfold t8n_parse_alloc_value. apply gives_require. intros _. destruct (_ =? 0); [constructor|]. apply gives_require. intros _. apply gives_each, parse_account_wf. Qed.

(** * Transaction files *)

Lemma word_field_wf obj key : wf256 (word_field obj key).
Proof. apply get_word_wf, wf_zero. Qed.

Lemma u64_field_wf obj key : u64 (u64_field obj key).
Proof. apply u64_or_default, get_u64_wf. Qed.

Lemma gas_field_wf obj : u64 (gas_field obj).
Proof.
  unfold gas_field. destruct (json_get_hex_u64 obj (lit "gas")) eqn:E; [apply (get_u64_wf _ _ _ E)|]. destruct (json_get_hex_u64 obj (lit "gasLimit")) eqn:E'; cbn [or_default]; [apply (get_u64_wf _ _ _ E') | apply u64_field_wf].
Qed.

Lemma data_field_wf obj : data_ok (data_field obj).
Proof.
  unfold data_field. assert (D : data_ok (or_default (json_get_hex_bytes obj (lit "input")) [])) by (destruct (json_get_hex_bytes obj (lit "input")) eqn:E; [apply (get_bytes_wf _ _ _ E) | apply data_ok_nil]).
  destruct (_ =? 0); [|exact D]. destruct (json_get_hex_bytes obj (lit "data")) eqn:E; [apply (get_bytes_wf _ _ _ E) | exact D].
Qed.

Lemma data_bytes obj : bytes_ok (data_field obj).
Proof. apply data_field_wf. Qed.

Lemma to_field_wf obj : gives (to_field obj) wf_to.
Proof.
  unfold to_field. destruct (json_obj_get obj (lit "to")) as [v|]; [|exact I]. destruct (json_is_null (Some v)); [exact I|]. apply gives_require. intros _.
  pose proof (val_address_wf (Some v) address_zero wf_address_zero) as W. destruct (json_val_hex_address _ _) as [ok a]. apply gives_require. intros _. exact W.
Qed.

Lemma parity_wf obj : u8 (parse_parity obj 0).
Proof. unfold parse_parity. destruct (json_get_hex_u64 obj (lit "yParity")); [apply w8_range|]. destruct (json_get_hex_u64 obj (lit "v")); [apply w8_range | split; reflexivity || discriminate]. Qed.

Lemma parse_access_list_wf arr : gives (parse_access_list arr) (Forall wf_entry).
Proof.
  apply gives_array. intros v. unfold parse_access_list_entry. apply gives_require. intros _. apply gives_required_address. intros a A. eapply gives_bind with (P := Forall wf256).
  - unfold parse_storage_keys. destruct (present _ _); [|constructor]. apply gives_require. intros _. apply gives_each. intros k. unfold parse_storage_key. pose proof (val_word_wf (Some k) uint256_zero wf_zero) as W.
    destruct (json_val_hex_uint256 _ _) as [ok x]. apply gives_require. intros _. exact W.
  - intros ks K. split; assumption.
Qed.

Lemma parse_blob_hashes_wf arr : gives (parse_blob_hashes arr) (Forall wf_hash).
Proof.
  apply gives_array. intros v. unfold parse_blob_hash. pose proof (val_hash_wf (Some v) hash_zero wf_hash_zero) as W. destruct (json_val_hex_hash _ _) as [ok h]. apply gives_require. intros _. exact W.
Qed.

Lemma parse_auths_wf arr : gives (parse_authorization_list arr) (Forall wf_auth).
Proof.
  apply gives_array. intros v. unfold parse_authorization. apply gives_require. intros _. apply gives_required_address. intros a A. apply gives_required_u64. intros n N.
  apply gives_required_word. intros r R. apply gives_required_word. intros s S. split; cbn; auto using parity_wf. apply u64_or_default, get_u64_wf.
Qed.

Lemma parse_tx_wf v : gives (t8n_parse_tx v) (fun tx => wf_transaction tx /\ data_ok (transaction_data tx)).
Proof.
  unfold t8n_parse_tx. apply gives_require. intros _. cbv zeta. pose proof (data_bytes v). pose proof (data_field_wf v).
  assert (U := u64_field_wf v). assert (W := word_field_wf v). assert (G := gas_field_wf v). assert (P := parity_wf v).
  destruct (_ =? 0); [|destruct (_ =? 1); [|destruct (_ =? 2); [|destruct (_ =? 3); [|destruct (_ =? 4); [|exact I]]]]].
  - eapply gives_bind; [apply to_field_wf|]. intros to T. split; [split; cbn; auto | cbn; assumption].
  - eapply gives_bind; [apply to_field_wf|]. intros to T. eapply gives_bind; [apply parse_access_list_wf|]. intros al A. split; [split; cbn; auto | cbn; assumption].
  - eapply gives_bind; [apply to_field_wf|]. intros to T. eapply gives_bind; [apply parse_access_list_wf|]. intros al A. split; [split; cbn; auto | cbn; assumption].
  - apply gives_required_address. intros to T. eapply gives_bind; [apply parse_access_list_wf|]. intros al A. eapply gives_bind; [apply parse_blob_hashes_wf|]. intros hs H'. split; [split; cbn; auto | cbn; assumption].
  - apply gives_required_address. intros to T. eapply gives_bind; [apply parse_access_list_wf|]. intros al A. eapply gives_bind; [apply parse_auths_wf|]. intros hs H'. split; [split; cbn; auto | cbn; assumption].
Qed.

Lemma parse_txs_value_wf arr : gives (t8n_parse_txs_value arr) (Forall (fun tx => wf_transaction tx /\ data_ok (transaction_data tx))).
Proof. unfold t8n_parse_txs_value. apply gives_require. intros _. destruct (_ =? 0); [constructor|]. apply gives_require. intros _. apply gives_each. intros v. apply parse_tx_wf. Qed.

(** * Environment files *)

Record env_ok (e : t8n_env_t) : Prop := {
  eo_coinbase : wf_address (env_coinbase e);
  eo_numbers : u64 (env_gas_limit e) /\ u64 (env_number e) /\ u64 (env_timestamp e);
  eo_words : wf256 (snd (env_difficulty e)) /\ wf256 (snd (env_prev_randao e)) /\ wf256 (snd (env_base_fee e));
  eo_blob : u64 (snd (env_excess_blob_gas e)) /\ u64 (snd (env_blob_gas_used e));
  eo_block_hashes : Forall (fun h => u64 (bh_number h) /\ wf_hash (bh_hash h)) (env_block_hashes e);
  eo_withdrawals : Forall (fun w => u64 (wd_index w) /\ u64 (wd_validator_index w) /\ wf_address (wd_address w) /\ u64 (wd_amount w)) (env_withdrawals e);
  eo_ommers : Forall (fun o => wf_address (om_coinbase o) /\ u64 (om_delta o)) (env_ommers e) }.

Lemma read_decimal_nonneg s : forall v, 0 <= v -> 0 <= fst (read_decimal s v).
Proof. induction s as [|c s IH]; intros v V; cbn [read_decimal]; [exact V|]. unfold is_dec. destruct (_ && _) eqn:D; [apply IH; lia | exact V]. Qed.

Lemma strtoull_range s : u64 (fst (strtoull_10 s)).
Proof.
  unfold strtoull_10. destruct (match skip_spaces s with 45 :: rest => _ | 43 :: rest => _ | _ => _ end) as [neg ds]. destruct (is_dec (aget ds 0)); [|apply u64_0].
  pose proof (read_decimal_nonneg ds 0 ltac:(lia)) as N. destruct (read_decimal ds 0) as [v rest]. cbn [fst] in *. destruct (Z.gtb_spec v UINT64_MAX); [apply u64_max|]. destruct neg; [apply w64_range|]. unfold u64, UINT64_MAX in *. lia.
Qed.

Lemma block_number_wf s : gives (block_number s) u64.
Proof.
  unfold block_number. destruct (hex_decode_u64 s) eqn:E; [apply (hex_decode_u64_wf _ _ E)|]. pose proof (strtoull_range (or_default s [])) as R. destruct (strtoull_10 _) as [n e]. apply gives_require. intros _. exact R.
Qed.

Lemma optional_u64_wf root key : u64 (snd (optional_u64 root key)).
Proof. unfold optional_u64. destruct (json_get_hex_u64 root (lit key)) eqn:E; [apply (get_u64_wf _ _ _ E) | apply u64_0]. Qed.

Lemma parse_block_hashes_wf root : gives (parse_block_hashes root) (Forall (fun h => u64 (bh_number h) /\ wf_hash (bh_hash h))).
Proof.
  apply gives_array. intros [k v]. unfold parse_block_hash. eapply gives_bind; [apply block_number_wf|]. intros n N. pose proof (val_hash_wf (Some v) hash_zero wf_hash_zero) as W.
  destruct (json_val_hex_hash _ _) as [ok h]. apply gives_require. intros _. split; assumption.
Qed.

Lemma parse_withdrawals_wf root : gives (parse_withdrawals root) (Forall (fun w => u64 (wd_index w) /\ u64 (wd_validator_index w) /\ wf_address (wd_address w) /\ u64 (wd_amount w))).
Proof.
  apply gives_array. intros v. unfold parse_withdrawal. apply gives_require. intros _. apply gives_required_u64. intros i I'. apply gives_required_u64. intros vi V. apply gives_required_address. intros a A.
  apply gives_required_u64. intros m Hm. cbn. auto.
Qed.

Lemma parse_ommers_wf root : gives (parse_ommers root) (Forall (fun o => wf_address (om_coinbase o) /\ u64 (om_delta o))).
Proof.
  apply gives_array. intros v. unfold parse_ommer. apply gives_require. intros _. apply gives_required_address. intros a A. apply gives_required_u64. intros d D. cbn. auto.
Qed.

Lemma parse_env_value_wf root : gives (t8n_parse_env_value root) env_ok.
Proof.
  unfold t8n_parse_env_value. apply gives_require. intros _. apply gives_required_address. intros a A. apply gives_required_u64. intros g G. apply gives_required_u64. intros n N. apply gives_required_u64. intros t T. cbv zeta.
  eapply gives_bind; [apply parse_block_hashes_wf|]. intros bh B. eapply gives_bind; [apply parse_withdrawals_wf|]. intros ws Hw. eapply gives_bind; [apply parse_ommers_wf|]. intros os Ho.
  split; cbn; auto using optional_u64_wf. unfold optional_word. split; [apply get_word_wf, wf_zero|]. split; [|apply get_word_wf, wf_zero]. destruct (negb _); repeat apply get_word_wf; apply wf_zero.
Qed.

End Wf.
