(* ===== verification/CommandSafe.v ===== *)
(** The command does not run out of rounds: what is loaded is well formed, the
    state that is built from it is a well-formed world state, and the block runs
    on it to its end. *)
From Stdlib Require Import ZArith Lia List Bool.
From S2P Require Import Prelude Uint256 Types Effects Arena Stack Bytes RlpSpec Account StateAccess HashTable Nibbles Trie TrieSpec TrieMap.
From S2P Require Import WorldState WorldSpec WorldLaws WorldView WorldExport Transaction TxRlp TxSpec Frame Gas Evm EvmSafe Execution Endless EvmTheorems Executor ExecutorSafe.
From S2P Require Import Hex HexSpec Json T8nAlloc T8nEnv T8nTxs T8nResult ParseSafe T8nCommand.
Import ListNotations.
#[local] Open Scope Z_scope.
#[local] Open Scope trie_scope.

(** * What is loaded *)

Definition inputs_ok (i : inputs_t) : Prop :=
  let '(pre_state, env, txs) := i in
  Forall snapshot_ok pre_state /\ ParseSafe.env_ok env /\ Forall (fun tx => wf_transaction tx /\ data_ok (transaction_data tx)) txs.

Section Loading.
Context {Y : Yyjson}.

(** The result satisfies [P], or there is an error code. *)
Definition loads {A} (x : A + Z) (P : A -> Prop) : Prop := match x with inl a => P a | inr code => code = DIV0_EXIT_JSON_ERROR \/ code = DIV0_EXIT_IO_ERROR end.

Lemma loads_json {A B} (m : parsed A) (k : A -> B + Z) P Q : gives m P -> (forall a, P a -> loads (k a) Q) -> loads (or_json_error m k) Q.
Proof. destruct m as [a|e]; cbn; [intros H K; apply K, H | intros _ _; left; reflexivity]. Qed.

Lemma loads_section {B} root key (k : option yyjson_val -> B + Z) Q : (forall v, loads (k v) Q) -> loads (section_of root key k) Q.
Proof. intros H. unfold section_of. destruct (json_obj_get _ _); [apply H | left; reflexivity]. Qed.

Lemma document_gives {A} doc (parse_value : option yyjson_val -> parsed A) P : (forall v, gives (parse_value v) P) -> gives (parse_document doc parse_value) P.
Proof. intros H. unfold parse_document. destruct doc as [doc result]. destruct (json_is_err result); [exact I | apply H]. Qed.

Lemma load_inputs_ok opts fs stdin : loads (load_inputs opts fs stdin) inputs_ok.
Proof.
  unfold load_inputs. destruct (_ && _).
  - unfold load_stdin. destruct stdin as [text|]; [|right; reflexivity]. destruct (json_parse text) as [doc result]. destruct (json_is_err result); [left; reflexivity|]. cbv zeta. destruct (negb _); [left; reflexivity|].
    apply loads_section. intros v. eapply loads_json; [apply parse_alloc_value_wf|]. intros accs A. apply loads_section. intros v'. eapply loads_json; [apply parse_env_value_wf|]. intros env E.
    apply loads_section. intros v''. eapply loads_json; [apply parse_txs_value_wf|]. intros txs T. split; [exact A|]. split; assumption.
  - unfold load_files. eapply loads_json; [apply document_gives, parse_alloc_value_wf|]. intros accs A. eapply loads_json; [apply document_gives, parse_env_value_wf|]. intros env E.
    eapply loads_json; [apply document_gives, parse_txs_value_wf|]. intros txs T. split; [exact A|]. split; assumption.
Qed.
End Loading.

(** * The context of the block *)

Lemma get_block_hash_ok hashes n h : Forall (fun x => u64 (bh_number x) /\ wf_hash (bh_hash x)) hashes -> get_block_hash_cb hashes n = Some h -> bytes_ok h.
Proof. induction 1 as [|x l [_ [_ B]] _ IH]; cbn [get_block_hash_cb]; [discriminate|]. destruct (_ =? _); [intros [= <-]; exact B | exact IH]. Qed.

Lemma block_context_ok env chain : ParseSafe.env_ok env -> block_ok (block_context_of env chain).
Proof.
  intros [C (G & N & T) (D & R & F) B H Hw Ho]. split; cbn [block_context_of number timestamp Frame.gas_limit chain_id base_fee blob_base_fee prev_randao coinbase get_block_hash].
  - auto using w64_range.
  - split; [destruct (fst _); [exact F | apply wf_zero]|]. split; [apply wf_zero|]. destruct (fst _); [exact R | apply wf_zero].
  - exact C.
  - intros get n h [= <-]. apply get_block_hash_ok, H.
Qed.

Section Command_safe.
Context {Y : Yyjson} {YM : YyjsonMut} {M : Type -> Type -> Type} {HT : HashTables M} {HL : HashTableLaws M}.
Variable keccak256 : list Z -> hash_t.
Hypothesis keccak_wf : forall bs, wf_hash (keccak256 bs).
Variable ecdsa_recover : list Z -> Z -> list Z -> option (list Z).
#[local] Abbreviation world := (@world_state_t M).
#[local] Abbreviation vtable := (WORLD_STATE_VTABLE keccak256).
#[local] Abbreviation laws := (world_laws keccak256 keccak_wf).

(** * The state *)

Lemma put_ok (ws : world) a acc : world_ok keccak256 ws -> account_ok acc -> world_ok keccak256 (or_else ws (put_account keccak256 ws a acc)).
Proof. intros W A. destruct (put_account_spec keccak256 keccak_wf ws a acc W A) as (ws' & -> & U). apply U. Qed.

Lemma set_account_balance (ws : world) a b : world_ok keccak256 ws -> wf256 b -> exists ws', ws_set_balance keccak256 ws a b = inl ws'.
Proof.
  intros W B. unfold ws_set_balance. destruct (acct_or_ok keccak256 keccak_wf ws a W) as [-> A]. cbn [try].
  destruct (put_account_spec keccak256 keccak_wf ws a (with_balance (acct_or keccak256 ws a) b) W) as (ws' & -> & _); [|eauto]. apply (with_ok _ b 0 hash_zero); auto using u64_0, wf_hash_zero.
Qed.

Lemma set_balance_ok (ws : world) a b : world_ok keccak256 ws -> wf256 b -> world_ok keccak256 (set_balance (StateAccess := vtable) ws a b).
Proof.
  intros W B. cbn. unfold ws_set_balance. destruct (acct_or_ok keccak256 keccak_wf ws a W) as [-> A]. cbn [try]. apply put_ok; [exact W|].
  apply (with_ok _ b 0 hash_zero); auto using u64_0, wf_hash_zero.
Qed.

Lemma set_nonce_ok (ws : world) a n : world_ok keccak256 ws -> u64 n -> world_ok keccak256 (set_nonce (StateAccess := vtable) ws a n).
Proof.
  intros W N. cbn. unfold ws_set_nonce. destruct (acct_or_ok keccak256 keccak_wf ws a W) as [-> A]. cbn [try]. apply put_ok; [exact W|].
  apply (with_ok _ uint256_zero n hash_zero); auto using wf_zero, wf_hash_zero.
Qed.

Lemma set_code_small (ws : world) a c : world_ok keccak256 ws -> data_ok c -> world_ok keccak256 (set_code (StateAccess := vtable) ws a c).
Proof. intros W C. cbn. destruct (set_code_spec keccak256 keccak_wf ws a c W C) as (ws' & -> & U). apply U. Qed.

Lemma build_account_ok (ws : world) x : world_ok keccak256 ws -> snapshot_ok x -> world_ok keccak256 (build_account (SA := vtable) ws x).
Proof.
  intros W [A B N C S]. unfold build_account. apply (set_balance_ok ws (as_address x)) in B; [|exact W]. revert B. generalize (set_balance (StateAccess := vtable) ws (as_address x) (as_balance x)). intros w1 W1.
  assert (W2 : world_ok keccak256 (if as_nonce x >? 0 then set_nonce (StateAccess := vtable) w1 (as_address x) (as_nonce x) else w1)) by (destruct (_ >? 0); [apply set_nonce_ok|]; assumption).
  revert W2. generalize (if as_nonce x >? 0 then set_nonce (StateAccess := vtable) w1 (as_address x) (as_nonce x) else w1). intros w2 W2.
  assert (W3 : world_ok keccak256 (if Z.of_nat (length (as_code x)) >? 0 then set_code (StateAccess := vtable) w2 (as_address x) (as_code x) else w2)) by (destruct (_ >? 0); [apply set_code_small|]; assumption).
  revert W3. generalize (if Z.of_nat (length (as_code x)) >? 0 then set_code (StateAccess := vtable) w2 (as_address x) (as_code x) else w2). clear - S HL keccak_wf.
  induction S as [|e es (K & V & _) _ IH]; intros w W; cbn [fold_left]; [exact W|]. apply IH. exact (set_storage_ok (StateLaws := laws) w (as_address x) (se_slot e) (se_value e) W V).
Qed.

Lemma build_ok accs : Forall snapshot_ok accs -> forall ws : world, world_ok keccak256 ws -> world_ok keccak256 (build_state_from_snapshot (SA := vtable) ws accs).
Proof. induction 1 as [|x accs X _ IH]; intros ws W; [exact W|]. apply IH, build_account_ok; assumption. Qed.

Lemma apply_reward_ok (ws : world) a r : world_ok keccak256 ws -> world_ok keccak256 (apply_reward (SA := vtable) ws a r).
Proof.
  intros W. unfold apply_reward. destruct (_ >=? _); [|exact W]. apply set_balance_ok; [exact W|].
  assert (B : wf256 (get_balance (StateAccess := vtable) ws a)) by exact (balance_wf (StateLaws := laws) ws a W). rewrite uint256_add_spec by (exact B || apply wf_from_u64, w64_range). apply wf_of_Z256.
Qed.

Lemma apply_reward_spec (ws : world) a r : world_ok keccak256 ws -> 0 <= r -> ws_set_balance keccak256 ws a (of_Z256 (val (acc_balance (acct_or keccak256 ws a)) + r mod 2 ^ 64)) = inl (apply_reward (SA := vtable) ws a r).
Proof.
  intros W R. unfold apply_reward. rewrite (proj2 (Z.geb_le _ _)) by lia. change (get_balance (StateAccess := vtable) ws a) with (or_else uint256_zero (ws_get_balance keccak256 ws a)). rewrite get_balance_eq by assumption. cbn [or_else].
  pose proof (acct_or_wf keccak256 keccak_wf ws a W) as A. rewrite uint256_add_spec by (apply A || apply wf_from_u64, w64_range). rewrite val_from_u64. unfold w64. set (b := of_Z256 _).
  change (set_balance (StateAccess := vtable) ws a b) with (or_else ws (ws_set_balance keccak256 ws a b)). destruct (set_account_balance ws a b W (wf_of_Z256 _)) as (ws' & ->). reflexivity.
Qed.

(** * The transactions *)

Lemma recovered_wf tx a : transaction_recover_sender keccak256 ecdsa_recover tx = Some (Some a) -> wf_address a.
Proof.
  unfold transaction_recover_sender. destruct (transaction_signing_hash _ _) as [h|]; [|discriminate]. destruct (signature_of tx) as [[[v r] s] c]. unfold secp256k1_ecrecover.
  destruct (recovery_id_of v c); [|discriminate]. destruct (secp256k1_recover_pubkey _ _ _ _) as [pk|]; [|discriminate]. intros [= <-]. destruct (keccak_wf pk) as [L B]. unfold HASH_SIZE, ADDRESS_SIZE in *. split.
  - unfold ADDRESS_SIZE. rewrite length_firstn, length_skipn, L. reflexivity.
  - apply Forall_firstn, Forall_skipn, B.
Qed.

Lemma recover_senders_ok txs : Forall (fun tx => wf_transaction tx /\ data_ok (transaction_data tx)) txs -> forall i,
  match recover_senders keccak256 ecdsa_recover i txs with inl l => Forall btx_ok l /\ length l = length txs | inr f => f = OutOfBounds end.
Proof.
  induction 1 as [|tx txs [W [B L]] _ IH]; intros i; cbn [recover_senders]; [split; [constructor | reflexivity]|].
  destruct (transaction_recover_sender keccak256 ecdsa_recover tx) as [r|] eqn:E; [|reflexivity]. specialize (IH (S i)). destruct (recover_senders _ _ (S i) txs) as [l|f]; [|exact IH].
  destruct IH as [F N]. split; [|cbn [length]; congruence]. constructor; [|exact F]. unfold DIV0_ARENA_BLOCK_SIZE in L. destruct r as [a|]; split; cbn [btx_tx btx_sender]; try assumption; try lia; [apply (recovered_wf tx a E) | apply wf_address_zero].
Qed.

Lemma block_transactions_ok txs : Forall (fun tx => wf_transaction tx /\ data_ok (transaction_data tx)) txs ->
  match block_transactions keccak256 ecdsa_recover txs with inl l => Forall btx_ok l /\ length l = length txs | inr f => f = OutOfBounds end.
Proof. intros F. unfold block_transactions, unchecked_array. destruct (_ =? 0); [apply recover_senders_ok, F|]. destruct (alloc_succeeds _); [apply recover_senders_ok, F | reflexivity]. Qed.

(** * The block *)

Lemma start_evm_ok fork : evm_ok (SL := laws) (evm_init fork : evm_t world).
Proof.
  destruct fork; split; try reflexivity; try apply init_block_ok; try apply init_tx_ok; try (split; [constructor | cbn; lia]); try (intros st; discriminate).
Qed.

Lemma copy_receipts_length l : forall i, length (copy_receipts i l) = length l.
Proof. induction l as [|r l IH]; intros i; cbn [copy_receipts length]; [reflexivity|]. rewrite IH. reflexivity. Qed.

(** The arrays of the result are allocated without a test: they are there for
    at most 170 receipts and 4096 rejections. *)
Lemma build_result_spec fork env r : Z.of_nat (length (res_receipts r)) < 2 ^ 32 -> Z.of_nat (length (res_rejected r)) < 2 ^ 32 ->
  (if (Z.of_nat (length (res_receipts r)) <=? 170) && (Z.of_nat (length (res_rejected r)) <=? 4096)
   then exists result, build_result fork env r = inl result /\ rs_state_root result = res_state_root r /\ rs_gas_used result = res_gas_used r /\
          rs_receipts result = copy_receipts 0 (res_receipts r) /\ length (rs_rejected result) = length (res_rejected r)
   else build_result fork env r = inr OutOfBounds).
Proof.
  intros LR LJ. unfold build_result, unchecked_array, sizeof_t8n_receipt, sizeof_t8n_rejected, mul64.
  assert (A : forall n size, 0 <= n < 2 ^ 32 -> 0 < size <= 4096 -> (if n =? 0 then true else alloc_succeeds (w64 (n * size))) = (n * size <=? 65536)).
  { intros n size N S. destruct (Z.eqb_spec n 0) as [->|E]; [reflexivity|]. apply alloc_fits; lia. }
  pose proof (A (Z.of_nat (length (res_receipts r))) 384 ltac:(lia) ltac:(lia)) as A1. pose proof (A (Z.of_nat (length (res_rejected r))) 16 ltac:(lia) ltac:(lia)) as A2.
  destruct (Z.leb_spec (Z.of_nat (length (res_receipts r))) 170) as [H1|H1]; cbn [andb].
  - rewrite (proj2 (Z.leb_le _ _)) in A1 by lia. destruct (Z.leb_spec (Z.of_nat (length (res_rejected r))) 4096) as [H2|H2].
    + rewrite (proj2 (Z.leb_le _ _)) in A2 by lia. destruct (_ =? 0), (_ =? 0); rewrite ?A1, ?A2; (eexists; split; [reflexivity|]; cbn; rewrite length_map; auto).
    + rewrite (proj2 (Z.leb_gt _ _)) in A2 by lia. destruct (_ =? 0), (_ =? 0); try discriminate; rewrite ?A1, ?A2; reflexivity.
  - rewrite (proj2 (Z.leb_gt _ _)) in A1 by lia. destruct (_ =? 0); [discriminate|]. rewrite A1. reflexivity.
Qed.

(** A message of the block that is loaded reaches an endless instruction. *)
Definition block_hangs (opts : t8n_options_t) (inputs : inputs_t) : Prop :=
  let '(pre, env, txs) := inputs in
  let exec := BlockExecutor (block_context_of env (opt_chain_id opts)) (w64 (opt_chain_id opts)) in
  let ws := build_state_from_snapshot (SA := vtable) (world_state_create : world) pre in
  exists btxs e msg m, block_transactions keccak256 ecdsa_recover txs = inl btxs /\
    sent (SA := vtable) keccak256 exec (BlockRun (evm_init (parse_fork (opt_fork opts))) ws 0 0 [] []) btxs e msg /\
    reaches (SA := vtable) keccak256 (call_gas (env_call msg)) (start e msg root_stack) m /\ endless (m_frame m) = true.

(** What a run of the block gives. *)
Definition ran (opts : t8n_options_t) (inputs : inputs_t) (x : ((t8n_result_t * world) + Z) + fault) : Prop :=
  let '(_, env, txs) := inputs in
  match x with
  | inl (inl (result, ws)) =>
      world_ok keccak256 ws /\ (length (rs_receipts result) + length (rs_rejected result) = length txs)%nat /\ rs_gas_used result <= env_gas_limit env
  | inl (inr code) => code = DIV0_EXIT_EVM_ERROR /\ 65536 < Z.of_nat (length txs) * SIZEOF_RECEIPT
  | inr f => f = OutOfBounds \/ f = Diverges /\ block_hangs opts inputs
  end.

Lemma build_result_ran fork env r :
  match build_result fork env r with
  | inl result => rs_gas_used result = res_gas_used r /\ (length (rs_receipts result) + length (rs_rejected result) = length (res_receipts r) + length (res_rejected r))%nat
  | inr f => f = OutOfBounds
  end.
Proof.
  unfold build_result, unchecked_array. destruct (_ =? 0); [|destruct (alloc_succeeds _); [|reflexivity]]; (destruct (_ =? 0); [|destruct (alloc_succeeds _); [|reflexivity]]);
    cbn [rs_gas_used rs_receipts rs_rejected]; rewrite copy_receipts_length, length_map; auto.
Qed.

Lemma run_block_settled opts inputs : inputs_ok inputs -> settled (fun rounds fuel => run_block keccak256 ecdsa_recover rounds fuel opts inputs) (ran opts inputs).
Proof.
  destruct inputs as [[pre env] txs]. intros (P & E & T). unfold run_block. change (world_access keccak256) with vtable. pose proof (block_transactions_ok txs T) as B.
  destruct (block_transactions keccak256 ecdsa_recover txs) as [btxs|f] eqn:Bt; [|apply settled_const; left; exact B]. destruct B as [B L].
  set (exec := BlockExecutor (block_context_of env (opt_chain_id opts)) (w64 (opt_chain_id opts))). set (ws := build_state_from_snapshot _ _). cbv zeta.
  assert (W : world_ok keccak256 ws) by (apply build_ok; [exact P | apply world_create_ok]).
  pose proof (@block_run_spec _ vtable laws (world_block_laws keccak256 keccak_wf) keccak256 (fun bs _ => keccak_wf bs) exec (block_context_ok env _ E) (evm_init (parse_fork (opt_fork opts))) ws btxs (start_evm_ok _) W B) as S.
  eapply (settled_then _ (fun x _ _ => match x with inr f => inr f | inl (_, _, None) => inl (inr DIV0_EXIT_EVM_ERROR) | inl (_, ws, Some r) => _ end) _ _ S).
  intros [[[e ws'] [r|]]|f] K; apply settled_const; [|split; [reflexivity | rewrite <- L; exact K] |].
  2:{ destruct K as [[-> _]|(e & msg & Sn & m & Rm & K)]; [left; reflexivity|]. destruct f; [left; reflexivity | right | contradiction].
      split; [reflexivity|]. exists btxs, e, msg, m. auto. }
  destruct K as (_ & K1 & K2 & _ & _ & _ & K3). pose proof (build_result_ran (parse_fork (opt_fork opts)) env r) as R. destruct (build_result _ env r) as [result|f]; [|left; exact R]. destruct R as [R1 R2].
  cbn. split; [apply apply_reward_ok, K1|]. split; [lia|]. rewrite R1. exact K2.
Qed.

(** * The outputs *)

Lemma fill_slots_fault (ws : world) capacity slots f : world_ok keccak256 ws -> forall accs, fill_slots keccak256 ws capacity slots accs = inr f -> f = OutOfBounds.
Proof.
  intros W. induction slots as [|key slots IH]; intros accs; cbn [fill_slots]; [discriminate|]. destruct (account_index accs _) as [i|]; [|apply IH]. destruct (nth_error accs i) as [acc|]; [|congruence].
  destruct (get_storage_spec keccak256 keccak_wf ws (as_address acc) (key_slot key) W) as [-> _]. cbn [try]. destruct (uint256_is_zero _); [apply IH|]. destruct (_ <=? _)%nat; [congruence | apply IH].
Qed.

Lemma snapshot_fault (ws : world) f : world_ok keccak256 ws -> world_state_snapshot keccak256 ws = inr f -> f = OutOfBounds.
Proof.
  intros W. unfold world_state_snapshot. cbv zeta. destruct (_ =? 0); [discriminate|]. destruct (negb _); [discriminate|]. rewrite snapshot_accounts_spec by assumption. cbn [try].
  destruct (_ =? 0); [discriminate|]. destruct (negb _); [discriminate|]. destruct (negb _); [discriminate|]. set (x := fill_slots _ _ _ _ _). pose proof (fill_slots_fault ws) as F.
  destruct x eqn:X; cbn [try]; [discriminate|]. intros [= <-]. eapply F; [exact W | exact X].
Qed.

Definition exit_codes : list Z := [DIV0_EXIT_SUCCESS; DIV0_EXIT_GENERAL_ERROR; DIV0_EXIT_EVM_ERROR; DIV0_EXIT_CONFIG_ERROR; DIV0_EXIT_JSON_ERROR; DIV0_EXIT_IO_ERROR].

(** An exit code, an access out of bounds, or a run that hangs because of [H]. *)
Definition exits (H : Prop) (x : (file_system * Z) + fault) : Prop :=
  match x with inl (_, code) => In code exit_codes | inr f => f = OutOfBounds \/ f = Diverges /\ H end.

Ltac exit_code := cbn; tauto.

Lemma write_json_exits stdout fs basedir name root d : In (snd (write_json_to_output stdout fs basedir name root d)) exit_codes.
Proof.
  unfold write_json_to_output. destruct (is_stdout name); [destruct (json_write_fp _ _ _ _ _) as [fs' r]; destruct (json_is_err r); exit_code|].
  destruct (build_path _ _); [|exit_code]. destruct (json_write_file _ _ _ _ _) as [fs' r]; destruct (json_is_err r); exit_code.
Qed.

Lemma write_result_exits stdout fs basedir name result : In (snd (write_result_output stdout fs basedir name result)) exit_codes.
Proof. unfold write_result_output. destruct json_writer_init as [[d|] r]; [|exit_code]. destruct (t8n_write_result result d) as [d' [root|]]; [apply write_json_exits | exit_code]. Qed.

Lemma write_outputs_exits H stdout opts fs result (ws : world) : world_ok keccak256 ws -> exits H (write_outputs keccak256 stdout opts fs result ws).
Proof.
  intros W. pose proof (fun f => snapshot_fault ws f W) as F. unfold write_outputs. destruct (_ && _).
  - unfold write_combined_stdout. destruct (world_state_snapshot keccak256 ws) as [[snap|]|f]; [|exit_code | left; apply F; reflexivity]. destruct json_writer_init as [[d|] r]; [|exit_code].
    destruct (combined result snap d) as [d' [root|]]; [|exit_code]. destruct (json_write_fp _ _ _ _ _) as [fs' r']; destruct (json_is_err r'); exit_code.
  - pose proof (write_result_exits stdout fs (opt_output_basedir opts) (opt_output_result opts) result) as R. destruct (write_result_output _ _ _ _ _) as [fs' code]. destruct (negb _); [exact R|].
    unfold write_alloc_output. destruct (world_state_snapshot keccak256 ws) as [[snap|]|f]; [|exit_code | left; apply F; reflexivity]. destruct json_writer_init as [[d|] r]; [|exit_code].
    destruct (t8n_write_alloc snap d) as [d' [root|]]; [|exit_code]. pose proof (write_json_exits stdout fs' (opt_output_basedir opts) (opt_output_alloc opts) (Some root) d') as J.
    destruct (write_json_to_output _ _ _ _ _ _). exact J.
Qed.

(** The command, with the inputs it loads. *)
Definition loads_endless (opts : t8n_options_t) (fs : file_system) (stdin : option json_text) : Prop :=
  exists inputs, load_inputs opts fs stdin = inl inputs /\ block_hangs opts inputs.

Lemma cmd_settled stdout opts fs stdin :
  settled (fun rounds fuel => cmd_t8n keccak256 ecdsa_recover stdout rounds fuel opts fs stdin) (exits (loads_endless opts fs stdin)).
Proof.
  unfold cmd_t8n, loads_endless. destruct (parse_fork (opt_fork opts)) eqn:Fk; try (apply settled_const; exit_code).
  all: pose proof (load_inputs_ok opts fs stdin) as L; destruct (load_inputs opts fs stdin) as [inputs|code]; [|apply settled_const; destruct L as [-> | ->]; exit_code].
  all: eapply (settled_then _ (fun x _ _ => match x with inr f => inr f | inl (inr code) => inl (fs, code) | inl (inl (result, ws)) => _ end) _ _ (run_block_settled opts inputs L)).
  all: intros [[[result ws]|code]|f] R; destruct inputs as [[pre env] txs]; apply settled_const; [apply write_outputs_exits, R | destruct R as [-> _]; exit_code |].
  all: destruct R as [R|[R H]]; [left; exact R | right; split; [exact R|]; eexists; split; [reflexivity | exact H]].
Qed.
End Command_safe.
