(* ===== verification/T8nTheorems.v ===== *)
(** The properties of the transition tool: hexadecimal text, state and
    transaction files, the import of a state, and the command itself. *)
From Stdlib Require Import ZArith Lia List Bool String.
From S2P Require Import Prelude Uint256 Types Effects Arena Stack Bytes RlpSpec Account StateAccess HashTable Nibbles Trie TrieSpec TrieMap TrieTheorems.
From S2P Require Import WorldState WorldSpec WorldLaws WorldView WorldExport WorldTheorems Transaction TxRlp TxSpec CodecTheorems.
From S2P Require Import Frame Gas Evm EvmSafe Execution MemState EvmTheorems Executor ExecutorSafe ExecTheorems.
From S2P Require Import Hex HexSpec Json T8nAlloc T8nEnv T8nTxs T8nResult JsonSpec JsonModel FilesSpec T8nCommand ImportSpec ParseSafe.
Import ListNotations.
#[local] Open Scope Z_scope.
#[local] Open Scope json_scope.

(** * Hexadecimal text *)

(** C16: numbers and byte strings survive their text. Each encoder's text is
    decoded to the value it was made from, 64-bit and 256-bit numbers, padded
    words, addresses, hashes and byte strings, and the text with its NUL fits
    the buffer of its caller: 19, 67, 67, 43 and 67 characters. *)
Theorem hex_text_roundtrip :
  (forall n, u64 n -> hex_decode_u64 (Some (hex_encode_u64 n)) = Some n /\ strlen (hex_encode_u64 n) + 1 <= 19) /\
  (forall x out, wf256 x -> hex_decode_uint256 (Some (hex_encode_uint256 x)) out = (true, x) /\ strlen (hex_encode_uint256 x) + 1 <= 67) /\
  (forall x out, wf256 x -> hex_decode_uint256 (Some (hex_encode_uint256_padded x)) out = (true, x) /\ uint256_from_hex (Some (hex_encode_uint256_padded x)) = (true, x) /\ strlen (hex_encode_uint256_padded x) + 1 = 67) /\
  (forall a, wf_address a -> address_from_hex (Some (hex_encode_address a)) = (true, a) /\ strlen (hex_encode_address a) + 1 = 43) /\
  (forall h, wf_hash h -> hash_from_hex (Some (hex_encode_hash h)) = (true, h) /\ strlen (hex_encode_hash h) + 1 = 67) /\
  (forall bs out, bytes_ok bs -> List.length out = List.length bs -> Z.of_nat (List.length bs) < 2 ^ 63 -> hex_decode (Some (hex_encode bs)) out = (true, bs)).
Proof.
  split; [|split; [|split; [|split; [|split]]]].
  - intros n U. split; [apply decode_encode_u64, U|]. destruct (plain_numeral _ _ _ (hex_encode_u64_numeral n U)). lia.
  - intros x out W. split; [apply decode_encode_uint256, W|]. destruct (plain_numeral _ _ _ (hex_encode_uint256_numeral x W)). lia.
  - intros x out W. assert (L : List.length (uint256_to_bytes_be x) = 32%nat) by (rewrite uint256_to_bytes_be_spec by exact W; apply length_be_bytes).
    split; [apply decode_encode_padded, W|]. split.
    + unfold uint256_from_hex. rewrite (hex_decode_encode (uint256_to_bytes_be x)); [rewrite from_to_bytes by exact W; reflexivity | rewrite uint256_to_bytes_be_spec by exact W; apply be_bytes_ok | rewrite L; reflexivity | rewrite L; reflexivity].
    + unfold hex_encode_uint256_padded. fold (hex_encode (uint256_to_bytes_be x)). rewrite length_hex_encode, L. reflexivity.
  - intros a [L B]. unfold ADDRESS_SIZE in L. split; [apply hex_decode_encode; [exact B | rewrite L; reflexivity | lia]|]. unfold hex_encode_address. fold (hex_encode a). rewrite length_hex_encode, L. reflexivity.
  - intros h [L B]. unfold HASH_SIZE in L. split; [apply hex_decode_encode; [exact B | rewrite L; reflexivity | lia]|]. unfold hex_encode_hash. fold (hex_encode h). rewrite length_hex_encode, L. reflexivity.
  - intros bs out B L S. apply hex_decode_encode; assumption.
Qed.

Lemma hex_text_roundtrip_witness : hex_decode_u64 (Some (hex_encode_u64 255)) = Some 255 /\ hex_encode_u64 255 = lit "0xff".
Proof. split; [exact (proj1 (proj1 hex_text_roundtrip 255 ltac:(split; reflexivity || discriminate))) | vm_compute; reflexivity]. Defined.

(** * Files *)

Section Files.
Context {Y : Yyjson} {YM : YyjsonMut} {YL : YyjsonLaws} {YML : YyjsonMutLaws}.

(** A document is built, turned into text and read again by a parser. *)
Definition text_roundtrip {A} (m : W (option mut_val)) (flags : json_write_flags_t) (parse : json_text -> parsed A) (a : A) : Prop :=
  exists d0 d root text, json_writer_init = (Some d0, json_ok) /\ m d0 = (d, Some root) /\ snd (json_write_string d (Some root) flags) = Some text /\ parse text = inl a.

(** A document is built and written to a file; a parser reads the file, unless
    the file could not be written. *)
Definition file_roundtrip {A} (m : W (option mut_val)) (flags : json_write_flags_t) (fs : file_system) (path : cstr) (parse : file_system -> cstr -> parsed A) (a : A) : Prop :=
  exists d0 d root, json_writer_init = (Some d0, json_ok) /\ m d0 = (d, Some root) /\
    (json_is_err (snd (json_write_file fs d (Some root) path flags)) = true \/ parse (fst (json_write_file fs d (Some root) path flags)) path = inl a).

Lemma writes_start m t : JsonSpec.writes m t -> exists d0 d root, json_writer_init = (Some d0, json_ok) /\ m d0 = (d, Some root) /\ holds d [(root, t)].
Proof.
  intros W. destruct doc_new_holds as (d0 & E & H). destruct (W [] d0 H) as (d & r & l & Em & Hd & p & -> & ->). exists d0, d, p. unfold json_writer_init. rewrite E. auto.
Qed.

Lemma text_back {A} m t flags (parse_value : option yyjson_val -> parsed A) a : JsonSpec.writes m t -> printable t -> (forall v, shows v t -> parse_value (Some v) = inl a) ->
  text_roundtrip m flags (fun text => parse_document (json_parse text) parse_value) a.
Proof.
  intros W P H. destruct (writes_start m t W) as (d0 & d & root & E0 & Em & Hd). destruct (write_opts_holds d root t [] (convert_flags flags) Hd P) as (text & doc & v & Et & Ed & Er & Sv).
  exists d0, d, root, text. split; [exact E0|]. split; [exact Em|]. split; [exact Et|]. unfold json_parse. rewrite Ed. cbn. unfold json_doc_root. cbn. rewrite Er. apply H, Sv.
Qed.

Lemma file_back {A} m t flags fs path (parse_value : option yyjson_val -> parsed A) a : JsonSpec.writes m t -> printable t -> (forall v, shows v t -> parse_value (Some v) = inl a) ->
  file_roundtrip m flags fs path (fun fs path => parse_document (json_parse_file fs path) parse_value) a.
Proof.
  intros W P H. destruct (writes_start m t W) as (d0 & d & root & E0 & Em & Hd). exists d0, d, root. split; [exact E0|]. split; [exact Em|]. unfold json_write_file.
  destruct (yyjson_mut_write_file fs path (yyjson_mut_doc_set_root d root) (convert_flags flags)) as [fs' [msg|]] eqn:Ef; [left; reflexivity|]. right.
  destruct (write_file_holds d root t [] fs fs' path (convert_flags flags) Hd P Ef) as (doc & v & Ed & Er & Sv). cbn [fst]. unfold json_parse_file. rewrite Ed. cbn. unfold json_doc_root. cbn. rewrite Er. apply H, Sv.
Qed.
End Files.

Lemma state_back {Y : Yyjson} {YM : YyjsonMut} {YL : YyjsonLaws} {YML : YyjsonMutLaws} accs flags : Forall wf_snapshot accs -> Z.of_nat (List.length accs) * sizeof_account_snapshot <= DIV0_ARENA_BLOCK_SIZE ->
  text_roundtrip (t8n_write_alloc accs) flags t8n_parse_alloc (map without_zeros accs).
Proof. intros W L. apply (text_back _ (alloc_json accs)); [apply write_alloc_writes | apply printable_alloc, W|]. intros v S. apply parse_alloc_spec; assumption. Qed.

(** A state survives its file. What [t8n_write_alloc] writes for a list of
    accounts, as text or to a file, [t8n_parse_alloc] reads back as the same
    accounts in the same order, less the slots whose value is zero, if the
    arrays of the parser fit an arena block. *)
Theorem state_file_roundtrip {Y : Yyjson} {YM : YyjsonMut} {YL : YyjsonLaws} {YML : YyjsonMutLaws} accs flags fs path :
  Forall wf_snapshot accs -> Z.of_nat (List.length accs) * sizeof_account_snapshot <= DIV0_ARENA_BLOCK_SIZE ->
  text_roundtrip (t8n_write_alloc accs) flags t8n_parse_alloc (map without_zeros accs) /\ file_roundtrip (t8n_write_alloc accs) flags fs path t8n_parse_alloc_file (map without_zeros accs).
Proof.
  intros W L. split; [apply state_back; assumption|]. apply (file_back _ (alloc_json accs)); [apply write_alloc_writes | apply printable_alloc, W|]. intros v S. apply parse_alloc_spec; assumption.
Qed.

Definition sample_accounts : list account_snapshot_t :=
  [AccountSnapshot (addr 7) (word 1000) 3 [96; 0; 1] [StorageEntry (word 1) (word 9); StorageEntry (word 2) (word 0)]; AccountSnapshot (addr 8) (word 0) 0 [] []].

Lemma wf_snapshot_check n b k code es : u64 n -> u64 b -> u64 k -> bytes_ok code -> Z.of_nat (List.length code) <= DIV0_ARENA_BLOCK_SIZE ->
  Forall (fun kv => u64 (fst kv) /\ u64 (snd kv)) es -> Z.of_nat (List.length es) * sizeof_storage_entry <= DIV0_ARENA_BLOCK_SIZE ->
  wf_snapshot (AccountSnapshot (addr n) (word b) k code (map (fun kv => StorageEntry (word (fst kv)) (word (snd kv))) es)).
Proof.
  intros N B K C L E F. split; cbn [as_address as_balance as_nonce as_code as_storage]; [apply addr_wf, N | apply wf_from_u64, B | exact K | split; assumption|]. split.
  - apply Forall_map. eapply Forall_impl; [|exact E]. intros kv [P Q]. split; apply wf_from_u64; assumption.
  - pose proof (filter_length_le nonzero (map (fun kv => StorageEntry (word (fst kv)) (word (snd kv))) es)) as X. rewrite length_map in X. unfold sizeof_storage_entry in *. lia.
Qed.

Lemma sample_accounts_wf : Forall wf_snapshot sample_accounts.
Proof.
  apply Forall_cons; [|apply Forall_cons; [|apply Forall_nil]].
  - apply (wf_snapshot_check 7 1000 3 [96; 0; 1] [(1, 9); (2, 0)]); try (split; reflexivity || discriminate); try discriminate; [small_bytes|].
    repeat (apply Forall_cons; [split; split; reflexivity || discriminate|]). apply Forall_nil.
  - apply (wf_snapshot_check 8 0 0 [] []); try (split; reflexivity || discriminate); try discriminate; apply Forall_nil.
Qed.

Lemma state_file_roundtrip_witness :
  text_roundtrip (t8n_write_alloc sample_accounts) JSON_WRITE_PRETTY t8n_parse_alloc
    [AccountSnapshot (addr 7) (word 1000) 3 [96; 0; 1] [StorageEntry (word 1) (word 9)]; AccountSnapshot (addr 8) (word 0) 0 [] []].
Proof. exact (proj1 (state_file_roundtrip sample_accounts JSON_WRITE_PRETTY [] (lit "alloc.json") sample_accounts_wf ltac:(discriminate))). Defined.

(** C15: transactions survive their file. All five formats, with their access
    lists, blob hashes and authorizations, are read back exactly as
    [t8n_write_txs] wrote them, if the arrays of the parser fit an arena block. *)
Theorem transaction_file_roundtrip {Y : Yyjson} {YM : YyjsonMut} {YL : YyjsonLaws} {YML : YyjsonMutLaws} txs flags fs path :
  Forall (fun tx => wf_transaction tx /\ fits_tx tx) txs -> fits (List.length txs) sizeof_transaction ->
  text_roundtrip (t8n_write_txs txs) flags t8n_parse_txs txs /\ file_roundtrip (t8n_write_txs txs) flags fs path t8n_parse_txs_file txs.
Proof.
  intros W L. assert (P : printable (txs_json txs)) by (apply printable_txs; eapply Forall_impl; [|exact W]; intros tx [X _]; exact X).
  split; [apply (text_back _ (txs_json txs)) | apply (file_back _ (txs_json txs))]; try apply write_txs_writes; try exact P; intros v S; apply parse_txs_spec; assumption.
Qed.

Lemma transaction_file_roundtrip_witness : text_roundtrip (t8n_write_txs [sample_tx; TX_EIP4844 sample_blob_tx]) JSON_WRITE_COMPACT t8n_parse_txs [sample_tx; TX_EIP4844 sample_blob_tx].
Proof.
  refine (proj1 (transaction_file_roundtrip [sample_tx; TX_EIP4844 sample_blob_tx] JSON_WRITE_COMPACT [] (lit "txs.json") _ ltac:(discriminate))).
  apply Forall_cons; [split; [apply sample_tx_ok|]|]. 2: apply Forall_cons; [split; [apply sample_blob_ok|]|apply Forall_nil].
  all: vm_compute; repeat (first [split; [discriminate|] | split | discriminate | constructor]).
Defined.

(** Wrong digits are not errors. In the fields of a transaction that are
    256-bit numbers the parser ignores whether the text was valid: an empty or
    too long text gives zero, and a text that goes wrong half-way gives the
    value of the digits before the first wrong character. *)
Theorem malformed_words_accepted {Y : Yyjson} {YL : YyjsonLaws} v m key s : shows v (JObj m) -> find_key m (lit key) = Some (JStr s) ->
  let d := skip_0x_prefix (c_string s) in
  word_field (Some v) key = if (1 <=? strlen d) && (strlen d <=? 64) then of_Z256 (hex_val (digits_of d)) else uint256_zero.
Proof.
  intros S F d. unfold word_field. pose proof (field_string v m S (lit key) s F) as [N G]. unfold json_get_hex_uint256. rewrite N, G, hex_decode_uint256_spec. cbv zeta. fold d. destruct (_ && _); reflexivity.
Qed.

Definition malformed_members : list (list Z * json) := [(lit "value", JStr (lit "0x12zz")); (lit "gasPrice", JStr (lit "0x"))].

Lemma malformed_words_accepted_witness : word_field (Some [JObj malformed_members]) "value" = word 18 /\
  match t8n_parse_tx (Some [JObj malformed_members]) with inl (TX_LEGACY t) => leg_value t = word 18 /\ leg_gas_price t = word 0 | _ => False end.
Proof. split; [exact (malformed_words_accepted [JObj malformed_members] malformed_members "value" (lit "0x12zz") eq_refl eq_refl) | vm_compute; split; reflexivity]. Defined.

(** The value of a decimal text. *)
Definition dec_val (s : cstr) (v : Z) : Z := fold_left (fun v c => v * 10 + (c - 48)) s v.

Lemma read_decimal_all s : Forall (fun c => is_dec c = true) s -> forall v, read_decimal s v = (dec_val s v, []).
Proof. induction 1 as [|c s D _ IH]; intros v; cbn [read_decimal]; [reflexivity|]. rewrite D, IH. reflexivity. Qed.

Lemma is_dec_range c : is_dec c = true <-> 48 <= c <= 57.
Proof. unfold is_dec. lia. Qed.

Lemma strtoull_decimal s : Forall (fun c => is_dec c = true) s -> strtoull_10 s = (Z.min UINT64_MAX (dec_val s 0), []).
Proof.
  intros F. unfold strtoull_10. destruct F as [|c s D F]; [reflexivity|]. apply is_dec_range in D as R. assert (E : skip_spaces (c :: s) = c :: s) by (cbn [skip_spaces]; unfold is_space; destruct ((c =? 32) || _) eqn:E; [lia | reflexivity]). rewrite E.
  assert (X : (let '(negative, digits) := match c :: s with 45 :: rest => (true, rest) | 43 :: rest => (false, rest) | _ => (false, c :: s) end in
               if is_dec (aget digits 0) then let '(v, rest) := read_decimal digits 0 in (if v >? UINT64_MAX then UINT64_MAX else if negative then w64 (- v) else v, rest) else (0, c :: s)) =
              (Z.min UINT64_MAX (dec_val (c :: s) 0), [])); [|exact X].
  assert (H : forall (A : Type) (p q r : A), match c with 45 => p | 43 => q | _ => r end = r).
  { intros A p q r. assert (C : In c [48; 49; 50; 51; 52; 53; 54; 55; 56; 57]) by (cbn; lia). cbn in C. repeat (destruct C as [<-|C]; [reflexivity|]). destruct C. }
  change (match c :: s with 45 :: rest => (true, rest) | 43 :: rest => (false, rest) | _ => (false, c :: s) end) with (match c with 45 => (true, s) | 43 => (false, s) | _ => (false, c :: s) end).
  rewrite H. cbn [aget nth]. rewrite D, read_decimal_all by (constructor; assumption). destruct (Z.gtb_spec (dec_val (c :: s) 0) UINT64_MAX); f_equal; lia.
Qed.

Lemma decimal_digits s : Forall (fun c => is_dec c = true) s -> digits_of s = map (fun c => c - 48) s.
Proof.
  induction 1 as [|c s D _ IH]; cbn [digits_of map]; [reflexivity|]. apply is_dec_range in D. unfold hex_char_to_nibble. rewrite (proj2 (Z.leb_le 48 c)), (proj2 (Z.leb_le c 57)) by lia. cbn [andb]. rewrite IH, w8_small by (unfold u8; lia). reflexivity.
Qed.

Lemma decimal_no_prefix s : Forall (fun c => is_dec c = true) s -> skip_0x_prefix s = s.
Proof.
  intros F. unfold skip_0x_prefix. destruct F as [|c s D F]; [reflexivity|]. destruct F as [|e s D' F]; [cbn [aget nth]; rewrite andb_false_r; reflexivity|]. cbn [aget nth]. apply is_dec_range in D'.
  rewrite (proj2 (Z.eqb_neq e 120)), (proj2 (Z.eqb_neq e 88)) by lia. cbn [orb]. rewrite andb_false_r. reflexivity.
Qed.

(** Decimal block numbers are misread. The keys of [blockHashes] are read as
    hexadecimal first, so a decimal number of at most 16 digits is taken for the
    hexadecimal number with the same digits; only longer ones are read as
    decimal, and the empty key is block 0. *)
Theorem decimal_block_numbers s : Forall (fun c => is_dec c = true) s -> block_number (Some s) =
  inl (if (1 <=? strlen s) && (strlen s <=? 16) then hex_val (map (fun c => c - 48) s) else Z.min UINT64_MAX (dec_val s 0)).
Proof.
  intros F. unfold block_number. rewrite hex_decode_u64_spec. cbv zeta. rewrite decimal_no_prefix by exact F. assert (A : all_hex s = true) by (unfold all_hex; rewrite decimal_digits, length_map by exact F; apply Nat.eqb_refl).
  rewrite A, andb_true_r, decimal_digits by exact F. destruct (_ && _); [reflexivity|]. cbn [or_default]. rewrite strtoull_decimal by exact F. reflexivity.
Qed.

Lemma decimal_block_numbers_witness : block_number (Some (lit "16")) = inl 22 /\ block_number (Some (lit "")) = inl 0.
Proof. split; [apply (decimal_block_numbers (lit "16")) | apply (decimal_block_numbers (lit ""))]; vm_compute; repeat constructor. Defined.
