(* ===== verification/CommandTheorems.v ===== *)
(** The properties of the transition tool as a whole: importing a state, carrying
    it over to the next run, and the command from its options to its exit code. *)
From Stdlib Require Import ZArith Lia List Bool String.
From S2P Require Import Prelude Uint256 Types Effects Arena Stack Bytes RlpSpec Account StateAccess HashTable Nibbles Trie TrieSpec TrieMap TrieTheorems.
From S2P Require Import WorldState WorldSpec WorldLaws WorldView WorldExport WorldTheorems Transaction TxRlp TxSpec CodecTheorems.
From S2P Require Import Frame Gas Evm EvmSafe Execution MemState EvmTheorems Executor ExecutorSafe ExecTheorems.
From S2P Require Import Hex HexSpec Json T8nAlloc T8nEnv T8nTxs T8nResult JsonSpec JsonModel FilesSpec T8nCommand ImportSpec ParseSafe CommandSafe T8nTheorems.
Import ListNotations.
#[local] Open Scope Z_scope.
#[local] Open Scope json_scope.

(** * Importing *)

(** What an account of a file looks like in a world state. *)
Definition stored {M} {HT : HashTables M} (keccak256 : list Z -> hash_t) (ws : @world_state_t M) (x : account_snapshot_t) : Prop :=
  let a := as_address x in
  ws_get_balance keccak256 ws a = inl (as_balance x) /\ ws_get_nonce keccak256 ws a = inl (as_nonce x) /\ ws_get_code ws a = as_code x /\
  ws_get_code_hash keccak256 ws a = inl (code_hash_of keccak256 (as_code x)) /\
  forall k, wf256 k -> ws_get_storage keccak256 ws a k = inl (slot_of (as_storage x) k uint256_zero).

Section Imported.
Context {M : Type -> Type -> Type} {HT : HashTables M} {HL : HashTableLaws M}.
Variable keccak256 : list Z -> hash_t.
Hypothesis keccak_wf : forall bs, wf_hash (keccak256 bs).
Hypothesis address_keys : forall a b, wf_address a -> wf_address b -> keccak256 a = keccak256 b -> a = b.
Hypothesis slot_keys : forall k j, wf256 k -> wf256 j -> keccak256 (uint256_to_bytes_be k) = keccak256 (uint256_to_bytes_be j) -> k = j.
#[local] Abbreviation build := (build_state_from_snapshot (SA := WORLD_STATE_VTABLE keccak256) (world_state_create : @world_state_t M)).

Lemma build_stores accs : Forall importable accs -> NoDup (map as_address accs) -> let ws := build accs in
  world_ok keccak256 ws /\ Forall (stored keccak256 ws) accs /\
  forall b, wf_address b -> ~ In b (map as_address accs) -> ws_account_exists keccak256 ws b = inl false /\ ws_get_code ws b = [] /\ forall k, wf256 k -> ws_get_storage keccak256 ws b k = inl uint256_zero.
Proof.
  intros I D ws. pose proof (build_simulates keccak256 keccak_wf address_keys slot_keys accs I) as S. fold ws in S. pose proof (sm_ok _ _ _ S) as W.
  destruct (after_accounts keccak256 accs empty_view I D) as [A B]; [apply Forall_forall; intros x _; repeat split|]. split; [exact W|]. split.
  - rewrite Forall_forall in *. intros x J. destruct (A x J) as (X1 & X2 & X3). destruct (I x J) as [Wa _ _ _ _]. unfold stored.
    rewrite get_balance_eq, get_nonce_eq, get_code_hash_eq, (account_in_eq keccak256 ws _ (as_address x) S Wa), X1 by assumption. split; [reflexivity|]. split; [reflexivity|].
    split; [unfold ws_get_code; rewrite (sm_code _ _ _ S); exact X2|]. split; [reflexivity|]. intros k K. destruct (get_storage_spec keccak256 keccak_wf ws (as_address x) k W) as [-> _]. rewrite (sm_slot _ _ _ S) by assumption. f_equal. apply X3.
  - intros b Wb N. destruct (B b N) as (P1 & P2 & P3). rewrite exists_spec, (sm_account _ _ _ S b Wb), P1 by assumption. split; [reflexivity|]. split; [unfold ws_get_code; rewrite (sm_code _ _ _ S), P2; reflexivity|].
    intros k K. destruct (get_storage_spec keccak256 keccak_wf ws b k W) as [-> _]. rewrite (sm_slot _ _ _ S) by assumption. f_equal. apply P3.
Qed.
End Imported.

(** C14: the import is exact. From a file of accounts with distinct addresses the
    command builds a well-formed world state in which each account has the
    balance, nonce, code, code hash and slots of its entry (the last value, if
    a slot is listed twice), and no other account, code or slot. *)
Theorem import_exact {M} {HT : HashTables M} {HL : HashTableLaws M} (keccak256 : list Z -> hash_t) accs : (forall bs, wf_hash (keccak256 bs)) ->
  (forall a b, wf_address a -> wf_address b -> keccak256 a = keccak256 b -> a = b) ->
  (forall k j, wf256 k -> wf256 j -> keccak256 (uint256_to_bytes_be k) = keccak256 (uint256_to_bytes_be j) -> k = j) ->
  Forall importable accs -> NoDup (map as_address accs) ->
  let ws := build_state_from_snapshot (SA := WORLD_STATE_VTABLE keccak256) (world_state_create : @world_state_t M) accs in
  world_ok keccak256 ws /\ Forall (stored keccak256 ws) accs /\
  forall b, wf_address b -> ~ In b (map as_address accs) -> ws_account_exists keccak256 ws b = inl false /\ ws_get_code ws b = [] /\ forall k, wf256 k -> ws_get_storage keccak256 ws b k = inl uint256_zero.
Proof. intros K A S. exact (build_stores keccak256 K A S accs). Qed.

Lemma wf_importable x : wf_snapshot x -> importable x.
Proof. intros [A B N C [S _]]. split; assumption. Qed.

Lemma sample_addresses : NoDup (map as_address sample_accounts).
Proof.
  apply NoDup_cons; [|apply NoDup_cons; [intros [] | apply NoDup_nil]]. intros [H|[]]. apply (proj2 (bytes_eqb_eq _ _)) in H. vm_compute in H. discriminate.
Qed.

Lemma import_exact_witness : let ws := build_state_from_snapshot (SA := WORLD_STATE_VTABLE pad_keccak) (world_state_create : @world_state_t pairs) sample_accounts in
  ws_get_storage pad_keccak ws (addr 7) (word 1) = inl (word 9) /\ ws_get_nonce pad_keccak ws (addr 7) = inl 3 /\ ws_account_exists pad_keccak ws (addr 9) = inl false.
Proof.
  intros ws. destruct (import_exact (M := pairs) pad_keccak sample_accounts pad_keccak_wf pad_addresses pad_slots) as (_ & S & O).
  - eapply Forall_impl; [exact wf_importable | exact sample_accounts_wf].
  - exact sample_addresses.
  - fold ws in S, O. inversion S as [|? ? (B & N & C & H & K) _]; subst. split; [apply (K (word 1)); good_word|]. split; [exact N|].
    apply O; [apply addr_wf; split; reflexivity || discriminate|]. intros [X|[X|[]]]; apply (proj2 (bytes_eqb_eq _ _)) in X; vm_compute in X; discriminate.
Defined.

(** * Carrying a state over *)

Lemma slot_of_spec es k x : forall v, (forall e, In e es -> uint256_eq (se_slot e) k = true -> se_value e = x) ->
  slot_of es k v = if existsb (fun e => uint256_eq (se_slot e) k) es then x else v.
Proof.
  unfold slot_of. induction es as [|e es IH]; intros v H; cbn [fold_left existsb]; [reflexivity|]. rewrite IH by (intros e' I; apply H; right; exact I).
  destruct (uint256_eq (se_slot e) k) eqn:E; [|reflexivity]. rewrite (H e (or_introl eq_refl) E). cbn [orb]. destruct (existsb _ _); reflexivity.
Qed.

(** The addresses and slots that a world state tracks are well formed and few
    enough for the arrays of the export and of the next import. *)
Record portable {M} {HT : HashTables M} (ws : @world_state_t M) : Prop := {
  po_accounts : Forall wf_address (account_list ws) /\ Z.of_nat (List.length (account_list ws)) * sizeof_account_snapshot <= DIV0_ARENA_BLOCK_SIZE;
  po_slots : Forall (fun k => wf256 (key_slot k)) (slot_list ws) /\ Z.of_nat (List.length (slot_list ws)) < 2 ^ 32;
  po_account_slots : forall a, Z.of_nat (List.length (of_address a (slot_list ws))) * sizeof_storage_entry <= DIV0_ARENA_BLOCK_SIZE }.

Section Carried.
Context {M : Type -> Type -> Type} {HT : HashTables M} {HL : HashTableLaws M}.
Variable keccak256 : list Z -> hash_t.
Hypothesis keccak_wf : forall bs, wf_hash (keccak256 bs).
Variable ws : @world_state_t M.
Hypotheses (W : world_ok keccak256 ws) (P : portable ws).
#[local] Abbreviation out := (exported keccak256 ws).

Lemma export_succeeds : world_state_snapshot keccak256 ws = inl (Some out).
Proof.
  destruct P as [[_ LA] [_ LS] LE]. unfold sizeof_account_snapshot, sizeof_storage_entry, DIV0_ARENA_BLOCK_SIZE in *.
  destruct (snapshot_spec keccak256 keccak_wf ws W) as ([accs|] & E & R); [lia | exact LS | congruence|]. exfalso. destruct R as [R|[a R]]; [lia|]. specialize (LE a). lia.
Qed.

Lemma entries_nonzero a : filter nonzero (entries_of keccak256 ws a (slot_list ws)) = entries_of keccak256 ws a (slot_list ws).
Proof.
  unfold entries_of. induction (of_address a (slot_list ws)) as [|k l IH]; [reflexivity|]. cbn [filter]. destruct (negb (uint256_is_zero (slot_at keccak256 ws a (key_slot k)))) eqn:E; [|exact IH].
  cbn [map filter]. unfold nonzero at 1. cbn [se_value]. rewrite E, IH. reflexivity.
Qed.

Lemma export_wf x : In x out -> wf_snapshot x /\ without_zeros x = x.
Proof.
  intros I. apply exported_in in I as (C & acc & A & X). destruct P as [[WA _] [WS _] LE]. destruct (get_account_spec keccak256 keccak_wf ws (as_address x) W) as (_ & G & _). destruct (G acc A) as [[G1 G2 _ _] _].
  rewrite X. split; [|unfold without_zeros; cbn [as_address as_balance as_nonce as_code as_storage]; rewrite entries_nonzero; reflexivity].
  rewrite Forall_forall in WA, WS. split; cbn [as_address as_balance as_nonce as_code as_storage]; [apply WA, in_keys, C | exact G2 | exact G1 | exact (code_ok keccak256 ws _ W)|]. split.
  - apply Forall_forall. intros [k v] J. apply entries_in in J as (T & -> & _). cbn [se_slot se_value]. split; [exact (WS (SlotKey (as_address x) k) (proj2 (in_keys _ _) T)) | apply (get_storage_spec keccak256 keccak_wf ws _ k W)].
  - rewrite entries_nonzero. unfold entries_of. rewrite length_map. specialize (LE (as_address x)). pose proof (filter_length_le (fun key => negb (uint256_is_zero (slot_at keccak256 ws (as_address x) (key_slot key)))) (of_address (as_address x) (slot_list ws))) as F.
    unfold sizeof_storage_entry in *. lia.
Qed.

Lemma export_all : Forall wf_snapshot out /\ map without_zeros out = out /\ Z.of_nat (List.length out) * sizeof_account_snapshot <= DIV0_ARENA_BLOCK_SIZE.
Proof.
  split; [apply Forall_forall; intros x I; apply (export_wf x I)|]. split.
  - rewrite <- (map_id out) at 2. apply map_ext_in. intros x I. apply (export_wf x I).
  - destruct P as [[_ LA] _ _]. unfold exported. rewrite length_map. pose proof (bare_length keccak256 ws (account_list ws)) as L. unfold sizeof_account_snapshot in *. lia.
Qed.

(** The slots of an account of the export: the tracked ones. *)
Lemma exported_slots x k : In x out -> wf256 k ->
  slot_of (as_storage x) k uint256_zero = if hm_contains (all_storage_slots ws) (SlotKey (as_address x) k) then slot_at keccak256 ws (as_address x) k else uint256_zero.
Proof.
  intros I K. apply exported_in in I as (_ & acc & _ & X). rewrite X. cbn [as_storage as_address]. set (a := as_address x). destruct P as [_ [WS _] _]. rewrite Forall_forall in WS.
  assert (E : forall e, In e (entries_of keccak256 ws a (slot_list ws)) -> uint256_eq (se_slot e) k = true -> se_slot e = k).
  { intros [j v] J E. apply entries_in in J as (T & _). cbn [se_slot] in *. pose proof (WS (SlotKey a j) (proj2 (in_keys _ _) T)) as Wj. cbn in Wj. rewrite uint256_eq_spec in E by assumption. apply Z.eqb_eq in E. apply val_inj; assumption. }
  rewrite (slot_of_spec _ k (slot_at keccak256 ws a k)); [|intros [j v] J Q; pose proof (E _ J Q) as F; cbn in F; subst j; apply entries_in in J as (_ & -> & _); reflexivity].
  destruct (existsb _ _) eqn:B.
  - apply existsb_exists in B as ([j v] & J & Q). pose proof (E _ J Q) as F. cbn in F. subst j. apply entries_in in J as (T & _). rewrite T. reflexivity.
  - destruct (hm_contains _ _) eqn:T; [|reflexivity]. destruct (uint256_is_zero (slot_at keccak256 ws a k)) eqn:Z0; [symmetry; apply is_zero_eq; [apply (get_storage_spec keccak256 keccak_wf ws a k W) | exact Z0]|].
    exfalso. rewrite <- not_true_iff_false in B. apply B, existsb_exists. exists (StorageEntry k (slot_at keccak256 ws a k)). split; [apply entries_in; auto|]. cbn [se_slot]. rewrite uint256_eq_spec by assumption. apply Z.eqb_refl.
Qed.
End Carried.

(** C13: a state carries over from one run to the next. The world state is
    exported, written as text, parsed and imported into a new world state: every
    tracked account that exists has its balance, nonce and code again, its
    tracked slots have their values, and there is nothing else. *)
Theorem state_carries_over {Y : Yyjson} {YM : YyjsonMut} {YL : YyjsonLaws} {YML : YyjsonMutLaws} {M} {HT : HashTables M} {HL : HashTableLaws M}
  (keccak256 : list Z -> hash_t) (ws : @world_state_t M) flags : (forall bs, wf_hash (keccak256 bs)) ->
  (forall a b, wf_address a -> wf_address b -> keccak256 a = keccak256 b -> a = b) ->
  (forall k j, wf256 k -> wf256 j -> keccak256 (uint256_to_bytes_be k) = keccak256 (uint256_to_bytes_be j) -> k = j) ->
  world_ok keccak256 ws -> portable ws ->
  exists accs, world_state_snapshot keccak256 ws = inl (Some accs) /\ text_roundtrip (t8n_write_alloc accs) flags t8n_parse_alloc accs /\
    let ws' := build_state_from_snapshot (SA := WORLD_STATE_VTABLE keccak256) (world_state_create : @world_state_t M) accs in
    world_ok keccak256 ws' /\ forall a, wf_address a ->
      if hm_contains (all_accounts ws) a && or_else false (ws_account_exists keccak256 ws a)
      then ws_get_balance keccak256 ws' a = ws_get_balance keccak256 ws a /\ ws_get_nonce keccak256 ws' a = ws_get_nonce keccak256 ws a /\ ws_get_code ws' a = ws_get_code ws a /\
           forall k, wf256 k -> ws_get_storage keccak256 ws' a k = if hm_contains (all_storage_slots ws) (SlotKey a k) then ws_get_storage keccak256 ws a k else inl uint256_zero
      else ws_account_exists keccak256 ws' a = inl false.
Proof.
  intros K A S W P. exists (exported keccak256 ws). split; [apply export_succeeds; assumption|]. destruct (export_all keccak256 K ws W P) as (E1 & E2 & E3). split.
  - rewrite <- E2 at 2. apply (state_back (exported keccak256 ws) flags E1 E3).
  - destruct (build_stores keccak256 K A S (exported keccak256 ws)) as (B1 & B2 & B3); [eapply Forall_impl; [exact wf_importable | exact E1] | apply exported_nodup|]. cbv zeta.
    split; [exact B1|]. intros a Wa. rewrite (exists_spec keccak256 K ws a W). cbn [or_else]. destruct (hm_contains (all_accounts ws) a) eqn:C; [destruct (acct keccak256 ws a) as [acc|] eqn:G|]; cbn [andb].
    + set (x := AccountSnapshot a (acc_balance acc) (acc_nonce acc) (ws_get_code ws a) (entries_of keccak256 ws a (slot_list ws))). assert (I : In x (exported keccak256 ws)) by (apply exported_in; split; [exact C|]; exists acc; auto).
      rewrite Forall_forall in B2. destruct (B2 x I) as (S1 & S2 & S3 & _ & S5). cbn [as_address as_balance as_nonce as_code] in *. rewrite (get_balance_eq keccak256 K ws a W), (get_nonce_eq keccak256 K ws a W). unfold acct_or. rewrite G.
      split; [exact S1|]. split; [exact S2|]. split; [exact S3|]. intros k Hk. etransitivity; [exact (S5 k Hk)|]. rewrite (exported_slots keccak256 K ws W P x k I Hk). cbn [as_address x].
      destruct (hm_contains (all_storage_slots ws) (SlotKey a k)); [symmetry; apply (get_storage_spec keccak256 K ws a k W) | reflexivity].
    + apply B3; [exact Wa|]. intros J. apply in_map_iff in J as (x & <- & J). apply exported_in in J as (_ & acc & G' & _). congruence.
    + apply B3; [exact Wa|]. intros J. apply in_map_iff in J as (x & <- & J). apply exported_in in J as (C' & _). congruence.
Qed.

Lemma first_history_portable : portable (after first_history).
Proof.
  assert (A : account_list (after first_history) = [addr 7]) by (vm_compute; reflexivity).
  assert (S : slot_list (after first_history) = [SlotKey (addr 8) (word 2); SlotKey (addr 7) (word 1)] \/ slot_list (after first_history) = [SlotKey (addr 7) (word 1); SlotKey (addr 8) (word 2)]) by (vm_compute; tauto).
  split.
  - rewrite A. split; [|discriminate]. apply Forall_cons; [apply addr_wf; split; reflexivity || discriminate | apply Forall_nil].
  - destruct S as [-> | ->]; (split; [|reflexivity]); repeat (apply Forall_cons; [cbn [key_slot]; good_word|]); apply Forall_nil.
  - intros a. assert (L : (List.length (of_address a (slot_list (after first_history))) <= 2)%nat) by (etransitivity; [apply filter_length_le|]; destruct S as [-> | ->]; cbn; lia). unfold sizeof_storage_entry, DIV0_ARENA_BLOCK_SIZE. lia.
Qed.

Lemma state_carries_over_witness : exists accs, world_state_snapshot pad_keccak (after first_history) = inl (Some accs) /\ text_roundtrip (t8n_write_alloc accs) JSON_WRITE_PRETTY t8n_parse_alloc accs /\
  let ws' := build_state_from_snapshot (SA := WORLD_STATE_VTABLE pad_keccak) (world_state_create : @world_state_t pairs) accs in
  ws_get_balance pad_keccak ws' (addr 7) = ws_get_balance pad_keccak (after first_history) (addr 7).
Proof.
  destruct (state_carries_over pad_keccak (after first_history) JSON_WRITE_PRETTY pad_keccak_wf pad_addresses pad_slots) as (accs & E & T & _ & H); [apply after_ok; good_calls | exact first_history_portable|].
  exists accs. split; [exact E|]. split; [exact T|]. specialize (H (addr 7) ltac:(apply addr_wf; split; reflexivity || discriminate)).
  assert (C : hm_contains (all_accounts (after first_history)) (addr 7) && or_else false (ws_account_exists pad_keccak (after first_history) (addr 7)) = true) by (vm_compute; reflexivity).
  rewrite C in H. apply H.
Defined.

(** * The command *)

(** The command ends. For all options, files, standard input and answers of
    the JSON library there is a number of rounds after which the outcome no
    longer depends on it, and the outcome is one of the documented exit codes, an
    access outside an object, or the loop that grows memory for ever, which a
    message of the loaded block must have reached. *)
Theorem cmd_t8n_ends {Y : Yyjson} {YM : YyjsonMut} {M} {HT : HashTables M} {HL : HashTableLaws M} (keccak256 : list Z -> hash_t) ecdsa_recover stdout opts fs stdin : (forall bs, wf_hash (keccak256 bs)) ->
  exists n res, (forall rounds fuel, (n <= rounds)%nat -> (n <= fuel)%nat -> cmd_t8n (M := M) keccak256 ecdsa_recover stdout rounds fuel opts fs stdin = res) /\
    exits (loads_endless (M := M) keccak256 ecdsa_recover opts fs stdin) res.
Proof. intros K. exact (cmd_settled keccak256 K ecdsa_recover stdout opts fs stdin). Qed.

Lemma cmd_t8n_ends_witness : exists n res, (forall rounds fuel, (n <= rounds)%nat -> (n <= fuel)%nat -> cmd_t8n (M := pairs) pad_keccak (fun _ _ _ => None) (lit "stdout") rounds fuel t8n_options_init [] None = res) /\
  exits (loads_endless (M := pairs) pad_keccak (fun _ _ _ => None) t8n_options_init [] None) res.
Proof. exact (cmd_t8n_ends pad_keccak (fun _ _ _ => None) (lit "stdout") t8n_options_init [] None pad_keccak_wf). Defined.

(** The result has room for 170 receipts. The arrays of the result are
    allocated without a test, so beyond 170 receipts (or 4096 rejections) the
    command writes through a null pointer, though files of 204 transactions are
    accepted; up to there the result is the one of the executor, receipt by
    receipt. *)
Theorem result_capacity fork env r : Z.of_nat (List.length (res_receipts r)) < 2 ^ 32 -> Z.of_nat (List.length (res_rejected r)) < 2 ^ 32 ->
  alloc_succeeds (204 * sizeof_transaction) = true /\
  if (Z.of_nat (List.length (res_receipts r)) <=? 170) && (Z.of_nat (List.length (res_rejected r)) <=? 4096)
  then exists result, build_result fork env r = inl result /\ rs_state_root result = res_state_root r /\ rs_gas_used result = res_gas_used r /\
         rs_receipts result = copy_receipts 0 (res_receipts r) /\ List.length (rs_rejected result) = List.length (res_rejected r)
  else build_result fork env r = inr OutOfBounds.
Proof. intros LR LJ. split; [reflexivity|]. exact (build_result_spec fork env r LR LJ). Qed.

Definition many_receipts (n : nat) : block_exec_result_t := BlockResult (repeat (Receipt hash_zero 0 true 21000 21000 None []) n) [] 21000 0 hash_zero.
Definition empty_env : t8n_env_t := T8nEnv.t8n_env_init.

Lemma result_capacity_witness : build_result FORK_SHANGHAI empty_env (many_receipts 171) = inr OutOfBounds.
Proof. exact (proj2 (result_capacity FORK_SHANGHAI empty_env (many_receipts 171) ltac:(reflexivity) ltac:(reflexivity))). Defined.

(** The reported root leaves out the reward. With no transactions the state
    root of the result is the one of the imported state; the block reward is
    added to the coinbase afterwards, so the state that is written has another
    balance than the one the root stands for. *)
Theorem reward_after_root {M} {HT : HashTables M} {HL : HashTableLaws M} (keccak256 : list Z -> hash_t) ecdsa_recover rounds fuel opts pre env : (forall bs, wf_hash (keccak256 bs)) ->
  inputs_ok (pre, env, []) -> 0 <= opt_reward opts ->
  exists result ws0 ws, run_block (M := M) keccak256 ecdsa_recover rounds fuel opts (pre, env, []) = inl (inl (result, ws)) /\
    world_state_root keccak256 (build_state_from_snapshot (SA := WORLD_STATE_VTABLE keccak256) world_state_create pre) = inl (ws0, rs_state_root result) /\
    ws_set_balance keccak256 ws0 (env_coinbase env) (of_Z256 (val (acc_balance (acct_or keccak256 ws0 (env_coinbase env))) + opt_reward opts mod 2 ^ 64)) = inl ws.
Proof.
  intros K (P & E & _) R. unfold run_block. cbn [block_transactions List.length recover_senders unchecked_array Z.of_nat Z.eqb]. unfold block_executor_run. cbn [List.length Z.of_nat Z.eqb].
  change (world_access keccak256) with (WORLD_STATE_VTABLE (M := M) keccak256). set (b := build_state_from_snapshot _ pre). assert (W : world_ok keccak256 b) by (apply build_ok; [exact K | exact P | apply world_create_ok]).
  destruct (root_total keccak256 K b W) as (ws0 & h & Er & W0). exists (match build_result (parse_fork (opt_fork opts)) env (BlockResult [] [] 0 0 h) with inl r => r | inr _ => t8n_result_init end), ws0, (apply_reward (SA := WORLD_STATE_VTABLE keccak256) ws0 (env_coinbase env) (opt_reward opts)).
  split; [|split; [exact Er | apply apply_reward_spec; assumption]]. cbv zeta. change (state_root (StateAccess := WORLD_STATE_VTABLE keccak256) b) with (or_else (b, hash_zero) (world_state_root keccak256 b)). rewrite Er. reflexivity.
Qed.

Lemma empty_env_ok : ParseSafe.env_ok empty_env.
Proof.
  split; cbn; auto using u64_0, wf_zero, wf_address_zero.
Qed.

Definition rewarding : t8n_options_t := Options (lit "alloc.json") (lit "env.json") (lit "txs.json") (lit ".") (lit "result.json") (lit "alloc.json") None (lit "Shanghai") 1 5 false.

Lemma reward_after_root_witness : exists result ws0 ws, run_block (M := pairs) pad_keccak (fun _ _ _ => None) 0 0 rewarding ([], empty_env, []) = inl (inl (result, ws)) /\
  world_state_root pad_keccak (world_state_create : @world_state_t pairs) = inl (ws0, rs_state_root result) /\
  ws_set_balance pad_keccak ws0 address_zero (of_Z256 (val (acc_balance (acct_or pad_keccak ws0 address_zero)) + 5)) = inl ws.
Proof. exact (reward_after_root pad_keccak (fun _ _ _ => None) 0 0 rewarding [] empty_env pad_keccak_wf (conj (Forall_nil _) (conj empty_env_ok (Forall_nil _))) ltac:(discriminate)). Defined.
