(* ===== verification/Keccak.v ===== *)
(** The Keccak-256 hasher: src/crypto/keccak256.c.

    The sponge of the XKCP library is not part of the sources. It is a class
    of operations on the hasher's inline storage ([Sponge]) with its documented
    behaviour as laws ([SpongeLaws]); the hasher is proved against the laws,
    and the Keccak-f[1600] sponge of the Keccak specification, written out at
    the end, discharges them. *)
From Stdlib Require Import ZArith Lia List Bool.
From S2P Require Import Prelude Types.
Import ListNotations.
#[local] Open Scope Z_scope.

Definition KECCAK256_RATE : Z := 1088.
Definition KECCAK256_CAPACITY : Z := 512.
Definition KECCAK256_STATE_SIZE : nat := 256.

(** [keccak256_hasher_t]: the raw storage of the sponge instance. *)
Record keccak256_hasher_t := Hasher { state : list Z }.

(** * The library

    Each call returns its result code and leaves the storage changed. *)
Class Sponge := {
  KeccakWidth1600_SpongeInitialize : list Z -> Z -> Z -> Z * list Z;
  KeccakWidth1600_SpongeAbsorb : list Z -> list Z -> Z * list Z;
  KeccakWidth1600_SpongeSqueeze : list Z -> nat -> Z * list Z * list Z }.

(** What Keccak.h documents: an initialised instance has absorbed
    nothing, absorbing [a] and then [b] is absorbing [a ++ b], and squeezing
    returns the requested number of bytes of the sponge function's output on
    what was absorbed. [absorbing st bs] relates a storage, which keeps its
    declared size, to its input. *)
Class SpongeLaws (S : Sponge) := {
  absorbing : list Z -> list Z -> Prop;
  sponge_output : list Z -> nat -> list Z;
  absorbing_size st bs : absorbing st bs -> length st = KECCAK256_STATE_SIZE;
  sponge_initialize st : exists st',
    KeccakWidth1600_SpongeInitialize st 1088 512 = (0, st') /\ absorbing st' [];
  sponge_absorb st bs data : absorbing st bs -> exists st',
    KeccakWidth1600_SpongeAbsorb st data = (0, st') /\ absorbing st' (bs ++ data);
  sponge_squeeze st bs n : absorbing st bs -> exists st',
    KeccakWidth1600_SpongeSqueeze st n = (0, st', sponge_output bs n);
  sponge_output_length bs n : length (sponge_output bs n) = n;
  sponge_output_bytes bs n : bytes_ok (sponge_output bs n) }.

(** * The hasher

    [None] is a failed [assert]. *)
Section Hasher.
Context {SP : Sponge}.

Definition keccak256_init (hasher : keccak256_hasher_t) : option keccak256_hasher_t :=
  let (result, st) := KeccakWidth1600_SpongeInitialize (state hasher) KECCAK256_RATE KECCAK256_CAPACITY in
  if result =? 0 then Some (Hasher st) else None.

Definition keccak256_update (hasher : keccak256_hasher_t) (data : list Z) : option keccak256_hasher_t :=
  if Z.of_nat (length data) =? 0 then Some hasher
  else
    let (result, st) := KeccakWidth1600_SpongeAbsorb (state hasher) data in
    if result =? 0 then Some (Hasher st) else None.

Definition keccak256_reset (hasher : keccak256_hasher_t) : option keccak256_hasher_t :=
  let (result, st) := KeccakWidth1600_SpongeInitialize (state hasher) KECCAK256_RATE KECCAK256_CAPACITY in
  if result =? 0 then Some (Hasher st) else None.

Definition keccak256_finalize (hasher : keccak256_hasher_t) : option (keccak256_hasher_t * hash_t) :=
  let '(result, st, output) := KeccakWidth1600_SpongeSqueeze (state hasher) HASH_SIZE in
  if result =? 0 then
    match keccak256_reset (Hasher st) with
    | Some hasher => Some (hasher, output)
    | None => None
    end
  else None.

(** The loop that zeroes the storage, byte after byte. *)
Fixpoint zero_bytes (n i : nat) (p : list Z) : list Z :=
  match n with
  | O => p
  | S n => zero_bytes n (S i) (aset p i 0)
  end.

Definition keccak256_destroy (hasher : keccak256_hasher_t) : keccak256_hasher_t :=
  Hasher (zero_bytes KECCAK256_STATE_SIZE 0 (state hasher)).

(** [hasher] starts as whatever is on the stack. *)
Definition keccak256 (hasher : keccak256_hasher_t) (data : list Z) : option (keccak256_hasher_t * hash_t) :=
  match keccak256_init hasher with
  | None => None
  | Some hasher =>
      match keccak256_update hasher data with
      | None => None
      | Some hasher =>
          match keccak256_finalize hasher with
          | None => None
          | Some (hasher, result) => Some (keccak256_destroy hasher, result)
          end
      end
  end.

(** ** Sequences of calls *)

Inductive hasher_op :=
| Init
| Update (data : list Z)
| Finalize
| Reset
| Destroy.

Definition hasher_step (h : keccak256_hasher_t) (op : hasher_op) : option (keccak256_hasher_t * list hash_t) :=
  match op with
  | Init => option_map (fun h => (h, [])) (keccak256_init h)
  | Update data => option_map (fun h => (h, [])) (keccak256_update h data)
  | Finalize => option_map (fun '(h, out) => (h, [out])) (keccak256_finalize h)
  | Reset => option_map (fun h => (h, [])) (keccak256_reset h)
  | Destroy => Some (keccak256_destroy h, [])
  end.

Fixpoint hasher_run (h : keccak256_hasher_t) (ops : list hasher_op) : option (keccak256_hasher_t * list hash_t) :=
  match ops with
  | [] => Some (h, [])
  | op :: ops =>
      match hasher_step h op with
      | None => None
      | Some (h, out) => option_map (fun '(h, outs) => (h, out ++ outs)) (hasher_run h ops)
      end
  end.
End Hasher.

(** * What the hasher promises

    A live hasher is the bytes it was given since it was last initialised,
    reset or finalised; an unset or destroyed one is [None], on which only
    initialisation, reset, destruction and the empty update make sense. *)
Section Spec.
Variable digest : list Z -> hash_t.

Definition spec_step (buffer : option (list Z)) (op : hasher_op) : option (option (list Z) * list hash_t) :=
  match op with
  | Init => Some (Some [], [])
  | Update data =>
      match buffer, data with
      | Some bs, _ => Some (Some (bs ++ data), [])
      | None, [] => Some (None, [])
      | None, _ => None
      end
  | Finalize => option_map (fun bs => (Some [], [digest bs])) buffer
  | Reset => Some (Some [], [])
  | Destroy => Some (None, [])
  end.

Fixpoint spec_run (buffer : option (list Z)) (ops : list hasher_op) : option (option (list Z) * list hash_t) :=
  match ops with
  | [] => Some (buffer, [])
  | op :: ops =>
      match spec_step buffer op with
      | None => None
      | Some (buffer, out) => option_map (fun '(b, outs) => (b, out ++ outs)) (spec_run buffer ops)
      end
  end.
End Spec.

Section Refinement.
Context {SP : Sponge} {LP : SpongeLaws SP}.

Definition digest (bs : list Z) : hash_t := sponge_output bs HASH_SIZE.

Definition represents (h : keccak256_hasher_t) (buffer : option (list Z)) : Prop :=
  match buffer with None => True | Some bs => absorbing (state h) bs end.

Lemma hasher_init_ok h : exists h', keccak256_init h = Some h' /\ represents h' (Some []).
Proof.
  unfold keccak256_init. destruct (sponge_initialize (state h)) as (st & E & A).
  change KECCAK256_RATE with 1088. change KECCAK256_CAPACITY with 512. rewrite E. exists (Hasher st). split; [reflexivity | exact A].
Qed.

Lemma update_ok h bs data : represents h (Some bs) -> exists h', keccak256_update h data = Some h' /\ represents h' (Some (bs ++ data)).
Proof.
  intros R. unfold keccak256_update. destruct data as [|x data]; [exists h; rewrite app_nil_r; split; [reflexivity | exact R]|].
  cbn [length]. rewrite (proj2 (Z.eqb_neq _ _)) by lia. destruct (sponge_absorb (state h) bs (x :: data) R) as (st & -> & A).
  exists (Hasher st). split; [reflexivity | exact A].
Qed.

Lemma finalize_ok h bs : represents h (Some bs) ->
  exists h', keccak256_finalize h = Some (h', digest bs) /\ represents h' (Some []).
Proof.
  intros R. unfold keccak256_finalize. destruct (sponge_squeeze (state h) bs HASH_SIZE R) as (st & ->). cbn [Z.eqb].
  destruct (hasher_init_ok (Hasher st)) as (h' & E & A). change (keccak256_reset (Hasher st)) with (keccak256_init (Hasher st)). rewrite E.
  exists h'. split; [reflexivity | exact A].
Qed.

Lemma step_refines h buffer op buffer' out : represents h buffer -> spec_step digest buffer op = Some (buffer', out) ->
  exists h', hasher_step h op = Some (h', out) /\ represents h' buffer'.
Proof.
  intros R. destruct op as [|data| | |]; cbn [spec_step hasher_step].
  - intros [= <- <-]. destruct (hasher_init_ok h) as (h' & -> & R'). exists h'. auto.
  - destruct buffer as [bs|].
    + intros [= <- <-]. destruct (update_ok h bs data R) as (h' & -> & R'). exists h'. auto.
    + destruct data; [intros [= <- <-] | discriminate]. exists h. auto.
  - destruct buffer as [bs|]; [intros [= <- <-] | discriminate]. destruct (finalize_ok h bs R) as (h' & -> & R'). exists h'. auto.
  - intros [= <- <-]. destruct (hasher_init_ok h) as (h' & E & R'). change (keccak256_reset h) with (keccak256_init h). rewrite E. exists h'. auto.
  - intros [= <- <-]. eexists. split; [reflexivity | exact I].
Qed.

(** Every sequence of calls the specification allows runs without a failed
    assertion and returns the specified hashes. *)
Lemma run_refines ops : forall h buffer buffer' outs, represents h buffer -> spec_run digest buffer ops = Some (buffer', outs) ->
  exists h', hasher_run h ops = Some (h', outs) /\ represents h' buffer'.
Proof.
  induction ops as [|op ops IH]; intros h buffer buffer' outs R; cbn [spec_run hasher_run].
  - intros [= <- <-]. exists h. auto.
  - destruct (spec_step digest buffer op) as [[b1 out]|] eqn:E1; [|discriminate].
    destruct (step_refines _ _ _ _ _ R E1) as (h1 & -> & R1).
    destruct (spec_run digest b1 ops) as [[b2 outs2]|] eqn:E2; [|discriminate]. intros [= <- <-].
    destruct (IH _ _ _ _ R1 E2) as (h2 & -> & R2). exists h2. auto.
Qed.

Lemma zero_bytes_repeat n : forall i p, (i + n = length p)%nat -> zero_bytes n i p = firstn i p ++ repeat 0 n.
Proof.
  induction n as [|n IH]; intros i p Hl; cbn [zero_bytes repeat].
  - rewrite app_nil_r, firstn_all2 by lia. reflexivity.
  - rewrite IH by (rewrite length_aset; lia).
    assert (E : firstn (S i) (aset p i 0) = firstn i p ++ [0]).
    { clear IH. revert p Hl. induction i as [|i IHi]; intros [|x p] Hl; cbn in Hl |- *; try lia; [reflexivity|].
      f_equal. apply (IHi p). lia. }
    rewrite E, <- app_assoc. reflexivity.
Qed.

(** Destroying leaves nothing of the state. *)
Lemma destroy_zeroes h : length (state h) = KECCAK256_STATE_SIZE -> state (keccak256_destroy h) = repeat 0 KECCAK256_STATE_SIZE.
Proof. intros L. cbn [state keccak256_destroy]. rewrite zero_bytes_repeat by (rewrite L; reflexivity). reflexivity. Qed.

(** The one-shot function: the digest of its input, from any stack contents. *)
Lemma keccak256_digest h data : exists h', keccak256 h data = Some (h', digest data) /\ state h' = repeat 0 KECCAK256_STATE_SIZE.
Proof.
  unfold keccak256. destruct (hasher_init_ok h) as (h1 & -> & R1). destruct (update_ok h1 [] data R1) as (h2 & -> & R2).
  destruct (finalize_ok h2 _ R2) as (h3 & -> & R3).
  exists (keccak256_destroy h3). split; [reflexivity | exact (destroy_zeroes _ (absorbing_size _ _ R3))].
Qed.

Lemma digest_wf bs : wf_hash (digest bs).
Proof. split; [apply sponge_output_length | apply sponge_output_bytes]. Qed.
End Refinement.

(** * The Keccak sponge

    The sponge of the Keccak specification with Keccak-f[1600], on a storage of
    256 bytes: 200 bytes of state, the position of the next input byte in the
    block and the flag that says that squeezing has begun. It satisfies the
    laws the hasher of src/crypto/keccak256.c relies on, and is the concrete
    hash function the examples evaluate. *)

(** ** The permutation, on 25 lanes of 64 bits (lane (x, y) at 5 y + x) *)

Definition rot64 (x n : Z) : Z := Z.lor (w64 (Z.shiftl x n)) (Z.shiftr x (64 - n)).
Definition lane (a : list Z) (x y : nat) : Z := aget a (5 * (y mod 5) + x mod 5).
Definition lanes (f : nat -> nat -> Z) : list Z := map (fun i => f (i mod 5)%nat (i / 5)%nat) (seq 0 25).

Definition rho_offsets : list Z :=
  [0; 1; 62; 28; 27; 36; 44; 6; 55; 20; 3; 10; 43; 25; 39; 41; 45; 15; 21; 8; 18; 2; 61; 56; 14].

Definition round_constants : list Z :=
  [0x0000000000000001; 0x0000000000008082; 0x800000000000808A; 0x8000000080008000; 0x000000000000808B; 0x0000000080000001;
   0x8000000080008081; 0x8000000000008009; 0x000000000000008A; 0x0000000000000088; 0x0000000080008009; 0x000000008000000A;
   0x000000008000808B; 0x800000000000008B; 0x8000000000008089; 0x8000000000008003; 0x8000000000008002; 0x8000000000000080;
   0x000000000000800A; 0x800000008000000A; 0x8000000080008081; 0x8000000000008080; 0x0000000080000001; 0x8000000080008008].

Definition theta (a : list Z) : list Z :=
  let c := map (fun x => fold_left Z.lxor (map (fun y => lane a x y) (seq 0 5)) 0) (seq 0 5) in
  let d := map (fun x => Z.lxor (aget c ((x + 4) mod 5)) (rot64 (aget c ((x + 1) mod 5)) 1)) (seq 0 5) in
  lanes (fun x y => Z.lxor (lane a x y) (aget d x)).

Definition rho (a : list Z) : list Z := map (fun '(v, r) => rot64 v r) (combine a rho_offsets).
Definition pi (a : list Z) : list Z := lanes (fun x y => lane a (x + 3 * y) x).
Definition chi (a : list Z) : list Z :=
  lanes (fun x y => Z.lxor (lane a x y) (Z.land (not64 (lane a (x + 1) y)) (lane a (x + 2) y))).
Definition iota (rc : Z) (a : list Z) : list Z := aset a 0 (Z.lxor (aget a 0) rc).
Definition keccak_round (a : list Z) (rc : Z) : list Z := iota rc (chi (pi (rho (theta a)))).

Definition le_bytes8 (v : Z) : list Z := map (fun k => Z.land (Z.shiftr v (8 * Z.of_nat k)) 255) (seq 0 8).

Definition lane_bytes (a : list Z) : list Z := flat_map (fun i => le_bytes8 (aget a i)) (seq 0 25).

Definition permute (st : list Z) : list Z :=
  lane_bytes (fold_left keccak_round round_constants (map (fun i => le_limb st i) (seq 0 25))) ++ skipn 200 st.

(** ** The sponge *)

Definition rate_bytes : nat := 136.
Definition position : nat := 200.
Definition squeezing : nat := 201.
Definition fresh_storage : list Z := repeat 0 KECCAK256_STATE_SIZE.

Definition absorb_byte (st : list Z) (b : Z) : list Z :=
  let i := Z.to_nat (aget st position) in
  let st := aset st i (Z.lxor (aget st i) b) in
  if Nat.eqb (S i) rate_bytes then aset (permute st) position 0 else aset st position (Z.of_nat (S i)).

Definition pad_block (st : list Z) : list Z :=
  let i := Z.to_nat (aget st position) in
  let st := aset st i (Z.lxor (aget st i) 1) in
  permute (aset st 135 (Z.lxor (aget st 135) 128)).

Fixpoint squeeze_blocks (fuel n : nat) (st : list Z) : list Z :=
  match fuel with
  | O => firstn n st
  | S fuel => if Nat.leb n rate_bytes then firstn n st else firstn rate_bytes st ++ squeeze_blocks fuel (n - rate_bytes) (permute st)
  end.

#[export] Instance keccak_sponge : Sponge := {
  KeccakWidth1600_SpongeInitialize _ rate capacity :=
    if (rate + capacity =? 1600) && (rate =? 1088) then (0, fresh_storage) else (1, fresh_storage);
  KeccakWidth1600_SpongeAbsorb st data :=
    if aget st squeezing =? 0 then (0, fold_left absorb_byte data st) else (1, st);
  KeccakWidth1600_SpongeSqueeze st n :=
    let st := if aget st squeezing =? 0 then aset (pad_block st) squeezing 1 else st in
    (0, st, squeeze_blocks n n st) }.

(** ** The laws *)

Record sponge_ok (st : list Z) : Prop := {
  sok_length : length st = KECCAK256_STATE_SIZE;
  sok_position : 0 <= aget st position < 136;
  sok_squeezing : aget st squeezing = 0 }.

Lemma length_flat8 (f : nat -> Z) l : length (flat_map (fun i => le_bytes8 (f i)) l) = (8 * length l)%nat.
Proof. induction l; cbn [flat_map length]; [reflexivity|]. rewrite length_app, IHl. unfold le_bytes8. rewrite length_map, length_seq. lia. Qed.

Lemma length_lane_bytes a : length (lane_bytes a) = 200%nat.
Proof. unfold lane_bytes. rewrite length_flat8, length_seq. reflexivity. Qed.

Lemma length_permute st : (200 <= length st)%nat -> length (permute st) = length st.
Proof. intros L. unfold permute. rewrite length_app, length_lane_bytes, length_skipn. lia. Qed.

Lemma permute_tail st i : (200 <= i)%nat -> aget (permute st) i = aget st i.
Proof.
  intros L. unfold aget, permute. rewrite app_nth2; rewrite length_lane_bytes; [|lia].
  rewrite nth_skipn. f_equal; lia.
Qed.

Lemma le_bytes8_ok v : bytes_ok (le_bytes8 v).
Proof.
  apply Forall_forall. intros b (k & <- & _)%in_map_iff. change 255 with (Z.ones 8). rewrite Z.land_ones by lia.
  apply Z.mod_pos_bound. lia.
Qed.

(** The state part of a permuted storage consists of bytes. *)
Lemma permute_bytes st n : (n <= 200)%nat -> bytes_ok (firstn n (permute st)).
Proof.
  intros L. unfold permute. rewrite firstn_app, length_lane_bytes. replace (n - 200)%nat with O by lia.
  rewrite firstn_O, app_nil_r. apply Forall_firstn. apply Forall_flat_map, Forall_forall. intros i _. apply le_bytes8_ok.
Qed.

Lemma absorb_byte_ok st b : sponge_ok st -> sponge_ok (absorb_byte st b).
Proof.
  intros [L P Q]. unfold absorb_byte, KECCAK256_STATE_SIZE in *. set (i := Z.to_nat (aget st position)).
  assert (Hi : (i < 136)%nat) by lia. set (st1 := aset st i (Z.lxor (aget st i) b)).
  assert (L1 : length st1 = 256%nat) by (unfold st1; rewrite length_aset; exact L).
  assert (Q1 : aget st1 squeezing = 0) by (unfold st1, squeezing in *; rewrite aget_aset_ne by lia; exact Q).
  destruct (Nat.eqb_spec (S i) rate_bytes) as [E|N]; unfold rate_bytes, position, squeezing in *.
  - split; unfold position, squeezing.
    + rewrite length_aset, length_permute by lia. exact L1.
    + rewrite aget_aset_eq by (rewrite length_permute; lia). lia.
    + rewrite aget_aset_ne, permute_tail by lia. exact Q1.
  - split; unfold position, squeezing.
    + rewrite length_aset. exact L1.
    + rewrite aget_aset_eq by lia. lia.
    + rewrite aget_aset_ne by lia. exact Q1.
Qed.

Lemma absorb_ok data : forall st, sponge_ok st -> sponge_ok (fold_left absorb_byte data st).
Proof. induction data; intros st H; cbn [fold_left]; auto using absorb_byte_ok. Qed.

Lemma fresh_ok : sponge_ok fresh_storage.
Proof. split; [reflexivity | split; reflexivity | reflexivity]. Qed.

Lemma squeeze_length fuel : forall n st, (n <= fuel)%nat -> (200 <= length st)%nat -> length (squeeze_blocks fuel n st) = n.
Proof.
  induction fuel as [|fuel IH]; intros n st Hn L; cbn [squeeze_blocks].
  - rewrite length_firstn. lia.
  - unfold rate_bytes. destruct (Nat.leb_spec n 136); [rewrite length_firstn; lia|].
    rewrite length_app, length_firstn, IH by (try rewrite length_permute; lia). lia.
Qed.

Definition state_bytes (st : list Z) : Prop := bytes_ok (firstn 200 st).

Lemma squeeze_bytes fuel : forall n st, (n <= fuel)%nat -> state_bytes st -> bytes_ok (squeeze_blocks fuel n st).
Proof.
  assert (F : forall n st, (n <= 200)%nat -> state_bytes st -> bytes_ok (firstn n st)).
  { intros n st Hn H. replace (firstn n st) with (firstn n (firstn 200 st)) by (rewrite firstn_firstn; f_equal; lia). apply Forall_firstn, H. }
  induction fuel as [|fuel IH]; intros n st Hn H; cbn [squeeze_blocks].
  - apply F; [lia | exact H].
  - unfold rate_bytes. destruct (Nat.leb_spec n 136); [apply F; [lia | exact H]|].
    apply Forall_app; split; [apply F; [lia | exact H] | apply IH; [lia|]]. apply permute_bytes. lia.
Qed.

(** What the padded state of an input is. *)
Definition padded (bs : list Z) : list Z := aset (pad_block (fold_left absorb_byte bs fresh_storage)) squeezing 1.

Lemma padded_length bs : length (padded bs) = 256%nat.
Proof.
  unfold padded, pad_block. pose proof (sok_length _ (absorb_ok bs _ fresh_ok)) as L. unfold KECCAK256_STATE_SIZE in L.
  rewrite length_aset, length_permute; rewrite !length_aset; [exact L | rewrite L; lia].
Qed.

Lemma firstn_aset_ge n i (l : list Z) v : (n <= i)%nat -> firstn n (aset l i v) = firstn n l.
Proof. revert n i; induction l as [|x l IH]; intros [|n] [|i] H; cbn; try lia; try reflexivity. f_equal. apply IH. lia. Qed.

Definition absorbs (st bs : list Z) : Prop := st = fold_left absorb_byte bs fresh_storage.

Lemma law_size st bs : absorbs st bs -> length st = KECCAK256_STATE_SIZE.
Proof. intros ->. apply sok_length, absorb_ok, fresh_ok. Qed.

Lemma law_initialize st : exists st', KeccakWidth1600_SpongeInitialize st 1088 512 = (0, st') /\ absorbs st' [].
Proof. exists fresh_storage. split; reflexivity. Qed.

Lemma law_absorb st bs data : absorbs st bs -> exists st', KeccakWidth1600_SpongeAbsorb st data = (0, st') /\ absorbs st' (bs ++ data).
Proof.
  intros ->. exists (fold_left absorb_byte data (fold_left absorb_byte bs fresh_storage)). cbn [KeccakWidth1600_SpongeAbsorb keccak_sponge].
  rewrite (sok_squeezing _ (absorb_ok bs _ fresh_ok)). split; [reflexivity | symmetry; apply fold_left_app].
Qed.

Lemma law_squeeze st bs n : absorbs st bs -> exists st', KeccakWidth1600_SpongeSqueeze st n = (0, st', squeeze_blocks n n (padded bs)).
Proof.
  intros ->. exists (padded bs). cbn [KeccakWidth1600_SpongeSqueeze keccak_sponge].
  rewrite (sok_squeezing _ (absorb_ok bs _ fresh_ok)). reflexivity.
Qed.

Lemma law_length bs n : length (squeeze_blocks n n (padded bs)) = n.
Proof. apply squeeze_length; [lia|]. rewrite padded_length. lia. Qed.

Lemma law_bytes bs n : bytes_ok (squeeze_blocks n n (padded bs)).
Proof.
  apply squeeze_bytes; [lia|]. unfold state_bytes, padded, squeezing. rewrite firstn_aset_ge by lia.
  unfold pad_block. apply permute_bytes. lia.
Qed.

#[export] Instance keccak_sponge_laws : SpongeLaws keccak_sponge := {
  absorbing := absorbs;
  sponge_output bs n := squeeze_blocks n n (padded bs);
  absorbing_size := law_size;
  sponge_initialize := law_initialize;
  sponge_absorb := law_absorb;
  sponge_squeeze := law_squeeze;
  sponge_output_length := law_length;
  sponge_output_bytes := law_bytes }.

(** Keccak-256 as the rest of the program sees it. *)
Definition keccak (bs : list Z) : hash_t := digest bs.

Lemma keccak_wf bs : wf_hash (keccak bs).
Proof. apply digest_wf. Qed.
