(* ===== verification/ArenaHeap.v ===== *)
(** The arena allocator at the level of pointers: include/div0/mem/arena.h and
    the bridge for STC containers of include/div0/mem/stc_allocator.h.

    Blocks live in a heap of the C library's allocator and are linked by their
    [next] pointers; the arena is its three pointers. An operation is [None]
    when it follows a null or freed pointer, frees a block twice, or reads or
    writes outside a block's data. [malloc] and the contents of fresh memory
    are parameters. *)
From Stdlib Require Import ZArith Lia.
From S2P Require Import Prelude Arena.
From stdpp Require Import base gmap list numbers option.
#[local] Open Scope Z_scope.

(** * The heap *)

(** A block: its header and its [data] array of [data_size] bytes. *)
Record block_t := Block { next : Z; offset : Z; data_size : Z; data : Z -> Z }.

Abbreviation heap := (gmap Z block_t).

(** The arena's pointers; 0 is null. *)
Record div0_arena_t := Pointers { head : Z; current : Z; large_blocks : Z }.

(** A pointer into the data of a block. *)
Abbreviation ptr := (Z * Z)%type.

(** The header is two words: [data] starts 16 bytes into the block. *)
Definition data_start (block : Z) : Z := block + header_size.

Definition set_offset (v : Z) (b : block_t) : block_t := Block (next b) v (data_size b) (data b).
Definition set_next (v : Z) (b : block_t) : block_t := Block v (offset b) (data_size b) (data b).

(** Assignments through a pointer, and [free]. *)
Definition store (h : heap) (p : Z) (f : block_t -> block_t) : option heap :=
  b ← h !! p; Some (<[p := f b]> h).

Definition free (h : heap) (p : Z) : option heap :=
  b ← h !! p; Some (delete p h).

Definition in_data (b : block_t) (off n : Z) : bool := (0 <=? off) && (off + n <=? data_size b).

Definition load_bytes (h : heap) (p : ptr) (n : Z) : option (list Z) :=
  b ← h !! p.1;
  if in_data b p.2 n then Some ((fun i => data b (p.2 + Z.of_nat i)) <$> seq 0 (Z.to_nat n)) else None.

Definition put_bytes (off : Z) (bs : list Z) (d : Z -> Z) (i : Z) : Z :=
  if (off <=? i) && (i <? off + Z.of_nat (length bs)) then nth (Z.to_nat (i - off)) bs 0 else d i.

Definition store_bytes (h : heap) (p : ptr) (bs : list Z) : option heap :=
  b ← h !! p.1;
  if in_data b p.2 (Z.of_nat (length bs))
  then Some (<[p.1 := Block (next b) (offset b) (data_size b) (put_bytes p.2 bs (data b))]> h)
  else None.

(** [memcpy] has no meaning when the regions overlap. *)
Definition memcpy (h : heap) (dst src : ptr) (n : Z) : option heap :=
  if (dst.1 =? src.1) && (dst.2 <? src.2 + n) && (src.2 <? dst.2 + n) then None
  else bs ← load_bytes h src n; store_bytes h dst bs.

Definition memset (h : heap) (dst : ptr) (v n : Z) : option heap := store_bytes h dst (replicate (Z.to_nat n) v).

(** * The operations *)

Section Heap.
(** The address of a block of the given size, if there is memory; the block
    as it is found there. *)
Context (malloc : heap -> Z -> option Z) (garbage : Z -> block_t).

Definition fresh (p size : Z) : block_t := Block (next (garbage p)) (offset (garbage p)) size (data (garbage p)).

Definition SIZEOF_BLOCK : Z := header_size + DIV0_ARENA_BLOCK_SIZE.

Definition div0_arena_init (h : heap) : option (heap * option div0_arena_t) :=
  match malloc h SIZEOF_BLOCK with
  | None => Some (h, None)
  | Some block =>
      h ← store (<[block := fresh block DIV0_ARENA_BLOCK_SIZE]> h) block (set_next 0);
      h ← store h block (set_offset 0);
      Some (h, Some (Pointers block block 0))
  end.

(** Where an allocation of the given alignment starts at or above an address. *)
Definition aligned_from (block addr align_mask : Z) : Z := w64 (align_up addr align_mask - data_start block).

Definition div0_arena_alloc_aligned (h : heap) (arena : div0_arena_t) (size alignment : Z) :
  option (heap * div0_arena_t * option ptr) :=
  if (size =? 0) || power_of_two_check alignment then Some (h, arena, None)
  else
    let align_mask := alignment - 1 in
    if size >? SIZE_MAX - align_mask then Some (h, arena, None)
    else
      let aligned_size := align_up size align_mask in
      if aligned_size >? DIV0_ARENA_BLOCK_SIZE then Some (h, arena, None)
      else
        let block := current arena in
        b ← h !! block;
        let aligned_offset := aligned_from block (data_start block + offset b) align_mask in
        if w64 (aligned_offset + aligned_size) <=? DIV0_ARENA_BLOCK_SIZE then
          h ← store h block (set_offset (w64 (aligned_offset + aligned_size)));
          Some (h, arena, Some (block, aligned_offset))
        else if negb (next b =? 0) then
          let arena := Pointers (head arena) (next b) (large_blocks arena) in
          let new_aligned_offset := aligned_from (current arena) (data_start (current arena)) align_mask in
          h ← store h (current arena) (set_offset (w64 (new_aligned_offset + aligned_size)));
          Some (h, arena, Some (current arena, new_aligned_offset))
        else
          match malloc h SIZEOF_BLOCK with
          | None => Some (h, arena, None)
          | Some new_block =>
              h ← store (<[new_block := fresh new_block DIV0_ARENA_BLOCK_SIZE]> h) new_block (set_next 0);
              let new_aligned_offset := aligned_from new_block (data_start new_block) align_mask in
              h ← store h new_block (set_offset (w64 (new_aligned_offset + aligned_size)));
              h ← store h block (set_next new_block);
              Some (h, Pointers (head arena) new_block (large_blocks arena), Some (new_block, new_aligned_offset))
          end.

Definition div0_arena_alloc_large (h : heap) (arena : div0_arena_t) (size alignment : Z) :
  option (heap * div0_arena_t * option ptr) :=
  match large_block_data_size size alignment with
  | None => Some (h, arena, None)
  | Some block_data_size =>
      let total_size := header_size + block_data_size in
      match malloc h total_size with
      | None => Some (h, arena, None)
      | Some large_block =>
          let aligned_offset := aligned_from large_block (data_start large_block) (alignment - 1) in
          h ← store (<[large_block := fresh large_block block_data_size]> h) large_block (set_offset block_data_size);
          h ← store h large_block (set_next (large_blocks arena));
          Some (h, Pointers (head arena) (current arena) large_block, Some (large_block, aligned_offset))
      end
  end.

Definition div0_arena_alloc (h : heap) (arena : div0_arena_t) (size : Z) : option (heap * div0_arena_t * option ptr) :=
  div0_arena_alloc_aligned h arena size DIV0_ARENA_ALIGNMENT.

Definition div0_arena_realloc (h : heap) (arena : div0_arena_t) (p : option ptr) (old_size new_size : Z) :
  option (heap * div0_arena_t * option ptr) :=
  '(h, arena, new_ptr) ← div0_arena_alloc h arena new_size;
  match new_ptr with
  | None => Some (h, arena, None)
  | Some new_ptr =>
      match p with
      | Some p =>
          if old_size >? 0 then
            let copy_size := if old_size <? new_size then old_size else new_size in
            h ← memcpy h new_ptr p copy_size;
            Some (h, arena, Some new_ptr)
          else Some (h, arena, Some new_ptr)
      | None => Some (h, arena, Some new_ptr)
      end
  end.

Definition div0_arena_free (h : heap) (arena : option div0_arena_t) (p : option ptr) (size : Z) : heap := h.

(** The loops over a chain. A chain visits a block at most once, so the number
    of blocks in the heap bounds them ([chain_bound]). *)
Fixpoint free_loop (fuel : nat) (h : heap) (head : Z) : option heap :=
  if head =? 0 then Some h
  else
    match fuel with
    | O => None
    | S fuel => b ← h !! head; h ← free h head; free_loop fuel h (next b)
    end.

Definition free_block_chain (h : heap) (head : Z) : option heap := free_loop (size h) h head.

Fixpoint reset_loop (fuel : nat) (h : heap) (block : Z) : option heap :=
  if block =? 0 then Some h
  else
    match fuel with
    | O => None
    | S fuel => b ← h !! block; h ← store h block (set_offset 0); reset_loop fuel h (next b)
    end.

Definition div0_arena_reset (h : heap) (arena : div0_arena_t) : option (heap * div0_arena_t) :=
  h ← reset_loop (size h) h (head arena);
  h ← free_block_chain h (large_blocks arena);
  Some (h, Pointers (head arena) (head arena) 0).

Definition div0_arena_destroy (h : heap) (arena : div0_arena_t) : option (heap * div0_arena_t) :=
  h ← free_block_chain h (head arena);
  h ← free_block_chain h (large_blocks arena);
  Some (h, Pointers 0 0 0).

(** ** The end of a trie

    The nodes of a trie are in an arena (src/trie/mpt_memory.c), the only thing
    its destructor acts on. The backend of a trie is given by that arena and is
    null afterwards. *)

Definition memory_destroy (h : heap) (arena : div0_arena_t) : option (heap * div0_arena_t) := div0_arena_reset h arena.

(** A null backend is left alone. *)
Definition mpt_destroy (h : heap) (backend : option div0_arena_t) : option (heap * option div0_arena_t * option div0_arena_t) :=
  match backend with
  | None => Some (h, None, None)
  | Some arena => '(h, arena) ← memory_destroy h arena; Some (h, Some arena, None)
  end.

(** ** The bridge for STC containers *)

Definition div0_arena_calloc (h : heap) (arena : div0_arena_t) (n sz : Z) : option (heap * div0_arena_t * option ptr) :=
  let total := w64 (n * sz) in
  if negb (total =? n * sz) then Some (h, arena, None)
  else
    '(h, arena, p) ← div0_arena_alloc h arena total;
    match p with
    | Some p => h ← memset h p 0 total; Some (h, arena, Some p)
    | None => Some (h, arena, None)
    end.

(** The macros work on the thread's arena, [div0_stc_arena], null at first. *)
Definition div0_stc_arena_initial : option div0_arena_t := None.

Definition c_malloc (h : heap) (div0_stc_arena : option div0_arena_t) (sz : Z) : option (heap * div0_arena_t * option ptr) :=
  arena ← div0_stc_arena; div0_arena_alloc h arena (w64 sz).
Definition c_calloc (h : heap) (div0_stc_arena : option div0_arena_t) (n sz : Z) : option (heap * div0_arena_t * option ptr) :=
  arena ← div0_stc_arena; div0_arena_calloc h arena (w64 n) (w64 sz).
Definition c_realloc (h : heap) (div0_stc_arena : option div0_arena_t) (p : option ptr) (old_sz new_sz : Z) :
  option (heap * div0_arena_t * option ptr) :=
  arena ← div0_stc_arena; div0_arena_realloc h arena p (w64 old_sz) (w64 new_sz).
Definition c_free (h : heap) (div0_stc_arena : option div0_arena_t) (p : option ptr) (sz : Z) : heap :=
  div0_arena_free h div0_stc_arena p (w64 sz).
End Heap.
