(* ===== verification/ArenaSafe.v ===== *)
(** Correctness of the pointer-level arena of [ArenaHeap]: the blocks form two
    chains, allocations lie inside them and never overlap, and the loops visit
    every block once. *)
From Stdlib Require Import ZArith Lia.
From stdpp Require Import base gmap list numbers option.
From S2P Require Import Prelude Arena ArenaHeap.
#[local] Open Scope Z_scope.

(** * Chains *)

(** The blocks of [l], in order, are what following [next] from [p] visits. *)
Fixpoint chain (h : heap) (p : Z) (l : list Z) : Prop :=
  match l with
  | [] => p = 0
  | q :: l => p = q /\ q <> 0 /\ exists b, h !! q = Some b /\ chain h (next b) l
  end.

Lemma chain_lookup h p l q : chain h p l -> q ∈ l -> exists b, h !! q = Some b /\ q <> 0.
Proof.
  revert p. induction l as [|x l IH]; intros p C Hq; [by apply elem_of_nil in Hq|].
  destruct C as (-> & N & b & Hb & C). apply elem_of_cons in Hq as [->|Hq]; eauto.
Qed.

(** A chain depends only on the [next] fields of its blocks. *)
Lemma chain_frame h h' p l : chain h p l -> (forall q, q ∈ l -> next <$> h' !! q = next <$> h !! q) -> chain h' p l.
Proof.
  revert p. induction l as [|x l IH]; intros p C F; [exact C|].
  destruct C as (-> & N & b & Hb & C). split; [done|]. split; [done|].
  pose proof (F x ltac:(set_solver)) as Fx. rewrite Hb in Fx. cbn in Fx. apply fmap_Some in Fx as (b' & Hb' & E).
  exists b'. split; [exact Hb'|]. rewrite <- E. apply IH; [exact C|]. intros q Hq. apply F. set_solver.
Qed.

Lemma chain_insert_ne h p l q b : chain h p l -> q ∉ l -> chain (<[q := b]> h) p l.
Proof. intros C N. apply (chain_frame h); [exact C|]. intros x Hx. rewrite lookup_insert_ne by set_solver. done. Qed.

Lemma chain_insert_same h p l q b b' : chain h p l -> h !! q = Some b -> next b' = next b -> chain (<[q := b']> h) p l.
Proof.
  intros C Hq E. apply (chain_frame h); [exact C|]. intros x _. destruct (decide (x = q)) as [->|N].
  - rewrite lookup_insert_eq, Hq. cbn. by rewrite E.
  - by rewrite lookup_insert_ne by done.
Qed.

(** The block after position [k]. *)
Lemma chain_next h p l k q : chain h p l -> l !! k = Some q ->
  exists b, h !! q = Some b /\ next b = default 0 (l !! S k).
Proof.
  revert p k. induction l as [|x l IH]; intros p k C L; [done|]. destruct C as (-> & N & b & Hb & C).
  destruct k as [|k]; cbn in L; simplify_eq.
  - exists b. split; [exact Hb|]. destruct l as [|y l]; cbn; [exact C | by destruct C].
  - apply (IH _ _ C L).
Qed.

Lemma chain_nonzero h p l k q : chain h p l -> l !! k = Some q -> q <> 0.
Proof. intros C L. destruct (chain_lookup h p l q C) as (b & _ & N); [by eapply list_elem_of_lookup_2 | exact N]. Qed.

(** Linking a new block to the last one. *)
Lemma chain_snoc h p l k c b n : chain h p l -> NoDup l -> l !! k = Some c -> l !! S k = None -> h !! c = Some b ->
  n ∉ l -> n <> 0 -> (exists bn, h !! n = Some bn /\ next bn = 0) -> chain (<[c := set_next n b]> h) p (l ++ [n]).
Proof.
  intros C ND Lk Ln Hc Nn Nz Hn. revert p k C Lk Ln. induction l as [|x l IH]; intros p k C Lk Ln; [done|].
  destruct C as (-> & N & bx & Hx & C). apply list.NoDup_cons in ND as [Nx ND]. cbn [app chain]. split; [done|]. split; [done|].
  destruct k as [|k]; cbn in Lk, Ln; simplify_eq.
  - destruct l as [|y l]; [|done]. exists (set_next n b). split; [apply lookup_insert_eq|]. cbn. split; [done|]. split; [done|].
    destruct Hn as (bn & Hbn & E). exists bn. rewrite lookup_insert_ne by set_solver. done.
  - assert (c <> x) by (intros ->; apply Nx; by eapply list_elem_of_lookup_2).
    exists bx. rewrite lookup_insert_ne by done. split; [exact Hx|]. apply (IH ND ltac:(set_solver) (next bx) k C Lk Ln).
Qed.

(** A chain without repetition is no longer than the heap. *)
Lemma chain_bound h p l : chain h p l -> NoDup l -> (length l <= size h)%nat.
Proof.
  intros C ND. rewrite <- size_dom, <- (size_list_to_set (C := gset Z) l ND). apply subseteq_size.
  intros q Hq%elem_of_list_to_set. destruct (chain_lookup h p l q C Hq) as (b & Hb & _). apply elem_of_dom. eauto.
Qed.

(** * The loops *)

Lemma free_loop_spec fuel : forall h p l, chain h p l -> NoDup l -> (length l <= fuel)%nat ->
  exists h', free_loop fuel h p = Some h' /\ (forall q, h' !! q = if decide (q ∈ l) then None else h !! q).
Proof.
  induction fuel as [|fuel IH]; intros h p l C ND L.
  - destruct l; [|cbn in L; lia]. cbn in C. subst p. exists h. split; [reflexivity|]. intros q. by rewrite decide_False by set_solver.
  - destruct l as [|x l]; cbn [chain] in C.
    + subst p. exists h. split; [reflexivity|]. intros q. by rewrite decide_False by set_solver.
    + destruct C as (-> & N & b & Hb & C). apply list.NoDup_cons in ND as [Nx ND].
      destruct (IH (delete x h) (next b) l) as (h' & E & Sp); [|exact ND|cbn in L; lia|].
      { apply (chain_frame h); [exact C|]. intros q Hq. by rewrite lookup_delete_ne by set_solver. }
      exists h'. split.
      * cbn [free_loop]. rewrite (proj2 (Z.eqb_neq _ _)) by done. unfold free. rewrite Hb. cbn. exact E.
      * intros q. rewrite Sp. destruct (decide (q ∈ l)); [by rewrite decide_True by set_solver|].
        destruct (decide (q = x)) as [->|]; [rewrite decide_True by set_solver; apply lookup_delete_eq|].
        rewrite decide_False by set_solver. by apply lookup_delete_ne.
Qed.

Lemma reset_loop_spec fuel : forall h p l, chain h p l -> NoDup l -> (length l <= fuel)%nat ->
  exists h', reset_loop fuel h p = Some h' /\
    (forall q, h' !! q = if decide (q ∈ l) then set_offset 0 <$> h !! q else h !! q).
Proof.
  induction fuel as [|fuel IH]; intros h p l C ND L.
  - destruct l; [|cbn in L; lia]. cbn in C. subst p. exists h. split; [reflexivity|]. intros q. by rewrite decide_False by set_solver.
  - destruct l as [|x l]; cbn [chain] in C.
    + subst p. exists h. split; [reflexivity|]. intros q. by rewrite decide_False by set_solver.
    + destruct C as (-> & N & b & Hb & C). apply list.NoDup_cons in ND as [Nx ND].
      destruct (IH (<[x := set_offset 0 b]> h) (next b) l) as (h' & E & Sp); [|exact ND|cbn in L; lia|].
      { by apply chain_insert_ne. }
      exists h'. split.
      * cbn [reset_loop]. rewrite (proj2 (Z.eqb_neq _ _)) by done. unfold store. rewrite Hb. cbn. exact E.
      * intros q. rewrite Sp. destruct (decide (q = x)) as [->|].
        -- rewrite decide_False, decide_True by set_solver. rewrite lookup_insert_eq, Hb. done.
        -- rewrite lookup_insert_ne by done. destruct (decide (q ∈ l)); [rewrite decide_True by set_solver | rewrite decide_False by set_solver]; done.
Qed.

(** * Alignment *)

(** The requests that [div0_arena_alloc_aligned] serves within its blocks: an
    alignment of up to 16 bytes, which [malloc] guarantees, or a block with
    room for the padding. *)
Record request_ok (size alignment : Z) : Prop := {
  req_power : exists k, 0 <= k <= 16 /\ alignment = 2 ^ k;
  req_size : 0 <= size <= SIZE_MAX;
  req_room : alignment <= 16 \/ size + 2 * alignment <= DIV0_ARENA_BLOCK_SIZE }.

Lemma request_8 size : 0 <= size <= SIZE_MAX -> request_ok size DIV0_ARENA_ALIGNMENT.
Proof. intros H. split; [exists 3; split; [lia | reflexivity] | exact H | left; cbv; discriminate]. Qed.

(** Where [malloc] puts blocks: aligned for every type, in the lower half of
    the address space. *)
Definition addr_ok (p n : Z) : Prop := 0 < p /\ p mod 16 = 0 /\ p + header_size + n < 2 ^ 63.

Section Alignment.
Context (alignment : Z) (HP : exists k, 0 <= k <= 16 /\ alignment = 2 ^ k).

Let no_blocks : forall i : nat, 0 <= (fun _ : nat => 0) i < 2 ^ 64 - 2 ^ 18 /\ (fun _ : nat => 0) i mod alignment = 0.
Proof. intros i. split; [lia | apply Z.mod_0_l]. destruct HP as (k & Hk & ->). apply Z.pow_nonzero; lia. Qed.

Lemma align_range : 1 <= alignment <= 2 ^ 16.
Proof using HP. exact (alignment_range (fun _ => 0) alignment HP no_blocks). Qed.

Lemma align_check : power_of_two_check alignment = false.
Proof using HP. exact (power_check (fun _ => 0) alignment HP no_blocks). Qed.

Lemma align_spec x : 0 <= x < 2 ^ 64 - 2 ^ 16 ->
  exists q, align_up x (alignment - 1) = q * alignment /\ x <= q * alignment < x + alignment.
Proof using HP. exact (align_up_spec (fun _ => 0) alignment HP no_blocks x). Qed.

Lemma align_size size : 0 <= size -> size <= SIZE_MAX - (alignment - 1) -> align_up size (alignment - 1) <= 2 ^ 63 - 1 ->
  exists q, align_up size (alignment - 1) = q * alignment /\ size <= q * alignment < size + alignment.
Proof using HP.
  intros H0 H1 H2. destruct (Z.lt_ge_cases size (2 ^ 64 - 2 ^ 16)) as [L|L]; [apply align_spec; lia|].
  pose proof (align_up_big (fun _ => 0) alignment HP no_blocks size ltac:(lia)). lia.
Qed.

(** The first aligned position at or above an address inside a block. *)
Lemma aligned_from_spec p addr : data_start p <= addr < 2 ^ 63 -> 0 <= p ->
  exists off, aligned_from p addr (alignment - 1) = off /\ addr - data_start p <= off < addr - data_start p + alignment /\
    (data_start p + off) mod alignment = 0.
Proof using HP.
  intros H Hp. pose proof align_range as R. unfold data_start, header_size in *.
  destruct (align_spec addr) as (q & E & Hq); [lia|]. unfold aligned_from, data_start, header_size. rewrite E. rewrite w64_small by (unfold u64; lia).
  eexists. split; [reflexivity|]. split; [lia|]. replace (p + 16 + (q * alignment - (p + 16))) with (q * alignment) by lia. apply Z_mod_mult.
Qed.

(** In a fresh block the padding is at most what 16-byte alignment leaves. *)
Lemma aligned_fresh p n : addr_ok p n -> 0 <= n ->
  exists off, aligned_from p (data_start p) (alignment - 1) = off /\ 0 <= off < alignment /\
    (alignment <= 16 -> off = 0) /\ (data_start p + off) mod alignment = 0.
Proof using HP.
  intros (P1 & P2 & P3) Hn. pose proof align_range as R.
  destruct (aligned_from_spec p (data_start p)) as (off & E & B & M); [unfold data_start; lia | lia |].
  exists off. split; [exact E|]. split; [lia|]. split; [|exact M]. intros Small.
  assert (D : (data_start p) mod alignment = 0).
  { destruct HP as (k & Hk & ->). assert (k <= 4) by (apply (Z.pow_le_mono_r_iff 2); lia).
    apply Z.mod_divide; [apply Z.pow_nonzero; lia|]. apply Z.divide_trans with 16.
    - exists (2 ^ (4 - k)). rewrite <- Z.pow_add_r by lia. replace (4 - k + k) with 4 by lia. reflexivity.
    - apply Z.mod_divide; [lia|]. unfold data_start, header_size. rewrite <- Z.add_mod_idemp_l, P2 by lia. reflexivity. }
  assert (off mod alignment = 0) as O; [|rewrite Z.mod_small in O by lia; exact O].
  rewrite <- Z.add_mod_idemp_l, D in M by lia. exact M.
Qed.
End Alignment.

(** * The representation *)

(** [bl] is the chain of regular blocks, [k] the position of the current one
    in it, [lg] the chain of large blocks. *)
Record arena_rep (h : heap) (a : div0_arena_t) (bl lg : list Z) (k : nat) : Prop := {
  rep_chain : chain h (head a) bl;
  rep_large : chain h (large_blocks a) lg;
  rep_nodup : NoDup (bl ++ lg);
  rep_current : bl !! k = Some (current a);
  rep_block p : p ∈ bl -> exists b, h !! p = Some b /\ data_size b = DIV0_ARENA_BLOCK_SIZE /\
    0 <= offset b <= DIV0_ARENA_BLOCK_SIZE /\ addr_ok p DIV0_ARENA_BLOCK_SIZE }.

(** What changes when the arena works: nothing outside its blocks, and no data
    at all. *)
Definition keeps_data (h h' : heap) : Prop :=
  forall q b, h !! q = Some b -> exists b', h' !! q = Some b' /\ data b' = data b /\ data_size b' = data_size b.

Definition keeps_others (own : list Z) (h h' : heap) : Prop := forall q b, q ∉ own -> h !! q = Some b -> h' !! q = Some b.

Lemma keeps_data_refl h : keeps_data h h.
Proof. intros q b Hq. eauto. Qed.

Lemma keeps_data_trans h1 h2 h3 : keeps_data h1 h2 -> keeps_data h2 h3 -> keeps_data h1 h3.
Proof.
  intros A B q b Hq. destruct (A q b Hq) as (b1 & H1 & D1 & S1). destruct (B q b1 H1) as (b2 & H2 & D2 & S2).
  exists b2. split; [done|]. split; congruence.
Qed.

Lemma keeps_data_insert h p b b' : h !! p = Some b -> data b' = data b -> data_size b' = data_size b -> keeps_data h (<[p := b']> h).
Proof.
  intros Hp D S q bq Hq. destruct (decide (p = q)) as [<-|N]; simplify_map_eq; eauto.
Qed.

Lemma keeps_data_fresh h p b : h !! p = None -> keeps_data h (<[p := b]> h).
Proof. intros Hp q bq Hq. assert (p <> q) by congruence. simplify_map_eq. eauto. Qed.

(** ** Live allocations: block, offset, size *)

Abbreviation region := (Z * Z * Z)%type.

Definition apart (r s : region) : Prop :=
  let '(p, off, n) := r in let '(p', off', n') := s in p <> p' \/ off + n <= off' \/ off' + n' <= off.

Definition region_ok (h : heap) (bl lg : list Z) (k : nat) (r : region) : Prop :=
  let '(p, off, n) := r in
  0 <= off /\ 0 < n /\ exists b, h !! p = Some b /\
    ((exists j, bl !! j = Some p /\ (j <= k)%nat /\ off + n <= offset b) \/ (p ∈ lg /\ off + n <= data_size b)).

Record arena_inv (h : heap) (a : div0_arena_t) (bl lg : list Z) (k : nat) (live : list region) : Prop := {
  inv_rep : arena_rep h a bl lg k;
  inv_live : Forall (region_ok h bl lg k) live;
  inv_apart : ForallOrdPairs apart live }.

(** A live region stays one when blocks keep their data and do not shrink. *)
Lemma region_mono h h' bl bl' lg lg' k k' r : region_ok h bl lg k r -> bl `prefix_of` bl' -> lg ⊆ lg' -> (k <= k')%nat ->
  (forall q b, h !! q = Some b -> exists b', h' !! q = Some b' /\ data_size b' = data_size b /\
     (forall j, bl !! j = Some q -> (j <= k)%nat -> offset b <= offset b')) -> region_ok h' bl' lg' k' r.
Proof.
  destruct r as [[p off] n]. intros (O & N & b & Hb & D) [ext ->] Lg Hk M. split; [done|]. split; [done|].
  destruct (M p b Hb) as (b' & Hb' & S & Off). exists b'. split; [done|]. destruct D as [(j & Hj & Jk & E)|[L E]].
  - left. exists j. split; [by apply lookup_app_l_Some|]. split; [lia|]. specialize (Off j Hj Jk). lia.
  - right. split; [by apply Lg | lia].
Qed.

(** The current block comes after every block that holds allocations, so a
    region above its offset is apart from all of them. *)
Lemma region_apart h bl lg k p b off n r : NoDup (bl ++ lg) -> region_ok h bl lg k r -> h !! p = Some b ->
  ((exists j, bl !! j = Some p /\ ((k < j)%nat \/ (j = k /\ offset b <= off))) \/ p ∉ bl ++ lg) -> apart (p, off, n) r.
Proof.
  destruct r as [[q off'] n']. intros ND (O & N & bq & Hq & D) Hp P. cbn. destruct (decide (p = q)) as [<-|]; [|by left].
  right. right. simplify_eq. apply list.NoDup_app in ND as (NB & Sep & _).
  destruct P as [(j & Hj & Pos)|Out].
  - destruct D as [(j' & Hj' & Jk & E)|[L _]].
    + assert (j = j') by (eapply list.NoDup_lookup; eauto). lia.
    + exfalso. apply (Sep p); [by eapply list_elem_of_lookup_2 | exact L].
  - exfalso. apply Out, elem_of_app. destruct D as [(j' & Hj' & _)|[L _]]; [left; by eapply list_elem_of_lookup_2 | by right].
Qed.

(** ** Moving the current block's offset, or going to the next block *)
Lemma inv_bump h a bl lg k live k' p b v off n :
  arena_inv h a bl lg k live -> bl !! k' = Some p -> h !! p = Some b ->
  (k' = k /\ offset b <= off \/ k' = S k) -> 0 <= off -> 0 < n -> off + n <= v <= DIV0_ARENA_BLOCK_SIZE ->
  arena_inv (<[p := set_offset v b]> h) (Pointers (head a) p (large_blocks a)) bl lg k' ((p, off, n) :: live).
Proof.
  intros [[C L ND Cu B] LV AP] Hp Hb Pos O N V. assert (Kk : (k <= k')%nat) by lia.
  split.
  - split; cbn [head current large_blocks].
    + by eapply chain_insert_same.
    + by eapply chain_insert_same.
    + exact ND.
    + exact Hp.
    + intros q Hq. destruct (B q Hq) as (bq & Hbq & Sq & Oq & Aq). destruct (decide (p = q)) as [<-|Ne]; simplify_map_eq.
      * exists (set_offset v b). cbn. repeat split; try done; try lia; apply Aq.
      * eauto 10.
  - constructor.
    + split; [done|]. split; [done|]. exists (set_offset v b). split; [apply lookup_insert_eq|]. left. exists k'. split; [exact Hp|]. cbn. lia.
    + eapply Forall_impl; [|exact LV]. intros r Hr. eapply region_mono; [exact Hr | done | done | exact Kk|].
      intros q bq Hbq. destruct (decide (p = q)) as [<-|Ne]; simplify_map_eq; [|exists bq; auto using Z.le_refl].
      exists (set_offset v b). split; [done|]. split; [done|]. intros j Hj Jk. cbn. destruct Pos as [[-> Po]| ->]; [lia|].
      apply list.NoDup_app in ND as (NB & _). assert (j = S k) by (eapply list.NoDup_lookup; eauto). lia.
  - constructor; [|exact AP]. eapply Forall_impl; [|exact LV]. intros r Hr. eapply region_apart; [exact ND | exact Hr | exact Hb|].
    left. exists k'. split; [exact Hp|]. lia.
Qed.

(** ** Adding a block to the chain *)
Lemma inv_append h a bl lg k live p b nb off n :
  arena_inv h a bl lg k live -> bl !! S k = None -> h !! current a = Some b -> h !! p = None ->
  addr_ok p DIV0_ARENA_BLOCK_SIZE -> next nb = 0 -> data_size nb = DIV0_ARENA_BLOCK_SIZE ->
  0 <= off -> 0 < n -> off + n <= offset nb <= DIV0_ARENA_BLOCK_SIZE ->
  arena_inv (<[current a := set_next p b]> (<[p := nb]> h)) (Pointers (head a) p (large_blocks a)) (bl ++ [p]) lg (S k) ((p, off, n) :: live).
Proof.
  intros [[C L ND Cu B] LV AP] Last Hb Hp A Nx Sz O N V.
  assert (Out : p ∉ bl ++ lg).
  { intros [I|I]%elem_of_app; [destruct (chain_lookup h _ _ p C I) as (? & ? & _) | destruct (chain_lookup h _ _ p L I) as (? & ? & _)]; congruence. }
  assert (Cp : current a <> p) by congruence. pose proof (list_elem_of_lookup_2 _ _ _ Cu) as CB.
  pose proof ND as ND0. apply list.NoDup_app in ND0 as (NB & Sep & NL).
  assert (Cn : current a ∉ lg) by (by apply Sep).
  assert (Len : length bl = S k).
  { apply lookup_lt_Some in Cu. apply lookup_ge_None in Last. lia. }
  assert (Lp : (bl ++ [p]) !! S k = Some p) by (rewrite lookup_app_r, Len, Nat.sub_diag by lia; done).
  split.
  - split; cbn [head current large_blocks].
    + eapply chain_snoc; [|exact NB | exact Cu | exact Last | by rewrite lookup_insert_ne by done | set_solver | destruct A; lia |].
      * apply chain_insert_ne; [exact C | set_solver].
      * exists nb. split; [apply lookup_insert_eq | exact Nx].
    + apply chain_insert_ne; [|exact Cn]. apply chain_insert_ne; [exact L | set_solver].
    + rewrite <- app_assoc. apply list.NoDup_app. split; [exact NB|]. split; [set_solver|]. apply list.NoDup_cons. set_solver.
    + exact Lp.
    + intros q [Hq|Hq]%elem_of_app.
      * destruct (B q Hq) as (bq & Hbq & Sq & Oq & Aq). assert (p <> q) by congruence.
        destruct (decide (current a = q)) as [Eq|Ne]; [rewrite <- Eq in * |]; simplify_map_eq; eauto 10.
      * apply list_elem_of_singleton in Hq as ->. exists nb. simplify_map_eq. repeat split; try done; try lia; apply A.
  - constructor.
    + split; [done|]. split; [done|]. exists nb. simplify_map_eq. split; [done|]. left. exists (S k). split; [exact Lp|]. lia.
    + eapply Forall_impl; [|exact LV]. intros r Hr. eapply region_mono; [exact Hr | by apply prefix_app_r | done | lia|].
      intros q bq Hbq. assert (p <> q) by congruence.
      destruct (decide (current a = q)) as [Eq|Ne]; [rewrite <- Eq in * |]; simplify_map_eq.
      * exists (set_next p b). split; [done|]. split; [done|]. intros. cbn. lia.
      * exists bq. auto using Z.le_refl.
  - constructor; [|exact AP]. eapply Forall_impl; [|exact LV]. intros [[q o] m] (_ & _ & bq & Hq & _). left. congruence.
Qed.

(** ** A new large block *)
Lemma inv_large h a bl lg k live p nb off n :
  arena_inv h a bl lg k live -> h !! p = None -> p <> 0 -> next nb = large_blocks a ->
  0 <= off -> 0 < n -> off + n <= data_size nb ->
  arena_inv (<[p := nb]> h) (Pointers (head a) (current a) p) bl (p :: lg) k ((p, off, n) :: live).
Proof.
  intros [[C L ND Cu B] LV AP] Hp Nz Nx O N V.
  assert (Out : p ∉ bl ++ lg).
  { intros [I|I]%elem_of_app; [destruct (chain_lookup h _ _ p C I) as (? & ? & _) | destruct (chain_lookup h _ _ p L I) as (? & ? & _)]; congruence. }
  split.
  - split; cbn [head current large_blocks].
    + apply chain_insert_ne; [exact C | set_solver].
    + cbn [chain]. split; [done|]. split; [done|]. exists nb. split; [apply lookup_insert_eq|]. rewrite Nx. apply chain_insert_ne; [exact L | set_solver].
    + apply list.NoDup_app in ND as (NB & Sep & NL). apply list.NoDup_app. split; [exact NB|]. split; [set_solver|]. apply list.NoDup_cons. set_solver.
    + exact Cu.
    + intros q Hq. destruct (B q Hq) as (bq & Hbq & R). assert (p <> q) by congruence. simplify_map_eq. eauto.
  - constructor.
    + split; [done|]. split; [done|]. exists nb. simplify_map_eq. split; [done|]. right. split; [set_solver | done].
    + eapply Forall_impl; [|exact LV]. intros r Hr. eapply region_mono; [exact Hr | done | set_solver | done|].
      intros q bq Hbq. assert (p <> q) by congruence. simplify_map_eq. exists bq. auto using Z.le_refl.
  - constructor; [|exact AP]. eapply Forall_impl; [|exact LV]. intros [[q o] m] (_ & _ & bq & Hq & _). left. congruence.
Qed.

(** * The operations *)

(** The blocks an arena owns, and its live allocations. *)
Definition arena_at (h : heap) (a : div0_arena_t) (own : gset Z) (live : list region) : Prop :=
  exists bl lg k, own = list_to_set (bl ++ lg) /\ arena_inv h a bl lg k live.

(** From one heap to the next: data is kept, the arena only gains blocks, which
    were not in use, and everything that is not its own is as before. *)
Record extends (h : heap) (own : gset Z) (h' : heap) (own' : gset Z) : Prop := {
  ext_data : keeps_data h h';
  ext_own : own ⊆ own';
  ext_rest q : q ∉ own' -> h' !! q = h !! q;
  ext_new q : q ∈ own' -> q ∉ own -> h !! q = None }.

Lemma extends_refl h own : extends h own h own.
Proof. split; [apply keeps_data_refl | done | done | done]. Qed.

(** What an allocation of [size] bytes achieves. *)
Definition allocates (size alignment : Z) (h : heap) (a : div0_arena_t) (own : gset Z) (live : list region)
  (res : option (heap * div0_arena_t * option ptr)) : Prop :=
  exists h' a' r, res = Some (h', a', r) /\
    match r with
    | None => h' = h /\ a' = a
    | Some (p, off) => (data_start p + off) mod alignment = 0 /\
        exists own', extends h own h' own' /\ p ∈ own' /\ arena_at h' a' own' ((p, off, size) :: live)
    end.

Lemma heap_store_some h p b f : h !! p = Some b -> store h p f = Some (<[p := f b]> h).
Proof. intros E. unfold store. by rewrite E. Qed.

Lemma extends_insert h own p b b' : p ∈ own -> h !! p = Some b -> data b' = data b -> data_size b' = data_size b ->
  extends h own (<[p := b']> h) own.
Proof.
  intros Hp Hb D S. split; [by eapply keeps_data_insert | done | | done]. intros q Hq. apply lookup_insert_ne. set_solver.
Qed.

(** Initialising a new block. *)
Lemma store_insert h p b f : store (<[p := b]> h) p f = Some (<[p := f b]> h).
Proof. unfold store. rewrite lookup_insert_eq. cbn. by rewrite insert_insert_eq. Qed.

(** An aligned size that fits a block fits a fresh one after the padding. *)
Lemma fresh_fits size alignment q p : (exists k, 0 <= k <= 16 /\ alignment = 2 ^ k) -> size <= q * alignment < size + alignment ->
  alignment <= 16 \/ size + 2 * alignment <= DIV0_ARENA_BLOCK_SIZE -> q * alignment <= DIV0_ARENA_BLOCK_SIZE -> 0 <= size -> addr_ok p DIV0_ARENA_BLOCK_SIZE ->
  exists off, aligned_from p (data_start p) (alignment - 1) = off /\ w64 (off + q * alignment) = off + q * alignment /\ 0 <= off /\
    off + size <= off + q * alignment <= DIV0_ARENA_BLOCK_SIZE /\ (data_start p + off) mod alignment = 0.
Proof.
  intros HP Hq Room Fit Hs Ap. destruct (aligned_fresh alignment HP p _ Ap ltac:(done)) as (off & E & R & Z0 & M). exists off. split; [exact E|].
  unfold DIV0_ARENA_BLOCK_SIZE in *. assert (off + q * alignment <= 65536) by (destruct Room as [Sm|Rm]; [rewrite (Z0 Sm); lia | lia]).
  rewrite w64_small by (unfold u64; lia). repeat split; lia || exact M.
Qed.

Lemma extends_append h bl lg c b p nb : c ∈ bl -> h !! c = Some b -> h !! p = None ->
  extends h (list_to_set (bl ++ lg)) (<[c := set_next p b]> (<[p := nb]> h)) (list_to_set ((bl ++ [p]) ++ lg)).
Proof.
  intros Hc Hb Hp. assert (Ne : p <> c) by congruence. split.
  - eapply keeps_data_trans; [by apply keeps_data_fresh|]. eapply keeps_data_insert; [by rewrite lookup_insert_ne by done | done | done].
  - set_solver.
  - intros x Hx. rewrite !lookup_insert_ne by set_solver. done.
  - intros x Hx Hn. assert (x = p) as -> by set_solver. exact Hp.
Qed.

(** ** Contents *)

(** An allocation lies inside its block's data. *)
Lemma live_in_data h a own live p off n : arena_at h a own live -> (p, off, n) ∈ live ->
  p ∈ own /\ 0 <= off /\ 0 < n /\ exists b, h !! p = Some b /\ off + n <= data_size b.
Proof.
  intros (bl & lg & k & -> & [[C L ND Cu B] LV AP]) Hin. rewrite Forall_forall in LV.
  apply list_elem_of_In in Hin. destruct (LV _ Hin) as (O & N & b & Hb & D).
  destruct D as [(j & Hj & _ & E)|[Hl E]].
  - apply list_elem_of_lookup_2 in Hj. destruct (B p Hj) as (b' & Hb' & S & Ob & _). rewrite Hb in Hb'. injection Hb' as <-. split; [set_solver|]. split; [done|]. split; [done|].
    exists b. split; [done | lia].
  - split; [set_solver|]. split; [done|]. split; [done|]. eauto.
Qed.

Lemma load_data h p off n b : h !! p = Some b -> 0 <= off -> off + n <= data_size b ->
  load_bytes h (p, off) n = Some ((fun i => data b (off + Z.of_nat i)) <$> seq 0 (Z.to_nat n)).
Proof.
  intros Hb O E. unfold load_bytes, in_data. cbn. rewrite Hb. cbn. by rewrite (proj2 (Z.leb_le 0 off)), (proj2 (Z.leb_le _ _)) by lia.
Qed.

Lemma live_load h a own live p off n m : arena_at h a own live -> (p, off, n) ∈ live -> m <= n ->
  exists b, h !! p = Some b /\ load_bytes h (p, off) m = Some ((fun i => data b (off + Z.of_nat i)) <$> seq 0 (Z.to_nat m)).
Proof.
  intros A Hin Hm. destruct (live_in_data _ _ _ _ _ _ _ A Hin) as (_ & O & N & b & Hb & E).
  exists b. split; [exact Hb|]. apply load_data; [exact Hb | exact O | lia].
Qed.

(** The allocations of [live] hold in [h'] what they hold in [h]. *)
Definition keeps_live (h h' : heap) (live : list region) : Prop :=
  forall p off n, (p, off, n) ∈ live -> load_bytes h' (p, off) n = load_bytes h (p, off) n.

Lemma keeps_live_trans h1 h2 h3 live : keeps_live h1 h2 live -> keeps_live h2 h3 live -> keeps_live h1 h3 live.
Proof. intros A B p off n Hin. rewrite (B p off n Hin). exact (A p off n Hin). Qed.

Lemma keeps_data_load h h' p m bs : keeps_data h h' -> load_bytes h p m = Some bs -> load_bytes h' p m = Some bs.
Proof.
  intros K. unfold load_bytes. destruct (h !! p.1) as [b|] eqn:Hb; [|done]. destruct (K _ _ Hb) as (b' & -> & D & S). cbn.
  unfold in_data. rewrite S, D. done.
Qed.

Lemma keeps_data_live h h' a own live : arena_at h a own live -> keeps_data h h' -> keeps_live h h' live.
Proof.
  intros A K p off n Hin. destruct (live_load _ _ _ _ _ _ _ n A Hin ltac:(lia)) as (b & _ & E). rewrite E. exact (keeps_data_load _ _ _ _ _ K E).
Qed.

(** Changing data changes nothing of the arena. *)
Lemma arena_at_data h a own live p b d : arena_at h a own live -> h !! p = Some b ->
  arena_at (<[p := Block (next b) (offset b) (data_size b) d]> h) a own live.
Proof.
  intros (bl & lg & k & -> & [[C L ND Cu B] LV AP]) Hb. exists bl, lg, k. split; [done|]. split; [|eapply Forall_impl; [|exact LV]|exact AP].
  - split; [by eapply chain_insert_same | by eapply chain_insert_same | exact ND | exact Cu|].
    intros q Hq. destruct (B q Hq) as (bq & Hbq & R). destruct (decide (p = q)) as [<-|]; simplify_map_eq; eauto.
  - intros [[q o] m] (O & N & bq & Hbq & D). split; [done|]. split; [done|]. destruct (decide (p = q)) as [<-|]; simplify_map_eq; eauto.
Qed.

(** Writing into an allocation: [bs] replaces the bytes from [pos], and an
    allocation apart from it keeps its contents. *)
Definition splice (pos : nat) (bs c : list Z) : list Z := take pos c ++ bs ++ drop (pos + length bs) c.

Lemma load_length h p n c : load_bytes h p n = Some c -> length c = Z.to_nat n.
Proof.
  unfold load_bytes. destruct (h !! p.1); [|done]. cbn. destruct (in_data _ _ _); [|done]. intros [= <-]. by rewrite length_fmap, length_seq.
Qed.

(** What a write makes of the bytes of its buffer. *)
Lemma splice_data d off n pos bs : (pos + length bs <= Z.to_nat n)%nat ->
  ((fun i => put_bytes (off + Z.of_nat pos) bs d (off + Z.of_nat i)) <$> seq 0 (Z.to_nat n)) =
  splice pos bs ((fun i => d (off + Z.of_nat i)) <$> seq 0 (Z.to_nat n)).
Proof.
  intros H. unfold splice. apply list_eq. intros i. rewrite list_lookup_fmap. unfold put_bytes.
  set (c := (fun i => d (off + Z.of_nat i)) <$> seq 0 (Z.to_nat n)). assert (Lc : length c = Z.to_nat n) by (unfold c; by rewrite length_fmap, length_seq).
  assert (Hc : forall j, (j < Z.to_nat n)%nat -> c !! j = Some (d (off + Z.of_nat j))) by (intros j Hj; unfold c; by rewrite list_lookup_fmap, lookup_seq_lt).
  destruct (lt_dec i (Z.to_nat n)) as [Hi|Hi].
  - rewrite lookup_seq_lt by done. cbn [fmap option_fmap option_map Nat.add].
    destruct (lt_dec i pos) as [L|L].
    { rewrite (proj2 (Z.leb_gt _ _)) by lia. cbn [andb]. rewrite lookup_app_l, lookup_take_lt, Hc by (rewrite ?length_take; lia). done. }
    rewrite lookup_app_r by (rewrite length_take; lia). rewrite length_take, Lc, Nat.min_l by lia. rewrite (proj2 (Z.leb_le _ _)) by lia.
    destruct (lt_dec i (pos + length bs)) as [L2|L2].
    + rewrite (proj2 (Z.ltb_lt _ _)) by lia. cbn [andb]. rewrite lookup_app_l by lia.
      destruct (lookup_lt_is_Some_2 bs (i - pos)) as [x Hx]; [lia|]. rewrite Hx. f_equal.
      replace (Z.to_nat _) with (i - pos)%nat by lia. by apply nth_lookup_Some.
    + rewrite (proj2 (Z.ltb_ge _ _)) by lia. cbn [andb]. rewrite lookup_app_r by lia. rewrite lookup_drop, Hc by lia. do 3 f_equal. lia.
  - rewrite lookup_seq_ge by lia. cbn. symmetry. apply lookup_ge_None_2. rewrite !length_app, length_take, length_drop. lia.
Qed.

Lemma write_live h a own live p off n c pos bs : arena_at h a own live -> (p, off, n) ∈ live -> load_bytes h (p, off) n = Some c ->
  (pos + length bs <= length c)%nat ->
  exists h', store_bytes h (p, off + Z.of_nat pos) bs = Some h' /\ arena_at h' a own live /\ load_bytes h' (p, off) n = Some (splice pos bs c) /\
    (forall q, q <> p -> h' !! q = h !! q) /\
    (forall q o m, apart (p, off, n) (q, o, m) -> 0 <= m -> load_bytes h' (q, o) m = load_bytes h (q, o) m).
Proof.
  intros A Hin Lc Hl. rewrite (load_length _ _ _ _ Lc) in Hl. destruct (live_in_data _ _ _ _ _ _ _ A Hin) as (_ & O & N & b & Hb & E).
  rewrite (load_data _ _ _ _ _ Hb O E) in Lc. injection Lc as <-.
  unfold store_bytes. cbn [fst snd]. rewrite Hb. cbn [mbind option_bind]. unfold in_data.
  rewrite (proj2 (Z.leb_le 0 _)), (proj2 (Z.leb_le _ _)) by lia. cbn [andb].
  eexists. split; [reflexivity|]. split; [by apply arena_at_data|]. split; [|split].
  - rewrite (load_data _ _ _ _ _ (lookup_insert_eq _ _ _)) by (cbn; lia). cbn [data]. f_equal. by apply splice_data.
  - intros q Hq. by apply lookup_insert_ne.
  - intros q o m Ap Hm. unfold load_bytes. cbn [fst snd]. destruct (decide (p = q)) as [<-|Ne]; [|by rewrite lookup_insert_ne by done].
    rewrite lookup_insert_eq, Hb. cbn. unfold in_data. cbn. destruct (_ && _); [|done]. f_equal. apply list_fmap_ext. intros i x Hx.
    apply lookup_seq in Hx as [-> Hx]. unfold put_bytes. destruct Ap as [|Ap]; [done|].
    destruct (Z.leb_spec (off + Z.of_nat pos) (o + Z.of_nat (0 + i))); [|done].
    destruct (Z.ltb_spec (o + Z.of_nat (0 + i)) (off + Z.of_nat pos + Z.of_nat (length bs))); [lia | done].
Qed.

(** An allocation is apart from the ones before it. *)
Lemma newest_apart h a own r live s : arena_at h a own (r :: live) -> s ∈ live -> apart r s.
Proof.
  intros (bl & lg & k & _ & [_ _ AP]) Hs. inversion_clear AP as [|? ? F _]. rewrite Forall_forall in F. by apply F, list_elem_of_In.
Qed.

Lemma live_weaken h a own r live : arena_at h a own (r :: live) -> arena_at h a own live.
Proof.
  intros (bl & lg & k & E & [R LV AP]). exists bl, lg, k. split; [exact E|]. inversion_clear LV. inversion_clear AP. by split.
Qed.

(** What the client of an allocation sees: its bytes, and everything that was
    allocated before as it was. *)
Definition provides (contents : list Z -> Prop) (h : heap) (live : list region)
  (own : gset Z) (h' : heap) (a' : div0_arena_t) (p : ptr) (n : Z) : Prop :=
  exists own' bs, own ⊆ own' /\ p.1 ∈ own' /\ (forall q, q ∉ own' -> h' !! q = h !! q) /\ (forall q, q ∈ own' -> q ∉ own -> h !! q = None) /\
    arena_at h' a' own' ((p.1, p.2, n) :: live) /\ keeps_live h h' live /\ load_bytes h' p n = Some bs /\ contents bs.

(** Filling a prefix of a fresh allocation. *)
Lemma provides_store h a own live h1 a1 p off n own1 bs : arena_at h a own live -> extends h own h1 own1 -> p ∈ own1 ->
  arena_at h1 a1 own1 ((p, off, n) :: live) -> Z.of_nat (length bs) <= n ->
  exists h2, store_bytes h1 (p, off) bs = Some h2 /\ provides (fun c => take (length bs) c = bs) h live own h2 a1 (p, off) n.
Proof.
  intros A0 [ED EO ER EN] Hp A1 Hl. destruct (live_load _ _ _ _ p off n n A1 ltac:(set_solver) ltac:(lia)) as (b & Hb & Lb).
  destruct (write_live _ _ _ _ p off n _ 0 bs A1 ltac:(set_solver) Lb) as (h2 & E & A2 & Ld & Rest & Ap).
  { rewrite length_fmap, length_seq. lia. }
  rewrite Z.add_0_r in E. exists h2. split; [exact E|]. eexists own1, _. split; [exact EO|]. split; [exact Hp|]. split; [|split; [exact EN|]].
  { intros q Hq. rewrite Rest by set_solver. by apply ER. }
  split; [exact A2|]. split; [|split; [exact Ld|]].
  - apply (keeps_live_trans _ h1); [by eapply keeps_data_live|]. intros q o m Hin.
    destruct (live_in_data _ _ _ _ _ _ _ A0 Hin) as (_ & _ & Nm & _). apply Ap; [|lia]. exact (newest_apart _ _ _ _ _ _ A1 Hin).
  - unfold splice. rewrite take_0. cbn [app]. by rewrite take_app_length.
Qed.

Lemma provides_nothing h a own live h1 a1 p off n own1 : arena_at h a own live -> extends h own h1 own1 -> p ∈ own1 ->
  arena_at h1 a1 own1 ((p, off, n) :: live) -> provides (fun _ => True) h live own h1 a1 (p, off) n.
Proof.
  intros A0 [ED EO ER EN] Hp A1. destruct (live_load _ _ _ _ p off n n A1 ltac:(set_solver) ltac:(lia)) as (b & Hb & Lb).
  eexists own1, _. repeat (split; [first [eassumption | by eapply keeps_data_live]|]). done.
Qed.

Lemma free_chain_ok h p l : chain h p l -> NoDup l ->
  exists h', free_block_chain h p = Some h' /\ (forall q, h' !! q = if decide (q ∈ l) then None else h !! q).
Proof. intros C ND. apply free_loop_spec; [exact C | exact ND | exact (chain_bound _ _ _ C ND)]. Qed.

(** A reset keeps the regular blocks, all of them empty, and frees the large
    ones; nothing is live any more. *)
Lemma reset_spec h a own live : arena_at h a own live ->
  exists h' a' own', div0_arena_reset h a = Some (h', a') /\ own' ⊆ own /\ arena_at h' a' own' [] /\
    (forall q, q ∈ own -> q ∉ own' -> h' !! q = None) /\ (forall q, q ∉ own -> h' !! q = h !! q) /\
    (forall q, q ∈ own' -> exists b, h' !! q = Some b /\ offset b = 0).
Proof.
  intros (bl & lg & k & -> & [[C L ND Cu B] _ _]). apply list.NoDup_app in ND as (NB & Sep & NL). unfold div0_arena_reset.
  destruct (reset_loop_spec (size h) h (head a) bl C NB (chain_bound _ _ _ C NB)) as (h1 & -> & S1). cbn [mbind option_bind].
  assert (L1 : chain h1 (large_blocks a) lg).
  { apply (chain_frame h); [exact L|]. intros q Hq. rewrite S1, decide_False by set_solver. done. }
  destruct (free_chain_ok h1 _ _ L1 NL) as (h2 & -> & S2). cbn [mbind option_bind].
  assert (O2 : forall q, q ∈ bl -> h2 !! q = set_offset 0 <$> h !! q).
  { intros q Hq. rewrite S2, decide_False by set_solver. by rewrite S1, decide_True by done. }
  exists h2, (Pointers (head a) (head a) 0), (list_to_set bl). split; [reflexivity|]. split; [set_solver|]. split; [|split; [|split]].
  - exists bl, [], 0%nat. split; [by rewrite app_nil_r|]. split; [|constructor|constructor]. split; cbn [head current large_blocks]; rewrite ?app_nil_r; [| done | exact NB | |].
    + apply (chain_frame h); [exact C|]. intros q Hq. rewrite O2 by done. destruct (h !! q); done.
    + destruct bl as [|x bl]; [done|]. destruct C as (-> & _). done.
    + intros q Hq. destruct (B q Hq) as (b & Hb & Sb & Ob & Ab). rewrite O2, Hb by done. exists (set_offset 0 b). split; [done|]. split; [done|]. split; [cbv; done | done].
  - intros q Hq Nq. rewrite S2, decide_True by set_solver. done.
  - intros q Hq. rewrite S2, decide_False by set_solver. rewrite S1, decide_False by set_solver. done.
  - intros q Hq. destruct (B q) as (b & Hb & _); [set_solver|]. rewrite O2, Hb by set_solver. exists (set_offset 0 b). done.
Qed.

(** Destruction frees every block of the arena, each once, and nothing else. *)
Lemma destroy_spec h a own live : arena_at h a own live ->
  exists h', div0_arena_destroy h a = Some (h', Pointers 0 0 0) /\ (forall q, h' !! q = if decide (q ∈ own) then None else h !! q).
Proof.
  intros (bl & lg & k & -> & [[C L ND Cu B] _ _]). apply list.NoDup_app in ND as (NB & Sep & NL). unfold div0_arena_destroy.
  destruct (free_chain_ok h _ _ C NB) as (h1 & -> & S1). cbn [mbind option_bind].
  assert (L1 : chain h1 (large_blocks a) lg).
  { apply (chain_frame h); [exact L|]. intros q Hq. rewrite S1, decide_False by set_solver. done. }
  destruct (free_chain_ok h1 _ _ L1 NL) as (h2 & -> & S2). cbn [mbind option_bind]. exists h2. split; [reflexivity|].
  intros q. rewrite S2, S1. destruct (decide (q ∈ lg)); [by rewrite decide_True by set_solver|].
  destruct (decide (q ∈ bl)); [by rewrite decide_True by set_solver | by rewrite decide_False by set_solver].
Qed.

Section Operations.
Context (malloc : heap -> Z -> option Z) (garbage : Z -> block_t).

(** The C library: a successful [malloc] returns a block that is not in use,
    aligned for every type, in the lower half of the address space. *)
Definition malloc_ok : Prop := forall h n p, malloc h n = Some p ->
  h !! p = None /\ 0 < p /\ p mod 16 = 0 /\ p + n < 2 ^ 63.

Context (HM : malloc_ok).

Lemma malloc_block h p : malloc h SIZEOF_BLOCK = Some p -> h !! p = None /\ addr_ok p DIV0_ARENA_BLOCK_SIZE.
Proof. intros E. destruct (HM _ _ _ E) as (F & P1 & P2 & P3). split; [exact F|]. unfold addr_ok, SIZEOF_BLOCK in *. lia. Qed.

Lemma alloc_aligned_ok h a own live size alignment : request_ok size alignment -> arena_at h a own live ->
  allocates size alignment h a own live (div0_arena_alloc_aligned malloc garbage h a size alignment).
Proof.
  intros [HP Hs Room] (bl & lg & k & -> & I). pose proof (inv_rep _ _ _ _ _ _ I) as [C L ND Cu B].
  pose proof (align_range alignment HP) as AR. unfold div0_arena_alloc_aligned. rewrite (align_check alignment HP).
  assert (Fail : forall h a own live, allocates size alignment h a own live (Some (h, a, None))) by (intros; do 3 eexists; split; [done | done]).
  destruct (Z.eqb_spec size 0) as [|N0]; cbn [orb]; [apply Fail|].
  destruct (Z.gtb_spec size (SIZE_MAX - (alignment - 1))) as [|S1]; [apply Fail|].
  destruct (Z.gtb_spec (align_up size (alignment - 1)) DIV0_ARENA_BLOCK_SIZE) as [|S2]; [apply Fail|].
  destruct (align_size alignment HP size) as (q & Eq & Hq); [lia | lia | unfold DIV0_ARENA_BLOCK_SIZE in S2; lia |].
  rewrite Eq in *. set (asz := q * alignment) in *.
  destruct (chain_next h _ bl k _ C Cu) as (b & Hb & Nb). rewrite Hb. cbn [mbind option_bind].
  destruct (B _ (list_elem_of_lookup_2 _ _ _ Cu)) as (b0 & Hb0 & Sb & Ob & Ab). rewrite Hb in Hb0. injection Hb0 as <-.
  pose proof (fun p => fresh_fits size alignment q p HP Hq Room S2 (proj1 Hs)) as FreshBlock. fold asz in FreshBlock.
  destruct (aligned_from_spec alignment HP (current a) (data_start (current a) + offset b)) as (off & Eo & Ro & Mo).
  { destruct Ab as (A1 & A2 & A3). unfold data_start in *. lia. } { destruct Ab; lia. }
  rewrite Eo. rewrite (w64_small (off + asz)) by (unfold u64, DIV0_ARENA_BLOCK_SIZE in *; lia).
  pose proof (list_elem_of_lookup_2 _ _ _ Cu) as CB.
  destruct (Z.leb_spec (off + asz) DIV0_ARENA_BLOCK_SIZE) as [Fit|NoFit].
  - rewrite (heap_store_some _ _ _ _ Hb). cbn [mbind option_bind]. do 3 eexists. split; [reflexivity|]. split; [exact Mo|].
    eexists. split; [by eapply extends_insert; [set_solver | exact Hb | |]|]. split; [set_solver|].
    exists bl, lg, k. split; [done|]. destruct a as [hd cu la]. apply (inv_bump h (Pointers hd cu la) bl lg k live k cu b _ off size I Cu Hb); lia.
  - destruct (bl !! S k) as [nx|] eqn:En; cbn in Nb.
    + pose proof (list_elem_of_lookup_2 _ _ _ En) as NB. destruct (B _ NB) as (bn & Hbn & Sn & On & An).
      rewrite Nb, (proj2 (Z.eqb_neq nx 0)) by (destruct An; lia). cbn [negb current].
      destruct (FreshBlock nx An) as (o2 & -> & Ew & O2 & V2 & M2). rewrite Ew, (heap_store_some _ _ _ _ Hbn). cbn [mbind option_bind].
      do 3 eexists. split; [reflexivity|]. split; [exact M2|]. eexists. split; [by eapply extends_insert; [set_solver | exact Hbn | |]|]. split; [set_solver|].
      exists bl, lg, (S k). split; [done|]. eapply inv_bump; [exact I | exact En | exact Hbn | by right | lia | lia | lia].
    + rewrite Nb. cbn [Z.eqb negb]. destruct (malloc h SIZEOF_BLOCK) as [p|] eqn:Em; [|apply Fail].
      destruct (malloc_block _ _ Em) as [Hp Ap]. assert (Ne : p <> current a) by congruence.
      destruct (FreshBlock p Ap) as (o2 & E2 & Ew & O2 & V2 & M2). rewrite store_insert. cbn [mbind option_bind].
      rewrite E2, Ew, store_insert. cbn [mbind option_bind].
      rewrite (heap_store_some _ _ b) by (by rewrite lookup_insert_ne by done). cbn [mbind option_bind].
      do 3 eexists. split; [reflexivity|]. split; [exact M2|]. exists (list_to_set ((bl ++ [p]) ++ lg)). split; [|split; [set_solver|]].
      * by apply extends_append.
      * exists (bl ++ [p]), lg, (S k). split; [done|]. eapply inv_append; [exact I | exact En | exact Hb | exact Hp | exact Ap | done | done | lia | lia | exact V2].
Qed.

Lemma alloc_large_ok h a own live size alignment : (exists k, 0 <= k <= 16 /\ alignment = 2 ^ k) -> 0 <= size <= SIZE_MAX -> arena_at h a own live ->
  allocates size alignment h a own live (div0_arena_alloc_large malloc garbage h a size alignment).
Proof.
  intros HP Hs (bl & lg & k & -> & I). pose proof (align_range alignment HP) as AR.
  unfold div0_arena_alloc_large, large_block_data_size. rewrite (align_check alignment HP).
  assert (Fail : forall h a own live, allocates size alignment h a own live (Some (h, a, None))) by (intros; do 3 eexists; split; [done | done]).
  destruct (Z.eqb_spec size 0) as [|N0]; cbn [orb]; [apply Fail|].
  destruct (Z.gtb_spec size (SIZE_MAX - (alignment - 1))) as [|S1]; [apply Fail|].
  destruct (Z.gtb_spec (align_up size (alignment - 1)) (SIZE_MAX - alignment)) as [|S2]; [apply Fail|].
  destruct (Z.gtb_spec (align_up size (alignment - 1) + alignment) (SIZE_MAX - header_size)) as [|S3]; [apply Fail|].
  destruct (malloc h _) as [p|] eqn:Em; [|apply Fail]. destruct (HM _ _ _ Em) as (Hp & P1 & P2 & P3). unfold header_size in P3.
  destruct (align_size alignment HP size) as (q & Eq & Hq); [lia | lia | lia |]. rewrite Eq in *. set (asz := q * alignment) in *.
  assert (Ap : addr_ok p (asz + alignment)) by (unfold addr_ok, header_size; lia).
  destruct (aligned_fresh alignment HP p _ Ap ltac:(lia)) as (off & -> & R & _ & M).
  rewrite store_insert. cbn [mbind option_bind].
  rewrite store_insert. cbn [mbind option_bind].
  do 3 eexists. split; [reflexivity|]. split; [exact M|]. exists (list_to_set (bl ++ p :: lg)). split; [|split; [set_solver|]].
  - split; [by apply keeps_data_fresh | set_solver | |].
    + intros x Hx. apply lookup_insert_ne. set_solver.
    + intros x Hx Hn. assert (x = p) as -> by set_solver. exact Hp.
  - exists bl, (p :: lg), k. split; [done|]. eapply inv_large; [exact I | exact Hp | lia | done | lia | lia | cbn; lia].
Qed.

(** ** Reallocation and zeroed allocation *)

Lemma realloc_ok h a own live p off n old_size new_size : arena_at h a own live -> (p, off, n) ∈ live ->
  0 <= old_size <= n -> 0 <= new_size <= SIZE_MAX ->
  exists h' a' r, div0_arena_realloc malloc garbage h a (Some (p, off)) old_size new_size = Some (h', a', r) /\
    match r with
    | None => h' = h /\ a' = a
    | Some q => exists old, load_bytes h (p, off) (Z.min old_size new_size) = Some old /\
        provides (fun bs => take (length old) bs = old) h live own h' a' q new_size
    end.
Proof.
  intros A Hin Ho Hn. unfold div0_arena_realloc, div0_arena_alloc.
  destruct (alloc_aligned_ok h a own live new_size _ (request_8 _ Hn) A) as (h1 & a1 & r & -> & R). cbn [mbind option_bind].
  destruct r as [[q o]|]; [|do 3 eexists; split; [reflexivity | exact R]].
  destruct R as (_ & own1 & X & Hq & A1). set (copy := if old_size <? new_size then old_size else new_size).
  assert (EC : copy = Z.min old_size new_size) by (unfold copy; destruct (Z.ltb_spec old_size new_size); lia). rewrite <- EC.
  destruct (live_load _ _ _ _ p off n copy A Hin ltac:(lia)) as (b & Hb & Lb).
  set (old := (fun i => data b (off + Z.of_nat i)) <$> seq 0 (Z.to_nat copy)) in *.
  assert (Lo : Z.of_nat (length old) = copy) by (unfold old; rewrite length_fmap, length_seq; lia).
  destruct (provides_store _ _ _ _ _ _ _ _ _ _ old A X Hq A1 ltac:(lia)) as (h2 & E2 & P2).
  destruct (Z.gtb_spec old_size 0) as [G|G].
  - unfold memcpy. cbn [fst snd].
    assert ((q =? p) && (o <? off + copy) && (off <? o + copy) = false) as ->.
    { pose proof (newest_apart _ _ _ _ _ _ A1 Hin) as D. cbn in D. destruct (Z.eqb_spec q p); [|done]. cbn [andb].
      destruct (Z.ltb_spec o (off + copy)); [|done]. cbn [andb]. apply Z.ltb_ge. lia. }
    rewrite (keeps_data_load _ _ _ _ _ (ext_data _ _ _ _ X) Lb). cbn [mbind option_bind]. rewrite E2. cbn [mbind option_bind].
    do 3 eexists. split; [reflexivity|]. exists old. split; [exact Lb | exact P2].
  - do 3 eexists. split; [reflexivity|]. exists old. split; [exact Lb|].
    assert (old = []) as -> by (apply length_zero_iff_nil; lia).
    destruct (provides_nothing _ _ _ _ _ _ _ _ _ _ A X Hq A1) as (own' & bs & Q). exists own', bs. cbn. tauto.
Qed.

Lemma calloc_ok h a own live n sz : arena_at h a own live -> 0 <= n <= SIZE_MAX -> 0 <= sz <= SIZE_MAX ->
  exists h' a' r, div0_arena_calloc malloc garbage h a n sz = Some (h', a', r) /\
    match r with
    | None => h' = h /\ a' = a
    | Some q => n * sz <= DIV0_ARENA_BLOCK_SIZE /\ provides (fun bs => bs = replicate (Z.to_nat (n * sz)) 0) h live own h' a' q (n * sz)
    end.
Proof.
  intros A Hn Hs. unfold div0_arena_calloc. destruct (Z.eqb_spec (w64 (n * sz)) (n * sz)) as [E|E]; cbn [negb]; [|do 3 eexists; split; [reflexivity | done]].
  assert (R : 0 <= n * sz <= SIZE_MAX) by (pose proof (w64_range (n * sz)) as R; rewrite E in R; unfold u64, SIZE_MAX in *; lia). rewrite E.
  unfold div0_arena_alloc. destruct (alloc_aligned_ok h a own live (n * sz) _ (request_8 _ R) A) as (h1 & a1 & r & Ea & Q). rewrite Ea. cbn [mbind option_bind].
  destruct r as [[q o]|]; [|do 3 eexists; split; [reflexivity | exact Q]].
  destruct Q as (_ & own1 & X & Hq & A1). set (zs := replicate (Z.to_nat (n * sz)) 0).
  assert (Lz : Z.of_nat (length zs) = n * sz) by (unfold zs; rewrite length_replicate; lia).
  destruct (provides_store _ _ _ _ _ _ _ _ _ _ zs A X Hq A1 ltac:(lia)) as (h2 & E2 & own' & bs & P2).
  unfold memset. fold zs. rewrite E2. cbn [mbind option_bind]. do 3 eexists. split; [reflexivity|]. split.
  - unfold div0_arena_alloc_aligned in Ea. destruct ((n * sz =? 0) || _); [done|].
    destruct (Z.gtb_spec (n * sz) (SIZE_MAX - (DIV0_ARENA_ALIGNMENT - 1))) as [|S1]; [done|].
    destruct (Z.gtb_spec (align_up (n * sz) (DIV0_ARENA_ALIGNMENT - 1)) DIV0_ARENA_BLOCK_SIZE) as [|B]; [done|].
    destruct (align_size DIV0_ARENA_ALIGNMENT (req_power _ _ (request_8 _ R)) (n * sz)) as (k & Ek & Hk); unfold DIV0_ARENA_BLOCK_SIZE, DIV0_ARENA_ALIGNMENT, SIZE_MAX in *; lia.
  - exists own', bs. destruct P2 as (P1 & P2 & P3 & P4 & P5 & P6 & P7 & P8). repeat (split; [assumption|]).
    rewrite <- P8. symmetry. apply take_ge.
    unfold load_bytes in P7. destruct (h2 !! (q, o).1); [|done]. cbn in P7. destruct (in_data _ _ _); [|done]. injection P7 as <-.
    rewrite length_fmap, length_seq. lia.
Qed.

(** ** Beginning, reset and destruction *)

Lemma arena_init_ok h : exists h' r, div0_arena_init malloc garbage h = Some (h', r) /\
  match r with
  | None => h' = h
  | Some a => exists p, h !! p = None /\ arena_at h' a {[p]} [] /\ (forall q, q <> p -> h' !! q = h !! q)
  end.
Proof.
  unfold div0_arena_init. destruct (malloc h SIZEOF_BLOCK) as [p|] eqn:Em; [|do 2 eexists; split; [reflexivity | done]].
  destruct (malloc_block _ _ Em) as [Hp Ap]. rewrite !store_insert. cbn [mbind option_bind]. rewrite store_insert. cbn [mbind option_bind].
  do 2 eexists. split; [reflexivity|]. exists p. split; [exact Hp|]. split; [|intros q Hq; by apply lookup_insert_ne].
  exists [p], [], 0%nat. split; [set_solver|]. split; [|constructor|constructor]. split; cbn [head current large_blocks app].
  - cbn [chain]. split; [done|]. split; [destruct Ap; lia|]. eexists. split; [apply lookup_insert_eq | done].
  - done.
  - apply list.NoDup_cons. split; [set_solver | constructor].
  - done.
  - intros q ->%list_elem_of_singleton. eexists. split; [apply lookup_insert_eq|]. split; [done|]. split; [cbv; done | exact Ap].
Qed.
End Operations.
