(* ===== verification/ArenaTheorems.v ===== *)
(** The arena as its clients use it: sequences of allocations, writes and
    resets between [div0_arena_init] and [div0_arena_destroy]. The
    specification is a list of independent byte buffers; the pointer-level
    arena of [ArenaHeap] implements it, and what it leaves behind is the heap
    it started from. *)
From Stdlib Require Import ZArith Lia.
From stdpp Require Import base gmap list numbers option.
From S2P Require Import Prelude Arena ArenaHeap ArenaSafe.
#[local] Open Scope Z_scope.

(** * Buffers *)

(** An allocation with its contents, newest first. *)
Abbreviation buffer := (region * list Z)%type.

Inductive arena_op :=
| Alloc (size alignment : Z)
| AllocLarge (size alignment : Z)
| Realloc (i : nat) (new_size : Z)
| Calloc (n sz : Z)
| Write (i pos : nat) (bs : list Z)
| ResetAll.

Record client := Client { c_heap : heap; c_arena : div0_arena_t; c_buffers : list buffer }.

(** The contract of the calls: sizes are [size_t], alignments powers of two
    that a block has room for, writes stay inside their buffer. *)
Definition op_ok (bufs : list buffer) (op : arena_op) : Prop :=
  match op with
  | Alloc size alignment => request_ok size alignment
  | AllocLarge size alignment => (exists k, 0 <= k <= 16 /\ alignment = 2 ^ k) /\ 0 <= size <= SIZE_MAX
  | Realloc i new_size => (i < length bufs)%nat /\ 0 <= new_size <= SIZE_MAX
  | Calloc n sz => 0 <= n <= SIZE_MAX /\ 0 <= sz <= SIZE_MAX
  | Write i pos bs => exists r c, bufs !! i = Some (r, c) /\ (pos + length bs <= length c)%nat
  | ResetAll => True
  end.

Section Client.
Context (malloc : heap -> Z -> option Z) (garbage : Z -> block_t).

(** A call that returned memory adds a buffer; its contents are what the
    function promises, and what is found there for the rest. *)
Definition add_buffer (res : option (heap * div0_arena_t * option ptr)) (size : Z) (promised : list Z) (s : client) : option client :=
  '(h, a, r) ← res;
  match r with
  | None => Some (Client h a (c_buffers s))
  | Some p => found ← load_bytes h p size; Some (Client h a (((p.1, p.2, size), promised ++ drop (length promised) found) :: c_buffers s))
  end.

Definition arena_exec (op : arena_op) (s : client) : option client :=
  let '(Client h a bufs) := s in
  match op with
  | Alloc size alignment => add_buffer (div0_arena_alloc_aligned malloc garbage h a size alignment) size [] s
  | AllocLarge size alignment => add_buffer (div0_arena_alloc_large malloc garbage h a size alignment) size [] s
  | Realloc i new_size =>
      '(p, off, n, c) ← bufs !! i;
      add_buffer (div0_arena_realloc malloc garbage h a (Some (p, off)) n new_size) new_size (take (Z.to_nat new_size) c) s
  | Calloc n sz => add_buffer (div0_arena_calloc malloc garbage h a n sz) (n * sz) (replicate (Z.to_nat (n * sz)) 0) s
  | Write i pos bs =>
      '(p, off, n, c) ← bufs !! i;
      h ← store_bytes h (p, off + Z.of_nat pos) bs;
      Some (Client h a (<[i := (p, off, n, splice pos bs c)]> bufs))
  | ResetAll => '(h, a) ← div0_arena_reset h a; Some (Client h a [])
  end.

Fixpoint arena_run (ops : list arena_op) (s : client) : option client :=
  match ops with
  | [] => Some s
  | op :: ops => s ← arena_exec op s; arena_run ops s
  end.

(** The calls are within the contract, each in the state it is made in. *)
Fixpoint ops_ok (ops : list arena_op) (s : client) : Prop :=
  match ops with
  | [] => True
  | op :: ops => op_ok (c_buffers s) op /\ forall s', arena_exec op s = Some s' -> ops_ok ops s'
  end.
End Client.

(** * The invariant *)

(** The arena holds exactly the buffers, started from the heap [h0], and has
    not touched anything that was there. *)
Record faithful (h0 : heap) (s : client) : Prop := {
  fa_own : exists own, arena_at (c_heap s) (c_arena s) own (c_buffers s).*1 /\
    (forall q, q ∉ own -> c_heap s !! q = h0 !! q) /\ (forall q, q ∈ own -> h0 !! q = None);
  fa_contents p off n c : (p, off, n, c) ∈ c_buffers s -> load_bytes (c_heap s) (p, off) n = Some c }.

Lemma buffer_region p off n c (bufs : list buffer) : (p, off, n, c) ∈ bufs -> (p, off, n) ∈ bufs.*1.
Proof. intros H. apply list_elem_of_fmap. exists (p, off, n, c). done. Qed.

(** Adding a buffer the arena provides. *)
Lemma add_ok h0 s contents promised h' a' p n :
  faithful h0 s -> (forall own, arena_at (c_heap s) (c_arena s) own (c_buffers s).*1 -> provides contents (c_heap s) (c_buffers s).*1 own h' a' p n) ->
  (forall bs, contents bs -> length bs = Z.to_nat n -> take (length promised) bs = promised) ->
  exists s', add_buffer (Some (h', a', Some p)) n promised s = Some s' /\ faithful h0 s'.
Proof.
  intros [(own & A & Rest & New) Cont] P Pre. destruct (P own A) as (own' & bs & Sub & Hp & R1 & N1 & A' & K & Ld & Cb).
  unfold add_buffer. cbn [mbind option_bind]. rewrite Ld. cbn [mbind option_bind]. eexists. split; [reflexivity|].
  pose proof (Pre bs Cb (load_length _ _ _ _ Ld)) as T.
  split; cbn [c_heap c_arena c_buffers].
  - exists own'. split; [exact A'|]. split.
    + intros q Hq. rewrite R1 by done. apply Rest. set_solver.
    + intros q Hq. destruct (decide (q ∈ own)) as [I|I]; [by apply New|]. rewrite <- Rest by done. by apply N1.
  - intros q off m c [E|Hin]%elem_of_cons.
    + injection E as -> -> -> ->. rewrite <- T at 1. rewrite take_drop. destruct p. exact Ld.
    + rewrite K by (by eapply buffer_region). by apply Cont.
Qed.

Lemma add_none h0 s h' a' n promised : faithful h0 s -> h' = c_heap s /\ a' = c_arena s ->
  exists s', add_buffer (Some (h', a', None)) n promised s = Some s' /\ faithful h0 s'.
Proof. intros F [-> ->]. exists s. split; [by destruct s | exact F]. Qed.

(** * Writes *)

Lemma apart_sym r s : apart r s -> apart s r.
Proof. destruct r as [[p o] n], s as [[q o'] m]. cbn. intuition lia. Qed.

Lemma apart_lookup (live : list region) i j r s : ForallOrdPairs apart live -> live !! i = Some r -> live !! j = Some s -> i <> j -> apart r s.
Proof.
  intros F. revert i j. induction F as [|x l H F IH]; intros i j Hi Hj N; [done|]. rewrite Forall_forall in H.
  destruct i as [|i], j as [|j]; cbn in Hi, Hj; simplify_eq.
  - apply H, list_elem_of_In. by eapply list_elem_of_lookup_2.
  - apply apart_sym, H, list_elem_of_In. by eapply list_elem_of_lookup_2.
  - eapply IH; eauto.
Qed.

Lemma write_ok h0 h a bufs i pos bs p off n c : faithful h0 (Client h a bufs) -> bufs !! i = Some (p, off, n, c) -> (pos + length bs <= length c)%nat ->
  exists h', store_bytes h (p, off + Z.of_nat pos) bs = Some h' /\ faithful h0 (Client h' a (<[i := (p, off, n, splice pos bs c)]> bufs)).
Proof.
  intros [(own & A & Rest & New) Cont] Hi Hl. cbn [c_heap c_arena c_buffers] in *. pose proof (list_elem_of_lookup_2 _ _ _ Hi) as Hin.
  destruct (write_live _ _ _ _ p off n c pos bs A (buffer_region _ _ _ _ _ Hin) (Cont _ _ _ _ Hin) Hl) as (h' & E & A' & Ld & Same & Ap).
  exists h'. split; [exact E|].
  assert (Regions : (<[i := (p, off, n, splice pos bs c)]> bufs).*1 = bufs.*1).
  { rewrite list_fmap_insert. apply list_insert_id. rewrite list_lookup_fmap, Hi. done. }
  destruct (live_in_data _ _ _ _ _ _ _ A (buffer_region _ _ _ _ _ Hin)) as (Own & _).
  split; cbn [c_heap c_arena c_buffers].
  - exists own. rewrite Regions. split; [exact A'|]. split; [|exact New]. intros q Hq. rewrite Same by set_solver. by apply Rest.
  - intros q o m c' [j Hj]%list_elem_of_lookup. destruct (decide (i = j)) as [<-|Ne].
    + rewrite list_lookup_insert_eq in Hj by (by eapply lookup_lt_Some). injection Hj as <- <- <- <-. exact Ld.
    + rewrite list_lookup_insert_ne in Hj by done. pose proof (list_elem_of_lookup_2 _ _ _ Hj) as Hjn. rewrite <- (Cont _ _ _ _ Hjn).
      destruct (live_in_data _ _ _ _ _ _ _ A (buffer_region _ _ _ _ _ Hjn)) as (_ & _ & Nm & _). apply Ap; [|lia].
      destruct A as (bl & lg & k & _ & [_ _ AP]). eapply (apart_lookup _ i j); [exact AP | | | exact Ne]; rewrite list_lookup_fmap; [rewrite Hi | rewrite Hj]; done.
Qed.

(** * Every call *)

Section Runs.
Context (malloc : heap -> Z -> option Z) (garbage : Z -> block_t) (HM : malloc_ok malloc).

(** A call that allocates, whatever it promises about the contents. *)
Lemma allocation_ok h0 s n alignment res : faithful h0 s ->
  (forall own, arena_at (c_heap s) (c_arena s) own (c_buffers s).*1 -> allocates n alignment (c_heap s) (c_arena s) own (c_buffers s).*1 res) ->
  exists s', add_buffer res n [] s = Some s' /\ faithful h0 s'.
Proof using.
  intros F H. destruct (fa_own _ _ F) as (own & A & _). destruct (H own A) as (h' & a' & r & -> & R).
  destruct r as [[p off]|]; [|by apply add_none]. eapply (add_ok _ _ (fun _ => True)); [exact F | | done].
  intros own0 A0. destruct (H own0 A0) as (h2 & a2 & r2 & E2 & R2). injection E2 as <- <- <-. destruct R2 as (_ & own' & X & Hp & A').
  by eapply provides_nothing.
Qed.

Lemma exec_ok h0 op s : faithful h0 s -> op_ok (c_buffers s) op -> exists s', arena_exec malloc garbage op s = Some s' /\ faithful h0 s'.
Proof using HM.
  destruct s as [h a bufs]. intros F Ok. pose proof F as [(own & A & Rest & New) Cont]. cbn [c_heap c_arena c_buffers] in *.
  destruct op as [size al|size al|i new_size|n sz|i pos bs|]; cbn [arena_exec op_ok] in *.
  - eapply allocation_ok; [exact F|]. intros own0 A0. by apply alloc_aligned_ok.
  - destruct Ok as [HP Hs]. eapply allocation_ok; [exact F|]. intros own0 A0. by apply alloc_large_ok.
  - destruct Ok as [Hi Hn]. destruct (lookup_lt_is_Some_2 bufs i Hi) as [[[[p off] n] c] E]. rewrite E. cbn [mbind option_bind].
    pose proof (list_elem_of_lookup_2 _ _ _ E) as Hin. pose proof (buffer_region _ _ _ _ _ Hin) as Hr.
    destruct (live_in_data _ _ _ _ _ _ _ A Hr) as (_ & _ & N & _).
    pose proof (fun own A0 => realloc_ok malloc garbage HM h a own (bufs.*1) p off n n new_size A0 Hr ltac:(lia) Hn) as R.
    destruct (R own A) as (h' & a' & [q|] & Er & Q); rewrite Er; [|by apply add_none].
    destruct Q as (old & Lo & _).
    eapply (add_ok _ _ (fun bs => take (length old) bs = old)); [exact F | |].
    + intros own0 A0. destruct (R own0 A0) as (h2 & a2 & r2 & E2 & Q2). rewrite Er in E2. injection E2 as <- <- <-.
      destruct Q2 as (old2 & Lo2 & P2). rewrite Lo in Lo2. injection Lo2 as <-. exact P2.
    + intros bs T _. replace (take (Z.to_nat new_size) c) with old; [exact T|].
      destruct (live_load _ _ _ _ _ _ _ (Z.min n new_size) A Hr ltac:(lia)) as (b & Hb & Lb). rewrite Lo in Lb. injection Lb as ->.
      destruct (live_load _ _ _ _ _ _ _ n A Hr ltac:(lia)) as (b' & Hb' & Lb). rewrite (Cont _ _ _ _ Hin) in Lb. injection Lb as ->.
      assert (b' = b) as -> by congruence. rewrite <- fmap_take, take_seq. do 2 f_equal. lia.
  - destruct Ok as [Hn Hs].
    pose proof (fun own A0 => calloc_ok malloc garbage HM h a own (bufs.*1) n sz A0 Hn Hs) as R.
    destruct (R own A) as (h' & a' & [q|] & Er & Q); rewrite Er; [|by apply add_none].
    eapply (add_ok _ _ (fun bs => bs = replicate (Z.to_nat (n * sz)) 0)); [exact F | |].
    + intros own0 A0. destruct (R own0 A0) as (h2 & a2 & r2 & E2 & Q2). rewrite Er in E2. injection E2 as <- <- <-. exact (proj2 Q2).
    + intros bs -> _. apply take_ge. done.
  - destruct Ok as ([[p off] n] & c & E & Hl). rewrite E. cbn [mbind option_bind].
    destruct (write_ok h0 h a bufs i pos bs p off n c F E Hl) as (h' & -> & F'). cbn [mbind option_bind]. eexists. split; [reflexivity | exact F'].
  - destruct (reset_spec _ _ _ _ A) as (h' & a' & own' & -> & Sub & A' & Freed & Out & _). cbn [mbind option_bind]. eexists. split; [reflexivity|].
    split; cbn [c_heap c_arena c_buffers]; [|by intros ? ? ? ? ?%elem_of_nil]. exists own'. split; [exact A'|]. split; [|set_solver].
    intros q Hq. destruct (decide (q ∈ own)) as [I|I]; [by rewrite Freed, New | by rewrite Out, Rest].
Qed.

Lemma run_ok h0 ops : forall s, faithful h0 s -> ops_ok malloc garbage ops s -> exists s', arena_run malloc garbage ops s = Some s' /\ faithful h0 s'.
Proof using HM.
  induction ops as [|op ops IH]; intros s F Ok; cbn [arena_run]; [eauto|]. destruct Ok as [O1 O2].
  destruct (exec_ok h0 op s F O1) as (s1 & E & F1). rewrite E. cbn [mbind option_bind]. exact (IH s1 F1 (O2 s1 E)).
Qed.

Lemma started_ok h0 h a : div0_arena_init malloc garbage h0 = Some (h, Some a) -> faithful h0 (Client h a []).
Proof using HM.
  intros E. destruct (arena_init_ok malloc garbage HM h0) as (h' & r & E' & R). rewrite E in E'. injection E' as <- <-.
  destruct R as (p & Hp & A & Rest). split; cbn; [|by intros ? ? ? ? ?%elem_of_nil].
  exists {[p]}. split; [exact A|]. split; [intros q Hq; apply Rest; set_solver | intros q Hq; by apply elem_of_singleton in Hq as ->].
Qed.
End Runs.

(** * Theorems *)

(** C17: The arena implements independent byte buffers. After [div0_arena_init]
    succeeded, every sequence of allocations (aligned, large, zeroed),
    reallocations, writes and resets within their contract runs without
    following a bad pointer or leaving a block, whatever [malloc] answers; each
    buffer handed out since the last reset holds exactly its own contents
    (zeros from calloc, the old bytes after realloc, then what was written),
    and any two of them are disjoint. *)
Theorem arena_buffers malloc garbage h0 h a ops : malloc_ok malloc -> div0_arena_init malloc garbage h0 = Some (h, Some a) ->
  ops_ok malloc garbage ops (Client h a []) ->
  exists s, arena_run malloc garbage ops (Client h a []) = Some s /\
    (forall p off n c, (p, off, n, c) ∈ c_buffers s -> load_bytes (c_heap s) (p, off) n = Some c) /\
    (forall i j r r' c c', i <> j -> c_buffers s !! i = Some (r, c) -> c_buffers s !! j = Some (r', c') -> apart r r').
Proof.
  intros HM E Ok. destruct (run_ok malloc garbage HM h0 ops _ (started_ok malloc garbage HM _ _ _ E) Ok) as (s & Er & [(own & A & _) Cont]).
  exists s. split; [exact Er|]. split; [exact Cont|]. intros i j r r' c c' N Hi Hj. destruct A as (bl & lg & k & _ & [_ _ AP]).
  eapply (apart_lookup _ i j); [exact AP | | | exact N]; rewrite list_lookup_fmap; [rewrite Hi | rewrite Hj]; done.
Qed.

(** C18: Nothing leaks and nothing is freed twice: whatever was done with an
    arena in between, [div0_arena_destroy] ends, and the heap afterwards is the
    heap before [div0_arena_init]; while the arena is in use, blocks that are
    not its own are untouched. *)
Theorem arena_no_leak malloc garbage h0 h a ops s : malloc_ok malloc -> div0_arena_init malloc garbage h0 = Some (h, Some a) ->
  ops_ok malloc garbage ops (Client h a []) -> arena_run malloc garbage ops (Client h a []) = Some s ->
  (forall q b, h0 !! q = Some b -> c_heap s !! q = Some b) /\ div0_arena_destroy (c_heap s) (c_arena s) = Some (h0, Pointers 0 0 0).
Proof.
  intros HM E Ok Er. destruct (run_ok malloc garbage HM h0 ops _ (started_ok malloc garbage HM _ _ _ E) Ok) as (s' & Er' & [(own & A & Rest & New) _]).
  rewrite Er in Er'. injection Er' as <-. split.
  - intros q b Hq. rewrite Rest; [exact Hq|]. intros I. rewrite New in Hq by done. done.
  - destruct (destroy_spec _ _ _ _ A) as (h' & -> & Sp). do 2 f_equal. apply map_eq. intros q. rewrite Sp.
    destruct (decide (q ∈ own)) as [I|I]; [by rewrite New | by apply Rest].
Qed.

(** The rounded size fits a block exactly when the size does. *)
Lemma rounded_fits size : 0 < size <= SIZE_MAX - (DIV0_ARENA_ALIGNMENT - 1) ->
  (align_up size (DIV0_ARENA_ALIGNMENT - 1) <= DIV0_ARENA_BLOCK_SIZE <-> size <= DIV0_ARENA_BLOCK_SIZE).
Proof.
  intros H. pose proof (req_power _ _ (request_8 size ltac:(unfold DIV0_ARENA_ALIGNMENT in H; lia))) as HP.
  unfold DIV0_ARENA_BLOCK_SIZE. split; intros B.
  - destruct (align_size _ HP size) as (q & E & Hq); [lia | lia | lia |]. lia.
  - destruct (align_spec _ HP size) as (q & E & Hq); [lia|]. rewrite E. unfold DIV0_ARENA_ALIGNMENT in *. lia.
Qed.

(** Which requests the arena serves: as long as [malloc] has memory,
    [div0_arena_alloc] returns a buffer for exactly the sizes from 1 to 65536
    bytes, whatever was allocated before; for any other size it returns null
    and changes nothing. *)
Theorem arena_serves malloc garbage h a own live size : malloc_ok malloc -> is_Some (malloc h SIZEOF_BLOCK) ->
  arena_at h a own live -> 0 <= size <= SIZE_MAX ->
  if alloc_succeeds size then exists h' a' p, div0_arena_alloc malloc garbage h a size = Some (h', a', Some p)
  else div0_arena_alloc malloc garbage h a size = Some (h, a, None).
Proof.
  intros HM Mem A Hs. pose proof (request_8 size Hs) as RQ. destruct (alloc_aligned_ok malloc garbage HM h a own live size _ RQ A) as (h' & a' & r & E & R).
  unfold div0_arena_alloc. assert (None' : r = None -> alloc_succeeds size = false).
  { intros ->. unfold div0_arena_alloc_aligned in E. rewrite (align_check _ (req_power _ _ RQ)) in E. unfold alloc_succeeds.
    destruct (Z.eqb_spec size 0) as [->|N]; [done|]. cbn [orb] in E.
    destruct (Z.gtb_spec size (SIZE_MAX - (DIV0_ARENA_ALIGNMENT - 1))) as [B|B].
    { apply andb_false_iff. right. apply Z.leb_gt. unfold SIZE_MAX, DIV0_ARENA_ALIGNMENT, DIV0_ARENA_BLOCK_SIZE in *. lia. }
    destruct (Z.gtb_spec (align_up size (DIV0_ARENA_ALIGNMENT - 1)) DIV0_ARENA_BLOCK_SIZE) as [F|F].
    { apply andb_false_iff. right. apply Z.leb_gt. pose proof (rounded_fits size ltac:(lia)). lia. }
    destruct (h !! current a) as [b|]; [|done]. cbn [mbind option_bind] in E. destruct (_ <=? _); [by destruct (store _ _ _)|].
    destruct (negb _); [by destruct (store _ _ _)|]. destruct Mem as [p Hp]. rewrite Hp in E.
    destruct (store _ p _); [cbn in E|done]. destruct (store _ p _); [cbn in E|done]. by destruct (store _ _ _). }
  destruct r as [p|]; [|rewrite (None' eq_refl); destruct R as [-> ->]; exact E].
  replace (alloc_succeeds size) with true; [eauto|]. symmetry. unfold alloc_succeeds. destruct p as [p off].
  destruct R as (_ & own' & _ & _ & A'). destruct (live_in_data _ _ _ _ p off size A' ltac:(set_solver)) as (_ & _ & N & _).
  unfold div0_arena_alloc_aligned in E. destruct (_ || _); [done|]. destruct (Z.gtb_spec size (SIZE_MAX - (DIV0_ARENA_ALIGNMENT - 1))); [done|].
  destruct (Z.gtb_spec (align_up size (DIV0_ARENA_ALIGNMENT - 1)) DIV0_ARENA_BLOCK_SIZE) as [|F]; [done|].
  apply andb_true_iff. split; [by apply Z.ltb_lt | apply Z.leb_le; by apply rounded_fits].
Qed.

(** * A concrete allocator *)

(** Blocks one after the other above the highest one in use. *)
Definition bump_malloc (h : heap) (n : Z) : option Z :=
  let p := 16 * (1 + map_fold (fun q b m => Z.max (q + data_size b) m) 0 h) in
  match h !! p with
  | Some _ => None
  | None => if (0 <? p) && (p + n <? 2 ^ 63) then Some p else None
  end.

Lemma bump_malloc_ok : malloc_ok bump_malloc.
Proof.
  intros h n p. unfold bump_malloc. set (x := 1 + _). destruct (h !! (16 * x)) eqn:E; [done|]. destruct (Z.ltb_spec 0 (16 * x)); [|done].
  cbn [andb]. destruct (Z.ltb_spec (16 * x + n) (2 ^ 63)); [|done]. intros [= <-]. split; [exact E|]. split; [lia|]. split; [|lia].
  rewrite Z.mul_comm. apply Z_mod_mult.
Qed.

Definition zero_memory (p : Z) : block_t := Block 0 0 0 (fun _ => 0).

Definition first_arena : heap * option div0_arena_t := default (∅, None) (div0_arena_init bump_malloc zero_memory ∅).
Definition sample_ops : list arena_op := [Alloc 24 8; Write 0 2 [7; 8; 9]; Calloc 3 5; Realloc 1 40; AllocLarge 100 64].
Definition started : client := Client first_arena.1 (default (Pointers 0 0 0) first_arena.2) [].

Lemma sample_init : div0_arena_init bump_malloc zero_memory ∅ = Some (c_heap started, Some (c_arena started)).
Proof. reflexivity. Qed.

Ltac next_op := split; [|intros s' E; vm_compute in E; injection E as <-].

Lemma sample_ops_ok : ops_ok bump_malloc zero_memory sample_ops started.
Proof.
  next_op; [split; [exists 3; done | done | left; done]|]. 
  next_op; [do 2 eexists; split; [reflexivity | cbn; lia]|].
  next_op; [done|]. next_op; [cbn; split; [lia | done]|]. split; [split; [exists 6; done | done]|]. done.
Qed.

Definition finished : client := default started (arena_run bump_malloc zero_memory sample_ops started).

Lemma arena_buffers_witness : exists s, arena_run bump_malloc zero_memory sample_ops started = Some s /\
  (forall p off n c, (p, off, n, c) ∈ c_buffers s -> load_bytes (c_heap s) (p, off) n = Some c) /\
  (forall i j r r' c c', i <> j -> c_buffers s !! i = Some (r, c) -> c_buffers s !! j = Some (r', c') -> apart r r').
Proof. exact (arena_buffers bump_malloc zero_memory ∅ _ _ sample_ops bump_malloc_ok sample_init sample_ops_ok). Defined.

Lemma arena_no_leak_witness : size (c_heap finished) = 2%nat /\ (c_buffers finished !! 1%nat) = Some (16, 40, 40, [0; 0; 7; 8; 9] ++ replicate 35 0) /\
  div0_arena_destroy (c_heap finished) (c_arena finished) = Some (∅, Pointers 0 0 0).
Proof.
  split; [reflexivity|]. split; [vm_compute; reflexivity|].
  apply (arena_no_leak bump_malloc zero_memory ∅ _ _ sample_ops finished bump_malloc_ok sample_init sample_ops_ok). reflexivity.
Defined.

Lemma arena_serves_witness : alloc_succeeds 100 = true /\ exists h' a' p,
  div0_arena_alloc bump_malloc zero_memory (c_heap started) (c_arena started) 100 = Some (h', a', Some p).
Proof.
  split; [reflexivity|]. destruct (started_ok bump_malloc zero_memory bump_malloc_ok ∅ _ _ sample_init) as [(own & A & _) _].
  refine (arena_serves bump_malloc zero_memory _ _ own _ 100 bump_malloc_ok _ A _); [by eexists | done].
Defined.

(** Outside the contract: for an alignment above 16 the first block may serve
    a request and the next one not have the room for its padding, which is not
    checked. The allocation then ends beyond its block. *)
Example overaligned_overrun :
  match arena_run bump_malloc zero_memory [Alloc 8 8] started with
  | Some s => match div0_arena_alloc_aligned bump_malloc zero_memory (c_heap s) (c_arena s) DIV0_ARENA_BLOCK_SIZE 64 with
              | Some (_, _, Some (_, off)) => DIV0_ARENA_BLOCK_SIZE < off + DIV0_ARENA_BLOCK_SIZE
              | _ => False
              end
  | None => False
  end.
Proof. vm_compute. reflexivity. Qed.

(** Destroying a trie gives the whole arena back, not only the trie's nodes: of
    two buffers of an arena, one for a node and one for something else, both lie
    inside the first buffer that is handed out after [mpt_destroy]. *)
Example destroyed_trie_reuses :
  match arena_run bump_malloc zero_memory [Alloc 64 16; Alloc 16 16; Write 0 0 [7; 8; 9]] started with
  | Some s =>
      match mpt_destroy (c_heap s) (Some (c_arena s)) with
      | Some (h, Some a, None) =>
          match div0_arena_alloc bump_malloc zero_memory h a 128 with
          | Some (_, _, Some (p, off)) => c_buffers s = [(p, off + 64, 16, [7; 8; 9] ++ replicate 13 0); (p, off, 64, replicate 64 0)]
          | _ => False
          end
      | _ => False
      end
  | None => False
  end.
Proof. vm_compute. reflexivity. Qed.
