(* ===== verification/ByteString.v ===== *)
(** Byte strings with both backings: include/div0/types/bytes.h and
    src/types/bytes.c.

    [Bytes] has the arena-backed strings as the encoders use them. Here is the
    whole type: the memory behind [data] with its bytes beyond [size], and the
    malloc-backed strings, which grow by doubling. The two allocators are a
    class with the behaviour C documents as laws. *)
From Stdlib Require Import ZArith Lia List Bool.
From S2P Require Import Prelude Arena Bytes.
Import ListNotations.
#[local] Open Scope Z_scope.
#[local] Open Scope word_scope.

(** * Allocators *)

(** [realloc] of the C library and [div0_arena_alloc], with the memory they
    return; [None] is a null pointer. *)
Class Allocator := {
  realloc : option (list Z) -> Z -> option (list Z);
  arena_alloc : Z -> option (list Z) }.

(** A region has the size that was asked for; [realloc] keeps the contents up
    to the smaller of the two sizes; the arena serves 1 to 65536 bytes. *)
Class AllocatorLaws (A : Allocator) := {
  realloc_size p n m : realloc p n = Some m -> 0 <= n -> Z.of_nat (length m) = n;
  realloc_keeps old n m : realloc (Some old) n = Some m -> Z.of_nat (length old) <= n -> firstn (length old) m = old;
  arena_size n m : arena_alloc n = Some m -> 0 <= n -> Z.of_nat (length m) = n;
  arena_limit n : alloc_succeeds n = false -> arena_alloc n = None }.

(** * The type *)

Inductive backing := MallocBacked | ArenaBacked.

Record bytes_t := ByteString { data : option (list Z); size : Z; capacity : Z; arena : backing }.

(** How a call ends: with its result, in the doubling loop for ever, or with
    an access outside [data]. *)
Inductive outcome := Returns (ok : bool) (b : bytes_t) | Diverges | Fault.

Definition MIN_CAPACITY : Z := 32.

Definition bytes_init : bytes_t := ByteString None 0 0 MallocBacked.
Definition bytes_init_arena : bytes_t := ByteString None 0 0 ArenaBacked.
Definition bytes_is_empty (b : bytes_t) : bool := size b =? 0.
Definition bytes_clear (b : bytes_t) : bytes_t := ByteString (data b) 0 (capacity b) (arena b).

Section Operations.
Context {A : Allocator}.

(** [while (new_capacity < capacity) new_capacity *= 2;] A capacity that has
    wrapped to 0 stays 0; 64 rounds are enough to wrap ([grow_ends]). *)
Fixpoint grow_loop (fuel : nat) (new_capacity capacity : Z) : option Z :=
  if new_capacity <? capacity then
    match fuel with
    | O => None
    | S fuel => grow_loop fuel (new_capacity *64 2) capacity
    end
  else Some new_capacity.

Definition grow (new_capacity capacity : Z) : option Z := grow_loop 64 new_capacity capacity.

Definition bytes_reserve (b : bytes_t) (cap : Z) : outcome :=
  if cap <=? capacity b then Returns true b
  else
    match arena b with
    | ArenaBacked =>
        match data b with
        | Some _ => Returns false b
        | None =>
            match arena_alloc cap with
            | None => Returns false b
            | Some m => Returns true (ByteString (Some m) (size b) cap ArenaBacked)
            end
        end
    | MallocBacked =>
        match grow (if capacity b =? 0 then MIN_CAPACITY else capacity b) cap with
        | None => Diverges
        | Some new_capacity =>
            match realloc (data b) new_capacity with
            | None => Returns false b
            | Some new_data => Returns true (ByteString (Some new_data) (size b) new_capacity MallocBacked)
            end
        end
    end.

(** [memcpy(b->data + at, src, len)] within the memory of the string. *)
Definition copy_to (b : bytes_t) (at_ : Z) (src : list Z) (new_size : Z) : outcome :=
  match data b with
  | None => Fault
  | Some m =>
      if at_ + Z.of_nat (length src) <=? Z.of_nat (length m)
      then Returns true (ByteString (Some (firstn (Z.to_nat at_) m ++ src ++ skipn (Z.to_nat at_ + length src) m)) new_size (capacity b) (arena b))
      else Fault
  end.

Definition bytes_from_data (b : bytes_t) (src : option (list Z)) : outcome :=
  match src with
  | None | Some [] => Returns true (bytes_clear b)
  | Some src =>
      match bytes_reserve b (Z.of_nat (length src)) with
      | Returns true b => copy_to b 0 src (Z.of_nat (length src))
      | r => r
      end
  end.

Definition bytes_append (b : bytes_t) (src : option (list Z)) : outcome :=
  match src with
  | None | Some [] => Returns true b
  | Some src =>
      let new_size := size b +64 Z.of_nat (length src) in
      if new_size <? size b then Returns false b
      else
        match bytes_reserve b new_size with
        | Returns true b => copy_to b (size b) src new_size
        | r => r
        end
  end.

Definition bytes_append_byte (b : bytes_t) (byte : Z) : outcome := bytes_append b (Some [byte]).

(** [free] in the malloc-backed case; the arena keeps its memory. *)
Definition bytes_free (b : bytes_t) : bytes_t := ByteString None 0 0 (arena b).
End Operations.

(** * The doubling loop *)

Lemma grow_reaches j c : forall fuel i, c <= 2 ^ j -> 0 <= i <= j -> j <= 63 -> (Z.to_nat (j - i) <= fuel)%nat ->
  exists k, grow_loop fuel (2 ^ i) c = Some (2 ^ k) /\ i <= k <= j /\ c <= 2 ^ k.
Proof.
  induction fuel as [|fuel IH]; intros i Hc Hi Hj Hf; cbn [grow_loop].
  - assert (i = j) as -> by lia. rewrite (proj2 (Z.ltb_ge _ _)) by lia. exists j. split; [reflexivity | lia].
  - destruct (Z.ltb_spec (2 ^ i) c) as [L|G]; [|exists i; split; [reflexivity | lia]].
    assert (i < j) by (destruct (Z.eq_dec i j) as [->|]; lia).
    unfold mul64. replace (2 ^ i * 2) with (2 ^ (i + 1)) by (rewrite Z.pow_add_r by lia; reflexivity).
    rewrite w64_small by (unfold u64; split; [apply Z.pow_nonneg; lia | apply Z.pow_lt_mono_r; lia]).
    destruct (IH (i + 1)) as (k & E & Hk & Hc'); [lia | lia | lia | lia |]. exists k. split; [exact E | lia].
Qed.

(** A request above the last power of two wraps the loop variable to 0. *)
Lemma grow_zero c fuel : 0 < c -> grow_loop fuel 0 c = None.
Proof. intros Hc. induction fuel; cbn [grow_loop]; rewrite (proj2 (Z.ltb_lt _ _)) by lia; [reflexivity | exact IHfuel]. Qed.

Lemma grow_never c : 2 ^ 63 < c -> forall fuel i, 0 <= i <= 63 -> grow_loop fuel (2 ^ i) c = None.
Proof.
  intros Hc. induction fuel as [|fuel IH]; intros i Hi; cbn [grow_loop].
  - rewrite (proj2 (Z.ltb_lt _ _)); [reflexivity|]. apply Z.le_lt_trans with (2 ^ 63); [apply Z.pow_le_mono_r; lia | lia].
  - rewrite (proj2 (Z.ltb_lt _ _)) by (apply Z.le_lt_trans with (2 ^ 63); [apply Z.pow_le_mono_r; lia | lia]).
    unfold mul64. replace (2 ^ i * 2) with (2 ^ (i + 1)) by (rewrite Z.pow_add_r by lia; reflexivity).
    destruct (Z.eq_dec i 63) as [->|]; [apply grow_zero; lia|].
    rewrite w64_small by (unfold u64; split; [apply Z.pow_nonneg; lia | apply Z.pow_lt_mono_r; lia]). apply IH. lia.
Qed.

(** * Invariant and contents *)

Record string_ok (b : bytes_t) : Prop := {
  so_size : 0 <= size b <= capacity b;
  so_capacity : capacity b < 2 ^ 64;
  so_null : data b = None -> capacity b = 0;
  so_memory m : data b = Some m -> Z.of_nat (length m) = capacity b;
  so_power : arena b = MallocBacked -> capacity b = 0 \/ exists k, 5 <= k <= 63 /\ capacity b = 2 ^ k }.

Definition contents (b : bytes_t) : list Z := match data b with None => [] | Some m => firstn (Z.to_nat (size b)) m end.

(** What a call promises: on success [good] of the new string; a failure
    leaves the string as it was; only a malloc-backed string that is asked for
    more than 2^63 bytes loops. *)
Definition ends (b : bytes_t) (needed : Z) (good : bytes_t -> Prop) (r : outcome) : Prop :=
  match r with
  | Returns true b' => good b'
  | Returns false b' => b' = b
  | Diverges => arena b = MallocBacked /\ 2 ^ 63 < needed
  | Fault => False
  end.

Lemma init_string_ok a : string_ok (ByteString None 0 0 a).
Proof. split; cbn; try lia; try discriminate; auto. Qed.

Lemma contents_length b : string_ok b -> Z.of_nat (length (contents b)) = size b.
Proof.
  intros [S C N M P]. unfold contents. destruct (data b) as [m|] eqn:E; [|rewrite (N eq_refl) in S; cbn; lia].
  rewrite length_firstn. specialize (M m eq_refl). lia.
Qed.

Section Laws.
Context {A : Allocator} {L : AllocatorLaws A}.

Lemma grow_string b cap : string_ok b -> arena b = MallocBacked -> capacity b < cap ->
  match grow (if capacity b =? 0 then MIN_CAPACITY else capacity b) cap with
  | None => 2 ^ 63 < cap
  | Some c => cap <= c /\ exists k, 5 <= k <= 63 /\ c = 2 ^ k
  end.
Proof.
  intros [S C N M P] Ar Hc. assert (exists k, 5 <= k <= 63 /\ (if capacity b =? 0 then MIN_CAPACITY else capacity b) = 2 ^ k) as (k & Hk & ->).
  { destruct (Z.eqb_spec (capacity b) 0); [exists 5; split; [lia | reflexivity]|]. destruct (P Ar) as [|(k & Hk & E)]; [lia|]. eauto. }
  unfold grow. destruct (Z.le_gt_cases cap (2 ^ 63)) as [Le|Gt].
  - destruct (grow_reaches 63 cap 64 k) as (j & -> & Hj & Hc'); [lia | lia | lia | lia |]. split; [exact Hc'|]. exists j. split; [lia | reflexivity].
  - rewrite grow_never by lia. exact Gt.
Qed.

Lemma reserve_ends b cap : string_ok b -> 0 <= cap < 2 ^ 64 ->
  ends b cap (fun b' => string_ok b' /\ contents b' = contents b /\ size b' = size b /\ arena b' = arena b /\ cap <= capacity b') (bytes_reserve b cap).
Proof.
  intros Ok Hc. pose proof Ok as [S C N M P]. unfold bytes_reserve. destruct (Z.leb_spec cap (capacity b)) as [Le|Gt]; [cbn; auto 6|].
  destruct (arena b) eqn:Ar.
  - pose proof (grow_string b cap Ok Ar Gt) as G. destruct (grow _ cap) as [c|]; [|cbn; auto]. destruct G as [Gc (k & Hk & Ek)].
    destruct (realloc (data b) c) as [m|] eqn:Er; [|reflexivity]. pose proof (realloc_size _ _ _ Er ltac:(lia)) as Lm.
    assert (c < 2 ^ 64) by (rewrite Ek; apply Z.pow_lt_mono_r; lia).
    assert (Ct : contents (ByteString (Some m) (size b) c MallocBacked) = contents b).
    { unfold contents. cbn [data size]. destruct (data b) as [old|] eqn:Ed.
      - rewrite <- (realloc_keeps old c m Er) by (rewrite (M old eq_refl); lia). rewrite firstn_firstn. f_equal. specialize (M old eq_refl). lia.
      - rewrite (N eq_refl) in S. replace (size b) with 0 by lia. reflexivity. }
    cbn [ends]. split; [|cbn; auto]. split; cbn; try lia; try discriminate; [intros ? [= <-]; exact Lm | intros _; right; eauto].
  - destruct (data b) as [old|] eqn:Ed; [reflexivity|]. destruct (arena_alloc cap) as [m|] eqn:Ea; [|reflexivity].
    pose proof (arena_size _ _ Ea ltac:(lia)) as Lm. rewrite (N eq_refl) in S. cbn [ends]. split; [|split].
    + split; cbn; try lia; try discriminate. intros ? [= <-]. exact Lm.
    + unfold contents. cbn [data size]. rewrite Ed. replace (size b) with 0 by lia. reflexivity.
    + cbn. auto with zarith.
Qed.

Lemma copy_ok b at_ src : string_ok b -> 0 <= at_ <= size b -> src <> [] -> at_ + Z.of_nat (length src) <= capacity b ->
  exists b', copy_to b at_ src (at_ + Z.of_nat (length src)) = Returns true b' /\ string_ok b' /\ arena b' = arena b /\
    contents b' = firstn (Z.to_nat at_) (contents b) ++ src.
Proof.
  intros [S C N M P] Ha Ns Fit. unfold copy_to. assert (0 < Z.of_nat (length src)) by (destruct src; [congruence | cbn; lia]).
  destruct (data b) as [m|] eqn:Ed; [|specialize (N eq_refl); lia]. specialize (M m eq_refl).
  rewrite (proj2 (Z.leb_le _ _)) by lia. eexists. split; [reflexivity|]. split; [|split; [reflexivity|]].
  - split; cbn; try lia; [discriminate | | exact P]. intros ? [= <-]. rewrite !length_app, length_firstn, length_skipn. lia.
  - unfold contents. cbn [data size]. rewrite Ed, firstn_firstn, Nat.min_l by lia.
    rewrite firstn_app, length_firstn. rewrite firstn_all2 by (rewrite length_firstn; lia). f_equal.
    rewrite firstn_app, firstn_all2 by lia. replace (_ - _ - _)%nat with O by lia. rewrite firstn_O. apply app_nil_r.
Qed.

Lemma append_ends b src : string_ok b -> Z.of_nat (length src) < 2 ^ 64 ->
  ends b (size b + Z.of_nat (length src)) (fun b' => string_ok b' /\ contents b' = contents b ++ src /\ arena b' = arena b) (bytes_append b (Some src)).
Proof.
  intros Ok Hl. unfold bytes_append. destruct src as [|x src]; [cbn; rewrite app_nil_r; auto|]. set (s := x :: src) in *.
  pose proof Ok as [S C _ _ _]. assert (Ns : s <> []) by discriminate. unfold add64. destruct (Z.ltb_spec (w64 (size b + Z.of_nat (length s))) (size b)) as [W|W]; [reflexivity|].
  assert (R : size b + Z.of_nat (length s) < 2 ^ 64).
  { apply Z.nle_gt. intros Ge. unfold w64 in W. rewrite <- (Z_mod_plus_full _ (-1)), Z.mod_small in W by lia. lia. }
  rewrite w64_small by (unfold u64; lia). pose proof (reserve_ends b _ Ok (conj (Z.add_nonneg_nonneg _ _ (proj1 S) (Zle_0_nat (length s))) R)) as E.
  destruct (bytes_reserve b _) as [[|] b1| |]; cbn [ends] in E |- *; try exact E.
  destruct E as (Ok1 & C1 & S1 & A1 & Cap). rewrite <- S1.
  destruct (copy_ok b1 (size b1) s Ok1 ltac:(destruct Ok1; lia) Ns ltac:(lia)) as (b' & -> & Ok' & A' & C'). cbn [ends].
  split; [exact Ok'|]. split; [|congruence]. rewrite C', firstn_all2, C1; [reflexivity|]. pose proof (contents_length b1 Ok1). lia.
Qed.

Lemma from_data_ends b src : string_ok b -> Z.of_nat (length src) < 2 ^ 64 ->
  ends b (Z.of_nat (length src)) (fun b' => string_ok b' /\ contents b' = src /\ arena b' = arena b) (bytes_from_data b (Some src)).
Proof.
  intros Ok Hl. unfold bytes_from_data. destruct src as [|x src].
  { cbn. pose proof Ok as [S C N M P]. split; [split; cbn; auto; lia|]. split; [|reflexivity]. unfold contents; cbn. destruct (data b); reflexivity. }
  set (s := x :: src) in *. assert (Ns : s <> []) by discriminate.
  pose proof (reserve_ends b (Z.of_nat (length s)) Ok ltac:(lia)) as E.
  destruct (bytes_reserve b _) as [[|] b1| |]; cbn [ends] in E |- *; try exact E. destruct E as (Ok1 & C1 & S1 & A1 & Cap).
  destruct (copy_ok b1 0 s Ok1 ltac:(destruct Ok1; lia) Ns ltac:(lia)) as (b' & E' & Ok' & A' & C'). rewrite Z.add_0_l in E'. rewrite E'. cbn [ends].
  split; [exact Ok'|]. split; [exact C' | congruence].
Qed.
End Laws.

(** * Sequences of calls *)

Inductive string_op := Append (d : list Z) | AppendByte (x : Z) | FromData (d : list Z) | Reserve (n : Z) | Clear | Free.

Definition string_exec {A : Allocator} (op : string_op) (b : bytes_t) : outcome :=
  match op with
  | Append d => bytes_append b (Some d)
  | AppendByte x => bytes_append_byte b x
  | FromData d => bytes_from_data b (Some d)
  | Reserve n => bytes_reserve b n
  | Clear => Returns true (bytes_clear b)
  | Free => Returns true (bytes_free b)
  end.

(** The results of the calls and the final string. *)
Fixpoint string_run {A : Allocator} (ops : list string_op) (b : bytes_t) : option (list bool * bytes_t) :=
  match ops with
  | [] => Some ([], b)
  | op :: ops =>
      match string_exec op b with
      | Returns ok b => match string_run ops b with Some (oks, b) => Some (ok :: oks, b) | None => None end
      | _ => None
      end
  end.

(** The specification: a list of bytes; a call that returned false did nothing. *)
Definition spec_op (op : string_op) (ok : bool) (c : list Z) : list Z :=
  if ok then
    match op with
    | Append d => c ++ d
    | AppendByte x => c ++ [x]
    | FromData d => d
    | Reserve _ => c
    | Clear | Free => []
    end
  else c.

Fixpoint spec_ops (ops : list string_op) (oks : list bool) (c : list Z) : list Z :=
  match ops, oks with
  | op :: ops, ok :: oks => spec_ops ops oks (spec_op op ok c)
  | _, _ => c
  end.

(** The most bytes the calls can ask for. *)
Definition op_bytes (op : string_op) : Z :=
  match op with
  | Append d | FromData d => Z.of_nat (length d)
  | AppendByte _ => 1
  | Reserve n => n
  | Clear | Free => 0
  end.

Definition total_bytes (ops : list string_op) : Z := fold_right (fun op n => op_bytes op + n) 0 ops.

Section Runs.
Context {A : Allocator} {L : AllocatorLaws A}.

Lemma exec_ends op b : string_ok b -> 0 <= op_bytes op -> size b + op_bytes op <= 2 ^ 63 ->
  exists ok b', string_exec op b = Returns ok b' /\ string_ok b' /\ contents b' = spec_op op ok (contents b) /\ arena b' = arena b /\
    size b' <= size b + op_bytes op.
Proof.
  intros Ok H0 Hb. pose proof Ok as [S C N M P].
  assert (From : forall needed good r (d : bool -> list Z), ends b needed good r -> needed <= 2 ^ 63 -> d false = contents b ->
    (forall b', good b' -> string_ok b' /\ contents b' = d true /\ arena b' = arena b) ->
    exists ok b', r = Returns ok b' /\ string_ok b' /\ contents b' = d ok /\ arena b' = arena b).
  { intros needed good r d E Hn Hd G. destruct r as [[|] b'| |]; cbn in E; [| |lia|contradiction].
    - exists true, b'. destruct (G _ E) as (G1 & G2 & G3). auto.
    - subst b'. exists false, b. auto. }
  assert (Sized : forall ok b', string_ok b' -> contents b' = spec_op op ok (contents b) -> size b' <= size b + op_bytes op).
  { intros ok b' Ok' Ec. pose proof (contents_length b' Ok') as Lb. pose proof (contents_length b Ok) as Lc. rewrite Ec in Lb. rewrite <- Lb, <- Lc.
    destruct ok, op; cbn [spec_op op_bytes] in *; rewrite ?length_app; cbn [length]; lia. }
  enough (exists ok b', string_exec op b = Returns ok b' /\ string_ok b' /\ contents b' = spec_op op ok (contents b) /\ arena b' = arena b) as (ok & b' & E & Ok' & Ec & Ea).
  { exists ok, b'. repeat (split; [assumption|]). eauto. }
  destruct op as [d|x|d|n| |]; cbn [string_exec op_bytes] in *.
  - eapply (From _ _ _ (fun ok => spec_op (Append d) ok (contents b)) (append_ends b d Ok ltac:(lia))); [lia | reflexivity | auto].
  - eapply (From _ _ _ (fun ok => spec_op (AppendByte x) ok (contents b)) (append_ends b [x] Ok ltac:(cbn; lia))); [cbn; lia | reflexivity | auto].
  - eapply (From _ _ _ (fun ok => spec_op (FromData d) ok (contents b)) (from_data_ends b d Ok ltac:(lia))); [lia | reflexivity | auto].
  - eapply (From _ _ _ (fun ok => spec_op (Reserve n) ok (contents b)) (reserve_ends b n Ok ltac:(lia))); [lia | reflexivity | tauto].
  - exists true. eexists. split; [reflexivity|]. split; [split; cbn; auto; lia|]. split; [|reflexivity]. unfold contents; cbn. destruct (data b); reflexivity.
  - exists true. eexists. split; [reflexivity|]. split; [apply init_string_ok|]. split; reflexivity.
Qed.

Lemma copy_true b at_ src n b' : copy_to b at_ src n <> Returns false b'.
Proof. unfold copy_to. destruct (data b); [destruct (_ <=? _)|]; discriminate. Qed.

(** When [realloc] never fails, neither does a call. *)
Lemma exec_true op b b' : string_ok b -> arena b = MallocBacked -> (forall p n, realloc p n <> None) -> 0 <= op_bytes op -> size b + op_bytes op <= 2 ^ 63 ->
  string_exec op b <> Returns false b'.
Proof.
  intros [S _ _ _ _] Ar Re H0 Hb.
  assert (Rs : forall n b', bytes_reserve b n <> Returns false b').
  { intros n b0. unfold bytes_reserve. destruct (n <=? capacity b); [discriminate|]. rewrite Ar. destruct (grow _ n) as [c|]; [|discriminate].
    destruct (realloc (data b) c) eqn:R; [discriminate|]. destruct (Re _ _ R). }
  assert (Ap : forall d, size b + Z.of_nat (length d) <= 2 ^ 63 -> bytes_append b (Some d) <> Returns false b').
  { intros [|x d] Hd; [discriminate|]. unfold bytes_append, add64. rewrite w64_small by (unfold u64; lia). rewrite (proj2 (Z.ltb_ge _ _)) by lia.
    destruct (bytes_reserve b _) as [[|] b1| |] eqn:E; try discriminate; [apply copy_true | destruct (Rs _ _ E)]. }
  destruct op as [d|x|d|n| |]; cbn [string_exec op_bytes] in *; try discriminate.
  - apply Ap. exact Hb.
  - apply Ap. exact Hb.
  - destruct d as [|x d]; [discriminate|]. unfold bytes_from_data. destruct (bytes_reserve b _) as [[|] b1| |] eqn:E; try discriminate; [apply copy_true | destruct (Rs _ _ E)].
  - apply Rs.
Qed.

(** C38: Byte strings refine byte lists. From any well-formed string, malloc- or
    arena-backed, every sequence of appends, assignments, reservations, clears
    and frees of less than 2^63 bytes in all ends without an access outside the
    string's memory; a call that returns false has changed nothing, and the
    contents are those of the specification on lists. A malloc-backed string
    whose [realloc] never fails returns true throughout. *)
Theorem strings_refine_lists ops b : string_ok b -> Forall (fun op => 0 <= op_bytes op) ops -> size b + total_bytes ops <= 2 ^ 63 ->
  exists oks b', string_run ops b = Some (oks, b') /\ string_ok b' /\ contents b' = spec_ops ops oks (contents b) /\
    (arena b = MallocBacked -> (forall p n, realloc p n <> None) -> Forall (fun ok => ok = true) oks).
Proof.
  revert b. induction ops as [|op ops IH]; intros b Ok F Hb.
  - exists [], b. repeat split; try apply Ok. constructor.
  - inversion_clear F as [|? ? F0 Fs]. cbn [total_bytes fold_right] in Hb. fold (total_bytes ops) in Hb.
    assert (0 <= total_bytes ops) by (clear -Fs; induction Fs as [|o l Ho _ IH]; cbn; [lia|]; fold (total_bytes l); lia).
    destruct (exec_ends op b Ok F0 ltac:(lia)) as (ok & b1 & E & Ok1 & C1 & A1 & S1).
    destruct (IH b1 Ok1 Fs ltac:(lia)) as (oks & b2 & E2 & Ok2 & C2 & Tr). exists (ok :: oks), b2. cbn [string_run spec_ops]. rewrite E, E2.
    split; [reflexivity|]. split; [exact Ok2|]. split; [rewrite C2, C1; reflexivity|]. intros Ar Re. constructor; [|apply Tr; congruence].
    destruct ok; [reflexivity|]. destruct (exec_true op b b1 Ok Ar Re F0 ltac:(lia) E).
Qed.
End Runs.

(** A request beyond 2^63 bytes is not refused: the doubling loop wraps to 0
    and never ends, whatever number of rounds it is given. *)
Lemma reserve_hangs fuel cap : 2 ^ 63 < cap < 2 ^ 64 -> grow_loop fuel MIN_CAPACITY cap = None.
Proof. intros H. exact (grow_never cap (proj1 H) fuel 5 ltac:(lia)). Qed.

(** * The arena-backed strings of [Bytes]

    While the arena has memory, an arena-backed string behaves as the simpler
    model the encoders are verified with. *)
Definition view (b : bytes_t) : Bytes.bytes_t :=
  Bytes.Bytes (contents b) (capacity b) (match data b with Some _ => true | None => false end).

Section Agree.
Context {A : Allocator} {L : AllocatorLaws A} (Memory : forall n, alloc_succeeds n = true -> arena_alloc n <> None).

Lemma view_reserve b cap : string_ok b -> arena b = ArenaBacked -> 0 <= cap < 2 ^ 64 ->
  exists ok b', bytes_reserve b cap = Returns ok b' /\ Bytes.bytes_reserve (view b) cap = (ok, view b').
Proof.
  intros Ok Ar Hc. pose proof (reserve_ends b cap Ok Hc) as E. pose proof Ok as [S _ N _ _]. unfold bytes_reserve, Bytes.bytes_reserve in *. cbn [view b_capacity b_alloc b_data].
  destruct (cap <=? capacity b); [eauto|]. rewrite Ar in *. destruct (data b) as [m|] eqn:Ed; [do 2 eexists; split; [reflexivity|]; unfold view; rewrite Ed; reflexivity|].
  destruct (arena_alloc cap) as [m|] eqn:Ea.
  - do 2 eexists. split; [reflexivity|]. destruct (alloc_succeeds cap) eqn:G; [|rewrite (arena_limit cap G) in Ea; discriminate].
    cbn [ends] in E. destruct E as (_ & C & _). unfold view. cbn [data capacity]. rewrite C. reflexivity.
  - do 2 eexists. split; [reflexivity|]. destruct (alloc_succeeds cap) eqn:G; [destruct (Memory cap G Ea)|]. unfold view. rewrite Ed. reflexivity.
Qed.

Lemma view_append b src : string_ok b -> arena b = ArenaBacked -> Z.of_nat (length src) < 2 ^ 64 ->
  exists ok b', bytes_append b (Some src) = Returns ok b' /\ Bytes.bytes_append (view b) src = (ok, view b').
Proof.
  intros Ok Ar Hl. pose proof (append_ends b src Ok Hl) as E. pose proof (contents_length b Ok) as Lc. unfold bytes_append, Bytes.bytes_append in *.
  destruct src as [|x src]; [do 2 eexists; split; reflexivity|]. set (s := x :: src) in *.
  rewrite (proj2 (Z.eqb_neq (Z.of_nat (length s)) 0)) by (cbn; lia).
  assert (Sz : b_size (view b) = size b) by exact Lc. rewrite Sz. destruct (_ <? size b); [do 2 eexists; split; reflexivity|].
  destruct (view_reserve b (size b +64 Z.of_nat (length s)) Ok Ar (w64_range _)) as (ok & b1 & E1 & E2). rewrite E1 in *. rewrite E2.
  destruct ok; [|eauto]. pose proof (reserve_ends b _ Ok (w64_range (size b + Z.of_nat (length s)))) as R. unfold add64 in E1. rewrite E1 in R. cbn [ends] in R.
  destruct R as (Ok1 & C1 & S1 & A1 & Cap). unfold copy_to in *. destruct (data b1) as [m|] eqn:Ed; [|destruct E].
  destruct (_ <=? _); [|destruct E]. do 2 eexists. split; [reflexivity|]. cbn [ends] in E. destruct E as (_ & C & _).
  unfold view. cbn [data capacity b_data b_capacity b_alloc]. rewrite C, Ed, C1. reflexivity.
Qed.
End Agree.

(** * A concrete allocator *)

Definition resize (m : list Z) (n : Z) : list Z := firstn (Z.to_nat n) m ++ repeat 0 (Z.to_nat n - length m).

#[export] Instance zeroing : Allocator := {
  realloc p n := Some (resize (match p with Some m => m | None => [] end) n);
  arena_alloc n := if alloc_succeeds n then Some (repeat 0 (Z.to_nat n)) else None }.

Lemma resize_length m n : 0 <= n -> Z.of_nat (length (resize m n)) = n.
Proof. intros H. unfold resize. rewrite length_app, length_firstn, repeat_length. lia. Qed.

#[export] Instance zeroing_laws : AllocatorLaws zeroing.
Proof.
  split.
  - intros p n m [= <-] H. apply resize_length, H.
  - intros old n m [= <-] H. unfold resize. rewrite (firstn_all2 (n := Z.to_nat n)) by lia. rewrite firstn_app, Nat.sub_diag, firstn_all, firstn_O. apply app_nil_r.
  - intros n m. cbn. destruct (alloc_succeeds n); intros [= <-] H. rewrite repeat_length. lia.
  - intros n H. cbn. rewrite H. reflexivity.
Qed.

Lemma strings_refine_lists_witness : let ops := [Append [1; 2; 3]; AppendByte 4; Reserve 40; FromData (repeat 7 33); Append [8]; Free; AppendByte 9] in
  exists oks b', string_run ops bytes_init = Some (oks, b') /\ string_ok b' /\ contents b' = spec_ops ops oks [] /\ contents b' = [9] /\ Forall (fun ok => ok = true) oks.
Proof.
  intros ops. destruct (strings_refine_lists ops bytes_init (init_string_ok MallocBacked) ltac:(repeat apply Forall_cons; try apply Forall_nil; cbn; lia) ltac:(cbv; discriminate))
    as (oks & b' & E & Ok & C & T). exists oks, b'. split; [exact E|]. split; [exact Ok|]. split; [exact C|].
  split; [|exact (T eq_refl ltac:(discriminate))]. vm_compute in E. injection E as <- <-. reflexivity.
Defined.
