(* ===== verification/CrashHandler.v ===== *)
(** The crash handler: src/cli/crash_handler.c.

    A process is what it has written to standard error, what it does on
    signals, and the signals it has raised. libbacktrace and the system calls
    are parameters. *)
From Stdlib Require Import ZArith Lia List Bool String.
From S2P Require Import Prelude Hex.
Import ListNotations.
#[local] Open Scope Z_scope.

(** * Signals *)

Inductive signal := SIGSEGV | SIGABRT | SIGFPE | SIGBUS | SIGILL | OtherSignal (n : Z).

Definition signal_eqb (a b : signal) : bool :=
  match a, b with
  | SIGSEGV, SIGSEGV | SIGABRT, SIGABRT | SIGFPE, SIGFPE | SIGBUS, SIGBUS | SIGILL, SIGILL => true
  | OtherSignal n, OtherSignal m => n =? m
  | _, _ => false
  end.

(** [SIG_DFL], or the handler of this file for one signal ([SA_RESETHAND]). *)
Inductive disposition := SIG_DFL | CrashHandlerOnce.

Record process := Process { stderr_text : cstr; on_signal : list (signal * disposition); raised : list signal }.

Fixpoint disposition_of (l : list (signal * disposition)) (s : signal) : disposition :=
  match l with
  | [] => SIG_DFL
  | (t, d) :: l => if signal_eqb t s then d else disposition_of l s
  end.

Definition set_disposition (s : signal) (d : disposition) (p : process) : process :=
  Process (stderr_text p) ((s, d) :: on_signal p) (raised p).

(** * Writing *)

(** Standard error takes the whole message: the result of [write] is not looked
    at, and a write that is cut short is outside the model. *)
Definition write_stderr (msg : cstr) (p : process) : process := Process (stderr_text p ++ msg) (on_signal p) (raised p).

(** The digits of [val] from the right end of [buf], [*--p] at a time. [None]:
    the pointer has left the buffer. *)
Fixpoint put_digits (fuel : nat) (val : Z) (buf : list Z) (p : nat) : option (list Z * nat) :=
  match fuel with
  | O => None
  | S fuel =>
      if val >? 0 then
        match p with
        | O => None
        | S p => put_digits fuel (val / 10) (aset buf p (w8 (48 + val mod 10))) p
        end
      else Some (buf, p)
  end.

(** The string at [p], up to its terminator. *)
Fixpoint c_string (s : list Z) : cstr :=
  match s with
  | [] => []
  | c :: s => if c =? 0 then [] else c :: c_string s
  end.

Definition UINT_BUFFER : nat := 16.

(** [garbage]: what is in the buffer before. *)
Definition format_uint (garbage : list Z) (val : Z) : option cstr :=
  let p := (UINT_BUFFER - 1)%nat in
  let buf := aset garbage p 0 in
  if val =? 0 then Some (c_string (skipn (p - 1) (aset buf (p - 1) 48)))
  else match put_digits UINT_BUFFER val buf p with Some (buf, p) => Some (c_string (skipn p buf)) | None => None end.

Definition write_stderr_uint (garbage : list Z) (val : Z) (p : process) : option process :=
  option_map (fun s => write_stderr s p) (format_uint garbage val).

(** * Decimal numbers *)

Definition decimal (s : cstr) : Z := fold_left (fun v c => v * 10 + (c - 48)) s 0.
Definition is_digit (c : Z) : Prop := 48 <= c <= 57.

Lemma c_string_digits s : Forall is_digit s -> c_string (s ++ [0]) = s.
Proof.
  unfold is_digit. induction 1 as [|c s Hc _ IH]; [reflexivity|]. cbn [app c_string]. rewrite (proj2 (Z.eqb_neq _ _)) by lia. f_equal. exact IH.
Qed.

Lemma skipn_aset l : forall i v, (i < List.length l)%nat -> skipn i (aset l i v) = v :: skipn (S i) l.
Proof. induction l as [|x l IH]; intros [|i] v H; cbn in H |- *; try lia; [reflexivity|]. apply IH. lia. Qed.

(** Leading zeros are not written. *)
Definition no_leading_zero (s : cstr) : Prop := match s with c :: _ :: _ => c <> 48 | _ => True end.

Lemma put_digits_spec fuel : forall val buf p ds, 0 <= val < 10 ^ Z.of_nat p -> (p < fuel)%nat -> (p < List.length buf)%nat -> skipn p buf = ds ++ [0] ->
  exists buf' p' new, put_digits fuel val buf p = Some (buf', p') /\ skipn p' buf' = new ++ ds ++ [0] /\
    Forall is_digit new /\ decimal new = val /\ (0 < val -> exists c rest, new = c :: rest /\ c <> 48).
Proof.
  induction fuel as [|fuel IH]; intros val buf p ds Hv Hf Hb Hs; [lia|]. cbn [put_digits].
  destruct (Z.gtb_spec val 0) as [Pos|Zero].
  2:{ exists buf, p, []. split; [reflexivity|]. split; [exact Hs|]. split; [constructor|]. split; [cbn; lia | lia]. }
  destruct p as [|p]; [change (10 ^ Z.of_nat 0) with 1 in Hv; lia|]. set (d := w8 (48 + val mod 10)).
  pose proof (Z.mod_pos_bound val 10 ltac:(lia)) as Md. assert (Ed : d = 48 + val mod 10) by (unfold d, w8; apply Z.mod_small; lia).
  pose proof (Z.div_mod val 10 ltac:(lia)) as Dm.
  destruct (IH (val / 10) (aset buf p d) p (d :: ds)) as (buf' & p' & new & E & Sk & Dg & Dc & Ld).
  - rewrite Nat2Z.inj_succ, Z.pow_succ_r in Hv by lia. split; [apply Z.div_pos; lia | apply Z.div_lt_upper_bound; lia].
  - lia.
  - rewrite length_aset. lia.
  - rewrite skipn_aset, Hs by lia. reflexivity.
  - exists buf', p', (new ++ [d]). split; [exact E|]. split; [rewrite Sk, <- app_assoc; reflexivity|].
    split; [apply Forall_app; split; [exact Dg | constructor; [unfold is_digit; lia | constructor]]|].
    split; [unfold decimal in *; rewrite fold_left_app, Dc; cbn [fold_left]; lia|]. intros _.
    destruct (Z.le_gt_cases val 9) as [Sm|Bg].
    + exists d. assert (V0 : val / 10 = 0) by (apply Z.div_small; lia). assert (new = []) as ->.
      { destruct fuel; [lia|]. cbn [put_digits] in E. rewrite V0 in E. cbn in E. injection E as <- <-. rewrite skipn_aset, Hs in Sk by lia.
        apply (app_inv_tail ((d :: ds) ++ [0]) new []). exact (eq_sym Sk). }
      exists []. split; [reflexivity|]. rewrite Ed, Z.mod_small by lia. lia.
    + destruct Ld as (c & rest & -> & Nc); [apply Z.div_str_pos; lia|]. exists c, (rest ++ [d]). split; [reflexivity | exact Nc].
Qed.

Lemma format_uint_spec garbage val : List.length garbage = UINT_BUFFER -> 0 <= val < 2 ^ 32 ->
  exists s, format_uint garbage val = Some s /\ Forall is_digit s /\ decimal s = val /\ no_leading_zero s /\ s <> [].
Proof.
  intros Lg Hv. unfold format_uint. change (UINT_BUFFER - 1)%nat with 15%nat. unfold UINT_BUFFER in *.
  assert (S15 : skipn 15 (aset garbage 15 0) = [0]) by (rewrite skipn_aset, skipn_all2 by lia; reflexivity).
  destruct (Z.eqb_spec val 0) as [->|N].
  - exists [48]. change (15 - 1)%nat with 14%nat. rewrite skipn_aset, S15 by (rewrite length_aset; lia). cbn.
    split; [reflexivity|]. split; [constructor; [unfold is_digit; lia | constructor]|]. split; [reflexivity|]. split; [exact I | discriminate].
  - destruct (put_digits_spec 16 val (aset garbage 15 0) 15 []) as (buf & p & new & -> & Sk & Dg & Dc & Ld); [cbn; lia | lia | rewrite length_aset; lia | exact S15 |].
    exists new. rewrite Sk. cbn [app]. rewrite c_string_digits by exact Dg. split; [reflexivity|]. split; [exact Dg|]. split; [exact Dc|].
    destruct Ld as (c & rest & -> & Nc); [lia|]. split; [destruct rest; [exact I | exact Nc] | discriminate].
Qed.

(** * The handler *)

(** What libbacktrace calls back with: a frame, or an error. *)
Inductive backtrace_event := BtFrame (filename : option cstr) (lineno : Z) (function : option cstr) | BtError (msg : cstr).

Section Handler.
(** The buffer of each conversion starts with whatever is on the stack. *)
Variable garbage : list Z.

Definition NEWLINE : cstr := [10].
Definition RULE : cstr := repeat 61 80 ++ NEWLINE.
Definition or_unknown (s : option cstr) : cstr := match s with Some s => s | None => lit "??" end.

Definition error_callback (msg : cstr) (p : process) : process :=
  write_stderr NEWLINE (write_stderr msg (write_stderr (lit "  backtrace error: ") p)).

(** With the frame number after the call and the value returned. *)
Definition full_callback (frame_num : Z) (filename : option cstr) (lineno : Z) (function : option cstr) (p : process) : option (process * Z * Z) :=
  let p := write_stderr (lit "  #") p in
  match write_stderr_uint garbage (frame_num mod 2 ^ 32) p with
  | None => None
  | Some p =>
      let p := write_stderr (lit " ") p in
      let p := write_stderr (or_unknown function) p in
      let p := write_stderr (lit " at ") p in
      let p := write_stderr (or_unknown filename) p in
      let p := write_stderr (lit ":") p in
      match write_stderr_uint garbage (if lineno >=? 0 then lineno else 0) p with
      | None => None
      | Some p => Some (write_stderr NEWLINE p, frame_num + 1, 0)
      end
  end.

(** [backtrace_full] of libbacktrace calls back for each event in turn, until a
    call returns something else than zero. *)
Fixpoint backtrace_full (events : list backtrace_event) (frame_num : Z) (p : process) : option process :=
  match events with
  | [] => Some p
  | BtError msg :: events => backtrace_full events frame_num (error_callback msg p)
  | BtFrame filename lineno function :: events =>
      match full_callback frame_num filename lineno function p with
      | None => None
      | Some (p, frame_num, returned) => if returned =? 0 then backtrace_full events frame_num p else Some p
      end
  end.

Definition sig_name (sig : signal) : cstr :=
  match sig with
  | SIGSEGV => lit "SIGSEGV (Segmentation fault)"
  | SIGABRT => lit "SIGABRT (Aborted)"
  | SIGFPE => lit "SIGFPE (Floating point exception)"
  | SIGBUS => lit "SIGBUS (Bus error)"
  | SIGILL => lit "SIGILL (Illegal instruction)"
  | OtherSignal _ => lit "UNKNOWN"
  end.

(** [trace]: what libbacktrace finds, if its state is not null. *)
Definition crash_handler (trace : option (list backtrace_event)) (sig : signal) (p : process) : option process :=
  let p := write_stderr NEWLINE p in
  let p := write_stderr RULE p in
  let p := write_stderr (lit "CRASH DETECTED" ++ NEWLINE) p in
  let p := write_stderr RULE p in
  let p := write_stderr (lit "Signal: ") p in
  let p := write_stderr (sig_name sig) p in
  let p := write_stderr (NEWLINE ++ NEWLINE) p in
  let p := write_stderr (lit "Stack trace:" ++ NEWLINE) p in
  match match trace with
        | Some events => backtrace_full events 0 p
        | None => Some (write_stderr (lit "  (backtrace not available)" ++ NEWLINE) p)
        end with
  | None => None
  | Some p =>
      let p := write_stderr NEWLINE p in
      let p := write_stderr (lit "For core dump, ensure: ulimit -c unlimited" ++ NEWLINE) p in
      let p := write_stderr RULE p in
      let p := set_disposition sig SIG_DFL p in
      Some (Process (stderr_text p) (on_signal p) (sig :: raised p))
  end.

(** [sigaction_ok]: whether the system installs the handler. *)
Definition install_one (sigaction_ok : signal -> bool) (sig : signal) (name : cstr) (p : process) : process :=
  if sigaction_ok sig then set_disposition sig CrashHandlerOnce p
  else write_stderr (lit "warning: failed to install crash handler for " ++ name ++ NEWLINE) p.

(** [errors]: the messages of [backtrace_create_state]. *)
Definition install_crash_handler (sigaction_ok : signal -> bool) (errors : list cstr) (p : process) : process :=
  let p := fold_left (fun p msg => error_callback msg p) errors p in
  let p := install_one sigaction_ok SIGSEGV (lit "SIGSEGV") p in
  let p := install_one sigaction_ok SIGABRT (lit "SIGABRT") p in
  let p := install_one sigaction_ok SIGFPE (lit "SIGFPE") p in
  let p := install_one sigaction_ok SIGBUS (lit "SIGBUS") p in
  install_one sigaction_ok SIGILL (lit "SIGILL") p.

(** * The report *)

(** One line per event, the frames numbered from the given one; a number is
    any string of digits without leading zeros that denotes it. *)
Definition number (v : Z) (s : cstr) : Prop := Forall is_digit s /\ decimal s = v /\ no_leading_zero s /\ s <> [].

Inductive report_lines : Z -> list backtrace_event -> cstr -> Prop :=
| lines_nil n : report_lines n [] []
| lines_error n msg events rest : report_lines n events rest ->
    report_lines n (BtError msg :: events) (lit "  backtrace error: " ++ msg ++ NEWLINE ++ rest)
| lines_frame n filename lineno function events rest num line : number n num -> number (Z.max 0 lineno) line -> report_lines (n + 1) events rest ->
    report_lines n (BtFrame filename lineno function :: events)
      (lit "  #" ++ num ++ lit " " ++ or_unknown function ++ lit " at " ++ or_unknown filename ++ lit ":" ++ line ++ NEWLINE ++ rest).

Definition event_ok (e : backtrace_event) : Prop := match e with BtFrame _ lineno _ => - 2 ^ 31 <= lineno < 2 ^ 31 | BtError _ => True end.

Hypothesis Hg : List.length garbage = UINT_BUFFER.

Lemma uint_written v p : 0 <= v < 2 ^ 32 -> exists s, write_stderr_uint garbage v p = Some (write_stderr s p) /\ number v s.
Proof using Hg. intros Hv. unfold write_stderr_uint. destruct (format_uint_spec garbage v Hg Hv) as (s & -> & R). exists s. split; [reflexivity | exact R]. Qed.

Lemma write_write a b p : write_stderr b (write_stderr a p) = write_stderr (a ++ b) p.
Proof using. unfold write_stderr. cbn. rewrite app_assoc. reflexivity. Qed.

Lemma backtrace_lines events : forall n p, Forall event_ok events -> 0 <= n -> n + Z.of_nat (List.length events) < 2 ^ 31 ->
  exists s, backtrace_full events n p = Some (write_stderr s p) /\ report_lines n events s.
Proof using Hg.
  induction events as [|e events IH]; intros n p F Hn Hl.
  { exists []. split; [|constructor]. cbn. unfold write_stderr. rewrite app_nil_r. destruct p; reflexivity. }
  inversion_clear F as [|? ? Fe Fs]. cbn [List.length] in Hl. destruct e as [filename lineno function|msg]; cbn [backtrace_full].
  - unfold full_callback. cbn [event_ok] in Fe. rewrite (Z.mod_small n) by lia.
    destruct (uint_written n (write_stderr (lit "  #") p)) as (num & -> & Nn); [lia|].
    match goal with |- context [write_stderr_uint garbage ?v ?q] => destruct (uint_written v q) as (line & -> & Nl) end.
    { destruct (Z.geb_spec lineno 0); lia. }
    cbn [Z.eqb].
    destruct (IH (n + 1) (write_stderr NEWLINE (write_stderr line (write_stderr (lit ":") (write_stderr (or_unknown filename) (write_stderr (lit " at ")
      (write_stderr (or_unknown function) (write_stderr (lit " ") (write_stderr num (write_stderr (lit "  #") p)))))))))) as (rest & -> & R); [exact Fs | lia | lia |].
    eexists. split; [rewrite !write_write; reflexivity|]. rewrite <- ?app_assoc. constructor; [exact Nn | | exact R].
    replace (Z.max 0 lineno) with (if lineno >=? 0 then lineno else 0); [exact Nl|]. destruct (Z.geb_spec lineno 0); lia.
  - destruct (IH n (error_callback msg p) Fs Hn ltac:(lia)) as (rest & -> & R). unfold error_callback.
    eexists. split; [rewrite !write_write; reflexivity|]. rewrite <- ?app_assoc. constructor. exact R.
Qed.

(** C40: A crash is reported completely and then handed back to the system. For
    every signal and every stack of less than 2^31 frames, the handler writes
    one line per frame, numbered from 0, with its numbers in decimal (which
    always fit their 16-byte buffer), restores the default action of the signal
    and raises it again, so the process dies of the signal it got. *)
Theorem crash_reported sig events p : Forall event_ok events -> Z.of_nat (List.length events) < 2 ^ 31 ->
  exists s p', crash_handler (Some events) sig p = Some p' /\ report_lines 0 events s /\
    stderr_text p' = stderr_text p ++ NEWLINE ++ RULE ++ lit "CRASH DETECTED" ++ NEWLINE ++ RULE ++ lit "Signal: " ++ sig_name sig ++ NEWLINE ++ NEWLINE ++
      lit "Stack trace:" ++ NEWLINE ++ s ++ NEWLINE ++ lit "For core dump, ensure: ulimit -c unlimited" ++ NEWLINE ++ RULE /\
    disposition_of (on_signal p') sig = SIG_DFL /\ raised p' = sig :: raised p /\
    (forall other, signal_eqb sig other = false -> disposition_of (on_signal p') other = disposition_of (on_signal p) other).
Proof using Hg.
  intros F L. unfold crash_handler. cbv zeta. rewrite !write_write.
  match goal with |- context [backtrace_full events 0 ?q] => destruct (backtrace_lines events 0 q F ltac:(lia) ltac:(lia)) as (s & -> & R) end.
  rewrite !write_write. exists s. eexists. split; [reflexivity|]. split; [exact R|]. cbn [set_disposition write_stderr stderr_text on_signal raised disposition_of].
  split; [rewrite <- ?app_assoc; reflexivity|]. split; [|split; [reflexivity|]].
  - replace (signal_eqb sig sig) with true; [reflexivity|]. destruct sig; cbn; try reflexivity. symmetry. apply Z.eqb_refl.
  - intros other N. rewrite N. reflexivity.
Qed.
End Handler.

Definition sample_trace : list backtrace_event := [BtFrame (Some (lit "evm.c")) 545 (Some (lit "op_add")); BtError (lit "no debug info"); BtFrame None (-1) None].

Lemma crash_reported_witness : exists s p', crash_handler (repeat 7 16) (Some sample_trace) SIGSEGV (Process [] [(SIGSEGV, CrashHandlerOnce)] []) = Some p' /\
  report_lines 0 sample_trace s /\ disposition_of (on_signal p') SIGSEGV = SIG_DFL /\ raised p' = [SIGSEGV].
Proof.
  destruct (crash_reported (repeat 7 16) eq_refl SIGSEGV sample_trace (Process [] [(SIGSEGV, CrashHandlerOnce)] [])) as (s & p' & E & R & _ & D & Ra & _).
  - repeat (apply Forall_cons; [cbn; auto; lia|]). apply Forall_nil.
  - reflexivity.
  - exists s, p'. auto.
Defined.

(** The first line of the trace as it is printed. *)
Example first_line : option_map stderr_text (backtrace_full (repeat 7 16) sample_trace 0 (Process [] [] [])) =
  Some (lit "  #0 op_add at evm.c:545" ++ NEWLINE ++ lit "  backtrace error: no debug info" ++ NEWLINE ++ lit "  #1 ?? at ??:0" ++ NEWLINE).
Proof. reflexivity. Qed.

(** After installation every one of the five signals runs the handler once. *)
Lemma handler_installed errors p : let p' := install_crash_handler (fun _ => true) errors p in
  Forall (fun s => disposition_of (on_signal p') s = CrashHandlerOnce) [SIGSEGV; SIGABRT; SIGFPE; SIGBUS; SIGILL].
Proof. repeat (apply Forall_cons; [reflexivity|]). apply Forall_nil. Qed.
