(* ===== verification/Cli.v ===== *)
(** The program around the transition tool: reading standard input, the
    resources of [cmd_t8n] and its command-line options
    (src/cli/t8n/t8n_command.c), and [main] (src/cli/main.c).

    In the first part a stream of the C library is what it still has to deliver
    and its two flags; a read stops short only at the end of the input or at an
    error, as fread documents. *)
From Stdlib Require Import String ZArith Lia List Bool.
From S2P Require Import Prelude Arena Uint256 Types Effects Account StateAccess HashTable WorldState Transaction TxRlp Frame Evm.
From S2P Require Import Executor Hex Json T8nAlloc T8nEnv T8nTxs T8nResult T8nCommand CrashHandler.
Import ListNotations.
#[local] Open Scope Z_scope.
#[local] Open Scope word_scope.

(** * Streams *)

(** [fails_after k]: the device reports an error after [k] more bytes. *)
Record FILE := File { pending : list Z; fails_after : option nat; feof : bool; ferror : bool }.

(** The error comes before the end of the input. *)
Definition fails (f : FILE) : bool := match fails_after f with Some k => (k <? length (pending f))%nat | None => false end.

Definition fread (f : FILE) (n : Z) : list Z * FILE :=
  let n := Z.to_nat n in
  match fails_after f with
  | Some k =>
      if fails f && (k <? n)%nat then (firstn k (pending f), File (skipn k (pending f)) (Some O) (feof f) true)
      else if (n <=? length (pending f))%nat then (firstn n (pending f), File (skipn n (pending f)) (Some (k - n)%nat) (feof f) (ferror f))
      else (pending f, File [] None true (ferror f))
  | None =>
      if (n <=? length (pending f))%nat then (firstn n (pending f), File (skipn n (pending f)) None (feof f) (ferror f))
      else (pending f, File [] None true (ferror f))
  end.

(** * read_stdin *)

Definition STDIN_INITIAL_BUFFER_SIZE : Z := 65536.

(** The buffer that is returned, or null; the stream; how many of the buffers
    that were allocated are still allocated. *)
Record read_result := ReadResult { rr_buffer : option (list Z); rr_stream : FILE; rr_live : nat }.

Section Read.
(** Whether [malloc] and [realloc] have memory for a buffer of this size. *)
Variable granted : Z -> bool.

Inductive space_result := Space (capacity space : Z) | NoSpace.

(** At least 1024 bytes of room, doubling the buffer if needed. *)
Definition make_space (capacity len : Z) : space_result :=
  let space := capacity -64 len in
  if space <? 1024 then
    if capacity >? SIZE_MAX / 2 then NoSpace
    else
      let capacity := capacity *64 2 in
      if granted capacity then Space capacity (capacity -64 len) else NoSpace
  else Space capacity space.

(** [None]: out of fuel, or a write past the end of the buffer. *)
Fixpoint read_loop (fuel : nat) (f : FILE) (capacity : Z) (buffer : list Z) : option read_result :=
  if feof f then Some (ReadResult (Some buffer) f 1)
  else
    match fuel with
    | O => None
    | S fuel =>
        match make_space capacity (Z.of_nat (length buffer)) with
        | NoSpace => Some (ReadResult None f 0)
        | Space capacity space =>
            let '(bytes, f) := fread f space in
            if Z.of_nat (length buffer) + Z.of_nat (length bytes) >? capacity then None
            else if ferror f then Some (ReadResult None f 0)
            else read_loop fuel f capacity (buffer ++ bytes)
        end
    end.

Definition read_stdin (fuel : nat) (f : FILE) : option read_result :=
  if granted STDIN_INITIAL_BUFFER_SIZE then read_loop fuel f STDIN_INITIAL_BUFFER_SIZE [] else Some (ReadResult None f 0).

(** * Correctness *)

(** Every round but the last delivers at least 1024 bytes. *)
Definition read_rounds (f : FILE) : nat := S (S (length (pending f) / 1024)).

Lemma make_space_spec capacity len : STDIN_INITIAL_BUFFER_SIZE <= capacity < 2 ^ 64 -> 0 <= len <= capacity ->
  match make_space capacity len with
  | Space c space => STDIN_INITIAL_BUFFER_SIZE <= c < 2 ^ 64 /\ 1024 <= space /\ len + space = c
  | NoSpace => (exists c, granted c = false) \/ 2 ^ 63 - 1024 < len
  end.
Proof.
  unfold STDIN_INITIAL_BUFFER_SIZE, make_space. intros Hc Hl. unfold sub64. rewrite (w64_small (capacity - len)) by (unfold u64; lia).
  destruct (Z.ltb_spec (capacity - len) 1024) as [S1|S1]; [|lia].
  change (SIZE_MAX / 2) with (2 ^ 63 - 1). destruct (Z.gtb_spec capacity (2 ^ 63 - 1)) as [O|O]; [right; lia|].
  unfold mul64. rewrite (w64_small (capacity * 2)) by (unfold u64; lia). destruct (granted (capacity * 2)) eqn:G; [|left; eauto].
  rewrite w64_small by (unfold u64; lia). lia.
Qed.

(** What one read delivers. *)
Lemma fread_spec f n : 1024 <= n -> feof f = false -> ferror f = false -> let '(bytes, f') := fread f n in
  Z.of_nat (length bytes) <= n /\
  (ferror f' = true /\ fails f = true \/
   ferror f' = false /\ feof f' = true /\ fails f = false /\ bytes = pending f \/
   ferror f' = false /\ feof f' = false /\ fails f' = fails f /\ pending f = bytes ++ pending f' /\ Z.of_nat (length bytes) = n).
Proof.
  intros Hn E Er. unfold fread. set (m := Z.to_nat n). assert (Hm : Z.of_nat m = n) by (unfold m; lia). unfold fails.
  destruct f as [p k eo er]. cbn [fails_after pending feof ferror] in *. subst eo er. destruct k as [k|].
  - destruct ((k <? length p)%nat && (k <? m)%nat) eqn:B.
    { apply andb_true_iff in B as [B1%Nat.ltb_lt B2%Nat.ltb_lt]. cbn [fails_after pending feof ferror]. split; [rewrite length_firstn; lia|]. left. split; [reflexivity|]. apply Nat.ltb_lt. lia. }
    destruct (Nat.leb_spec m (length p)) as [L|L].
    + cbn [fails_after pending feof ferror]. split; [rewrite length_firstn; lia|]. right. right. repeat (split; [reflexivity|]).
      split; [|split; [symmetry; apply firstn_skipn | rewrite length_firstn; lia]]. rewrite length_skipn.
      apply eq_true_iff_eq. rewrite !Nat.ltb_lt. apply andb_false_iff in B as [B%Nat.ltb_ge|B%Nat.ltb_ge]; lia.
    + cbn [fails_after pending feof ferror]. split; [lia|]. right. left. repeat (split; [reflexivity|]). split; [|reflexivity]. apply Nat.ltb_ge.
      apply andb_false_iff in B as [B%Nat.ltb_ge|B%Nat.ltb_ge]; lia.
  - destruct (Nat.leb_spec m (length p)) as [L|L]; cbn [fails_after pending feof ferror].
    + split; [rewrite length_firstn; lia|]. right. right. repeat (split; [reflexivity|]). split; [symmetry; apply firstn_skipn | rewrite length_firstn; lia].
    + split; [lia|]. right. left. repeat (split; [reflexivity|]). reflexivity.
Qed.

(** Either the whole input, or null with the buffer freed and a reason. *)
Definition read_ends (f : FILE) (start : list Z) (r : read_result) : Prop :=
  match rr_buffer r with
  | Some buffer => buffer = start ++ pending f /\ fails f = false /\ rr_live r = 1%nat
  | None => rr_live r = 0%nat /\ (fails f = true \/ (exists c, granted c = false) \/ 2 ^ 63 - 1024 < Z.of_nat (length start + length (pending f)))
  end.

Lemma read_loop_ends fuel : forall f capacity buffer, feof f = false -> ferror f = false ->
  (read_rounds f <= fuel)%nat -> STDIN_INITIAL_BUFFER_SIZE <= capacity < 2 ^ 64 -> Z.of_nat (length buffer) <= capacity ->
  exists r, read_loop fuel f capacity buffer = Some r /\ read_ends f buffer r.
Proof.
  induction fuel as [|fuel IH]; intros f capacity buffer E Er Hf Hc Hb; [unfold read_rounds in Hf; lia|].
  cbn [read_loop]. rewrite E. pose proof (make_space_spec capacity (Z.of_nat (length buffer)) Hc ltac:(lia)) as Sp.
  destruct (make_space _ _) as [c space|].
  2:{ eexists. split; [reflexivity|]. split; [reflexivity|]. right. destruct Sp as [G|G]; [left; exact G | right; lia]. }
  destruct Sp as (Hc' & Hs & Hl). pose proof (fread_spec f space Hs E Er) as R. destruct (fread f space) as [bytes f'].
  destruct R as [Lb R]. rewrite Z.gtb_ltb, (proj2 (Z.ltb_ge _ _)) by lia.
  destruct R as [[R F]|[(R & Ro & F & B)|(R & Ro & F & B & Lf)]]; rewrite R.
  - eexists. split; [reflexivity|]. split; [reflexivity|]. left. exact F.
  - exists (ReadResult (Some (buffer ++ bytes)) f' 1). split; [destruct fuel; cbn [read_loop]; rewrite Ro; reflexivity|].
    split; [rewrite B; reflexivity|]. split; [exact F | reflexivity].
  - destruct (IH f' c (buffer ++ bytes) Ro R) as (r & -> & Q); [| exact Hc' | rewrite length_app; lia |].
    + unfold read_rounds in *. rewrite B, length_app in Hf.
      assert (length (pending f') / 1024 + 1 <= (length bytes + length (pending f')) / 1024)%nat; [|lia].
      apply Nat.div_le_lower_bound; [lia|]. pose proof (Nat.Div0.mul_div_le (length (pending f')) 1024). lia.
    + exists r. split; [reflexivity|]. unfold read_ends in *. rewrite F in Q. rewrite B. rewrite <- app_assoc in Q. destruct (rr_buffer r); [exact Q|].
      rewrite length_app in *. replace (length buffer + (length bytes + length (pending f')))%nat with (length buffer + length bytes + length (pending f'))%nat by lia. exact Q.
Qed.

Lemma read_stdin_ends (f : FILE) : feof f = false -> ferror f = false ->
  exists r, read_stdin (read_rounds f) f = Some r /\
    match rr_buffer r with
    | Some buffer => buffer = pending f /\ fails f = false /\ rr_live r = 1%nat
    | None => rr_live r = 0%nat /\ (fails f = true \/ (exists c, granted c = false) \/ 2 ^ 63 - 1024 < Z.of_nat (length (pending f)))
    end.
Proof.
  intros E Er. unfold read_stdin. destruct (granted STDIN_INITIAL_BUFFER_SIZE) eqn:G; [|eexists; split; [reflexivity|]; cbn; eauto].
  destruct (read_loop_ends (read_rounds f) f STDIN_INITIAL_BUFFER_SIZE [] E Er (le_n _) ltac:(unfold STDIN_INITIAL_BUFFER_SIZE; lia) ltac:(cbn; discriminate)) as (r & -> & Q).
  exists r. split; [reflexivity | exact Q].
Qed.
(** C39: [read_stdin] returns all of standard input or null. On any stream, with
    any sizes of buffers refused by the C library, it ends within one round per
    1024 bytes of input, never writes past its buffer, and either returns
    exactly the bytes of the stream, or null with the buffer freed; null only
    for a read error, a refused allocation or an input of about 2^63 bytes. *)
Theorem read_stdin_exact (f : FILE) : feof f = false -> ferror f = false ->
  exists r, read_stdin (read_rounds f) f = Some r /\
    match rr_buffer r with
    | Some buffer => buffer = pending f /\ fails f = false /\ rr_live r = 1%nat
    | None => rr_live r = 0%nat /\ (fails f = true \/ (exists c, granted c = false) \/ 2 ^ 63 - 1024 < Z.of_nat (length (pending f)))
    end.
Proof. apply read_stdin_ends. Qed.
End Read.

Definition short_input : FILE := File [123; 125] None false false.

Lemma read_stdin_exact_witness : exists r, read_stdin (fun _ => true) (read_rounds short_input) short_input = Some r /\ rr_buffer r = Some [123; 125].
Proof.
  destruct (read_stdin_exact (fun _ => true) short_input eq_refl eq_refl) as (r & E & Q). exists r. split; [exact E|].
  destruct (rr_buffer r) as [b|]; [destruct Q as (-> & _); reflexivity|]. vm_compute in E. injection E as <-. destruct Q. discriminate.
Defined.

(** * The command and the program

    The program around the transition tool: the resources of [cmd_t8n] and its
    command-line options (src/cli/t8n/t8n_command.c), and [main]
    (src/cli/main.c).

    [T8nCommand] has what the command computes; here is what it holds while it
    runs, on every path out of it, and how the program gets to it. The argparse
    library is a parameter. *)

(** ** The execution context *)

(** What has to be given back. [held] lists what the command owns. *)
Inductive resource := ArenaBlocks | WorldTables | SecpContext | StdinBuffer | StdinDocument | FileDocument | JsonWriter.

Definition resource_eqb (a b : resource) : bool :=
  match a, b with
  | ArenaBlocks, ArenaBlocks | WorldTables, WorldTables | SecpContext, SecpContext | StdinBuffer, StdinBuffer | StdinDocument, StdinDocument
  | FileDocument, FileDocument | JsonWriter, JsonWriter => true
  | _, _ => false
  end.

Definition holds (held : list resource) (r : resource) : bool := existsb (resource_eqb r) held.

(** Giving back what is not held is an error. *)
Definition release (r : resource) (held : list resource) : option (list resource) :=
  if holds held r then Some (filter (fun x => negb (resource_eqb r x)) held) else None.

(** The pointers of [t8n_context_t], by whether they are null, and its flags. *)
Record t8n_context_t := T8nContext {
  ctx_arena : bool; ctx_ws : bool; ctx_secp_ctx : bool; ctx_stdin_buffer : bool; ctx_arena_initialized : bool; ctx_stdin_doc_valid : bool }.

Definition t8n_context_init : t8n_context_t := T8nContext false false false false false false.

(** A context with what it stands for. *)
Definition owner : Type := (t8n_context_t * list resource)%type.

Definition when_ (b : bool) (f : list resource -> option (list resource)) (held : list resource) : option (list resource) :=
  if b then f held else Some held.

(** The tables of the world state are in the arena, which must be there. *)
Definition destroy_world (held : list resource) : option (list resource) :=
  if holds held ArenaBlocks then release WorldTables held else None.

Definition then_release (o : option (list resource)) (f : list resource -> option (list resource)) : option (list resource) :=
  match o with Some held => f held | None => None end.

Definition t8n_context_cleanup (o : owner) : option owner :=
  let (ctx, held) := o in
  let held := when_ (ctx_secp_ctx ctx) (release SecpContext) held in
  let held := then_release held (when_ (ctx_ws ctx) destroy_world) in
  let held := then_release held (when_ (ctx_stdin_doc_valid ctx) (release StdinDocument)) in
  let held := then_release held (when_ (ctx_stdin_buffer ctx) (release StdinBuffer)) in
  let held := then_release held (when_ (ctx_arena_initialized ctx) (release ArenaBlocks)) in
  match held with
  | None => None
  | Some held => Some (T8nContext (ctx_arena ctx) false false false false false, held)
  end.

(** The assignments to the context, next to the calls that acquire. *)
Definition got_arena (o : owner) : owner :=
  let (c, held) := o in (T8nContext true (ctx_ws c) (ctx_secp_ctx c) (ctx_stdin_buffer c) true (ctx_stdin_doc_valid c), ArenaBlocks :: held).
Definition got_stdin_buffer (o : owner) : owner :=
  let (c, held) := o in (T8nContext (ctx_arena c) (ctx_ws c) (ctx_secp_ctx c) true (ctx_arena_initialized c) (ctx_stdin_doc_valid c), StdinBuffer :: held).
Definition got_stdin_doc (o : owner) : owner :=
  let (c, held) := o in (T8nContext (ctx_arena c) (ctx_ws c) (ctx_secp_ctx c) (ctx_stdin_buffer c) (ctx_arena_initialized c) true, StdinDocument :: held).
Definition got_world (o : owner) : owner :=
  let (c, held) := o in (T8nContext (ctx_arena c) true (ctx_secp_ctx c) (ctx_stdin_buffer c) (ctx_arena_initialized c) (ctx_stdin_doc_valid c), WorldTables :: held).
Definition got_secp (o : owner) : owner :=
  let (c, held) := o in (T8nContext (ctx_arena c) (ctx_ws c) true (ctx_stdin_buffer c) (ctx_arena_initialized c) (ctx_stdin_doc_valid c), SecpContext :: held).

(** ** The command with its resources *)

(** Whether the allocations of the command succeed. *)
Record allocations := Allocations { arena_ok : bool; world_ok : bool; evm_ok : bool; secp_ok : bool }.

Definition all_granted : allocations := Allocations true true true true.

Section Command.
Context {Y : Yyjson} {YM : YyjsonMut} {M : Type -> Type -> Type} {HT : HashTables M}.
Variable keccak256 : list Z -> hash_t.
Variable ecdsa_recover : list Z -> Z -> list Z -> option (list Z).
Variable stdout : stream.

(** How the command ends: with an exit code, the files and what is still held;
    in a fault of the code; or giving back something it does not hold. *)
Inductive ending := Exit (fs : file_system) (code : Z) (held : list resource) | Crashes (f : fault) | BadRelease.

(** [t8n_context_cleanup(&ctx); return code;] *)
Definition leave (o : owner) (fs : file_system) (code : Z) : ending :=
  match t8n_context_cleanup o with Some (_, held) => Exit fs code held | None => BadRelease end.

Definition all_stdin (opts : t8n_options_t) : bool :=
  is_stdin (opt_input_alloc opts) && is_stdin (opt_input_env opts) && is_stdin (opt_input_txs opts).

(** A value, once [r] has been given back. *)
Definition freeing {A} (r : resource) (a : A) (held : list resource) : option (A * list resource) :=
  match release r held with Some held => Some (a, held) | None => None end.

(** [t8n_parse_alloc_file], [t8n_parse_env_file] and [t8n_parse_txs_file]: the
    document of the file lives until its root has been parsed. *)
Definition file_held {A} (doc : json_doc_t * json_result_t) (parse_value : option yyjson_val -> parsed A) (held : list resource) :
  option (parsed A * list resource) :=
  let '(doc, result) := doc in
  if json_is_err result then Some (inr result, held)
  else
    let held := FileDocument :: held in
    freeing FileDocument (parse_value (json_doc_root doc)) held.

(** An error of a parser ends the loading; [None] is a bad release. *)
Definition or_json_error_held {A B} (m : option (parsed A * list resource)) (k : A -> list resource -> option ((B + Z) * list resource)) :
  option ((B + Z) * list resource) :=
  match m with
  | None => None
  | Some (inr _, held) => Some (inr DIV0_EXIT_JSON_ERROR, held)
  | Some (inl a, held) => k a held
  end.

Definition load_files_held (opts : t8n_options_t) (fs : file_system) (held : list resource) : option ((inputs_t + Z) * list resource) :=
  or_json_error_held (file_held (json_parse_file fs (opt_input_alloc opts)) t8n_parse_alloc_value held) (fun pre_state held =>
  or_json_error_held (file_held (json_parse_file fs (opt_input_env opts)) t8n_parse_env_value held) (fun env held =>
  or_json_error_held (file_held (json_parse_file fs (opt_input_txs opts)) t8n_parse_txs_value held) (fun txs held =>
  Some (inl (pre_state, env, txs), held)))).

(** Loading, with what it leaves in the context; [None] is a bad release. *)
Definition load_held (o : owner) (opts : t8n_options_t) (fs : file_system) (stdin : option json_text) : option (owner * (inputs_t + Z)) :=
  if all_stdin opts then
    match stdin with
    | None => Some (o, inr DIV0_EXIT_IO_ERROR)
    | Some text =>
        let o := got_stdin_buffer o in
        let o := if json_is_err (snd (json_parse text)) then o else got_stdin_doc o in
        Some (o, load_stdin stdin)
    end
  else
    match load_files_held opts fs (snd o) with
    | None => None
    | Some (loaded, held) => Some ((fst o, held), loaded)
    end.

(** The output functions with the writer they own: [json_writer_free] on every
    path after a successful [json_writer_init]. *)
Definition write_result_held (fs : file_system) (basedir filename : cstr) (result : t8n_result_t) (held : list resource) :
  option ((file_system * Z) * list resource) :=
  match json_writer_init with
  | (None, _) => Some ((fs, DIV0_EXIT_JSON_ERROR), held)
  | (Some d, _) =>
      let held := JsonWriter :: held in
      match t8n_write_result result d with
      | (_, None) => freeing JsonWriter (fs, DIV0_EXIT_JSON_ERROR) held
      | (d, root) =>
          let written := write_json_to_output stdout fs basedir filename root d in
          freeing JsonWriter written held
      end
  end.

Definition write_alloc_held (fs : file_system) (basedir filename : cstr) (ws : @world_state_t M) (held : list resource) :
  option ((file_system * Z) * list resource) + fault :=
  match world_state_snapshot keccak256 ws with
  | inr f => inr f
  | inl None => inl (Some ((fs, DIV0_EXIT_GENERAL_ERROR), held))
  | inl (Some snapshot) =>
      match json_writer_init with
      | (None, _) => inl (Some ((fs, DIV0_EXIT_JSON_ERROR), held))
      | (Some d, _) =>
          let held := JsonWriter :: held in
          match t8n_write_alloc snapshot d with
          | (_, None) => inl (freeing JsonWriter (fs, DIV0_EXIT_JSON_ERROR) held)
          | (d, root) =>
              let written := write_json_to_output stdout fs basedir filename root d in
              inl (freeing JsonWriter written held)
          end
      end
  end.

Definition write_combined_held (fs : file_system) (result : t8n_result_t) (ws : @world_state_t M) (held : list resource) :
  option ((file_system * Z) * list resource) + fault :=
  match world_state_snapshot keccak256 ws with
  | inr f => inr f
  | inl None => inl (Some ((fs, DIV0_EXIT_GENERAL_ERROR), held))
  | inl (Some snapshot) =>
      match json_writer_init with
      | (None, _) => inl (Some ((fs, DIV0_EXIT_JSON_ERROR), held))
      | (Some d, _) =>
          let held := JsonWriter :: held in
          match json_write_obj d with
          | (_, None) => inl (freeing JsonWriter (fs, DIV0_EXIT_JSON_ERROR) held)
          | (d, root) =>
              match t8n_write_result result d with
              | (_, None) => inl (freeing JsonWriter (fs, DIV0_EXIT_JSON_ERROR) held)
              | (d, result_obj) =>
                  let d := fst (json_obj_add root (lit "result") result_obj d) in
                  match t8n_write_alloc snapshot d with
                  | (_, None) => inl (freeing JsonWriter (fs, DIV0_EXIT_JSON_ERROR) held)
                  | (d, alloc_obj) =>
                      let d := fst (json_obj_add root (lit "alloc") alloc_obj d) in
                      let d := fst (json_obj_add_str root (lit "body") (lit "0x") d) in
                      let '(fs, r) := json_write_fp fs d root stdout JSON_WRITE_PRETTY in
                      if json_is_err r then inl (freeing JsonWriter (fs, DIV0_EXIT_IO_ERROR) held)
                      else inl (freeing JsonWriter (fs, DIV0_EXIT_SUCCESS) held)
                  end
              end
          end
      end
  end.

Definition write_outputs_held (opts : t8n_options_t) (fs : file_system) (result : t8n_result_t) (ws : @world_state_t M) (held : list resource) :
  option ((file_system * Z) * list resource) + fault :=
  if is_stdout (opt_output_result opts) && is_stdout (opt_output_alloc opts) then write_combined_held fs result ws held
  else
    match write_result_held fs (opt_output_basedir opts) (opt_output_result opts) result held with
    | None => inl None
    | Some ((fs, exit_code), held) =>
        if negb (exit_code =? DIV0_EXIT_SUCCESS) then inl (Some ((fs, exit_code), held))
        else write_alloc_held fs (opt_output_basedir opts) (opt_output_alloc opts) ws held
    end.

Definition cmd_t8n_held (al : allocations) (rounds fuel : nat) (opts : t8n_options_t) (fs : file_system) (stdin : option json_text) : ending :=
  match parse_fork (opt_fork opts) with
  | FORK_UNKNOWN => Exit fs DIV0_EXIT_CONFIG_ERROR []
  | _ =>
      let o := (t8n_context_init, []) in
      if negb (arena_ok al) then Exit fs DIV0_EXIT_GENERAL_ERROR (snd o)
      else
        match load_held (got_arena o) opts fs stdin with
        | None => BadRelease
        | Some (o, inr code) => leave o fs code
        | Some (o, inl inputs) =>
            if negb (world_ok al) then leave o fs DIV0_EXIT_GENERAL_ERROR
            else
              let o := got_world o in
              if negb (evm_ok al) then leave o fs DIV0_EXIT_GENERAL_ERROR
              else if negb (secp_ok al) then leave o fs DIV0_EXIT_GENERAL_ERROR
              else
                let o := got_secp o in
                match run_block (M := M) keccak256 ecdsa_recover rounds fuel opts inputs with
                | inr f => Crashes f
                | inl (inr code) => leave o fs code
                | inl (inl (result, ws)) =>
                    match write_outputs_held opts fs result ws (snd o) with
                    | inr f => Crashes f
                    | inl None => BadRelease
                    | inl (Some ((fs, code), held)) => leave (fst o, held) fs code
                    end
                end
        end
  end.

(** Standard input is read only when all inputs come from it; [text_of] is the
    buffer as the JSON library sees it. *)
Variable text_of : list Z -> json_text.
Variable granted : Z -> bool.

Definition stdin_text (opts : t8n_options_t) (f : FILE) : option (option json_text) :=
  if all_stdin opts then
    match read_stdin granted (read_rounds f) f with
    | Some r => Some (match rr_buffer r with Some b => Some (text_of b) | None => None end)
    | None => None
    end
  else Some None.
End Command.
Arguments Exit {Y}.
Arguments Crashes {Y}.
Arguments BadRelease {Y}.

(** ** Options *)

(** The variables the options point to. *)
Inductive target :=
| Quiet | InputAlloc | InputEnv | InputTxs | OutputBasedir | OutputResult | OutputAlloc | OutputBody | Fork | ChainId | Reward
| ShowVersion.

Inductive argparse_option :=
| OPT_HELP
| OPT_BOOLEAN (short : Z) (long : cstr) (t : target)
| OPT_STRING (long : cstr) (t : target)
| OPT_INTEGER (long : cstr) (t : target)
| OPT_GROUP (title : cstr)
| OPT_END.

Definition t8n_option_table : list argparse_option :=
  [OPT_HELP; OPT_BOOLEAN 113 (lit "quiet") Quiet;
   OPT_GROUP (lit "Input options");
   OPT_STRING (lit "input.alloc") InputAlloc; OPT_STRING (lit "input.env") InputEnv; OPT_STRING (lit "input.txs") InputTxs;
   OPT_GROUP (lit "Output options");
   OPT_STRING (lit "output.basedir") OutputBasedir; OPT_STRING (lit "output.result") OutputResult; OPT_STRING (lit "output.alloc") OutputAlloc;
   OPT_STRING (lit "output.body") OutputBody;
   OPT_GROUP (lit "State options");
   OPT_STRING (lit "state.fork") Fork; OPT_INTEGER (lit "state.chainid") ChainId; OPT_INTEGER (lit "state.reward") Reward; OPT_END].

Definition main_option_table : list argparse_option := [OPT_HELP; OPT_BOOLEAN 118 (lit "version") ShowVersion; OPT_END].

(** What argparse does to the variables: it stores an [int] through the pointer
    of a boolean or integer option, and a pointer through that of a string. *)
Inductive assignment := StoreInt (t : target) (v : Z) | StoreString (t : target) (s : cstr).

(** [argparse_parse] either exits by itself (help, bad usage) or makes its
    assignments and leaves the remaining arguments. *)
Inductive parse_outcome := ParseExit (code : Z) | Parsed (stores : list assignment) (rest : list cstr).

Class Argparse := argparse_parse : list argparse_option -> list cstr -> parse_outcome.

(** Storing an [int] through a pointer to an [int], and through a pointer to a
    [long]: it replaces the lower four of its eight bytes. *)
Definition int32 (v : Z) : Z := (v + 2 ^ 31) mod 2 ^ 32 - 2 ^ 31.
Definition int64 (v : Z) : Z := (v + 2 ^ 63) mod 2 ^ 64 - 2 ^ 63.
Definition store_int_in_long (old v : Z) : Z := int64 (Z.lor (Z.shiftl (Z.shiftr (w64 old) 32) 32) (v mod 2 ^ 32)).

Definition set_reward (o : t8n_options_t) (v : Z) : t8n_options_t :=
  Options (opt_input_alloc o) (opt_input_env o) (opt_input_txs o) (opt_output_basedir o) (opt_output_result o) (opt_output_alloc o)
    (opt_output_body o) (opt_fork o) (opt_chain_id o) v (opt_verbose o).
Definition set_chain_id (o : t8n_options_t) (v : Z) : t8n_options_t :=
  Options (opt_input_alloc o) (opt_input_env o) (opt_input_txs o) (opt_output_basedir o) (opt_output_result o) (opt_output_alloc o)
    (opt_output_body o) (opt_fork o) v (opt_reward o) (opt_verbose o).
Definition set_verbose (o : t8n_options_t) (v : bool) : t8n_options_t :=
  Options (opt_input_alloc o) (opt_input_env o) (opt_input_txs o) (opt_output_basedir o) (opt_output_result o) (opt_output_alloc o)
    (opt_output_body o) (opt_fork o) (opt_chain_id o) (opt_reward o) v.

Definition set_string (o : t8n_options_t) (t : target) (s : cstr) : t8n_options_t :=
  let put t' old := match t, t' with
    | InputAlloc, InputAlloc | InputEnv, InputEnv | InputTxs, InputTxs | OutputBasedir, OutputBasedir
    | OutputResult, OutputResult | OutputAlloc, OutputAlloc | Fork, Fork => s
    | _, _ => old end in
  Options (put InputAlloc (opt_input_alloc o)) (put InputEnv (opt_input_env o)) (put InputTxs (opt_input_txs o))
    (put OutputBasedir (opt_output_basedir o)) (put OutputResult (opt_output_result o)) (put OutputAlloc (opt_output_alloc o))
    (match t with OutputBody => Some s | _ => opt_output_body o end)
    (put Fork (opt_fork o)) (opt_chain_id o) (opt_reward o) (opt_verbose o).

(** The options and [quiet] after the stores. *)
Definition apply_store (st : t8n_options_t * Z) (a : assignment) : t8n_options_t * Z :=
  let (o, quiet) := st in
  match a with
  | StoreInt Quiet v => (o, int32 v)
  | StoreInt ChainId v => (set_chain_id o (int32 v), quiet)
  | StoreInt Reward v => (set_reward o (store_int_in_long (opt_reward o) v), quiet)
  | StoreInt _ _ => (o, quiet)
  | StoreString t s => (set_string o t s, quiet)
  end.

Definition apply_stores (stores : list assignment) : t8n_options_t :=
  let (o, quiet) := fold_left apply_store stores (t8n_options_init, 0) in set_verbose o (quiet =? 0).

(** ** main *)

Section Main.
Context {Y : Yyjson} {YM : YyjsonMut} {M : Type -> Type -> Type} {HT : HashTables M} {AP : Argparse}.
Variable keccak256 : list Z -> hash_t.
Variable ecdsa_recover : list Z -> Z -> list Z -> option (list Z).
Variable stdout_stream : stream.
Variable text_of : list Z -> json_text.
Variable granted : Z -> bool.
Variable DIV0_VERSION_STRING : cstr.

(** The world the program runs in. *)
Record environment := Environment {
  e_files : file_system; e_stdin : FILE; e_allocations : allocations; e_process : process; e_sigaction : signal -> bool; e_backtrace_errors : list cstr }.

(** What it does: the text of [main] on standard output, the process with its
    signal handlers and standard error, and how it ends. [None]: standard input
    was not read to its end. *)
Record run := Run { out_text : cstr; at_end : process; ended : option ending }.

(** [cmd_t8n], from the command line on. *)
Definition cmd_t8n_main (rounds fuel : nat) (argv : list cstr) (env : environment) : option ending :=
  match argparse_parse t8n_option_table argv with
  | ParseExit code => Some (Exit (e_files env) code [])
  | Parsed stores _ =>
      let opts := apply_stores stores in
      match stdin_text text_of granted opts (e_stdin env) with
      | None => None
      | Some stdin => Some (cmd_t8n_held (M := M) keccak256 ecdsa_recover stdout_stream (e_allocations env) rounds fuel opts (e_files env) stdin)
      end
  end.

(** The table of subcommands, up to its null entry, and the search in it. *)
Definition commands (rounds fuel : nat) : list (cstr * (list cstr -> environment -> option ending)) := [(lit "t8n", cmd_t8n_main rounds fuel)].

Fixpoint find_command (table : list (cstr * (list cstr -> environment -> option ending))) (name : cstr) :
  option (list cstr -> environment -> option ending) :=
  match table with
  | [] => None
  | (cmd, fn) :: table => if bytes_eqb cmd name then Some fn else find_command table name
  end.

Definition shows_version (stores : list assignment) : bool :=
  negb (fold_left (fun v a => match a with StoreInt ShowVersion n => int32 n | _ => v end) stores 0 =? 0).

Definition NL : cstr := [10].

Definition main (rounds fuel : nat) (argv : list cstr) (env : environment) : run :=
  let p := install_crash_handler (e_sigaction env) (e_backtrace_errors env) (e_process env) in
  let exits code out err := Run out (write_stderr err p) (Some (Exit (e_files env) code [])) in
  match argparse_parse main_option_table argv with
  | ParseExit code => exits code [] []
  | Parsed stores rest =>
      if shows_version stores then exits DIV0_EXIT_SUCCESS (lit "evm version " ++ DIV0_VERSION_STRING ++ NL) []
      else
        match rest with
        | [] =>
            exits DIV0_EXIT_SUCCESS
              (lit "div0 - High-performance EVM implementation" ++ NL ++ lit "Version: " ++ DIV0_VERSION_STRING ++ NL ++ NL ++
               lit "Use 'div0 --help' for usage information." ++ NL ++ lit "Use 'div0 t8n --help' for state transition tool." ++ NL) []
        | name :: _ =>
            match find_command (commands rounds fuel) name with
            | Some fn => Run [] p (fn rest env)
            | None => exits DIV0_EXIT_GENERAL_ERROR [] (lit "Unknown subcommand: " ++ name ++ NL ++ lit "Use 'div0 --help' for usage information." ++ NL)
            end
        end
  end.
End Main.
