(* ===== verification/CliTheorems.v ===== *)
(** Properties of the program around the transition tool: what it holds is
    given back on every way out, its options, and that it ends. *)
From Stdlib Require Import ZArith Lia List Bool String.
From S2P Require Import Keccak.
From S2P Require Import Prelude Uint256 Types Effects Arena Account StateAccess HashTable WorldState Transaction TxRlp Frame Evm Executor.
From S2P Require Import Hex Json T8nAlloc T8nEnv T8nTxs T8nResult JsonSpec JsonModel T8nCommand CommandSafe Cli CrashHandler.
Import ListNotations.
#[local] Open Scope Z_scope.

Section Resources.
Context {Y : Yyjson} {YM : YyjsonMut} {M : Type -> Type -> Type} {HT : HashTables M}.
Variable keccak256 : list Z -> hash_t.
Variable ecdsa_recover : list Z -> Z -> list Z -> option (list Z).
Variable stdout : stream.

(** The outcome of the command as [T8nCommand] has it, with nothing held. *)
Definition nothing_held (r : (file_system * Z) + fault) : ending :=
  match r with inl (fs, code) => Exit fs code [] | inr f => Crashes f end.

(** An allocation that the command makes is refused. *)
Definition refuses (al : allocations) (opts : t8n_options_t) (fs : file_system) (stdin : option json_text) : bool :=
  match parse_fork (opt_fork opts) with
  | FORK_UNKNOWN => false
  | _ => negb (arena_ok al) || match load_inputs opts fs stdin with inr _ => false | inl _ => negb (world_ok al && evm_ok al && secp_ok al) end
  end.

(** Cleaning up from any state of the context gives everything back. *)
Definition clean (o : owner) : Prop := forall fs code, leave o fs code = Exit fs code [].

(** What has just been acquired can be given back. *)
Lemma free_fresh {A} r (a : A) held : holds held r = false -> freeing r a (r :: held) = Some (a, held).
Proof.
  intros H. assert (R : forall x, resource_eqb x x = true) by (intros []; reflexivity). unfold freeing, release, holds. cbn [existsb filter]. rewrite R. cbn [orb negb].
  replace (filter (fun x => negb (resource_eqb r x)) held) with held; [reflexivity|]. unfold holds in H. induction held as [|x held IH]; [reflexivity|].
  cbn [existsb filter] in *. apply orb_false_iff in H as [-> H]. cbn [negb]. rewrite <- IH by exact H. reflexivity.
Qed.

Lemma file_held_spec {A} doc (parse_value : option yyjson_val -> parsed A) held : holds held FileDocument = false ->
  file_held doc parse_value held = Some (parse_document doc parse_value, held).
Proof. intros H. unfold file_held, parse_document. destruct doc as [doc result]. destruct (json_is_err result); [reflexivity | apply free_fresh, H]. Qed.

Lemma load_files_held_spec opts fs held : holds held FileDocument = false -> load_files_held opts fs held = Some (load_files opts fs, held).
Proof.
  intros H. unfold load_files_held, load_files, t8n_parse_alloc_file, t8n_parse_env_file, t8n_parse_txs_file. rewrite file_held_spec by exact H.
  destruct (parse_document (json_parse_file fs (opt_input_alloc opts)) _); cbn [or_json_error_held or_json_error]; [|reflexivity]. rewrite file_held_spec by exact H.
  destruct (parse_document (json_parse_file fs (opt_input_env opts)) _); cbn [or_json_error_held or_json_error]; [|reflexivity]. rewrite file_held_spec by exact H.
  destruct (parse_document (json_parse_file fs (opt_input_txs opts)) _); reflexivity.
Qed.

Lemma load_held_spec opts fs stdin : exists o, load_held (got_arena (t8n_context_init, [])) opts fs stdin = Some (o, load_inputs opts fs stdin) /\
  clean o /\ clean (got_world o) /\ clean (got_secp (got_world o)) /\ holds (snd (got_secp (got_world o))) JsonWriter = false.
Proof.
  unfold load_held, load_inputs. fold (all_stdin opts). destruct (all_stdin opts).
  - destruct stdin as [text|]; [|eexists; split; [reflexivity|]; repeat split; intros ? ?; reflexivity].
    destruct (json_is_err _); eexists; (split; [reflexivity|]); repeat split; intros ? ?; reflexivity.
  - rewrite load_files_held_spec by reflexivity. eexists. split; [reflexivity|]. repeat split; intros ? ?; reflexivity.
Qed.

(** The outputs, with the writers given back. *)
Definition with_held {A} (held : list resource) (x : A + fault) : option (A * list resource) + fault :=
  match x with inl a => inl (Some (a, held)) | inr f => inr f end.

Lemma write_result_held_spec fs basedir name result held : holds held JsonWriter = false ->
  write_result_held stdout fs basedir name result held = Some (write_result_output stdout fs basedir name result, held).
Proof.
  intros H. unfold write_result_held, write_result_output. destruct json_writer_init as [[d|] r]; [|reflexivity].
  destruct (t8n_write_result result d) as [d' [root|]]; apply free_fresh, H.
Qed.

Lemma write_alloc_held_spec fs basedir name (ws : @world_state_t M) held : holds held JsonWriter = false ->
  write_alloc_held keccak256 stdout fs basedir name ws held = with_held held (write_alloc_output keccak256 stdout fs basedir name ws).
Proof.
  intros H. unfold write_alloc_held, write_alloc_output. destruct (world_state_snapshot keccak256 ws) as [[snap|]|f]; try reflexivity.
  destruct json_writer_init as [[d|] r]; [|reflexivity]. destruct (t8n_write_alloc snap d) as [d' [root|]]; cbn [with_held]; f_equal; apply free_fresh, H.
Qed.

Lemma write_combined_held_spec fs result (ws : @world_state_t M) held : holds held JsonWriter = false ->
  write_combined_held keccak256 stdout fs result ws held = with_held held (write_combined_stdout keccak256 stdout fs result ws).
Proof.
  intros H. unfold write_combined_held, write_combined_stdout, combined, w_bind, w_ret. destruct (world_state_snapshot keccak256 ws) as [[snap|]|f]; try reflexivity.
  destruct json_writer_init as [[d|] r]; [|reflexivity]. destruct (json_write_obj d) as [d1 [root|]]; [|cbn [with_held]; f_equal; apply free_fresh, H].
  destruct (t8n_write_result result d1) as [d2 [obj|]]; [|cbn [with_held]; f_equal; apply free_fresh, H]. destruct (json_obj_add _ _ _ d2) as [d3 ok]. cbn [fst].
  destruct (t8n_write_alloc snap d3) as [d4 [al|]]; [|cbn [with_held]; f_equal; apply free_fresh, H]. destruct (json_obj_add _ _ _ d4) as [d5 ok']. cbn [fst].
  destruct (json_obj_add_str _ _ _ d5) as [d6 ok'']. cbn [fst]. destruct (json_write_fp _ _ _ _ _) as [fs' w]. destruct (json_is_err w); cbn [with_held]; f_equal; apply free_fresh, H.
Qed.

Lemma write_outputs_held_spec opts fs result (ws : @world_state_t M) held : holds held JsonWriter = false ->
  write_outputs_held keccak256 stdout opts fs result ws held = with_held held (write_outputs keccak256 stdout opts fs result ws).
Proof.
  intros H. unfold write_outputs_held, write_outputs. destruct (_ && _); [apply write_combined_held_spec, H|]. rewrite write_result_held_spec by exact H.
  destruct (write_result_output _ _ _ _ _) as [fs' code]. destruct (negb _); [reflexivity | apply write_alloc_held_spec, H].
Qed.

Lemma held_spec al rounds fuel opts fs stdin : cmd_t8n_held (M := M) keccak256 ecdsa_recover stdout al rounds fuel opts fs stdin =
  if refuses al opts fs stdin then Exit fs DIV0_EXIT_GENERAL_ERROR [] else nothing_held (cmd_t8n (M := M) keccak256 ecdsa_recover stdout rounds fuel opts fs stdin).
Proof.
  unfold cmd_t8n_held, cmd_t8n, refuses. destruct (load_held_spec opts fs stdin) as (o & L & C1 & C2 & C3 & W). rewrite L.
  destruct (parse_fork (opt_fork opts)); try reflexivity; (destruct (arena_ok al); cbn [negb orb]; [|reflexivity]);
    (destruct (load_inputs opts fs stdin) as [inputs|code]; [|apply C1]);
    (destruct (world_ok al); cbn [negb andb]; [|apply C1]); (destruct (evm_ok al); cbn [negb andb]; [|apply C2]);
    (destruct (secp_ok al); cbn [negb andb]; [|apply C2]);
    (destruct (run_block _ _ _ _ _ _) as [[[result ws]|code]|f]; [|apply C3|reflexivity]);
    (rewrite write_outputs_held_spec by exact W; destruct (write_outputs _ _ _ _ _ _) as [[fs' code]|f]; [|reflexivity]);
    cbn [with_held]; rewrite <- surjective_pairing; apply C3.
Qed.
End Resources.

(** C36: the command gives back everything it acquires, on every way out, and
    its exit is exactly this one. For all options, inputs and answers of the
    allocators: when the fork is known and the arena is refused, or the inputs
    are loaded and the world state, the interpreter or the signature context is
    refused, it exits with the general error, the files untouched; otherwise it
    ends as the model of what it computes does. In each case (unknown fork,
    failed allocation, unreadable or malformed input, failed block, failed or
    successful write) the arena, the tables of the world state, the signature
    context, the buffer of standard input and its document, the document of each
    input file and each JSON writer have been released exactly once, the tables
    before the arena they live in: nothing is held at the exit and nothing is
    given back that is not held. *)
Theorem command_releases {Y : Yyjson} {YM : YyjsonMut} {M} {HT : HashTables M} (keccak256 : list Z -> hash_t) ecdsa_recover stdout al rounds fuel opts fs stdin :
  cmd_t8n_held (M := M) keccak256 ecdsa_recover stdout al rounds fuel opts fs stdin =
    let known := match parse_fork (opt_fork opts) with FORK_UNKNOWN => false | _ => true end in
    let loaded := match load_inputs opts fs stdin with inl _ => true | inr _ => false end in
    if known && (negb (arena_ok al) || (loaded && negb (world_ok al && evm_ok al && secp_ok al)))
    then Exit fs DIV0_EXIT_GENERAL_ERROR []
    else match cmd_t8n (M := M) keccak256 ecdsa_recover stdout rounds fuel opts fs stdin with
         | inl (fs', code) => Exit fs' code []
         | inr f => Crashes f
         end.
Proof. rewrite held_spec. unfold refuses, nothing_held. destruct (parse_fork _), (load_inputs _ _ _); reflexivity. Qed.

(** * Options *)

Lemma store_low old v : 0 <= old < 2 ^ 32 -> store_int_in_long old v = v mod 2 ^ 32.
Proof.
  intros H. unfold store_int_in_long. rewrite w64_small by (unfold u64; lia). rewrite Z.shiftr_div_pow2, Z.div_small by lia.
  rewrite Z.shiftl_0_l, Z.lor_0_l. unfold int64. pose proof (Z.mod_pos_bound v (2 ^ 32) ltac:(lia)). rewrite Z.mod_small; lia.
Qed.

Lemma stores_reward stores : forall st, 0 <= opt_reward (fst st) < 2 ^ 32 -> 0 <= opt_reward (fst (fold_left apply_store stores st)) < 2 ^ 32.
Proof.
  induction stores as [|a stores IH]; intros [o quiet] H; [exact H|]. cbn [fold_left]. apply IH. cbn [fst] in H.
  destruct a as [[] v|t s]; cbn [apply_store fst]; try exact H. cbn [set_reward opt_reward]. rewrite store_low by exact H. apply Z.mod_pos_bound. lia.
Qed.

Lemma reward_range stores : 0 <= opt_reward (apply_stores stores) < 2 ^ 32.
Proof.
  unfold apply_stores. pose proof (stores_reward stores (t8n_options_init, 0) ltac:(cbn; lia)) as H.
  destruct (fold_left apply_store stores _) as [o quiet]. exact H.
Qed.

(** The block reward cannot be disabled. The option's variable is a [long],
    but an integer option stores an [int] into it, so a negative reward sets
    only the lower half: for every command line the reward is between 0 and
    2^32 - 1, the branch that adds it is always taken, and "-1 to disable"
    credits the coinbase with 4294967295 wei. *)
Theorem reward_not_disabled {St} {SA : StateAccess St} (state : St) coinbase stores :
  0 <= opt_reward (apply_stores stores) < 2 ^ 32 /\
  apply_reward state coinbase (opt_reward (apply_stores stores)) =
    set_balance state coinbase (uint256_add (get_balance state coinbase) (uint256_from_u64 (w64 (opt_reward (apply_stores stores))))) /\
  (forall before, opt_reward (apply_stores (before ++ [StoreInt Reward (-1)])) = 4294967295).
Proof.
  pose proof (reward_range stores) as R. split; [exact R|]. split.
  - unfold apply_reward. rewrite (proj2 (Z.geb_le _ _)) by lia. reflexivity.
  - intros before. unfold apply_stores. rewrite fold_left_app. cbn [fold_left].
    pose proof (stores_reward before (t8n_options_init, 0) ltac:(cbn; lia)) as H. destruct (fold_left apply_store before _) as [o quiet].
    cbn [fst] in H. cbn [apply_store set_verbose set_reward opt_reward]. rewrite store_low by exact H. reflexivity.
Qed.

(** * The program *)

Section Program.
Context {Y : Yyjson} {YM : YyjsonMut} {M : Type -> Type -> Type} {HT : HashTables M} {HL : HashTableLaws M} {AP : Argparse}.
Variable keccak256 : list Z -> hash_t.
Hypothesis K : forall bs, wf_hash (keccak256 bs).
Variable ecdsa_recover : list Z -> Z -> list Z -> option (list Z).
Variable stdout : stream.
Variable text_of : list Z -> json_text.
Variable granted : Z -> bool.
Variable version : cstr.

(** How a run may end: nothing is held; the code is a documented one or the one
    argparse left with; a fault is an access out of bounds, or the loop that
    grows memory for ever if [H] allows it. *)
Definition ends_well (H : Prop) (e : option ending) : Prop :=
  match e with
  | Some (Exit _ code held) => held = [] /\ (In code exit_codes \/ exists table argv, argparse_parse table argv = ParseExit code)
  | Some (Crashes f) => f = OutOfBounds \/ f = Diverges /\ H
  | Some BadRelease | None => False
  end.

(** The block a command line of [t8n] loads has a message that reaches an
    endless memory instruction. *)
Definition block_endless (argv : list cstr) (env : environment) : Prop :=
  exists stores rest stdin, argparse_parse t8n_option_table argv = Parsed stores rest /\
    stdin_text text_of granted (apply_stores stores) (e_stdin env) = Some stdin /\
    loads_endless (M := M) keccak256 ecdsa_recover (apply_stores stores) (e_files env) stdin.

Definition program_endless (argv : list cstr) (env : environment) : Prop :=
  exists stores name rest, argparse_parse main_option_table argv = Parsed stores (name :: rest) /\ block_endless (name :: rest) env.

(** From some number of rounds on, the run is [r]. *)
Definition eventually {A} (run : nat -> nat -> A) (r : A) : Prop := exists n, forall rounds fuel, (n <= rounds)%nat -> (n <= fuel)%nat -> run rounds fuel = r.

Lemma eventually_map {A B} (g : A -> B) run r : eventually run r -> eventually (fun rounds fuel => g (run rounds fuel)) (g r).
Proof using. intros [n H]. exists n. intros rounds fuel H1 H2. rewrite H by assumption. reflexivity. Qed.

Lemma eventually_const {A} (r : A) : eventually (fun _ _ => r) r.
Proof using. exists O. reflexivity. Qed.

Lemma stdin_text_total opts f : feof f = false -> ferror f = false -> exists s, stdin_text text_of granted opts f = Some s.
Proof using.
  intros E Er. unfold stdin_text. destruct (all_stdin opts); [|eauto].
  destruct (read_stdin_ends granted f E Er) as (r & -> & _). eauto.
Qed.

Lemma cmd_eventually argv env : feof (e_stdin env) = false -> ferror (e_stdin env) = false ->
  exists e, eventually (fun rounds fuel => cmd_t8n_main (M := M) keccak256 ecdsa_recover stdout text_of granted rounds fuel argv env) e /\ ends_well (block_endless argv env) e.
Proof using K HL.
  intros E Er. unfold cmd_t8n_main. destruct (argparse_parse t8n_option_table argv) as [code|stores rest] eqn:P.
  { eexists. split; [apply eventually_const|]. split; [reflexivity|]. right. eauto. }
  destruct (stdin_text_total (apply_stores stores) (e_stdin env) E Er) as (stdin & Si). rewrite Si. set (opts := apply_stores stores).
  destruct (cmd_settled keccak256 K ecdsa_recover stdout opts (e_files env) stdin) as (n & res & St & Ex).
  exists (Some (if refuses (e_allocations env) opts (e_files env) stdin then Exit (e_files env) DIV0_EXIT_GENERAL_ERROR [] else nothing_held res)).
  split.
  - exists n. intros rounds fuel H1 H2. rewrite held_spec, St by assumption. reflexivity.
  - destruct (refuses _ _ _ _); [split; [reflexivity | left; cbn; auto]|]. destruct res as [[fs' code]|f]; [split; [reflexivity | left; exact Ex]|].
    destruct Ex as [Ex|[Ex H]]; [left; exact Ex | right]. split; [exact Ex|]. exists stores, rest, stdin. auto.
Qed.

Lemma main_eventually argv env : feof (e_stdin env) = false -> ferror (e_stdin env) = false ->
  exists r, eventually (fun rounds fuel => main (M := M) keccak256 ecdsa_recover stdout text_of granted version rounds fuel argv env) r /\ ends_well (program_endless argv env) (ended r).
Proof using K HL.
  intros E Er. unfold main. destruct (argparse_parse main_option_table argv) as [code|stores rest] eqn:P.
  { eexists. split; [apply eventually_const|]. split; [reflexivity|]. right. eauto. }
  destruct (shows_version stores); [eexists; split; [apply eventually_const | split; [reflexivity | left; cbn; auto]]|].
  destruct rest as [|name rest]; [eexists; split; [apply eventually_const | split; [reflexivity | left; cbn; auto]]|].
  unfold commands. cbn [find_command]. destruct (bytes_eqb (lit "t8n") name).
  - destruct (cmd_eventually (name :: rest) env E Er) as (e & Ev & We). eexists. split; [exact (eventually_map (Run [] _) _ _ Ev)|]. cbn [ended]. destruct e as [[? ? ?|f|]|]; try exact We.
    destruct We as [We|[We H]]; [left; exact We | right]. split; [exact We|]. exists stores, name, rest. auto.
  - eexists. split; [apply eventually_const|]. split; [reflexivity | left; cbn; auto].
Qed.
End Program.

(** C12: the program exits. For every command line, file system, stream on
    standard input, answers of the argparse and JSON libraries and of the
    allocators: unless the block the command line loads has a message that
    reaches an endless memory instruction, a run of [main] comes, after finitely
    many rounds, to an end that no longer changes: an exit code, one of the
    documented ones or that of argparse itself, with nothing still held, or an
    access out of bounds. It never waits for ever for standard input, never
    gives back something twice, and no loop of it runs for ever. *)
Theorem program_exits {Y : Yyjson} {YM : YyjsonMut} {M} {HT : HashTables M} {HL : HashTableLaws M} {AP : Argparse} (keccak256 : list Z -> hash_t)
  ecdsa_recover stdout text_of granted version argv env :
  (forall bs, wf_hash (keccak256 bs)) -> feof (e_stdin env) = false -> ferror (e_stdin env) = false ->
  ~ program_endless (M := M) keccak256 ecdsa_recover text_of granted argv env ->
  exists r, eventually (fun rounds fuel => main (M := M) keccak256 ecdsa_recover stdout text_of granted version rounds fuel argv env) r /\
    match ended r with
    | Some (Exit _ code held) => held = [] /\ (In code exit_codes \/ exists table args, argparse_parse table args = ParseExit code)
    | Some (Crashes f) => f = OutOfBounds
    | Some BadRelease | None => False
    end.
Proof.
  intros K E Er N. destruct (main_eventually (M := M) keccak256 K ecdsa_recover stdout text_of granted version argv env E Er) as (r & Ev & W).
  exists r. split; [exact Ev|]. destruct (ended r) as [[? ? ?|f|]|]; try exact W. destruct W as [W|[_ H]]; [exact W | contradiction].
Qed.

(** A parser that takes no options. *)
Definition plain_argparse : Argparse := fun _ argv => Parsed [] argv.
Definition empty_environment : environment := Environment (Y := model_yyjson) [] short_input all_granted (Process [] [] []) (fun _ => true) [].

Lemma program_exits_witness : let run := main (M := pairs) (AP := plain_argparse) keccak (fun _ _ _ => None) (lit "stdout") (fun _ => JNull) (fun _ => true) (lit "1.0") in
  exists r, eventually (fun rounds fuel => run rounds fuel [lit "t8n"] empty_environment) r /\
    match ended r with
    | Some (Exit _ code held) => held = [] /\ (In code exit_codes \/ exists table args, plain_argparse table args = ParseExit code)
    | Some (Crashes f) => f = OutOfBounds
    | Some BadRelease | None => False
    end.
Proof.
  intros run. apply (program_exits (Y := model_yyjson) (YM := model_yyjson_mut) (M := pairs) (AP := plain_argparse) keccak (fun _ _ _ => None) (lit "stdout") (fun _ => JNull) (fun _ => true) (lit "1.0") [lit "t8n"] empty_environment
    keccak_wf eq_refl eq_refl). intros (stores & name & rest & P & stores' & rest' & stdin & P' & _ & inputs & L & _).
  injection P' as <- <-. vm_compute in L. discriminate.
Defined.

(** Without input files the command reports the JSON error. *)
Example missing_files : ended (main (M := pairs) (AP := plain_argparse) keccak (fun _ _ _ => None) (lit "stdout") (fun _ => JNull) (fun _ => true) (lit "1.0") 1 1 [lit "t8n"] empty_environment)
  = Some (Exit [] DIV0_EXIT_JSON_ERROR []).
Proof. reflexivity. Qed.

Example unknown_subcommand : ended (main (M := pairs) (AP := plain_argparse) keccak (fun _ _ _ => None) (lit "stdout") (fun _ => JNull) (fun _ => true) (lit "1.0") 1 1 [lit "b11r"] empty_environment)
  = Some (Exit [] DIV0_EXIT_GENERAL_ERROR []).
Proof. reflexivity. Qed.
