(* ===== verification/Pools.v ===== *)
(** The pools behind the call frames: include/div0/evm/call_frame_pool.h,
    memory_pool.h and call_frame_reset of call_frame.h.

    The interpreter of [Evm] keeps its frames by value and counts the depth of
    the pools. Here frames and memories are slots of two arrays, a frame refers
    to its memory by a pointer into the other array, and slots are reused; the
    theorem at the end is that the two views agree. The assertions of the code
    stop a debug build; a release build goes on to the code after them. *)
From Stdlib Require Import ZArith Lia List Bool.
From S2P Require Import Prelude Uint256 Types Effects Arena Stack Memory Frame CallOps.
Import ListNotations.
#[local] Open Scope Z_scope.

(** * Slots *)

(** A frame in its slot; [s_memory] points into the memory pool. *)
Record frame_slot := FrameSlot {
  s_pc : Z; s_gas : Z; s_stack : option evm_stack_t; s_memory : option nat; s_code : option (list Z);
  s_output_offset : Z; s_output_size : Z; s_depth : Z; s_exec_type : exec_type_t; s_is_static : bool;
  s_caller : address_t; s_address : address_t; s_value : uint256_t; s_input : option (list Z);
  s_jumpdest_bitmap : option (list Z); s_code_hash : hash_t }.

Definition call_frame_reset : frame_slot :=
  FrameSlot 0 0 None None None 0 0 0 EXEC_TX_START false address_zero address_zero uint256_zero None None hash_zero.

Record call_frame_pool_t := FramePool { frames : list frame_slot; fp_depth : Z }.
Record evm_memory_pool_t := MemoryPool { memories : list evm_memory_t; mp_depth : Z }.

(** * Assertions *)

(** A failed assertion ends the program in a debug build; [NDEBUG] removes it
    from a release build. *)
Inductive checked (A : Type) := Aborted | Went (a : A).
Arguments Aborted {A}.
Arguments Went {A} a.

Definition assertion {A} (debug ok : bool) (k : checked A) : checked A := if debug && negb ok then Aborted else k.
Definition andthen {A B} (m : checked A) (k : A -> checked B) : checked B := match m with Went a => k a | Aborted => Aborted end.

(** * The frame pool *)

Definition call_frame_pool_init (pool : call_frame_pool_t) : call_frame_pool_t := FramePool (frames pool) 0.

(** The index of the slot is the pointer. *)
Definition call_frame_pool_rent (debug : bool) (pool : call_frame_pool_t) : checked (option nat * call_frame_pool_t) :=
  assertion debug (fp_depth pool <? EVM_MAX_CALL_DEPTH)
    (if fp_depth pool >=? EVM_MAX_CALL_DEPTH then Went (None, pool)
     else
       let i := Z.to_nat (fp_depth pool) in
       Went (Some i, FramePool (list_set (frames pool) i call_frame_reset) (fp_depth pool + 1))).

Definition call_frame_pool_return (debug : bool) (pool : call_frame_pool_t) : checked call_frame_pool_t :=
  assertion debug (fp_depth pool >? 0) (Went (if fp_depth pool >? 0 then FramePool (frames pool) (fp_depth pool - 1) else pool)).

Definition call_frame_pool_depth (pool : call_frame_pool_t) : Z := fp_depth pool.
Definition call_frame_pool_at (debug : bool) (pool : call_frame_pool_t) (depth : Z) : checked nat :=
  assertion debug (depth <? fp_depth pool) (Went (Z.to_nat depth)).

(** * The memory pool *)

Definition evm_memory_pool_init (pool : evm_memory_pool_t) : evm_memory_pool_t := MemoryPool (memories pool) 0.

Definition evm_memory_pool_borrow (debug : bool) (pool : evm_memory_pool_t) : checked (option nat * evm_memory_pool_t) :=
  assertion debug (mp_depth pool <? EVM_MAX_CALL_DEPTH)
    (if mp_depth pool >=? EVM_MAX_CALL_DEPTH then Went (None, pool)
     else
       let i := Z.to_nat (mp_depth pool) in
       Went (Some i, MemoryPool (list_set (memories pool) i evm_memory_init) (mp_depth pool + 1))).

Definition evm_memory_pool_return (debug : bool) (pool : evm_memory_pool_t) : checked evm_memory_pool_t :=
  assertion debug (mp_depth pool >? 0)
    (Went (if mp_depth pool >? 0 then
             let i := Z.to_nat (mp_depth pool - 1) in
             MemoryPool (list_set (memories pool) i (evm_memory_reset (nth i (memories pool) evm_memory_init))) (mp_depth pool - 1)
           else pool)).

Definition evm_memory_pool_depth (pool : evm_memory_pool_t) : Z := mp_depth pool.

(** * What the interpreter does with them *)

Definition pools : Type := (call_frame_pool_t * evm_memory_pool_t)%type.

(** The fields of a frame as they are assigned, all of them, in
    [init_root_frame] and [init_child_frame]; [mem] is the memory's pointer. *)
Definition slot_of (f : call_frame_t) (mem : option nat) : frame_slot :=
  FrameSlot (pc f) (gas f) (Some (stack f)) mem (Some (code f)) (output_offset f) (output_size f) (depth f) (exec_type f) (is_static f)
    (caller f) (address f) (value f) (Some (input f)) (jumpdest_bitmap f) (code_hash f).

(** Renting a frame and a memory for it, as [init_root_frame] and
    [init_child_frame] do. The frame's fields are assigned; its memory is what
    the pool hands out, and its pointer is not tested. [None] when there is no
    frame. *)
Definition enter (debug : bool) (p : pools) (f : call_frame_t) : checked (option pools) :=
  andthen (call_frame_pool_rent debug (fst p)) (fun r =>
    match r with
    | (None, _) => Went None
    | (Some i, fp) =>
        andthen (evm_memory_pool_borrow debug (snd p)) (fun b =>
          let (mem, mp) := b in
          Went (Some (FramePool (list_set (frames fp) i (slot_of f mem)) (fp_depth fp), mp)))
    end).

(** The current frame has run: its slot and the memory it points to changed. *)
Definition update (debug : bool) (p : pools) (f : call_frame_t) : checked (option pools) :=
  andthen (call_frame_pool_at debug (fst p) (call_frame_pool_depth (fst p) - 1)) (fun i => Went
    match nth_error (frames (fst p)) i with
    | Some s =>
        match s_memory s with
        | Some mem => Some (FramePool (list_set (frames (fst p)) i (slot_of f (Some mem))) (fp_depth (fst p)),
                            MemoryPool (list_set (memories (snd p)) mem (memory f)) (mp_depth (snd p)))
        | None => None
        end
    | None => None
    end).

(** Giving both back at the end of a child, the memory first. *)
Definition leave_child (debug : bool) (p : pools) : checked pools :=
  andthen (evm_memory_pool_return debug (snd p)) (fun mp => andthen (call_frame_pool_return debug (fst p)) (fun fp => Went (fp, mp))).

(** * The two views *)

(** What a frame's pointers lead to. *)
Definition read_frame (p : pools) (i : nat) : option call_frame_t :=
  match nth_error (frames (fst p)) i with
  | Some s =>
      match s_stack s, s_memory s, s_code s, s_input s with
      | Some st, Some mem, Some c, Some inp =>
          match nth_error (memories (snd p)) mem with
          | Some m => Some (Frame (s_pc s) (s_gas s) st m c (s_output_offset s) (s_output_size s) (s_depth s) (s_exec_type s) (s_is_static s)
                              (s_caller s) (s_address s) (s_value s) inp (s_jumpdest_bitmap s) (s_code_hash s))
          | None => None
          end
      | _, _, _, _ => None
      end
  | None => None
  end.

(** The pools hold the frames [fs], the root first, and the memories from there
    to [peak] were given back. *)
Record hold (p : pools) (fs : list call_frame_t) (peak : nat) : Prop := {
  h_frames : length (frames (fst p)) = Z.to_nat EVM_MAX_CALL_DEPTH;
  h_memories : length (memories (snd p)) = Z.to_nat EVM_MAX_CALL_DEPTH;
  h_fdepth : fp_depth (fst p) = Z.of_nat (length fs);
  h_mdepth : mp_depth (snd p) = Z.of_nat (length fs);
  h_limit : Z.of_nat (length fs) <= EVM_MAX_CALL_DEPTH;
  h_slots i f : nth_error fs i = Some f -> nth_error (frames (fst p)) i = Some (slot_of f (Some i)) /\ nth_error (memories (snd p)) i = Some (memory f);
  h_peak : (peak <= Z.to_nat EVM_MAX_CALL_DEPTH)%nat;
  h_empty i : (length fs <= i < peak)%nat -> nth_error (memories (snd p)) i = Some (Memory [] 0) }.

Lemma nth_error_inside {A} (l : list A) i v : nth_error l i = Some v -> (i < length l)%nat.
Proof. intros E. apply nth_error_Some. congruence. Qed.

Lemma nth_error_last {A} (l : list A) x i v : nth_error (l ++ [x]) i = Some v -> (i < length l)%nat /\ nth_error l i = Some v \/ i = length l /\ v = x.
Proof.
  intros E. pose proof (nth_error_inside _ _ _ E) as L. rewrite length_app in L. cbn in L. destruct (Nat.eq_dec i (length l)) as [->|N].
  - rewrite nth_error_app2, Nat.sub_diag in E by lia. cbn in E. right. split; congruence.
  - rewrite nth_error_app1 in E by lia. left. split; [lia | exact E].
Qed.

Lemma hold_reads p fs pk i f : hold p fs pk -> nth_error fs i = Some f -> read_frame p i = Some f.
Proof. intros H E. destruct (h_slots _ _ _ H i f E) as [S M]. unfold read_frame. rewrite S. cbn. rewrite M. destruct f; reflexivity. Qed.

(** Entry [i] of an array after a write to entry [j]. *)
Ltac entry := rewrite nth_error_list_set by lia; match goal with |- context [Nat.eqb ?i ?j] => destruct (Nat.eqb_spec i j); [subst | ] end.

Lemma rent_spec debug p fs pk : hold p fs pk ->
  call_frame_pool_rent debug (fst p) = (if Z.of_nat (length fs) <? EVM_MAX_CALL_DEPTH then Went (Some (length fs), FramePool (list_set (frames (fst p)) (length fs) call_frame_reset) (Z.of_nat (length fs) + 1))
    else if debug then Aborted else Went (None, fst p)) /\
  evm_memory_pool_borrow debug (snd p) = (if Z.of_nat (length fs) <? EVM_MAX_CALL_DEPTH then Went (Some (length fs), MemoryPool (list_set (memories (snd p)) (length fs) evm_memory_init) (Z.of_nat (length fs) + 1))
    else if debug then Aborted else Went (None, snd p)).
Proof.
  intros H. unfold call_frame_pool_rent, evm_memory_pool_borrow, assertion. rewrite (h_fdepth _ _ _ H), (h_mdepth _ _ _ H), Z.geb_leb, Nat2Z.id.
  destruct (Z.ltb_spec (Z.of_nat (length fs)) EVM_MAX_CALL_DEPTH).
  - rewrite (proj2 (Z.leb_gt _ _)) by lia. destruct debug; split; reflexivity.
  - rewrite (proj2 (Z.leb_le _ _)) by lia. destruct debug; split; reflexivity.
Qed.

Lemma enter_holds debug p fs pk f : hold p fs pk ->
  if Z.of_nat (length fs) <? EVM_MAX_CALL_DEPTH then exists p', enter debug p f = Went (Some p') /\ hold p' (fs ++ [set_memory f (Memory [] 0)]) (Nat.max pk (S (length fs)))
  else enter debug p f = if debug then Aborted else Went None.
Proof.
  intros H. destruct (rent_spec debug p fs pk H) as [R B]. unfold enter. rewrite R, B. destruct H as [Lf Lm Df Dm Lim Sl Pk Em].
  destruct (Z.ltb_spec (Z.of_nat (length fs)) EVM_MAX_CALL_DEPTH) as [L|L]; [|destruct debug; reflexivity]. cbn [andthen frames fp_depth].
  eexists. split; [reflexivity|]. split; cbn [fst snd frames memories fp_depth mp_depth]; rewrite ?length_list_set, ?length_app; cbn [length]; try lia.
  - intros i g E. rewrite !nth_error_list_set by (rewrite ?length_list_set; lia). destruct (nth_error_last _ _ _ _ E) as [[Li Ei]|[-> ->]].
    + rewrite (proj2 (Nat.eqb_neq _ _)) by lia. exact (Sl i g Ei).
    + rewrite Nat.eqb_refl. split; reflexivity.
  - intros i Hi. entry; [lia|]. apply Em. lia.
Qed.

Lemma update_holds debug p fs f g pk : hold p (fs ++ [f]) pk -> exists p', update debug p g = Went (Some p') /\ hold p' (fs ++ [g]) pk.
Proof.
  intros [Lf Lm Df Dm Lim Sl Pk Em]. unfold update, call_frame_pool_at, call_frame_pool_depth, assertion. rewrite Df. rewrite length_app in *. cbn [length] in *.
  rewrite (proj2 (Z.ltb_lt _ _)), andb_false_r by lia. cbn [andthen]. replace (Z.to_nat (Z.of_nat (length fs + 1) - 1)) with (length fs) by lia.
  destruct (Sl (length fs) f) as [S M]; [rewrite nth_error_app2, Nat.sub_diag by lia; reflexivity|]. rewrite S. cbn [slot_of s_memory].
  eexists. split; [reflexivity|]. split; cbn [fst snd frames memories fp_depth mp_depth]; rewrite ?length_list_set, ?length_app; cbn [length]; try lia.
  - intros i x E. rewrite !nth_error_list_set by lia. destruct (nth_error_last _ _ _ _ E) as [[Li Ei]|[-> ->]].
    + rewrite (proj2 (Nat.eqb_neq _ _)) by lia. apply Sl. rewrite nth_error_app1 by lia. exact Ei.
    + rewrite Nat.eqb_refl. split; reflexivity.
  - intros i Hi. entry; [lia|]. apply Em. lia.
Qed.

Lemma leave_holds debug p fs f pk : hold p (fs ++ [f]) pk -> exists p', leave_child debug p = Went p' /\ hold p' fs (Nat.max pk (S (length fs))).
Proof.
  intros [Lf Lm Df Dm Lim Sl Pk Em]. rewrite length_app in *. cbn [length] in *. unfold leave_child, call_frame_pool_return, evm_memory_pool_return, assertion. rewrite Df, Dm.
  rewrite !Z.gtb_ltb, (proj2 (Z.ltb_lt _ _)), andb_false_r by lia. cbn [andthen]. replace (Z.to_nat (Z.of_nat (length fs + 1) - 1)) with (length fs) by lia.
  eexists. split; [reflexivity|]. split; cbn [fst snd frames memories fp_depth mp_depth]; rewrite ?length_list_set; try lia.
  - intros i g E. pose proof (nth_error_inside _ _ _ E) as Hi. destruct (Sl i g) as [S M]; [rewrite nth_error_app1 by lia; exact E|].
    split; [exact S|]. entry; [lia | exact M].
  - intros i Hi. entry; [reflexivity | apply Em; lia].
Qed.

(** * Nested calls *)

Inductive pool_op := Enter (f : call_frame_t) | Update (f : call_frame_t) | Leave.

Definition pool_exec (debug : bool) (p : pools) (op : pool_op) : checked (option pools) :=
  match op with
  | Enter f => enter debug p f
  | Update f => update debug p f
  | Leave => andthen (leave_child debug p) (fun p => Went (Some p))
  end.

Fixpoint pool_run (debug : bool) (p : pools) (ops : list pool_op) : checked (option pools) :=
  match ops with
  | [] => Went (Some p)
  | op :: ops => andthen (pool_exec debug p op) (fun o => match o with Some p => pool_run debug p ops | None => Went None end)
  end.

(** The frames by value, the current one first: at most 1024 of them, a new one
    with an empty memory, and there has to be one to update or to leave. *)
Definition frames_exec (fs : list call_frame_t) (op : pool_op) : option (list call_frame_t) :=
  match op, fs with
  | Enter f, _ => if pool_rent (Z.of_nat (length fs)) then Some (set_memory f (Memory [] 0) :: fs) else None
  | Update f, _ :: rest => Some (f :: rest)
  | Leave, _ :: rest => Some rest
  | _, [] => None
  end.

Fixpoint frames_run (fs : list call_frame_t) (ops : list pool_op) : option (list call_frame_t) :=
  match ops with
  | [] => Some fs
  | op :: ops => match frames_exec fs op with Some fs => frames_run fs ops | None => None end
  end.

(** The most frames there are at one time, from [d] of them. *)
Fixpoint deepest (d : nat) (ops : list pool_op) : nat :=
  match ops with
  | [] => d
  | Enter _ :: ops => Nat.max d (deepest (S d) ops)
  | Update _ :: ops => deepest d ops
  | Leave :: ops => Nat.max d (deepest (pred d) ops)
  end.

Lemma hold_less p fs pk pk' : (pk' <= pk)%nat -> hold p fs pk -> hold p fs pk'.
Proof. intros L [Lf Lm Df Dm Lim Sl Pk Em]. split; auto; [lia | intros i Hi; apply Em; lia]. Qed.

Lemma run_holds debug ops : forall p fs fs' pk, hold p (rev fs) pk -> frames_run fs ops = Some fs' ->
  exists p', pool_run debug p ops = Went (Some p') /\ hold p' (rev fs') (Nat.max pk (deepest (length fs) ops)).
Proof.
  induction ops as [|op ops IH]; intros p fs fs' pk H; cbn [frames_run pool_run deepest].
  { intros [= <-]. exists p. split; [reflexivity|]. pose proof H as [Lf Lm Df Dm Lim Sl Pk Em]. rewrite length_rev in *.
    split; rewrite ?length_rev; auto; [lia|]. intros i Hi. apply Em. lia. }
  destruct op as [f|f|]; cbn [frames_exec pool_exec].
  - pose proof (enter_holds debug p (rev fs) pk f H) as E. rewrite length_rev in E. unfold pool_rent.
    destruct (Z.of_nat (length fs) <? EVM_MAX_CALL_DEPTH); [|discriminate]. destruct E as (p1 & -> & H1). intros F.
    destruct (IH p1 (set_memory f (Memory [] 0) :: fs) fs' _ H1 F) as (p' & E' & H'). exists p'. split; [exact E'|]. revert H'. apply hold_less. cbn [length]. lia.
  - destruct fs as [|g rest]; [discriminate|]. intros F. destruct (update_holds debug p (rev rest) g f pk H) as (p1 & -> & H1). exact (IH p1 (f :: rest) fs' pk H1 F).
  - destruct fs as [|g rest]; [discriminate|]. intros F. destruct (leave_holds debug p (rev rest) g pk H) as (p1 & -> & H1). rewrite length_rev in H1.
    destruct (IH p1 rest fs' _ H1 F) as (p' & E' & H'). exists p'. split; [exact E'|]. revert H'. apply hold_less. cbn [length pred]. lia.
Qed.

(** A frame none of whose fields is set. *)
Definition blank : frame_slot :=
  FrameSlot 0 0 None None None 0 0 0 EXEC_TX_START false (repeat 0 20) (repeat 0 20) (U256 0 0 0 0) None None (repeat 0 32).

(** C19: Nested calls on the pools are nested calls on values. From initialised
    pools with any contents, in a debug or a release build, every sequence of
    calls, executions and returns within the depth of 1024 runs without a failed
    assertion and leaves every suspended frame, read through its pointers,
    exactly as the interpreter's list of frames has it, although slots of
    returned frames are used again: a new frame has an empty memory. The
    memories that were given back are empty. The next frame handed out is blank
    and its memory empty, whatever their slots held; at full depth a release
    build gets no frame and a debug build ends. *)
Theorem pools_hold_frames debug fp mp ops fs : length (frames fp) = Z.to_nat EVM_MAX_CALL_DEPTH -> length (memories mp) = Z.to_nat EVM_MAX_CALL_DEPTH ->
  frames_run [] ops = Some fs ->
  exists p, pool_run debug (call_frame_pool_init fp, evm_memory_pool_init mp) ops = Went (Some p) /\
    call_frame_pool_depth (fst p) = Z.of_nat (length fs) /\ evm_memory_pool_depth (snd p) = Z.of_nat (length fs) /\
    (forall i f, nth_error (rev fs) i = Some f -> read_frame p i = Some f) /\
    (forall i, (length fs <= i < deepest 0 ops)%nat -> nth_error (memories (snd p)) i = Some (Memory [] 0)) /\
    if Z.of_nat (length fs) <? EVM_MAX_CALL_DEPTH then
      exists fp' mp', call_frame_pool_rent debug (fst p) = Went (Some (length fs), fp') /\ nth_error (frames fp') (length fs) = Some blank /\
        evm_memory_pool_borrow debug (snd p) = Went (Some (length fs), mp') /\ nth_error (memories mp') (length fs) = Some (Memory [] 0)
    else forall f, enter debug p f = if debug then Aborted else Went None.
Proof.
  intros Lf Lm E. destruct (run_holds debug ops (call_frame_pool_init fp, evm_memory_pool_init mp) [] fs 0) as (p & Er & H); [|exact E|].
  { split; cbn; auto; try lia; [discriminate | intros i f Hi; destruct i; discriminate]. }
  exists p. pose proof H as [Fl Ml Df Dm Lim _ _ Em]. pose proof (rent_spec debug p _ _ H) as [R B]. pose proof (fun f => enter_holds debug p (rev fs) _ f H) as En. rewrite length_rev in *.
  split; [exact Er|]. split; [exact Df|]. split; [exact Dm|]. split; [intros i f; apply (hold_reads _ _ _ i f H)|]. split; [exact Em|].
  destruct (Z.ltb_spec (Z.of_nat (length fs)) EVM_MAX_CALL_DEPTH) as [L|L]; [|exact En].
  eexists _, _. split; [exact R|]. cbn [frames]. split; [rewrite nth_error_list_set, Nat.eqb_refl by lia; reflexivity|].
  split; [exact B|]. cbn [memories]. rewrite nth_error_list_set, Nat.eqb_refl by lia. reflexivity.
Qed.

(** A root frame with a frame inside it, whose slot and memory are then used a
    second time. *)
Definition sample_slot (g : Z) (c : list Z) : call_frame_t :=
  Frame 0 g (Stack [] 32) (Memory [] 0) c 0 0 0 EXEC_TX_START false address_zero address_zero uint256_zero [] None hash_zero.
Definition sample_calls : list pool_op :=
  [Enter (sample_slot 9 [0]); Enter (sample_slot 5 [1]); Update (set_memory (sample_slot 3 [1]) (Memory [7; 7] 2)); Leave; Update (sample_slot 8 [0]);
   Enter (set_memory (sample_slot 2 [2]) (Memory [9] 1))].

Lemma pools_hold_frames_witness : exists p,
  pool_run true (call_frame_pool_init (FramePool (repeat call_frame_reset 1024) 77), evm_memory_pool_init (MemoryPool (repeat (Memory [1] 1) 1024) 99)) sample_calls = Went (Some p) /\
  read_frame p 0 = Some (sample_slot 8 [0]) /\ read_frame p 1 = Some (sample_slot 2 [2]).
Proof.
  destruct (pools_hold_frames true (FramePool (repeat call_frame_reset 1024) 77) (MemoryPool (repeat (Memory [1] 1) 1024) 99) sample_calls
    [sample_slot 2 [2]; sample_slot 8 [0]] eq_refl eq_refl eq_refl) as (p & E & _ & _ & R & _).
  exists p. split; [exact E|]. split; apply R; reflexivity.
Defined.
