(* ===== verification/Secp256k1.v ===== *)
(** The wrapper around libsecp256k1: src/crypto/secp256k1.c.

    [TxRlp] takes public-key recovery as one function. Here are the library's
    calls one by one, with the context they need, and that together they are
    such a function; then the curve itself, an instance for test vectors. *)
From Stdlib Require Import ZArith Lia List Bool.
From S2P Require Import Prelude Uint256 Types Bytes Rlp Transaction TxRlp.
Import ListNotations.
#[local] Open Scope Z_scope.

(** * The library *)

(** Contexts, parsed signatures and keys are its own; a call that returns 0 is
    [None]. Serialising an uncompressed key writes 65 bytes. *)
Class Secp256k1 := {
  secp256k1_context : Type;
  recoverable_signature : Type;
  pubkey : Type;
  context_create : option secp256k1_context;
  parse_compact : secp256k1_context -> list Z -> Z -> option recoverable_signature;
  ecdsa_recover_key : secp256k1_context -> recoverable_signature -> list Z -> option pubkey;
  pubkey_serialize : secp256k1_context -> pubkey -> list Z }.

(** The documentation: an uncompressed key is 65 bytes long. *)
Class Secp256k1Laws (S : Secp256k1) := {
  serialize_length c k : length (pubkey_serialize c k) = 65%nat;
  serialize_bytes c k : bytes_ok (pubkey_serialize c k) }.

Section Wrapper.
Context {S : Secp256k1}.

(** The wrapper's struct; its pointer may be null. *)
Record secp256k1_ctx_t := SecpCtx { ctx : option secp256k1_context }.

(** The objects that are allocated: the struct and the library's context. *)
Record allocated := Allocated { wrappers : Z; contexts : Z }.

Definition secp256k1_ctx_create (malloc_ok : bool) (a : allocated) : option secp256k1_ctx_t * allocated :=
  if negb malloc_ok then (None, a)
  else
    let a := Allocated (wrappers a + 1) (contexts a) in
    match context_create with
    | None => (None, Allocated (wrappers a - 1) (contexts a))
    | Some c => (Some (SecpCtx (Some c)), Allocated (wrappers a) (contexts a + 1))
    end.

Definition secp256k1_ctx_destroy (w : option secp256k1_ctx_t) (a : allocated) : allocated :=
  match w with
  | None => a
  | Some w =>
      let a := match ctx w with Some _ => Allocated (wrappers a) (contexts a - 1) | None => a end in
      Allocated (wrappers a - 1) (contexts a)
  end.

(** [None]: [success] is false. The arrays are not null. *)
Definition secp256k1_recover_pubkey (w : option secp256k1_ctx_t) (message_hash : list Z) (recovery_id : Z) (signature : list Z) : option (list Z) :=
  match w with
  | None | Some (SecpCtx None) => None
  | Some (SecpCtx (Some c)) =>
      if (recovery_id <? 0) || (recovery_id >? 3) then None
      else
        match parse_compact c signature recovery_id with
        | None => None
        | Some sig =>
            match ecdsa_recover_key c sig message_hash with
            | None => None
            | Some key => Some (firstn 64 (skipn 1 (pubkey_serialize c key)))
            end
        end
  end.

Definition secp256k1_ecrecover (keccak256 : list Z -> hash_t) (w : option secp256k1_ctx_t) (message_hash : uint256_t) (v : Z) (r s : uint256_t) (chain_id : Z) :
  option address_t :=
  match w with
  | None | Some (SecpCtx None) => None
  | Some (SecpCtx (Some _)) =>
      match recovery_id_of v chain_id with
      | None => None
      | Some recovery_id =>
          match secp256k1_recover_pubkey w (uint256_to_bytes_be message_hash) recovery_id (uint256_to_bytes_be r ++ uint256_to_bytes_be s) with
          | None => None
          | Some pk => Some (firstn ADDRESS_SIZE (skipn 12 (keccak256 pk)))
          end
      end
  end.

(** The library's calls as the one function of [TxRlp]. *)
Definition recover_with (c : secp256k1_context) (message_hash : list Z) (recovery_id : Z) (signature : list Z) : option (list Z) :=
  match parse_compact c signature recovery_id with
  | None => None
  | Some sig => match ecdsa_recover_key c sig message_hash with None => None | Some key => Some (firstn 64 (skipn 1 (pubkey_serialize c key))) end
  end.

(** * Behaviour *)

(** With a context the wrapper is the function the signer is verified with;
    without one nothing is recovered. *)
Lemma ecrecover_agrees keccak256 c message_hash v r s chain_id :
  secp256k1_ecrecover keccak256 (Some (SecpCtx (Some c))) message_hash v r s chain_id =
  TxRlp.secp256k1_ecrecover keccak256 (recover_with c) message_hash v r s chain_id.
Proof.
  unfold secp256k1_ecrecover, TxRlp.secp256k1_ecrecover. destruct (recovery_id_of v chain_id) as [id|]; [|reflexivity].
  unfold secp256k1_recover_pubkey, TxRlp.secp256k1_recover_pubkey, recover_with. destruct ((id <? 0) || (id >? 3)); [reflexivity|].
  destruct (parse_compact _ _ _) as [sig|]; [|reflexivity]. destruct (ecdsa_recover_key _ _ _); reflexivity.
Qed.

(** The recovery id is always one of the four the library accepts, in fact 0 or
    1, so the range check of [secp256k1_recover_pubkey] never fails. *)
Lemma recovery_id_bit v chain_id id : 0 <= v < 2 ^ 64 -> 0 <= chain_id < 2 ^ 64 -> recovery_id_of v chain_id = Some id -> id = 0 \/ id = 1.
Proof.
  intros Hv Hc. unfold recovery_id_of. destruct (Z.eqb_spec v 0) as [->|]; cbn [orb]; [intros [= <-]; auto|].
  destruct (Z.eqb_spec v 1) as [->|]; [intros [= <-]; auto|].
  destruct (Z.eqb_spec v 27) as [->|]; cbn [orb]; [intros [= <-]; auto|]. destruct (Z.eqb_spec v 28) as [->|]; [intros [= <-]; auto|].
  destruct (Z.gtb_spec chain_id 0).
  - unfold add64, sub64, mul64. set (b := w64 (w64 (chain_id * 2) + 35)). destruct (Z.eqb_spec v b) as [->|]; cbn [negb andb].
    { intros [= <-]. rewrite Z.sub_diag. auto. }
    destruct (Z.eqb_spec v (w64 (b + 1))) as [->|]; cbn [negb]; [|discriminate]. intros [= <-]. right. unfold w64.
    rewrite Zminus_mod_idemp_l. replace (b + 1 - b) with 1 by ring. reflexivity.
  - destruct (v >=? 35); [|discriminate]. intros [= <-]. pose proof (Z.mod_pos_bound (sub64 v 35) 2 ltac:(lia)). lia.
Qed.

(** What is created is destroyed: in every case the allocations are as before. *)
Lemma ctx_balanced malloc_ok a : let '(w, a') := secp256k1_ctx_create malloc_ok a in
  secp256k1_ctx_destroy w a' = a /\ (w = None -> a' = a) /\ (forall c, w = Some (SecpCtx c) -> c <> None).
Proof.
  destruct a as [ws cs]. unfold secp256k1_ctx_create. destruct malloc_ok; cbn [negb]; [|cbn; repeat split; discriminate].
  destruct context_create as [c|]; cbn.
  - split; [f_equal; lia|]. split; [discriminate|]. intros c' [= <-]. discriminate.
  - replace (ws + 1 - 1) with ws by lia. split; [reflexivity|]. split; [reflexivity | discriminate].
Qed.

(** A recovered key is 64 bytes. *)
Lemma recovered_key_length {L : Secp256k1Laws S} w hash id sig k : secp256k1_recover_pubkey w hash id sig = Some k -> length k = 64%nat /\ bytes_ok k.
Proof.
  unfold secp256k1_recover_pubkey. destruct w as [[[c|]]|]; try discriminate. destruct (_ || _); [discriminate|].
  destruct (parse_compact _ _ _); [|discriminate]. destruct (ecdsa_recover_key _ _ _) as [key|]; [|discriminate]. intros E.
  assert (k = firstn 64 (skipn 1 (pubkey_serialize c key))) as -> by congruence. split; [rewrite length_firstn, length_skipn, serialize_length; reflexivity|]. apply Forall_firstn.
  pose proof (serialize_bytes c key) as B. rewrite <- (firstn_skipn 1) in B. apply Forall_app in B. exact (proj2 B).
Qed.
End Wrapper.

(** * The curve

    Public-key recovery on the curve secp256k1, from the definition of ECDSA
    (SEC 1, section 4.1.6): the concrete library with which the wrapper is
    evaluated on the repository's test vectors. *)

(** ** The field and the group *)

Definition field_p : Z := 2 ^ 256 - 2 ^ 32 - 977.
Definition order_n : Z := 0xFFFFFFFFFFFFFFFFFFFFFFFFFFFFFFFEBAAEDCE6AF48A03BBFD25E8CD0364141.

(** 2^256 is 2^32 + 977 modulo the prime. *)
Definition fold_p (t : Z) : Z := Z.land t (Z.ones 256) + Z.shiftr t 256 * 4294968273.
Definition reduce_p (t : Z) : Z := let t := fold_p (fold_p t) in if t <? field_p then t else t - field_p.
Definition mul_p (a b : Z) : Z := reduce_p (a * b).
Definition sub_p (a b : Z) : Z := if b <=? a then a - b else a + field_p - b.

Fixpoint pow_pos (x : Z) (e : positive) : Z :=
  match e with
  | xH => x
  | xO e => let y := pow_pos x e in mul_p y y
  | xI e => let y := pow_pos x e in mul_p (mul_p y y) x
  end.
Definition pow_p (x e : Z) : Z := match e with Zpos e => pow_pos x e | _ => 1 end.

(** Inverses by Euclid's algorithm: [s] and [t] with [s * a] and [t * a]
    congruent to [r] and [r'] modulo [m]. *)
Fixpoint euclid (fuel : nat) (r r' s t : Z) : Z :=
  match fuel with
  | O => s
  | S fuel => if r' =? 0 then s else let q := r / r' in euclid fuel r' (r - q * r') t (s - q * t)
  end.
Definition inverse (a m : Z) : Z := euclid 400 m (a mod m) 0 1 mod m.

(** Points in Jacobian coordinates; [z = 0] is the neutral element. *)
Record point := Point { px : Z; py : Z; pz : Z }.
Definition infinity : point := Point 1 1 0.
Definition twice (a : Z) : Z := reduce_p (a + a).

Definition double (a : point) : point :=
  let x2 := mul_p (px a) (px a) in
  let y2 := mul_p (py a) (py a) in
  let y4 := mul_p y2 y2 in
  let s := twice (twice (mul_p (px a) y2)) in
  let m := reduce_p (3 * x2) in
  let x := sub_p (mul_p m m) (twice s) in
  Point x (sub_p (mul_p m (sub_p s x)) (reduce_p (8 * y4))) (twice (mul_p (py a) (pz a))).

Definition add (a b : point) : point :=
  if pz a =? 0 then b
  else if pz b =? 0 then a
  else
    let z1 := mul_p (pz a) (pz a) in
    let z2 := mul_p (pz b) (pz b) in
    let u1 := mul_p (px a) z2 in
    let u2 := mul_p (px b) z1 in
    let s1 := mul_p (py a) (mul_p z2 (pz b)) in
    let s2 := mul_p (py b) (mul_p z1 (pz a)) in
    if u1 =? u2 then (if s1 =? s2 then double a else infinity)
    else
      let h := sub_p u2 u1 in
      let r := sub_p s2 s1 in
      let h2 := mul_p h h in
      let h3 := mul_p h2 h in
      let v := mul_p u1 h2 in
      let x := sub_p (sub_p (mul_p r r) h3) (twice v) in
      Point x (sub_p (mul_p r (sub_p v x)) (mul_p s1 h3)) (mul_p h (mul_p (pz a) (pz b))).

(** [u1 * a + u2 * b], bit by bit from the top. *)
Fixpoint combine_bits (n : nat) (u1 u2 : Z) (a b ab acc : point) : point :=
  match n with
  | O => acc
  | S n =>
      let acc := double acc in
      let i := Z.of_nat n in
      let acc := match Z.testbit u1 i, Z.testbit u2 i with true, true => add acc ab | true, false => add acc a | false, true => add acc b | _, _ => acc end in
      combine_bits n u1 u2 a b ab acc
  end.
Definition combination (u1 u2 : Z) (a b : point) : point := combine_bits 256 u1 u2 a b (add a b) infinity.

Definition generator : point :=
  Point 0x79BE667EF9DCBBAC55A06295CE870B07029BFCDB2DCE28D959F2815B16F81798 0x483ADA7726A3C4655DA4FBFC0E1108A8FD17B448A68554199C47D08FFB10D4B8 1.

Definition affine (a : point) : Z * Z :=
  let i := inverse (pz a) field_p in
  let i2 := mul_p i i in
  (mul_p (px a) i2, mul_p (py a) (mul_p i2 i)).

(** ** The library *)

(** A parsed signature: [r], [s] and the recovery id. *)
Record signature := Signature { sig_r : Z; sig_s : Z; sig_id : Z }.

Definition curve_parse (c : unit) (bytes : list Z) (id : Z) : option signature :=
  let r := be_val (firstn 32 bytes) in
  let s := be_val (skipn 32 bytes) in
  if (r <? order_n) && (s <? order_n) then Some (Signature r s id) else None.

(** The point with the given abscissa and parity of the ordinate. *)
Definition lift_x (x : Z) (odd : bool) : option point :=
  if x <? field_p then
    let y2 := reduce_p (mul_p (mul_p x x) x + 7) in
    let y := pow_p y2 ((field_p + 1) / 4) in
    if mul_p y y =? y2 then Some (Point x (if Bool.eqb (Z.odd y) odd then y else sub_p 0 y) 1) else None
  else None.

Definition curve_recover (c : unit) (sig : signature) (hash : list Z) : option (Z * Z) :=
  if (sig_r sig =? 0) || (sig_s sig =? 0) then None
  else
    match lift_x (sig_r sig + (if 2 <=? sig_id sig then order_n else 0)) (Z.odd (sig_id sig)) with
    | None => None
    | Some big_r =>
        let i := inverse (sig_r sig) order_n in
        let u1 := (order_n - be_val hash mod order_n) * i mod order_n in
        let u2 := sig_s sig * i mod order_n in
        let q := combination u1 u2 generator big_r in
        if pz q =? 0 then None else Some (affine q)
    end.

Definition curve_serialize (c : unit) (k : Z * Z) : list Z := 4 :: be_bytes 32 (fst k) ++ be_bytes 32 (snd k).

#[export] Instance curve : Secp256k1 := {|
  secp256k1_context := unit; recoverable_signature := signature; pubkey := (Z * Z)%type;
  context_create := Some tt; parse_compact := curve_parse; ecdsa_recover_key := curve_recover; pubkey_serialize := curve_serialize |}.

#[export] Instance curve_laws : Secp256k1Laws curve.
Proof.
  split.
  - intros c [x y]. cbn [pubkey_serialize curve curve_serialize fst snd length]. rewrite length_app, !length_be_bytes. reflexivity.
  - intros c [x y]. apply Forall_cons; [unfold u8; lia|]. apply Forall_app; split; apply be_bytes_ok.
Qed.
