(* ===== verification/Conformance.v ===== *)
(** Properties of the hasher, and the model evaluated on the repository's own
    test vectors with Keccak-256 and secp256k1 of the specifications as the
    libraries: the constants of include/div0/trie/node.h and
    include/div0/state/account.h, tests/crypto/test_keccak256.c,
    tests/trie/test_mpt.c and tests/ethereum/transaction/test_transaction.c. *)
From Stdlib Require Import ZArith Lia List Bool String.
From S2P Require Import Prelude Types Effects Bytes Rlp Account Hex HashTable Nibbles Trie Keccak Uint256 Transaction TxRlp Secp256k1.
Import ListNotations.
#[local] Open Scope Z_scope.
#[local] Open Scope string_scope.

(** * The hasher *)

(** C37: The incremental hasher refines a byte buffer. From storage that holds
    anything (a hasher not yet initialised), every sequence of init, update,
    finalize, reset and destroy calls that the specification allows runs
    without a failed assertion and returns, at each finalize, the sponge's
    32-byte output on exactly the bytes given since the last init, reset or
    finalize, however they were cut into updates; in particular a finalised
    hasher can be used again without being initialised. *)
Theorem hasher_refines {SP : Sponge} {LP : SpongeLaws SP} (h : keccak256_hasher_t) (ops : list hasher_op) buffer outs :
  spec_run digest None ops = Some (buffer, outs) -> exists h', hasher_run h ops = Some (h', outs) /\ represents h' buffer.
Proof. apply run_refines. exact I. Qed.

Definition reuse_calls : list hasher_op := [Init; Finalize; Update [0]; Finalize; Update [0; 0]; Update []; Update [0; 0; 0]; Finalize; Destroy].

Lemma hasher_refines_witness : exists h', hasher_run (Hasher [7; 7]) reuse_calls = Some (h', [keccak []; keccak [0]; keccak [0; 0; 0; 0; 0]]) /\ represents h' None.
Proof. exact (hasher_refines (Hasher [7; 7]) reuse_calls None _ eq_refl). Defined.

(** The one-shot function from any stack contents: no assertion fails, the
    hash is 32 bytes and is what an incremental hasher gives for the same
    input cut in two at any point, and the hasher's storage is left all zeros. *)
Theorem keccak256_one_shot {SP : Sponge} {LP : SpongeLaws SP} (h : keccak256_hasher_t) (a b : list Z) :
  exists h' result, keccak256 h (a ++ b) = Some (h', result) /\ wf_hash result /\ state h' = repeat 0 KECCAK256_STATE_SIZE /\
    exists h'', hasher_run h [Init; Update a; Update b; Finalize] = Some (h'', [result]).
Proof.
  destruct (keccak256_digest h (a ++ b)) as (h' & E & Zs). exists h', (digest (a ++ b)). split; [exact E|]. split; [apply digest_wf|].
  split; [exact Zs|]. destruct (run_refines [Init; Update a; Update b; Finalize] h None (Some []) [digest (a ++ b)] I eq_refl) as (h'' & E'' & _).
  exists h''. exact E''.
Qed.

(** * Constants *)

(** The two hash constants the state relies on are what they are said to
    be: the code hash of an account without code is the Keccak-256 hash of no
    bytes, and the root of the empty trie is that of the RLP empty string. *)
Theorem hash_constants : EMPTY_CODE_HASH = keccak [] /\ MPT_EMPTY_ROOT = keccak (b_data (rlp_encode_bytes [])).
Proof. split; vm_compute; reflexivity. Qed.

(** * Test vectors *)

Definition hash_hex (s : string) : hash_t := snd (hash_from_hex (Some (lit s))).

Example keccak_single_zero : keccak [0] = hash_hex "bc36789e7a1e281436464229828f817d6612f7b477d66591ff96a9e064bcc98a".
Proof. vm_compute; reflexivity. Qed.

Example keccak_five_zeros : keccak (repeat 0 5) = hash_hex "c41589e7559804ea4a2080dad19d876a024ccb05117835447d72ce08c1d020ec".
Proof. vm_compute; reflexivity. Qed.

Example keccak_ten_zeros : keccak (repeat 0 10) = hash_hex "6bd2dd6bd408cbee33429358bf24fdc64612fbf8b1b4db604518f40ffd34b607".
Proof. vm_compute; reflexivity. Qed.

Example keccak_32_zeros : keccak (repeat 0 32) = hash_hex "290decd9548b62a8d60345a988386fc84ba6bc95484008f6362f93160ef3e563".
Proof. vm_compute; reflexivity. Qed.

(** The root of the trie that a sequence of inserts builds. *)
Definition vector_root (kvs : list (string * string)) : option hash_t :=
  let t := fold_left (fun t '(k, v) => match t with inl t => mpt_insert keccak t (lit k) (lit v) | inr f => inr f end)
                     kvs (inl mpt_memory_backend_create) in
  match t with
  | inl t => match mpt_root_hash keccak t with inl (_, h) => Some h | inr _ => None end
  | inr _ => None
  end.

Example vector_dogs : vector_root [("doe", "reindeer"); ("dog", "puppy"); ("dogglesworth", "cat")] =
  Some (hash_hex "8aad789dff2f538bca5d8ea56e8abe10f4c7ba3a5dea95fea4cd6e7c3a1168d3").
Proof. vm_compute; reflexivity. Qed.

Example vector_puppy : vector_root [("do", "verb"); ("horse", "stallion"); ("doge", "coin"); ("dog", "puppy")] =
  Some (hash_hex "5991bb8c6514148a29db676a14ac506cd2cd5775ace63c30a4fe457715e9ac84").
Proof. vm_compute; reflexivity. Qed.

Example vector_foo : vector_root [("foo", "bar"); ("food", "bass")] =
  Some (hash_hex "17beaa1648bafa633cda809c90c04af50fc8aed3cb40d16efbddee6fdf63c4c3").
Proof. vm_compute; reflexivity. Qed.

Example vector_small_values : vector_root [("be", "e"); ("dog", "puppy"); ("bed", "d")] =
  Some (hash_hex "3f67c7a47520f79faa29255d2d3c084a7a6df0453116ed7232ff10277a8be68b").
Proof. vm_compute; reflexivity. Qed.

Example vector_testy : vector_root [("test", "test"); ("te", "testy")] =
  Some (hash_hex "8452568af70d8d140f58d941338542f645fcca50094b20f3c3d8c3df49337928").
Proof. vm_compute; reflexivity. Qed.

Example vector_insert_middle_leaf : vector_root
  [("key1aa", "0123456789012345678901234567890123456789xxx"); ("key1", "0123456789012345678901234567890123456789Very_Long");
   ("key2bb", "aval3"); ("key2", "short"); ("key3cc", "aval3"); ("key3", "1234567890123456789012345678901")] =
  Some (hash_hex "cb65032e2f76c48b82b5c24b3db8f670ce73982869d38cd39a624f23d62a9e89").
Proof. vm_compute; reflexivity. Qed.

Example vector_branch_value_update : vector_root [("abc", "123"); ("abcd", "abcd"); ("abc", "abc")] =
  Some (hash_hex "7a320748f780ad9ad5b0837302075ce0eeba6c26e3d8562c67ccc0f1b273298a").
Proof. vm_compute; reflexivity. Qed.

(** * Senders

    The signer end to end on a signed transaction of
    tests/ethereum/transaction/test_transaction.c: the raw bytes are decoded, the
    signing hash is built and hashed, and the sender is recovered, with the
    Keccak-256 and the curve of their specifications as the two libraries. *)

Definition raw_transaction (s : string) : list Z := snd (hex_decode (Some (lit s)) (repeat 0 (String.length s / 2))).

(** The type, the bytes consumed and the recovered sender. *)
Definition sender_of (s : string) : option (Z * Z * option (option address_t)) :=
  match transaction_decode (fun _ l x => (l ++ [x])%list) 1000 (raw_transaction s) with
  | DecodeOk tx n => Some (tx_type tx, n, transaction_recover_sender keccak (recover_with (S := curve) tt) tx)
  | _ => None
  end.

Definition address_hex (s : string) : address_t := snd (address_from_hex (Some (lit s))).

(** An EIP-2930 transaction with an access list: its signing hash
    starts with the type byte. *)
Example sender_eip2930 :
  sender_of "01f89a018001826a4094095e7baea6a6c7c4c2dfeb977efac326af552d878080f838f794a95e7baea6a6c7c4c2dfeb977efac326af552d87e1a0ffffffffffffffffffffffffffffffffffffffffffffffffffffffffffffffff80a05cbd172231fc0735e0fb994dd5b1a4939170a260b36f0427a8a80866b063b948a07c230f7f578dd61785c93361b9871c0706ebfa6d06e3f4491dc9558c5202ed36" =
  Some (1, 157, Some (Some (address_hex "ebe76799923fd62804659fb00b4f0f1a94c0eb1e"))).
Proof. vm_compute; reflexivity. Qed.
